(* ===== verification/_CoqProject ===== *)
-Q . S2P
Prelude.v
Bytes.v
Cpio.v
Disk.v
Gpt.v
Mem.v
Sav.v
Pmm.v
Vm.v
Sched.v
SchedRun.v
User.v
Signal.v
Fat.v
FatTable.v
FatFile.v
FatDir.v
File.v
FileRun.v
Net.v
Packets.v
Tcp.v
TcpRun.v
Elf.v
ElfRun.v
Gzip.v
GzipRun.v
GzipSafe.v
Fdt.v
FdtGen.v
FdtRun.v
FdtFind.v
Vboot.v
VbootRun.v
Syscall.v
SyscallMem.v
SyscallFds.v
SavTypes.v
SavLex.v
SavLexRun.v
SavParse.v
SavCheck.v
SavCheckRun.v
SavCheckTyped.v
SavParseRun.v
SavArm.v
SavGen.v
SavGenRun.v
Savc.v
