(* ===== verification/Prelude.v ===== *)
(** * VerkOS: a verification library for the kernel, the loader and the tools

    VerkOS is a small operating system: the kernel [stam] for 64-bit ARM, the
    loader [vboot], the compiler [savc] of the language sav, and a set of user
    programs.  This library models the parts of the kernel that keep state and
    that programs and the outside world depend on - memory, processes, files,
    the network, system calls, the loading of programs - what the loader hands
    over, and the tools that write what the kernel reads.  Every definition
    follows the C function it is named after; what the code reads outside the
    objects it was given is a [Fault], and loops with no bound of their own take
    fuel and say [Diverge] when it runs out.

    ** The parts and their files

    - [Prelude]: this file.  Machine integers ([uwrap], [swrap]), outcomes,
      buffers as lists of bytes, the tactics and the generic lemmas.
    - [Bytes]: the accessors of multi-byte fields (rd16 ... put64), used by
      every format below.
    - [Cpio]: the initrd.  [Reader] is stam/cpio.c, [Writer] and [Extract] are
      vcpio/vcpio.c.
    - [Disk]: what stam/virtio.h promises of a block device, as the class
      [BlockDev] with its laws, and a disk in a map that keeps them.
    - [Gpt]: [Find] is stam/gpt.c, [Crc] and [Table] are vpart/vpart.c.
    - [Mem], [Pmm]: the kernel's memory as words, and the page allocator and
      reference counts of stam/mmu.c.
    - [Sav]: the manifest a program carries, and the kernel's test of it.
    - [Vm]: stam/vm.c - page tables, copy-on-write, the check of a program's
      addresses, the copying and freeing of spaces - over [Pmm].
    - [Sched], [SchedRun]: stam/sched.c, one operation per section under the
      scheduler lock; and its runs, the processors interleaved in any order.
    - [User], [Signal]: stam/signal.c over the program's memory, which is behind
      the class [UserMem].
    - [Fat], [FatTable], [FatFile], [FatDir]: stam/fat.c over [Disk]: the
      operations, then the table of clusters, the contents of files, names and
      directories.
    - [File], [FileRun]: stam/file.c over the scheduler, the initrd and the
      disk; the console and the sockets are behind the class [Channels].
    - [Net], [Packets]: stam/net.c over the class [Machine] (the card, the
      timer, the wait); and what arrives of what is sent.
    - [Tcp], [TcpRun]: stam/tcp.c over [Net].  The two call each other:
      [tcp_input] is a parameter of [Net], and the sender one of [Tcp].
    - [Elf], [ElfRun]: stam/elf.c, the loader, over a space behind the class
      [Space], which the page tables of [Vm] implement; and sav/src/elf.c, which
      writes the files it loads.
    - [Gzip], [GzipRun], [GzipSafe]: vgzip/vgzip.c - both directions, the
      container and the program over a map of files; then what compressing and
      decompressing come to, and what any input can do to the decoder.
    - [Fdt], [FdtGen]: the device tree.  stam/fdt.c, with what the drivers of
      the kernel look up in it (stam/handover_dtb.c, gic.c, smp.c, pci.c,
      console.c); and vboot/fdtgen.h, which writes it.  [FdtRun] is the round
      trip, [FdtFind] the lookups.
    - [Vboot], [VbootRun]: the tree vboot/vboot.c builds out of the firmware's
      tables, and what the kernel makes of it.
    - [Syscall]: stam/syscall.c - the trap, the dispatcher, every call, exec,
      and the waits a call is left in - over all of the kernel above; spaces and
      sockets are behind the classes [Spaces] and [Sockets].  [SyscallMem] is
      about the memory the calls write, [SyscallFds] about the descriptors.
    - The compiler savc, sav/src: [SavTypes] is sav.h and types.c - tokens,
      types, capabilities, the tree - and the monad its passes run in;
      [SavLex] is lex.c, [SavParse] parse.c over a file system that is a
      parameter, [SavCheck] check.c, [SavArm] arm.c, [SavGen] gen.c, and [Savc]
      main.c, the passes one after the other.  [SavLexRun] is what lexing comes
      to, [SavParseRun] what every parsed unit keeps, [SavCheckRun] what a
      checked tree leaves in the manifest, [SavCheckTyped] the typing rules,
      [SavGenRun] the code that comes out; [Savc] has the theorems on the whole.

    ** How they interact

    A process is a slot of [Sched]; its descriptors name objects of [File],
    which is why [File]'s world contains the scheduler, and blocking on a pipe
    is a scheduler operation.  [File] reads programs and data from [Cpio] and
    [Fat]; [Fat] finds its partition with [Gpt] and reads it through [Disk].
    [Vm] takes pages from [Pmm] and counts who holds them.  [Tcp] sends through
    [Net], and [Net] gives [Tcp] what arrives, at any depth.  [Syscall]'s kernel
    is [File]'s world, the memory, and the console's foreground group: a call
    checks addresses with [User], moves bytes with [File], forks and waits with
    [Sched], loads with [Elf], and leaves through [Signal]; one that has to wait
    returns what it waits for, and goes on from there when its thread is chosen
    again.  [SavParse] pulls tokens from [SavLex] and hands [SavCheck] a tree of
    names, in which the checker's theorems need no [.len] node to be: that is
    [SavParse]'s invariant.  [SavCheck] hands [SavGen] a tree whose names are resolved and a list
    of calls; [SavGen]'s image is what the writer of [Elf] puts in a file, whose
    note [Elf]'s loader reads and [Sav]'s test enforces.

    ** What the theorems show

    - Invariants of any run: no page in two hands ([Pmm.pmm_exclusive]), no
      thread on two processors and an idler for each
      ([SchedRun.sched_exclusive]), an id for one process
      ([SchedRun.process_identity]), counts that are the holders, of the pool
      alone ([FileRun.file_holders]) and of the whole machine from the boot on
      ([SyscallFds.descriptors_balanced]), SIGKILL always in effect
      ([Signal.sigkill_always_works]), types laid out in the order and with the
      alignment of their fields ([Savc.parsed_types_laid_out]).
    - Refinement of a simple picture: a space as its translation
      ([Vm.vm_copy_space_shares] and the theorems on mapping, splitting and
      faults), a file as the bytes along its chain ([FatFile.fat_write_overwrites],
      [FatFile.fat_read_contents]), a pipe as a queue ([FileRun.pipe_fifo]), a
      connection as a prefix of the peer's stream ([TcpRun.tcp_stream]), the
      machine the firmware described as the kernel's idea of it
      ([VbootRun.vboot_tree_kernel]).
    - Round trips between the two sides of a format: archives
      ([Cpio.RoundTrip.cpio_round_trip]), partition tables
      ([Gpt.Table.vpart_kernel_finds]), created files
      ([FatDir.fat_create_opens]), signal frames ([Signal.sig_round_trip]),
      datagrams ([Packets.udp_round_trip]), segments ([TcpRun.tcp_handshake]),
      executables ([ElfRun.sav_elf_round_trip]), the tokens of a text
      ([SavLexRun.lexer_round_trip]), compressed files
      ([GzipRun.gzip_gunzip_restores]), device trees ([FdtRun.fdt_round_trip]).
    - Safety against hostile input: the readers of archives, tables, packets,
      signal frames and compressed blocks stay inside what they were given and
      terminate ([Cpio.Reader.cpio_find_safe], [TcpRun.net_no_overread],
      [Signal.sig_return_confined], [GzipSafe.inflate_block_safe],
      [GzipSafe.gunzip_terminates], [FatFile.fat_truncate_terminates],
      [FatDir.dir_find_terminates]); and no system call writes where the program
      itself may not ([SyscallMem.syscall_confined], over
      [Vm.vm_user_ok_sound]).
    - What sav promises, of any text that compiles: its checked tree obeys the
      typing rules at every node ([Savc.savc_source_typed], from
      [SavCheckTyped.checked_unit_typed]); and the file that is written runs on
      the kernel, and calls it only where a number the loaded manifest allows
      has just been put in place ([Savc.savc_program_runs], from
      [SavGenRun.savc_manifest_covers] - an invariant over the words, the labels
      and the fixups as they grow - and the loader's round trip).  Lexing ends
      on every text ([SavLexRun.lexer_terminates]).
    - Liveness: a runnable thread is chosen within [MAX_THREADS] passes
      ([SchedRun.runnable_runs]).
    - What goes wrong, proved on the code as it is: the loader writes anywhere
      in the kernel ([ElfRun.elf_load_kernel_write]); a FIN acknowledges bytes
      never taken ([TcpRun.tcp_fin_loss]); a tick or another processor between
      the two halves of thread_exit loses the process or frees the stack it
      runs on ([SchedRun.exit_preempted_lost], [SchedRun.reap_inside_exit]); a
      pipe filled in one write puts both ends to sleep
      ([FileRun.pipe_deadlock]); extraction follows a link the archive brought
      ([Cpio.Extract.extract_through_link]); the window of a PCI bridge is
      misread ([FdtFind.bridge_window_misreads]); a sav program's report of an
      index out of range is a call its manifest may not list
      ([SavGenRun.range_report_unlisted]), and a capability can be had without
      being given ([SavCheckRun.capability_from_nothing]).

    ** Bounds and fuel

    Loops over a list or a count of the code's own recurse on it.  Fuel is a
    parameter where the code has no bound: the walk of an archive (its length
    is enough: [cpio_find_safe]), of a chain of clusters (the number of
    clusters, for a chain), of [vm_user_ok] (the pages of the range), the bits
    of a compressed file ([gunzip_terminates]), the walk of a device tree (its
    length in words, for a tree that was written), the waits of the network on
    its timer, and the depth of the recursion between resolving an address and
    answering packets - which the code does not bound either; the bytes of a
    text, for the lexer (they are enough: [lexer_terminates]); and the depth of
    a sav text or tree, for the compiler's other passes.  The theorems on
    fuel give the amount that is enough, or hold for any.

    ** Not modelled

    Device registers (virtio, PCI, the interrupt controller, the timer), the
    console's terminal, the assembly and the barriers: the scheduler's model
    takes a switch, a tick and the lock as steps, and memory is sequentially
    consistent.  A system call between its waits is one step.  Of the start of
    the kernel and of the loader only the tables they pass on are modelled; the
    loader's menu, its configuration and its signature check are calls into
    firmware and a third party's arithmetic.  The words of the compiler's
    diagnostics, the other archive and filesystem tools, and the programs that only
    call Linux are left out.  Cache and TLB maintenance is not modelled;
    printing is left out everywhere. *)
From stdpp Require Import base numbers list gmap strings.
From Stdlib Require Export ZArith Lia.
From stdpp Require Export base numbers list gmap strings.

#[global] Open Scope Z_scope.

(** ** Tactics *)

(** [cases] splits every [if] and [match] of the goal or a hypothesis. *)
Ltac cases := repeat (case_match; simplify_eq/=; try done).

(** Boolean comparisons on [Z] to propositions, everywhere. *)
Ltac zbool :=
  repeat match goal with
  | H : context [Z.eqb ?a ?b] |- _ => destruct (Z.eqb_spec a b)
  | H : context [Z.ltb ?a ?b] |- _ => destruct (Z.ltb_spec a b)
  | H : context [Z.leb ?a ?b] |- _ => destruct (Z.leb_spec a b)
  | |- context [Z.eqb ?a ?b] => destruct (Z.eqb_spec a b)
  | |- context [Z.ltb ?a ?b] => destruct (Z.ltb_spec a b)
  | |- context [Z.leb ?a ?b] => destruct (Z.leb_spec a b)
  end; simplify_eq/=; try done; try lia.

(** [zsplit] splits the comparisons of the goal one at a time and drops the
    impossible cases as it goes. *)
Ltac zsplit :=
  repeat (match goal with
  | |- context [Z.eqb ?a ?b] => destruct (Z.eqb_spec a b)
  | |- context [Z.ltb ?a ?b] => destruct (Z.ltb_spec a b)
  | |- context [Z.leb ?a ?b] => destruct (Z.leb_spec a b)
  end; cbn [andb orb negb]; try (exfalso; lia)).

(** [zdm] gives [lia] the equations of the divisions and remainders in sight. *)
Ltac zdm := Z.to_euclidean_division_equations; lia.

(** ** Machine integers

    A [w]-bit unsigned C integer is a [Z] in [[0, 2^w)]; arithmetic on it is
    arithmetic in [Z] followed by the reduction below. *)
Definition uwrap (w z : Z) : Z := z mod 2 ^ w.
Abbreviation u8 := (uwrap 8).
Abbreviation u16 := (uwrap 16).
Abbreviation u32 := (uwrap 32).
Abbreviation u64 := (uwrap 64).

(** The value of a [w]-bit pattern read as a two's-complement [int]. *)
Definition swrap (w z : Z) : Z := (z + 2 ^ (w - 1)) mod 2 ^ w - 2 ^ (w - 1).
Abbreviation i32 := (swrap 32).

Definition is_byte (b : Z) : Prop := 0 <= b < 256.
Abbreviation bytes_ok := (Forall is_byte).

#[global] Instance is_byte_dec b : Decision (is_byte b).
Proof. unfold is_byte. apply _. Defined.

Lemma uwrap_small w z : 0 <= z < 2 ^ w -> uwrap w z = z.
Proof. apply Z.mod_small. Qed.

Lemma uwrap_range w z : 0 <= w -> 0 <= uwrap w z < 2 ^ w.
Proof. intros. apply Z.mod_pos_bound. lia. Qed.

Lemma u8_byte z : is_byte (u8 z).
Proof. unfold is_byte. pose proof (uwrap_range 8 z). lia. Qed.

Lemma uwrap_idemp w z : 0 <= w -> uwrap w (uwrap w z) = uwrap w z.
Proof. intros. apply uwrap_small, uwrap_range; done. Qed.

(** ** Outcomes of C code that reads memory

    [Ret a]: the code returns [a].  [Fault]: the code reads or writes outside
    the object it was given, which C leaves undefined.  [Diverge]: the fuel of
    the model ran out; a termination theorem says that this does not happen. *)
Inductive outcome (A : Type) : Type :=
  | Ret (a : A)
  | Fault
  | Diverge.
Arguments Ret {A} a.
Arguments Fault {A}.
Arguments Diverge {A}.

Definition obind {A B} (m : outcome A) (k : A -> outcome B) : outcome B :=
  match m with Ret a => k a | Fault => Fault | Diverge => Diverge end.

Declare Scope c_scope.
Delimit Scope c_scope with c.
Notation "'let!' x ':=' m 'in' k" := (obind m (fun x => k))
  (at level 10, x pattern, m at level 100, k at level 200,
   format "'[v' 'let!'  x  ':='  m  'in' '/' k ']'") : c_scope.
#[global] Open Scope c_scope.

Lemma obind_ret_inv {A B} (m : outcome A) (k : A -> outcome B) b :
  obind m k = Ret b -> exists a, m = Ret a /\ k a = Ret b.
Proof. destruct m; cbn; intros H; try done. eauto. Qed.

(** [run H] takes apart the binds of [H : obind m k = Ret b]. *)
Ltac run H :=
  repeat match type of H with
  | obind _ _ = Ret _ =>
      let a := fresh "r" in let E := fresh "E" in
      apply obind_ret_inv in H; destruct H as (a & E & H)
  end.

(** ** Buffers

    A C object of [n] bytes is a [list Z] of length [n]; an access at an index
    outside it is a [Fault]. *)
Definition ld (b : list Z) (i : Z) : outcome Z :=
  if Z.leb 0 i then
    match b !! Z.to_nat i with Some v => Ret v | None => Fault end
  else Fault.

Definition zlen {A} (l : list A) : Z := Z.of_nat (length l).

(** [n] bytes from offset [o]. *)
Definition slice (b : list Z) (o n : Z) : list Z :=
  take (Z.to_nat n) (drop (Z.to_nat o) b).

(** Overwriting part of a buffer in place. *)
Definition splice (b : list Z) (o : Z) (v : list Z) : list Z :=
  take (Z.to_nat o) b ++ v ++ drop (Z.to_nat o + length v) b.

(** The byte at an index known to be inside the object. *)
Definition at_ (b : list Z) (i : Z) : Z := nth (Z.to_nat i) b 0.

Definition zeros (n : Z) : list Z := replicate (Z.to_nat n) 0.

Lemma zlen_app {A} (l k : list A) : zlen (l ++ k) = zlen l + zlen k.
Proof. unfold zlen. rewrite length_app. lia. Qed.
Lemma zlen_cons {A} (x : A) l : zlen (x :: l) = 1 + zlen l.
Proof. unfold zlen. simpl. lia. Qed.
Lemma zlen_nil {A} : zlen (@nil A) = 0.
Proof. done. Qed.
Lemma zlen_nonneg {A} (l : list A) : 0 <= zlen l.
Proof. unfold zlen. lia. Qed.
Lemma zlen_zeros n : 0 <= n -> zlen (zeros n) = n.
Proof. intros. unfold zlen, zeros. rewrite length_replicate. lia. Qed.
Create Rewrite HintDb zlen.
#[export] Hint Rewrite @zlen_app @zlen_cons @zlen_nil : zlen.

Lemma ld_ret b i : 0 <= i < zlen b -> ld b i = Ret (at_ b i).
Proof.
  unfold ld, at_, zlen. intros Hi.
  destruct (Z.leb_spec 0 i); [|lia].
  destruct (b !! Z.to_nat i) eqn:E.
  - f_equal. symmetry. by apply nth_lookup_Some.
  - apply lookup_ge_None in E. lia.
Qed.

Lemma ld_inv b i v : ld b i = Ret v -> 0 <= i < zlen b /\ v = at_ b i.
Proof.
  unfold ld, at_, zlen. destruct (Z.leb_spec 0 i); [|done].
  destruct (b !! Z.to_nat i) as [w|] eqn:E; [|done]. intros [= <-].
  pose proof (lookup_lt_Some _ _ _ E). split; [lia|].
  symmetry. by apply nth_lookup_Some.
Qed.

Lemma ld_fault b i : ~ (0 <= i < zlen b) -> ld b i = Fault.
Proof.
  unfold ld, zlen. intros Hi. destruct (Z.leb_spec 0 i); [|done].
  destruct (b !! Z.to_nat i) eqn:E; [|done].
  pose proof (lookup_lt_Some _ _ _ E). lia.
Qed.

Lemma at_byte b i : bytes_ok b -> is_byte (at_ b i).
Proof.
  intros Hb. unfold at_. destruct (decide (Z.to_nat i < length b)%nat) as [Hi|Hi].
  - rewrite Forall_forall in Hb. apply Hb, list_elem_of_In, nth_In. lia.
  - rewrite nth_overflow by lia. unfold is_byte; lia.
Qed.

Lemma at_app_l a b i : 0 <= i < zlen a -> at_ (a ++ b) i = at_ a i.
Proof. unfold at_, zlen. intros. apply app_nth1. lia. Qed.
Lemma at_app_r a b i : zlen a <= i -> at_ (a ++ b) i = at_ b (i - zlen a).
Proof.
  unfold at_, zlen. intros. rewrite app_nth2 by lia. f_equal. lia.
Qed.

Lemma slice_app_r a b o n :
  zlen a <= o -> slice (a ++ b) o n = slice b (o - zlen a) n.
Proof.
  unfold slice, zlen. intros. rewrite drop_app_ge by lia. do 2 f_equal. lia.
Qed.
Lemma slice_app_l a b n : zlen a = n -> slice (a ++ b) 0 n = a.
Proof.
  unfold slice, zlen. intros <-. rewrite Nat2Z.id, drop_0. by rewrite take_app_length.
Qed.
Lemma zlen_slice b o n : 0 <= o -> 0 <= n -> o + n <= zlen b -> zlen (slice b o n) = n.
Proof. unfold slice, zlen. intros. rewrite length_take, length_drop. lia. Qed.
Lemma at_slice b o n i : 0 <= o -> 0 <= i < n -> at_ (slice b o n) i = at_ b (o + i).
Proof.
  intros. unfold at_, slice. rewrite !nth_lookup, lookup_take_lt, lookup_drop by lia.
  do 2 f_equal. lia.
Qed.
Lemma slice_bytes b o n : bytes_ok b -> bytes_ok (slice b o n).
Proof. intros. unfold slice. by apply Forall_take, Forall_drop. Qed.

Lemma zlen_splice b o v :
  0 <= o -> o + zlen v <= zlen b -> zlen (splice b o v) = zlen b.
Proof.
  unfold splice, zlen. intros. rewrite !length_app, length_take, length_drop. lia.
Qed.
Lemma at_splice_in b o v i :
  0 <= o -> o + zlen v <= zlen b -> o <= i < o + zlen v ->
  at_ (splice b o v) i = at_ v (i - o).
Proof.
  unfold splice. intros.
  assert (zlen (take (Z.to_nat o) b) = o) as E
    by (unfold zlen in *; rewrite length_take; lia).
  rewrite at_app_r by lia. rewrite E. apply at_app_l. lia.
Qed.
Lemma at_splice_out b o v i :
  0 <= o -> 0 <= i -> o + zlen v <= zlen b -> ~ (o <= i < o + zlen v) ->
  at_ (splice b o v) i = at_ b i.
Proof.
  unfold splice, zlen, at_. intros. rewrite !nth_lookup. f_equal.
  destruct (decide (i < o)).
  - rewrite lookup_app_l by (rewrite length_take; lia).
    by rewrite lookup_take_lt by lia.
  - rewrite lookup_app_r by (rewrite length_take; lia).
    rewrite length_take, lookup_app_r by lia.
    rewrite lookup_drop. f_equal. lia.
Qed.
Lemma splice_bytes b o v : bytes_ok b -> bytes_ok v -> bytes_ok (splice b o v).
Proof.
  intros. unfold splice. apply Forall_app; split; [by apply Forall_take|].
  apply Forall_app; split; [done|by apply Forall_drop].
Qed.
Lemma zeros_bytes n : bytes_ok (zeros n).
Proof. apply Forall_replicate. unfold is_byte; lia. Qed.
Lemma at_zeros n i : at_ (zeros n) i = 0.
Proof.
  unfold at_, zeros. rewrite nth_lookup.
  destruct (replicate (Z.to_nat n) 0 !! Z.to_nat i) eqn:E; [|done].
  apply lookup_replicate in E as [-> _]. done.
Qed.

(** Two buffers with the same bytes are equal. *)
Lemma buf_ext a b :
  zlen a = zlen b -> (forall i, 0 <= i < zlen a -> at_ a i = at_ b i) -> a = b.
Proof.
  unfold zlen, at_. intros Hl H. apply nth_ext with (d := 0) (d' := 0); [lia|].
  intros n Hn. specialize (H (Z.of_nat n)). rewrite Nat2Z.id in H. apply H. lia.
Qed.

(** ** Integers as bytes *)
Fixpoint le_split (n : nat) (v : Z) : list Z :=
  match n with
  | O => []
  | S n => v mod 256 :: le_split n (v / 256)
  end.

Fixpoint le_combine (l : list Z) : Z :=
  match l with
  | [] => 0
  | b :: l => b + 256 * le_combine l
  end.

Lemma le_split_length n v : length (le_split n v) = n.
Proof. revert v; induction n; simpl; auto. Qed.
Lemma zlen_le_split n v : zlen (le_split n v) = Z.of_nat n.
Proof. unfold zlen. by rewrite le_split_length. Qed.
Lemma le_split_bytes n v : bytes_ok (le_split n v).
Proof.
  revert v; induction n; intros v; simpl; constructor; [|done].
  unfold is_byte. apply Z.mod_pos_bound; lia.
Qed.
Lemma le_combine_split n v : 0 <= v < 256 ^ Z.of_nat n -> le_combine (le_split n v) = v.
Proof.
  revert v; induction n as [|n IH]; intros v Hv; cbn [le_split le_combine].
  { change (256 ^ Z.of_nat 0) with 1 in Hv. lia. }
  rewrite IH; [zdm|].
  rewrite Nat2Z.inj_succ, Z.pow_succ_r in Hv by lia. zdm.
Qed.
Lemma le_combine_range l : bytes_ok l -> 0 <= le_combine l < 256 ^ zlen l.
Proof.
  unfold zlen. induction 1 as [|b l Hb Hl IH]; cbn [le_combine].
  { simpl. lia. }
  unfold is_byte in Hb. cbn [length].
  rewrite Nat2Z.inj_succ, Z.pow_succ_r by lia. lia.
Qed.
Lemma le_split_combine l : bytes_ok l -> le_split (length l) (le_combine l) = l.
Proof.
  induction 1 as [|b l Hb Hl IH]; cbn [le_combine length le_split]; [done|].
  unfold is_byte in Hb.
  assert ((b + 256 * le_combine l) mod 256 = b) as -> by zdm.
  assert ((b + 256 * le_combine l) / 256 = le_combine l) as -> by zdm.
  by rewrite IH.
Qed.

(** A field put next to smaller ones is their sum. *)
Lemma lor_shiftl_add a b n : 0 <= n -> 0 <= a < 2 ^ n -> Z.lor a (Z.shiftl b n) = a + b * 2 ^ n.
Proof.
  intros Hn Ha.
  assert (Z.land a (Z.shiftl b n) = 0) as Hd.
  { apply Z.bits_inj'; intros i Hi. rewrite Z.land_spec, Z.bits_0.
    destruct (decide (i < n)).
    - rewrite Z.shiftl_spec_low by lia. apply andb_false_r.
    - assert (Z.testbit a i = false) as ->; [|done].
      destruct (decide (a = 0)) as [->|]; [apply Z.bits_0|].
      apply Z.bits_above_log2; [lia|].
      apply Z.log2_lt_pow2; [lia|].
      apply Z.lt_le_trans with (2 ^ n); [lia|]. apply Z.pow_le_mono_r; lia. }
  pose proof (Z.add_lor_land a (Z.shiftl b n)) as Hs.
  rewrite Hd, Z.shiftl_mul_pow2 in Hs by lia.
  rewrite Z.shiftl_mul_pow2 by lia. lia.
Qed.

(** ** Strings

    A C string is the list of its bytes, without the terminating NUL. *)
Definition str (s : string) : list Z :=
  (fun a => Z.of_N (Ascii.N_of_ascii a)) <$> String.list_ascii_of_string s.

Definition c_string (s : list Z) : Prop := Forall (fun c => 0 < c < 256) s.

#[global] Instance c_string_dec s : Decision (c_string s).
Proof. apply Forall_dec. intros c. apply _. Defined.

Lemma c_string_bytes s : c_string s -> bytes_ok s.
Proof. intros H. eapply Forall_impl; [exact H|]. unfold is_byte. lia. Qed.

(** The string a buffer holds: its bytes up to the first NUL. *)
Fixpoint cstr (b : list Z) : list Z :=
  match b with
  | [] => []
  | c :: b => if Z.eqb c 0 then [] else c :: cstr b
  end.

Lemma cstr_app s b : c_string s -> cstr (s ++ 0 :: b) = s.
Proof.
  induction 1 as [|c s Hc Hs IH]; simpl; [done|].
  destruct (Z.eqb_spec c 0); [lia|]. by rewrite IH.
Qed.

(** ** Reading behind a prefix *)
Lemma ld_app_r a b i : 0 <= i -> ld (a ++ b) (zlen a + i) = ld b i.
Proof.
  intros Hi. destruct (decide (i < zlen b)).
  - rewrite !ld_ret by (rewrite ?zlen_app; pose proof (zlen_nonneg a); lia).
    f_equal. pose proof (zlen_nonneg a). rewrite at_app_r by lia. f_equal. lia.
  - rewrite !ld_fault by (rewrite ?zlen_app; lia). done.
Qed.
Lemma ld_app_r0 a b : ld (a ++ b) (zlen a) = ld b 0.
Proof. rewrite <- (ld_app_r a b 0) by lia. f_equal. lia. Qed.
Lemma ld_app_l a b i : 0 <= i < zlen a -> ld (a ++ b) i = ld a i.
Proof.
  intros Hi. rewrite !ld_ret by (rewrite ?zlen_app; pose proof (zlen_nonneg b); lia).
  f_equal. by apply at_app_l.
Qed.

(** ** Ranges of bitwise operations *)
Lemma bits_range n x :
  0 <= n -> (forall i, n <= i -> Z.testbit x i = false) -> 0 <= x < 2 ^ n.
Proof.
  intros Hn Hb. assert (x = x mod 2 ^ n) as ->; [|apply Z.mod_pos_bound; lia].
  apply Z.bits_inj'. intros i Hi. destruct (decide (i < n)).
  - by rewrite Z.mod_pow2_bits_low.
  - rewrite Z.mod_pow2_bits_high by lia. apply Hb. lia.
Qed.
Lemma range_bits n x i : 0 <= x < 2 ^ n -> n <= i -> Z.testbit x i = false.
Proof.
  intros Hx Hi. destruct (decide (n < 0)).
  { rewrite Z.pow_neg_r in Hx by lia. lia. }
  rewrite <- (Z.mod_small x (2 ^ n)) by done. apply Z.mod_pow2_bits_high. lia.
Qed.
Lemma lor_range n a b : 0 <= n -> 0 <= a < 2 ^ n -> 0 <= b < 2 ^ n -> 0 <= Z.lor a b < 2 ^ n.
Proof.
  intros. apply bits_range; [done|]. intros i Hi. rewrite Z.lor_spec.
  by rewrite !(range_bits n) by done.
Qed.
Lemma lxor_range n a b : 0 <= n -> 0 <= a < 2 ^ n -> 0 <= b < 2 ^ n -> 0 <= Z.lxor a b < 2 ^ n.
Proof.
  intros. apply bits_range; [done|]. intros i Hi. rewrite Z.lxor_spec.
  by rewrite !(range_bits n) by done.
Qed.
Lemma land_range n a b : 0 <= n -> 0 <= b < 2 ^ n -> 0 <= Z.land a b < 2 ^ n.
Proof.
  intros. apply bits_range; [done|]. intros i Hi. rewrite Z.land_spec.
  by rewrite (range_bits n b), andb_false_r by done.
Qed.

(** ** Reachability: an invariant holds along every run *)
Lemma rtc_inv {A} (R : relation A) (P : A -> Prop) a b :
  (forall x y, P x -> R x y -> P y) -> P a -> rtc R a b -> P b.
Proof. intros Hs Ha Hr. revert Ha. induction Hr; eauto. Qed.

(** ** Records with many fields

    [eta] rebuilds a record from its projections; [field_set proj eta v t] is
    [t] with the field [proj] replaced by [v]. *)
Ltac field_set proj eta v t :=
  let e := eval cbv beta delta [eta] in (eta t) in
  match e with context C [proj t] => let e' := context C [v] in exact e' end.
