(* ===== verification/Bytes.v ===== *)
(** * Multi-byte fields in buffers

    The accessors every on-disk and on-wire format of the tree is written
    with: [rd16]/[rd32]/[rd64] and [wr16]/[wr32] of [stam/fat.c] and
    [stam/gpt.c] (little-endian), [put64] of [vpart/vpart.c], [be32] of
    [stam/fdt.c], [get16]/[get32]/[put16]/[put32] of [stam/net.c]
    (big-endian).  The [ld] variants are the same reads on an object whose
    bounds are not known: they fault outside it. *)
From S2P Require Import Prelude.

(** ** Reading, inside an object of known size *)
Definition rd16 (p : list Z) (o : Z) : Z :=
  Z.lor (at_ p o) (Z.shiftl (at_ p (o + 1)) 8).

Definition rd32 (p : list Z) (o : Z) : Z :=
  Z.lor (Z.lor (Z.lor (at_ p o) (Z.shiftl (at_ p (o + 1)) 8))
               (Z.shiftl (at_ p (o + 2)) 16))
        (Z.shiftl (at_ p (o + 3)) 24).

Definition rd64 (p : list Z) (o : Z) : Z :=
  Z.lor (rd32 p o) (Z.shiftl (rd32 p (o + 4)) 32).

Definition get16 (p : list Z) (o : Z) : Z :=
  Z.lor (Z.shiftl (at_ p o) 8) (at_ p (o + 1)).

Definition get32 (p : list Z) (o : Z) : Z :=
  Z.lor (Z.lor (Z.lor (Z.shiftl (at_ p o) 24) (Z.shiftl (at_ p (o + 1)) 16))
               (Z.shiftl (at_ p (o + 2)) 8))
        (at_ p (o + 3)).

(** ** Writing: the bytes stored *)
Definition b_wr16 (v : Z) : list Z := [u8 v; u8 (Z.shiftr v 8)].
Definition b_wr32 (v : Z) : list Z :=
  [u8 v; u8 (Z.shiftr v 8); u8 (Z.shiftr v 16); u8 (Z.shiftr v 24)].
Definition b_put16 (v : Z) : list Z := [u8 (Z.shiftr v 8); u8 v].
Definition b_put32 (v : Z) : list Z :=
  [u8 (Z.shiftr v 24); u8 (Z.shiftr v 16); u8 (Z.shiftr v 8); u8 v].

Definition wr16 (p : list Z) (o v : Z) : list Z := splice p o (b_wr16 v).
Definition wr32 (p : list Z) (o v : Z) : list Z := splice p o (b_wr32 v).
Definition put16 (p : list Z) (o v : Z) : list Z := splice p o (b_put16 v).
Definition put32 (p : list Z) (o v : Z) : list Z := splice p o (b_put32 v).

(** [for (int i = 0; i < 8; i++) p[i] = (unsigned char)(v >> (8 * i));] *)
Definition b_put64 (v : Z) : list Z :=
  (fun i => u8 (Z.shiftr v (8 * Z.of_nat i))) <$> seq 0 8.
Definition put64 (p : list Z) (o v : Z) : list Z := splice p o (b_put64 v).

(** ** Reading an object that may be too short *)
Definition ld16le (b : list Z) (o : Z) : outcome Z :=
  let! p0 := ld b o in let! p1 := ld b (o + 1) in Ret (Z.lor p0 (Z.shiftl p1 8)).
Definition ld32le (b : list Z) (o : Z) : outcome Z :=
  let! p0 := ld b o in let! p1 := ld b (o + 1) in let! p2 := ld b (o + 2) in let! p3 := ld b (o + 3) in
  Ret (Z.lor (Z.lor (Z.lor p0 (Z.shiftl p1 8)) (Z.shiftl p2 16)) (Z.shiftl p3 24)).
Definition ld64le (b : list Z) (o : Z) : outcome Z :=
  let! lo := ld32le b o in let! hi := ld32le b (o + 4) in Ret (Z.lor lo (Z.shiftl hi 32)).
Definition ld32be (b : list Z) (o : Z) : outcome Z :=
  let! p0 := ld b o in let! p1 := ld b (o + 1) in let! p2 := ld b (o + 2) in let! p3 := ld b (o + 3) in
  Ret (Z.lor (Z.lor (Z.lor (Z.shiftl p0 24) (Z.shiftl p1 16)) (Z.shiftl p2 8)) p3).

(** ** What the accessors read *)
Section reads.
Context (p : list Z) (Hp : bytes_ok p).

Lemma rd16_sum o : rd16 p o = at_ p o + at_ p (o + 1) * 256.
Proof using Hp.
  unfold rd16. pose proof (at_byte p o Hp) as H0. unfold is_byte in H0.
  by rewrite lor_shiftl_add by lia.
Qed.

Lemma rd32_sum o :
  rd32 p o = at_ p o + at_ p (o + 1) * 256 + at_ p (o + 2) * 65536
             + at_ p (o + 3) * 16777216.
Proof using Hp.
  unfold rd32.
  pose proof (at_byte p o Hp) as H0. pose proof (at_byte p (o + 1) Hp) as H1.
  pose proof (at_byte p (o + 2) Hp) as H2. unfold is_byte in *.
  rewrite (lor_shiftl_add (at_ p o)) by lia.
  rewrite (lor_shiftl_add _ _ 16) by lia.
  rewrite (lor_shiftl_add _ _ 24) by lia. lia.
Qed.

Lemma rd16_range o : 0 <= rd16 p o < 2 ^ 16.
Proof using Hp.
  rewrite rd16_sum. pose proof (at_byte p o Hp). pose proof (at_byte p (o + 1) Hp).
  unfold is_byte in *. lia.
Qed.

Lemma rd32_range o : 0 <= rd32 p o < 2 ^ 32.
Proof using Hp.
  rewrite rd32_sum.
  pose proof (at_byte p o Hp). pose proof (at_byte p (o + 1) Hp).
  pose proof (at_byte p (o + 2) Hp). pose proof (at_byte p (o + 3) Hp).
  unfold is_byte in *. lia.
Qed.

Lemma rd64_sum o : rd64 p o = rd32 p o + rd32 p (o + 4) * 2 ^ 32.
Proof using Hp.
  unfold rd64. pose proof (rd32_range o). by rewrite lor_shiftl_add by lia.
Qed.

Lemma rd64_range o : 0 <= rd64 p o < 2 ^ 64.
Proof using Hp.
  rewrite rd64_sum. pose proof (rd32_range o). pose proof (rd32_range (o + 4)). lia.
Qed.

Lemma get16_sum o : get16 p o = at_ p o * 256 + at_ p (o + 1).
Proof using Hp.
  unfold get16. pose proof (at_byte p (o + 1) Hp) as H0. unfold is_byte in H0.
  rewrite Z.lor_comm, lor_shiftl_add by lia. lia.
Qed.

Lemma get16_range o : 0 <= get16 p o < 2 ^ 16.
Proof using Hp.
  rewrite get16_sum. pose proof (at_byte p o Hp). pose proof (at_byte p (o + 1) Hp).
  unfold is_byte in *. lia.
Qed.

Lemma get32_sum o :
  get32 p o = at_ p o * 16777216 + at_ p (o + 1) * 65536 + at_ p (o + 2) * 256
              + at_ p (o + 3).
Proof using Hp.
  unfold get32.
  pose proof (at_byte p (o + 3) Hp) as H0. pose proof (at_byte p (o + 2) Hp) as H1.
  pose proof (at_byte p (o + 1) Hp) as H2. unfold is_byte in *.
  rewrite Z.lor_comm, <- !Z.lor_assoc, Z.lor_assoc, (Z.lor_comm _ (Z.lor _ _)).
  rewrite <- !Z.lor_assoc.
  rewrite (Z.lor_comm (Z.shiftl (at_ p (o + 1)) 16)), !Z.lor_assoc.
  rewrite (Z.lor_comm (Z.shiftl (at_ p (o + 2)) 8)).
  rewrite (lor_shiftl_add (at_ p (o + 3))) by lia.
  rewrite <- (Z.lor_assoc _ (Z.shiftl (at_ p o) 24)).
  rewrite (Z.lor_comm (Z.shiftl (at_ p o) 24)), Z.lor_assoc.
  rewrite (lor_shiftl_add _ _ 16) by lia.
  rewrite (lor_shiftl_add _ _ 24) by lia. lia.
Qed.
End reads.

(** The reads on objects of unknown size agree with the reads above inside
    the object. *)
Lemma ld16le_ret b o : 0 <= o -> o + 2 <= zlen b -> ld16le b o = Ret (rd16 b o).
Proof. intros. unfold ld16le. by rewrite !ld_ret by lia. Qed.
Lemma ld32le_ret b o : 0 <= o -> o + 4 <= zlen b -> ld32le b o = Ret (rd32 b o).
Proof. intros. unfold ld32le. by rewrite !ld_ret by lia. Qed.
Lemma ld64le_ret b o : 0 <= o -> o + 8 <= zlen b -> ld64le b o = Ret (rd64 b o).
Proof. intros. unfold ld64le. by rewrite !ld32le_ret by lia. Qed.
Lemma ld32be_ret b o : 0 <= o -> o + 4 <= zlen b -> ld32be b o = Ret (get32 b o).
Proof. intros. unfold ld32be. by rewrite !ld_ret by lia. Qed.

(** ** What the writers store *)
Lemma zlen_b_wr16 v : zlen (b_wr16 v) = 2.
Proof. done. Qed.
Lemma zlen_b_wr32 v : zlen (b_wr32 v) = 4.
Proof. done. Qed.
Lemma zlen_b_put16 v : zlen (b_put16 v) = 2.
Proof. done. Qed.
Lemma zlen_b_put32 v : zlen (b_put32 v) = 4.
Proof. done. Qed.
Lemma zlen_b_put64 v : zlen (b_put64 v) = 8.
Proof. done. Qed.
#[export] Hint Rewrite zlen_b_wr16 zlen_b_wr32 zlen_b_put16 zlen_b_put32 zlen_b_put64 : zlen.

Lemma b_wr16_bytes v : bytes_ok (b_wr16 v).
Proof. repeat constructor; apply u8_byte. Qed.
Lemma b_wr32_bytes v : bytes_ok (b_wr32 v).
Proof. repeat constructor; apply u8_byte. Qed.
Lemma b_put16_bytes v : bytes_ok (b_put16 v).
Proof. repeat constructor; apply u8_byte. Qed.
Lemma b_put32_bytes v : bytes_ok (b_put32 v).
Proof. repeat constructor; apply u8_byte. Qed.
Lemma b_put64_bytes v : bytes_ok (b_put64 v).
Proof. repeat constructor; apply u8_byte. Qed.

Create HintDb bytes.
#[export] Hint Resolve b_wr16_bytes b_wr32_bytes b_put16_bytes b_put32_bytes b_put64_bytes
  splice_bytes slice_bytes zeros_bytes u8_byte : bytes.

(** Reading a field out of a longer buffer only looks at its bytes. *)
Lemma rd16_ext p q o o' :
  (forall i, 0 <= i < 2 -> at_ p (o + i) = at_ q (o' + i)) -> rd16 p o = rd16 q o'.
Proof.
  intros H. unfold rd16. rewrite (H 1) by lia.
  specialize (H 0 ltac:(lia)). by rewrite !Z.add_0_r in H; rewrite H.
Qed.
Lemma rd32_ext p q o o' :
  (forall i, 0 <= i < 4 -> at_ p (o + i) = at_ q (o' + i)) -> rd32 p o = rd32 q o'.
Proof.
  intros H. unfold rd32. rewrite (H 1), (H 2), (H 3) by lia.
  specialize (H 0 ltac:(lia)). by rewrite !Z.add_0_r in H; rewrite H.
Qed.
Lemma rd64_ext p q o o' :
  (forall i, 0 <= i < 8 -> at_ p (o + i) = at_ q (o' + i)) -> rd64 p o = rd64 q o'.
Proof.
  intros H. unfold rd64. f_equal; [|f_equal]; apply rd32_ext.
  - intros i Hi. apply H. lia.
  - intros i Hi. rewrite <- !Z.add_assoc. apply H. lia.
Qed.

Lemma rd16_b_wr16 v : 0 <= v < 2 ^ 16 -> rd16 (b_wr16 v) 0 = v.
Proof.
  intros. rewrite rd16_sum by apply b_wr16_bytes.
  change (at_ (b_wr16 v) 0) with (u8 v).
  change (at_ (b_wr16 v) (0 + 1)) with (u8 (Z.shiftr v 8)).
  rewrite !Z.shiftr_div_pow2 by lia. unfold uwrap. zdm.
Qed.
Lemma rd32_b_wr32 v : 0 <= v < 2 ^ 32 -> rd32 (b_wr32 v) 0 = v.
Proof.
  intros. rewrite rd32_sum by apply b_wr32_bytes.
  change (at_ (b_wr32 v) 0) with (u8 v).
  change (at_ (b_wr32 v) (0 + 1)) with (u8 (Z.shiftr v 8)).
  change (at_ (b_wr32 v) (0 + 2)) with (u8 (Z.shiftr v 16)).
  change (at_ (b_wr32 v) (0 + 3)) with (u8 (Z.shiftr v 24)).
  rewrite !Z.shiftr_div_pow2 by lia. unfold uwrap. zdm.
Qed.
Lemma b_put64_split v : b_put64 v = b_wr32 v ++ b_wr32 (Z.shiftr v 32).
Proof. unfold b_put64, b_wr32. simpl. by rewrite !Z.shiftr_shiftr by lia. Qed.
Lemma b_wr32_mod v : b_wr32 (v mod 2 ^ 32) = b_wr32 v.
Proof.
  unfold b_wr32, uwrap. rewrite !Z.shiftr_div_pow2 by lia.
  repeat (f_equal; [zdm|]). f_equal. zdm.
Qed.
Lemma rd64_b_put64 v : 0 <= v < 2 ^ 64 -> rd64 (b_put64 v) 0 = v.
Proof.
  intros. rewrite b_put64_split.
  rewrite rd64_sum by (apply Forall_app; split; apply b_wr32_bytes).
  rewrite (rd32_ext (_ ++ _) (b_wr32 v) 0 0).
  2: { intros i Hi. rewrite at_app_l; [done|]. autorewrite with zlen; lia. }
  rewrite (rd32_ext (_ ++ _) (b_wr32 (Z.shiftr v 32)) (0 + 4) 0).
  2: { intros i Hi. rewrite at_app_r; autorewrite with zlen; [f_equal|]; lia. }
  rewrite <- (b_wr32_mod v), !rd32_b_wr32; rewrite ?Z.shiftr_div_pow2 by lia; zdm.
Qed.

Lemma rd16_splice p o v :
  0 <= o -> o + 2 <= zlen p -> 0 <= v < 2 ^ 16 -> rd16 (splice p o (b_wr16 v)) o = v.
Proof.
  intros. rewrite <- (rd16_b_wr16 v) at 2 by done. apply rd16_ext. intros i Hi.
  rewrite at_splice_in; autorewrite with zlen; [f_equal|..]; lia.
Qed.
Lemma rd32_splice p o v :
  0 <= o -> o + 4 <= zlen p -> 0 <= v < 2 ^ 32 -> rd32 (splice p o (b_wr32 v)) o = v.
Proof.
  intros. rewrite <- (rd32_b_wr32 v) at 2 by done. apply rd32_ext. intros i Hi.
  rewrite at_splice_in; autorewrite with zlen; [f_equal|..]; lia.
Qed.
Lemma rd64_splice p o v :
  0 <= o -> o + 8 <= zlen p -> 0 <= v < 2 ^ 64 -> rd64 (splice p o (b_put64 v)) o = v.
Proof.
  intros. rewrite <- (rd64_b_put64 v) at 2 by done. apply rd64_ext. intros i Hi.
  rewrite at_splice_in; autorewrite with zlen; [f_equal|..]; lia.
Qed.

(** ** Fields of a buffer built by several stores

    Each lemma takes the length of the buffer, so that the tactic [fields]
    below can compute it through any number of stores. *)
Lemma splice_len p o v n : zlen p = n -> 0 <= o -> o + zlen v <= n -> zlen (splice p o v) = n.
Proof. intros <- ??. by apply zlen_splice. Qed.

Lemma at_splice_ne p o v i n :
  zlen p = n -> 0 <= o -> o + zlen v <= n -> 0 <= i -> i < o \/ o + zlen v <= i ->
  at_ (splice p o v) i = at_ p i.
Proof. intros <- ????. apply at_splice_out; lia. Qed.

Lemma rd16_splice_ne p o v i n :
  zlen p = n -> 0 <= o -> o + zlen v <= n -> 0 <= i -> i + 2 <= o \/ o + zlen v <= i ->
  rd16 (splice p o v) i = rd16 p i.
Proof. intros ?????. apply rd16_ext. intros k Hk. eapply at_splice_ne; try done; lia. Qed.

Lemma rd32_splice_ne p o v i n :
  zlen p = n -> 0 <= o -> o + zlen v <= n -> 0 <= i -> i + 4 <= o \/ o + zlen v <= i ->
  rd32 (splice p o v) i = rd32 p i.
Proof. intros ?????. apply rd32_ext. intros k Hk. eapply at_splice_ne; try done; lia. Qed.

Lemma rd64_splice_ne p o v i n :
  zlen p = n -> 0 <= o -> o + zlen v <= n -> 0 <= i -> i + 8 <= o \/ o + zlen v <= i ->
  rd64 (splice p o v) i = rd64 p i.
Proof. intros ?????. apply rd64_ext. intros k Hk. eapply at_splice_ne; try done; lia. Qed.

Lemma slice_splice_eq p o v n :
  zlen p = n -> 0 <= o -> o + zlen v <= n -> slice (splice p o v) o (zlen v) = v.
Proof.
  intros <- ??. pose proof (zlen_nonneg v). pose proof (zlen_splice p o v).
  apply buf_ext; [apply zlen_slice; lia|]. rewrite zlen_slice by lia. intros i Hi.
  rewrite at_slice, at_splice_in by lia. f_equal. lia.
Qed.

Lemma slice_splice_ne p o v i k n :
  zlen p = n -> 0 <= o -> o + zlen v <= n -> 0 <= i -> 0 <= k -> i + k <= n ->
  i + k <= o \/ o + zlen v <= i -> slice (splice p o v) i k = slice p i k.
Proof.
  intros <- ??????. pose proof (zlen_splice p o v).
  apply buf_ext; [rewrite !zlen_slice by lia; done|]. rewrite zlen_slice by lia. intros j Hj.
  rewrite !at_slice by lia. eapply at_splice_ne; try done; lia.
Qed.

(** Overwriting twice, and overwriting with what is there. *)
Lemma splice_splice p o v w :
  0 <= o -> o + zlen v <= zlen p -> zlen v = zlen w -> splice (splice p o v) o w = splice p o w.
Proof.
  intros ? ? Hvw. pose proof (zlen_nonneg v).
  assert (zlen (splice (splice p o v) o w) = zlen p) as E.
  { rewrite !zlen_splice; rewrite ?zlen_splice; lia. }
  apply buf_ext; [rewrite E, zlen_splice; lia|]. rewrite E. intros i Hi.
  destruct (decide (o <= i < o + zlen w)).
  - rewrite !at_splice_in by (rewrite ?zlen_splice; lia). done.
  - rewrite !at_splice_out by (rewrite ?zlen_splice; lia). done.
Qed.
Lemma splice_same p o v :
  0 <= o -> o + zlen v <= zlen p -> slice p o (zlen v) = v -> splice p o v = p.
Proof.
  intros ?? Hs. apply buf_ext; [by apply zlen_splice|]. rewrite zlen_splice by done. intros i Hi.
  destruct (decide (o <= i < o + zlen v)).
  - rewrite at_splice_in by lia. rewrite <- Hs at 1. rewrite at_slice by lia. f_equal. lia.
  - by apply at_splice_out; try lia.
Qed.

Lemma rd32_splice_eq p o v n :
  zlen p = n -> 0 <= o -> o + 4 <= n -> 0 <= v < 2 ^ 32 -> rd32 (splice p o (b_wr32 v)) o = v.
Proof. intros <- ???. by apply rd32_splice. Qed.
Lemma rd16_splice_eq p o v n :
  zlen p = n -> 0 <= o -> o + 2 <= n -> 0 <= v < 2 ^ 16 -> rd16 (splice p o (b_wr16 v)) o = v.
Proof. intros <- ???. by apply rd16_splice. Qed.
Lemma rd64_splice_eq p o v n :
  zlen p = n -> 0 <= o -> o + 8 <= n -> 0 <= v < 2 ^ 64 -> rd64 (splice p o (b_put64 v)) o = v.
Proof. intros <- ???. by apply rd64_splice. Qed.

(** [slen] proves the length of a buffer built by stores into a fresh one. *)
Ltac slen :=
  lazymatch goal with
  | |- zlen (splice _ _ _) = _ =>
      apply splice_len; [slen | lia | first [autorewrite with zlen; lia | by vm_compute]]
  | |- zlen (zeros _) = _ => apply zlen_zeros; lia
  | |- _ => first [eassumption | reflexivity | autorewrite with zlen; lia]
  end.

(** A closed buffer is made of bytes: computed. *)
Ltac cbytes := apply (bool_decide_unpack _); vm_compute; exact I.

(** A side condition on the length of what a store writes. *)
Ltac sfit := first [autorewrite with zlen; lia | by vm_compute
                   | left; by vm_compute | right; by vm_compute].

(** [fields] reads a field through the stores made after it. *)
Ltac fields_step :=
  match goal with
  | |- context [rd32 (splice _ ?o (b_wr32 _)) ?o] =>
      erewrite (rd32_splice_eq _ o); [|slen|lia|lia|]
  | |- context [rd64 (splice _ ?o (b_put64 _)) ?o] =>
      erewrite (rd64_splice_eq _ o); [|slen|lia|lia|]
  | |- context [rd16 (splice _ ?o (b_wr16 _)) ?o] =>
      erewrite (rd16_splice_eq _ o); [|slen|lia|lia|]
  | |- context [rd32 (splice ?p ?o ?v) ?i] =>
      erewrite (rd32_splice_ne p o v i); [|slen|lia|sfit|lia|sfit]
  | |- context [rd64 (splice ?p ?o ?v) ?i] =>
      erewrite (rd64_splice_ne p o v i); [|slen|lia|sfit|lia|sfit]
  | |- context [rd16 (splice ?p ?o ?v) ?i] =>
      erewrite (rd16_splice_ne p o v i); [|slen|lia|sfit|lia|sfit]
  | |- context [at_ (splice ?p ?o ?v) ?i] =>
      erewrite (at_splice_ne p o v i); [|slen|lia|sfit|lia|sfit]
  end.
Ltac fields := repeat fields_step.
