(* ===== verification/Cpio.v ===== *)
(** * The newc archive: the kernel's reader and vcpio's writer

    [Reader] models [stam/cpio.c], which finds a program in the initrd;
    [Writer] and [Extract] model [vcpio/vcpio.c], which makes the initrd and
    unpacks archives.  The round trip says that the kernel finds in an archive
    what vcpio put there. *)
From S2P Require Import Prelude Bytes.

Module Reader.

(** ** [stam/cpio.c] *)
Definition HDR : Z := 110.

Definition hexval (c : Z) : Z :=
  if (48 <=? c) && (c <=? 57) then c - 48
  else if (97 <=? c) && (c <=? 102) then c - 97 + 10
  else if (65 <=? c) && (c <=? 70) then c - 65 + 10
  else -1.

(** Eight hex digits; [None] is the code's [-1]. *)
Fixpoint field_loop (n : nat) (b : list Z) (p v : Z) : outcome (option Z) :=
  match n with
  | O => Ret (Some v)
  | S n =>
      let! c := ld b p in
      let d := hexval c in
      if d <? 0 then Ret None
      else field_loop n b (p + 1) (Z.lor (u64 (Z.shiftl v 4)) d)
  end.
Definition field (b : list Z) (p : Z) : outcome (option Z) := field_loop 8 b p 0.

Definition round4 (n : Z) : Z := Z.land (u64 (n + 3)) (Z.lnot 3).

(** [same a b] where [a] points into the archive and [b] is a C string. *)
Fixpoint same (img : list Z) (o : Z) (s : list Z) : outcome bool :=
  let! c := ld img o in
  match s with
  | [] => Ret (c =? 0)
  | x :: s => if negb (c =? 0) && (c =? x) then same img (o + 1) s else Ret (c =? x)
  end.

Definition skip_slash (s : list Z) : list Z :=
  match s with
  | c :: s' => if c =? 47 then s' else s
  | [] => s
  end.
Definition skip_slash_at (img : list Z) (o : Z) : outcome Z :=
  let! c := ld img o in Ret (if c =? 47 then o + 1 else o).

(** [h[0] == '0' && ...], read one byte at a time. *)
Fixpoint magic_ok (img : list Z) (o : Z) (m : list Z) : outcome bool :=
  match m with
  | [] => Ret true
  | x :: m => let! c := ld img o in if c =? x then magic_ok img (o + 1) m else Ret false
  end.

Definition MAGIC : list Z := str "070701".
Definition TRAILER : list Z := str "TRAILER!!!".

Inductive find_result :=
  | Found (addr size : Z)
  | NotFound.

#[global] Instance find_result_eq_dec : EqDecision find_result.
Proof. solve_decision. Defined.

(** What one header says: the sizes it declares, checked against the image. *)
Definition read_header (img : list Z) (size off : Z) : outcome (option (Z * Z * Z)) :=
  let! fs := field img (off + 54) in
  match fs with
  | None => Ret None
  | Some filesize =>
      let! ns := field img (off + 94) in
      match ns with
      | None => Ret None
      | Some namesize =>
          if (namesize =? 0) || (size <? u64 (u64 (off + HDR) + namesize)) then Ret None
          else Ret (Some (filesize, namesize, u64 (off + round4 (HDR + namesize))))
      end
  end.

Fixpoint cpio_find_loop (fuel : nat) (img : list Z) (size : Z) (want : list Z) (off : Z)
  : outcome find_result :=
  match fuel with
  | O => Diverge
  | S fuel =>
      if u64 (off + HDR) <=? size then
        let! m := magic_ok img off MAGIC in
        if negb m then Ret NotFound else
        let! h := read_header img size off in
        match h with
        | None => Ret NotFound
        | Some (filesize, namesize, data) =>
            if size <? u64 (data + filesize) then Ret NotFound else
            let! t := same img (off + HDR) TRAILER in
            if t then Ret NotFound else
            let! p := skip_slash_at img (off + HDR) in
            let! e := same img p want in
            if e then Ret (Found data filesize)
            else cpio_find_loop fuel img size want (u64 (data + round4 filesize))
        end
      else Ret NotFound
  end.

Definition cpio_find (fuel : nat) (img : list Z) (size : Z) (want : list Z) : outcome find_result :=
  cpio_find_loop fuel img size (skip_slash want) 0.

(** [cpio_list]: the names and sizes it prints.  The name is printed up to its
    NUL; only two bytes of the magic are looked at and the data is not checked
    against the end of the image. *)
Fixpoint cpio_list_loop (fuel : nat) (img : list Z) (size off : Z)
  : outcome (list (list Z * Z)) :=
  match fuel with
  | O => Diverge
  | S fuel =>
      if u64 (off + HDR) <=? size then
        let! m := magic_ok img off (str "07") in
        if negb m then Ret [] else
        let! h := read_header img size off in
        match h with
        | None => Ret []
        | Some (filesize, namesize, data) =>
            let! t := same img (off + HDR) TRAILER in
            if t then Ret [] else
            let! rest := cpio_list_loop fuel img size
                     (u64 (u64 (off + round4 (HDR + namesize)) + round4 filesize)) in
            Ret ((cstr (drop (Z.to_nat (off + HDR)) img), filesize) :: rest)
        end
      else Ret []
  end.
Definition cpio_list (fuel : nat) (img : list Z) (size : Z) := cpio_list_loop fuel img size 0.

(** ** Lemmas about the reader *)

Lemma round4_spec n : 0 <= n < 2 ^ 63 -> round4 n = n + (- n) mod 4.
Proof.
  intros. unfold round4. rewrite uwrap_small by lia.
  change (Z.lnot 3) with (Z.lnot (Z.ones 2)).
  rewrite <- Z.ldiff_land, Z.ldiff_ones_r, Z.shiftl_mul_pow2, Z.shiftr_div_pow2 by lia. zdm.
Qed.

Lemma same_spec pre name post s :
  c_string name -> c_string s ->
  same (pre ++ name ++ 0 :: post) (zlen pre) s = Ret (bool_decide (name = s)).
Proof.
  intros Hn Hs. revert name pre Hn.
  induction Hs as [|x s Hx Hs IH]; intros [|c name] pre Hn; cbn [same];
    rewrite ld_app_r0; cbn [app].
  - done.
  - inversion Hn; subst. change (ld (c :: _) 0) with (Ret c). cbn [obind].
    rewrite bool_decide_eq_false_2 by done. destruct (Z.eqb_spec c 0); [lia|done].
  - change (ld (0 :: _) 0) with (Ret 0). cbn [obind].
    rewrite bool_decide_eq_false_2 by done. destruct (Z.eqb_spec 0 x); [lia|done].
  - inversion Hn as [|? ? Hc Hn']; subst. change (ld (c :: _) 0) with (Ret c). cbn [obind].
    destruct (Z.eqb_spec c 0); [lia|]. cbn [negb andb].
    destruct (Z.eqb_spec c x) as [->|].
    + specialize (IH name (pre ++ [x]) Hn').
      rewrite <- app_assoc, zlen_app in IH. cbn [app] in IH |- *.
      change (zlen [x]) with 1 in IH. rewrite IH.
      f_equal. apply bool_decide_ext. split; congruence.
    + rewrite bool_decide_eq_false_2 by congruence. done.
Qed.

Lemma skip_slash_c_string s : c_string s -> c_string (skip_slash s).
Proof. intros H. destruct s as [|c s]; [done|]. simpl. case_match; [by inversion H|done]. Qed.

Lemma same_skip_slash pre name post s :
  c_string name -> c_string s ->
  (let! p := skip_slash_at (pre ++ name ++ 0 :: post) (zlen pre) in
   same (pre ++ name ++ 0 :: post) p s) = Ret (bool_decide (skip_slash name = s)).
Proof.
  intros Hn Hs. unfold skip_slash_at. rewrite ld_app_r0.
  destruct name as [|c name].
  - change (ld _ 0) with (Ret 0). cbn [obind]. change (0 =? 47) with false. cbn iota.
    by rewrite same_spec.
  - change (ld _ 0) with (Ret c). cbn [obind]. simpl skip_slash.
    destruct (Z.eqb_spec c 47) as [->|]; [|by rewrite same_spec].
    inversion Hn; subst.
    pose proof (same_spec (pre ++ [47]) name post s) as Hsame.
    rewrite <- app_assoc, zlen_app in Hsame. cbn [app] in Hsame |- *.
    change (zlen [47]) with 1 in Hsame. by rewrite Hsame.
Qed.

Lemma magic_ok_spec pre m post : magic_ok (pre ++ m ++ post) (zlen pre) m = Ret true.
Proof.
  revert pre. induction m as [|x m IH]; intros pre; cbn [magic_ok]; [done|].
  rewrite ld_app_r0. change (ld _ 0) with (Ret x). cbn [obind]. rewrite Z.eqb_refl.
  specialize (IH (pre ++ [x])). rewrite <- app_assoc, zlen_app in IH. exact IH.
Qed.

(** One hex digit of [field]. *)
Lemma field_acc v d : 0 <= v < 2 ^ 60 -> 0 <= d < 16 -> Z.lor (u64 (Z.shiftl v 4)) d = 16 * v + d.
Proof.
  intros. rewrite uwrap_small by (rewrite Z.shiftl_mul_pow2; lia).
  rewrite Z.lor_comm, lor_shiftl_add by lia. lia.
Qed.

(** ** The reader stays inside the archive

    [img] is the archive and the byte after it is readable and NUL, as in a
    page the loader rounded up; the archive itself is arbitrary bytes. *)
Section bounded.
Context (img : list Z) (Himg : zlen img < 2 ^ 62).

Lemma zlen_img1 : zlen (img ++ [0]) = zlen img + 1.
Proof. by rewrite zlen_app. Qed.

Lemma field_loop_total n b p v :
  0 <= p -> p + Z.of_nat n <= zlen b -> (n <= 8)%nat -> 0 <= v < 2 ^ (4 * (8 - Z.of_nat n)) ->
  exists r, field_loop n b p v = Ret r /\ forall x, r = Some x -> 0 <= x < 2 ^ 32.
Proof.
  revert p v. induction n as [|n IH]; intros p v Hp Hb Hn Hv; cbn [field_loop].
  { eexists; split; [done|]. intros x [= <-]. exact Hv. }
  rewrite ld_ret by lia. cbn [obind].
  destruct (Z.ltb_spec (hexval (at_ b p)) 0); [by eexists|].
  assert (hexval (at_ b p) < 16) by (unfold hexval; cases; zbool).
  assert (2 ^ (4 * (8 - Z.of_nat (S n))) <= 2 ^ 60) by (apply Z.pow_le_mono_r; lia).
  rewrite field_acc by lia. apply IH; try lia.
  replace (4 * (8 - Z.of_nat n)) with (4 + 4 * (8 - Z.of_nat (S n))) by lia.
  rewrite Z.pow_add_r by lia. lia.
Qed.

Lemma same_total o s : 0 <= o <= zlen img -> exists r, same (img ++ [0]) o s = Ret r.
Proof.
  revert o. induction s as [|x s IH]; intros o Ho; cbn [same];
    rewrite ld_ret by (rewrite zlen_img1; lia); cbn [obind]; [eauto|].
  destruct (Z.eqb_spec (at_ (img ++ [0]) o) 0) as [|Hnz]; [by eexists|].
  cbn [negb andb]. destruct (Z.eqb_spec (at_ (img ++ [0]) o) x); [|by eexists].
  apply IH. destruct (decide (o = zlen img)) as [->|]; [|lia].
  rewrite at_app_r, Z.sub_diag in Hnz by lia. done.
Qed.

Lemma skip_slash_at_total o :
  0 <= o <= zlen img -> exists p, skip_slash_at (img ++ [0]) o = Ret p /\ 0 <= p <= zlen img.
Proof.
  intros Ho. unfold skip_slash_at. rewrite ld_ret by (rewrite zlen_img1; lia). cbn [obind].
  destruct (Z.eqb_spec (at_ (img ++ [0]) o) 47) as [Hs|]; [|by eexists].
  eexists; split; [done|]. destruct (decide (o = zlen img)) as [->|]; [|lia].
  rewrite at_app_r, Z.sub_diag in Hs by lia. done.
Qed.

Lemma magic_ok_total m o :
  0 <= o -> o + zlen m <= zlen img -> exists r, magic_ok (img ++ [0]) o m = Ret r.
Proof.
  revert o. induction m as [|x m IH]; intros o Ho Hm; cbn [magic_ok]; [by eexists|].
  rewrite zlen_cons in Hm. pose proof (zlen_nonneg m).
  rewrite ld_ret by (rewrite zlen_img1; lia). cbn [obind].
  case_match; [|by eexists]. apply IH; lia.
Qed.

(** A header that is accepted describes data that starts behind the header. *)
Lemma read_header_total off :
  0 <= off -> off + HDR <= zlen img ->
  exists r, read_header (img ++ [0]) (zlen img) off = Ret r
    /\ forall fs ns data, r = Some (fs, ns, data) ->
         0 <= fs < 2 ^ 32 /\ off + HDR + ns <= zlen img /\ 1 <= ns
         /\ data = off + (HDR + ns) + (- (HDR + ns)) mod 4.
Proof using Himg.
  unfold read_header, HDR. intros Ho Hb.
  destruct (field_loop_total 8 (img ++ [0]) (off + 54) 0) as (r1 & E1 & H1);
    [rewrite ?zlen_img1; lia..|].
  unfold field. rewrite E1. cbn [obind]. destruct r1 as [fs|]; [|by eexists].
  destruct (field_loop_total 8 (img ++ [0]) (off + 94) 0) as (r2 & E2 & H2);
    [rewrite ?zlen_img1; lia..|].
  rewrite E2. cbn [obind]. destruct r2 as [ns|]; [|by eexists].
  specialize (H1 _ eq_refl). specialize (H2 _ eq_refl).
  rewrite (uwrap_small 64 (off + 110)) by lia. rewrite (uwrap_small 64 (off + 110 + ns)) by lia.
  destruct (Z.eqb_spec ns 0); [by eexists|]. cbn [orb].
  destruct (Z.ltb_spec (zlen img) (off + 110 + ns)); [by eexists|].
  rewrite round4_spec by lia. rewrite uwrap_small by zdm.
  eexists; split; [done|]. intros ? ? ? [= <- <- <-]. repeat split; lia.
Qed.

Lemma cpio_find_loop_total fuel want off :
  0 <= off <= zlen img + 3 -> Z.max 0 (zlen img - off) < Z.of_nat fuel ->
  exists r, cpio_find_loop fuel (img ++ [0]) (zlen img) want off = Ret r
    /\ forall a n, r = Found a n -> 0 <= a /\ 0 <= n /\ a + n <= zlen img.
Proof using Himg.
  revert off. induction fuel as [|fuel IH]; intros off Ho Hf; [lia|]. cbn [cpio_find_loop].
  rewrite uwrap_small by (unfold HDR; lia).
  destruct (Z.leb_spec (off + HDR) (zlen img)) as [Hb|]; [|by eexists].
  destruct (magic_ok_total MAGIC off) as ([] & ->);
    [lia|change (zlen MAGIC) with 6; unfold HDR in *; lia|..]; cbn [obind negb]; [|by eexists].
  destruct (read_header_total off) as (h & -> & Hh); [lia..|]. cbn [obind].
  destruct h as [[[fs ns] data]|]; [|by eexists].
  destruct (Hh _ _ _ eq_refl) as (Hfs & Hns & Hns1 & Hdata). clear Hh. unfold HDR in *.
  pose proof (Z.mod_pos_bound (- (110 + ns)) 4).
  rewrite (uwrap_small 64 (data + fs)) by lia.
  destruct (Z.ltb_spec (zlen img) (data + fs)); [by eexists|].
  destruct (same_total (off + 110) TRAILER) as ([] & ->); [lia|by eexists|]. cbn [obind].
  destruct (skip_slash_at_total (off + 110)) as (p & -> & Hp); [lia|]. cbn [obind].
  destruct (same_total p want) as ([] & ->); [lia|..]; cbn [obind].
  - eexists; split; [done|]. intros ? ? [= <- <-]. lia.
  - pose proof (Z.mod_pos_bound (- fs) 4).
    rewrite round4_spec, uwrap_small by lia. apply IH; lia.
Qed.
End bounded.

(** C32: on any bytes whatever, [cpio_find] terminates within [size + 1] turns,
    reads nothing beyond the archive and one NUL after it, and a file it
    reports lies inside the archive. *)
Theorem cpio_find_safe img want fuel :
  zlen img < 2 ^ 62 -> zlen img < Z.of_nat fuel ->
  exists r, cpio_find fuel (img ++ [0]) (zlen img) want = Ret r
    /\ forall a n, r = Found a n -> 0 <= a /\ 0 <= n /\ a + n <= zlen img.
Proof.
  intros Hi Hf. apply cpio_find_loop_total; [done|..]; pose proof (zlen_nonneg img); lia.
Qed.

(** An archive of one entry whose name is not terminated. *)
Definition unterminated : list Z :=
  str "070701" ++ str "00000000" ++ str "00000000" ++ str "00000000" ++ str "00000000"
  ++ str "00000000" ++ str "00000000" ++ str "00000000" ++ str "00000000" ++ str "00000000"
  ++ str "00000000" ++ str "00000000" ++ str "00000002" ++ str "00000000" ++ str "TR".

(** The NUL after the archive is needed.  A name is compared up to its NUL
    and nothing checks that the NUL is inside [namesize]: on an archive that
    ends in an unterminated prefix of the trailer's name, [cpio_find] reads
    past the end of the image. *)
Theorem cpio_find_overread want :
  cpio_find 200 unterminated (zlen unterminated) want = Fault.
Proof. reflexivity. Qed.

Lemma cpio_find_safe_witness :
  zlen unterminated < 2 ^ 62 /\ zlen unterminated < Z.of_nat 113 /\
  exists r, cpio_find 113 (unterminated ++ [0]) (zlen unterminated) (str "/init") = Ret r
    /\ forall a n, r = Found a n -> 0 <= a /\ 0 <= n /\ a + n <= zlen unterminated.
Proof.
  split; [reflexivity|]. split; [reflexivity|]. apply cpio_find_safe; reflexivity.
Defined.

End Reader.

Module Writer.

(** ** [vcpio/vcpio.c]: [cpio -o] *)

(** The fields of [struct stat] the header carries. *)
Record stat := Stat {
  st_ino : Z; st_mode : Z; st_uid : Z; st_gid : Z;
  st_nlink : Z; st_mtime : Z; st_size : Z
}.

Definition hexdigit (d : Z) : Z := if d <? 10 then 48 + d else 97 + d - 10.

(** [fprintf(o, "%08x", v)] for an [unsigned v]. *)
Definition hexfield (v : Z) : list Z :=
  (fun i => hexdigit ((v / 16 ^ (7 - Z.of_nat i)) mod 16)) <$> seq 0 8.

Definition pad (pos : Z) : list Z := zeros ((- pos) mod 4).

Definition stat_field (st : option stat) (f : stat -> Z) (d : Z) : Z :=
  match st with Some s => u32 (f s) | None => d end.

Definition header (st : option stat) (nsize : Z) : list Z :=
  str "070701" ++
  hexfield (stat_field st st_ino 0) ++ hexfield (stat_field st st_mode 0) ++
  hexfield (stat_field st st_uid 0) ++ hexfield (stat_field st st_gid 0) ++
  hexfield (stat_field st st_nlink 1) ++ hexfield (stat_field st st_mtime 0) ++
  hexfield (stat_field st st_size 0) ++
  hexfield 0 ++ hexfield 0 ++ hexfield 0 ++ hexfield 0 ++
  hexfield nsize ++ hexfield 0.

(** The bytes written and the new value of [*pos]. *)
Definition write_entry (name : list Z) (st : option stat) (data : option (list Z)) (pos : Z)
  : list Z * Z :=
  let nsize := u32 (zlen name + 1) in
  let pos := pos + 110 in
  let pos := pos + nsize in
  let pad1 := pad pos in
  let pos := pos + zlen pad1 in
  let head := header st nsize ++ name ++ [0] ++ pad1 in
  match st, data with
  | Some s, Some d =>
      if st_size s =? 0 then (head, pos)
      else
        let body := take (Z.to_nat (st_size s)) d in
        let pos := pos + st_size s in
        (head ++ body ++ pad pos, pos + zlen (pad pos))
  | _, _ => (head, pos)
  end.

(** ** Lemmas about the writer *)
Lemma hexval_hexdigit d : 0 <= d < 16 -> Reader.hexval (hexdigit d) = d.
Proof.
  intros. unfold hexdigit, Reader.hexval.
  destruct (Z.ltb_spec d 10).
  - by rewrite (proj2 (Z.leb_le 48 _)), (proj2 (Z.leb_le _ 57)) by lia; cbn; lia.
  - rewrite (proj2 (Z.leb_gt _ 57)) by lia. rewrite andb_false_r.
    rewrite (proj2 (Z.leb_le 97 _)), (proj2 (Z.leb_le _ 102)) by lia. cbn. lia.
Qed.

Lemma zlen_hexfield v : zlen (hexfield v) = 8.
Proof. done. Qed.

(** The digits of [v] from the [n]-th down, read back on top of [acc]. *)
Lemma field_loop_digits n v acc pre post :
  (n <= 8)%nat -> 0 <= v -> 0 <= acc < 2 ^ (4 * (8 - Z.of_nat n)) ->
  Reader.field_loop n
    (pre ++ ((fun i => hexdigit ((v / 16 ^ (7 - Z.of_nat i)) mod 16)) <$> seq (8 - n) n) ++ post)
    (zlen pre) acc
  = Ret (Some (acc * 16 ^ Z.of_nat n + v mod 16 ^ Z.of_nat n)).
Proof.
  revert acc pre. induction n as [|n IH]; intros acc pre Hn Hv Hacc; cbn [Reader.field_loop].
  { change (16 ^ Z.of_nat 0) with 1. rewrite Z.mod_1_r. do 2 f_equal. lia. }
  rewrite ld_app_r0. cbn [seq fmap list_fmap app].
  set (d := (v / 16 ^ (7 - Z.of_nat (8 - S n))) mod 16).
  assert (0 <= d < 16) as Hd by (apply Z.mod_pos_bound; lia).
  change (ld (hexdigit d :: _) 0) with (Ret (hexdigit d)). cbn [obind].
  rewrite hexval_hexdigit by done.
  destruct (Z.ltb_spec d 0); [lia|].
  assert (2 ^ (4 * (8 - Z.of_nat (S n))) <= 2 ^ 60) by (apply Z.pow_le_mono_r; lia).
  rewrite Reader.field_acc by lia.
  replace (zlen pre + 1) with (zlen (pre ++ [hexdigit d])) by (by rewrite zlen_app).
  replace (S (8 - S n))%nat with (8 - n)%nat by lia.
  specialize (IH (16 * acc + d) (pre ++ [hexdigit d])).
  rewrite <- app_assoc in IH. cbn [app] in IH. rewrite IH; [|lia..|].
  - do 2 f_equal. rewrite Nat2Z.inj_succ, Z.pow_succ_r by lia.
    rewrite (Z.mul_comm 16 (16 ^ _)), Z.rem_mul_r by (try apply Z.pow_nonzero; lia).
    replace d with ((v / 16 ^ Z.of_nat n) mod 16) by (subst d; do 3 f_equal; lia). ring.
  - replace (4 * (8 - Z.of_nat n)) with (4 + 4 * (8 - Z.of_nat (S n))) by lia.
    rewrite Z.pow_add_r by lia. lia.
Qed.

(** What [%08x] writes, [field] reads. *)
Lemma field_hexfield pre v post :
  0 <= v < 2 ^ 32 -> Reader.field (pre ++ hexfield v ++ post) (zlen pre) = Ret (Some v).
Proof.
  intros. unfold Reader.field, hexfield. pose proof (field_loop_digits 8 v 0 pre post) as Hf.
  change (8 - 8)%nat with 0%nat in Hf. rewrite Hf by lia.
  change (16 ^ Z.of_nat 8) with (2 ^ 32). by rewrite Z.mod_small by lia.
Qed.

(** What the file system answers: [lstat], the bytes [fread] returns from the
    opened file (at most [st_size]), and [readlink]. *)
Inductive kind := KReg (contents : option (list Z)) | KLnk (target : option (list Z)) | KOther.

Definition set_size (s : stat) (n : Z) : stat :=
  Stat (st_ino s) (st_mode s) (st_uid s) (st_gid s) (st_nlink s) (st_mtime s) n.

Definition stat_zero : stat := Stat 0 0 0 0 1 0 0.

Section create.
Context (lstat : list Z -> option (stat * kind)).

Definition create_entry (line : list Z) (pos : Z) : list Z * Z :=
  match lstat line with
  | None => ([], pos)                                     (* not found *)
  | Some (st, KReg None) => ([], pos)                     (* fopen failed *)
  | Some (st, KReg (Some c)) =>
      let d := take (Z.to_nat (st_size st)) c in
      write_entry line (Some (set_size st (zlen d))) (Some d) pos
  | Some (st, KLnk None) => ([], pos)                     (* cannot read link *)
  | Some (st, KLnk (Some t)) =>
      let t := take 4095 t in
      write_entry line (Some (set_size st (zlen t))) (Some t) pos
  | Some (st, KOther) => write_entry line (Some (set_size st 0)) None pos
  end.

(** [strcspn(line, "\n")] cut the line there. *)
Fixpoint chomp (line : list Z) : list Z :=
  match line with
  | [] => []
  | c :: l => if c =? 10 then [] else c :: chomp l
  end.

Fixpoint do_create_loop (lines : list (list Z)) (pos : Z) : list Z * Z :=
  match lines with
  | [] => ([], pos)
  | l :: lines =>
      let line := chomp l in
      match line with
      | [] => do_create_loop lines pos
      | _ =>
          let (out, pos) := create_entry line pos in
          let (rest, pos) := do_create_loop lines pos in
          (out ++ rest, pos)
      end
  end.

Definition do_create (lines : list (list Z)) : list Z :=
  let (out, pos) := do_create_loop lines 0 in
  let (tr, _) := write_entry Reader.TRAILER (Some stat_zero) None pos in
  out ++ tr.
End create.

End Writer.

(** ** The archive the kernel reads is the archive vcpio wrote *)
Module RoundTrip.
Import Reader Writer.

(** One entry as it lies in the archive, at a multiple of four. *)
Definition layout (name : list Z) (st : stat) (d : list Z) : list Z :=
  header (Some st) (zlen name + 1) ++ name ++ 0 :: pad (110 + (zlen name + 1)) ++ d ++ pad (zlen d).

Lemma zlen_pad n : zlen (pad n) = (- n) mod 4.
Proof. apply zlen_zeros. apply Z.mod_pos_bound. lia. Qed.

Lemma pad_mod n : (n + zlen (pad n)) mod 4 = 0.
Proof. rewrite zlen_pad. zdm. Qed.

Lemma pad_shift n k : k mod 4 = 0 -> pad (k + n) = pad n.
Proof. intros. unfold pad. f_equal. zdm. Qed.

Lemma zlen_header st n : zlen (header st n) = 110.
Proof. done. Qed.

Lemma zlen_layout name st d :
  zlen (layout name st d) =
    110 + (zlen name + 1) + (- (110 + (zlen name + 1))) mod 4 + zlen d + (- zlen d) mod 4.
Proof.
  unfold layout. autorewrite with zlen. rewrite zlen_header, !zlen_pad. lia.
Qed.

Lemma layout_nil name st :
  layout name st [] = header (Some st) (zlen name + 1) ++ name ++ [0] ++ pad (110 + (zlen name + 1)).
Proof. unfold layout. change (pad (zlen [])) with (@nil Z). by rewrite !app_nil_r. Qed.

Lemma zlen_layout_nil name st :
  zlen (header (Some st) (zlen name + 1) ++ name ++ [0] ++ pad (110 + (zlen name + 1)))
  = 110 + (zlen name + 1) + zlen (pad (110 + (zlen name + 1))).
Proof. autorewrite with zlen. rewrite zlen_header. lia. Qed.

Lemma layout_aligned name st d : zlen (layout name st d) mod 4 = 0.
Proof. rewrite zlen_layout. zdm. Qed.

(** What [write_entry] appends when the archive is aligned; [d] is the data
    that goes with the size in the header. *)
Definition entry_data (data : option (list Z)) : list Z := default [] data.

Lemma write_entry_layout name st data pos :
  0 <= pos -> pos mod 4 = 0 -> zlen name < 4096 -> st_size st = zlen (entry_data data) ->
  write_entry name (Some st) data pos
  = (layout name st (entry_data data), pos + zlen (layout name st (entry_data data))).
Proof.
  intros Hp Ha Hn Hsz. pose proof (zlen_nonneg name).
  unfold write_entry. rewrite uwrap_small by lia.
  assert (pad (pos + 110 + (zlen name + 1)) = pad (110 + (zlen name + 1))) as ->
    by (rewrite <- Z.add_assoc; by apply pad_shift).
  assert (forall n, pad (pos + 110 + (zlen name + 1) + zlen (pad (110 + (zlen name + 1))) + n) = pad n)
    as Hpad.
  { intros n. apply pad_shift. rewrite zlen_pad. zdm. }
  rewrite Hsz. destruct data as [d|];
    [change (entry_data (Some d)) with d|change (entry_data None) with (@nil Z)].
  - destruct (Z.eqb_spec (zlen d) 0) as [Hd|Hd].
    + assert (d = []) as -> by (destruct d; [done|rewrite zlen_cons in Hd; pose proof (zlen_nonneg d); lia]).
      f_equal.
      * by rewrite layout_nil.
      * rewrite layout_nil, zlen_layout_nil. lia.
    + rewrite Hpad. rewrite take_ge by (unfold zlen; lia).
      f_equal; [unfold layout; by rewrite <- !app_assoc|].
      rewrite zlen_layout, !zlen_pad. lia.
  - change (zlen []) with 0. cbn [Z.eqb].
    f_equal.
    + by rewrite layout_nil.
    + rewrite layout_nil, zlen_layout_nil. lia.
Qed.
Lemma trailer_c_string : c_string TRAILER.
Proof. apply (bool_decide_unpack _). vm_compute. done. Qed.

(** Where an entry's data starts, from the start of its header. *)
Definition data_off (name : list Z) : Z :=
  110 + (zlen name + 1) + (- (110 + (zlen name + 1))) mod 4.

Lemma field_at img pre v post off :
  img = pre ++ hexfield v ++ post -> off = zlen pre -> 0 <= v < 2 ^ 32 ->
  field img off = Ret (Some v).
Proof. intros -> -> Hv. by apply field_hexfield. Qed.

Section reading_entry.
Context (pre name : list Z) (st : stat) (d rest : list Z).
Context (Hname : c_string name) (Hlen : zlen name < 4096)
  (Hsize : st_size st = zlen d) (Hd : zlen d < 2 ^ 32).
Let img := pre ++ layout name st d ++ rest.
Context (Himg : zlen img < 2 ^ 62).

Lemma zlen_img : zlen img = zlen pre + zlen (layout name st d) + zlen rest.
Proof. unfold img. autorewrite with zlen. lia. Qed.

Lemma entry_magic : magic_ok img (zlen pre) MAGIC = Ret true.
Proof. unfold img, layout, header. rewrite <- !app_assoc. apply (magic_ok_spec pre MAGIC). Qed.

Lemma entry_name_split :
  img = (pre ++ header (Some st) (zlen name + 1)) ++ name
        ++ 0 :: (pad (110 + (zlen name + 1)) ++ d ++ pad (zlen d) ++ rest).
Proof.
  unfold img, layout. repeat (rewrite <- ?app_assoc; cbn [app]). done.
Qed.

Lemma entry_header_read :
  read_header img (zlen img) (zlen pre)
  = Ret (Some (zlen d, zlen name + 1, zlen pre + data_off name)).
Proof using Hlen Hsize Hd Himg.
  pose proof (zlen_nonneg name). pose proof (zlen_nonneg d). pose proof (zlen_nonneg pre).
  pose proof (zlen_nonneg rest). pose proof zlen_img as Hzi. rewrite zlen_layout in Hzi.
  pose proof (Z.mod_pos_bound (- (110 + (zlen name + 1))) 4).
  pose proof (Z.mod_pos_bound (- zlen d) 4).
  unfold read_header.
  rewrite (field_at img
    (pre ++ str "070701" ++ hexfield (u32 (st_ino st)) ++ hexfield (u32 (st_mode st))
     ++ hexfield (u32 (st_uid st)) ++ hexfield (u32 (st_gid st))
     ++ hexfield (u32 (st_nlink st)) ++ hexfield (u32 (st_mtime st))) (zlen d)
    (hexfield 0 ++ hexfield 0 ++ hexfield 0 ++ hexfield 0 ++ hexfield (zlen name + 1)
     ++ hexfield 0 ++ name ++ 0 :: pad (110 + (zlen name + 1)) ++ d ++ pad (zlen d) ++ rest));
    [|unfold img, layout, header, stat_field; rewrite Hsize, (uwrap_small 32 (zlen d)) by lia;
      repeat (rewrite <- ?app_assoc; cbn [app]); done
     |autorewrite with zlen; rewrite !zlen_hexfield; done|lia].
  cbn [obind].
  rewrite (field_at img
    (pre ++ str "070701" ++ hexfield (u32 (st_ino st)) ++ hexfield (u32 (st_mode st))
     ++ hexfield (u32 (st_uid st)) ++ hexfield (u32 (st_gid st))
     ++ hexfield (u32 (st_nlink st)) ++ hexfield (u32 (st_mtime st))
     ++ hexfield (u32 (st_size st)) ++ hexfield 0 ++ hexfield 0 ++ hexfield 0 ++ hexfield 0)
    (zlen name + 1)
    (hexfield 0 ++ name ++ 0 :: pad (110 + (zlen name + 1)) ++ d ++ pad (zlen d) ++ rest));
    [|unfold img, layout, header, stat_field;
      repeat (rewrite <- ?app_assoc; cbn [app]); done
     |autorewrite with zlen; rewrite !zlen_hexfield; done|lia].
  cbn [obind]. unfold HDR.
  rewrite round4_spec by lia.
  rewrite (uwrap_small 64 (zlen pre + 110)) by lia.
  rewrite (uwrap_small 64 (zlen pre + 110 + _)) by lia.
  rewrite (uwrap_small 64) by lia.
  destruct (Z.eqb_spec (zlen name + 1) 0); [lia|]. cbn [orb].
  destruct (Z.ltb_spec (zlen img) (zlen pre + 110 + (zlen name + 1))); [lia|].
  done.
Qed.

(** One turn of the search loop. *)
Lemma find_entry fuel want :
  c_string want ->
  cpio_find_loop (S fuel) img (zlen img) want (zlen pre)
  = if bool_decide (name = TRAILER) then Ret NotFound
    else if bool_decide (skip_slash name = want)
    then Ret (Found (zlen pre + data_off name) (zlen d))
    else cpio_find_loop fuel img (zlen img) want (zlen (pre ++ layout name st d)).
Proof using Hname Hlen Hsize Hd Himg.
  intros Hw. cbn [cpio_find_loop].
  pose proof (zlen_nonneg name). pose proof (zlen_nonneg d). pose proof (zlen_nonneg pre).
  pose proof (zlen_nonneg rest). pose proof zlen_img as Hzi. rewrite zlen_layout in Hzi.
  pose proof (Z.mod_pos_bound (- (110 + (zlen name + 1))) 4).
  pose proof (Z.mod_pos_bound (- zlen d) 4).
  rewrite (uwrap_small 64 (zlen pre + HDR)) by (unfold HDR; lia).
  destruct (Z.leb_spec (zlen pre + HDR) (zlen img)) as [_|?]; [|unfold HDR in *; lia].
  rewrite entry_magic. cbn [obind negb]. rewrite entry_header_read. cbn [obind].
  unfold data_off.
  rewrite (uwrap_small 64) by lia.
  destruct (Z.ltb_spec (zlen img)
    (zlen pre + (110 + (zlen name + 1) + (- (110 + (zlen name + 1))) mod 4) + zlen d)); [lia|].
  replace (zlen pre + HDR) with (zlen (pre ++ header (Some st) (zlen name + 1)))
    by (rewrite zlen_app, zlen_header; done).
  assert (same img (zlen (pre ++ header (Some st) (zlen name + 1))) TRAILER
          = Ret (bool_decide (name = TRAILER))) as ->.
  { rewrite entry_name_split. apply same_spec; [done|apply trailer_c_string]. }
  cbn [obind]. destruct (bool_decide (name = TRAILER)); [done|].
  pose proof (same_skip_slash (pre ++ header (Some st) (zlen name + 1)) name
    (pad (110 + (zlen name + 1)) ++ d ++ pad (zlen d) ++ rest) want Hname Hw) as Hs.
  rewrite <- entry_name_split in Hs.
  destruct (skip_slash_at img _) as [p| |]; [|done..]. cbn [obind] in Hs |- *. rewrite Hs.
  cbn [obind]. destruct (bool_decide (skip_slash name = want)); [done|].
  f_equal. rewrite zlen_app, zlen_layout, round4_spec by lia.
  rewrite uwrap_small by lia. lia.
Qed.

(** The data the search answers with is the entry's. *)
Lemma entry_data_slice : slice img (zlen pre + data_off name) (zlen d) = d.
Proof.
  unfold img, layout.
  replace (pre ++ (header (Some st) (zlen name + 1) ++ name
             ++ 0 :: pad (110 + (zlen name + 1)) ++ d ++ pad (zlen d)) ++ rest)
    with ((pre ++ header (Some st) (zlen name + 1) ++ name ++ [0]
             ++ pad (110 + (zlen name + 1))) ++ d ++ pad (zlen d) ++ rest)
    by (repeat (rewrite <- ?app_assoc; cbn [app]); done).
  assert (zlen (pre ++ header (Some st) (zlen name + 1) ++ name ++ [0]
             ++ pad (110 + (zlen name + 1))) = zlen pre + data_off name) as E.
  { autorewrite with zlen. rewrite zlen_pad, zlen_header. unfold data_off. lia. }
  rewrite slice_app_r by lia. rewrite E, Z.sub_diag. by apply slice_app_l.
Qed.
End reading_entry.
(** ** Whole archives *)
Record entry := Entry { e_name : list Z; e_stat : stat; e_data : list Z }.

Definition entry_ok (e : entry) : Prop :=
  c_string (e_name e) /\ zlen (e_name e) < 4096 /\ e_name e <> TRAILER /\
  st_size (e_stat e) = zlen (e_data e) /\ zlen (e_data e) < 2 ^ 32.

Definition lay (es : list entry) : list Z :=
  concat ((fun e => layout (e_name e) (e_stat e) (e_data e)) <$> es).

Definition archive (es : list entry) : list Z := lay es ++ layout TRAILER stat_zero [].

(** The first entry that answers to a name, leading slashes aside. *)
Fixpoint find_by_name (want : list Z) (es : list entry) : option entry :=
  match es with
  | [] => None
  | e :: es =>
      if bool_decide (skip_slash (e_name e) = skip_slash want) then Some e
      else find_by_name want es
  end.

(** What a search result says of the archive it was made in. *)
Definition answers (img : list Z) (r : find_result) (o : option entry) : Prop :=
  match r, o with
  | Found a n, Some e => n = zlen (e_data e) /\ slice img a n = e_data e
  | NotFound, None => True
  | _, _ => False
  end.

Lemma find_in_archive es pre want fuel :
  Forall entry_ok es -> c_string want -> zlen (pre ++ archive es) < 2 ^ 62 ->
  (length es < fuel)%nat ->
  exists r, cpio_find_loop fuel (pre ++ archive es) (zlen (pre ++ archive es))
              (skip_slash want) (zlen pre) = Ret r
    /\ answers (pre ++ archive es) r (find_by_name want es).
Proof.
  intros Hes Hw. revert pre fuel.
  induction Hes as [|[n st d] es (Hn & Hl & Htr & Hsz & Hd) Hes IH]; intros pre fuel Hlen Hf;
    (destruct fuel as [|fuel]; [simpl in Hf; lia|]); cbn [e_name e_stat e_data] in *.
  - exists NotFound. split; [|done]. unfold archive, lay in *. cbn [fmap list_fmap concat app] in *.
    pose proof (find_entry pre TRAILER stat_zero [] [] trailer_c_string) as Hfe.
    rewrite app_nil_r in Hfe.
    rewrite Hfe by (try done; by apply skip_slash_c_string).
    by rewrite bool_decide_eq_true_2.
  - assert (pre ++ archive (Entry n st d :: es) = pre ++ layout n st d ++ archive es) as E.
    { unfold archive, lay. cbn [fmap list_fmap concat e_name e_stat e_data].
      by rewrite <- app_assoc. }
    rewrite E in *. cbn [find_by_name e_name].
    rewrite find_entry by (try done; by apply skip_slash_c_string).
    rewrite bool_decide_eq_false_2 by done.
    case_bool_decide.
    + eexists. split; [done|]. cbn [answers e_data]. split; [done|]. apply entry_data_slice.
    + destruct (IH (pre ++ layout n st d) fuel) as (r & Hr & Ha).
      { by rewrite <- app_assoc. }
      { simpl in Hf. lia. }
      rewrite <- app_assoc in Hr, Ha. eauto.
Qed.

(** The entries [cpio -o] makes of its input. *)
Section entries.
Context (lstat : list Z -> option (stat * kind)).

Definition entry_of (line : list Z) : option entry :=
  match lstat line with
  | None | Some (_, KReg None) | Some (_, KLnk None) => None
  | Some (st, KReg (Some c)) =>
      let d := take (Z.to_nat (st_size st)) c in Some (Entry line (set_size st (zlen d)) d)
  | Some (st, KLnk (Some t)) =>
      let t := take 4095 t in Some (Entry line (set_size st (zlen t)) t)
  | Some (st, KOther) => Some (Entry line (set_size st 0) [])
  end.

Definition entries (lines : list (list Z)) : list entry :=
  omap entry_of (filter (fun l => l <> []) (chomp <$> lines)).

(** What the round trip asks of the input: names are C strings of a line
    buffer's length, none is the trailer's, and files are below 4 GiB, which
    is all a newc header can say. *)
Definition line_ok (line : list Z) : Prop :=
  c_string line /\ zlen line < 4096 /\ line <> TRAILER /\
  forall st k, lstat line = Some (st, k) -> st_size st < 2 ^ 32.

Lemma entry_of_ok line e : line_ok line -> entry_of line = Some e -> entry_ok e.
Proof.
  intros (Hc & Hl & Ht & Hs). unfold entry_of.
  destruct (lstat line) as [[st [[c|]|[t|]|]]|] eqn:El; intros H; try discriminate H;
    simplify_eq; specialize (Hs _ _ eq_refl);
    unfold entry_ok; cbn [e_name e_stat e_data set_size st_size]; repeat split; try done;
    unfold zlen in *; rewrite ?length_take; lia.
Qed.

Lemma create_entry_of line pos :
  0 <= pos -> pos mod 4 = 0 -> zlen line < 4096 ->
  create_entry lstat line pos
  = match entry_of line with
    | Some e => let l := layout (e_name e) (e_stat e) (e_data e) in (l, pos + zlen l)
    | None => ([], pos)
    end.
Proof.
  intros Hp Ha Hl. unfold create_entry, entry_of.
  destruct (lstat line) as [[st [[c|]|[t|]|]]|]; try done;
    cbn [e_name e_stat e_data]; by rewrite write_entry_layout.
Qed.

Lemma do_create_loop_lay lines pos :
  0 <= pos -> pos mod 4 = 0 -> Forall line_ok (chomp <$> lines) ->
  do_create_loop lstat lines pos = (lay (entries lines), pos + zlen (lay (entries lines))).
Proof.
  intros Hp Ha Hok. revert pos Hp Ha.
  induction lines as [|l lines IH]; intros pos Hp Ha; cbn [do_create_loop].
  { rewrite Z.add_0_r. done. }
  cbn [fmap list_fmap] in Hok. inversion Hok as [|? ? Hl Hls]; subst. specialize (IH Hls).
  unfold entries. cbn [fmap list_fmap].
  destruct (chomp l) as [|c line] eqn:El.
  { rewrite filter_cons_False by naive_solver. by apply IH. }
  rewrite filter_cons_True by done. cbn [omap list_omap].
  rewrite create_entry_of by (try done; apply Hl).
  destruct (entry_of (c :: line)) as [e|]; [|by rewrite IH].
  pose proof (layout_aligned (e_name e) (e_stat e) (e_data e)).
  pose proof (zlen_nonneg (layout (e_name e) (e_stat e) (e_data e))).
  cbv beta iota zeta. rewrite IH by zdm. unfold entries, lay. cbn [fmap list_fmap concat].
  rewrite zlen_app. by rewrite Z.add_assoc.
Qed.

Lemma lay_aligned es : zlen (lay es) mod 4 = 0.
Proof.
  induction es as [|e es IH]; [done|]. unfold lay in *. cbn [fmap list_fmap concat].
  rewrite zlen_app. pose proof (layout_aligned (e_name e) (e_stat e) (e_data e)). zdm.
Qed.

Lemma do_create_archive lines :
  Forall line_ok (chomp <$> lines) -> do_create lstat lines = archive (entries lines).
Proof.
  intros Hok. unfold do_create. rewrite do_create_loop_lay by done.
  rewrite write_entry_layout; [done|apply zlen_nonneg|apply lay_aligned|done..].
Qed.

Lemma entries_ok lines : Forall line_ok (chomp <$> lines) -> Forall entry_ok (entries lines).
Proof.
  intros Hok. unfold entries. apply Forall_forall. intros e He.
  apply list_elem_of_omap in He as (l & Hl & He).
  apply list_elem_of_filter in Hl as [_ Hl].
  eapply entry_of_ok; [|done]. by eapply Forall_forall in Hok.
Qed.

Lemma length_entries lines : (length (entries lines) <= length lines)%nat.
Proof.
  unfold entries. induction lines as [|l lines IH]; [done|].
  cbn [fmap list_fmap]. rewrite filter_cons. case_decide; cbn [omap list_omap length]; [|lia].
  destruct (entry_of _); simpl; lia.
Qed.
End entries.

(** C12: the kernel finds in the initrd what [cpio -o] put there.  For any list
    of input lines and any file system, searching the archive written for them
    answers with the data of the first entry of that name, leading slashes
    aside, and with nothing exactly when there is none. *)
Theorem cpio_round_trip lstat lines want fuel :
  Forall (line_ok lstat) (chomp <$> lines) -> c_string want ->
  zlen (do_create lstat lines) < 2 ^ 62 -> (length lines < fuel)%nat ->
  exists r, cpio_find fuel (do_create lstat lines) (zlen (do_create lstat lines)) want = Ret r
    /\ answers (do_create lstat lines) r (find_by_name want (entries lstat lines)).
Proof.
  intros Hok Hw Hlen Hf. rewrite do_create_archive in * by done.
  pose proof (length_entries lstat lines).
  destruct (find_in_archive (entries lstat lines) [] want fuel) as (r & Hr & Ha);
    [by apply entries_ok|done|done|lia|]. eauto.
Qed.

(** A file system of one program and one link to it. *)
Definition sample_lstat (p : list Z) : option (stat * kind) :=
  if bool_decide (p = str "bin/init") then
    Some (Stat 1 33261 0 0 1 0 5, KReg (Some (str "hello")))
  else if bool_decide (p = str "init") then
    Some (Stat 2 41471 0 0 1 0 0, KLnk (Some (str "bin/init")))
  else None.
Definition sample_lines : list (list Z) := [str "bin/init" ++ [10]; str "init" ++ [10]; str "gone"].

Lemma sample_line_ok line :
  bool_decide (c_string line) && (zlen line <? 4096) && bool_decide (line <> TRAILER) = true ->
  line_ok sample_lstat line.
Proof.
  intros ((Hc & Hl)%andb_prop & Ht)%andb_prop. repeat split.
  - by apply bool_decide_eq_true in Hc.
  - by apply Z.ltb_lt.
  - by apply bool_decide_eq_true in Ht.
  - unfold sample_lstat. intros st k. repeat case_bool_decide; intros; simplify_eq/=; lia.
Qed.

Lemma sample_lines_ok : Forall (line_ok sample_lstat) (chomp <$> sample_lines).
Proof. repeat (constructor; [apply sample_line_ok; vm_compute; done|]). constructor. Qed.

Lemma cpio_round_trip_witness :
  exists r, cpio_find 4 (do_create sample_lstat sample_lines)
      (zlen (do_create sample_lstat sample_lines)) (str "/bin/init") = Ret r
    /\ answers (do_create sample_lstat sample_lines) r
         (find_by_name (str "/bin/init") (entries sample_lstat sample_lines)).
Proof.
  apply cpio_round_trip.
  - apply sample_lines_ok.
  - apply (bool_decide_unpack _). vm_compute. done.
  - vm_compute. done.
  - simpl. lia.
Defined.
End RoundTrip.

(** ** [vcpio/vcpio.c]: [cpio -i] *)
Module Extract.

Definition is_space (c : Z) : bool := (c =? 32) || ((9 <=? c) && (c <=? 13)).

Fixpoint skip_space (s : list Z) : list Z :=
  match s with
  | c :: s' => if is_space c then skip_space s' else s
  | [] => []
  end.

Fixpoint hex_digits (s : list Z) (v : Z) : Z :=
  match s with
  | c :: s => if Reader.hexval c <? 0 then v else hex_digits s (v * 16 + Reader.hexval c)
  | [] => v
  end.

(** [strtoul(b, NULL, 16)] on a string of at most eight characters. *)
Definition strtoul16 (s : list Z) : Z :=
  let s := skip_space (cstr s) in
  let '(neg, s) :=
    match s with
    | c :: s' => if c =? 45 then (true, s') else if c =? 43 then (false, s') else (false, s)
    | [] => (false, s)
    end in
  let s :=
    match s with
    | z :: x :: d :: s' =>
        if (z =? 48) && ((x =? 120) || (x =? 88)) && (0 <=? Reader.hexval d) then d :: s' else s
    | _ => s
    end in
  let v := hex_digits s 0 in
  if neg : bool then u64 (- v) else v.

(** [rdhex]: eight bytes, or all ones when the stream ends first. *)
Definition rdhex (inp : list Z) : Z * list Z :=
  let b := take 8 inp in
  (if zlen b =? 8 then u32 (strtoul16 b) else 0xffffffff, drop 8 inp).

Fixpoint rdhexes (n : nat) (inp : list Z) : list Z * list Z :=
  match n with
  | O => ([], inp)
  | S n =>
      let (v, inp) := rdhex inp in
      let (vs, inp) := rdhexes n inp in (v :: vs, inp)
  end.

(** What the tool does to the file system, and what it prints. *)
Inductive effect :=
  | EList (path : list Z)
  | EMkdir (path : list Z) (mode : Z)
  | EWrite (path data : list Z)
  | EChmod (path : list Z) (mode : Z)
  | EUnlink (path : list Z)
  | ESymlink (target path : list Z).

Definition effect_path (e : effect) : list Z :=
  match e with
  | EList p | EMkdir p _ | EWrite p _ | EChmod p _ | EUnlink p | ESymlink _ p => p
  end.

Definition S_ISREG (mode : Z) : bool := Z.land mode 0xF000 =? 0x8000.
Definition S_ISDIR (mode : Z) : bool := Z.land mode 0xF000 =? 0x4000.
Definition S_ISLNK (mode : Z) : bool := Z.land mode 0xF000 =? 0xA000.

(** [while ( *nm == '/') nm++] *)
Fixpoint strip_slashes (s : list Z) : list Z :=
  match s with
  | c :: s' => if c =? 47 then strip_slashes s' else s
  | [] => []
  end.

(** [strchr(c, '/') + 1] *)
Fixpoint after_slash (c : list Z) : option (list Z) :=
  match c with
  | [] => None
  | x :: c => if x =? 47 then Some c else after_slash c
  end.

(** [c[0] == '.' && c[1] == '.' && (c[2] == '/' || c[2] == 0)] *)
Definition dotdot (c : list Z) : bool :=
  match c with
  | a :: b :: c => (a =? 46) && (b =? 46) && match c with [] => true | x :: _ => x =? 47 end
  | _ => false
  end.

Fixpoint traversal (fuel : nat) (c : list Z) : bool :=
  match fuel with
  | O => false
  | S fuel =>
      match c with
      | [] => false
      | _ =>
          if dotdot c then true
          else match after_slash c with None => false | Some c => traversal fuel c end
      end
  end.

(** The directories [mkdir]ed before a path: it is cut at each slash in turn. *)
Fixpoint slash_prefixes (acc name : list Z) : list (list Z) :=
  match name with
  | [] => []
  | c :: name =>
      (if c =? 47 then [acc] else []) ++ slash_prefixes (acc ++ [c]) name
  end.

Definition mkdirs (name : list Z) : list effect :=
  (fun p => EMkdir p 0x1ED) <$> slash_prefixes [] name.

Section extract.
(** [junk]: what the uninitialised [name] buffer holds; [fopen_ok]: whether
    the destination can be opened for writing. *)
Context (junk : list Z) (fopen_ok : list Z -> bool) (listonly : bool).

(** The name as the code sees it: [nsize] bytes read over the buffer, a NUL
    put on the last one, up to the first NUL. *)
Definition read_name (nsize : Z) (inp : list Z) : list Z :=
  let r := take (Z.to_nat nsize) inp in
  let buf := r ++ drop (length r) junk in
  cstr (splice buf (if nsize =? 0 then 0 else nsize - 1) [0]).

(** What one entry does, its name already made relative. *)
Definition entry_effects (name data : list Z) (mode filesize : Z) : list effect :=
  let opened := negb listonly && S_ISREG mode && fopen_ok name in
  let is_link := negb listonly && S_ISLNK mode && (0 <? filesize) && (filesize <? 4096) in
  (if listonly then [EList name] else []) ++
  (if negb listonly && S_ISREG mode then mkdirs name
   else if negb listonly && S_ISDIR mode then [EMkdir name (Z.land mode 0xFFF)]
   else []) ++
  (if opened then [EWrite name data] else []) ++
  (if is_link then mkdirs name ++ [EUnlink name; ESymlink (cstr data) name] else []) ++
  (if opened then [EChmod name (Z.land mode 0xFFF)] else []).

(** The effects so far and the exit status; [None] when the fuel runs out. *)
Fixpoint do_extract_loop (fuel : nat) (inp : list Z) (pos : Z)
  : option (list effect * Z) :=
  match fuel with
  | O => None
  | S fuel =>
      let magic := take 6 inp in
      if negb (zlen magic =? 6) then Some ([], 0) else
      let inp := drop 6 inp in
      let pos := pos + 6 in
      if negb (bool_decide (cstr magic = Reader.MAGIC)) then Some ([], -1) else
      let '(f, inp) := rdhexes 13 inp in
      let pos := pos + 13 * 8 in
      let mode := nth 1 f 0 in
      let filesize := nth 6 f 0 in
      let nsize := nth 11 f 0 in
      let nsize := if 4096 <? nsize then 4096 else nsize in
      let name := read_name nsize inp in
      let inp := drop (Z.to_nat nsize) inp in
      let pos := pos + nsize in
      let inp := drop (Z.to_nat ((- pos) mod 4)) inp in
      let pos := pos + (- pos) mod 4 in
      if bool_decide (name = Reader.TRAILER) then Some ([], 0) else
      let nm := strip_slashes name in
      if traversal (S (length nm)) nm || bool_decide (nm = []) then Some ([], -1) else
      let data := take (Z.to_nat filesize) inp in
      let inp := drop (Z.to_nat filesize) inp in
      let pos := pos + zlen data in
      let inp := drop (Z.to_nat ((- pos) mod 4)) inp in
      let pos := pos + (- pos) mod 4 in
      match do_extract_loop fuel inp pos with
      | None => None
      | Some (es, rc) => Some (entry_effects nm data mode filesize ++ es, rc)
      end
  end.

Definition do_extract (fuel : nat) (inp : list Z) := do_extract_loop fuel inp 0.
End extract.

(** ** Where extraction may write *)

(** The components of a path. *)
Fixpoint comps (l : list Z) : list (list Z) :=
  match l with
  | [] => [[]]
  | c :: l =>
      if c =? 47 then [] :: comps l
      else match comps l with
           | [] => [[c]]
           | w :: ws => (c :: w) :: ws
           end
  end.

(** A path that names something under the current directory. *)
Definition confined (p : list Z) : Prop :=
  p <> [] /\ head p <> Some 47 /\ str ".." ∉ comps p.

Lemma comps_nil l : comps l <> [].
Proof. destruct l as [|c l]; cbn [comps]; [done|]. case_match; [done|]. by destruct (comps l). Qed.

Lemma comps_app a b : comps (a ++ 47 :: b) = comps a ++ comps b.
Proof.
  induction a as [|c a IH]; cbn [app comps]; [done|].
  rewrite IH. case_match; [done|]. pose proof (comps_nil a). by destruct (comps a).
Qed.

Lemma after_slash_spec c :
  match after_slash c with
  | Some d => exists w, comps c = w :: comps d /\ (length d < length c)%nat
  | None => comps c = [c]
  end.
Proof.
  induction c as [|x c IH]; cbn [after_slash comps]; [done|].
  destruct (Z.eqb_spec x 47).
  - exists []. simpl. split; [done|lia].
  - destruct (after_slash c) as [d|].
    + destruct IH as (w & -> & Hl). exists (x :: w). simpl. split; [done|lia].
    + by rewrite IH.
Qed.

Lemma dotdot_spec c : dotdot c = bool_decide (head (comps c) = Some (str "..")).
Proof.
  change (str "..") with [46; 46].
  destruct c as [|a [|b c]]; cbn [dotdot comps].
  - by rewrite bool_decide_eq_false_2.
  - destruct (a =? 47); by rewrite bool_decide_eq_false_2.
  - destruct (Z.eqb_spec a 47) as [->|].
    { rewrite bool_decide_eq_false_2; done. }
    destruct (Z.eqb_spec b 47) as [->|].
    { rewrite bool_decide_eq_false_2; [by rewrite andb_false_r|]. simpl. congruence. }
    destruct c as [|x c]; cbn [comps].
    { simpl. rewrite andb_true_r. destruct (Z.eqb_spec a 46), (Z.eqb_spec b 46); subst; symmetry;
        (apply bool_decide_eq_true_2 + apply bool_decide_eq_false_2); simpl; congruence. }
    destruct (Z.eqb_spec x 47) as [->|].
    { simpl. rewrite andb_true_r. destruct (Z.eqb_spec a 46), (Z.eqb_spec b 46); subst; symmetry;
        (apply bool_decide_eq_true_2 + apply bool_decide_eq_false_2); simpl; congruence. }
    rewrite andb_false_r, bool_decide_eq_false_2; [done|].
    destruct (comps c); simpl; congruence.
Qed.

(** The check the code makes is the check on components. *)
Lemma traversal_spec fuel c :
  (length c < fuel)%nat -> traversal fuel c = bool_decide (str ".." ∈ comps c).
Proof.
  revert c. induction fuel as [|fuel IH]; intros c Hf; [lia|]. cbn [traversal].
  destruct c as [|x c'].
  { rewrite bool_decide_eq_false_2; [done|]. by intros Hin%list_elem_of_singleton. }
  set (c := x :: c') in *. rewrite dotdot_spec. pose proof (after_slash_spec c) as Ha.
  destruct (after_slash c) as [d|].
  - destruct Ha as (w & -> & Hl). rewrite IH by lia. cbn [head].
    destruct (decide (w = str "..")) as [->|].
    + rewrite bool_decide_eq_true_2 by done. symmetry. apply bool_decide_eq_true_2.
      apply list_elem_of_here.
    + rewrite (bool_decide_eq_false_2 (Some w = _)) by congruence.
      apply bool_decide_ext. rewrite elem_of_cons. naive_solver.
  - rewrite Ha. cbn [head]. case_bool_decide; symmetry.
    + apply bool_decide_eq_true_2, list_elem_of_singleton. congruence.
    + apply bool_decide_eq_false_2. intros Hin%list_elem_of_singleton. congruence.
Qed.

Lemma strip_slashes_head s : head (strip_slashes s) <> Some 47.
Proof. induction s as [|c s IH]; simpl; [done|]. destruct (Z.eqb_spec c 47); [done|]. simpl. congruence. Qed.

Lemma slash_prefixes_spec acc name p :
  p ∈ slash_prefixes acc name -> exists q r, name = q ++ 47 :: r /\ p = acc ++ q.
Proof.
  revert acc. induction name as [|c name IH]; intros acc; cbn [slash_prefixes];
    [by intros ?%not_elem_of_nil|].
  intros [Hp|(q & r & -> & ->)%IH]%elem_of_app.
  - destruct (Z.eqb_spec c 47) as [->|]; [|by apply not_elem_of_nil in Hp].
    apply list_elem_of_singleton in Hp as ->. exists [], name. by rewrite app_nil_r.
  - exists (c :: q), r. by rewrite <- app_assoc.
Qed.

Lemma mkdirs_confined name : confined name -> Forall (fun e => confined (effect_path e)) (mkdirs name).
Proof.
  intros (Hne & Hh & Hd). apply Forall_fmap, Forall_forall. intros p Hp. simpl.
  apply slash_prefixes_spec in Hp as (q & r & -> & ->). cbn [app]. rewrite comps_app in Hd.
  destruct q as [|x q]; [done|]. repeat split; [done|done|].
  intros Hin. apply Hd, elem_of_app. by left.
Qed.

Lemma entry_effects_confined fo lo name data mode fs :
  confined name -> Forall (fun e => confined (effect_path e)) (entry_effects fo lo name data mode fs).
Proof.
  intros Hc. pose proof (mkdirs_confined name Hc). unfold entry_effects.
  repeat (apply Forall_app_2; [|]); repeat case_match;
    repeat first [done | apply Forall_nil_2 | apply Forall_cons_2 | apply Forall_app_2].
Qed.

Lemma rdhexes_length n inp : (length (rdhexes n inp).2 <= length inp)%nat.
Proof.
  revert inp. induction n as [|n IH]; intros inp; cbn [rdhexes]; [done|].
  unfold rdhex. specialize (IH (drop 8 inp)). destruct (rdhexes n (drop 8 inp)) as [vs i].
  simpl in *. rewrite length_drop in IH. lia.
Qed.

(** C33: extraction terminates on any input, and everything it touches is under
    the current directory: every path it makes, writes, links or removes is
    relative and has no [..] component. *)
Theorem extract_confined junk fopen_ok listonly fuel inp :
  (length inp < fuel)%nat ->
  exists es rc, do_extract junk fopen_ok listonly fuel inp = Some (es, rc)
    /\ Forall (fun e => confined (effect_path e)) es
    /\ (listonly = true -> Forall (fun e => exists n, e = EList n) es).
Proof.
  unfold do_extract. generalize 0 as pos. revert inp.
  induction fuel as [|fuel IH]; intros inp pos Hf; [lia|]. cbn [do_extract_loop].
  destruct (Z.eqb_spec (zlen (take 6 inp)) 6) as [H6|]; cbn [negb]; [|by exists [], 0].
  case_bool_decide; cbn [negb]; [|by exists [], (-1)].
  pose proof (rdhexes_length 13 (drop 6 inp)) as Hr.
  destruct (rdhexes 13 (drop 6 inp)) as [f inp1]. simpl in Hr. rewrite length_drop in Hr.
  case_bool_decide; [by exists [], 0|].
  set (nm := strip_slashes _). destruct (traversal _ nm) eqn:Et; cbn [orb]; [by exists [], (-1)|].
  case_bool_decide; [by exists [], (-1)|].
  assert (confined nm) as Hc.
  { split; [done|]. split; [apply strip_slashes_head|].
    rewrite traversal_spec in Et by lia. by apply bool_decide_eq_false in Et. }
  match goal with |- context [do_extract_loop _ _ _ fuel ?i ?p] =>
    destruct (IH i p) as (es & rc & -> & He & Hl) end.
  { unfold zlen in H6. rewrite length_take in H6. rewrite !length_drop. lia. }
  eexists _, rc. split; [done|]. split.
  - apply Forall_app; split; [by apply entry_effects_confined|done].
  - intros Hlo. specialize (Hl Hlo). subst listonly. apply Forall_app; split; [|done].
    cbn. constructor; [by eexists|constructor].
Qed.

Lemma extract_confined_witness :
  exists es rc, do_extract [] (fun _ => true) false 500 (Writer.do_create RoundTrip.sample_lstat RoundTrip.sample_lines)
    = Some (es, rc)
    /\ Forall (fun e => confined (effect_path e)) es
    /\ (false = true -> Forall (fun e => exists n, e = EList n) es).
Proof. apply extract_confined. apply Nat.ltb_lt. vm_compute. reflexivity. Defined.

(** The archive [ln -s /etc a; cpio -o] followed by an entry [a/passwd]. *)
Definition link_then_file : list Z :=
  RoundTrip.archive
    [RoundTrip.Entry (str "a") (Writer.Stat 1 0xA1FF 0 0 1 0 4) (str "/etc");
     RoundTrip.Entry (str "a/passwd") (Writer.Stat 2 0x81A4 0 0 1 0 4) (str "root")].

(** Confinement is of names and not of files.  A link the archive itself
    carries is made without looking where it points, and the next entry is
    written through it: unpacking this archive leaves the current directory
    with a link to [/etc] and then opens [a/passwd] for writing. *)
Theorem extract_through_link :
  do_extract [] (fun _ => true) false 500 link_then_file
  = Some ([EUnlink (str "a"); ESymlink (str "/etc") (str "a");
           EMkdir (str "a") 0x1ED; EWrite (str "a/passwd") (str "root");
           EChmod (str "a/passwd") 0x1A4], 0).
Proof. vm_compute. reflexivity. Qed.
End Extract.
