(* ===== verification/Disk.v ===== *)
(** * The block device: the interface between the disk's readers and writers

    [stam/virtio.h] promises its clients three calls: [virtio_blk_present],
    [virtio_blk_read] and [virtio_blk_write], on sectors of 512 bytes.  The
    class below is that promise with the laws the clients rely on; the GPT
    reader, the FAT reader and the partitioner are proved against it.  A disk
    held in a map implements it, so that every client runs. *)
From S2P Require Import Prelude.

Definition SECTOR : Z := 512.

Definition sector_ok (b : list Z) : Prop := zlen b = SECTOR /\ bytes_ok b.

#[global] Instance sector_ok_dec b : Decision (sector_ok b).
Proof.
  apply and_dec; [apply _|]. apply Forall_dec. intros x. unfold is_byte. apply _.
Defined.

Class BlockDev (D : Type) := {
  blk_present : D -> bool;
  (** [None]: the call returned [-1]. *)
  blk_read : D -> Z -> option (list Z);
  blk_write : D -> Z -> list Z -> option D
}.

Class BlockDevLaws (D : Type) `{BlockDev D} := {
  (** What a read delivers is a sector. *)
  blk_read_sector d s b : blk_read d s = Some b -> sector_ok b;
  (** A sector written is the sector read. *)
  blk_read_write d s b d' :
    sector_ok b -> blk_write d s b = Some d' -> blk_read d' s = Some b;
  (** And no other sector changes. *)
  blk_read_write_ne d s b d' s' :
    blk_write d s b = Some d' -> s' <> s -> blk_read d' s' = blk_read d s';
  blk_present_write d s b d' :
    blk_write d s b = Some d' -> blk_present d' = blk_present d
}.

(** ** Buffers of several sectors *)
Section chunks.
Context {D : Type} `{BlockDevLaws D}.

Definition chunk (buf : list Z) (j : nat) : list Z := slice buf (SECTOR * Z.of_nat j) SECTOR.

(** Writing [n] sectors of [buf] from sector [lba] on. *)
Fixpoint write_chunks (d : D) (lba : Z) (buf : list Z) (j n : nat) : option D :=
  match n with
  | O => Some d
  | S n =>
      match blk_write d (lba + Z.of_nat j) (chunk buf j) with
      | None => None
      | Some d => write_chunks d lba buf (S j) n
      end
  end.

Lemma chunk_ok buf j :
  bytes_ok buf -> SECTOR * (Z.of_nat j + 1) <= zlen buf -> sector_ok (chunk buf j).
Proof.
  unfold chunk, sector_ok, SECTOR. intros Hb Hl.
  split; [apply zlen_slice; lia|by apply slice_bytes].
Qed.

Lemma write_chunks_read d lba buf j n d' s :
  bytes_ok buf -> write_chunks d lba buf j n = Some d' ->
  SECTOR * Z.of_nat (j + n) <= zlen buf ->
  blk_read d' s =
    if (lba + Z.of_nat j <=? s) && (s <? lba + Z.of_nat (j + n))
    then Some (chunk buf (Z.to_nat (s - lba))) else blk_read d s.
Proof.
  intros Hb. revert d j. induction n as [|n IH]; intros d j Hw Hl; cbn [write_chunks] in Hw.
  { simplify_eq. zbool. }
  destruct (blk_write d (lba + Z.of_nat j) (chunk buf j)) as [d1|] eqn:Ew; [|done].
  unfold SECTOR in *.
  rewrite (IH _ (S j)) by (done || lia).
  destruct (decide (s = lba + Z.of_nat j)) as [->|Hne].
  - rewrite (proj2 (Z.leb_gt _ _)) by lia. cbn [andb].
    rewrite (proj2 (Z.leb_le _ _)), (proj2 (Z.ltb_lt _ _)) by lia. cbn [andb].
    replace (Z.to_nat (lba + Z.of_nat j - lba)) with j by lia.
    eapply blk_read_write; [|done]. apply chunk_ok; [done|unfold SECTOR; lia].
  - rewrite (blk_read_write_ne _ _ _ _ _ Ew Hne).
    replace (j + S n)%nat with (S j + n)%nat by lia.
    destruct (Z.leb_spec (lba + Z.of_nat (S j)) s), (Z.leb_spec (lba + Z.of_nat j) s); try lia; done.
Qed.

Lemma write_chunks_present d lba buf j n d' :
  write_chunks d lba buf j n = Some d' -> blk_present d' = blk_present d.
Proof.
  revert d j. induction n as [|n IH]; intros d j Hw; cbn [write_chunks] in Hw; [by simplify_eq|].
  destruct (blk_write _ _ _) as [d1|] eqn:Ew; [|done].
  rewrite (IH _ _ Hw). by eapply blk_present_write.
Qed.
End chunks.

(** ** A disk held in a map *)
Record ramdisk := RamDisk { rd_sectors : Z; rd_map : gmap Z (list Z) }.

Definition zero_sector : list Z := zeros SECTOR.

Definition ram_read (d : ramdisk) (s : Z) : option (list Z) :=
  if (0 <=? s) && (s <? rd_sectors d) then
    match rd_map d !! s with
    | Some b => if decide (sector_ok b) then Some b else None
    | None => Some zero_sector
    end
  else None.

Definition ram_write (d : ramdisk) (s : Z) (b : list Z) : option ramdisk :=
  if (0 <=? s) && (s <? rd_sectors d) then
    Some (RamDisk (rd_sectors d) (<[s := b]> (rd_map d)))
  else None.

#[global] Instance ramdisk_dev : BlockDev ramdisk := {|
  blk_present _ := true; blk_read := ram_read; blk_write := ram_write
|}.

Lemma zero_sector_ok : sector_ok zero_sector.
Proof. split; [done|apply zeros_bytes]. Qed.

#[global] Instance ramdisk_laws : BlockDevLaws ramdisk.
Proof.
  split; cbn; unfold ram_read, ram_write; intros.
  - repeat case_match; simplify_eq; [done|apply zero_sector_ok].
  - case_match; simplify_eq. cbn. rewrite H1, lookup_insert_eq.
    by rewrite decide_True.
  - case_match; simplify_eq. cbn. by rewrite lookup_insert_ne.
  - done.
Qed.

Definition blank (n : Z) : ramdisk := RamDisk n ∅.
