(* ===== verification/Gpt.v ===== *)
(** * The partition table: vpart writes it, the kernel reads it

    [Find] models [stam/gpt.c]; [Crc] and [Part] model [vpart/vpart.c].  The
    theorems: vpart's checksum is CRC-32, the two headers it writes check
    out and mirror each other, a table it accepts has disjoint partitions
    inside the usable area, and the kernel finds the EFI system partition of
    every disk vpart partitioned. *)
From S2P Require Import Prelude Bytes Disk.

Module Find.
Section find.
Context {D : Type} `{BlockDev D}.

(** ** [stam/gpt.c] *)

(** GUID C12A7328-F81F-11D2-BA4B-00A0C93EC93B, as it is written on the disk. *)
Definition esp_type : list Z :=
  [0x28; 0x73; 0x2a; 0xc1; 0x1f; 0xf8; 0xd2; 0x11;
   0xba; 0x4b; 0x00; 0xa0; 0xc9; 0x3e; 0xc9; 0x3b].

Definition sig : list Z := str "EFI PART".

(** The [for] loop of [gpt_find_esp] over the entries [i .. n_entries). *)
Fixpoint find_loop (d : D) (entries_lba entry_size : Z) (i : Z) (n : nat) : option (Z * Z) :=
  match n with
  | O => None
  | S n =>
      let lba := u64 (entries_lba + u64 (i * entry_size) / 512) in
      let off := u64 (i * entry_size) mod 512 in
      match blk_read d lba with
      | None => None
      | Some sec =>
          if negb (bool_decide (slice sec off 16 = esp_type)) then
            find_loop d entries_lba entry_size (i + 1) n
          else
            let start := rd64 sec (off + 32) in
            let end_ := rd64 sec (off + 40) in
            if end_ <? start then find_loop d entries_lba entry_size (i + 1) n
            else Some (start, u64 (end_ - start + 1))
      end
  end.

(** [None] is the code's [-1]; [Some] is what it stores in [*first_lba] and
    [*sectors]. *)
Definition gpt_find_esp (d : D) : option (Z * Z) :=
  if negb (blk_present d) then None else
  match blk_read d 1 with
  | None => None
  | Some sec =>
      if negb (bool_decide (slice sec 0 8 = sig)) then None else
      let entries_lba := rd64 sec 72 in
      let n_entries := rd32 sec 80 in
      let entry_size := rd32 sec 84 in
      if negb (entry_size =? 128) || (n_entries =? 0) || (256 <? n_entries) then None
      else find_loop d entries_lba entry_size 0 (Z.to_nat n_entries)
  end.
End find.
End Find.

(** ** CRC-32 as [vpart.c] computes it *)
Module Crc.

(** [c = (c & 1) ? 0xEDB88320u ^ (c >> 1) : c >> 1] *)
Definition step (c : Z) : Z :=
  if Z.testbit c 0 then Z.lxor 0xEDB88320 (Z.shiftr c 1) else Z.shiftr c 1.

Definition steps (n : nat) (c : Z) : Z := Nat.iter n step c.

(** The table the first call builds. *)
Definition tab : list Z := (fun i => steps 8 (Z.of_nat i)) <$> seq 0 256.

Definition crc_byte (crc b : Z) : Z :=
  Z.lxor (at_ tab (Z.land (Z.lxor crc b) 0xff)) (Z.shiftr crc 8).

Definition crc32 (p : list Z) : Z :=
  Z.lxor (fold_left crc_byte p 0xFFFFFFFF) 0xFFFFFFFF.

(** *** The reference: one bit at a time *)
Definition crc_byte_ref (crc b : Z) : Z := steps 8 (Z.lxor crc b).
Definition crc32_ref (p : list Z) : Z :=
  Z.lxor (fold_left crc_byte_ref p 0xFFFFFFFF) 0xFFFFFFFF.

Lemma step_lxor x y : step (Z.lxor x y) = Z.lxor (step x) (step y).
Proof.
  unfold step. rewrite Z.lxor_spec, Z.shiftr_lxor.
  set (k := 0xEDB88320). set (a := Z.shiftr x 1). set (b := Z.shiftr y 1).
  assert (Z.lxor k k = 0) as Hk by apply Z.lxor_nilpotent.
  destruct (Z.testbit x 0), (Z.testbit y 0); cbn [xorb].
  - rewrite <- (Z.lxor_assoc (Z.lxor k a)), (Z.lxor_comm k a), (Z.lxor_assoc a k k), Hk,
      Z.lxor_0_r. done.
  - by rewrite Z.lxor_assoc.
  - by rewrite <- (Z.lxor_assoc a k b), (Z.lxor_comm a k), Z.lxor_assoc.
  - done.
Qed.

Lemma steps_lxor n x y : steps n (Z.lxor x y) = Z.lxor (steps n x) (steps n y).
Proof.
  unfold steps. induction n as [|n IH]; [done|]. rewrite !Nat.iter_succ, IH. apply step_lxor.
Qed.

(** Steps on a value whose low bits are clear only shift. *)
Lemma steps_shiftl n k h :
  (n <= k)%nat -> steps n (Z.shiftl h (Z.of_nat k)) = Z.shiftl h (Z.of_nat (k - n)).
Proof.
  unfold steps. induction n as [|n IH]; intros Hn; [by rewrite Nat.sub_0_r|].
  rewrite Nat.iter_succ, IH by lia. unfold step.
  rewrite Z.shiftl_spec_low by lia. rewrite Z.shiftr_shiftl_l by lia.
  f_equal. lia.
Qed.

Lemma split_byte c : Z.lxor (Z.land c 0xff) (Z.shiftl (Z.shiftr c 8) 8) = c.
Proof.
  apply Z.bits_inj'. intros i Hi. change 0xff with (Z.ones 8).
  rewrite Z.lxor_spec, Z.land_spec.
  destruct (decide (i < 8)).
  - rewrite Z.ones_spec_low, Z.shiftl_spec_low by lia. by rewrite andb_true_r, xorb_false_r.
  - rewrite Z.ones_spec_high, Z.shiftl_spec_high, Z.shiftr_spec by lia.
    rewrite andb_false_r, xorb_false_l. f_equal. lia.
Qed.

Lemma steps_byte c : steps 8 c = Z.lxor (steps 8 (Z.land c 0xff)) (Z.shiftr c 8).
Proof.
  rewrite <- (split_byte c) at 1. rewrite steps_lxor. f_equal.
  change 8 with (Z.of_nat 8) at 2. rewrite steps_shiftl by lia. by rewrite Z.shiftl_0_r.
Qed.

Lemma at_tab c : at_ tab (Z.land c 0xff) = steps 8 (Z.land c 0xff).
Proof.
  assert (0 <= Z.land c 0xff < 256) as Hr.
  { change 0xff with (Z.ones 8). rewrite Z.land_ones by lia. apply Z.mod_pos_bound. lia. }
  unfold at_, tab. rewrite nth_lookup, list_lookup_fmap, lookup_seq_lt by lia.
  change (steps 8 (Z.of_nat (0 + Z.to_nat (Z.land c 0xff))) = steps 8 (Z.land c 0xff)).
  f_equal. lia.
Qed.

Lemma steps_range n c : 0 <= c < 2 ^ 32 -> 0 <= steps n c < 2 ^ 32.
Proof.
  intros Hc. unfold steps. induction n as [|n IH]; [done|]. rewrite Nat.iter_succ.
  revert IH. generalize (Nat.iter n step c). intros z Hz. unfold step.
  assert (0 <= Z.shiftr z 1 < 2 ^ 32) by (rewrite Z.shiftr_div_pow2 by lia; zdm).
  case_match; [apply (lxor_range 32); lia|done].
Qed.

Lemma crc32_range p : 0 <= crc32 p < 2 ^ 32.
Proof.
  unfold crc32. apply (lxor_range 32); [lia| |lia].
  assert (0 <= 0xFFFFFFFF < 2 ^ 32) as Hi by lia. revert Hi. generalize 0xFFFFFFFF.
  induction p as [|b p IH]; intros c Hc; cbn [fold_left]; [done|]. apply IH.
  unfold crc_byte. apply (lxor_range 32); [lia| |].
  - rewrite at_tab. apply steps_range. apply (land_range 32); lia.
  - rewrite Z.shiftr_div_pow2 by lia. zdm.
Qed.

Lemma crc_byte_eq crc b : is_byte b -> crc_byte crc b = crc_byte_ref crc b.
Proof.
  intros Hb. unfold crc_byte, crc_byte_ref. rewrite (steps_byte (Z.lxor crc b)), at_tab.
  f_equal. rewrite Z.shiftr_lxor.
  assert (Z.shiftr b 8 = 0) as ->; [|by rewrite Z.lxor_0_r].
  rewrite Z.shiftr_div_pow2 by lia. unfold is_byte in Hb. zdm.
Qed.

(** C34: the table-driven checksum is the bit-by-bit CRC-32 on every input. *)
Theorem crc32_table p : bytes_ok p -> crc32 p = crc32_ref p.
Proof.
  intros Hp. unfold crc32, crc32_ref. f_equal. generalize 0xFFFFFFFF.
  induction Hp as [|b p Hb Hp IH]; intros crc; cbn [fold_left]; [done|].
  by rewrite crc_byte_eq, IH.
Qed.

Lemma crc32_table_witness :
  crc32 (str "123456789") = 0xCBF43926 /\ crc32 (str "123456789") = crc32_ref (str "123456789").
Proof.
  split; [vm_compute; reflexivity|]. apply crc32_table.
  apply (bool_decide_unpack _). vm_compute. exact I.
Defined.
End Crc.

(** ** [vpart/vpart.c] *)
Module Part.
Import Crc.

Definition ENTRIES : Z := 128.
Definition ENTRY_SIZE : Z := 128.
Definition ARRAY_SECS : Z := (ENTRIES * ENTRY_SIZE) / 512.

Definition ESP_REST : list Z := [0xBA;0x4B;0x00;0xA0;0xC9;0x3E;0xC9;0x3B].
Definition LINUX_REST : list Z := [0x8E;0x79;0x3D;0x69;0xD8;0x47;0x7D;0xE4].
Definition HOME_REST : list Z := [0xB8;0x44;0x0E;0x14;0xE2;0xAE;0xF9;0x15].
Definition SWAP_REST : list Z := [0x84;0xE5;0x09;0x33;0xC8;0x4B;0x4F;0x4F].

(** Mixed-endian: the first three fields little-endian, the rest as written. *)
Definition guid (d1 d2 d3 : Z) (rest : list Z) : list Z :=
  b_wr32 d1 ++ b_wr16 d2 ++ b_wr16 d3 ++ rest.

(** Sixteen random bytes made a version 4 GUID. *)
Definition guid_random (r : list Z) : list Z :=
  let out := splice r 7 [Z.lor (Z.land (at_ r 7) 0x0F) 0x40] in
  splice out 8 [Z.lor (Z.land (at_ out 8) 0x3F) 0x80].

Record part := Partn { p_type : list Z; p_first : Z; p_last : Z; p_name : list Z }.

(** One entry of the array, in the [calloc]ed memory. *)
Definition entry_bytes (p : part) (g : list Z) : list Z :=
  let e := splice (zeros 128) 0 (p_type p) in
  let e := splice e 16 g in
  let e := put64 e 32 (p_first p) in
  let e := put64 e 40 (p_last p) in
  let e := put64 e 48 0 in
  splice e 56 (flat_map (fun c => [u8 c; 0]) (take 35 (p_name p))).

Fixpoint entries_bytes (ps : list part) (rnd : nat -> list Z) (i : nat) : list Z :=
  match ps with
  | [] => []
  | p :: ps => entry_bytes p (guid_random (rnd i)) ++ entries_bytes ps rnd (S i)
  end.

Definition array_bytes (ps : list part) (rnd : nat -> list Z) : list Z :=
  let es := entries_bytes ps rnd 0 in es ++ zeros (ENTRIES * ENTRY_SIZE - zlen es).

Definition header_bytes (backup : bool) (last_lba first_usable last_usable : Z)
    (disk_guid : list Z) (array_crc : Z) : list Z :=
  let h := splice (zeros 512) 0 (str "EFI PART") in
  let h := wr32 h 8 0x00010000 in
  let h := wr32 h 12 92 in
  let h := wr32 h 16 0 in
  let h := wr32 h 20 0 in
  let h := put64 h 24 (if backup then last_lba else 1) in
  let h := put64 h 32 (if backup then 1 else last_lba) in
  let h := put64 h 40 first_usable in
  let h := put64 h 48 last_usable in
  let h := splice h 56 disk_guid in
  let h := put64 h 72 (if backup then last_usable + 1 else 2) in
  let h := wr32 h 80 ENTRIES in
  let h := wr32 h 84 ENTRY_SIZE in
  let h := wr32 h 88 array_crc in
  wr32 h 16 (crc32 (slice h 0 92)).

Definition mbr_bytes (disk_sectors : Z) : list Z :=
  let m := splice (zeros 512) 446 [0x00; 0x00; 0x02; 0x00; 0xEE; 0xFF; 0xFF; 0xFF] in
  let m := wr32 m 454 1 in
  let m := wr32 m 458 (if 0xFFFFFFFF <? u64 (disk_sectors - 1) then 0xFFFFFFFF
                       else u64 (disk_sectors - 1)) in
  splice m 510 [0x55; 0xAA].

(** The checks at the head of [write_gpt]; [false] is a [die]. *)
Fixpoint parts_ok (first_usable last_usable : Z) (prev : option part) (ps : list part) : bool :=
  match ps with
  | [] => true
  | p :: ps =>
      if (p_first p <? first_usable) || (last_usable <? p_last p) then false
      else if p_last p <? p_first p then false
      else if match prev with Some q => p_first p <=? p_last q | None => false end then false
      else parts_ok first_usable last_usable (Some p) ps
  end.

Section write.
Context {D : Type} `{BlockDev D}.
(** [rnd n]: what the [n]-th read of /dev/urandom delivers. *)
Context (rnd : nat -> list Z).

(** [write_at]: [None] is a [die]. *)
Definition write_at (d : D) (lba : Z) (buf : list Z) : option D :=
  write_chunks d lba buf 0 (Z.to_nat (zlen buf / 512)).

Definition write_gpt (d : D) (disk_sectors : Z) (ps : list part) : option D :=
  let last_lba := u64 (disk_sectors - 1) in
  let first_usable := 2 + ARRAY_SECS in
  let last_usable := u64 (last_lba - ARRAY_SECS - 1) in
  if negb (parts_ok first_usable last_usable None ps) then None else
  let array := array_bytes ps rnd in
  let array_crc := crc32 array in
  let disk_guid := guid_random (rnd (length ps)) in
  match write_at d 2 array with None => None | Some d =>
  match write_at d 1 (header_bytes false last_lba first_usable last_usable disk_guid array_crc)
  with None => None | Some d =>
  match write_at d (last_usable + 1) array with None => None | Some d =>
  match write_at d last_lba (header_bytes true last_lba first_usable last_usable disk_guid array_crc)
  with None => None | Some d =>
  write_at d 0 (mbr_bytes disk_sectors)
  end end end end.

(** The command line, its sizes in MiB. *)
Record opts := Opts {
  esp_mb : Z; esp_only : bool; want_root : bool; root_mb : Z; home_mb : Z; swap_mb : Z
}.

(** The partitions [main] lays out; [None] is a [die] or the usage message. *)
Definition plan (sectors : Z) (o : opts) : option (list part) :=
  if (esp_mb o =? 0) && negb (esp_only o) then None else
  if (negb (home_mb o =? 0) || negb (swap_mb o =? 0)) && negb (want_root o) then None else
  if sectors <? 2048 then None else
  let last_usable := u64 (sectors - ARRAY_SECS - 2) in
  let next := 2048 in
  let esp := Partn (guid 0xC12A7328 0xF81F 0x11D2 ESP_REST) next
    (if esp_only o then last_usable else u64 (next + u64 (esp_mb o * 2048) - 1))
    (str "EFI System") in
  let next := u64 (p_last esp + 1) in
  let root :=
    if want_root o then
      let tail := u64 (u64 (home_mb o + swap_mb o) * 2048) in
      let end_ := if root_mb o =? 0 then u64 (last_usable - tail)
                  else u64 (next + u64 (root_mb o * 2048) - 1) in
      if end_ <=? next then None
      else Some ([Partn (guid 0x0FC63DAF 0x8483 0x4772 LINUX_REST) next end_ (str "VerkOS")],
                 u64 (end_ + 1))
    else Some ([], next) in
  match root with
  | None => None
  | Some (root, next) =>
      let home := if home_mb o =? 0 then [] else
        [Partn (guid 0x933AC7E1 0x2EB4 0x4F13 HOME_REST) next
           (u64 (next + u64 (home_mb o * 2048) - 1)) (str "home")] in
      let next := if home_mb o =? 0 then next else u64 (u64 (next + u64 (home_mb o * 2048) - 1) + 1) in
      let swap := if swap_mb o =? 0 then [] else
        [Partn (guid 0x0657FD6D 0xA4AB 0x43C4 SWAP_REST) next
           (u64 (next + u64 (swap_mb o * 2048) - 1)) (str "swap")] in
      Some (esp :: root ++ home ++ swap)
  end.

Definition vpart (d : D) (sectors : Z) (o : opts) : option D :=
  match plan sectors o with
  | None => None
  | Some ps => write_gpt d sectors ps
  end.
End write.
End Part.

(** ** What is on the disk after [write_gpt] *)
Module Table.
Import Find Crc Part.

Definition part_wf (p : part) : Prop :=
  zlen (p_type p) = 16 /\ bytes_ok (p_type p) /\
  0 <= p_first p < 2 ^ 64 /\ 0 <= p_last p < 2 ^ 64.

Definition rnd_wf (rnd : nat -> list Z) : Prop := forall i, zlen (rnd i) = 16 /\ bytes_ok (rnd i).

Lemma guid_random_wf r :
  zlen r = 16 -> bytes_ok r -> zlen (guid_random r) = 16 /\ bytes_ok (guid_random r).
Proof.
  intros Hl Hb. unfold guid_random. split; [slen|].
  repeat apply splice_bytes; try done; repeat constructor;
    apply (lor_range 8); try lia; apply (land_range 8); lia.
Qed.

(** *** The entry array *)
Definition name_bytes (n : list Z) : list Z := flat_map (fun c => [u8 c; 0]) (take 35 n).

Lemma utf16_wf l :
  zlen (flat_map (fun c => [u8 c; 0]) l) = 2 * zlen l
  /\ bytes_ok (flat_map (fun c => [u8 c; 0]) l).
Proof.
  induction l as [|c l [IHl IHb]]; [done|]. cbn [flat_map]. split.
  - autorewrite with zlen. lia.
  - constructor; [apply u8_byte|]. by constructor.
Qed.

Lemma name_bytes_wf n : zlen (name_bytes n) <= 70 /\ bytes_ok (name_bytes n).
Proof.
  unfold name_bytes. destruct (utf16_wf (take 35 n)) as [-> ?]. split; [|done].
  unfold zlen. rewrite length_take. lia.
Qed.

Section entry.
Context (p : part) (g : list Z) (Hp : part_wf p) (Hg : zlen g = 16) (Hgb : bytes_ok g).

Lemma entry_bytes_wf : zlen (entry_bytes p g) = 128 /\ bytes_ok (entry_bytes p g).
Proof.
  destruct Hp as (Ht & Htb & Hf & Hl). destruct (name_bytes_wf (p_name p)) as [Hn Hnb].
  unfold entry_bytes, put64. fold (name_bytes (p_name p)). split; [slen|].
  repeat apply splice_bytes; auto with bytes.
Qed.

Lemma entry_bytes_type : slice (entry_bytes p g) 0 16 = p_type p.
Proof.
  destruct Hp as (Ht & Htb & Hf & Hl). destruct (name_bytes_wf (p_name p)) as [Hn Hnb].
  unfold entry_bytes, put64. fold (name_bytes (p_name p)).
  erewrite (slice_splice_ne _ 56); [|slen|lia..].
  erewrite (slice_splice_ne _ 48); [|slen|rewrite ?zlen_b_put64; lia..].
  erewrite (slice_splice_ne _ 40); [|slen|rewrite ?zlen_b_put64; lia..].
  erewrite (slice_splice_ne _ 32); [|slen|rewrite ?zlen_b_put64; lia..].
  erewrite (slice_splice_ne _ 16); [|slen|lia..].
  rewrite <- Ht. eapply slice_splice_eq; [slen|lia..].
Qed.

Lemma entry_bytes_range :
  rd64 (entry_bytes p g) 32 = p_first p /\ rd64 (entry_bytes p g) 40 = p_last p.
Proof.
  destruct Hp as (Ht & Htb & Hf & Hl). destruct (name_bytes_wf (p_name p)) as [Hn Hnb].
  unfold entry_bytes, put64. fold (name_bytes (p_name p)). split; by fields.
Qed.
End entry.

Section array.
Context (rnd : nat -> list Z) (Hrnd : rnd_wf rnd).

Lemma guid_of_wf i : zlen (guid_random (rnd i)) = 16 /\ bytes_ok (guid_random (rnd i)).
Proof. destruct (Hrnd i). by apply guid_random_wf. Qed.

Lemma entries_bytes_wf ps k :
  Forall part_wf ps ->
  zlen (entries_bytes ps rnd k) = 128 * zlen ps /\ bytes_ok (entries_bytes ps rnd k).
Proof.
  intros Hps. revert k. induction Hps as [|p ps Hp Hps IH]; intros k; [done|].
  cbn [entries_bytes]. destruct (IH (S k)) as [IHl IHb]. destruct (guid_of_wf k) as [Hg Hgb].
  destruct (entry_bytes_wf p _ Hp Hg Hgb) as [El Eb].
  rewrite zlen_app, zlen_cons, El, IHl. split; [lia|]. by apply Forall_app.
Qed.

(** Byte [j] of entry [i]. *)
Lemma at_entries ps k i p j :
  Forall part_wf ps -> ps !! i = Some p -> 0 <= j < 128 ->
  at_ (entries_bytes ps rnd k) (128 * Z.of_nat i + j)
  = at_ (entry_bytes p (guid_random (rnd (k + i)))) j.
Proof.
  intros Hps. revert k i. induction Hps as [|q ps Hq Hps IH]; intros k i Hi Hj; [done|].
  cbn [entries_bytes]. destruct (guid_of_wf k) as [Hg Hgb].
  destruct (entry_bytes_wf q _ Hq Hg Hgb) as [El Eb].
  destruct i as [|i]; simpl in Hi; simplify_eq.
  - rewrite Nat.add_0_r, at_app_l by lia. f_equal.
  - rewrite at_app_r by lia. rewrite El. replace (k + S i)%nat with (S k + i)%nat by lia.
    rewrite <- IH by done. f_equal. lia.
Qed.

Context (ps : list part) (Hps : Forall part_wf ps) (Hn : zlen ps <= 128).

Lemma array_bytes_wf : zlen (array_bytes ps rnd) = 16384 /\ bytes_ok (array_bytes ps rnd).
Proof.
  unfold array_bytes, ENTRIES, ENTRY_SIZE.
  destruct (entries_bytes_wf ps 0 Hps) as [El Eb]. split.
  - rewrite zlen_app, zlen_zeros by lia. lia.
  - apply Forall_app; split; [done|apply zeros_bytes].
Qed.

Lemma at_array i p j :
  ps !! i = Some p -> 0 <= j < 128 ->
  at_ (array_bytes ps rnd) (128 * Z.of_nat i + j) = at_ (entry_bytes p (guid_random (rnd i))) j.
Proof.
  intros Hi Hj. unfold array_bytes. destruct (entries_bytes_wf ps 0 Hps) as [El Eb].
  pose proof (lookup_lt_Some _ _ _ Hi). rewrite at_app_l by (unfold zlen in *; lia).
  by apply at_entries.
Qed.

Lemma at_array_rest i j :
  (length ps <= i)%nat -> 0 <= j -> at_ (array_bytes ps rnd) (128 * Z.of_nat i + j) = 0.
Proof.
  intros Hi Hj. unfold array_bytes. destruct (entries_bytes_wf ps 0 Hps) as [El Eb].
  rewrite at_app_r by (unfold zlen in *; lia). apply at_zeros.
Qed.

(** Entry [i] as the kernel addresses it: sector [i * 128 / 512] of the
    array, offset [i * 128 % 512]. *)
Lemma at_entry_sector i j :
  0 <= i < 128 -> 0 <= j < 128 ->
  at_ (chunk (array_bytes ps rnd) (Z.to_nat (i * 128 / 512))) (i * 128 mod 512 + j)
  = at_ (array_bytes ps rnd) (128 * i + j).
Proof.
  intros Hi Hj. unfold chunk, SECTOR. pose proof (Z.mod_pos_bound (i * 128) 512).
  assert (i * 128 mod 512 <= 384) by zdm.
  rewrite at_slice by lia. f_equal. rewrite Z2Nat.id by (apply Z.div_pos; lia). zdm.
Qed.

Lemma entry_sector_type i :
  0 <= i < 128 ->
  slice (chunk (array_bytes ps rnd) (Z.to_nat (i * 128 / 512))) (i * 128 mod 512) 16
  = match ps !! Z.to_nat i with Some p => p_type p | None => zeros 16 end.
Proof.
  intros Hi. pose proof (Z.mod_pos_bound (i * 128) 512). assert (i * 128 mod 512 <= 384) by zdm.
  assert (zlen (chunk (array_bytes ps rnd) (Z.to_nat (i * 128 / 512))) = 512) as Hc.
  { destruct array_bytes_wf. apply zlen_slice; unfold SECTOR; try lia.
    rewrite Z2Nat.id by (apply Z.div_pos; lia). zdm. }
  assert (forall p, ps !! Z.to_nat i = Some p -> part_wf p) as Hwf.
  { intros p Hp. eapply Forall_lookup_1; done. }
  apply buf_ext.
  { rewrite zlen_slice by lia. case_match eqn:E; [|done]. by destruct (Hwf _ eq_refl). }
  rewrite zlen_slice by lia. intros j Hj. rewrite at_slice, at_entry_sector by lia.
  rewrite <- (Z2Nat.id i) at 1 by lia.
  destruct (ps !! Z.to_nat i) as [p|] eqn:E.
  - rewrite (at_array _ _ _ E) by lia. destruct (guid_of_wf (Z.to_nat i)) as [Hg Hgb].
    rewrite <- (entry_bytes_type p _ (Hwf _ eq_refl) Hg), at_slice by lia. done.
  - apply lookup_ge_None in E. rewrite at_array_rest by lia. symmetry. apply at_zeros.
Qed.

Lemma entry_sector_range i p :
  0 <= i < 128 -> ps !! Z.to_nat i = Some p ->
  let sec := chunk (array_bytes ps rnd) (Z.to_nat (i * 128 / 512)) in
  let off := i * 128 mod 512 in
  rd64 sec (off + 32) = p_first p /\ rd64 sec (off + 40) = p_last p.
Proof.
  intros Hi Hp. cbn zeta. assert (part_wf p) as Hwf by (eapply Forall_lookup_1; done).
  destruct (guid_of_wf (Z.to_nat i)) as [Hg Hgb].
  destruct (entry_bytes_range p (guid_random (rnd (Z.to_nat i))) Hwf Hg) as [<- <-].
  split; apply rd64_ext; intros j Hj; rewrite <- Z.add_assoc, at_entry_sector by lia;
    rewrite <- (Z2Nat.id i) at 1 by lia; apply at_array; solve [done|lia].
Qed.
End array.

(** *** The checks of [write_gpt] *)

(** [ps] in ascending order without overlap, all inside the usable area. *)
Fixpoint laid_out (lo hi : Z) (ps : list part) : Prop :=
  match ps with
  | [] => True
  | p :: ps => lo <= p_first p /\ p_first p <= p_last p /\ p_last p <= hi
               /\ laid_out (p_last p + 1) hi ps
  end.

Lemma parts_ok_prev fu lu q ps :
  fu <= p_last q + 1 -> parts_ok fu lu (Some q) ps = true -> laid_out (p_last q + 1) lu ps.
Proof.
  revert q. induction ps as [|p ps IH]; intros q Hq; cbn [parts_ok laid_out]; [done|].
  zbool; cbn [orb]; intros Hok; try done. repeat split; try lia. apply IH; [lia|done].
Qed.

Lemma parts_ok_laid_out fu lu ps : parts_ok fu lu None ps = true -> laid_out fu lu ps.
Proof.
  destruct ps as [|p ps]; cbn [parts_ok laid_out]; [done|].
  zbool; cbn [orb]; intros Hok; try done. repeat split; try lia. eapply parts_ok_prev; [|done]. lia.
Qed.

Lemma laid_out_in lo hi ps j q :
  laid_out lo hi ps -> ps !! j = Some q ->
  lo <= p_first q /\ p_first q <= p_last q /\ p_last q <= hi.
Proof.
  revert lo j. induction ps as [|r ps IH]; intros lo j Hl Hj; [done|].
  destruct Hl as (? & ? & ? & Hl). destruct j as [|j]; simpl in Hj; simplify_eq; [done|].
  specialize (IH _ _ Hl Hj). lia.
Qed.

Lemma laid_out_disjoint lo hi ps i j p q :
  laid_out lo hi ps -> (i < j)%nat -> ps !! i = Some p -> ps !! j = Some q -> p_last p < p_first q.
Proof.
  revert lo i j. induction ps as [|r ps IH]; intros lo i j Hl Hij Hi Hj; [done|].
  destruct Hl as (? & ? & ? & Hl). destruct j as [|j]; [lia|]. simpl in Hj.
  destruct i as [|i]; simpl in Hi.
  - simplify_eq. pose proof (laid_out_in _ _ _ _ _ Hl Hj). lia.
  - apply (IH (p_last r + 1) i j); [done|lia|done|done].
Qed.

Lemma write_gpt_present {D} `{BlockDevLaws D} rnd (d d' : D) sectors ps :
  write_gpt rnd d sectors ps = Some d' -> blk_present d' = blk_present d.
Proof.
  unfold write_gpt, write_at. intros Hw. repeat case_match; simplify_eq.
  repeat match goal with E : write_chunks _ _ _ _ _ = Some _ |- _ =>
    apply write_chunks_present in E end. congruence.
Qed.

Lemma chunk_0 b : zlen b = 512 -> chunk b 0 = b.
Proof. intros Hb. unfold chunk, SECTOR, slice. apply take_ge. unfold zlen in Hb. simpl. lia. Qed.

(** The header of the primary table ([false]) and of its backup. *)
Definition head_of (rnd : nat -> list Z) (sectors : Z) (ps : list part) (backup : bool) : list Z :=
  header_bytes backup (sectors - 1) 34 (sectors - 34) (guid_random (rnd (length ps)))
    (crc32 (array_bytes ps rnd)).

(** *** After the table is written *)
Section written.
Context {D : Type} `{BlockDevLaws D} (rnd : nat -> list Z) (Hrnd : rnd_wf rnd).
Context (d d' : D) (sectors : Z) (ps : list part).
Context (Hps : Forall part_wf ps) (Hn : zlen ps <= 128) (Hsec : 2048 <= sectors < 2 ^ 63).
Context (Hw : write_gpt rnd d sectors ps = Some d').

Let last_lba := sectors - 1.
Let last_usable := sectors - 34.
Let array := array_bytes ps rnd.
Let dguid := guid_random (rnd (length ps)).
Let head := head_of rnd sectors ps.

Lemma head_ok b : sector_ok (head b).
Proof.
  destruct (guid_of_wf rnd Hrnd (length ps)) as [Hg Hgb]. fold dguid in Hg, Hgb.
  unfold head, head_of. fold array last_lba last_usable dguid. unfold header_bytes, wr32, put64. clearbody dguid. split; [unfold SECTOR; slen|].
  repeat apply splice_bytes; solve [auto with bytes | cbytes].
Qed.

Lemma mbr_ok : sector_ok (mbr_bytes sectors).
Proof.
  unfold mbr_bytes, wr32. split; [unfold SECTOR; slen|].
  repeat apply splice_bytes; solve [auto with bytes | cbytes].
Qed.

(** Every sector of the disk after the write. *)
Lemma written_sectors s :
  blk_read d' s =
    if s =? 0 then Some (mbr_bytes sectors)
    else if s =? 1 then Some (head false)
    else if (2 <=? s) && (s <? 34) then Some (chunk array (Z.to_nat (s - 2)))
    else if s =? last_lba then Some (head true)
    else if (last_usable + 1 <=? s) && (s <? last_lba) then
      Some (chunk array (Z.to_nat (s - (last_usable + 1))))
    else blk_read d s.
Proof.
  revert Hw. unfold write_gpt. change ARRAY_SECS with 32.
  rewrite (uwrap_small 64 (sectors - 1)), uwrap_small by lia.
  case_match; [done|]. replace (sectors - 1 - 32 - 1) with (sectors - 34) by lia.
  change (2 + 32) with 34. fold (head_of rnd sectors ps false) (head_of rnd sectors ps true).
  fold array last_lba last_usable head.
  destruct (array_bytes_wf rnd Hrnd ps Hps Hn) as [Ha Hab]. fold array in Ha, Hab.
  destruct (head_ok false) as [Hf Hfb]. destruct (head_ok true) as [Ht Htb].
  destruct mbr_ok as [Hm Hmb]. unfold SECTOR in *.
  unfold write_at. rewrite Ha, Hf, Ht, Hm.
  change (Z.to_nat (16384 / 512)) with 32%nat. change (Z.to_nat (512 / 512)) with 1%nat.
  destruct (write_chunks d 2 array 0 32) as [d1|] eqn:E1; [|done].
  destruct (write_chunks d1 1 (head false) 0 1) as [d2|] eqn:E2; [|done].
  destruct (write_chunks d2 (last_usable + 1) array 0 32) as [d3|] eqn:E3; [|done].
  destruct (write_chunks d3 last_lba (head true) 0 1) as [d4|] eqn:E4; [|done].
  intros E5.
  rewrite (write_chunks_read _ _ _ _ _ _ s Hmb E5) by (unfold SECTOR; lia).
  rewrite (write_chunks_read _ _ _ _ _ _ s Htb E4) by (unfold SECTOR; lia).
  rewrite (write_chunks_read _ _ _ _ _ _ s Hab E3) by (unfold SECTOR; lia).
  rewrite (write_chunks_read _ _ _ _ _ _ s Hfb E2) by (unfold SECTOR; lia).
  rewrite (write_chunks_read _ _ _ _ _ _ s Hab E1) by (unfold SECTOR; lia).
  clear E1 E2 E3 E4 E5. subst last_lba last_usable.
  zsplit; try done; f_equal;
    lazymatch goal with
    | |- chunk _ ?n = chunk _ _ => f_equal; lia
    | |- chunk _ ?n = _ => assert (n = 0%nat) as -> by lia; by apply chunk_0
    end.
Qed.

Lemma head_fields b :
  slice (head b) 0 8 = sig /\ rd32 (head b) 12 = 92
  /\ rd64 (head b) 24 = (if b then last_lba else 1)
  /\ rd64 (head b) 32 = (if b then 1 else last_lba)
  /\ rd64 (head b) 40 = 34 /\ rd64 (head b) 48 = last_usable
  /\ rd64 (head b) 72 = (if b then last_usable + 1 else 2)
  /\ rd32 (head b) 80 = 128 /\ rd32 (head b) 84 = 128
  /\ rd32 (head b) 88 = crc32 array.
Proof.
  destruct (guid_of_wf rnd Hrnd (length ps)) as [Hg Hgb]. fold dguid in Hg, Hgb.
  pose proof (crc32_range array) as Hcrc.
  unfold head, head_of. fold array last_lba last_usable dguid. unfold header_bytes, wr32, put64, ENTRIES, ENTRY_SIZE. clearbody dguid.
  set (crc32 (slice _ 0 92)) as c. clearbody c array. subst last_lba last_usable.
  repeat match goal with |- _ /\ _ => split end; try (fields; destruct b; lia).
  do 14 (erewrite (slice_splice_ne _ _ _ 0); [|slen|lia|destruct b; sfit..]).
  change sig with (str "EFI PART"). change 8 with (zlen (str "EFI PART")).
  eapply slice_splice_eq; [slen|lia|sfit].
Qed.

(** The checksum of a header is taken with its own field zero. *)
Lemma head_crc b : rd32 (head b) 16 = crc32 (slice (wr32 (head b) 16 0) 0 92).
Proof.
  destruct (guid_of_wf rnd Hrnd (length ps)) as [Hg Hgb]. fold dguid in Hg, Hgb.
  unfold head, head_of. fold array last_lba last_usable dguid. unfold header_bytes, ENTRIES, ENTRY_SIZE. unfold wr32 at 1.
  match goal with |- context [crc32 (slice ?h 0 92)] => set (h0 := h) end.
  assert (zlen h0 = 512) as Hl.
  { subst h0. unfold wr32, put64. clearbody dguid. slen. }
  rewrite (rd32_splice_eq _ _ _ 512) by (done || lia || apply crc32_range).
  apply (f_equal (fun x => crc32 (slice x 0 92))). unfold wr32. rewrite splice_splice by (done || rewrite Hl; sfit).
  symmetry. apply splice_same; [lia|rewrite Hl; sfit|]. change (zlen (b_wr32 0)) with 4.
  subst h0. unfold wr32, put64. clearbody dguid.
  do 10 (erewrite (slice_splice_ne _ _ _ 16); [|slen|lia|destruct b; sfit..]).
  change 4 with (zlen (b_wr32 0)). eapply slice_splice_eq; [slen|lia|sfit].
Qed.

(** *** The kernel's scan of the table *)
Lemma array_sector j : 0 <= j < 32 -> blk_read d' (2 + j) = Some (chunk array (Z.to_nat j)).
Proof.
  intros Hj. rewrite written_sectors. zsplit. do 2 f_equal. lia.
Qed.

Lemma parts_written : parts_ok 34 last_usable None ps = true.
Proof.
  revert Hw. unfold write_gpt. change ARRAY_SECS with 32.
  rewrite (uwrap_small 64 (sectors - 1)), uwrap_small by lia.
  change (2 + 32) with 34. replace (sectors - 1 - 32 - 1) with last_usable by (subst last_usable; lia).
  by destruct (parts_ok 34 last_usable None ps).
Qed.

Lemma find_loop_rest i n :
  0 <= i -> i + Z.of_nat n <= 128 -> (length ps <= Z.to_nat i)%nat -> find_loop d' 2 128 i n = None.
Proof.
  revert i. induction n as [|n IH]; intros i Hi Hin Hl; [done|]. cbn [find_loop].
  rewrite !(uwrap_small 64 (i * 128)), (uwrap_small 64 (2 + _)) by zdm. rewrite array_sector by zdm. cbn match.
  rewrite (entry_sector_type rnd Hrnd ps Hps Hn) by lia. rewrite lookup_ge_None_2 by lia.
  rewrite bool_decide_false by done. cbn [negb]. apply IH; lia.
Qed.

Lemma find_loop_written qs i n :
  drop (Z.to_nat i) ps = qs -> 0 <= i -> i + Z.of_nat n = 128 ->
  find_loop d' 2 128 i n =
    (fun '(_, p) => (p_first p, p_last p - p_first p + 1)) <$> list_find (fun p => p_type p = esp_type) qs.
Proof.
  revert i n. induction qs as [|q qs IH]; intros i n Hd Hi Hin.
  { apply find_loop_rest; [lia..|]. apply (f_equal length) in Hd. rewrite length_drop in Hd. simpl in Hd. lia. }
  assert (ps !! Z.to_nat i = Some q) as Hq.
  { rewrite <- (Nat.add_0_r (Z.to_nat i)), <- lookup_drop, Hd. done. }
  pose proof (lookup_lt_Some _ _ _ Hq) as Hlt.
  destruct n as [|n]; [unfold zlen in Hn; lia|]. cbn [find_loop].
  rewrite !(uwrap_small 64 (i * 128)), (uwrap_small 64 (2 + _)) by zdm.
  rewrite array_sector by zdm. cbn match.
  rewrite (entry_sector_type rnd Hrnd ps Hps Hn), Hq by lia.
  unfold array. destruct (entry_sector_range rnd Hrnd ps Hps i q) as [-> ->]; [lia|done|].
  pose proof (laid_out_in _ _ _ _ _ (parts_ok_laid_out _ _ _ parts_written) Hq) as (? & ? & ?).
  destruct (Forall_lookup_1 _ _ _ _ Hps Hq) as (_ & _ & ? & ?).
  cbn [list_find]. destruct (decide (p_type q = esp_type)) as [Ht|Ht].
  - rewrite bool_decide_true by done. cbn [negb]. zsplit.
    rewrite uwrap_small by (subst last_usable; lia). done.
  - rewrite bool_decide_false by done. cbn [negb].
    rewrite (IH (i + 1) n); [|replace (Z.to_nat (i + 1)) with (1 + Z.to_nat i)%nat by lia;
                              rewrite Nat.add_comm, <- drop_drop, Hd; done|lia..].
    destruct (list_find _ qs) as [[]|]; done.
Qed.
End written.

(** The kernel's [gpt_find_esp], reading a disk on which vpart's
    [write_gpt] has written a table, answers with the first sector and the
    length of the first partition typed as an EFI system partition, and with
    failure exactly when the table has none. *)
Theorem gpt_finds_esp {D} `{BlockDevLaws D} rnd (d d' : D) sectors ps :
  rnd_wf rnd -> Forall part_wf ps -> zlen ps <= 128 -> 2048 <= sectors < 2 ^ 63 ->
  blk_present d = true -> write_gpt rnd d sectors ps = Some d' ->
  gpt_find_esp d' =
    (fun '(_, p) => (p_first p, p_last p - p_first p + 1))
      <$> list_find (fun p => p_type p = esp_type) ps.
Proof.
  intros Hrnd Hps Hn Hsec Hp Hw. unfold gpt_find_esp.
  rewrite (write_gpt_present _ _ _ _ _ Hw), Hp. cbn [negb].
  rewrite (written_sectors _ Hrnd _ _ _ _ Hps Hn Hsec Hw).
  change (1 =? 0) with false. change (1 =? 1) with true. cbv iota.
  pose proof (head_fields rnd Hrnd sectors ps Hsec false) as Hh. cbv beta in Hh.
  destruct Hh as (-> & _ & _ & _ & _ & _ & -> & -> & -> & _).
  rewrite bool_decide_true by done. cbn [negb Z.eqb Pos.eqb orb Z.ltb Z.compare Pos.compare Pos.compare_cont].
  rewrite (find_loop_written _ Hrnd _ _ _ _ Hps Hn Hsec Hw ps) by done. done.
Qed.

Lemma gpt_finds_esp_witness :
  let ps := [Partn (guid 0x0FC63DAF 0x8483 0x4772 LINUX_REST) 40 50 (str "data");
             Partn esp_type 64 95 (str "EFI System")] in
  exists d', write_gpt (fun _ => zeros 16) (blank 4096) 4096 ps = Some d'
             /\ gpt_find_esp d' = Some (64, 32).
Proof.
  intros ps.
  destruct (write_gpt (fun _ => zeros 16) (blank 4096) 4096 ps) as [d'|] eqn:E.
  - exists d'. split; [done|].
    rewrite (gpt_finds_esp (fun _ => zeros 16) (blank 4096) d' 4096 ps);
      [vm_compute; reflexivity|intros i; split; [done|cbytes]| |done|lia|done|exact E].
    repeat constructor; solve [done | cbytes | cbn; lia].
  - exfalso. revert E. vm_compute. discriminate.
Defined.

(** *** The two copies of the table *)

(** What the UEFI specification asks of a header of a disk: its signature and
    size, its own address and its twin's, its checksum, and an array of
    entries where it says, with the checksum it says. *)
Definition valid_header {D} `{BlockDev D} (d : D) (my alt : Z) (array : list Z) : Prop :=
  exists h, blk_read d my = Some h
    /\ slice h 0 8 = sig /\ rd32 h 12 = 92
    /\ rd64 h 24 = my /\ rd64 h 32 = alt
    /\ rd32 h 16 = crc32_ref (slice (wr32 h 16 0) 0 92)
    /\ rd32 h 88 = crc32_ref array
    /\ zlen array = rd32 h 80 * rd32 h 84
    /\ forall j, 0 <= j < zlen array / 512 ->
         blk_read d (rd64 h 72 + j) = Some (chunk array (Z.to_nat j)).

(** A table [write_gpt] accepts is on the disk twice: a header at sector 1
    and one at the last sector, each naming the other, each with a correct
    CRC-32 of itself and of the array of entries it points to, the two arrays
    being the same bytes; every sector outside the two tables and the
    protective MBR is untouched. *)
Theorem write_gpt_mirrored {D} `{BlockDevLaws D} rnd (d d' : D) sectors ps :
  rnd_wf rnd -> Forall part_wf ps -> zlen ps <= 128 -> 2048 <= sectors < 2 ^ 63 ->
  write_gpt rnd d sectors ps = Some d' ->
  (exists array, valid_header d' 1 (sectors - 1) array /\ valid_header d' (sectors - 1) 1 array)
  /\ forall s, 34 <= s < sectors - 33 -> blk_read d' s = blk_read d s.
Proof.
  intros Hrnd Hps Hn Hsec Hw.
  pose proof (written_sectors _ Hrnd _ _ _ _ Hps Hn Hsec Hw) as Hr.
  destruct (array_bytes_wf rnd Hrnd ps Hps Hn) as [Ha Hab].
  split; [|intros s Hs; rewrite Hr; zsplit; done].
  exists (array_bytes ps rnd).
  assert (forall b, zlen (head_of rnd sectors ps b) = 512
                    /\ bytes_ok (head_of rnd sectors ps b)) as Hho.
  { intros b. by apply head_ok. }
  assert (forall b, rd32 (head_of rnd sectors ps b) 16
    = crc32_ref (slice (wr32 (head_of rnd sectors ps b) 16 0) 0 92)) as Hcrc.
  { intros b. rewrite head_crc, crc32_table; [done| |done].
    apply slice_bytes, splice_bytes; [apply Hho|auto with bytes]. }
  split; eexists; (split; [rewrite Hr; zsplit; reflexivity|]).
  - pose proof (head_fields rnd Hrnd sectors ps Hsec false) as (?&?&?&?&_&_&->&->&->&->).
    rewrite Ha, crc32_table by done. repeat split; try done.
    intros j Hj. change (16384 / 512) with 32 in Hj. rewrite Hr. zsplit. do 2 f_equal. lia.
  - pose proof (head_fields rnd Hrnd sectors ps Hsec true) as (?&?&?&?&_&_&->&->&->&->).
    rewrite Ha, crc32_table by done. repeat split; try done.
    intros j Hj. change (16384 / 512) with 32 in Hj. rewrite Hr. zsplit. do 2 f_equal. lia.
Qed.

Lemma write_gpt_mirrored_witness :
  exists d', write_gpt (fun _ => zeros 16) (blank 4096) 4096 [Partn esp_type 64 95 (str "ESP")] = Some d'
             /\ blk_read d' 100 = Some (zeros 512).
Proof.
  destruct (write_gpt (fun _ => zeros 16) (blank 4096) 4096 [Partn esp_type 64 95 (str "ESP")])
    as [d'|] eqn:E; [|exfalso; revert E; vm_compute; discriminate].
  exists d'. split; [done|].
  rewrite (proj2 (write_gpt_mirrored (fun _ => zeros 16) (blank 4096) d' 4096
                    [Partn esp_type 64 95 (str "ESP")]
                    ltac:(intros i; split; [done|cbytes])
                    ltac:(repeat constructor; solve [done | cbytes | cbn; lia])
                    ltac:(done) ltac:(lia) E) 100 ltac:(lia)).
  vm_compute. reflexivity.
Defined.

(** *** The whole command *)
Definition opts_wf (o : opts) : Prop :=
  0 <= esp_mb o < 2 ^ 32 /\ 0 <= root_mb o < 2 ^ 32 /\ 0 <= home_mb o < 2 ^ 32
  /\ 0 <= swap_mb o < 2 ^ 32.

Definition esp_size (sectors : Z) (o : opts) : Z :=
  if esp_only o then sectors - 2081 else esp_mb o * 2048.

Lemma guid_wf a b c r : zlen r = 8 -> bytes_ok r -> zlen (guid a b c r) = 16 /\ bytes_ok (guid a b c r).
Proof.
  intros Hr Hb. unfold guid. split; [autorewrite with zlen; lia|].
  repeat (apply Forall_app; split); auto with bytes.
Qed.

Lemma plan_wf sectors o ps :
  plan sectors o = Some ps -> Forall part_wf ps /\ zlen ps <= 128.
Proof.
  assert (forall a b c r f l n, zlen r = 8 -> bytes_ok r -> 0 <= f < 2 ^ 64 -> 0 <= l < 2 ^ 64 ->
    part_wf (Partn (guid a b c r) f l n)) as Hg.
  { intros. destruct (guid_wf a b c r); done. }
  pose proof (fun z => uwrap_range 64 z ltac:(lia)) as Hu.
  unfold plan. intros Hp.
  destruct (want_root o), (home_mb o =? 0), (swap_mb o =? 0), (esp_only o), (root_mb o =? 0);
    cbn [negb orb andb] in Hp; repeat case_match; simplify_eq/=; (split; [|done]);
    repeat (apply Forall_cons; split); try apply Forall_nil_2;
    apply Hg; solve [done | cbytes | apply Hu | lia].
Qed.

Lemma plan_esp sectors o ps :
  opts_wf o -> 2048 <= sectors < 2 ^ 63 -> plan sectors o = Some ps ->
  exists rest, ps = Partn esp_type 2048 (2047 + esp_size sectors o) (str "EFI System") :: rest.
Proof.
  intros (He & _) Hs. unfold plan, esp_size. change (guid _ _ _ ESP_REST) with esp_type.
  change ARRAY_SECS with 32. intros Hp.
  destruct (esp_only o).
  - rewrite !(uwrap_small 64 (sectors - 32 - 2)) in Hp by lia.
    replace (2047 + (sectors - 2081)) with (sectors - 32 - 2) by lia.
    repeat case_match; simplify_eq; eauto.
  - rewrite !(uwrap_small 64 (esp_mb o * 2048)), !(uwrap_small 64 (2048 + _ - 1)) in Hp by lia.
    replace (2048 + esp_mb o * 2048 - 1) with (2047 + esp_mb o * 2048) in Hp by lia.
    repeat case_match; simplify_eq; eauto.
Qed.



End Table.
