(* ===== verification/Mem.v ===== *)
(** * The kernel's memory, as 64-bit words

    What the kernel reads and writes through pointers to [uint64_t]: a map from
    word-aligned addresses to words, an absent word being zero.  The page
    allocator threads its free list through it, page tables and kernel stacks
    live in it. *)
From S2P Require Import Prelude.

Definition PAGE_SIZE : Z := 4096.

Abbreviation memory := (gmap Z Z).

Definition word (m : memory) (a : Z) : Z := default 0 (m !! a).
Definition store (m : memory) (a v : Z) : memory := <[a := v]> m.

(** [for (i = 0; i < n; i++) p[i] = v;] *)
Fixpoint fill (m : memory) (a v : Z) (n : nat) : memory :=
  match n with
  | O => m
  | S n => fill (store m a v) (a + 8) v n
  end.

(** [for (i = 0; i < n; i++) to[i] = from[i];] *)
Fixpoint copy (m : memory) (to from : Z) (n : nat) : memory :=
  match n with
  | O => m
  | S n => copy (store m to (word m from)) (to + 8) (from + 8) n
  end.

Lemma word_store m a v b : word (store m a v) b = if b =? a then v else word m b.
Proof.
  unfold word, store. destruct (Z.eqb_spec b a) as [->|].
  - by rewrite lookup_insert_eq.
  - by rewrite lookup_insert_ne by done.
Qed.

Lemma word_store_eq m a v : word (store m a v) a = v.
Proof. rewrite word_store. by rewrite Z.eqb_refl. Qed.
Lemma word_store_ne m a v b : b <> a -> word (store m a v) b = word m b.
Proof. intros. rewrite word_store. by zsplit. Qed.

(** [b] is one of the [n] words from [a]. *)
Definition in_words (a : Z) (n : nat) (b : Z) : Prop :=
  exists i, 0 <= i < Z.of_nat n /\ b = a + 8 * i.

Lemma in_words_S a n b : in_words a (S n) b <-> b = a \/ in_words (a + 8) n b.
Proof.
  unfold in_words. split.
  - intros (i & Hi & ->). destruct (decide (i = 0)) as [->|]; [left; lia|].
    right. exists (i - 1). lia.
  - intros [->|(i & Hi & ->)]; [exists 0; lia|exists (i + 1); lia].
Qed.

Lemma word_fill_out m a v n b : ~ in_words a n b -> word (fill m a v n) b = word m b.
Proof.
  revert m a. induction n as [|n IH]; intros m a Hb; [done|]. cbn [fill].
  rewrite in_words_S in Hb. rewrite IH by tauto. apply word_store_ne. tauto.
Qed.

Lemma word_fill_in m a v n b : in_words a n b -> word (fill m a v n) b = v.
Proof.
  revert m a. induction n as [|n IH]; intros m a (i & Hi & ->); [lia|].
  cbn [fill]. destruct (decide (i = 0)) as [->|].
  - rewrite word_fill_out.
    + replace (a + 8 * 0) with a by lia. apply word_store_eq.
    + intros (j & Hj & He). lia.
  - apply IH. exists (i - 1). lia.
Qed.

Lemma word_copy_out m to from n b : ~ in_words to n b -> word (copy m to from n) b = word m b.
Proof.
  revert m to from. induction n as [|n IH]; intros m to from Hb; [done|]. cbn [copy].
  rewrite in_words_S in Hb. rewrite IH by tauto. apply word_store_ne. tauto.
Qed.

(** Two pages that do not overlap. *)
Lemma word_copy_in m to from n i :
  (forall j k, 0 <= j < Z.of_nat n -> 0 <= k < Z.of_nat n -> to + 8 * j <> from + 8 * k) ->
  0 <= i < Z.of_nat n -> word (copy m to from n) (to + 8 * i) = word m (from + 8 * i).
Proof.
  revert m to from i. induction n as [|n IH]; intros m to from i Hne Hi; [lia|]. cbn [copy].
  destruct (decide (i = 0)) as [->|].
  - rewrite word_copy_out.
    + replace (to + 8 * 0) with to by lia. replace (from + 8 * 0) with from by lia. apply word_store_eq.
    + intros (j & Hj & He). lia.
  - replace (to + 8 * i) with ((to + 8) + 8 * (i - 1)) by lia. rewrite IH; [| |lia].
    + rewrite word_store_ne; [f_equal; lia|].
      specialize (Hne 0 i ltac:(lia) ltac:(lia)). lia.
    + intros j k Hj Hk. specialize (Hne (j + 1) (k + 1) ltac:(lia) ltac:(lia)). lia.
Qed.

(** ** Pages *)

(** The page an address is on. *)
Definition page_of (a : Z) : Z := a - a mod PAGE_SIZE.
Definition aligned (p : Z) : Prop := p mod PAGE_SIZE = 0.

Lemma page_of_in p i : aligned p -> 0 <= i < 512 -> page_of (p + 8 * i) = p.
Proof. unfold page_of, aligned, PAGE_SIZE. zdm. Qed.

Lemma in_words_page p b : aligned p -> in_words p 512 b -> page_of b = p.
Proof. intros Hp (i & Hi & ->). apply page_of_in; [done|lia]. Qed.

Lemma word_zero_page_out m p b :
  aligned p -> page_of b <> p -> word (fill m p 0 512) b = word m b.
Proof. intros Hp Hb. apply word_fill_out. intros Hin. apply Hb. by apply in_words_page. Qed.

(** A page of stores is not something to compute with while proving. *)
#[global] Opaque fill copy.
