(* ===== verification/Sav.v ===== *)
(** * A sav program's manifest

    [stam/savnote.h] and [sav_allows] of [stam/elf.c]: what the loader found in
    an executable's note, kept with the thread and asked at every call. *)
From S2P Require Import Prelude.

Definition SAV_MAX_CALLS : Z := 48.
Definition SAV_CAPS_BYTES : Z := 64.

(** [sav_manifest_t]: the first [ncalls] of [call], and the string in [caps]. *)
Record sav_manifest := Manifest { present : bool; calls : list Z; caps : list Z }.
Definition no_manifest : sav_manifest := Manifest false [] [].

Definition sav_allows (m : sav_manifest) (nr : Z) : bool :=
  negb (present m) || existsb (fun c => c =? u32 nr) (calls m).
