(* ===== verification/Pmm.v ===== *)
(** * Physical pages

    The allocator of [stam/mmu.c]: a bump pointer, a free list threaded through
    the free pages themselves, and the table of how many address spaces hold a
    page.  The theorems: whatever is allocated, freed and written by owners, a
    page is never in two hands, comes zeroed, and is not lost; and the counts
    say how many holders are left. *)
From S2P Require Import Prelude Bytes Mem.

Definition KVA_OFFSET : Z := 0xffffff8000000000.
Definition PAGE_FREE_MAGIC : Z := 0x46524545504147.

(** The file's static variables, and the memory they manage. *)
Record pmm := Pmm {
  high_half : bool;
  pmm_start : Z; free_next : Z; free_top : Z; pages_taken : Z;
  free_list : Z; pages_returned : Z; free_after_use : Z;
  refs : option (list Z); refs_base : Z; refs_pages : Z;
  mem : memory
}.

Definition set_mem (s : pmm) (m : memory) : pmm :=
  Pmm (high_half s) (pmm_start s) (free_next s) (free_top s) (pages_taken s) (free_list s)
    (pages_returned s) (free_after_use s) (refs s) (refs_base s) (refs_pages s) m.
Definition set_bump (s : pmm) (next taken : Z) : pmm :=
  Pmm (high_half s) (pmm_start s) next (free_top s) taken (free_list s)
    (pages_returned s) (free_after_use s) (refs s) (refs_base s) (refs_pages s) (mem s).
Definition set_list (s : pmm) (fl returned touched : Z) : pmm :=
  Pmm (high_half s) (pmm_start s) (free_next s) (free_top s) (pages_taken s) fl
    returned touched (refs s) (refs_base s) (refs_pages s) (mem s).
Definition set_refs (s : pmm) (r : option (list Z)) (b n : Z) : pmm :=
  Pmm (high_half s) (pmm_start s) (free_next s) (free_top s) (pages_taken s) (free_list s)
    (pages_returned s) (free_after_use s) r b n (mem s).

Definition mmu_note_high (s : pmm) : pmm :=
  Pmm true (pmm_start s) (free_next s) (free_top s) (pages_taken s) (free_list s)
    (pages_returned s) (free_after_use s) (refs s) (refs_base s) (refs_pages s) (mem s).

Definition phys_to_kva (p : Z) : Z := u64 (p + KVA_OFFSET).
Definition kva_to_phys (s : pmm) (v : Z) : Z := if high_half s then u64 (v - KVA_OFFSET) else v.
Definition usable (s : pmm) (phys : Z) : Z := if high_half s then u64 (phys + KVA_OFFSET) else phys.

(** [kend]: the linker's [_kernel_end]. *)
Definition pmm_init (kend ram_base ram_size avoid avoid_size : Z) (s : pmm) : pmm :=
  let ram_end := u64 (ram_base + ram_size) in
  let start := if (ram_base <? kend) && (kend <? ram_end) then kend else ram_base in
  let start :=
    if negb (avoid_size =? 0) && (start <? u64 (avoid + avoid_size)) && (avoid <? ram_end)
    then (if start <? u64 (avoid + avoid_size) then u64 (avoid + avoid_size) else start)
    else start in
  let next := Z.land (u64 (start + 0xfff)) (Z.lnot 0xfff) in
  Pmm (high_half s) next next ram_end (pages_taken s) (free_list s)
    (pages_returned s) (free_after_use s) (refs s) (refs_base s) (refs_pages s) (mem s).

(** [free_page]; a null pointer is 0. *)
Definition free_page (s : pmm) (p : Z) : pmm :=
  if p =? 0 then s else
  let m := store (mem s) p (free_list s) in
  let m := store m (p + 8) PAGE_FREE_MAGIC in
  set_list (set_mem s m) p (u32 (pages_returned s + 1)) (free_after_use s).

(** [alloc_page]; [0] is the null pointer. *)
Definition alloc_page (s : pmm) : Z * pmm :=
  if negb (free_list s =? 0) then
    let page := free_list s in
    let touched := negb (word (mem s) (page + 8) =? PAGE_FREE_MAGIC) in
    let s := set_list s (word (mem s) page) (u32 (pages_returned s - 1))
               (if touched then u32 (free_after_use s + 1) else free_after_use s) in
    (page, set_mem s (fill (mem s) page 0 512))
  else if free_top s <? u64 (free_next s + PAGE_SIZE) then (0, s)
  else
    let p := free_next s in
    let s := set_bump s (u64 (free_next s + PAGE_SIZE)) (u32 (pages_taken s + 1)) in
    (usable s p, set_mem s (fill (mem s) (usable s p) 0 512)).

Definition alloc_pages (n : Z) (s : pmm) : Z * pmm :=
  if n =? 0 then (0, s)
  else if free_top s <? u64 (free_next s + n * PAGE_SIZE) then (0, s)
  else
    let p := free_next s in
    let s := set_bump s (u64 (free_next s + n * PAGE_SIZE)) (u32 (pages_taken s + n)) in
    (usable s p, set_mem s (fill (mem s) (usable s p) 0 (Z.to_nat (n * PAGE_SIZE / 8)))).

(** ** How many address spaces hold a page *)
Definition pmm_init_refs (s : pmm) : pmm :=
  match refs s with
  | Some _ => s
  | None =>
      let n := u64 (free_top s - pmm_start s) / PAGE_SIZE in
      let need := (n + PAGE_SIZE - 1) / PAGE_SIZE in
      let '(p, s) := alloc_pages (u32 need) s in
      if p =? 0 then set_refs s None (pmm_start s) 0
      else set_refs s (Some (zeros n)) (pmm_start s) n
  end.

Definition refs_index (s : pmm) (pa : Z) : option Z :=
  match refs s with
  | None => None
  | Some _ =>
      if pa <? refs_base s then None else
      let i := (pa - refs_base s) / PAGE_SIZE in
      if i <? refs_pages s then Some i else None
  end.

Definition ref_at (s : pmm) (i : Z) : Z := at_ (default [] (refs s)) i.
Definition set_ref (s : pmm) (i v : Z) : pmm :=
  set_refs s ((fun r => splice r i [v]) <$> refs s) (refs_base s) (refs_pages s).

Definition page_ref (s : pmm) (pa : Z) : pmm :=
  match refs_index s pa with
  | None => s
  | Some i => if ref_at s i <? 255 then set_ref s i (ref_at s i + 1) else s
  end.

Definition page_unref (s : pmm) (pa : Z) : Z * pmm :=
  match refs_index s pa with
  | None => (0, s)
  | Some i =>
      if 0 <? ref_at s i then
        let s := set_ref s i (ref_at s i - 1) in (ref_at s i + 1, s)
      else (0, s)
  end.

Definition page_count (s : pmm) (pa : Z) : Z :=
  match refs_index s pa with
  | None => 1
  | Some i => if ref_at s i =? 0 then 1 else ref_at s i + 1
  end.

(** ** The invariant *)
Definition off (s : pmm) : Z := if high_half s then KVA_OFFSET else 0.

Record geometry (s : pmm) : Prop := {
  geo_start : 0 < pmm_start s; geo_start_al : aligned (pmm_start s);
  geo_next : pmm_start s <= free_next s < 2 ^ 38; geo_next_al : aligned (free_next s);
  geo_top : 0 <= free_top s < 2 ^ 38
}.

(** The free list, as the list of its pages. *)
Fixpoint chain (m : memory) (p : Z) (l : list Z) : Prop :=
  match l with
  | [] => p = 0
  | q :: l => p = q /\ q <> 0 /\ word m (q + 8) = PAGE_FREE_MAGIC /\ chain m (word m q) l
  end.

(** Pages ever handed out by the bump pointer. *)
Definition pool (s : pmm) (p : Z) : Prop :=
  aligned p /\ pmm_start s + off s <= p < free_next s + off s.

Record ok (s : pmm) (l : list Z) : Prop := {
  ok_geo : geometry s;
  ok_chain : chain (mem s) (free_list s) l;
  ok_nodup : NoDup l;
  ok_pool : Forall (pool s) l;
  ok_count : pages_returned s = u32 (zlen l)
}.

Definition owned (s : pmm) (l : list Z) (p : Z) : Prop := pool s p /\ p ∉ l.

Lemma off_aligned s : off s mod PAGE_SIZE = 0.
Proof. unfold off. by destruct (high_half s). Qed.

Lemma aligned_add p q : aligned p -> q mod PAGE_SIZE = 0 -> aligned (p + q).
Proof. unfold aligned, PAGE_SIZE. zdm. Qed.

Lemma aligned_shift p n : aligned p -> aligned (p + n * PAGE_SIZE).
Proof. unfold aligned, PAGE_SIZE. zdm. Qed.

Lemma usable_off s p : 0 <= p < 2 ^ 39 -> usable s p = p + off s.
Proof.
  intros Hp. unfold usable, off. destruct (high_half s); [|lia].
  apply uwrap_small. unfold KVA_OFFSET. lia.
Qed.

Lemma chain_frame m m' p l :
  (forall q, q ∈ l -> word m' q = word m q /\ word m' (q + 8) = word m (q + 8)) ->
  chain m p l -> chain m' p l.
Proof.
  revert p. induction l as [|q l IH]; intros p Hf; cbn [chain]; [done|].
  intros (-> & ? & Hm & Hc). destruct (Hf q) as [-> ->]; [by apply elem_of_cons; left|].
  repeat split; try done. apply IH; [|done]. intros r Hr. apply Hf. by apply elem_of_cons; right.
Qed.

(** The two words of a free page are on it. *)
Lemma page_of_0 p : aligned p -> page_of p = p.
Proof. unfold page_of, aligned. lia. Qed.
Lemma page_of_8 p : aligned p -> page_of (p + 8) = p.
Proof. intros. replace (p + 8) with (p + 8 * 1) by lia. by apply page_of_in. Qed.

Section preserve.
Context (s : pmm) (l : list Z) (Hok : ok s l).

Lemma free_aligned q : q ∈ l -> aligned q.
Proof. intros Hq. destruct Hok as [_ _ _ Hp _]. rewrite Forall_forall in Hp. by destruct (Hp q Hq). Qed.

(** Memory that changes only off the free pages keeps the list. *)
Lemma ok_mem m' :
  (forall a, page_of a ∈ l -> word m' a = word (mem s) a) -> ok (set_mem s m') l.
Proof.
  intros Hm. destruct Hok as [Hg Hc Hn Hp Hr]. split; try done; cbn.
  - by destruct Hg.
  - eapply chain_frame; [|exact Hc]. intros q Hq. pose proof (free_aligned q Hq).
    split; apply Hm; [rewrite page_of_0 by done|rewrite page_of_8 by done]; done.
Qed.

(** An owner writes to its page. *)
Lemma write_ok a v : owned s l (page_of a) -> ok (set_mem s (store (mem s) a v)) l.
Proof.
  intros [_ Ho]. apply ok_mem. intros b Hb. apply word_store_ne. congruence.
Qed.

Lemma owned_pool_pos p : pool s p -> 0 < p.
Proof.
  intros (_ & Hp & _). destruct (ok_geo _ _ Hok) as [? _ _ _ _]. unfold off in Hp.
  destruct (high_half s); unfold KVA_OFFSET in *; lia.
Qed.

Lemma free_page_ok p :
  owned s l p ->
  ok (free_page s p) (p :: l)
  /\ (forall q, owned (free_page s p) (p :: l) q <-> owned s l q /\ q <> p)
  /\ (forall a, page_of a <> p -> word (mem (free_page s p)) a = word (mem s) a)
  /\ free_after_use (free_page s p) = free_after_use s.
Proof.
  intros [Hp Hl]. pose proof (owned_pool_pos p Hp). pose proof Hp as (Hal & _).
  unfold free_page. zsplit.
  set (m := store (store (mem s) p (free_list s)) (p + 8) PAGE_FREE_MAGIC).
  assert (forall a, page_of a <> p -> word m a = word (mem s) a) as Hm.
  { intros a Ha. subst m. rewrite !word_store_ne; [done|intros ->..]; apply Ha;
      [by apply page_of_0|by apply page_of_8]. }
  destruct Hok as [Hg Hc Hn Hf Hr]. split; [split; cbn|].
  - by destruct Hg.
  - split; [done|]. split; [lia|]. subst m. split; [apply word_store_eq|].
    rewrite word_store_ne, word_store_eq by lia. eapply chain_frame; [|exact Hc].
    intros q Hq. pose proof (free_aligned q Hq) as Hqa.
    assert (q <> p) by congruence.
    split; apply Hm; [rewrite page_of_0 by done|rewrite page_of_8 by done]; done.
  - by constructor.
  - constructor; done.
  - rewrite Hr, zlen_cons. unfold uwrap. rewrite Zplus_mod_idemp_l. f_equal. lia.
  - split; [|split; [exact Hm|done]]. intros q. unfold owned. rewrite not_elem_of_cons.
    unfold pool. cbn. tauto.
Qed.
End preserve.

(** What an allocation does. *)
Lemma alloc_page_ok s l p s' :
  ok s l -> alloc_page s = (p, s') ->
  (p = 0 /\ s' = s /\ l = [] /\ free_top s < free_next s + PAGE_SIZE)
  \/ (exists l', ok s' l' /\ p <> 0 /\ ~ owned s l p
      /\ (forall q, owned s' l' q <-> owned s l q \/ q = p)
      /\ (forall a, in_words p 512 a -> word (mem s') a = 0)
      /\ (forall a, page_of a <> p -> word (mem s') a = word (mem s) a)
      /\ free_after_use s' = free_after_use s
      /\ high_half s' = high_half s /\ pmm_start s' = pmm_start s
      /\ free_next s' + PAGE_SIZE * Z.of_nat (length l) =
         free_next s + PAGE_SIZE * Z.of_nat (length l') + PAGE_SIZE).
Proof.
  intros Hok. pose proof Hok as [[Hs Hsa Hn Hna Ht] Hc Hnd Hp Hr]. unfold alloc_page.
  destruct l as [|q l]; cbn [chain] in Hc.
  - rewrite Hc. cbn [Z.eqb negb]. rewrite (uwrap_small 64) by (unfold PAGE_SIZE; lia).
    destruct (Z.ltb_spec (free_top s) (free_next s + PAGE_SIZE)) as [|Hroom]; rewrite pair_equal_spec; intros [<- <-].
    { left. done. }
    right. exists []. rewrite usable_off by lia. change (off (set_bump s _ _)) with (off s).
    set (p := free_next s + off s).
    assert (aligned p) as Hpa by (apply aligned_add; [done|apply off_aligned]).
    assert (0 <= off s) by (unfold off; destruct (high_half s); unfold KVA_OFFSET; lia).
    assert (forall q, pool s q \/ q = p <->
              pool (set_bump s (free_next s + PAGE_SIZE) (u32 (pages_taken s + 1))) q) as Hpool.
    { intros q. unfold pool. cbn [free_next pmm_start set_bump]. change (off (set_bump s _ _)) with (off s).
      unfold p, aligned, PAGE_SIZE in *. split.
      - intros [(? & ?)| ->]; split; try done; zdm.
      - intros (Hqa & Hq). destruct (decide (q = free_next s + off s)); [by right|left].
        split; [done|]. pose proof (off_aligned s). unfold PAGE_SIZE in *. zdm. }
    split; [|split; [subst p; lia|split]].
    + split; cbn; try done. split; cbn; try done; [unfold PAGE_SIZE in *; lia|].
      replace (free_next s + PAGE_SIZE) with (free_next s + 1 * PAGE_SIZE) by lia. by apply aligned_shift.
    + intros [(_ & Hq) _]. subst p. lia.
    + split; [intros q; unfold owned; pose proof (Hpool q) as Hq; unfold pool in *; cbn in *;
              pose proof (not_elem_of_nil q); tauto|].
      split; [intros a Ha; by apply word_fill_in|].
      split; [intros a Ha; by apply word_zero_page_out|]. cbn. repeat split; try done. lia.
  - destruct Hc as (Hq & Hq0 & Hmg & Hc). cbv zeta. rewrite Hq, Hmg, Z.eqb_refl. zsplit.
    cbn [negb]. rewrite pair_equal_spec; intros [<- <-]. right. exists l.
    inversion Hp as [|? ? Hqp Hlp]; subst. inversion Hnd as [|? ? Hql Hlnd]; subst.
    pose proof (proj1 Hqp) as Hqa.
    assert (forall a, page_of a <> free_list s ->
      word (fill (mem s) (free_list s) 0 512) a = word (mem s) a) as Hm.
    { intros a Ha. by apply word_zero_page_out. }
    split; [|split; [done|split]].
    + split; cbn; try done.
      * eapply chain_frame; [|exact Hc]. intros r Hr'.
        assert (aligned r) as Hra by (rewrite Forall_forall in Hlp; by destruct (Hlp r Hr')).
        assert (r <> free_list s) by congruence.
        split; apply Hm; [rewrite page_of_0 by done|rewrite page_of_8 by done]; done.
      * rewrite Hr, zlen_cons. unfold uwrap. rewrite Zminus_mod_idemp_l. f_equal. lia.
    + intros [_ Ho]. apply Ho, elem_of_cons; by left.
    + split.
      { intros q. unfold owned, pool in *. cbn. rewrite not_elem_of_cons.
        destruct (decide (q = free_list s)) as [->|]; tauto. }
      split; [intros a Ha; by apply word_fill_in|]. split; [exact Hm|]. cbn.
      repeat split; try done. lia.
Qed.

(** The [n] pages from [p]. *)
Definition pages (p : Z) (n : nat) : gset Z :=
  list_to_set ((fun i => p + PAGE_SIZE * Z.of_nat i) <$> seq 0 n).

Lemma elem_of_pages p n q :
  q ∈ pages p n <-> exists i, 0 <= i < Z.of_nat n /\ q = p + PAGE_SIZE * i.
Proof.
  unfold pages. rewrite elem_of_list_to_set, list_elem_of_fmap. split.
  - intros (i & -> & Hi). apply elem_of_seq in Hi. exists (Z.of_nat i). lia.
  - intros (i & Hi & ->). exists (Z.to_nat i). rewrite Z2Nat.id by lia. split; [done|]. apply elem_of_seq. lia.
Qed.

Lemma size_pages p n : size (pages p n) = n.
Proof.
  unfold pages. rewrite size_list_to_set, length_fmap, length_seq; [done|].
  apply NoDup_fmap_2; [|apply NoDup_seq]. intros i j. unfold PAGE_SIZE. lia.
Qed.

Lemma alloc_pages_ok s l n p s' :
  ok s l -> 0 <= n < 2 ^ 25 -> alloc_pages n s = (p, s') -> p <> 0 ->
  ok s' l
  /\ (forall q, owned s' l q <-> owned s l q \/ q ∈ pages p (Z.to_nat n))
  /\ (forall q, q ∈ pages p (Z.to_nat n) -> ~ pool s q)
  /\ (forall a, page_of a ∉ pages p (Z.to_nat n) -> word (mem s') a = word (mem s) a)
  /\ (forall a, a mod 8 = 0 -> page_of a ∈ pages p (Z.to_nat n) -> word (mem s') a = 0)
  /\ free_after_use s' = free_after_use s
  /\ high_half s' = high_half s /\ pmm_start s' = pmm_start s
  /\ free_next s' = free_next s + PAGE_SIZE * n.
Proof.
  intros Hok Hn. pose proof Hok as [[Hs Hsa Hne Hna Ht] Hc Hnd Hp Hr]. unfold alloc_pages.
  destruct (Z.eqb_spec n 0); [rewrite pair_equal_spec; intros [<- _]; done|].
  rewrite (uwrap_small 64) by (unfold PAGE_SIZE; lia).
  destruct (Z.ltb_spec (free_top s) (free_next s + n * PAGE_SIZE)) as [|Hroom];
    rewrite pair_equal_spec; intros [<- <-] Hp0; [done|].
  rewrite usable_off in * by lia. change (off (set_bump s _ _)) with (off s) in *.
  set (p := free_next s + off s) in *.
  assert (aligned p) as Hpa by (apply aligned_add; [done|apply off_aligned]).
  assert (0 <= off s) by (unfold off; destruct (high_half s); unfold KVA_OFFSET; lia).
  assert (forall q, q ∈ pages p (Z.to_nat n) -> ~ pool s q) as Hnew.
  { intros q (i & Hi & ->)%elem_of_pages (_ & Hq). subst p. unfold PAGE_SIZE in *. lia. }
  set (s' := set_bump s (free_next s + n * PAGE_SIZE) (u32 (pages_taken s + n))).
  assert (forall q, pool s q \/ q ∈ pages p (Z.to_nat n) <-> pool s' q) as Hpool.
  { intros q. rewrite elem_of_pages. unfold pool. subst s'. cbn [free_next pmm_start set_bump].
    change (off (set_bump s _ _)) with (off s). unfold aligned in *. split.
    - intros [(? & ?)|(i & Hi & ->)]; split; try done; subst p; unfold PAGE_SIZE in *; zdm.
    - intros (Hqa & Hq). destruct (decide (q < p)) as [|Hge]; [left; subst p; lia|right].
      exists ((q - p) / PAGE_SIZE). subst p. unfold PAGE_SIZE in *. zdm. }
  assert (forall a, in_words p (Z.to_nat (n * PAGE_SIZE / 8)) a
            <-> a mod 8 = 0 /\ page_of a ∈ pages p (Z.to_nat n)) as Hw.
  { intros a. unfold in_words, page_of. rewrite elem_of_pages. unfold aligned, PAGE_SIZE in *. split.
    - intros (i & Hi & ->). split; [zdm|]. exists (8 * i / 4096). zdm.
    - intros (Ha & i & Hi & He). exists ((a - p) / 8). zdm. }
  split; [split; cbn; try done|].
  - split; cbn; try done; [unfold PAGE_SIZE in *; lia|]. by apply aligned_shift.
  - eapply chain_frame; [|exact Hc]. intros q Hq. rewrite Forall_forall in Hp.
    pose proof (Hp q Hq) as Hqp. pose proof (proj1 Hqp) as Hqa.
    split; apply word_fill_out; rewrite Hw; intros (_ & Hin); revert Hin;
      [rewrite page_of_0 by done|rewrite page_of_8 by done]; intros Hin; by apply (Hnew _ Hin).
  - eapply Forall_impl; [exact Hp|]. intros q Hq. apply Hpool. by left.
  - split; [intros q; unfold owned; pose proof (Hpool q) as Hq; subst s'; unfold pool in *; cbn in *|].
    { rewrite Forall_forall in Hp. pose proof (Hnew q) as Hnq. pose proof (Hp q) as Hpq.
      unfold pool in *. tauto. }
    split; [done|]. split; [intros a Ha; apply word_fill_out; rewrite Hw; tauto|].
    split; [intros a Ha Hb; apply word_fill_in; rewrite Hw; tauto|]. cbn. repeat split; try done. lia.
Qed.

(** ** Owners

    A run of the kernel as the allocator sees it: pages are taken, given back
    by whoever holds them, and written by whoever holds them. *)
Inductive client : pmm * gset Z -> pmm * gset Z -> Prop :=
  | client_alloc s h p s' :
      alloc_page s = (p, s') -> p <> 0 -> client (s, h) (s', {[p]} ∪ h)
  | client_alloc_pages s h n p s' :
      0 <= n < 2 ^ 25 -> alloc_pages n s = (p, s') -> p <> 0 ->
      client (s, h) (s', pages p (Z.to_nat n) ∪ h)
  | client_free s h p : p ∈ h -> client (s, h) (free_page s p, h ∖ {[p]})
  | client_write s h a v :
      page_of a ∈ h -> client (s, h) (set_mem s (store (mem s) a v), h).

(** The allocator just after [pmm_init], nothing taken. *)
Definition fresh (s : pmm) : Prop :=
  geometry s /\ free_next s = pmm_start s /\ free_list s = 0 /\ pages_returned s = 0
  /\ free_after_use s = 0.

Record consistent (s : pmm) (h : gset Z) (l : list Z) : Prop := {
  con_ok : ok s l;
  con_held : forall p, p ∈ h <-> owned s l p;
  con_touch : free_after_use s = 0;
  con_count : PAGE_SIZE * (Z.of_nat (size h) + zlen l) = free_next s - pmm_start s
}.

Lemma consistent_step s h l s' h' :
  consistent s h l -> client (s, h) (s', h') -> exists l', consistent s' h' l'.
Proof.
  intros [Hok Hh Ht Hc] Hcl. inversion Hcl as [? ? p ? Ha Hp|? ? n p ? Hn Ha Hp|? ? p Hp|? ? a v Ha];
    subst; clear Hcl.
  - destruct (alloc_page_ok _ _ _ _ Hok Ha) as [(-> & _)|(l' & ? & ? & Hno & Hown & _ & _ & Hf & _ & Hst & Hnx)];
      [done|].
    assert (p ∉ h) by (rewrite Hh; done).
    exists l'. split; [done| |congruence|].
    + intros q. rewrite Hown, elem_of_union, elem_of_singleton, <- Hh. tauto.
    + rewrite size_union, size_singleton by (by apply disjoint_singleton_l). unfold zlen in *. lia.
  - destruct (alloc_pages_ok _ _ _ _ _ Hok Hn Ha Hp) as (? & Hown & Hno & _ & _ & Hf & _ & Hst & Hnx).
    assert (pages p (Z.to_nat n) ## h) as Hd.
    { intros q Hq Hqh. apply (Hno q Hq). apply Hh in Hqh. apply Hqh. }
    exists l. split; [done| |congruence|].
    + intros q. rewrite Hown, elem_of_union, <- Hh. tauto.
    + rewrite size_union, size_pages by done. unfold zlen, PAGE_SIZE in *. lia.
  - pose proof (proj1 (Hh p) Hp) as Hpo.
    destruct (free_page_ok _ _ Hok p Hpo) as (? & Hown & _ & Hf).
    exists (p :: l). split; [done| |congruence|].
    + intros q. rewrite Hown, elem_of_difference, elem_of_singleton, <- Hh. tauto.
    + assert (free_next (free_page s p) = free_next s /\ pmm_start (free_page s p) = pmm_start s) as [-> ->].
      { unfold free_page. by destruct (p =? 0). }
      assert (size h = S (size (h ∖ {[p]}))) as Hsz.
      { rewrite (union_difference_singleton_L p h) at 1 by done.
        rewrite size_union, size_singleton by (apply disjoint_difference_r1; done). done. }
      rewrite zlen_cons. lia.
  - exists l. split; [|done..]. apply write_ok; [done|]. by apply Hh.
Qed.

Lemma fresh_consistent s : fresh s -> consistent s ∅ [].
Proof.
  intros (Hg & Hn & Hl & Hr & Ht). split; [split; try done| |done|].
  - apply NoDup_nil_2.
  - intros p. split; [set_solver|]. intros [(_ & Hp) _]. lia.
  - rewrite size_empty. unfold zlen. cbn [length]. lia.
Qed.

Lemma reachable_consistent s0 s h :
  fresh s0 -> rtc client (s0, ∅) (s, h) -> exists l, consistent s h l.
Proof.
  intros Hf Hr.
  apply (rtc_inv client (fun st => exists l, consistent st.1 st.2 l) (s0, ∅) (s, h)); [|exists []|done].
  - intros [s1 h1] [s2 h2] (l & Hl) Hs. by eapply consistent_step.
  - by apply fresh_consistent.
Qed.

(** C2: a page is never in two hands.  After any history of allocations, frees
    by holders and writes by holders, the page [alloc_page] returns is held by
    nobody, lies on a page boundary of the managed memory and reads as zero,
    taking it changes no word of anybody's page, the write-after-free detector
    has raised no false alarm, and no page is lost: held and free pages
    together are every page the bump pointer ever passed. *)
Theorem pmm_exclusive s0 s h p s' :
  fresh s0 -> rtc client (s0, ∅) (s, h) -> alloc_page s = (p, s') -> p <> 0 ->
  (p ∉ h) /\ pool s' p
  /\ (forall a, in_words p 512 a -> word (mem s') a = 0)
  /\ (forall a, page_of a ∈ h -> word (mem s') a = word (mem s) a)
  /\ free_after_use s' = 0
  /\ PAGE_SIZE * (Z.of_nat (size h) + pages_returned s) = free_next s - pmm_start s.
Proof.
  intros Hf Hr Ha Hp. destruct (reachable_consistent _ _ _ Hf Hr) as (l & [Hok Hh Ht Hc]).
  destruct (alloc_page_ok _ _ _ _ Hok Ha) as [(-> & _)|(l' & Hok' & _ & Hno & Hown & Hz & Hfr & Hfu & _)];
    [done|].
  split; [by rewrite Hh|]. split; [apply Hown; by right|]. split; [done|].
  split; [|split; [congruence|]].
  - intros a Ha'. apply Hfr. intros <-. apply Hno. by apply Hh.
  - rewrite (ok_count _ _ Hok), uwrap_small; [done|].
    destruct (ok_geo _ _ Hok) as [? ? ? ? ?]. pose proof (zlen_nonneg l). unfold PAGE_SIZE in *. lia.
Qed.

(** A machine with sixteen pages. *)
Definition small : pmm := Pmm false 0x1000 0x1000 0x11000 0 0 0 0 None 0 0 ∅.

Lemma pmm_exclusive_witness :
  let s1 := (alloc_page small).2 in
  let s2 := (alloc_page s1).2 in
  let s3 := free_page s2 0x1000 in
  alloc_page s3 = (0x1000, (alloc_page s3).2) /\ 0x1000 ∉ (({[0x2000]} : gset Z)).
Proof.
  intros s1 s2 s3.
  assert (alloc_page s3 = (0x1000, (alloc_page s3).2)) as Ha by (vm_compute; reflexivity).
  split; [exact Ha|].
  refine (proj1 (pmm_exclusive small s3 {[0x2000]} 0x1000 (alloc_page s3).2 _ _ Ha _)); [| |done].
  - repeat split; try done; cbn; lia.
  - eapply rtc_l; [apply (client_alloc small ∅ 0x1000 s1); vm_compute; [reflexivity|done]|].
    eapply rtc_l; [apply (client_alloc s1 _ 0x2000 s2); vm_compute; [reflexivity|done]|].
    eapply rtc_once. replace ({[0x2000]} : gset Z) with (({[0x2000]} ∪ ({[0x1000]} ∪ ∅)) ∖ {[0x1000]} : gset Z).
    + apply client_free. vm_compute. reflexivity.
    + vm_compute. reflexivity.
Defined.

(** ** The reference counts *)
Record refs_ok (s : pmm) (r : list Z) : Prop := {
  ro_refs : refs s = Some r; ro_len : zlen r = refs_pages s; ro_bytes : bytes_ok r
}.

(** A page the table covers. *)
Definition counted (s : pmm) (pa i : Z) : Prop := refs_index s pa = Some i.

Lemma refs_index_range s pa i : refs_index s pa = Some i -> 0 <= i < refs_pages s.
Proof.
  unfold refs_index, PAGE_SIZE. destruct (refs s); [|done].
  destruct (Z.ltb_spec pa (refs_base s)); [done|].
  destruct (Z.ltb_spec ((pa - refs_base s) / 4096) (refs_pages s)); [|done]. intros [= <-].
  split; [apply Z.div_pos; lia|done].
Qed.

Lemma set_ref_ok s r i v :
  refs_ok s r -> 0 <= i < refs_pages s -> is_byte v ->
  refs_ok (set_ref s i v) (splice r i [v])
  /\ (forall j, 0 <= j -> ref_at (set_ref s i v) j = if j =? i then v else ref_at s j)
  /\ (forall pa, refs_index (set_ref s i v) pa = refs_index s pa).
Proof.
  intros [Hr Hl Hb] Hi Hv. unfold set_ref, ref_at, refs_index, set_refs. simpl. rewrite Hr. simpl.
  split; [split; cbn; try done|split; [|done]].
  - rewrite zlen_splice; [done|lia|]. change (zlen [v]) with 1. lia.
  - apply splice_bytes; [done|]. by constructor.
  - intros j Hj. zsplit.
    + subst. rewrite at_splice_in; change (zlen [v]) with 1; try lia. by rewrite Z.sub_diag.
    + rewrite at_splice_out; change (zlen [v]) with 1; try lia.
Qed.

Lemma ref_at_byte s r i : refs_ok s r -> is_byte (ref_at s i).
Proof. intros [Hr _ Hb]. unfold ref_at. rewrite Hr. by apply at_byte. Qed.

(** The table counts holders.  For a page it covers, taking a share adds
    one holder (up to 256), letting go answers with exactly the number of
    holders that remain, so 0 is the signal to free, and neither touches the
    count of any other page. *)
Theorem page_refs_count s r pa i :
  refs_ok s r -> counted s pa i ->
  (page_count s pa < 256 -> page_count (page_ref s pa) pa = page_count s pa + 1)
  /\ fst (page_unref s pa) = page_count s pa - 1
  /\ page_count (snd (page_unref s pa)) pa = Z.max 1 (page_count s pa - 1)
  /\ forall pb j, counted s pb j -> j <> i ->
       page_count (page_ref s pa) pb = page_count s pb
       /\ page_count (snd (page_unref s pa)) pb = page_count s pb.
Proof.
  unfold counted. intros Hok Hi. pose proof (refs_index_range _ _ _ Hi) as Hir.
  pose proof (ref_at_byte s r i Hok) as Hby. unfold is_byte in Hby.
  assert (forall v, is_byte v -> page_count (set_ref s i v) pa = if v =? 0 then 1 else v + 1) as Hset.
  { intros v Hv. destruct (set_ref_ok s r i v Hok Hir Hv) as (_ & Hat & Hix).
    unfold page_count. rewrite Hix, Hi, Hat by lia. by rewrite Z.eqb_refl. }
  assert (forall v pb j, is_byte v -> refs_index s pb = Some j -> j <> i ->
            page_count (set_ref s i v) pb = page_count s pb) as Hne.
  { intros v pb j Hv Hj Hji. destruct (set_ref_ok s r i v Hok Hir Hv) as (_ & Hat & Hix).
    pose proof (refs_index_range _ _ _ Hj). unfold page_count. rewrite Hix, Hj, Hat by lia. by rewrite (proj2 (Z.eqb_neq j i)) by lia. }
  unfold page_ref, page_unref, page_count at 1 3 4 6. rewrite Hi.
  assert (ref_at s i < 255 -> is_byte (ref_at s i + 1)) by (unfold is_byte; lia).
  assert (0 < ref_at s i -> is_byte (ref_at s i - 1)) by (unfold is_byte; lia).
  repeat split.
  - intros Hc. zsplit; rewrite Hset by auto; by zsplit; lia.
  - destruct (Z.ltb_spec 0 (ref_at s i)); zsplit; cbn [fst snd]; try lia.
    destruct (set_ref_ok s r i (ref_at s i - 1) Hok Hir) as (_ & Hat & _); [auto|].
    rewrite Hat, Z.eqb_refl by lia. lia.
  - destruct (Z.ltb_spec 0 (ref_at s i)); cbn [fst snd].
    + rewrite Hset by auto. zsplit; lia.
    + unfold page_count. rewrite Hi. zsplit; lia.
  - zsplit; [|done]. eapply Hne; eauto.
  - destruct (Z.ltb_spec 0 (ref_at s i)); cbn [fst snd]; [|done]. eapply Hne; eauto.
Qed.

Lemma page_refs_count_witness :
  let s := set_refs small (Some [0; 1; 0]) 0x1000 3 in
  page_count s 0x2000 = 2 /\ page_count (page_ref s 0x2000) 0x2000 = 3.
Proof.
  intros s. split; [reflexivity|].
  refine (proj1 (page_refs_count s [0; 1; 0] 0x2000 1 _ _) _); [|reflexivity|vm_compute; reflexivity].
  split; [done..|cbytes].
Defined.
