(* ===== verification/Vm.v ===== *)
(** * Address spaces

    [stam/vm.c]: the three-level page tables of a process, written through the
    kernel's window onto physical memory.  [translate] is the reference, what
    the hardware's walk answers; the theorems say what each operation does to
    it: splitting a block changes nothing, mapping a page changes that page
    alone, a check that passes means every byte is the program's, and a write
    to a shared page gives its writer a private copy. *)
From S2P Require Import Prelude Bytes Mem Pmm.

(** ** The descriptors *)
Definition D_TABLE : Z := 0x3.
Definition D_BLOCK : Z := 0x1.
Definition D_PAGE : Z := 0x3.
Definition D_VALID : Z := 0x1.
Definition D_AF : Z := Z.shiftl 1 10.
Definition D_SH_INNER : Z := Z.shiftl 3 8.
Definition D_AP_EL0 : Z := Z.shiftl 1 6.
Definition D_PXN : Z := Z.shiftl 1 53.
Definition D_UXN : Z := Z.shiftl 1 54.
Definition ATTR_NORMAL : Z := 1.
Definition D_AP_RO : Z := Z.shiftl 1 7.
Definition ADDR_MASK : Z := 0x0000fffffffff000.
Definition USER_LIMIT : Z := Z.shiftl 1 39.

(** [x & ~y] *)
Definition clear (x y : Z) : Z := Z.ldiff x y.

(** The allocator and memory, and the table this processor is filling in. *)
Record vm := Vm { pm : pmm; user_table_kva : Z; l1_user : Z }.

Definition set_pm (s : vm) (p : pmm) : vm := Vm p (user_table_kva s) (l1_user s).
Definition wordv (s : vm) (a : Z) : Z := word (mem (pm s)) a.
Definition storev (s : vm) (a v : Z) : vm := set_pm s (set_mem (pm s) (store (mem (pm s)) a v)).

Definition mmu_current_user_table_kva (s : vm) : Z :=
  if negb (user_table_kva s =? 0) then user_table_kva s else l1_user s.
Definition mmu_set_current_user_table_kva (s : vm) (t : Z) : vm := Vm (pm s) t (l1_user s).

Definition alloc (s : vm) : Z * vm := let '(p, m) := alloc_page (pm s) in (p, set_pm s m).
Definition free (s : vm) (p : Z) : vm := set_pm s (free_page (pm s) p).

(** [&tbl[i]] *)
Definition slot (tbl i : Z) : Z := tbl + 8 * i.
Definition i1 (va : Z) : Z := Z.land (Z.shiftr va 30) 511.
Definition i2 (va : Z) : Z := Z.land (Z.shiftr va 21) 511.
Definition i3 (va : Z) : Z := Z.land (Z.shiftr va 12) 511.

Definition table_at (desc : Z) : Z := phys_to_kva (Z.land desc ADDR_MASK).

(** ** Filling in tables *)

(** The [for] loop of [split] over a valid descriptor: entries [i ..]. *)
Fixpoint split_loop (m : memory) (tbl base attrs child_size : Z) (i : Z) (n : nat) : memory :=
  match n with
  | O => m
  | S n =>
      let d := Z.lor (Z.lor (base + i * child_size) attrs)
                 (if child_size =? 4096 then D_PAGE else D_BLOCK) in
      split_loop (store m (slot tbl i) d) tbl base attrs child_size (i + 1) n
  end.

(** [split]; [0] is the null pointer. *)
Definition split (s : vm) (sl child_size : Z) : Z * vm :=
  let old := wordv s sl in
  let '(tbl, s) := alloc s in
  if tbl =? 0 then (0, s) else
  let s :=
    if negb (Z.land old D_VALID =? 0) then
      let base := Z.land (clear old (child_size * 512 - 1)) ADDR_MASK in
      let attrs := clear (clear old ADDR_MASK) 3 in
      set_pm s (set_mem (pm s) (split_loop (mem (pm s)) tbl base attrs child_size 0 512))
    else set_pm s (set_mem (pm s) (fill (mem (pm s)) tbl 0 512)) in
  (tbl, storev s sl (Z.lor (kva_to_phys (pm s) tbl) D_TABLE)).

Definition descend (s : vm) (tbl idx child_size : Z) : Z * vm :=
  let d := wordv s (slot tbl idx) in
  if Z.land d 3 =? D_TABLE then (table_at d, s) else split s (slot tbl idx) child_size.

(** [map_user_page_raw]; [true] is the code's [0]. *)
Definition map_user_page_raw (s : vm) (va desc : Z) : bool * vm :=
  let l1 := mmu_current_user_table_kva s in
  if l1 =? 0 then (false, s) else
  let '(l2, s) := descend s l1 (i1 va) (Z.shiftl 1 21) in
  if l2 =? 0 then (false, s) else
  let '(l3, s) := descend s l2 (i2 va) 4096 in
  if l3 =? 0 then (false, s) else
  (true, storev s (slot l3 (i3 va)) desc).

Definition user_desc (pa : Z) (executable : bool) : Z :=
  let d := Z.lor (Z.lor (Z.lor (Z.lor (Z.lor (Z.lor (Z.land pa ADDR_MASK) D_PAGE) D_AF) D_SH_INNER)
             (Z.shiftl ATTR_NORMAL 2)) D_AP_EL0) D_PXN in
  if executable then d else Z.lor d D_UXN.

Definition map_user_page (s : vm) (va page : Z) (executable : bool) : bool * vm :=
  map_user_page_raw s va (user_desc (kva_to_phys (pm s) page) executable).

(** ** Faults on shared pages *)
Definition vm_cow_fault (s : vm) (va : Z) : bool * vm :=
  let l1 := mmu_current_user_table_kva s in
  if l1 =? 0 then (false, s) else
  let d1 := wordv s (slot l1 (i1 va)) in
  if negb (Z.land d1 3 =? D_TABLE) then (false, s) else
  let l2 := table_at d1 in
  let d2 := wordv s (slot l2 (i2 va)) in
  if negb (Z.land d2 3 =? D_TABLE) then (false, s) else
  let l3 := table_at d2 in
  let sl := slot l3 (i3 va) in
  let d := wordv s sl in
  if negb (Z.land d 3 =? D_PAGE) then (false, s) else
  if Z.land d D_AP_EL0 =? 0 then (false, s) else
  if Z.land d D_AP_RO =? 0 then (false, s) else
  let pa := Z.land d ADDR_MASK in
  if 1 <? page_count (pm s) pa then
    let '(fresh, s) := alloc s in
    if fresh =? 0 then (false, s) else
    let s := set_pm s (set_mem (pm s) (copy (mem (pm s)) fresh (phys_to_kva pa) 512)) in
    let s := set_pm s (page_unref (pm s) pa).2 in
    (true, storev s sl (Z.lor (Z.land (kva_to_phys (pm s) fresh) ADDR_MASK)
                              (clear (clear d ADDR_MASK) D_AP_RO)))
  else (true, storev s sl (clear d D_AP_RO)).

(** ** Is this address the caller's? *)

(** The slot of the leaf descriptor and the size it covers. *)
Definition walk_to_leaf (s : vm) (va : Z) : option (Z * Z) :=
  let l1 := mmu_current_user_table_kva s in
  if l1 =? 0 then None else
  let d1 := wordv s (slot l1 (i1 va)) in
  if Z.land d1 3 =? D_BLOCK then Some (slot l1 (i1 va), Z.shiftl 1 30) else
  if negb (Z.land d1 3 =? D_TABLE) then None else
  let l2 := table_at d1 in
  let d2 := wordv s (slot l2 (i2 va)) in
  if Z.land d2 3 =? D_BLOCK then Some (slot l2 (i2 va), Z.shiftl 1 21) else
  if negb (Z.land d2 3 =? D_TABLE) then None else
  let sl := slot (table_at d2) (i3 va) in
  if negb (Z.land (wordv s sl) 3 =? D_PAGE) then None else Some (sl, 4096).

(** The loop of [vm_user_ok] from page [p]; [None]: the fuel ran out. *)
Fixpoint user_ok_loop (fuel : nat) (s : vm) (p end_ : Z) (write : bool) : option (bool * vm) :=
  if negb (p <? end_) then Some (true, s) else
  match fuel with
  | O => None
  | S fuel =>
      match walk_to_leaf s p with
      | None => Some (false, s)
      | Some (sl, size) =>
          let d := wordv s sl in
          if Z.land d D_VALID =? 0 then Some (false, s) else
          if Z.land d D_AP_EL0 =? 0 then Some (false, s) else
          let next := u64 (clear p (size - 1) + size) in
          if write && negb (Z.land d D_AP_RO =? 0) then
            let '(fixed, s) := vm_cow_fault s p in
            if negb fixed then Some (false, s) else
            if negb (Z.land (wordv s sl) D_AP_RO =? 0) then Some (false, s) else
            user_ok_loop fuel s next end_ write
          else user_ok_loop fuel s next end_ write
      end
  end.

Definition vm_user_ok (fuel : nat) (s : vm) (va len : Z) (write : bool) : option (bool * vm) :=
  if len =? 0 then Some (true, s) else
  if u64 (va + len) <? va then Some (false, s) else
  if (USER_LIMIT <=? va) || (USER_LIMIT <? u64 (va + len)) then Some (false, s) else
  user_ok_loop fuel s (clear va 4095) (u64 (va + len)) write.

(** ** Whole spaces *)
Definition vm_new_space (s : vm) : Z * vm :=
  let '(l1, s) := alloc s in
  if l1 =? 0 then (0, s) else
  (l1, set_pm s (set_mem (pm s) (fill (mem (pm s)) l1 0 512))).

Definition cow_share (s : vm) (sl : Z) : Z * vm :=
  let d := wordv s sl in
  let s := storev s sl (Z.lor d D_AP_RO) in
  let s := set_pm s (page_ref (pm s) (Z.land d ADDR_MASK)) in
  (wordv s sl, s).

(** The three nested loops of [vm_copy_space], innermost first; [false] is the
    early return. *)
Fixpoint copy_l3 (s : vm) (a1 a2 l3 : Z) (i : Z) (n : nat) : bool * vm :=
  match n with
  | O => (true, s)
  | S n =>
      let d := wordv s (slot l3 i) in
      if negb (Z.land d 3 =? D_PAGE) then copy_l3 s a1 a2 l3 (i + 1) n else
      let va := Z.lor (Z.lor (Z.shiftl a1 30) (Z.shiftl a2 21)) (Z.shiftl i 12) in
      let '(shared, s) := cow_share s (slot l3 i) in
      let '(mapped, s) := map_user_page_raw s va shared in
      if negb mapped then (false, s) else copy_l3 s a1 a2 l3 (i + 1) n
  end.

Fixpoint copy_l2 (s : vm) (a1 l2 : Z) (i : Z) (n : nat) : bool * vm :=
  match n with
  | O => (true, s)
  | S n =>
      let d := wordv s (slot l2 i) in
      if negb (Z.land d 3 =? D_TABLE) then copy_l2 s a1 l2 (i + 1) n else
      let '(go, s) := copy_l3 s a1 i (table_at d) 0 512 in
      if negb go then (false, s) else copy_l2 s a1 l2 (i + 1) n
  end.

Fixpoint copy_l1 (s : vm) (src : Z) (i : Z) (n : nat) : bool * vm :=
  match n with
  | O => (true, s)
  | S n =>
      let d := wordv s (slot src i) in
      if negb (Z.land d 3 =? D_TABLE) then copy_l1 s src (i + 1) n else
      let '(go, s) := copy_l2 s i (table_at d) 0 512 in
      if negb go then (false, s) else copy_l1 s src (i + 1) n
  end.

Definition vm_copy_space (s : vm) (src : Z) : Z * vm :=
  let '(dst, s) := vm_new_space s in
  if dst =? 0 then (0, s) else
  let saved := mmu_current_user_table_kva s in
  let s := mmu_set_current_user_table_kva s dst in
  let '(done_, s) := copy_l1 s src 0 512 in
  let s := mmu_set_current_user_table_kva s saved in
  if done_ then (dst, s) else (0, s).

Fixpoint free_l3 (s : vm) (l3 : Z) (i : Z) (n : nat) : vm :=
  match n with
  | O => s
  | S n =>
      let d := wordv s (slot l3 i) in
      if Z.land d 3 =? D_PAGE then
        let pa := Z.land d ADDR_MASK in
        let '(left_, p) := page_unref (pm s) pa in
        let s := set_pm s p in
        free_l3 (if left_ =? 0 then free s (phys_to_kva pa) else s) l3 (i + 1) n
      else free_l3 s l3 (i + 1) n
  end.

Fixpoint free_l2 (s : vm) (l2 : Z) (i : Z) (n : nat) : vm :=
  match n with
  | O => s
  | S n =>
      let d := wordv s (slot l2 i) in
      if negb (Z.land d 3 =? D_TABLE) then free_l2 s l2 (i + 1) n else
      let l3 := table_at d in
      free_l2 (free (free_l3 s l3 0 512) l3) l2 (i + 1) n
  end.

Fixpoint free_l1 (s : vm) (l1 : Z) (i : Z) (n : nat) : vm :=
  match n with
  | O => s
  | S n =>
      let d := wordv s (slot l1 i) in
      if negb (Z.land d 3 =? D_TABLE) then free_l1 s l1 (i + 1) n else
      let l2 := table_at d in
      free_l1 (free (free_l2 s l2 0 512) l2) l1 (i + 1) n
  end.

Definition vm_free_space (s : vm) (l1 : Z) : vm :=
  if l1 =? 0 then s else free (free_l1 s l1 0 512) l1.

(** ** Descriptors as arithmetic *)
Lemma land_ADDR_MASK x : Z.land x ADDR_MASK = x / 4096 mod 2 ^ 36 * 4096.
Proof.
  change ADDR_MASK with (Z.shiftl (Z.ones 36) 12). change 4096 with (2 ^ 12).
  rewrite <- (Z.shiftl_mul_pow2 (_ mod _)), <- Z.land_ones, <- Z.shiftr_div_pow2 by lia.
  apply Z.bits_inj'. intros i Hi. rewrite Z.land_spec. destruct (decide (i < 12)).
  - rewrite !Z.shiftl_spec_low by lia. apply andb_false_r.
  - rewrite !Z.shiftl_spec_high, Z.land_spec, Z.shiftr_spec by lia. do 2 f_equal. lia.
Qed.

Lemma land_3 x : Z.land x 3 = x mod 4.
Proof. apply (Z.land_ones x 2). lia. Qed.
Lemma land_511 x : Z.land x 511 = x mod 512.
Proof. apply (Z.land_ones x 9). lia. Qed.
Lemma land_1 x : Z.land x D_VALID = x mod 2.
Proof. apply (Z.land_ones x 1). lia. Qed.

Lemma i1_div va : i1 va = va / 2 ^ 30 mod 512.
Proof. unfold i1. by rewrite land_511, Z.shiftr_div_pow2. Qed.
Lemma i2_div va : i2 va = va / 2 ^ 21 mod 512.
Proof. unfold i2. by rewrite land_511, Z.shiftr_div_pow2. Qed.
Lemma i3_div va : i3 va = va / 2 ^ 12 mod 512.
Proof. unfold i3. by rewrite land_511, Z.shiftr_div_pow2. Qed.
Lemma i1_range va : 0 <= i1 va < 512.
Proof. rewrite i1_div. apply Z.mod_pos_bound. lia. Qed.
Lemma i2_range va : 0 <= i2 va < 512.
Proof. rewrite i2_div. apply Z.mod_pos_bound. lia. Qed.
Lemma i3_range va : 0 <= i3 va < 512.
Proof. rewrite i3_div. apply Z.mod_pos_bound. lia. Qed.

Lemma clear_ones x n : 0 <= n -> clear x (2 ^ n - 1) = x - x mod 2 ^ n.
Proof.
  intros Hn. unfold clear. replace (2 ^ n - 1) with (Z.ones n) by (rewrite Z.ones_equiv; lia).
  rewrite Z.ldiff_ones_r, Z.shiftl_mul_pow2, Z.shiftr_div_pow2 by lia.
  pose proof (Z.div_mod x (2 ^ n)). pose proof (Z.pow_pos_nonneg 2 n). lia.
Qed.

(** The attribute bits of a descriptor: neither address nor type. *)
Definition attrs (d : Z) : Z := clear (clear d ADDR_MASK) 3.

(** What the hardware makes of a leaf descriptor covering [size] bytes. *)
Definition leaf (d size va : Z) : Z * Z :=
  (Z.land d ADDR_MASK / size * size + va mod size, attrs d).

(** The hardware's walk: the physical address and the attributes. *)
Definition translate (m : memory) (root va : Z) : option (Z * Z) :=
  let d1 := word m (slot root (i1 va)) in
  if Z.land d1 3 =? D_BLOCK then Some (leaf d1 (2 ^ 30) va) else
  if negb (Z.land d1 3 =? D_TABLE) then None else
  let d2 := word m (slot (table_at d1) (i2 va)) in
  if Z.land d2 3 =? D_BLOCK then Some (leaf d2 (2 ^ 21) va) else
  if negb (Z.land d2 3 =? D_TABLE) then None else
  let d3 := word m (slot (table_at d2) (i3 va)) in
  if negb (Z.land d3 3 =? D_PAGE) then None else Some (leaf d3 4096 va).

Lemma attrs_bits d i :
  0 <= i -> Z.testbit (attrs d) i = Z.testbit d i && negb (Z.testbit ADDR_MASK i) && negb (Z.testbit 3 i).
Proof. intros. unfold attrs, clear. by rewrite !Z.ldiff_spec. Qed.

Lemma attrs_lor a b : attrs (Z.lor a b) = Z.lor (attrs a) (attrs b).
Proof.
  apply Z.bits_inj'. intros i Hi. rewrite Z.lor_spec, !attrs_bits, Z.lor_spec by done.
  by destruct (Z.testbit a i), (Z.testbit b i), (Z.testbit ADDR_MASK i), (Z.testbit 3 i).
Qed.
Lemma attrs_idem d : attrs (attrs d) = attrs d.
Proof.
  apply Z.bits_inj'. intros i Hi. rewrite !attrs_bits by done.
  by destruct (Z.testbit d i), (Z.testbit ADDR_MASK i), (Z.testbit 3 i).
Qed.
Lemma land_attrs_mask d : Z.land (attrs d) ADDR_MASK = 0.
Proof.
  apply Z.bits_inj'. intros i Hi. rewrite Z.land_spec, attrs_bits, Z.bits_0 by done.
  by destruct (Z.testbit d i), (Z.testbit ADDR_MASK i), (Z.testbit 3 i).
Qed.
Lemma land_attrs_3 d : Z.land (attrs d) 3 = 0.
Proof.
  apply Z.bits_inj'. intros i Hi. rewrite Z.land_spec, attrs_bits, Z.bits_0 by done.
  by destruct (Z.testbit d i), (Z.testbit ADDR_MASK i), (Z.testbit 3 i).
Qed.

(** A page-aligned physical address is all address. *)
Definition phys_ok (p : Z) : Prop := 0 <= p < 2 ^ 48 /\ p mod 4096 = 0.

Lemma phys_mask p : phys_ok p -> Z.land p ADDR_MASK = p.
Proof. intros [Hp Ha]. rewrite land_ADDR_MASK. zdm. Qed.
Lemma phys_attrs p : phys_ok p -> attrs p = 0.
Proof.
  intros Hp. rewrite <- (phys_mask p Hp). apply Z.bits_inj'. intros i Hi.
  rewrite attrs_bits, Z.land_spec, Z.bits_0 by done.
  by destruct (Z.testbit p i), (Z.testbit ADDR_MASK i).
Qed.
Lemma phys_3 p : phys_ok p -> Z.land p 3 = 0.
Proof. intros [Hp Ha]. rewrite land_3. zdm. Qed.

(** A descriptor put together from its three parts. *)
Lemma compose_mask p a ty :
  phys_ok p -> 0 <= ty < 4 -> Z.land (Z.lor (Z.lor p (attrs a)) ty) ADDR_MASK = p.
Proof.
  intros Hp Ht. rewrite !Z.land_lor_distr_l, land_attrs_mask, phys_mask by done.
  rewrite (land_ADDR_MASK ty), Z.div_small by lia. by rewrite !Z.lor_0_r.
Qed.
Lemma compose_type p a ty :
  phys_ok p -> 0 <= ty < 4 -> Z.land (Z.lor (Z.lor p (attrs a)) ty) 3 = ty.
Proof.
  intros Hp Ht. rewrite !Z.land_lor_distr_l, land_attrs_3, phys_3 by done.
  rewrite !Z.lor_0_l, land_3. zdm.
Qed.
Lemma compose_attrs p a ty :
  phys_ok p -> 0 <= ty < 4 -> attrs (Z.lor (Z.lor p (attrs a)) ty) = attrs a.
Proof.
  intros Hp Ht. rewrite !attrs_lor, attrs_idem, phys_attrs by done. rewrite Z.lor_0_l.
  assert (attrs ty = 0) as ->; [|apply Z.lor_0_r].
  apply Z.bits_inj'. intros i Hi. rewrite attrs_bits, Z.bits_0 by done.
  destruct (decide (i < 2)).
  - assert (i = 0 \/ i = 1) as [-> | ->] by lia; by rewrite andb_false_r.
  - by rewrite (range_bits 2 ty) by lia.
Qed.

(** *** A pointer to a table, and the kernel's view of it *)
Definition kva_ok (p : Z) : Prop := aligned p /\ KVA_OFFSET <= p < KVA_OFFSET + 2 ^ 38.
Definition desc (p : Z) : Z := Z.lor (p - KVA_OFFSET) D_TABLE.

Lemma kva_phys p : kva_ok p -> phys_ok (p - KVA_OFFSET).
Proof. unfold kva_ok, phys_ok, aligned, PAGE_SIZE, KVA_OFFSET. intros [Ha Hp]. zdm. Qed.

Lemma desc_type p : kva_ok p -> Z.land (desc p) 3 = 3.
Proof.
  intros Hp%kva_phys. unfold desc. by rewrite Z.land_lor_distr_l, phys_3.
Qed.
Lemma table_at_desc p : kva_ok p -> table_at (desc p) = p.
Proof.
  intros Hp. pose proof (kva_phys p Hp) as Hq. unfold table_at, desc.
  rewrite Z.land_lor_distr_l, phys_mask by done. change (Z.land D_TABLE ADDR_MASK) with 0.
  rewrite Z.lor_0_r. unfold phys_to_kva. destruct Hp as [_ Hp].
  rewrite uwrap_small by (unfold KVA_OFFSET in *; lia). lia.
Qed.

(** ** The tables of a space, as a tree

    Node [[]] is the root, [[i]] the table of gigabyte [i], [[i; j]] the table
    of its [j]-th two megabytes. *)
Abbreviation tree := (gmap (list Z) Z).

Record space_ok (m : memory) (t : tree) : Prop := {
  so_inj k k' p : t !! k = Some p -> t !! k' = Some p -> k = k';
  so_kva k p : t !! k = Some p -> kva_ok p;
  so_parent k i p : t !! (k ++ [i]) = Some p ->
    (length k < 2)%nat /\ 0 <= i < 512 /\ is_Some (t !! k);
  so_child k p i : t !! k = Some p -> (length k < 2)%nat -> 0 <= i < 512 ->
    match t !! (k ++ [i]) with
    | Some q => word m (slot p i) = desc q
    | None => Z.land (word m (slot p i)) 3 <> 3
    end
}.

Lemma slot_page p i : kva_ok p -> 0 <= i < 512 -> page_of (slot p i) = p.
Proof. intros [Ha _] Hi. by apply page_of_in. Qed.

Lemma slot_inj p q i j :
  kva_ok p -> kva_ok q -> 0 <= i < 512 -> 0 <= j < 512 -> slot p i = slot q j -> p = q /\ i = j.
Proof.
  intros Hp Hq Hi Hj He. pose proof (slot_page p i Hp Hi) as H1. rewrite He in H1.
  rewrite slot_page in H1 by done. subst. unfold slot in He. lia.
Qed.

(** Only what is on the tables matters. *)
Lemma space_frame m m' t :
  space_ok m t ->
  (forall k p i, t !! k = Some p -> (length k < 2)%nat -> 0 <= i < 512 ->
     word m' (slot p i) = word m (slot p i)) ->
  space_ok m' t.
Proof.
  intros [Hi Hk Hp Hc] Hm. split; try done. intros k p i Hkp Hl Hir.
  specialize (Hc k p i Hkp Hl Hir). by rewrite (Hm k p i Hkp Hl Hir).
Qed.

Section walk.
Context (m : memory) (t : tree) (root : Z) (Hok : space_ok m t) (Hroot : t !! [] = Some root).

(** The hardware's walk, on the tree. *)
Definition walk (va : Z) : option (Z * Z) :=
  match t !! [i1 va] with
  | None =>
      let d1 := word m (slot root (i1 va)) in
      if Z.land d1 3 =? D_BLOCK then Some (leaf d1 (2 ^ 30) va) else None
  | Some l2 =>
      match t !! [i1 va; i2 va] with
      | None =>
          let d2 := word m (slot l2 (i2 va)) in
          if Z.land d2 3 =? D_BLOCK then Some (leaf d2 (2 ^ 21) va) else None
      | Some l3 =>
          let d3 := word m (slot l3 (i3 va)) in
          if negb (Z.land d3 3 =? D_PAGE) then None else Some (leaf d3 4096 va)
      end
  end.

Lemma child_1 va :
  match t !! [i1 va] with
  | Some q => word m (slot root (i1 va)) = desc q
  | None => Z.land (word m (slot root (i1 va))) 3 <> 3
  end.
Proof. apply (so_child m t Hok [] root (i1 va) Hroot); [simpl; lia|apply i1_range]. Qed.

Lemma child_2 va l2 :
  t !! [i1 va] = Some l2 ->
  match t !! [i1 va; i2 va] with
  | Some q => word m (slot l2 (i2 va)) = desc q
  | None => Z.land (word m (slot l2 (i2 va))) 3 <> 3
  end.
Proof. intros H. apply (so_child m t Hok [i1 va] l2 (i2 va) H); [simpl; lia|apply i2_range]. Qed.

Lemma translate_walk va : translate m root va = walk va.
Proof.
  unfold translate, walk. pose proof (child_1 va) as H1.
  destruct (t !! [i1 va]) as [l2|] eqn:E1.
  - pose proof (so_kva _ _ Hok _ _ E1) as Hk2. rewrite H1, desc_type, table_at_desc by done.
    change (3 =? D_BLOCK) with false. change (3 =? D_TABLE) with true. cbn [negb].
    pose proof (child_2 va l2 E1) as H2. destruct (t !! [i1 va; i2 va]) as [l3|] eqn:E2.
    + pose proof (so_kva _ _ Hok _ _ E2) as Hk3. rewrite H2, desc_type, table_at_desc by done. done.
    + destruct (Z.eqb_spec (Z.land (word m (slot l2 (i2 va))) 3) D_BLOCK); [done|].
      unfold D_TABLE. zsplit. done.
  - destruct (Z.eqb_spec (Z.land (word m (slot root (i1 va))) 3) D_BLOCK); [done|].
    unfold D_TABLE. zsplit. done.
Qed.
End walk.

(** Two memories that agree on the tables translate alike. *)
Lemma translate_frame m m' t root va :
  space_ok m t -> t !! [] = Some root ->
  (forall k p i, t !! k = Some p -> 0 <= i < 512 -> word m' (slot p i) = word m (slot p i)) ->
  translate m' root va = translate m root va.
Proof.
  intros Hok Hr Hm. assert (space_ok m' t) as Hok'.
  { eapply space_frame; [done|]. intros. by eapply Hm. }
  rewrite (translate_walk m t root Hok Hr), (translate_walk m' t root Hok' Hr). unfold walk.
  pose proof (i1_range va). pose proof (i2_range va). pose proof (i3_range va).
  rewrite (Hm _ _ _ Hr) by done.
  destruct (t !! [i1 va]) as [l2|] eqn:E1; [|done]. rewrite (Hm _ _ _ E1) by done.
  destruct (t !! [i1 va; i2 va]) as [l3|] eqn:E2; [|done]. by rewrite (Hm _ _ _ E2).
Qed.

(** *** What [split] writes *)
Lemma split_loop_out m tbl base at_ cs i n b :
  (forall j, i <= j < i + Z.of_nat n -> b <> slot tbl j) ->
  word (split_loop m tbl base at_ cs i n) b = word m b.
Proof.
  revert m i. induction n as [|n IH]; intros m i Hb; [done|]. cbn [split_loop].
  rewrite IH by (intros j Hj; apply Hb; lia). apply word_store_ne. apply Hb. lia.
Qed.

Lemma split_loop_in m tbl base at_ cs i n j :
  i <= j < i + Z.of_nat n ->
  word (split_loop m tbl base at_ cs i n) (slot tbl j)
  = Z.lor (Z.lor (base + j * cs) at_) (if cs =? 4096 then D_PAGE else D_BLOCK).
Proof.
  revert m i. induction n as [|n IH]; intros m i Hj; [lia|]. cbn [split_loop].
  destruct (decide (j = i)) as [->|].
  - rewrite split_loop_out by (intros k Hk; unfold slot; lia). apply word_store_eq.
  - apply IH. lia.
Qed.

(** The pieces of a block translate as the block did. *)
Lemma split_leaf d cs i va :
  cs = 2 ^ 21 \/ cs = 4096 -> 0 <= i < 512 -> va / cs mod 512 = i ->
  let base := Z.land (clear d (cs * 512 - 1)) ADDR_MASK in
  let d' := Z.lor (Z.lor (base + i * cs) (attrs d)) (if cs =? 4096 then D_PAGE else D_BLOCK) in
  leaf d' cs va = leaf d (cs * 512) va
  /\ Z.land d' 3 = (if cs =? 4096 then D_PAGE else D_BLOCK).
Proof.
  intros Hcs Hi Hva. cbn zeta.
  assert (Z.land (clear d (cs * 512 - 1)) ADDR_MASK
          = Z.land d ADDR_MASK / (cs * 512) * (cs * 512)) as Hbase.
  { destruct Hcs as [-> | ->].
    - change (2 ^ 21 * 512 - 1) with (2 ^ 30 - 1). change (2 ^ 21 * 512) with (2 ^ 30).
      rewrite clear_ones, !land_ADDR_MASK by lia. zdm.
    - change (4096 * 512 - 1) with (2 ^ 21 - 1). change (4096 * 512) with (2 ^ 21).
      rewrite clear_ones, !land_ADDR_MASK by lia. zdm. }
  rewrite Hbase. pose proof (land_ADDR_MASK d) as Hd.
  set (b := Z.land d ADDR_MASK) in *. clearbody b.
  assert (phys_ok (b / (cs * 512) * (cs * 512) + i * cs)) as Hp.
  { unfold phys_ok. destruct Hcs as [-> | ->]; zdm. }
  assert (0 <= (if cs =? 4096 then D_PAGE else D_BLOCK) < 4) as Ht by (by destruct (cs =? 4096)).
  split; [|by apply compose_type].
  unfold leaf. rewrite compose_mask, compose_attrs by done. f_equal.
  rewrite (land_ADDR_MASK d), <- Hd. clear Hbase Hd Hp. destruct Hcs as [-> | ->]; zdm.
Qed.

(** ** A space and the allocator that feeds it *)
Record wf (s : vm) (l : list Z) (t : tree) : Prop := {
  wf_pmm : ok (pm s) l;
  wf_high : high_half (pm s) = true;
  wf_space : space_ok (mem (pm s)) t;
  wf_own k p : t !! k = Some p -> owned (pm s) l p
}.

(** [s'] has the pages of [s] and perhaps more, and every word an owner in [s]
    has off the pages of [t] is as it was. *)
Record extends (s : vm) (l : list Z) (t : tree) (s' : vm) (l' : list Z) (t' : tree) : Prop := {
  ex_wf : wf s' l' t';
  ex_tree : t ⊆ t';
  ex_owned p : owned (pm s) l p -> owned (pm s') l' p;
  ex_new k p : t' !! k = Some p -> t !! k = None -> ~ owned (pm s) l p;
  ex_frame a : owned (pm s) l (page_of a) -> (forall k p, t !! k = Some p -> page_of a <> p) ->
    wordv s' a = wordv s a;
  ex_table : user_table_kva s' = user_table_kva s /\ l1_user s' = l1_user s
}.

Lemma pool_kva s p : geometry s -> high_half s = true -> pool s p -> kva_ok p.
Proof.
  intros [? ? ? ? ?] Hh (Ha & Hp). unfold off in Hp. rewrite Hh in Hp. split; [done|].
  unfold KVA_OFFSET in *. lia.
Qed.

Lemma extends_refl s l t : wf s l t -> extends s l t s l t.
Proof. intros. split; try done. intros. congruence. Qed.

Lemma extends_trans s1 l1 t1 s2 l2 t2 s3 l3 t3 :
  extends s1 l1 t1 s2 l2 t2 -> extends s2 l2 t2 s3 l3 t3 -> extends s1 l1 t1 s3 l3 t3.
Proof.
  intros [W1 T1 O1 N1 F1 [A1 B1]] [W2 T2 O2 N2 F2 [A2 B2]]. split; try done.
  - by etrans.
  - auto.
  - intros k p Hk Hn Ho. destruct (t2 !! k) as [q|] eqn:E.
    + assert (p = q) as -> by (pose proof (lookup_weaken _ _ _ _ E T2); congruence).
      by apply (N1 k q E Hn).
    + by apply (N2 k p Hk E), O1.
  - intros a Ha Hne. rewrite F2; [by apply F1|by apply O1|].
    intros k p Hk <-. destruct (t1 !! k) as [q|] eqn:E.
    + pose proof (lookup_weaken _ _ _ _ E T1) as Hq. rewrite Hk in Hq. simplify_eq. by eapply Hne.
    + by apply (N1 k _ Hk E).
  - split; congruence.
Qed.

(** Writing one entry of one of the tables. *)
Lemma store_slot_words m p i v q j :
  kva_ok p -> kva_ok q -> 0 <= i < 512 -> 0 <= j < 512 ->
  word (store m (slot p i) v) (slot q j) =
    if bool_decide (q = p /\ j = i) then v else word m (slot q j).
Proof.
  intros Hp Hq Hi Hj. rewrite word_store. case_bool_decide as E.
  - destruct E as [-> ->]. by rewrite Z.eqb_refl.
  - destruct (Z.eqb_spec (slot q j) (slot p i)) as [He|]; [|done].
    exfalso. apply E. by apply slot_inj.
Qed.

Lemma app_snoc_eq {A} (k k' : list A) i j : k ++ [i] = k' ++ [j] -> k = k' /\ i = j.
Proof. intros H. apply app_inj_tail in H. done. Qed.

#[global] Opaque split_loop.

Section split.
Context (s : vm) (l : list Z) (t : tree) (k : list Z) (p i cs : Z).
Context (Hwf : wf s l t) (Hk : t !! k = Some p) (Hi : 0 <= i < 512) (Hnone : t !! (k ++ [i]) = None).
Context (Hcs : (k = [] /\ cs = 2 ^ 21) \/ (length k = 1%nat /\ cs = 4096)).

Let old := wordv s (slot p i).
Let ty := if cs =? 4096 then D_PAGE else D_BLOCK.

Lemma no_below j : t !! ((k ++ [i]) ++ [j]) = None.
Proof.
  destruct (t !! ((k ++ [i]) ++ [j])) eqn:E; [|done].
  destruct (so_parent _ _ (wf_space _ _ _ Hwf) _ _ _ E) as (_ & _ & [? ?]). congruence.
Qed.

(** The new table and the memory after [split]. *)
Lemma split_words q s' :
  split s (slot p i) cs = (q, s') ->
  (q = 0 /\ s' = s) \/
  exists l', ok (pm s') l' /\ high_half (pm s') = true /\ q <> 0 /\ ~ owned (pm s) l q
    /\ (forall r, owned (pm s') l' r <-> owned (pm s) l r \/ r = q)
    /\ kva_ok q
    /\ wordv s' (slot p i) = desc q
    /\ (forall j, 0 <= j < 512 -> wordv s' (slot q j) =
          if negb (Z.land old D_VALID =? 0) then
            Z.lor (Z.lor (Z.land (clear old (cs * 512 - 1)) ADDR_MASK + j * cs) (attrs old)) ty
          else 0)
    /\ (forall a, page_of a <> q -> a <> slot p i -> wordv s' a = wordv s a)
    /\ user_table_kva s' = user_table_kva s /\ l1_user s' = l1_user s.
Proof.
  unfold split, alloc. fold old. destruct (alloc_page (pm s)) as [r m1] eqn:Ea. cbn [fst snd].
  destruct (alloc_page_ok _ _ _ _ (wf_pmm _ _ _ Hwf) Ea)
    as [(-> & -> & _)|(l' & Hok' & Hr0 & Hno & Hown & Hz & Hfr & _ & Hhi & _)].
  { cbn. rewrite pair_equal_spec. intros [<- <-]. left. by destruct s. }
  destruct (Z.eqb_spec r 0); [done|]. rewrite pair_equal_spec. intros [<- <-]. right. exists l'.
  pose proof (so_kva _ _ (wf_space _ _ _ Hwf) _ _ Hk) as Hpk.
  assert (owned (pm s) l p) as Hpo by (by eapply wf_own).
  assert (pool m1 r) as Hrp by (apply Hown; by right).
  assert (kva_ok r) as Hrk.
  { apply (pool_kva m1); [by destruct Hok'| |done]. rewrite Hhi. apply Hwf. }
  assert (p <> r) as Hpr by (intros ->; done).
  set (m2 := if negb (Z.land old D_VALID =? 0) then
               split_loop (mem m1) r (Z.land (clear old (cs * 512 - 1)) ADDR_MASK) (attrs old) cs 0 512
             else fill (mem m1) r 0 512).
  match goal with |- context [storev ?x _ _] => set (s2 := x) end.
  assert (mem (pm s2) = m2 /\ high_half (pm s2) = true /\ user_table_kva s2 = user_table_kva s
          /\ l1_user s2 = l1_user s) as (Hm2 & Hh2 & Hu2 & Hl2).
  { subst s2 m2. destruct (negb _); cbn; rewrite Hhi; repeat split; apply Hwf. }
  assert (forall a, page_of a <> r -> word m2 a = word (mem m1) a) as Hout.
  { intros a Ha. subst m2. destruct (negb _).
    - apply split_loop_out. intros j Hj ->. apply Ha. apply slot_page; [done|lia].
    - apply word_zero_page_out; [apply Hrk|done]. }
  assert (ok (pm s2) l') as Hok2.
  { assert (pm s2 = set_mem m1 m2) as -> by (subst s2 m2; by destruct (negb _)).
    apply ok_mem; [done|]. intros a Ha. apply Hout. intros He. rewrite He in Ha.
    assert (owned m1 l' r) as [_ Hr] by (apply Hown; by right). done. }
  assert (desc r = Z.lor (kva_to_phys (pm s2) r) D_TABLE) as Hd.
  { unfold desc, kva_to_phys. rewrite Hh2. f_equal. destruct Hrk as [_ ?].
    rewrite uwrap_small; [done|]. unfold KVA_OFFSET in *. lia. }
  rewrite <- Hd. unfold wordv, storev. cbn [pm set_pm mem set_mem high_half user_table_kva l1_user].
  rewrite Hm2. split; [|split; [done|split; [done|split; [done|split; [|split; [done|split]]]]]].
  - rewrite <- Hm2. apply (write_ok _ _ Hok2 (slot p i)). rewrite slot_page by done.
    assert (owned m1 l' p) as Hp' by (apply Hown; by left).
    unfold owned, pool in *. subst s2 m2. by destruct (negb _).
  - intros q. rewrite <- Hown. unfold owned, pool. subst s2 m2. by destruct (negb _).
  - apply word_store_eq.
  - split; [|split; [|done]].
    + intros j Hj. rewrite store_slot_words by done. rewrite bool_decide_false by (intros [? _]; done).
      subst m2 ty. destruct (negb _).
      * rewrite split_loop_in by lia. done.
      * apply word_fill_in. exists j. done.
    + intros a Ha Hs. rewrite word_store_ne by done. rewrite Hout by done. by apply Hfr.
Qed.

Lemma walk_split m m' q root :
  t !! [] = Some root ->
  (forall r j, r <> q -> kva_ok r -> 0 <= j < 512 -> slot r j <> slot p i -> word m' (slot r j) = word m (slot r j)) ->
  kva_ok q -> (forall k' p', t !! k' = Some p' -> p' <> q) ->
  word m (slot p i) = old ->
  (forall j, 0 <= j < 512 -> word m' (slot q j) =
          if negb (Z.land old D_VALID =? 0) then
            Z.lor (Z.lor (Z.land (clear old (cs * 512 - 1)) ADDR_MASK + j * cs) (attrs old)) ty
          else 0) ->
  Z.land old 3 <> 3 ->
  forall va, walk m' (<[k ++ [i] := q]> t) root va = walk m t root va.
Proof.
  intros Hroot Hout Hq Hne Hold Hin H3 va. pose proof (wf_space _ _ _ Hwf) as Hsp.
  pose proof (i1_range va). pose proof (i2_range va). pose proof (i3_range va).
  pose proof (no_below (i2 va)) as Hb2.
  assert (forall k' p' j, t !! k' = Some p' -> 0 <= j < 512 -> (k', j) <> (k, i) ->
            word m' (slot p' j) = word m (slot p' j)) as Hsame.
  { intros k' p' j Hk' Hj Hkj. pose proof (so_kva _ _ Hsp _ _ Hk'). pose proof (so_kva _ _ Hsp _ _ Hk).
    apply Hout; [by eapply Hne|done|done|].
    intros He. destruct (slot_inj p' p j i) as [-> ->]; try done. apply Hkj.
    by rewrite (so_inj _ _ Hsp _ _ _ Hk' Hk). }
  assert (forall v cs' ty', (cs' = 2 ^ 21 /\ ty' = D_BLOCK \/ cs' = 4096 /\ ty' = D_PAGE) ->
     cs' = cs -> va / cs mod 512 = v -> 0 <= v < 512 ->
     (Z.land (word m' (slot q v)) 3 =? ty') = (Z.land old 3 =? D_BLOCK)
     /\ (Z.land old 3 = 1 -> leaf (word m' (slot q v)) cs va = leaf old (cs * 512) va)) as Hleaf.
  { intros v cs' ty' Hc -> Hv Hvr. rewrite Hin by done. rewrite land_1.
    destruct (Z.eqb_spec (old mod 2) 0) as [Hev|Hod]; cbn [negb].
    - change (Z.land 0 3) with 0. rewrite !land_3. unfold D_BLOCK, D_PAGE in *.
      destruct (Z.eqb_spec (old mod 4) 1); [exfalso; zdm|]. split; [|lia].
      destruct Hc as [[_ ->]|[_ ->]]; done.
    - destruct (split_leaf old cs v va) as [Hl Ht]; [tauto|done|done|]. cbn zeta in Hl, Ht.
      fold ty in Hl, Ht. rewrite Ht. split; [|done]. rewrite land_3 in *. unfold ty, D_BLOCK, D_PAGE.
      destruct (Z.eqb_spec (old mod 4) 1); [|exfalso; zdm].
      destruct Hc as [[-> ->]|[-> ->]]; done. }
  unfold walk. destruct Hcs as [[-> Hc]|[Hlen Hc]].
  - cbn [app]. assert (p = root) as -> by congruence. destruct (decide (i1 va = i)) as [Hi1|Hi1].
    + rewrite Hi1. rewrite lookup_insert_eq, lookup_insert_ne by done. cbn [app] in *.
      rewrite Hb2, Hnone, Hold.
      destruct (Hleaf (i2 va) (2 ^ 21) D_BLOCK) as [-> Hlf]; [by left|done|by rewrite i2_div, Hc|done|].
      destruct (Z.eqb_spec (Z.land old 3) D_BLOCK); [|done]. rewrite Hc in Hlf. by rewrite Hlf.
    + rewrite !lookup_insert_ne by congruence. rewrite (Hsame [] root) by (done || congruence).
      destruct (t !! [i1 va]) as [l2|] eqn:E1; [|done]. rewrite (Hsame _ _ _ E1) by (done || congruence).
      destruct (t !! [i1 va; i2 va]) as [l3|] eqn:E2; [|done]. by rewrite (Hsame _ _ _ E2) by (done || congruence).
  - destruct k as [|a [|b k']]; try discriminate. cbn [app] in *.
    rewrite !(lookup_insert_ne _ [a; i] [i1 va]) by done.
    rewrite (Hsame [] root) by (done || congruence).
    destruct (t !! [i1 va]) as [l2|] eqn:E1; [|done].
    destruct (decide (i1 va = a)) as [Ha|Ha]; [destruct (decide (i2 va = i)) as [Hi2|Hi2]|].
    + rewrite Ha, Hi2 in *. rewrite lookup_insert_eq, Hnone. assert (l2 = p) as -> by congruence. rewrite Hold.
      destruct (Hleaf (i3 va) 4096 D_PAGE) as [-> Hlf]; [by right|done|by rewrite i3_div, Hc|done|].
      destruct (Z.eqb_spec (Z.land old 3) D_BLOCK); cbn [negb]; [|done]. rewrite Hc in Hlf. by rewrite Hlf.
    + rewrite lookup_insert_ne by congruence. rewrite (Hsame _ _ _ E1) by (done || congruence).
      destruct (t !! [i1 va; i2 va]) as [l3|] eqn:E2; [|done]. by rewrite (Hsame _ _ _ E2) by (done || congruence).
    + rewrite lookup_insert_ne by congruence. rewrite (Hsame _ _ _ E1) by (done || congruence).
      destruct (t !! [i1 va; i2 va]) as [l3|] eqn:E2; [|done]. by rewrite (Hsame _ _ _ E2) by (done || congruence).
Qed.

(** [split]: out of memory, or the same memory described one level finer. *)
Lemma split_ok q s' root :
  t !! [] = Some root -> split s (slot p i) cs = (q, s') ->
  (q = 0 /\ s' = s) \/
  exists l', q <> 0 /\ extends s l t s' l' (<[k ++ [i] := q]> t)
    /\ forall va, translate (mem (pm s')) root va = translate (mem (pm s)) root va.
Proof.
  intros Hroot Hs. destruct (split_words q s' Hs) as
    [|(l' & Hok' & Hhi & Hq0 & Hno & Hown & Hqk & Hsl & Hin & Hout & Hu)]; [by left|right].
  exists l'. split; [done|]. pose proof (wf_space _ _ _ Hwf) as Hsp.
  assert (forall k' p', t !! k' = Some p' -> p' <> q) as Hne.
  { intros k' p' Hk' ->. apply Hno. by eapply wf_own. }
  assert (Z.land old 3 <> 3) as H3.
  { pose proof (so_child _ _ Hsp k p i Hk) as Hch. rewrite Hnone in Hch. apply Hch; [|done].
    destruct Hcs as [[-> _]|[-> _]]; simpl; lia. }
  assert (forall r j, r <> q -> kva_ok r -> 0 <= j < 512 -> slot r j <> slot p i ->
            wordv s' (slot r j) = wordv s (slot r j)) as Hout'.
  { intros r j Hr Hrk Hj Hsj. apply Hout; [|done]. by rewrite slot_page. }
  assert (space_ok (mem (pm s')) (<[k ++ [i] := q]> t)) as Hsp'.
  { split.
    - intros k1 k2 r H1 H2. apply lookup_insert_Some in H1 as [[<- <-]|[? H1]];
        apply lookup_insert_Some in H2 as [[<- He]|[? H2]]; try done.
      + by destruct (Hne _ _ H2).
      + subst. by destruct (Hne _ _ H1).
      + by eapply so_inj.
    - intros k1 r H1. apply lookup_insert_Some in H1 as [[<- <-]|[? H1]]; [done|]. by eapply so_kva.
    - intros k1 j r H1. apply lookup_insert_Some in H1 as [[He <-]|[? H1]].
      + apply app_snoc_eq in He as [<- <-]. split; [destruct Hcs as [[-> _]|[-> _]]; simpl; lia|].
        split; [done|]. rewrite lookup_insert_ne; [by eexists|].
        intros He. apply (f_equal length) in He. rewrite length_app in He. simpl in He. lia.
      + destruct (so_parent _ _ Hsp _ _ _ H1) as (? & ? & [r' Hr']). split; [done|split; [done|]].
        destruct (decide (k ++ [i] = k1)) as [->|]; [rewrite lookup_insert_eq; by eexists|].
        rewrite lookup_insert_ne by done. by eexists.
    - intros k1 r j H1 Hl Hj. apply lookup_insert_Some in H1 as [[<- <-]|[Hk1 H1]].
      + rewrite lookup_insert_ne.
        2:{ intros He. apply (f_equal length) in He. rewrite !length_app in He. simpl in He. lia. }
        rewrite no_below. fold (wordv s' (slot q j)). rewrite Hin by done.
        destruct Hcs as [[-> Hc]|[Hlen _]]; [|rewrite length_app in Hl; simpl in Hl; lia].
        destruct (Z.eqb_spec (Z.land old D_VALID) 0); cbn [negb]; [done|].
        pose proof (split_leaf old cs j (j * cs)) as Hsl'. cbn zeta in Hsl'.
        destruct Hsl' as [_ Ht]; [by left|done| |].
        { rewrite Hc. rewrite Z.div_mul by lia. apply Z.mod_small. done. }
        fold ty in Ht. rewrite Ht. unfold ty. rewrite Hc. done.
      + pose proof (so_child _ _ Hsp k1 r j H1 Hl Hj) as Hch.
        destruct (decide (k1 ++ [j] = k ++ [i])) as [He|He].
        * apply app_snoc_eq in He as [-> ->]. rewrite lookup_insert_eq.
          assert (r = p) as -> by congruence. exact Hsl.
        * rewrite lookup_insert_ne by done. fold (wordv s' (slot r j)). rewrite Hout'; [done| |by eapply so_kva|done|].
          { by eapply Hne. }
          intros Hs'. destruct (slot_inj r p j i) as [-> ->]; try done; [by eapply so_kva..|].
          apply He. by rewrite (so_inj _ _ Hsp _ _ _ H1 Hk). }
  split.
  - split; [split; try done| | | | |].
    + intros k1 r H1. apply Hown. apply lookup_insert_Some in H1 as [[_ <-]|[_ H1]]; [by right|left].
      by eapply wf_own.
    + by apply insert_subseteq.
    + intros r Hr. apply Hown. by left.
    + intros k1 r H1 H2. apply lookup_insert_Some in H1 as [[_ <-]|[_ H1]]; congruence.
    + intros a Ha Hta. apply Hout; [intros He; rewrite He in Ha; done|].
      intros ->. apply (Hta k p Hk). apply slot_page; [exact (so_kva _ _ Hsp _ _ Hk)|done].
    + done.
  - intros va. rewrite (translate_walk _ _ root Hsp Hroot), (translate_walk _ _ root Hsp').
    + by apply walk_split.
    + rewrite lookup_insert_ne; [done|]. by destruct k.
Qed.
End split.

(** Splitting a block describes exactly the same memory.  When [split]
    replaces the entry of an upper table by a table one level finer, every
    address whatever translates to the same frame with the same attributes:
    a block of a gigabyte becomes 512 blocks of 2 MiB, one of 2 MiB becomes 512
    pages, and an invalid entry 512 invalid ones. *)
Theorem split_same_memory s l t root k p i cs q s' :
  wf s l t -> t !! [] = Some root -> t !! k = Some p -> 0 <= i < 512 -> t !! (k ++ [i]) = None ->
  (k = [] /\ cs = 2 ^ 21) \/ (length k = 1%nat /\ cs = 4096) ->
  split s (slot p i) cs = (q, s') ->
  (forall va, translate (mem (pm s')) root va = translate (mem (pm s)) root va)
  /\ (q <> 0 -> wordv s' (slot p i) = desc q).
Proof.
  intros Hwf Hr Hk Hi Hn Hcs Hs.
  destruct (split_ok s l t k p i cs Hwf Hk Hi Hn Hcs q s' root Hr Hs) as [[-> ->]|(l' & Hq & Hex & Htr)];
    [done|]. split; [exact Htr|]. intros _.
  destruct (split_words s l t k p i cs Hwf Hk Hi Hcs q s' Hs) as [[-> _]|(? & _ & _ & _ & _ & _ & _ & He & _)];
    done.
Qed.

Lemma descend_ok s l t k p i cs q s' root :
  wf s l t -> t !! k = Some p -> 0 <= i < 512 ->
  (k = [] /\ cs = 2 ^ 21) \/ (length k = 1%nat /\ cs = 4096) ->
  t !! [] = Some root -> descend s p i cs = (q, s') ->
  exists l' t', extends s l t s' l' t'
    /\ (q <> 0 -> t' !! (k ++ [i]) = Some q)
    /\ forall va, translate (mem (pm s')) root va = translate (mem (pm s)) root va.
Proof.
  intros Hwf Hk Hi Hcs Hroot. unfold descend.
  pose proof (so_child _ _ (wf_space _ _ _ Hwf) k p i Hk) as Hch.
  assert ((length k < 2)%nat) as Hlen by (destruct Hcs as [[-> _]|[-> _]]; simpl; lia).
  specialize (Hch Hlen Hi). fold (wordv s (slot p i)) in Hch.
  destruct (t !! (k ++ [i])) as [r|] eqn:E.
  - pose proof (so_kva _ _ (wf_space _ _ _ Hwf) _ _ E) as Hr.
    rewrite Hch, desc_type, table_at_desc by done. change (3 =? D_TABLE) with true. cbv iota.
    rewrite pair_equal_spec. intros [<- <-]. exists l, t. split; [by apply extends_refl|done].
  - unfold D_TABLE. destruct (Z.eqb_spec (Z.land (wordv s (slot p i)) 3) 3); [done|]. intros Hs.
    destruct (split_ok s l t k p i cs Hwf Hk Hi E Hcs q s' root Hroot Hs)
      as [[-> ->]|(l' & Hq & Hex & Htr)].
    + exists l, t. split; [by apply extends_refl|done].
    + exists l', (<[k ++ [i] := q]> t). split; [done|]. split; [|done]. intros _. by rewrite lookup_insert_eq.
Qed.

(** Two addresses on one page. *)
Lemma same_page va va' :
  0 <= va < 2 ^ 39 -> 0 <= va' < 2 ^ 39 ->
  i1 va = i1 va' /\ i2 va = i2 va' /\ i3 va = i3 va' <-> va / 4096 = va' / 4096.
Proof. rewrite !i1_div, !i2_div, !i3_div. intros. split; [intros (?&?&?); zdm|intros; repeat split; zdm]. Qed.

(** What an entry of the last level means. *)
Definition leaf_of (d va : Z) : option (Z * Z) :=
  if Z.land d 3 =? D_PAGE then Some (leaf d 4096 va) else None.

(** Storing an entry in a table of the last level. *)
Lemma store_leaf_ok s l t root va l3 d :
  wf s l t -> t !! [] = Some root -> t !! [i1 va; i2 va] = Some l3 -> 0 <= va < 2 ^ 39 ->
  let s' := storev s (slot l3 (i3 va)) d in
  extends s l t s' l t
  /\ forall va', 0 <= va' < 2 ^ 39 ->
       translate (mem (pm s')) root va' =
         if va' / 4096 =? va / 4096 then leaf_of d va' else translate (mem (pm s)) root va'.
Proof.
  intros Hwf Hroot Hl3 Hva s'. pose proof (wf_space _ _ _ Hwf) as Hsp.
  pose proof (so_kva _ _ Hsp _ _ Hl3) as Hk3. pose proof (i3_range va) as Hi3.
  assert (forall k p j, t !! k = Some p -> 0 <= j < 512 -> (k, j) <> ([i1 va; i2 va], i3 va) ->
            wordv s' (slot p j) = wordv s (slot p j)) as Hw.
  { intros k p j Hk Hj Hne. unfold s', wordv. cbn. pose proof (so_kva _ _ Hsp _ _ Hk).
    rewrite store_slot_words by done. rewrite bool_decide_false; [done|]. intros [-> ->].
    apply Hne. by rewrite (so_inj _ _ Hsp _ _ _ Hk Hl3). }
  assert (space_ok (mem (pm s')) t) as Hsp'.
  { eapply space_frame; [done|]. intros k p j Hk Hlen Hj. apply (Hw k p j); [done|done|].
    intros [= -> ->]. simpl in Hlen. lia. }
  assert (page_of (slot l3 (i3 va)) = l3) as Hpg by (by apply slot_page).
  assert (owned (pm s) l l3) as Hown by (by eapply wf_own).
  split.
  - split; try done.
    + split; try done; [|apply Hwf|].
      * apply write_ok; [apply Hwf|by rewrite Hpg].
      * intros k p Hk. by eapply (wf_own _ _ _ Hwf).
    + intros. congruence.
    + intros a Ha Hne. unfold s', wordv. cbn. apply word_store_ne. intros ->.
      by apply (Hne _ _ Hl3).
  - intros va' Hva'. rewrite (translate_walk _ _ root Hsp Hroot), (translate_walk _ _ root Hsp' Hroot).
    pose proof (i1_range va'). pose proof (i2_range va'). pose proof (i3_range va').
    pose proof (same_page va va' Hva Hva') as Hpage. unfold walk.
    fold (wordv s' (slot root (i1 va'))). rewrite (Hw [] root) by done. fold (wordv s (slot root (i1 va'))).
    destruct (t !! [i1 va']) as [l2|] eqn:E1.
    2:{ destruct (Z.eqb_spec (va' / 4096) (va / 4096)) as [He|]; [|done].
        destruct (proj2 Hpage) as (He1 & He2 & _); [done|].
        destruct (so_parent _ _ Hsp [i1 va] (i2 va) l3) as (_ & _ & [? ?]); [done|]. congruence. }
    fold (wordv s' (slot l2 (i2 va'))). rewrite (Hw _ _ _ E1) by done. fold (wordv s (slot l2 (i2 va'))).
    destruct (t !! [i1 va'; i2 va']) as [l3'|] eqn:E2.
    2:{ destruct (Z.eqb_spec (va' / 4096) (va / 4096)) as [He|]; [|done].
        destruct (proj2 Hpage) as (He1 & He2 & _); [done|]. congruence. }
    fold (wordv s' (slot l3' (i3 va'))). fold (wordv s (slot l3' (i3 va'))).
    destruct (Z.eqb_spec (va' / 4096) (va / 4096)) as [He|He].
    + destruct (proj2 Hpage) as (He1 & He2 & He3); [done|]. rewrite <- He1, <- He2 in E2.
      assert (l3' = l3) as -> by congruence. rewrite <- He3. unfold s', wordv. cbn.
      rewrite word_store_eq. unfold leaf_of. by destruct (_ =? _).
    + rewrite (Hw _ _ _ E2) by (try done; intros [= ? ? ?]; apply He; symmetry; by apply Hpage). done.
Qed.

Lemma map_raw_ok s l t root va d b s' :
  wf s l t -> t !! [] = Some root -> mmu_current_user_table_kva s = root -> 0 <= va < 2 ^ 39 ->
  map_user_page_raw s va d = (b, s') ->
  exists l' t', extends s l t s' l' t'
    /\ (b = true -> is_Some (t' !! [i1 va; i2 va]))
    /\ forall va', 0 <= va' < 2 ^ 39 ->
       translate (mem (pm s')) root va' =
         if b && (va' / 4096 =? va / 4096) then leaf_of d va' else translate (mem (pm s)) root va'.
Proof.
  intros Hwf Hroot Hcur Hva. unfold map_user_page_raw. rewrite Hcur.
  destruct (Z.eqb_spec root 0) as [|_].
  { rewrite pair_equal_spec. intros [<- <-]. exists l, t. split; [by apply extends_refl|done]. }
  destruct (descend s root (i1 va) (Z.shiftl 1 21)) as [l2 s1] eqn:E1.
  destruct (descend_ok s l t [] root (i1 va) (2 ^ 21) l2 s1 root Hwf Hroot (i1_range va))
    as (la & ta & Hex1 & Ht1 & Htr1); [by left|done|done|].
  destruct (Z.eqb_spec l2 0) as [|Hl2].
  { rewrite pair_equal_spec. intros [<- <-]. exists la, ta. split; [done|]. split; [done|]. intros. apply Htr1. }
  specialize (Ht1 Hl2). cbn [app] in Ht1.
  assert (ta !! [] = Some root) as Hra by (eapply lookup_weaken; [done|apply Hex1]).
  destruct (descend s1 l2 (i2 va) 4096) as [l3 s2] eqn:E2.
  destruct (descend_ok s1 la ta [i1 va] l2 (i2 va) 4096 l3 s2 root (ex_wf _ _ _ _ _ _ Hex1) Ht1 (i2_range va))
    as (lb & tb & Hex2 & Ht2 & Htr2); [by right|done|done|].
  destruct (Z.eqb_spec l3 0) as [|Hl3].
  { rewrite pair_equal_spec. intros [<- <-]. exists lb, tb. split; [by eapply extends_trans|].
    split; [done|]. intros. by rewrite Htr2, Htr1. }
  specialize (Ht2 Hl3). cbn [app] in Ht2. rewrite pair_equal_spec. intros [<- <-].
  assert (tb !! [] = Some root) as Hrb by (eapply lookup_weaken; [done|apply Hex2]).
  destruct (store_leaf_ok s2 lb tb root va l3 d (ex_wf _ _ _ _ _ _ Hex2) Hrb Ht2 Hva) as [Hex3 Htr3].
  exists lb, tb. split; [eapply extends_trans; [done|]; by eapply extends_trans|].
  split; [intros _; by eexists|]. intros va' Hva'. rewrite Htr3 by done. cbn [andb].
  destruct (_ =? _); [done|]. by rewrite Htr2, Htr1.
Qed.

(** Another space whose tables are pages of its own. *)
Definition disjoint_trees (t t2 : tree) : Prop :=
  forall k k2 p, t !! k = Some p -> t2 !! k2 = Some p -> False.

Lemma other_space s l t s' l' t' t2 root2 :
  extends s l t s' l' t' -> wf s l t2 -> t2 !! [] = Some root2 -> disjoint_trees t t2 ->
  wf s' l' t2 /\ disjoint_trees t' t2
  /\ forall va, translate (mem (pm s')) root2 va = translate (mem (pm s)) root2 va.
Proof.
  intros Hex Hw2 Hr2 Hd. pose proof (wf_space _ _ _ Hw2) as Hsp.
  assert (forall k p i, t2 !! k = Some p -> 0 <= i < 512 -> wordv s' (slot p i) = wordv s (slot p i)) as Hw.
  { intros k p i Hk Hi. pose proof (slot_page p i (so_kva _ _ Hsp _ _ Hk) Hi) as Hpg.
    apply (ex_frame _ _ _ _ _ _ Hex); rewrite Hpg; [by eapply wf_own|].
    intros k' p' Hk' ->. by eapply Hd. }
  split; [|split].
  - split; try apply (ex_wf _ _ _ _ _ _ Hex).
    + eapply space_frame; [done|]. intros k p i Hk _ Hi. by apply (Hw k p i).
    + intros k p Hk. apply (ex_owned _ _ _ _ _ _ Hex). by eapply wf_own.
  - intros k k2 p Hk Hk2. destruct (t !! k) as [q|] eqn:E.
    + pose proof (lookup_weaken _ _ _ _ E (ex_tree _ _ _ _ _ _ Hex)). assert (q = p) as -> by congruence.
      by eapply Hd.
    + apply (ex_new _ _ _ _ _ _ Hex k p Hk E). by eapply wf_own.
  - intros va. apply (translate_frame _ _ t2); [done|done|]. intros k p i Hk Hi. by apply (Hw k p i).
Qed.

(** What a program may do with a page [map_user_page] gave it. *)
Definition user_attrs (executable : bool) : Z := attrs (user_desc 0 executable).

Lemma user_desc_compose pa x :
  user_desc pa x = Z.lor (Z.lor (Z.land pa ADDR_MASK) (attrs (user_desc 0 x))) D_PAGE.
Proof.
  unfold user_desc. change (Z.land 0 ADDR_MASK) with 0. rewrite !Z.lor_0_l.
  destruct x; rewrite <- !Z.lor_assoc; f_equal.
Qed.

Lemma leaf_of_user_desc pa x va :
  phys_ok pa -> leaf_of (user_desc pa x) va = Some (pa + va mod 4096, user_attrs x).
Proof.
  intros Hp. rewrite user_desc_compose, phys_mask by done. unfold leaf_of, leaf.
  rewrite compose_type, compose_mask, compose_attrs by (done || (unfold D_PAGE; lia)).
  change (D_PAGE =? D_PAGE) with true. cbv iota. unfold user_attrs.
  destruct Hp as [_ Hp]. do 3 f_equal. zdm.
Qed.

(** Mapping a page gives the program that page and nothing else.  After
    [map_user_page] the hardware translates every address of the page to the
    frame given, with exactly the user permissions (no write-protection, no
    kernel execution, user execution only if asked for); every other address
    of the space translates as before, whatever tables had to be made or split
    on the way, and no address of any other space changes.  When memory runs
    out it says so and no translation changes at all. *)
Theorem map_user_page_translates s l t root va page x b s' :
  wf s l t -> t !! [] = Some root -> mmu_current_user_table_kva s = root ->
  0 <= va < 2 ^ 39 -> kva_ok page ->
  map_user_page s va page x = (b, s') ->
  exists l' t', wf s' l' t' /\ t' !! [] = Some root
    /\ (forall va', 0 <= va' < 2 ^ 39 ->
         translate (mem (pm s')) root va' =
           if b && (va' / 4096 =? va / 4096)
           then Some (page - KVA_OFFSET + va' mod 4096, user_attrs x)
           else translate (mem (pm s)) root va')
    /\ (forall t2 root2, wf s l t2 -> t2 !! [] = Some root2 -> disjoint_trees t t2 ->
         wf s' l' t2 /\ forall va', translate (mem (pm s')) root2 va' = translate (mem (pm s)) root2 va').
Proof.
  intros Hwf Hr Hcur Hva Hpg Hmap.
  destruct (map_raw_ok s l t root va _ b s' Hwf Hr Hcur Hva Hmap) as (l' & t' & Hex & _ & Htr).
  exists l', t'. split; [apply Hex|]. split; [eapply lookup_weaken; [done|apply Hex]|]. split.
  - intros va' Hva'. rewrite Htr by done. destruct (b && _); [|done].
    assert (kva_to_phys (pm s) page = page - KVA_OFFSET) as ->.
    { unfold kva_to_phys. rewrite (wf_high _ _ _ Hwf). destruct Hpg as [_ ?].
      apply uwrap_small. unfold KVA_OFFSET in *. lia. }
    apply leaf_of_user_desc. by apply kva_phys.
  - intros t2 root2 Hw2 Hr2 Hd. destruct (other_space _ _ _ _ _ _ _ _ Hex Hw2 Hr2 Hd) as (? & _ & ?). done.
Qed.

(** ** Copy-on-write *)
Lemma land_attrs_bit d n : 0 <= n -> Z.testbit ADDR_MASK n = false -> Z.testbit 3 n = false ->
  Z.land (attrs d) (Z.shiftl 1 n) = Z.land d (Z.shiftl 1 n).
Proof.
  intros Hn Ha H3. apply Z.bits_inj'. intros i Hi. rewrite !Z.land_spec, attrs_bits by done.
  destruct (decide (i = n)) as [->|].
  - rewrite Ha, H3. by rewrite !andb_true_r.
  - replace (Z.testbit (Z.shiftl 1 n) i) with false; [by rewrite !andb_false_r|].
    symmetry. rewrite Z.shiftl_1_l, Z.pow2_bits_false by lia. done.
Qed.

Lemma land_clear_self d n : Z.land (clear d n) n = 0.
Proof.
  apply Z.bits_inj'. intros i Hi. unfold clear. rewrite Z.land_spec, Z.ldiff_spec, Z.bits_0.
  by destruct (Z.testbit d i), (Z.testbit n i).
Qed.

Lemma land_clear_disjoint d n k : Z.land n k = 0 -> Z.land (clear d n) k = Z.land d k.
Proof.
  intros H. apply Z.bits_inj'. intros i Hi. unfold clear. rewrite !Z.land_spec, Z.ldiff_spec.
  assert (Z.testbit (Z.land n k) i = false) as Hb by (rewrite H; apply Z.bits_0).
  rewrite Z.land_spec in Hb. by destruct (Z.testbit d i), (Z.testbit n i), (Z.testbit k i).
Qed.

Lemma attrs_clear d n : attrs (clear d n) = clear (attrs d) n.
Proof.
  apply Z.bits_inj'. intros i Hi. rewrite attrs_bits by done. unfold clear.
  rewrite !Z.ldiff_spec, attrs_bits by done.
  by destruct (Z.testbit d i), (Z.testbit n i), (Z.testbit ADDR_MASK i), (Z.testbit 3 i).
Qed.

(** Which attributes let the program read, and write. *)
Definition user_may (write : bool) (a : Z) : Prop :=
  Z.land a D_AP_EL0 <> 0 /\ (write = true -> Z.land a D_AP_RO = 0).

Lemma ok_set_refs s l r b n : ok s l -> ok (set_refs s r b n) l.
Proof.
  intros [[? ? ? ? ?] ? ? Hp ?]. split; try done. 
Qed.

Lemma page_unref_shape s pa : exists r b n, (page_unref s pa).2 = set_refs s r b n.
Proof.
  unfold page_unref. destruct (refs_index s pa) as [i|].
  - destruct (0 <? ref_at s i); cbn [snd]; [unfold set_ref; eauto|].
    exists (refs s), (refs_base s), (refs_pages s). by destruct s.
  - exists (refs s), (refs_base s), (refs_pages s). by destruct s.
Qed.

Lemma page_ref_shape s pa : exists r b n, page_ref s pa = set_refs s r b n.
Proof.
  unfold page_ref. destruct (refs_index s pa) as [i|].
  - destruct (ref_at s i <? 255); [unfold set_ref; eauto|].
    exists (refs s), (refs_base s), (refs_pages s). by destruct s.
  - exists (refs s), (refs_base s), (refs_pages s). by destruct s.
Qed.

(** Counting moves no memory. *)
Lemma extends_set_refs s l t r b n : wf s l t -> extends s l t (set_pm s (set_refs (pm s) r b n)) l t.
Proof.
  intros [H1 H2 H3 H4]. split; try done.
  - split; try done. by apply ok_set_refs.
  - intros. congruence.
Qed.

Lemma alloc_ok s l t p s' :
  wf s l t -> alloc s = (p, s') ->
  (p = 0 /\ s' = s) \/
  exists l', p <> 0 /\ extends s l t s' l' t /\ ~ owned (pm s) l p /\ owned (pm s') l' p /\ kva_ok p
    /\ (forall a, page_of a <> p -> wordv s' a = wordv s a).
Proof.
  intros Hwf. unfold alloc. destruct (alloc_page (pm s)) as [q m] eqn:Ea.
  rewrite pair_equal_spec. intros [<- <-].
  destruct (alloc_page_ok _ _ _ _ (wf_pmm _ _ _ Hwf) Ea)
    as [(-> & -> & _)|(l' & Hok' & Hr0 & Hno & Hown & Hz & Hfr & _ & Hhi & _)].
  { left. split; [done|]. by destruct s. }
  right. exists l'. assert (owned m l' q) as Hq by (apply Hown; by right).
  assert (high_half m = true) as Hh by (rewrite Hhi; apply Hwf).
  assert (kva_ok q) as Hk by (eapply pool_kva; [apply Hok'|done|apply Hq]).
  split; [done|]. split; [|split; [done|split; [done|split; [done|exact Hfr]]]].
  split; try done.
  - split; try done.
    + eapply space_frame; [apply Hwf|]. intros k p i Hkp _ Hi. cbn. apply Hfr.
      rewrite slot_page; [|by eapply (so_kva _ _ (wf_space _ _ _ Hwf))|done]. intros ->. apply Hno. by eapply wf_own.
    + intros k p Hkp. apply Hown. left. by eapply wf_own.
  - intros p Hp. apply Hown. by left.
  - intros. congruence.
  - intros a Ha _. unfold wordv. cbn. apply Hfr. intros He. rewrite He in Ha. done.
Qed.

(** Filling a page that was nobody's. *)
Lemma fresh_write_ok s0 l0 s l t p m' :
  wf s0 l0 t -> extends s0 l0 t s l t -> ~ owned (pm s0) l0 p -> owned (pm s) l p ->
  (forall a, page_of a <> p -> word m' a = wordv s a) ->
  extends s0 l0 t (set_pm s (set_mem (pm s) m')) l t.
Proof.
  intros Hw0 [W T O N F U] Hno Hp Hm.
  assert (forall k q, t !! k = Some q -> q <> p) as Hne.
  { intros k q Hk ->. apply Hno. by eapply (wf_own _ _ _ Hw0). }
  split; try done.
  - destruct W as [W1 W2 W3 W4]. split; try done.
    + apply ok_mem; [done|]. intros a Ha. apply Hm. intros <-. by destruct Hp.
    + eapply space_frame; [exact W3|]. intros k q i Hk _ Hi. cbn. apply Hm.
      rewrite slot_page; [by eapply Hne|by eapply (so_kva _ _ W3)|done].
  - intros a Ha Hta. unfold wordv. cbn. rewrite Hm; [by apply F|]. by intros <-.
Qed.

(** The pieces of a walk that ends at a page. *)
Lemma walk_page s l t root va :
  wf s l t -> t !! [] = Some root ->
  Z.land (wordv s (slot root (i1 va))) 3 = D_TABLE ->
  let l2 := table_at (wordv s (slot root (i1 va))) in
  Z.land (wordv s (slot l2 (i2 va))) 3 = D_TABLE ->
  t !! [i1 va; i2 va] = Some (table_at (wordv s (slot l2 (i2 va)))).
Proof.
  intros Hwf Hr H1 l2 H2. pose proof (wf_space _ _ _ Hwf) as Hsp.
  pose proof (child_1 _ _ _ Hsp Hr va) as Hc1. fold (wordv s (slot root (i1 va))) in Hc1.
  destruct (t !! [i1 va]) as [q|] eqn:E1; [|done].
  pose proof (so_kva _ _ Hsp _ _ E1) as Hq.
  assert (l2 = q) as Hl2 by (subst l2; by rewrite Hc1, table_at_desc). clearbody l2. subst l2.
  pose proof (child_2 _ _ Hsp va q E1) as Hc2. fold (wordv s (slot q (i2 va))) in Hc2.
  destruct (t !! [i1 va; i2 va]) as [r|] eqn:E2; [|done].
  pose proof (so_kva _ _ Hsp _ _ E2). by rewrite Hc2, table_at_desc.
Qed.

(** A walk that ends at a block ends there for the whole block. *)
Lemma walk_to_leaf_block s root p sl size :
  mmu_current_user_table_kva s = root -> walk_to_leaf s p = Some (sl, size) ->
  (size = 2 ^ 30 \/ size = 2 ^ 21 \/ size = 4096)
  /\ forall a, 0 <= a < 2 ^ 39 -> 0 <= p < 2 ^ 39 -> a / size = p / size ->
       translate (mem (pm s)) root a = Some (leaf (wordv s sl) size a).
Proof.
  intros Hcur. unfold walk_to_leaf, translate. rewrite Hcur.
  destruct (root =? 0); [done|].
  destruct (Z.land (wordv s (slot root (i1 p))) 3 =? D_BLOCK) eqn:E1.
  { intros [= <- <-]. split; [by left|]. intros a Ha Hp Hs. change (Z.shiftl 1 30) with (2 ^ 30) in *.
    assert (i1 a = i1 p) as -> by (rewrite !i1_div; by rewrite Hs).
    fold (wordv s (slot root (i1 p))). by rewrite E1. }
  destruct (Z.land (wordv s (slot root (i1 p))) 3 =? D_TABLE) eqn:E2; cbn [negb]; [|done].
  set (l2 := table_at _).
  destruct (Z.land (wordv s (slot l2 (i2 p))) 3 =? D_BLOCK) eqn:E3.
  { intros [= <- <-]. split; [by right; left|]. intros a Ha Hp Hs. change (Z.shiftl 1 21) with (2 ^ 21) in *.
    assert (i1 a = i1 p) as -> by (rewrite !i1_div; zdm).
    assert (i2 a = i2 p) as -> by (rewrite !i2_div; by rewrite Hs).
    fold (wordv s (slot root (i1 p))). rewrite E1, E2. cbn [negb]. fold l2.
    fold (wordv s (slot l2 (i2 p))). by rewrite E3. }
  destruct (Z.land (wordv s (slot l2 (i2 p))) 3 =? D_TABLE) eqn:E4; cbn [negb]; [|done].
  set (l3 := table_at _).
  destruct (Z.land (wordv s (slot l3 (i3 p))) 3 =? D_PAGE) eqn:E5; cbn [negb]; [|done].
  intros [= <- <-]. split; [by right; right|]. intros a Ha Hp Hs.
  destruct (proj2 (same_page a p Ha Hp) Hs) as (-> & -> & ->).
  fold (wordv s (slot root (i1 p))). rewrite E1, E2. cbn [negb]. fold l2.
  fold (wordv s (slot l2 (i2 p))). rewrite E3, E4. cbn [negb]. fold l3.
  fold (wordv s (slot l3 (i3 p))). by rewrite E5.
Qed.

(** The page a writer ends up with. *)
Definition private_copy (s : vm) (l : list Z) (s' : vm) (pa pa' : Z) : Prop :=
  if 1 <? page_count (pm s) pa then
    ~ owned (pm s) l (phys_to_kva pa')
    /\ (owned (pm s) l (phys_to_kva pa) ->
        forall i, 0 <= i < 512 ->
          wordv s' (phys_to_kva pa' + 8 * i) = wordv s (phys_to_kva pa + 8 * i))
  else pa' = pa.

Lemma phys_to_kva_add p : kva_ok p -> phys_to_kva (p - KVA_OFFSET) = p.
Proof.
  intros [_ Hp]. unfold phys_to_kva. rewrite uwrap_small; unfold KVA_OFFSET in *; lia.
Qed.

(** A leaf whose address and write permission are replaced. *)
Lemma leaf_of_replace p d va :
  phys_ok p -> Z.land d 3 = 3 ->
  leaf_of (Z.lor p (clear (clear d ADDR_MASK) D_AP_RO)) va
  = Some (p + va mod 4096, clear (attrs d) D_AP_RO).
Proof.
  intros Hp Hd. unfold leaf_of, leaf. set (x := clear (clear d ADDR_MASK) D_AP_RO).
  assert (Z.land x 3 = 3) as Hx3.
  { unfold x. rewrite !land_clear_disjoint by done. done. }
  assert (Z.land x ADDR_MASK = 0) as HxA.
  { unfold x. rewrite land_clear_disjoint by done. apply land_clear_self. }
  assert (attrs x = clear (attrs d) D_AP_RO) as Hxa.
  { unfold x. rewrite !attrs_clear. f_equal. unfold clear. apply Z.bits_inj'. intros i Hi.
    rewrite Z.ldiff_spec, attrs_bits by done.
    by destruct (Z.testbit d i), (Z.testbit ADDR_MASK i), (Z.testbit 3 i). }
  rewrite !Z.land_lor_distr_l, phys_3, phys_mask, Hx3, HxA, attrs_lor, phys_attrs, Hxa by done.
  rewrite Z.lor_0_r, !Z.lor_0_l. change (3 =? D_PAGE) with true. cbv iota.
  destruct Hp as [_ Hp]. do 3 f_equal. zdm.
Qed.

Lemma leaf_page d va :
  leaf d 4096 va = (Z.land d ADDR_MASK + va mod 4096, attrs d).
Proof. unfold leaf. f_equal. rewrite land_ADDR_MASK. zdm. Qed.

Lemma addr_phys_ok d : phys_ok (Z.land d ADDR_MASK).
Proof. rewrite land_ADDR_MASK. split; zdm. Qed.

Lemma cow_ok s l t root va b s' :
  wf s l t -> t !! [] = Some root -> mmu_current_user_table_kva s = root -> 0 <= va < 2 ^ 39 ->
  vm_cow_fault s va = (b, s') ->
  exists l', extends s l t s' l' t
    /\ if b then
         exists pa a pa',
           Z.land a D_AP_EL0 <> 0 /\ Z.land a D_AP_RO <> 0 /\ private_copy s l s' pa pa'
           /\ forall va', 0 <= va' < 2 ^ 39 ->
               if va' / 4096 =? va / 4096 then
                 translate (mem (pm s)) root va' = Some (pa + va' mod 4096, a)
                 /\ translate (mem (pm s')) root va' = Some (pa' + va' mod 4096, clear a D_AP_RO)
               else translate (mem (pm s')) root va' = translate (mem (pm s)) root va'
       else s' = s.
Proof.
  intros Hwf Hr Hcur Hva. unfold vm_cow_fault. rewrite Hcur.
  assert (forall x, (false, s) = (b, s') -> exists l', extends s l t s' l' t /\ if b then x else s' = s) as Hno.
  { intros x. rewrite pair_equal_spec. intros [<- <-]. exists l. split; [by apply extends_refl|done]. }
  destruct (root =? 0); [apply Hno|].
  destruct (Z.eqb_spec (Z.land (wordv s (slot root (i1 va))) 3) D_TABLE) as [H1|]; cbn [negb]; [|apply Hno].
  set (l2 := table_at _).
  destruct (Z.eqb_spec (Z.land (wordv s (slot l2 (i2 va))) 3) D_TABLE) as [H2|]; cbn [negb]; [|apply Hno].
  pose proof (walk_page s l t root va Hwf Hr H1 H2) as Hl3. fold l2 in Hl3.
  set (l3 := table_at (wordv s (slot l2 (i2 va)))) in *. set (sl := slot l3 (i3 va)). set (d := wordv s sl).
  destruct (Z.eqb_spec (Z.land d 3) D_PAGE) as [H3|]; cbn [negb]; [|apply Hno].
  destruct (Z.eqb_spec (Z.land d D_AP_EL0) 0) as [|He]; [apply Hno|].
  destruct (Z.eqb_spec (Z.land d D_AP_RO) 0) as [|Hro]; [apply Hno|].
  set (pa := Z.land d ADDR_MASK). pose proof (addr_phys_ok d) as Hpa. fold pa in Hpa.
  assert (forall va', 0 <= va' < 2 ^ 39 -> va' / 4096 = va / 4096 ->
            translate (mem (pm s)) root va' = Some (pa + va' mod 4096, attrs d)) as Hbefore.
  { intros va' Hva' Hs. destruct (proj2 (same_page va' va Hva' Hva) Hs) as (Hi1 & Hi2 & Hi3).
    unfold translate. rewrite Hi1, Hi2, Hi3. fold (wordv s (slot root (i1 va))). rewrite H1.
    change (D_TABLE =? D_BLOCK) with false. change (D_TABLE =? D_TABLE) with true. cbn [negb].
    fold l2. fold (wordv s (slot l2 (i2 va))). rewrite H2.
    change (D_TABLE =? D_BLOCK) with false. change (D_TABLE =? D_TABLE) with true. cbn [negb].
    fold l3. fold sl. fold (wordv s sl). fold d. rewrite H3. rewrite leaf_page. done. }
  assert (Z.land (attrs d) D_AP_EL0 <> 0) as He' by (unfold D_AP_EL0; by rewrite (land_attrs_bit d 6)).
  assert (Z.land (attrs d) D_AP_RO <> 0) as Hro' by (unfold D_AP_RO; by rewrite (land_attrs_bit d 7)).
  assert (forall s1 l1 d' pa', extends s l t s1 l1 t ->
            (forall va', translate (mem (pm s1)) root va' = translate (mem (pm s)) root va') ->
            (forall va', leaf_of d' va' = Some (pa' + va' mod 4096, clear (attrs d) D_AP_RO)) ->
            private_copy s l (storev s1 sl d') pa pa' ->
            exists l', extends s l t (storev s1 sl d') l' t /\ exists pa0 a pa'0,
              Z.land a D_AP_EL0 <> 0 /\ Z.land a D_AP_RO <> 0
              /\ private_copy s l (storev s1 sl d') pa0 pa'0
              /\ forall va', 0 <= va' < 2 ^ 39 ->
               if va' / 4096 =? va / 4096 then
                 translate (mem (pm s)) root va' = Some (pa0 + va' mod 4096, a)
                 /\ translate (mem (pm (storev s1 sl d'))) root va' = Some (pa'0 + va' mod 4096, clear a D_AP_RO)
               else translate (mem (pm (storev s1 sl d'))) root va' = translate (mem (pm s)) root va') as Hfin.
  { intros s1 l1 d' pa' Hex Htr Hleaf Hpriv.
    destruct (store_leaf_ok s1 l1 t root va l3 d' (ex_wf _ _ _ _ _ _ Hex) Hr Hl3 Hva) as [Hex' Htr'].
    exists l1. split; [by eapply extends_trans|]. exists pa, (attrs d), pa'. repeat (split; [done|]).
    intros va' Hva'. fold sl in Htr'. rewrite Htr' by done. destruct (Z.eqb_spec (va' / 4096) (va / 4096)).
    - split; [by apply Hbefore|apply Hleaf].
    - apply Htr. }
  destruct (1 <? page_count (pm s) pa) eqn:Hcount.
  - destruct (alloc s) as [fresh s1] eqn:Ea.
    destruct (alloc_ok s l t fresh s1 Hwf Ea) as [[-> ->]|(l1 & Hf0 & Hex1 & Hfno & Hfown & Hfk & Hfr)].
    { cbn. apply Hno. }
    destruct (Z.eqb_spec fresh 0); [done|]. rewrite pair_equal_spec. intros [<- <-].
    set (m2 := copy (mem (pm s1)) fresh (phys_to_kva pa) 512).
    assert (forall a, page_of a <> fresh -> word m2 a = wordv s1 a) as Hm2.
    { intros a Ha. apply word_copy_out. intros Hin. apply Ha. apply in_words_page; [apply Hfk|done]. }
    pose proof (fresh_write_ok s l s1 l1 t fresh m2 Hwf Hex1 Hfno Hfown Hm2) as Hex2.
    destruct (page_unref_shape (set_mem (pm s1) m2) pa) as (r & bb & nn & Hsh).
    cbn [pm set_pm]. rewrite Hsh.
    assert (kva_to_phys (set_refs (set_mem (pm s1) m2) r bb nn) fresh = fresh - KVA_OFFSET) as Hkp.
    { unfold kva_to_phys. cbn. rewrite (wf_high _ _ _ (ex_wf _ _ _ _ _ _ Hex1)). destruct Hfk as [_ ?].
      apply uwrap_small. unfold KVA_OFFSET in *. lia. }
    rewrite Hkp. pose proof (kva_phys _ Hfk) as Hfp. rewrite (phys_mask _ Hfp).
    set (s3 := set_pm (set_pm s1 (set_mem (pm s1) m2)) (set_refs (set_mem (pm s1) m2) r bb nn)).
    assert (extends s l t s3 l1 t) as Hex3.
    { eapply extends_trans; [exact Hex2|].
      apply (extends_set_refs (set_pm s1 (set_mem (pm s1) m2)) l1 t). apply Hex2. }
    eapply (Hfin s3 l1 _ (fresh - KVA_OFFSET)); [exact Hex3| |intros va'; by apply leaf_of_replace|].
    + intros va'. apply (translate_frame _ _ t); [apply Hwf|done|]. intros k p i Hk Hi.
      pose proof (so_kva _ _ (wf_space _ _ _ Hwf) _ _ Hk) as Hpk.
      assert (p <> fresh) by (intros ->; apply Hfno; by eapply wf_own).
      change (word m2 (slot p i) = wordv s (slot p i)).
      rewrite Hm2, Hfr by (by rewrite slot_page). done.
    + unfold private_copy. rewrite Hcount, phys_to_kva_add by done. split; [done|].
      intros Hfrom i Hi. unfold storev, wordv, s3. cbn.
      assert (fresh + 8 * i <> sl) as Hns.
      { intros He2. assert (l3 = fresh) as Hlf.
        { rewrite <- (slot_page fresh i Hfk Hi). unfold slot at 1. rewrite He2. symmetry. apply slot_page.
          - by eapply (so_kva _ _ (wf_space _ _ _ Hwf)).
          - apply i3_range. }
        apply Hfno. rewrite <- Hlf. by eapply wf_own. }
      rewrite word_store_ne by done.
      assert (kva_ok (phys_to_kva pa)) as Hpk.
      { eapply pool_kva; [apply Hwf|apply Hwf|apply Hfrom]. }
      assert (phys_to_kva pa <> fresh) by (intros <-; done).
      unfold m2. rewrite word_copy_in; [|intros j k Hj Hk He2|done].
      * apply Hfr. fold (slot (phys_to_kva pa) i). by rewrite slot_page.
      * destruct (slot_inj fresh (phys_to_kva pa) j k); done.
  - rewrite pair_equal_spec. intros [<- <-].
    apply (Hfin s l (clear d D_AP_RO) pa); [by apply extends_refl|done| |].
    + intros va'. unfold leaf_of. rewrite land_clear_disjoint, H3, leaf_page, attrs_clear by done.
      rewrite land_clear_disjoint by done. done.
    + unfold private_copy. by rewrite Hcount.
Qed.


(** ** Checking a range *)

(** The byte at [va] is the program's, for writing too if asked. *)
Definition may (s : vm) (root : Z) (write : bool) (va : Z) : Prop :=
  exists pa a, translate (mem (pm s)) root va = Some (pa, a) /\ user_may write a.

Lemma leaf_may d size va write :
  Z.land d D_AP_EL0 <> 0 -> (write = true -> Z.land d D_AP_RO = 0) ->
  user_may write (leaf d size va).2.
Proof.
  intros He Hw. unfold leaf. cbn [snd]. split.
  - unfold D_AP_EL0 in *. by rewrite (land_attrs_bit d 6).
  - intros Ht. unfold D_AP_RO in *. rewrite (land_attrs_bit d 7) by done. auto.
Qed.

(** What was the program's stays so through a fault elsewhere, and the page of
    a resolved fault may be written. *)
Lemma cow_may s l t root p s' :
  wf s l t -> t !! [] = Some root -> mmu_current_user_table_kva s = root -> 0 <= p < 2 ^ 39 ->
  vm_cow_fault s p = (true, s') ->
  exists l', extends s l t s' l' t
    /\ (forall a, 0 <= a < 2 ^ 39 -> may s root true a -> may s' root true a)
    /\ (forall a, 0 <= a < 2 ^ 39 -> a / 4096 = p / 4096 -> may s' root true a)
    /\ (forall a, 0 <= a < 2 ^ 39 -> a / 4096 = p / 4096 -> exists q x, translate (mem (pm s)) root a = Some (q + a mod 4096, x)).
Proof.
  intros Hwf Hr Hcur Hp Hc. destruct (cow_ok s l t root p true s' Hwf Hr Hcur Hp Hc)
    as (l' & Hex & pa & at_ & pa' & He & Hro & _ & Htr).
  exists l'. split; [done|].
  assert (forall a, 0 <= a < 2 ^ 39 -> a / 4096 = p / 4096 -> may s' root true a) as Hpage.
  { intros a Ha Hs. specialize (Htr a Ha). rewrite Hs, Z.eqb_refl in Htr. destruct Htr as [_ Htr].
    eexists _, _. split; [exact Htr|]. split.
    - rewrite land_clear_disjoint by done. done.
    - intros _. apply land_clear_self. }
  split; [|split; [done|]].
  - intros a Ha (q & x & Hq & Hx). destruct (decide (a / 4096 = p / 4096)) as [Hs|Hs]; [by apply Hpage|].
    specialize (Htr a Ha). rewrite (proj2 (Z.eqb_neq _ _)) in Htr by done.
    exists q, x. by rewrite Htr.
  - intros a Ha Hs. specialize (Htr a Ha). rewrite Hs, Z.eqb_refl in Htr. destruct Htr as [Htr _]. eauto.
Qed.

Lemma table_extends s l t s' l' t' :
  extends s l t s' l' t' -> mmu_current_user_table_kva s' = mmu_current_user_table_kva s.
Proof. intros [_ _ _ _ _ [H1 H2]]. unfold mmu_current_user_table_kva. by rewrite H1, H2. Qed.

(** Only pages are shared. *)
Lemma cow_page_only s p sl size s' :
  walk_to_leaf s p = Some (sl, size) -> vm_cow_fault s p = (true, s') -> size = 4096.
Proof.
  unfold walk_to_leaf, vm_cow_fault. destruct (_ =? 0); [done|].
  set (d1 := wordv s (slot _ (i1 p))).
  destruct (Z.eqb_spec (Z.land d1 3) D_BLOCK) as [->|]; [done|].
  destruct (Z.land d1 3 =? D_TABLE); cbn [negb]; [|done].
  set (d2 := wordv s (slot _ (i2 p))).
  destruct (Z.eqb_spec (Z.land d2 3) D_BLOCK) as [->|]; [done|].
  destruct (Z.land d2 3 =? D_TABLE); cbn [negb]; [|done].
  destruct (Z.land _ 3 =? D_PAGE); cbn [negb]; [|done]. by intros [= _ <-].
Qed.

Lemma clear_block p size :
  size = 2 ^ 30 \/ size = 2 ^ 21 \/ size = 4096 -> clear p (size - 1) = p - p mod size.
Proof.
  intros [->|[->| ->]]; [apply clear_ones; lia..|]. change 4096 with (2 ^ 12). apply clear_ones. lia.
Qed.

Lemma user_ok_loop_sound fuel s l t root lo p end_ write r s' :
  wf s l t -> t !! [] = Some root -> mmu_current_user_table_kva s = root ->
  0 <= lo -> lo <= p \/ end_ <= lo -> 0 <= p -> end_ <= 2 ^ 39 ->
  (forall a, lo <= a < p -> a < end_ -> may s root write a) ->
  user_ok_loop fuel s p end_ write = Some (r, s') ->
  exists l', extends s l t s' l' t
    /\ (r = true -> forall a, lo <= a < end_ -> may s' root write a).
Proof.
  revert s l p. induction fuel as [|fuel IH]; intros s l p Hwf Hr Hcur Hlo Hlp Hp Hend Hdone; cbn [user_ok_loop].
  { destruct (Z.ltb_spec p end_); cbn [negb]; [done|]. intros [= <- <-].
    exists l. split; [by apply extends_refl|]. intros _ a Ha. apply Hdone; lia. }
  destruct (Z.ltb_spec p end_) as [Hlt|]; cbn [negb].
  2:{ intros [= <- <-]. exists l. split; [by apply extends_refl|]. intros _ a Ha. apply Hdone; lia. }
  assert (forall x, Some (false, s) = Some (r, s') -> exists l', extends s l t s' l' t /\ (r = true -> x)) as Hno.
  { intros x [= <- <-]. exists l. split; [by apply extends_refl|done]. }
  destruct (walk_to_leaf s p) as [[sl size]|] eqn:Ew; [|apply Hno].
  destruct (walk_to_leaf_block s root p sl size Hcur Ew) as [Hsize Hblk].
  destruct (Z.eqb_spec (Z.land (wordv s sl) D_VALID) 0); [apply Hno|].
  destruct (Z.eqb_spec (Z.land (wordv s sl) D_AP_EL0) 0) as [|He]; [apply Hno|].
  assert (u64 (clear p (size - 1) + size) = p - p mod size + size) as ->.
  { rewrite clear_block by done. apply uwrap_small. destruct Hsize as [->|[->| ->]]; zdm. }
  set (next := p - p mod size + size).
  assert (p < next /\ (forall a, p <= a < next -> a / size = p / size)) as (Hnext & Hin).
  { subst next. destruct Hsize as [->|[->| ->]]; repeat split; try zdm; intros; zdm. }
  destruct write; cbn [andb].
  - destruct (Z.eqb_spec (Z.land (wordv s sl) D_AP_RO) 0) as [Hro|Hro]; cbn [negb].
    + intros Hrun. apply (IH s l next); try done; [lia|lia|].
      intros a Ha Hae. destruct (decide (a < p)); [apply Hdone; lia|].
      rewrite <- (Z.add_0_r a). eexists _, _. split; [rewrite Z.add_0_r; apply Hblk; [lia|lia|apply Hin; lia]|].
      by apply (leaf_may _ size a).
    + destruct (vm_cow_fault s p) as [b s1] eqn:Ec. destruct b; cbn [negb].
      2:{ intros [= <- <-]. destruct (cow_ok s l t root p false s1 Hwf Hr Hcur) as (l1 & Hex & ->); [lia|done|].
          exists l1. split; [done|]. done. }
      destruct (cow_may s l t root p s1 Hwf Hr Hcur ltac:(lia) Ec) as (l1 & Hex & Hkeep & Hpg & Htr).
      destruct (negb _); [intros [= <- <-]; by exists l1|].
      intros Hrun.
      destruct (IH s1 l1 next) as (l2 & Hex2 & Hgo); try done; [apply Hex|by rewrite (table_extends _ _ _ _ _ _ Hex)|lia|lia| |].
      { intros a Ha Hae. destruct (decide (a < p)) as [|Hge]; [apply Hkeep; [lia|apply Hdone; lia]|].
        pose proof (cow_page_only _ _ _ _ _ Ew Ec) as ->. apply Hpg; [lia|]. apply Hin. lia. }
      exists l2. split; [by eapply extends_trans|done].
  - intros Hrun. apply (IH s l next); try done; [lia|lia|].
    intros a Ha Hae. destruct (decide (a < p)); [apply Hdone; lia|].
    eexists _, _. split; [apply Hblk; [lia|lia|apply Hin; lia]|]. by apply (leaf_may _ size a).
Qed.

Lemma user_ok_loop_total fuel s p end_ write :
  0 <= p -> p mod 4096 = 0 -> end_ <= 2 ^ 39 -> end_ - p <= 4096 * Z.of_nat fuel ->
  is_Some (user_ok_loop fuel s p end_ write).
Proof.
  revert s p. induction fuel as [|fuel IH]; intros s p Hp Hal Hend Hf; cbn [user_ok_loop];
    destruct (Z.ltb_spec p end_); cbn [negb]; try by eexists.
  { lia. }
  destruct (walk_to_leaf s p) as [[sl size]|] eqn:Ew; [|by eexists].
  destruct (walk_to_leaf_block s (mmu_current_user_table_kva s) p sl size eq_refl Ew) as [Hsize _].
  assert (u64 (clear p (size - 1) + size) = p - p mod size + size) as ->.
  { rewrite clear_block by done. apply uwrap_small. destruct Hsize as [->|[->| ->]]; zdm. }
  set (next := p - p mod size + size).
  assert (0 <= next /\ next mod 4096 = 0 /\ p + 4096 <= next) as (? & ? & ?).
  { subst next. destruct Hsize as [->|[->| ->]]; repeat split; zdm. }
  repeat case_match; try (by eexists); apply IH; lia.
Qed.

(** C13: what [vm_user_ok] lets through is the program's.  The check of any
    range of 64-bit address and length terminates; if it passes, the range does
    not wrap, lies in the user half and every byte of it translates to a page
    the program may read (and write, when that is what was asked, after the
    copies this needs); whatever it answers, no other space changes. *)
Theorem vm_user_ok_sound s l t root va len write fuel :
  wf s l t -> t !! [] = Some root -> mmu_current_user_table_kva s = root ->
  0 <= va < 2 ^ 64 -> 0 <= len < 2 ^ 64 -> len + 4096 <= 4096 * Z.of_nat fuel ->
  exists r s', vm_user_ok fuel s va len write = Some (r, s')
    /\ (r = true -> forall a, va <= a < va + len -> a < 2 ^ 39 /\ may s' root write a)
    /\ (forall t2 root2, wf s l t2 -> t2 !! [] = Some root2 -> disjoint_trees t t2 ->
         forall a, translate (mem (pm s')) root2 a = translate (mem (pm s)) root2 a).
Proof.
  intros Hwf Hr Hcur Hva Hlen Hfuel. unfold vm_user_ok.
  destruct (Z.eqb_spec len 0); [exists true, s; repeat split; try done; lia|].
  destruct (Z.ltb_spec (u64 (va + len)) va) as [|Hnw]; [exists false, s; done|].
  change USER_LIMIT with (2 ^ 39).
  destruct (Z.leb_spec (2 ^ 39) va); cbn [orb]; [exists false, s; done|].
  destruct (Z.ltb_spec (2 ^ 39) (u64 (va + len))); [exists false, s; done|].
  assert (u64 (va + len) = va + len) as Hsum by (unfold uwrap in *; zdm). rewrite Hsum in *.
  change 4095 with (4096 - 1). rewrite clear_block by lia.
  destruct (user_ok_loop_total fuel s (va - va mod 4096) (va + len) write) as [[r s'] Hrun];
    [zdm|zdm|lia|zdm|].
  exists r, s'. split; [done|].
  destruct (user_ok_loop_sound fuel s l t root (va - va mod 4096) (va - va mod 4096) (va + len) write r s')
    as (l' & Hex & Hgood); try done; [zdm|left; lia|zdm|intros; lia|].
  split.
  - intros Ht a Ha. split; [lia|]. apply Hgood; [done|]. zdm.
  - intros t2 root2 Hw2 Hr2 Hd a. by destruct (other_space _ _ _ _ _ _ _ _ Hex Hw2 Hr2 Hd) as (_ & _ & ?).
Qed.

(** ** Fork *)

(** A descriptor as [cow_share] leaves it. *)
Definition shared (o : option (Z * Z)) : option (Z * Z) :=
  (fun '(pa, a) => (pa, Z.lor a D_AP_RO)) <$> o.

(** A space made of pages only, as every program's is. *)
Definition pages_only (m : memory) (t : tree) (root : Z) : Prop :=
  forall va, 0 <= va < 2 ^ 39 -> t !! [i1 va; i2 va] = None -> translate m root va = None.

(** The copy as it stands when the pages below number [n] are done. *)
Record copying (s0 : vm) (l0 : list Z) (src : tree) (sroot droot : Z)
    (s : vm) (l : list Z) (dst : tree) (n : Z) : Prop := {
  cp_src : wf s l src;
  cp_dst : wf s l dst;
  cp_droot : dst !! [] = Some droot;
  cp_disj : disjoint_trees dst src;
  cp_cur : mmu_current_user_table_kva s = droot;
  cp_owned p : owned (pm s0) l0 p -> owned (pm s) l p;
  cp_dst_new k p : dst !! k = Some p -> ~ owned (pm s0) l0 p;
  cp_src_tr va : 0 <= va < 2 ^ 39 ->
    translate (mem (pm s)) sroot va =
      if va / 4096 <? n then shared (translate (mem (pm s0)) sroot va)
      else translate (mem (pm s0)) sroot va;
  cp_dst_tr va : 0 <= va < 2 ^ 39 ->
    translate (mem (pm s)) droot va =
      if va / 4096 <? n then shared (translate (mem (pm s0)) sroot va) else None;
  cp_frame w : owned (pm s0) l0 (page_of w) -> (forall k p, src !! k = Some p -> page_of w <> p) ->
    wordv s w = wordv s0 w
}.

Lemma shared_none o : shared o = None <-> o = None.
Proof. unfold shared. by destruct o. Qed.

(** A page with nothing on it is skipped. *)
Lemma copying_skip s0 l0 src sroot droot s l dst n n' :
  copying s0 l0 src sroot droot s l dst n -> n <= n' ->
  (forall va, 0 <= va < 2 ^ 39 -> n <= va / 4096 < n' -> translate (mem (pm s0)) sroot va = None) ->
  copying s0 l0 src sroot droot s l dst n'.
Proof.
  intros [H1 H2 H3 H4 H5 H6 H7 H8 H9 H10] Hn Hnone. split; try done; intros va Hva.
  - rewrite H8 by done. specialize (Hnone va Hva).
    destruct (Z.ltb_spec (va / 4096) n), (Z.ltb_spec (va / 4096) n'); try lia; try done.
    rewrite Hnone by lia. done.
  - rewrite H9 by done. specialize (Hnone va Hva).
    destruct (Z.ltb_spec (va / 4096) n), (Z.ltb_spec (va / 4096) n'); try lia; try done.
    rewrite Hnone by lia. done.
Qed.

Lemma attrs_lor_ro d : attrs (Z.lor d D_AP_RO) = Z.lor (attrs d) D_AP_RO.
Proof. rewrite attrs_lor. f_equal. Qed.

Lemma leaf_of_share d va : leaf_of (Z.lor d D_AP_RO) va = shared (leaf_of d va).
Proof.
  unfold leaf_of. rewrite Z.land_lor_distr_l. change (Z.land D_AP_RO 3) with 0. rewrite Z.lor_0_r.
  destruct (Z.land d 3 =? D_PAGE); [|done]. rewrite !leaf_page.
  rewrite Z.land_lor_distr_l. change (Z.land D_AP_RO ADDR_MASK) with 0. rewrite Z.lor_0_r.
  unfold shared. cbn. by rewrite attrs_lor_ro.
Qed.

(** One page of the copy. *)
Lemma copying_page s0 l0 src sroot droot s l dst va l3 :
  let n := va / 4096 in
  wf s0 l0 src -> src !! [] = Some sroot ->
  copying s0 l0 src sroot droot s l dst n -> 0 <= va < 2 ^ 39 -> va mod 4096 = 0 ->
  src !! [i1 va; i2 va] = Some l3 ->
  Z.land (wordv s (slot l3 (i3 va))) 3 = D_PAGE ->
  let s1 := (cow_share s (slot l3 (i3 va))).2 in
  forall b s2, map_user_page_raw s1 va (cow_share s (slot l3 (i3 va))).1 = (b, s2) -> b = true ->
  exists l' dst', copying s0 l0 src sroot droot s2 l' dst' (n + 1).
Proof.
  intros n Hw0 Hr0 Hcp Hva Hal Hl3 Hpg s1 b s2 Hmap ->.
  destruct Hcp as [Hs Hd Hdr Hdis Hcur Hown Hnew Hst Hdt Hfr].
  set (d := wordv s (slot l3 (i3 va))) in *.
  destruct (store_leaf_ok s l src sroot va l3 (Z.lor d D_AP_RO) Hs Hr0 Hl3 Hva) as [Hex1 Htr1].
  set (sa := storev s (slot l3 (i3 va)) (Z.lor d D_AP_RO)) in *. cbv zeta in Hex1, Htr1.
  destruct (page_ref_shape (pm sa) (Z.land d ADDR_MASK)) as (r & bb & nn & Hsh).
  assert (s1 = set_pm sa (set_refs (pm sa) r bb nn)) as Hs1.
  { unfold s1, cow_share. cbn [snd]. fold d. fold sa. by rewrite Hsh. }
  assert ((cow_share s (slot l3 (i3 va))).1 = Z.lor d D_AP_RO) as Hsv.
  { unfold cow_share. cbn [fst]. fold d. fold sa. rewrite Hsh. unfold wordv. cbn. apply word_store_eq. }
  rewrite Hsv in Hmap.
  assert (extends s l src s1 l src) as Hexs.
  { rewrite Hs1. eapply extends_trans; [exact Hex1|]. apply extends_set_refs. apply Hex1. }
  destruct (other_space _ _ _ _ _ _ dst droot Hexs Hd Hdr) as (Hd1 & _ & Hdt1).
  { intros k k2 p H1 H2. by eapply Hdis. }
  assert (mmu_current_user_table_kva s1 = droot) as Hcur1 by (by rewrite (table_extends _ _ _ _ _ _ Hexs)).
  destruct (map_raw_ok s1 l dst droot va _ true s2 Hd1 Hdr Hcur1 Hva Hmap) as (l2 & dst2 & Hexd & _ & Htr2).
  destruct (other_space _ _ _ _ _ _ src sroot Hexd (ex_wf _ _ _ _ _ _ Hexs) Hr0 Hdis) as (Hs2 & Hdis2 & Hst2).
  assert (mem (pm s1) = mem (pm sa)) as Hmem by (by rewrite Hs1).
  assert (translate (mem (pm s0)) sroot va = leaf_of d va) as Hcurv.
  { pose proof (Hst va Hva) as Hv. rewrite Z.ltb_irrefl in Hv. rewrite <- Hv.
    rewrite (translate_walk _ _ _ (wf_space _ _ _ Hs) Hr0). unfold walk.
    destruct (so_parent _ _ (wf_space _ _ _ Hs) [i1 va] (i2 va) l3 Hl3) as (_ & _ & [l2p ->]).
    rewrite Hl3. fold (wordv s (slot l3 (i3 va))). fold d. unfold leaf_of. by destruct (_ =? _). }
  assert (forall va', 0 <= va' < 2 ^ 39 -> va' / 4096 = n ->
            translate (mem (pm s0)) sroot va' = leaf_of d va') as Hpage.
  { intros va' Hva' Hn. pose proof (Hst va' Hva') as Hv. rewrite Hn, Z.ltb_irrefl in Hv. rewrite <- Hv.
    destruct (proj2 (same_page va' va Hva' Hva) Hn) as (Hi1 & Hi2 & Hi3).
    rewrite (translate_walk _ _ _ (wf_space _ _ _ Hs) Hr0). unfold walk. rewrite Hi1, Hi2, Hi3.
    destruct (so_parent _ _ (wf_space _ _ _ Hs) [i1 va] (i2 va) l3 Hl3) as (_ & _ & [l2p ->]).
    rewrite Hl3. fold (wordv s (slot l3 (i3 va))). fold d. unfold leaf_of. by destruct (_ =? _). }
  exists l2, dst2. split; try done.
  - apply Hexd.
  - eapply lookup_weaken; [exact Hdr|apply Hexd].
  - by rewrite (table_extends _ _ _ _ _ _ Hexd).
  - intros p Hp. apply (ex_owned _ _ _ _ _ _ Hexd), (ex_owned _ _ _ _ _ _ Hexs). by apply Hown.
  - intros k p Hk Hp. destruct (dst !! k) as [q|] eqn:E.
    + pose proof (lookup_weaken _ _ _ _ E (ex_tree _ _ _ _ _ _ Hexd)). assert (q = p) as -> by congruence.
      by apply (Hnew k p E).
    + apply (ex_new _ _ _ _ _ _ Hexd k p Hk E), (ex_owned _ _ _ _ _ _ Hexs). by apply Hown.
  - intros va' Hva'. rewrite Hst2, Hmem, Htr1, Hst by done. fold n.
    destruct (Z.eqb_spec (va' / 4096) n) as [He|He].
    + rewrite (proj2 (Z.ltb_lt _ _)) by lia. rewrite (Hpage va' Hva' He). apply leaf_of_share.
    + destruct (Z.ltb_spec (va' / 4096) n), (Z.ltb_spec (va' / 4096) (n + 1)); done || lia.
  - intros va' Hva'. rewrite Htr2, Hdt1, Hdt by done. fold n. cbn [andb].
    destruct (Z.eqb_spec (va' / 4096) n) as [He|He].
    + rewrite (proj2 (Z.ltb_lt _ (n + 1))) by lia. rewrite (Hpage va' Hva' He). apply leaf_of_share.
    + destruct (Z.ltb_spec (va' / 4096) n), (Z.ltb_spec (va' / 4096) (n + 1)); done || lia.
  - intros w Hw Hws. rewrite (ex_frame _ _ _ _ _ _ Hexd); [rewrite (ex_frame _ _ _ _ _ _ Hexs)| |].
    + by apply Hfr.
    + by apply Hown.
    + done.
    + apply (ex_owned _ _ _ _ _ _ Hexs). by apply Hown.
    + intros k p Hk <-. by apply (Hnew k (page_of w) Hk).
Qed.

Lemma va_sum a1 a2 i :
  0 <= i < 512 -> 0 <= a2 < 512 ->
  Z.lor (Z.lor (Z.shiftl a1 30) (Z.shiftl a2 21)) (Z.shiftl i 12)
  = (a1 * 2 ^ 18 + a2 * 2 ^ 9 + i) * 4096.
Proof.
  intros Hi Ha2. rewrite Z.lor_comm, (Z.lor_comm (Z.shiftl a1 30)), Z.lor_assoc.
  rewrite (lor_shiftl_add _ a2) by (rewrite ?Z.shiftl_mul_pow2; lia).
  rewrite (lor_shiftl_add _ a1) by (rewrite ?Z.shiftl_mul_pow2; lia).
  rewrite Z.shiftl_mul_pow2 by lia. lia.
Qed.

(** The address of page [i] under table [[a1; a2]]. *)
Lemma va_indices a1 a2 i :
  0 <= a1 < 512 -> 0 <= a2 < 512 -> 0 <= i < 512 ->
  let va := (a1 * 2 ^ 18 + a2 * 2 ^ 9 + i) * 4096 in
  0 <= va < 2 ^ 39 /\ va mod 4096 = 0 /\ va / 4096 = a1 * 2 ^ 18 + a2 * 2 ^ 9 + i
  /\ i1 va = a1 /\ i2 va = a2 /\ i3 va = i.
Proof. intros ??? va. rewrite i1_div, i2_div, i3_div. subst va. repeat split; zdm. Qed.

Lemma indices_of va n w :
  0 <= va < 2 ^ 39 -> 0 <= w < 512 -> n * 512 <= va / 4096 < n * 512 + 512 ->
  i1 va = n / 512 mod 512 /\ i2 va = n mod 512.
Proof. intros. rewrite i1_div, i2_div. split; zdm. Qed.

(** An entry that is not a table, in a state of the copy. *)
Lemma not_table s l t k p i :
  wf s l t -> t !! k = Some p -> (length k < 2)%nat -> 0 <= i < 512 ->
  if Z.land (wordv s (slot p i)) 3 =? D_TABLE
  then t !! (k ++ [i]) = Some (table_at (wordv s (slot p i))) else t !! (k ++ [i]) = None.
Proof.
  intros Hwf Hk Hlen Hi. pose proof (so_child _ _ (wf_space _ _ _ Hwf) k p i Hk Hlen Hi) as Hc.
  fold (wordv s (slot p i)) in Hc. destruct (t !! (k ++ [i])) as [q|] eqn:E.
  - pose proof (so_kva _ _ (wf_space _ _ _ Hwf) _ _ E). rewrite Hc, desc_type, table_at_desc by done. done.
  - unfold D_TABLE. by zsplit.
Qed.

Section fork.
Context (s0 : vm) (l0 : list Z) (src : tree) (sroot droot : Z).
Context (Hw0 : wf s0 l0 src) (Hr0 : src !! [] = Some sroot) (Hpo : pages_only (mem (pm s0)) src sroot).

Abbreviation at_page := (copying s0 l0 src sroot droot).

Lemma copy_l3_ok n : forall s l dst a1 a2 l3 i s',
  0 <= a1 < 512 -> 0 <= a2 < 512 -> 0 <= i -> i + Z.of_nat n <= 512 ->
  src !! [a1; a2] = Some l3 ->
  at_page s l dst (a1 * 2 ^ 18 + a2 * 2 ^ 9 + i) ->
  copy_l3 s a1 a2 l3 i n = (true, s') ->
  exists l' dst', at_page s' l' dst' (a1 * 2 ^ 18 + a2 * 2 ^ 9 + i + Z.of_nat n).
Proof.
  induction n as [|n IH]; intros s l dst a1 a2 l3 i s' Ha1 Ha2 Hi Hn Hl3 Hcp; cbn [copy_l3].
  { intros [= <-]. exists l, dst. by rewrite Z.add_0_r. }
  destruct (va_indices a1 a2 i Ha1 Ha2 ltac:(lia)) as (Hva & Hal & Hpn & Hi1 & Hi2 & Hi3).
  rewrite va_sum by lia. set (va := (a1 * 2 ^ 18 + a2 * 2 ^ 9 + i) * 4096) in *.
  replace (a1 * 2 ^ 18 + a2 * 2 ^ 9 + i + Z.of_nat (S n))
    with (a1 * 2 ^ 18 + a2 * 2 ^ 9 + (i + 1) + Z.of_nat n) by lia.
  assert (src !! [i1 va; i2 va] = Some l3) as Hl3' by (by rewrite Hi1, Hi2).
  destruct (Z.eqb_spec (Z.land (wordv s (slot l3 i)) 3) D_PAGE) as [Hp|Hp]; cbn [negb].
  - destruct (cow_share s (slot l3 i)) as [d s1] eqn:Ecs.
    destruct (map_user_page_raw s1 va d) as [b s2] eqn:Em. destruct b; cbn [negb]; [|done].
    destruct (copying_page s0 l0 src sroot droot s l dst va l3 Hw0 Hr0) with (b := true) (s2 := s2)
      as (l' & dst' & Hcp'); try done; rewrite ?Hi3, ?Ecs, ?Hpn; try done.
    rewrite Hpn in Hcp'. intros Hrun. eapply (IH s2 l' dst'); try done; [lia|lia|].
    by rewrite Z.add_assoc.
  - intros Hrun. eapply (IH s l dst); try done; [lia|lia|].
    rewrite Z.add_assoc. eapply copying_skip; [exact Hcp|lia|]. intros va' Hva' Hs.
    assert (va' / 4096 = va / 4096) as Hsame by lia.
    destruct (proj2 (same_page va' va Hva' Hva) Hsame) as (Hj1 & Hj2 & Hj3).
    pose proof (cp_src_tr _ _ _ _ _ _ _ _ _ Hcp va' Hva') as Htr.
    rewrite (proj2 (Z.ltb_ge _ _)) in Htr by lia. rewrite <- Htr.
    pose proof (wf_space _ _ _ (cp_src _ _ _ _ _ _ _ _ _ Hcp)) as Hsp.
    rewrite (translate_walk _ _ _ Hsp Hr0). unfold walk. rewrite Hj1, Hj2, Hj3.
    destruct (so_parent _ _ Hsp [i1 va] (i2 va) l3 Hl3') as (_ & _ & [l2p ->]). rewrite Hl3', Hi3.
    fold (wordv s (slot l3 i)). rewrite (proj2 (Z.eqb_neq _ _)) by done. done.
Qed.

Lemma copy_l2_ok n : forall s l dst a1 l2 i s',
  0 <= a1 < 512 -> 0 <= i -> i + Z.of_nat n <= 512 ->
  src !! [a1] = Some l2 ->
  at_page s l dst (a1 * 2 ^ 18 + i * 2 ^ 9) ->
  copy_l2 s a1 l2 i n = (true, s') ->
  exists l' dst', at_page s' l' dst' (a1 * 2 ^ 18 + (i + Z.of_nat n) * 2 ^ 9).
Proof.
  induction n as [|n IH]; intros s l dst a1 l2 i s' Ha1 Hi Hn Hl2 Hcp; cbn [copy_l2].
  { intros [= <-]. exists l, dst. by rewrite Z.add_0_r. }
  replace (i + Z.of_nat (S n)) with (i + 1 + Z.of_nat n) by lia.
  pose proof (not_table s l src [a1] l2 i (cp_src _ _ _ _ _ _ _ _ _ Hcp) Hl2 ltac:(simpl; lia) ltac:(lia)) as Hnt.
  cbn [app] in Hnt. destruct (Z.land (wordv s (slot l2 i)) 3 =? D_TABLE); cbn [negb].
  - destruct (copy_l3 s a1 i (table_at (wordv s (slot l2 i))) 0 512) as [go s1] eqn:E3.
    destruct go; cbn [negb]; [|done]. intros Hrun.
    rewrite <- (Z.add_0_r (_ + _)) in Hcp.
    destruct (copy_l3_ok 512 s l dst a1 i _ 0 s1 Ha1 ltac:(lia) ltac:(lia) ltac:(lia) Hnt Hcp E3)
      as (l' & dst' & Hcp').
    eapply (IH s1 l' dst'); try done; [lia|lia|].
    replace (a1 * 2 ^ 18 + (i + 1) * 2 ^ 9) with (a1 * 2 ^ 18 + i * 2 ^ 9 + 0 + Z.of_nat 512) by lia. done.
  - intros Hrun. eapply (IH s l dst); try done; [lia|lia|].
    eapply copying_skip; [exact Hcp|lia|]. intros va' Hva' Hs. apply Hpo; [done|].
    assert (i1 va' = a1 /\ i2 va' = i) as [-> ->]; [|done].
    rewrite i1_div, i2_div. split; zdm.
Qed.

Lemma copy_l1_ok n : forall s l dst i s',
  0 <= i -> i + Z.of_nat n <= 512 ->
  at_page s l dst (i * 2 ^ 18) ->
  copy_l1 s sroot i n = (true, s') ->
  exists l' dst', at_page s' l' dst' ((i + Z.of_nat n) * 2 ^ 18).
Proof.
  induction n as [|n IH]; intros s l dst i s' Hi Hn Hcp; cbn [copy_l1].
  { intros [= <-]. exists l, dst. by rewrite Z.add_0_r. }
  replace (i + Z.of_nat (S n)) with (i + 1 + Z.of_nat n) by lia.
  pose proof (cp_src _ _ _ _ _ _ _ _ _ Hcp) as Hws.
  pose proof (not_table s l src [] sroot i Hws Hr0 ltac:(simpl; lia) ltac:(lia)) as Hnt.
  cbn [app] in Hnt. destruct (Z.land (wordv s (slot sroot i)) 3 =? D_TABLE); cbn [negb].
  - destruct (copy_l2 s i (table_at (wordv s (slot sroot i))) 0 512) as [go s1] eqn:E2.
    destruct go; cbn [negb]; [|done]. intros Hrun.
    replace (i * 2 ^ 18) with (i * 2 ^ 18 + 0 * 2 ^ 9) in Hcp by lia.
    destruct (copy_l2_ok 512 s l dst i _ 0 s1 ltac:(lia) ltac:(lia) ltac:(lia) Hnt Hcp E2)
      as (l' & dst' & Hcp').
    eapply (IH s1 l' dst'); try done; [lia|lia|].
    replace ((i + 1) * 2 ^ 18) with (i * 2 ^ 18 + (0 + Z.of_nat 512) * 2 ^ 9) by lia. done.
  - intros Hrun. eapply (IH s l dst); try done; [lia|lia|].
    eapply copying_skip; [exact Hcp|lia|]. intros va' Hva' Hs. apply Hpo; [done|].
    assert (i1 va' = i) as -> by (rewrite i1_div; zdm).
    destruct (src !! [i; i2 va']) eqn:E; [|done].
    destruct (so_parent _ _ (wf_space _ _ _ Hws) [i] (i2 va') _ E) as (_ & _ & [? ?]). congruence.
Qed.
End fork.

(** ** A new space *)
Lemma new_space_ok s l p s' :
  ok (pm s) l -> high_half (pm s) = true -> vm_new_space s = (p, s') -> p <> 0 ->
  exists l', wf s' l' {[ [] := p ]} /\ ~ owned (pm s) l p
    /\ (forall q, owned (pm s) l q -> owned (pm s') l' q)
    /\ (forall a, page_of a <> p -> wordv s' a = wordv s a)
    /\ (forall va, translate (mem (pm s')) p va = None)
    /\ user_table_kva s' = user_table_kva s /\ l1_user s' = l1_user s.
Proof.
  intros Hok Hh. unfold vm_new_space.
  assert (wf s l ∅) as Hw.
  { by split. }
  destruct (alloc s) as [q s1] eqn:Ea.
  destruct (alloc_ok s l ∅ q s1 Hw Ea) as [[-> ->]|(l1 & Hq0 & Hex & Hno & Hq & Hk & Hfr)].
  { change (0 =? 0) with true. cbv iota. rewrite pair_equal_spec. intros [<- _]. done. }
  destruct (Z.eqb_spec q 0); [done|]. rewrite pair_equal_spec. intros [<- <-] _.
  set (m2 := fill (mem (pm s1)) q 0 512).
  assert (forall a, page_of a <> q -> word m2 a = wordv s1 a) as Hm2.
  { intros a Ha. apply word_zero_page_out; [apply Hk|done]. }
  pose proof (fresh_write_ok s l s1 l1 ∅ q m2 Hw Hex Hno Hq Hm2) as Hex2.
  assert (forall i, 0 <= i < 512 -> word m2 (slot q i) = 0) as Hz.
  { intros i Hi. apply word_fill_in. exists i. done. }
  assert (space_ok m2 {[ [] := q ]}) as Hsp.
  { split.
    - intros k k' p H1 H2. apply lookup_singleton_Some in H1 as [<- _].
      by apply lookup_singleton_Some in H2 as [<- _].
    - intros k p H1. by apply lookup_singleton_Some in H1 as [<- <-].
    - intros k i p H1. apply lookup_singleton_Some in H1 as [He _]. by destruct k.
    - intros k p i H1 _ Hi. apply lookup_singleton_Some in H1 as [<- <-].
      rewrite lookup_singleton_ne by done. by rewrite Hz. }
  exists l1. split; [|split; [done|split; [apply Hex2|split; [|split]]]].
  - split; [apply Hex2|apply Hex2|done|].
    intros k p H1. apply lookup_singleton_Some in H1 as [_ <-]. exact Hq.
  - intros a Ha. change (word m2 a = wordv s a). rewrite Hm2 by done. by apply Hfr.
  - intros va. change (translate m2 q va = None).
    rewrite (translate_walk m2 {[ [] := q ]} q Hsp (lookup_singleton_eq _ _)). unfold walk.
    rewrite lookup_singleton_ne by done. by rewrite Hz by apply i1_range.
  - apply Hex2.
Qed.

(** C6: fork duplicates a space without copying it.  If [vm_copy_space]
    succeeds on a space made of pages, the child has page tables of its own,
    and every address translates in the child and in the parent to the very
    frame it had in the parent, with the same permissions but for writing,
    which both have lost; what the parent had not mapped neither has; and no
    word off the parent's tables changed, so every other space translates as
    before and every page holds what it held. *)
Theorem vm_copy_space_shares s l src sroot d s' :
  wf s l src -> src !! [] = Some sroot -> mmu_current_user_table_kva s = sroot ->
  pages_only (mem (pm s)) src sroot ->
  vm_copy_space s sroot = (d, s') -> d <> 0 ->
  exists l' dst, wf s' l' src /\ wf s' l' dst /\ dst !! [] = Some d /\ disjoint_trees dst src
    /\ mmu_current_user_table_kva s' = sroot
    /\ (forall va, 0 <= va < 2 ^ 39 ->
         translate (mem (pm s')) d va = shared (translate (mem (pm s)) sroot va)
         /\ translate (mem (pm s')) sroot va = shared (translate (mem (pm s)) sroot va))
    /\ (forall w, owned (pm s) l (page_of w) -> (forall k p, src !! k = Some p -> page_of w <> p) ->
         wordv s' w = wordv s w).
Proof.
  intros Hw Hr Hcur Hpo. unfold vm_copy_space. destruct (vm_new_space s) as [p s1] eqn:En.
  destruct (Z.eqb_spec p 0); [rewrite pair_equal_spec; intros [<- _]; done|].
  destruct (new_space_ok s l p s1 (wf_pmm _ _ _ Hw) (wf_high _ _ _ Hw) En)
    as (l1 & Hw1 & Hno & Hown & Hfr & Htr0 & Hu); [done|].
  set (saved := mmu_current_user_table_kva s1).
  assert (saved = sroot) as Hsaved.
  { subst saved. rewrite <- Hcur. unfold mmu_current_user_table_kva. destruct Hu as [-> ->]. done. }
  set (s2 := mmu_set_current_user_table_kva s1 p).
  assert (forall k q i, src !! k = Some q -> 0 <= i < 512 -> wordv s1 (slot q i) = wordv s (slot q i)) as Hsw.
  { intros k q i Hk Hi. apply Hfr. rewrite slot_page; [|by eapply (so_kva _ _ (wf_space _ _ _ Hw))|done].
    intros ->. apply Hno. by eapply wf_own. }
  assert (wf s2 l1 src) as Hws2.
  { split; [apply Hw1|apply Hw1| |].
    - eapply space_frame; [apply Hw|]. intros k q i Hk _ Hi. by apply (Hsw k q i).
    - intros k q Hk. apply Hown. by eapply (wf_own _ _ _ Hw). }
  assert (copying s l src sroot p s2 l1 {[ [] := p ]} (0 * 2 ^ 18)) as Hcp.
  { split; try done.
    - by destruct Hw1.
    - intros k k2 q H1 H2. apply lookup_singleton_Some in H1 as [_ <-]. apply Hno. by eapply wf_own.
    - unfold mmu_current_user_table_kva, s2. cbn. by zsplit.
    - intros k q H1. by apply lookup_singleton_Some in H1 as [_ <-].
    - intros va Hva. rewrite (proj2 (Z.ltb_ge _ _)) by zdm.
      apply (translate_frame _ _ src); [apply Hw|done|]. intros k q i Hk Hi. by apply (Hsw k q i).
    - intros va Hva. rewrite (proj2 (Z.ltb_ge _ _)) by zdm. apply Htr0.
    - intros w Ha _. apply Hfr. intros He. rewrite He in Ha. done. }
  destruct (copy_l1 s2 sroot 0 512) as [go s3] eqn:Ec. destruct go.
  2:{ rewrite pair_equal_spec. intros [<- _]. done. }
  rewrite pair_equal_spec. intros [<- <-] _.
  destruct (copy_l1_ok s l src sroot p Hw Hr Hpo 512 s2 l1 _ 0 s3 ltac:(lia) ltac:(lia) Hcp Ec)
    as (l' & dst & [H1 H2 H3 H4 H5 H6 H7 H8 H9 H10]).
  exists l', dst. split; [by destruct H1|]. split; [by destruct H2|]. split; [done|]. split; [done|].
  split.
  { unfold mmu_current_user_table_kva. cbn. rewrite Hsaved. zsplit; [|done].
    destruct (so_kva _ _ (wf_space _ _ _ Hw) _ _ Hr) as [_ ?]. unfold KVA_OFFSET in *. lia. }
  split; [|exact H10]. intros va Hva. cbn [pm mmu_set_current_user_table_kva].
  rewrite H8, H9 by done. rewrite (proj2 (Z.ltb_lt _ _)); [done|]. zdm.
Qed.

(** ** A machine that has just booted, with one program of one page *)
Definition boot : vm := Vm (Pmm true 0x1000 0x1000 0x41000 0 0 0 0 None 0 0 ∅) 0 0.
Definition boot_root : Z := KVA_OFFSET + 0x1000.
Definition boot_space : vm := mmu_set_current_user_table_kva (vm_new_space boot).2 boot_root.
Definition boot_page : Z := KVA_OFFSET + 0x9000.
(** The page at 0x400000, [d] its descriptor. *)
Definition boot_with (d : Z) : vm := (map_user_page_raw boot_space 0x400000 d).2.

Lemma pair_fst {A B} (p : A * B) a : p.1 = a -> exists b, p = (a, b).
Proof. destruct p as [x b]. cbn. intros ->. by exists b. Qed.

Lemma wf_table s l t r :
  wf s l t -> wf (mmu_set_current_user_table_kva s r) l t.
Proof. by intros []. Qed.

Lemma boot_space_wf :
  exists l, wf boot_space l {[ [] := boot_root ]}
    /\ forall va, translate (mem (pm boot_space)) boot_root va = None.
Proof.
  destruct (pair_fst (vm_new_space boot) boot_root) as [s1 E]; [vm_compute; reflexivity|].
  unfold boot_space. rewrite E. cbn [snd].
  destruct (new_space_ok boot [] boot_root s1) as (l & Hw & _ & _ & _ & Htr & _).
  - split; try done. by apply NoDup_nil_2.
  - done.
  - exact E.
  - done.
  - exists l. split; [by apply wf_table|exact Htr].
Qed.

Lemma boot_with_wf d :
  (map_user_page_raw boot_space 0x400000 d).1 = true ->
  exists l t, wf (boot_with d) l t /\ t !! [] = Some boot_root
    /\ mmu_current_user_table_kva (boot_with d) = boot_root
    /\ pages_only (mem (pm (boot_with d))) t boot_root.
Proof.
  unfold boot_with. destruct boot_space_wf as (l & Hw & Htr0).
  assert (mmu_current_user_table_kva boot_space = boot_root) as Hcur by reflexivity.
  intros [s' Em]%pair_fst. rewrite Em. cbn [snd]. revert Hw Htr0 Hcur Em. generalize boot_space.
  intros s Hw Htr0 Hcur Em.
  destruct (map_raw_ok s l _ boot_root 0x400000 d true s' Hw) as (l' & t' & Hex & Hsome & Htr);
    [by rewrite lookup_singleton_eq|done|lia|done|].
  exists l', t'. split; [apply Hex|]. split; [|split].
  - eapply lookup_weaken; [|apply Hex]. by rewrite lookup_singleton_eq.
  - by rewrite (table_extends _ _ _ _ _ _ Hex).
  - intros va Hva Hnone. rewrite Htr by done. cbn [andb].
    destruct (Z.eqb_spec (va / 4096) (0x400000 / 4096)) as [He|]; [|apply Htr0].
    destruct (proj2 (same_page va 0x400000 Hva ltac:(lia)) He) as (Hi1 & Hi2 & _).
    rewrite Hi1, Hi2 in Hnone. destruct (Hsome eq_refl). congruence.
Qed.

Lemma map_user_page_translates_witness :
  exists s', map_user_page boot_space 0x400000 boot_page true = (true, s')
    /\ translate (mem (pm s')) boot_root 0x400123 = Some (boot_page - KVA_OFFSET + 0x123, user_attrs true).
Proof.
  destruct boot_space_wf as (l & Hw & _).
  destruct (pair_fst (map_user_page boot_space 0x400000 boot_page true) true) as [s' Hm];
    [vm_compute; reflexivity|].
  assert (mmu_current_user_table_kva boot_space = boot_root) as Hcur by reflexivity.
  exists s'. split; [exact Hm|].
  destruct (map_user_page_translates boot_space l _ boot_root 0x400000 boot_page true true s' Hw
              (lookup_singleton_eq _ _) Hcur ltac:(lia) ltac:(split; [done|unfold boot_page; lia]) Hm)
    as (l' & t' & _ & _ & Htr & _).
  exact (Htr 0x400123 ltac:(lia)).
Defined.

Definition boot_shared : vm := boot_with (Z.lor (user_desc 0x9000 false) D_AP_RO).


Lemma vm_user_ok_sound_witness :
  exists r s', vm_user_ok 2 boot_shared 0x400ff0 16 true = Some (r, s')
    /\ r = true /\ may s' boot_root true 0x400fff.
Proof.
  destruct (boot_with_wf (Z.lor (user_desc 0x9000 false) D_AP_RO)) as (l & t & Hw & Hr & Hc & _);
    [vm_compute; reflexivity|].
  destruct (vm_user_ok_sound boot_shared l t boot_root 0x400ff0 16 true 2 Hw Hr Hc
              ltac:(lia) ltac:(lia) ltac:(lia)) as (r & s' & Hrun & Hgo & _).
  assert (option_map fst (vm_user_ok 2 boot_shared 0x400ff0 16 true) = Some true) as Ht
    by (vm_compute; reflexivity).
  rewrite Hrun in Ht. cbn [option_map fst] in Ht. injection Ht as Ht.
  exists r, s'. split; [exact Hrun|]. split; [exact Ht|]. apply (proj2 (Hgo Ht 0x400fff ltac:(lia))).
Defined.

Lemma vm_copy_space_shares_witness :
  exists d s', vm_copy_space (boot_with (user_desc 0x9000 false)) boot_root = (d, s') /\ d <> 0
    /\ translate (mem (pm s')) d 0x400010
       = shared (translate (mem (pm (boot_with (user_desc 0x9000 false)))) boot_root 0x400010).
Proof.
  destruct (boot_with_wf (user_desc 0x9000 false)) as (l & t & Hw & Hr & Hc & Hp);
    [vm_compute; reflexivity|].
  destruct (pair_fst (vm_copy_space (boot_with (user_desc 0x9000 false)) boot_root) (KVA_OFFSET + 0x4000))
    as [s' Hv]; [vm_compute; reflexivity|].
  destruct (vm_copy_space_shares _ l t boot_root _ _ Hw Hr Hc Hp Hv ltac:(done))
    as (l' & dst & _ & _ & _ & _ & _ & Htr & _).
  exists (KVA_OFFSET + 0x4000), s'. split; [exact Hv|]. split; [done|].
  exact (proj1 (Htr 0x400010 ltac:(lia))).
Defined.

(** A block, and what [split] makes of it. *)
Lemma split_same_memory_witness :
  let d := 0x40000705 in
  let s := storev boot_space (slot boot_root 1) d in
  exists q s', split s (slot boot_root 1) (2 ^ 21) = (q, s')
    /\ translate (mem (pm s')) boot_root 0x40200123 = translate (mem (pm s)) boot_root 0x40200123
    /\ translate (mem (pm s)) boot_root 0x40200123 = Some (0x40200123, 0x704).
Proof.
  intros d s. destruct boot_space_wf as (l & Hw & _).
  assert (wf s l {[ [] := boot_root ]}) as Hs.
  { destruct Hw as [W1 W2 W3 W4].
    assert (({[ [] := boot_root ]} : tree) !! [] = Some boot_root) as Hr by apply lookup_singleton_eq.
    pose proof (so_kva _ _ W3 _ _ Hr) as Hk. subst s. revert W1 W2 W3 W4. generalize boot_space.
    intros s W1 W2 W3 W4. split; [|exact W2| |exact W4].
    - apply (write_ok (pm s) l W1 (slot boot_root 1) d). rewrite slot_page by (done || lia). by eapply W4.
    - destruct W3 as [I K P C]. split; try done. intros k p i Hkp Hl Hi.
      specialize (C k p i Hkp Hl Hi). pose proof (K _ _ Hkp) as Hpk.
      change (mem (pm (storev s (slot boot_root 1) d))) with (store (mem (pm s)) (slot boot_root 1) d).
      rewrite store_slot_words by (done || lia). case_bool_decide as E; [|exact C].
      destruct E as [-> ->]. apply lookup_singleton_Some in Hkp as [<- _].
      rewrite lookup_singleton_ne by done. done. }
  destruct (split s (slot boot_root 1) (2 ^ 21)) as [q s'] eqn:E. exists q, s'. split; [done|].
  split; [|vm_compute; reflexivity].
  apply (split_same_memory s l _ boot_root [] boot_root 1 (2 ^ 21) q s' Hs (lookup_singleton_eq _ _));
    [apply lookup_singleton_eq|lia|by rewrite lookup_singleton_ne|by left|exact E].
Defined.
