(* ===== verification/Sched.v ===== *)
(** * Threads and the scheduler

    [stam/sched.c]: the table of slots, the choice of who runs next, the switch
    and everything that blocks, wakes, signals and collects a thread.  Every
    operation below is one section under the scheduler lock; [me] is the
    processor that runs it.  The theorems: no two processors ever run one
    thread, the choice is round robin, ids are never reused, and a finished
    process keeps its status until its own parent takes it. *)
From S2P Require Import Prelude Mem Pmm Sav.

Definition NSIG : nat := 32.
Definition NFD : nat := 8.
Definition MAX_CPUS : nat := 8.
Definition MAX_THREADS : nat := (16 + MAX_CPUS)%nat.
Definition STACK_PAGES : Z := 4.
Definition STACK_CANARY : Z := 0x5354414d4b475244.

Inductive tstate := RUNNABLE | ZOMBIE | BLOCKED | FREE | RUNNING.
#[global] Instance tstate_eq_dec : EqDecision tstate.
Proof. solve_decision. Defined.

Definition WAIT_CHILD : Z := 1.
Definition WAIT_CONSOLE : Z := 2.
Definition WAIT_PIPE : Z := 3.
Definition SIGINT : Z := 2.
Definition SIGKILL : Z := 9.

(** [sigact[s]]: handler, restorer, mask. *)
Record sigaction := SigAction { sa_handler : Z; sa_restorer : Z; sa_mask : Z }.

(** [thread_t].  [t_name] is the string; a descriptor is the number of a file
    object, and [t_sav] the manifest of the image. *)
Record thread := Thread {
  t_sp : Z; t_stack_low : Z; t_id : Z; t_state : tstate; t_name : string; t_slices : Z;
  t_space : Z; t_user_table : Z; t_parent : Z; t_status : Z; t_wait_reason : Z;
  t_last_cpu : Z; t_ran_on : Z; t_home : Z; t_pgid : Z; t_pending : Z;
  t_wait_object : Z; t_wake_at : Z; t_blocked : Z; t_sigact : list sigaction;
  t_fd : list (option nat); t_sav : sav_manifest
}.

Definition eta_thread (t : thread) : thread :=
  Thread (t_sp t) (t_stack_low t) (t_id t) (t_state t) (t_name t) (t_slices t)
    (t_space t) (t_user_table t) (t_parent t) (t_status t) (t_wait_reason t)
    (t_last_cpu t) (t_ran_on t) (t_home t) (t_pgid t) (t_pending t)
    (t_wait_object t) (t_wake_at t) (t_blocked t) (t_sigact t) (t_fd t) (t_sav t).

Definition set_sp v t : thread := ltac:(field_set t_sp eta_thread v t).
Definition set_stack_low v t : thread := ltac:(field_set t_stack_low eta_thread v t).
Definition set_state v t : thread := ltac:(field_set t_state eta_thread v t).
Definition set_slices v t : thread := ltac:(field_set t_slices eta_thread v t).
Definition set_space v t : thread := ltac:(field_set t_space eta_thread v t).
Definition set_user_table v t : thread := ltac:(field_set t_user_table eta_thread v t).
Definition set_parent v t : thread := ltac:(field_set t_parent eta_thread v t).
Definition set_status v t : thread := ltac:(field_set t_status eta_thread v t).
Definition set_wait_reason v t : thread := ltac:(field_set t_wait_reason eta_thread v t).
Definition set_last_cpu v t : thread := ltac:(field_set t_last_cpu eta_thread v t).
Definition set_ran_on v t : thread := ltac:(field_set t_ran_on eta_thread v t).
Definition set_home v t : thread := ltac:(field_set t_home eta_thread v t).
Definition set_pgid v t : thread := ltac:(field_set t_pgid eta_thread v t).
Definition set_pending v t : thread := ltac:(field_set t_pending eta_thread v t).
Definition set_wait_object v t : thread := ltac:(field_set t_wait_object eta_thread v t).
Definition set_wake_at v t : thread := ltac:(field_set t_wake_at eta_thread v t).
Definition set_blocked v t : thread := ltac:(field_set t_blocked eta_thread v t).
Definition set_sigact v t : thread := ltac:(field_set t_sigact eta_thread v t).
Definition set_fd v t : thread := ltac:(field_set t_fd eta_thread v t).
Definition set_sav v t : thread := ltac:(field_set t_sav eta_thread v t).

(** A static variable that nothing has written. *)
Definition zero_thread : thread :=
  Thread 0 0 0 RUNNABLE "" 0 0 0 0 0 0 0 0 0 0 0 0 0 0
    (replicate NSIG (SigAction 0 0 0)) (replicate NFD None) no_manifest.

(** [cpu_t]: what the processor runs, its idler, the table it fills in, and
    the space in its TTBR0. *)
Record cpu := Cpu { cur : option nat; idle : option nat; cpu_table : Z; ttbr0 : Z }.

Record sched := Sched {
  threads : list thread; n_threads : nat; next_id : Z; cpus : list cpu;
  ticks : Z; switches : Z; started : bool; pages_ : pmm
}.

Definition eta_sched (s : sched) : sched :=
  Sched (threads s) (n_threads s) (next_id s) (cpus s) (ticks s) (switches s) (started s) (pages_ s).
Definition with_threads v s : sched := ltac:(field_set threads eta_sched v s).
Definition with_n_threads v s : sched := ltac:(field_set n_threads eta_sched v s).
Definition with_next_id v s : sched := ltac:(field_set next_id eta_sched v s).
Definition with_cpus v s : sched := ltac:(field_set cpus eta_sched v s).
Definition with_ticks v s : sched := ltac:(field_set ticks eta_sched v s).
Definition with_switches v s : sched := ltac:(field_set switches eta_sched v s).
Definition with_started v s : sched := ltac:(field_set started eta_sched v s).
Definition with_pages v s : sched := ltac:(field_set pages_ eta_sched v s).

Definition th (s : sched) (i : nat) : thread := nth i (threads s) zero_thread.
Definition upd (i : nat) (f : thread -> thread) (s : sched) : sched :=
  with_threads (alter f i (threads s)) s.
Definition zero_cpu : cpu := Cpu None None 0 0.
Definition cpu_of (s : sched) (me : nat) : cpu := nth me (cpus s) zero_cpu.
Definition upd_cpu (me : nat) (f : cpu -> cpu) (s : sched) : sched :=
  with_cpus (alter f me (cpus s)) s.
Definition current (s : sched) (me : nat) : option nat := cur (cpu_of s me).

Definition set_cur v c : cpu := Cpu v (idle c) (cpu_table c) (ttbr0 c).
Definition set_idle v c : cpu := Cpu (cur c) v (cpu_table c) (ttbr0 c).
Definition set_table v c : cpu := Cpu (cur c) (idle c) v (ttbr0 c).
(** [mmu_switch_user] *)
Definition switch_user v c : cpu := Cpu (cur c) (idle c) v v.

(** [for (i = 0; i < n_threads; i++) if (p(threads[i])) threads[i] = f(...)] *)
Definition on_all (p : thread -> bool) (f : thread -> thread) (s : sched) : sched :=
  with_threads
    (imap (fun i t => if (i <? n_threads s)%nat && p t then f t else t) (threads s)) s.

Definition is_state (st : tstate) (t : thread) : bool := bool_decide (t_state t = st).

(** ** Slots *)
Fixpoint first_free (ts : list thread) (i n : nat) : option nat :=
  match n with
  | O => None
  | S n => if is_state FREE (nth i ts zero_thread) then Some i else first_free ts (S i) n
  end.

Definition alloc_slot (s : sched) : option (nat * sched) :=
  match first_free (threads s) 0 (n_threads s) with
  | Some i => Some (i, s)
  | None =>
      if (n_threads s <? MAX_THREADS)%nat then
        let i := n_threads s in
        Some (i, with_n_threads (S i) (upd i (set_state FREE) s))
      else None
  end.

Definition slot_init (me i : nat) (name : string) (space : Z) (s : sched) : sched :=
  let parent := match current s me with Some c => t_id (th s c) | None => -1 end in
  let pgid := match current s me with Some c => t_pgid (th s c) | None => 0 end in
  let s' := upd i (fun t =>
    Thread 0 0 (next_id s) (t_state t) name 0 space 0 parent 0 0 (-1) 0 (-1) pgid 0 0 0 0
      (replicate NSIG (SigAction 0 0 0)) (replicate NFD None) (t_sav t)) s in
  with_next_id (i32 (next_id s + 1)) s'.

(** The addresses of [thread_entry_point] and [ret_to_user_addr], which are in
    assembly. *)
Section entry.
Context (thread_entry_point : Z).

Definition thread_create (me : nat) (name : string) (fn arg : Z) (s : sched) : option nat * sched :=
  match alloc_slot s with
  | None => (None, s)
  | Some (i, s) =>
      let '(stack, p) := alloc_pages STACK_PAGES (pages_ s) in
      let s := with_pages p s in
      if stack =? 0 then (None, upd i (set_state FREE) s) else
      let s := slot_init me i name 0 s in
      let s := upd i (set_stack_low stack) s in
      let m := store (mem (pages_ s)) stack STACK_CANARY in
      let frame := stack + STACK_PAGES * PAGE_SIZE - 96 in
      let m := fill m frame 0 12 in
      let m := store m frame fn in
      let m := store m (frame + 8) arg in
      let m := store m (frame + 88) thread_entry_point in
      let s := with_pages (set_mem (pages_ s) m) s in
      let s := upd i (set_sp frame) s in
      (Some i, upd i (set_state RUNNABLE) s)
  end.

Definition sched_init (me : nat) (name : string) (s : sched) : sched :=
  match alloc_slot s with
  | None => s
  | Some (i, s) =>
      let s := slot_init me i name 0 s in
      let s := upd i (set_parent (-1)) s in
      let s := upd_cpu me (set_cur (Some i)) s in
      with_started true (upd i (set_state RUNNING) s)
  end.

Definition sched_cpu_init (me : nat) (name : string) (s : sched) : sched :=
  match alloc_slot s with
  | None => s
  | Some (i, s) =>
      let s := slot_init me i name 0 s in
      let s := upd i (set_parent (-1)) s in
      let s := upd i (set_home (Z.of_nat me)) s in
      let s := upd i (set_state RUNNING) s in
      upd_cpu me (set_idle (Some i)) (upd_cpu me (set_cur (Some i)) s)
  end.

(** [fn]: the address of [idle_entry]. *)
Definition sched_cpu_idle (me : nat) (name : string) (fn : Z) (s : sched) : sched :=
  match thread_create me name fn 0 s with
  | (None, s) => s
  | (Some i, s) => upd_cpu me (set_idle (Some i)) (upd i (set_home (Z.of_nat me)) s)
  end.

(** [thread_fork]: the words of the parent's exception frame, and the address
    of [ret_to_user_addr].  The holders the child's descriptors gain are in
    the pool of file.c: [file_ref] of each, in [Syscall]. *)
Fixpoint put_words (m : memory) (a : Z) (l : list Z) : memory :=
  match l with
  | [] => m
  | v :: l => put_words (store m a v) (a + 8) l
  end.

Definition inherit (p t : thread) : thread :=
  set_sav (t_sav p) (set_blocked (t_blocked p) (set_sigact (t_sigact p) (set_fd (t_fd p) t))).

Definition thread_fork (ret_to_user : Z) (me : nat) (frame : list Z) (space : Z) (s : sched) : option nat * sched :=
  match alloc_slot s with
  | None => (None, s)
  | Some (i, s) =>
      let '(stack, p) := alloc_pages STACK_PAGES (pages_ s) in
      let s := with_pages p s in
      if stack =? 0 then (None, upd i (set_state FREE) s) else
      let s := slot_init me i "child" space s in
      let s := match current s me with Some c => upd i (inherit (th s c)) s | None => s end in
      let s := upd i (set_stack_low stack) s in
      let m := store (mem (pages_ s)) stack STACK_CANARY in
      let at_ := stack + STACK_PAGES * PAGE_SIZE - 8 * zlen frame in
      let m := store (put_words m at_ frame) at_ 0 in
      let sw := at_ - 96 in
      let m := store (fill m sw 0 12) (sw + 88) ret_to_user in
      let s := with_pages (set_mem (pages_ s) m) s in
      let s := upd i (set_sp sw) s in
      (Some i, upd i (set_state RUNNABLE) s)
  end.
End entry.

(** ** Who runs next *)
Definition eligible (me : nat) (t : thread) : bool :=
  is_state RUNNABLE t && negb ((0 <=? t_home t) && negb (t_home t =? Z.of_nat me)).

(** The loop of [next_runnable] from distance [i]. *)
Fixpoint next_loop (s : sched) (me start i n : nat) : option nat :=
  match n with
  | O => None
  | S n =>
      let k := ((start + i) mod n_threads s)%nat in
      if eligible me (th s k) then Some k else next_loop s me start (S i) n
  end.

Definition next_runnable (me : nat) (after : option nat) (s : sched) : option nat :=
  next_loop s me (default 0%nat after) 1 (n_threads s).

(** ** The switch *)

(** Sleeps that have run out. *)
Definition expire (s : sched) : sched :=
  on_all (fun t => is_state BLOCKED t && negb (t_wake_at t =? 0) && (t_wake_at t <=? ticks s))
    (fun t => set_state RUNNABLE (set_wake_at 0 t)) s.

(** From the choice of [next] on.  [sp]: the stack pointer [cpu_switch] saves. *)
Definition switch_to (me prev next : nat) (sp : Z) (s : sched) : sched :=
  let s := with_switches (u64 (switches s + 1)) s in
  let low := t_stack_low (th s prev) in
  let s := if negb (low =? 0) && negb (word (mem (pages_ s)) low =? STACK_CANARY)
           then with_pages (set_mem (pages_ s) (store (mem (pages_ s)) low STACK_CANARY)) s else s in
  let s := upd prev (set_user_table (cpu_table (cpu_of s me))) s in
  let s := upd_cpu me (set_table (t_user_table (th s next))) s in
  let s := if is_state RUNNING (th s prev) then upd prev (set_state RUNNABLE) s else s in
  let s := upd next (set_state RUNNING) s in
  let s := upd next (set_last_cpu (Z.of_nat me)) s in
  let s := upd next (fun t => set_ran_on (Z.lor (t_ran_on t) (Z.shiftl 1 (Z.land (Z.of_nat me) 31))) t) s in
  let s := upd_cpu me (set_cur (Some next)) s in
  let s := upd next (fun t => set_slices (u64 (t_slices t + 1)) t) s in
  let s := if negb (t_space (th s next) =? 0) && negb (t_space (th s next) =? t_space (th s prev))
           then upd_cpu me (switch_user (t_space (th s next))) s else s in
  upd prev (set_sp sp) s.

Definition schedule_locked (me : nat) (sp : Z) (s : sched) : sched :=
  let s := expire s in
  match current s me with
  | None => s
  | Some prev =>
      match next_runnable me (Some prev) s with
      | Some next => if Nat.eqb next prev then s else switch_to me prev next sp s
      | None =>
          if is_state RUNNING (th s prev) then s else
          match idle (cpu_of s me) with
          | None => s
          | Some next => if Nat.eqb next prev then s else switch_to me prev next sp s
          end
      end
  end.

Definition schedule (me : nat) (sp : Z) (s : sched) : sched :=
  if started s then schedule_locked me sp s else s.

(** ** Blocking and waking *)
Definition block (me : nat) (sp : Z) (f : thread -> thread) (s : sched) : sched :=
  match current s me with
  | None => s
  | Some c =>
      if negb (is_state RUNNING (th s c)) then s else
      schedule_locked me sp (upd c (fun t => set_state BLOCKED (f t)) s)
  end.

Definition thread_block_on_console (me : nat) (sp : Z) (s : sched) : sched :=
  block me sp (set_wait_reason WAIT_CONSOLE) s.

Definition thread_block_on_pipe (me : nat) (sp object : Z) (s : sched) : sched :=
  block me sp (fun t => set_wake_at 0 (set_wait_object object (set_wait_reason WAIT_PIPE t))) s.

Definition thread_block_on_pipe_until (me : nat) (sp object n : Z) (s : sched) : sched :=
  block me sp (fun t => set_wake_at (u64 (ticks s + (if n =? 0 then 1 else n)))
                          (set_wait_object object (set_wait_reason WAIT_PIPE t))) s.

Definition thread_wake_pipe (object : Z) (s : sched) : sched :=
  on_all (fun t => is_state BLOCKED t && (t_wait_reason t =? WAIT_PIPE) && (t_wait_object t =? object))
    (fun t => set_state RUNNABLE (set_wake_at 0 t)) s.

Definition thread_wake_console (s : sched) : sched :=
  on_all (fun t => is_state BLOCKED t && (t_wait_reason t =? WAIT_CONSOLE)) (set_state RUNNABLE) s.

(** ** Signals *)
Definition signal_hits (pid : Z) (t : thread) : bool :=
  negb (is_state FREE t) && negb (is_state ZOMBIE t)
  && (if pid <? 0 then t_pgid t =? i32 (- pid) else t_id t =? pid).

Definition thread_signal (pid sig : Z) (s : sched) : Z * sched :=
  let hit := signal_hits pid in
  (zlen (filter (fun t => hit t = true) (take (n_threads s) (threads s))),
   on_all hit (fun t =>
     let t := set_pending (i32 (Z.lor (t_pending t) (Z.shiftl 1 sig))) t in
     if is_state BLOCKED t then set_state RUNNABLE t else t) s).

(** The lowest pending signal that is not held off; 0 for none. *)
Fixpoint lowest_signal (p sig : Z) (n : nat) : Z :=
  match n with
  | O => 0
  | S n => if Z.testbit p sig then sig else lowest_signal p (sig + 1) n
  end.

Definition thread_signalled (t : thread) : Z :=
  let p := Z.land (u64 (t_pending t)) (Z.lnot (Z.ldiff (t_blocked t) (Z.shiftl 1 SIGKILL))) in
  if p =? 0 then 0 else lowest_signal p 1 31.

Fixpoint find_id (ts : list thread) (id : Z) (i n : nat) : option nat :=
  match n with
  | O => None
  | S n =>
      let t := nth i ts zero_thread in
      if negb (is_state FREE t) && (t_id t =? id) then Some i else find_id ts id (S i) n
  end.

Definition named (me : nat) (pid : Z) (s : sched) : option nat :=
  let id := if negb (pid =? 0) then pid
            else match current s me with Some c => t_id (th s c) | None => -1 end in
  find_id (threads s) id 0 (n_threads s).

Definition thread_setpgid (me : nat) (pid pgid : Z) (s : sched) : Z * sched :=
  match named me pid s with
  | None => (-1, s)
  | Some i =>
      let g := if negb (pgid =? 0) then pgid else t_id (th s i) in
      (g, upd i (set_pgid g) s)
  end.

Definition thread_pgid_of (me : nat) (pid : Z) (s : sched) : Z :=
  match named me pid s with None => -1 | Some i => t_pgid (th s i) end.

(** ** Collecting *)
Fixpoint free_stack (p : pmm) (low : Z) (n : nat) : pmm :=
  match n with O => p | S n => free_stack (free_page p low) (low + PAGE_SIZE) n end.

Definition release_slot (i : nat) (s : sched) : sched :=
  let low := t_stack_low (th s i) in
  let s := if negb (low =? 0)
           then upd i (set_stack_low 0) (with_pages (free_stack (pages_ s) low (Z.to_nat STACK_PAGES)) s)
           else s in
  upd i (fun t =>
    Thread 0 (t_stack_low t) (-1) FREE "free" (t_slices t) 0 (t_user_table t) (-1) 0 0
      (t_last_cpu t) (t_ran_on t) (t_home t) (t_pgid t) (t_pending t) 0 (t_wake_at t)
      (t_blocked t) (t_sigact t) (t_fd t) (t_sav t)) s.

(** The scan of [thread_reap] and of [thread_wait]: the first finished child,
    else whether there are children at all. *)
Fixpoint scan (ts : list thread) (id : Z) (have : bool) (i n : nat) : nat + bool :=
  match n with
  | O => inr have
  | S n =>
      let t := nth i ts zero_thread in
      if negb (t_parent t =? id) then scan ts id have (S i) n
      else if is_state ZOMBIE t then inl i
      else scan ts id (have || negb (is_state FREE t)) (S i) n
  end.

Definition my_id (s : sched) (me : nat) : Z :=
  match current s me with Some c => t_id (th s c) | None => -1 end.

(** The id, the status stored through the pointer, and the new state. *)
Definition thread_reap (me : nat) (s : sched) : Z * Z * sched :=
  match scan (threads s) (my_id s me) false 0 (n_threads s) with
  | inl i => (t_id (th s i), t_status (th s i), release_slot i s)
  | inr have => (if have then 0 else -1, 0, s)
  end.

(** One turn of the loop of [thread_wait]: an answer, or asleep. *)
Inductive wait_result := WaitDone (id status : Z) | WaitAgain.

Definition thread_wait (me : nat) (sp : Z) (s : sched) : wait_result * sched :=
  match scan (threads s) (my_id s me) false 0 (n_threads s) with
  | inl i => (WaitDone (t_id (th s i)) (t_status (th s i)), release_slot i s)
  | inr false => (WaitDone (-1) 0, s)
  | inr true =>
      match current s me with
      | None => (WaitAgain, s)
      | Some c =>
          (WaitAgain, schedule_locked me sp
             (upd c (fun t => set_state BLOCKED (set_wait_reason WAIT_CHILD t)) s))
      end
  end.

(** [thread_exit], the two sections under the lock: before the descriptors are
    closed and the space is freed, and after. *)
Definition exit_mark (me : nat) (status : Z) (s : sched) : Z * sched :=
  match current s me with
  | None => (0, s)
  | Some c =>
      (t_space (th s c),
       upd c (fun t => set_space 0 (set_status status (set_state ZOMBIE t))) s)
  end.

Definition exit_wake (me : nat) (s : sched) : sched :=
  match current s me with
  | None => s
  | Some c =>
      let parent := t_parent (th s c) in
      on_all (fun t => (t_id t =? parent) && is_state BLOCKED t && (t_wait_reason t =? WAIT_CHILD))
        (set_state RUNNABLE) s
  end.

Definition threads_alive (s : sched) : Z :=
  zlen (filter (fun t => is_state RUNNABLE t || is_state BLOCKED t = true)
          (take (n_threads s) (threads s))).

(** ** Reading the state back *)
Lemma th_upd i f s j :
  th (upd i f s) j = if bool_decide (j = i /\ (i < length (threads s))%nat) then f (th s i) else th s j.
Proof.
  unfold th, upd. cbn. rewrite !nth_lookup. case_bool_decide as E.
  - destruct E as [-> Hl]. rewrite list_lookup_alter_eq.
    destruct (lookup_lt_is_Some_2 _ _ Hl) as [t ->]. done.
  - destruct (decide (j = i)) as [->|].
    + rewrite list_lookup_alter_eq. destruct (threads s !! i) eqn:El; [|done].
      exfalso. apply E. split; [done|]. by eapply lookup_lt_Some.
    + by rewrite list_lookup_alter_ne.
Qed.
Lemma th_upd_eq i f s : (i < length (threads s))%nat -> th (upd i f s) i = f (th s i).
Proof. intros. rewrite th_upd. by rewrite bool_decide_true. Qed.
Lemma th_upd_ne i f s j : j <> i -> th (upd i f s) j = th s j.
Proof. intros. rewrite th_upd. rewrite bool_decide_false; [done|]. by intros []. Qed.

Lemma length_upd i f s : length (threads (upd i f s)) = length (threads s).
Proof. apply length_alter. Qed.
Lemma n_upd i f s : n_threads (upd i f s) = n_threads s.
Proof. done. Qed.

Lemma th_on_all p f s i :
  (i < length (threads s))%nat ->
  th (on_all p f s) i = if (i <? n_threads s)%nat && p (th s i) then f (th s i) else th s i.
Proof.
  intros Hl. unfold th, on_all. cbn. rewrite !nth_lookup, list_lookup_imap.
  destruct (lookup_lt_is_Some_2 _ _ Hl) as [t ->]. done.
Qed.
Lemma length_on_all p f s : length (threads (on_all p f s)) = length (threads s).
Proof. apply length_imap. Qed.

Lemma cpu_upd me f s c :
  (me < length (cpus s))%nat ->
  cpu_of (upd_cpu me f s) c = if bool_decide (c = me) then f (cpu_of s me) else cpu_of s c.
Proof.
  intros Hl. unfold cpu_of, upd_cpu. cbn. rewrite !nth_lookup. case_bool_decide as E.
  - subst. rewrite list_lookup_alter_eq. destruct (lookup_lt_is_Some_2 _ _ Hl) as [x ->]. done.
  - by rewrite list_lookup_alter_ne.
Qed.
Lemma length_upd_cpu me f s : length (cpus (upd_cpu me f s)) = length (cpus s).
Proof. apply length_alter. Qed.

Lemma is_state_true st t : is_state st t = true <-> t_state t = st.
Proof. unfold is_state. apply bool_decide_eq_true. Qed.
Lemma is_state_false st t : is_state st t = false <-> t_state t <> st.
Proof. unfold is_state. apply bool_decide_eq_false. Qed.

(** What a switch leaves alone in a thread. *)
Definition ident (t : thread) :=
  (t_id t, t_name t, t_space t, t_parent t, t_status t, t_wait_reason t, t_wait_object t,
   (t_wake_at t, t_home t, t_pgid t, t_pending t, t_blocked t, t_sigact t, t_fd t, t_sav t)).

(** *** What a switch does *)
Record switched (me prev next : nat) (s s' : sched) : Prop := {
  sw_state i : t_state (th s' i) =
    if bool_decide (i = next) then RUNNING
    else if bool_decide (i = prev) && is_state RUNNING (th s prev) then RUNNABLE
    else t_state (th s i);
  sw_ident i : ident (th s' i) = ident (th s i);
  sw_cur c : current s' c = if bool_decide (c = me) then Some next else current s c;
  sw_idle c : idle (cpu_of s' c) = idle (cpu_of s c);
  sw_n : n_threads s' = n_threads s;
  sw_len : length (threads s') = length (threads s) /\ length (cpus s') = length (cpus s);
  sw_id : next_id s' = next_id s;
  sw_slices : t_slices (th s' next) = u64 (t_slices (th s next) + 1)
}.

(** A step of [switch_to] that changes one thread. *)
Ltac th_simpl :=
  repeat (rewrite ?length_upd, ?length_upd_cpu; first
    [ rewrite th_upd_eq by (rewrite ?length_upd; done || lia)
    | rewrite th_upd_ne by done ]).

Section switch.
Context (me prev next : nat) (sp : Z) (s : sched).
Context (Hprev : (prev < length (threads s))%nat) (Hnext : (next < length (threads s))%nat)
  (Hne : next <> prev) (Hme : (me < length (cpus s))%nat).

(** The same, one field at a time: [g] is a projection the step keeps. *)
Lemma th_keep {A} (g : thread -> A) i f st j :
  (forall t, g (f t) = g t) -> g (th (upd i f st) j) = g (th st j).
Proof.
  intros Hg. rewrite th_upd. case_bool_decide as E; [|done]. destruct E as [-> _]. apply Hg.
Qed.

Lemma th_cpu me' f st j : th (upd_cpu me' f st) j = th st j.
Proof. done. Qed.

Lemma switch_to_switched : switched me prev next s (switch_to me prev next sp s).
Proof.
  unfold switch_to.
  set (s1 := with_switches (u64 (switches s + 1)) s).
  set (s2 := if negb (t_stack_low (th s1 prev) =? 0) && _ then _ else s1).
  assert (threads s2 = threads s /\ cpus s2 = cpus s /\ n_threads s2 = n_threads s /\ next_id s2 = next_id s)
    as (Ht2 & Hc2 & Hn2 & Hi2) by (subst s2; by destruct (_ && _)).
  assert (forall j, th s2 j = th s j) as Hth2 by (intros j; unfold th; by rewrite Ht2).
  clearbody s2. clear s1.
  set (s3 := upd prev (set_user_table (cpu_table (cpu_of s2 me))) s2).
  set (s4 := upd_cpu me (set_table (t_user_table (th s3 next))) s3).
  set (s5 := if is_state RUNNING (th s4 prev) then upd prev (set_state RUNNABLE) s4 else s4).
  set (s6 := upd next (set_state RUNNING) s5).
  set (s7 := upd next (set_last_cpu (Z.of_nat me)) s6).
  set (s8 := upd next (fun t => set_ran_on (Z.lor (t_ran_on t) (Z.shiftl 1 (Z.land (Z.of_nat me) 31))) t) s7).
  set (s9 := upd_cpu me (set_cur (Some next)) s8).
  set (s10 := upd next (fun t => set_slices (u64 (t_slices t + 1)) t) s9).
  set (s11 := if negb (t_space (th s10 next) =? 0) && negb (t_space (th s10 next) =? t_space (th s10 prev))
              then upd_cpu me (switch_user (t_space (th s10 next))) s10 else s10).
  assert (length (threads s5) = length (threads s)) as Hl5.
  { subst s5 s4 s3. destruct (is_state _ _); cbn; rewrite ?length_alter; by rewrite Ht2. }
  assert (length (threads s3) = length (threads s)) as Hl3 by (subst s3; cbn; by rewrite length_alter, Ht2).
  assert (is_state RUNNING (th s4 prev) = is_state RUNNING (th s prev)) as Hrun.
  { subst s4 s3. rewrite th_cpu. unfold is_state. rewrite (th_keep t_state) by done. by rewrite Hth2. }
  assert (cpus s5 = cpus s4) as Hc5 by (subst s5; by destruct (is_state _ _)).
  assert (length (cpus s4) = length (cpus s)) as Hlc4.
  { subst s4 s3. rewrite length_upd_cpu. cbn. by rewrite Hc2. }
  assert (forall c, cur (cpu_of s4 c) = cur (cpu_of s c) /\ idle (cpu_of s4 c) = idle (cpu_of s c)) as Hcpu4.
  { intros c. subst s4. rewrite cpu_upd by (subst s3; cbn; by rewrite Hc2).
    assert (forall x, cpu_of s3 x = cpu_of s x) as Hx.
    { intros x. unfold cpu_of. subst s3. cbn. by rewrite Hc2. }
    rewrite !Hx. case_bool_decide; [by subst|done]. }
  assert (forall c, cpu_of s8 c = cpu_of s4 c) as Hcpu8.
  { intros c. unfold cpu_of. subst s8 s7 s6. cbn. by rewrite Hc5. }
  assert (length (cpus s9) = length (cpus s)) as Hlc9.
  { unfold s9. rewrite length_upd_cpu. change (cpus s8) with (cpus s5). by rewrite Hc5. }
  assert (forall c, cur (cpu_of s9 c) = (if bool_decide (c = me) then Some next else cur (cpu_of s c))
                    /\ idle (cpu_of s9 c) = idle (cpu_of s c)) as Hcpu9.
  { intros c. unfold s9. rewrite cpu_upd by (change (cpus s8) with (cpus s5); rewrite Hc5; lia).
    case_bool_decide as E; [subst c; cbn [set_cur cur idle]|]; rewrite !Hcpu8; split; try done; apply Hcpu4. }
  assert (length (threads s10) = length (threads s)) as Hl10.
  { unfold s10. rewrite length_upd. change (threads s9) with (threads s8).
    unfold s8, s7, s6. by rewrite !length_upd. }
  assert (threads s11 = threads s10) as Ht11 by (subst s11; by destruct (_ && _)).
  assert (forall j, th s11 j = th s10 j) as Hth11 by (intros; unfold th; by rewrite Ht11).
  assert (forall c, cur (cpu_of s11 c) = cur (cpu_of s9 c) /\ idle (cpu_of s11 c) = idle (cpu_of s9 c)) as Hcpu11.
  { intros c. subst s11. destruct (_ && _); [|done].
    rewrite cpu_upd by (change (cpus s10) with (cpus s9); lia).
    change (cpu_of s10) with (cpu_of s9). case_bool_decide; [by subst|done]. }
  split.
  - intros i. rewrite (th_keep t_state) by done. rewrite Hth11. subst s10. rewrite (th_keep t_state) by done.
    subst s9. rewrite th_cpu. subst s8 s7. rewrite !(th_keep t_state) by done.
    subst s6. rewrite th_upd. rewrite Hl5.
    destruct (decide (i = next)) as [->|Hi]; [by rewrite !bool_decide_true|].
    rewrite !(bool_decide_false (_ /\ _)), (bool_decide_false (i = next)) by (done || by intros []).
    subst s5. rewrite Hrun. destruct (is_state RUNNING (th s prev)) eqn:Er.
    + rewrite th_upd. change (threads s4) with (threads s3). rewrite Hl3. destruct (decide (i = prev)) as [->|Hp].
      * rewrite !bool_decide_true by done. done.
      * rewrite !bool_decide_false by (done || by intros []). cbn [andb].
        subst s4 s3. rewrite th_cpu, (th_keep t_state) by done. by rewrite Hth2.
    + rewrite andb_false_r. subst s4 s3. rewrite th_cpu, (th_keep t_state) by done. by rewrite Hth2.
  - intros i. rewrite (th_keep ident) by done. rewrite Hth11. subst s10. rewrite (th_keep ident) by done.
    subst s9. rewrite th_cpu. subst s8 s7 s6. rewrite !(th_keep ident) by done.
    assert (ident (th s4 i) = ident (th s i)) as H4.
    { subst s4 s3. rewrite th_cpu, (th_keep ident) by done. by rewrite Hth2. }
    subst s5. destruct (is_state _ _); [rewrite (th_keep ident) by done|]; exact H4.
  - intros c. unfold current. change (cpu_of (upd prev (set_sp sp) s11) c) with (cpu_of s11 c).
    destruct (Hcpu11 c) as [-> _]. apply Hcpu9.
  - intros c. change (cpu_of (upd prev (set_sp sp) s11) c) with (cpu_of s11 c).
    destruct (Hcpu11 c) as [_ ->]. apply Hcpu9.
  - rewrite n_upd. subst s11. destruct (_ && _); cbn; subst s5; by destruct (is_state _ _).
  - rewrite length_upd, Ht11. split; [done|].
    transitivity (length (cpus s9)); [|exact Hlc9].
    unfold s11. destruct (_ && _); [|done]. cbn [upd with_cpus cpus with_threads].
    transitivity (length (cpus s10)); [apply length_upd_cpu|done].
  - subst s11. destruct (_ && _); cbn; subst s5; by destruct (is_state _ _).
  - rewrite th_upd_ne by done. rewrite Hth11.
    assert (length (threads s9) = length (threads s)) as Hl9 by (rewrite <- Hl10; symmetry; apply length_upd).
    subst s10. rewrite th_upd_eq by lia.
    cbn [set_slices t_slices]. do 2 f_equal. subst s9. rewrite th_cpu. subst s8 s7 s6. rewrite !(th_keep t_slices) by done.
    assert (t_slices (th s4 next) = t_slices (th s next)) as H4.
    { subst s4 s3. rewrite th_cpu, (th_keep t_slices) by done. by rewrite Hth2. }
    subst s5. destruct (is_state _ _); [rewrite (th_keep t_slices) by done|]; exact H4.
Qed.
End switch.

(** ** The choice *)
Lemma next_loop_spec s me start i n :
  match next_loop s me start i n with
  | Some k => exists d, (i <= d < i + n)%nat /\ k = ((start + d) mod n_threads s)%nat
      /\ eligible me (th s k) = true
      /\ forall e, (i <= e < d)%nat -> eligible me (th s ((start + e) mod n_threads s)%nat) = false
  | None => forall e, (i <= e < i + n)%nat -> eligible me (th s ((start + e) mod n_threads s)%nat) = false
  end.
Proof.
  revert i. induction n as [|n IH]; intros i; cbn [next_loop]; [lia|].
  destruct (eligible me (th s ((start + i) mod n_threads s)%nat)) eqn:E.
  - exists i. repeat split; try done; lia.
  - specialize (IH (S i)). destruct (next_loop s me start (S i) n) as [k|].
    + destruct IH as (d & Hd & Hk & He & Hb). exists d. repeat split; try done; try lia.
      intros e He'. destruct (decide (e = i)) as [->|]; [done|]. apply Hb. lia.
    + intros e He'. destruct (decide (e = i)) as [->|]; [done|]. apply IH. lia.
Qed.

(** How far ahead of [start] the slot [j] is: between 1 and [n]. *)
Definition dist (n start j : nat) : nat :=
  if (j <=? start)%nat then (j + n - start)%nat else (j - start)%nat.

Lemma dist_range n start j : (start < n)%nat -> (j < n)%nat -> (1 <= dist n start j <= n)%nat.
Proof. unfold dist. intros. destruct (Nat.leb_spec j start); lia. Qed.
Lemma dist_reach n start j :
  (start < n)%nat -> (j < n)%nat -> ((start + dist n start j) mod n)%nat = j.
Proof.
  unfold dist. intros Hs Hj. destruct (Nat.leb_spec j start).
  - replace (start + (j + n - start))%nat with (j + 1 * n)%nat by lia.
    rewrite Nat.Div0.mod_add. by apply Nat.mod_small.
  - replace (start + (j - start))%nat with j by lia. by apply Nat.mod_small.
Qed.
Lemma dist_unique n start d :
  (start < n)%nat -> (1 <= d <= n)%nat -> dist n start ((start + d) mod n)%nat = d.
Proof.
  unfold dist. intros Hs Hd. destruct (decide (start + d < n)%nat).
  - rewrite Nat.mod_small by lia. destruct (Nat.leb_spec (start + d) start); lia.
  - replace (start + d)%nat with ((start + d - n) + 1 * n)%nat by lia.
    rewrite Nat.Div0.mod_add, Nat.mod_small by lia.
    destruct (Nat.leb_spec (start + d - n) start); lia.
Qed.

(** The first eligible slot after [prev], in the order of the table. *)
Lemma next_runnable_spec me prev s :
  (prev < n_threads s)%nat ->
  match next_runnable me (Some prev) s with
  | Some k => (k < n_threads s)%nat /\ eligible me (th s k) = true
      /\ forall j, (j < n_threads s)%nat -> eligible me (th s j) = true ->
           (dist (n_threads s) prev k <= dist (n_threads s) prev j)%nat
  | None => forall j, (j < n_threads s)%nat -> eligible me (th s j) = false
  end.
Proof.
  intros Hp. unfold next_runnable. cbn [default from_option id].
  pose proof (next_loop_spec s me prev 1 (n_threads s)) as H.
  destruct (next_loop s me prev 1 (n_threads s)) as [k|].
  - destruct H as (d & Hd & -> & He & Hb). split; [apply Nat.mod_upper_bound; lia|]. split; [done|].
    intros j Hj Hej. rewrite dist_unique by lia. pose proof (dist_range _ _ _ Hp Hj).
    destruct (decide (dist (n_threads s) prev j < d)%nat); [|lia].
    specialize (Hb (dist (n_threads s) prev j) ltac:(lia)). rewrite dist_reach in Hb by done. congruence.
  - intros j Hj. pose proof (dist_range _ _ _ Hp Hj). rewrite <- (dist_reach _ _ _ Hp Hj). apply H. lia.
Qed.

Lemma eligible_spec me t :
  eligible me t = true <-> t_state t = RUNNABLE /\ (t_home t < 0 \/ t_home t = Z.of_nat me).
Proof.
  unfold eligible. rewrite andb_true_iff, is_state_true, negb_true_iff.
  destruct (Z.leb_spec 0 (t_home t)); cbn [andb]; [|intuition lia].
  rewrite negb_false_iff, Z.eqb_eq. intuition lia.
Qed.

(** ** The invariant

    [who] is the processor, if any, in the middle of putting its own thread to
    sleep: that thread is marked already and still on the processor. *)
Record inv_at (who : option nat) (s : sched) : Prop := {
  iv_len : length (threads s) = MAX_THREADS;
  iv_n : (n_threads s <= MAX_THREADS)%nat;
  iv_cpus : length (cpus s) = MAX_CPUS;
  iv_cur c i : current s c = Some i -> (i < n_threads s)%nat;
  iv_excl c c' i : current s c = Some i -> current s c' = Some i -> c = c';
  iv_running i : (i < n_threads s)%nat -> t_state (th s i) = RUNNING -> exists c, current s c = Some i;
  iv_live c i : current s c = Some i ->
    t_state (th s i) = RUNNING \/ t_state (th s i) = ZOMBIE
    \/ (who = Some c /\ (t_state (th s i) = BLOCKED \/ t_state (th s i) = RUNNABLE)
        /\ idle (cpu_of s c) <> Some i);
  iv_home c i : current s c = Some i -> t_home (th s i) < 0 \/ t_home (th s i) = Z.of_nat c;
  iv_idle c i : current s c = Some i -> exists j, idle (cpu_of s c) = Some j
    /\ (j < n_threads s)%nat /\ t_home (th s j) = Z.of_nat c
    /\ (t_state (th s j) = RUNNABLE \/ t_state (th s j) = RUNNING)
}.
Abbreviation inv := (inv_at None).

Lemma current_lt s c i : current s c = Some i -> (c < length (cpus s))%nat.
Proof.
  unfold current, cpu_of. rewrite nth_lookup. destruct (cpus s !! c) eqn:E; [|done].
  intros _. by eapply lookup_lt_Some.
Qed.

(** What an operation may do to the threads without choosing one: nobody
    starts running, and whoever is on a processor stays as it was or becomes a
    zombie; the idlers stay ready. *)
Lemma inv_benign who s s' :
  inv_at who s ->
  length (threads s') = length (threads s) -> length (cpus s') = length (cpus s) ->
  (n_threads s <= n_threads s' <= MAX_THREADS)%nat ->
  (forall c, current s' c = current s c /\ idle (cpu_of s' c) = idle (cpu_of s c)) ->
  (forall i, (i < n_threads s')%nat -> t_state (th s' i) = RUNNING ->
     (i < n_threads s)%nat /\ t_state (th s i) = RUNNING) ->
  (forall c i, current s c = Some i ->
     t_home (th s' i) = t_home (th s i)
     /\ (t_state (th s' i) = t_state (th s i)
         \/ (t_state (th s i) = RUNNING /\ t_state (th s' i) = ZOMBIE)
         \/ (t_state (th s i) = BLOCKED /\ t_state (th s' i) = RUNNABLE))) ->
  (forall c i j, current s c = Some i -> idle (cpu_of s c) = Some j -> (j < n_threads s)%nat ->
     t_home (th s j) = Z.of_nat c -> t_state (th s j) = RUNNABLE \/ t_state (th s j) = RUNNING ->
     t_home (th s' j) = t_home (th s j)
     /\ (t_state (th s' j) = RUNNABLE \/ t_state (th s' j) = RUNNING)) ->
  inv_at who s'.
Proof.
  intros [Hl Hn Hc Hcur Hex Hrun Hlive Hhome Hidle] El Ec En Ecpu Erun Elive Eidle.
  assert (forall c, current s' c = current s c) as Ecur by apply Ecpu.
  split; try congruence; try lia.
  - intros c i. rewrite Ecur. intros H%Hcur. lia.
  - intros c c' i. rewrite !Ecur. apply Hex.
  - intros i Hi Hr. destruct (Erun i Hi Hr) as [Hi' Hr']. destruct (Hrun i Hi' Hr') as [c H]. exists c. by rewrite Ecur.
  - intros c i. rewrite Ecur. intros H. rewrite (proj2 (Ecpu c)).
    destruct (Elive c i H) as [_ He]. specialize (Hlive c i H). intuition congruence.
  - intros c i. rewrite Ecur. intros H. destruct (Elive c i H) as [-> _]. by apply Hhome.
  - intros c i. rewrite Ecur. intros H. destruct (Hidle c i H) as (j & Hj & Hjn & Hjh & Hjs).
    rewrite (proj2 (Ecpu c)). exists j. destruct (Eidle c i j H Hj Hjn Hjh Hjs) as [-> Hs].
    repeat split; try done. lia.
Qed.

(** An idler that is not on its processor is ready. *)
Lemma idle_ready who s c i j :
  inv_at who s -> current s c = Some i -> idle (cpu_of s c) = Some j -> j <> i ->
  (j < n_threads s)%nat /\ eligible c (th s j) = true.
Proof.
  intros Hinv Hi Hj Hne. destruct (iv_idle _ _ Hinv c i Hi) as (j' & Hj' & Hn & Hh & Hs).
  assert (j' = j) as -> by congruence. split; [done|]. apply eligible_spec. split; [|by right].
  destruct Hs as [|Hr]; [done|]. destruct (iv_running _ _ Hinv j Hn Hr) as [c' Hc'].
  destruct (iv_home _ _ Hinv c' j Hc') as [|He]; [lia|]. assert (c' = c) as -> by lia. congruence.
Qed.

Lemma dist_self_max n p j : (p < n)%nat -> (j < n)%nat -> j <> p -> (dist n p j < dist n p p)%nat.
Proof.
  unfold dist. intros. destruct (Nat.leb_spec j p), (Nat.leb_spec p p); lia.
Qed.

(** What [schedule_locked] comes to. *)
Lemma schedule_cases me sp s prev :
  inv_at (Some me) s -> current s me = Some prev ->
  let s1 := expire s in
  inv_at (Some me) s1 /\
  match next_runnable me (Some prev) s1 with
  | Some next => next <> prev /\ (next < n_threads s1)%nat /\ eligible me (th s1 next) = true
      /\ schedule_locked me sp s = switch_to me prev next sp s1
  | None => t_state (th s1 prev) = RUNNING /\ schedule_locked me sp s = s1
  end.
Proof.
  intros Hinv Hcur s1.
  assert (inv_at (Some me) s1) as Hinv1.
  { assert (forall i, (i < length (threads s))%nat -> t_home (th s1 i) = t_home (th s i)
              /\ (t_state (th s1 i) = t_state (th s i)
                  \/ t_state (th s i) = BLOCKED /\ t_state (th s1 i) = RUNNABLE)) as Hth.
    { intros i Hi. unfold s1, expire. rewrite th_on_all by done.
      destruct (_ <? _)%nat; cbn [andb]; [|by split; [|left]].
      destruct (is_state BLOCKED (th s i)) eqn:E; cbn [andb]; [|by split; [|left]].
      apply is_state_true in E. destruct (_ && _); cbn; split; auto. }
    eapply inv_benign; [exact Hinv|apply length_on_all|done|split; [done|apply Hinv]|done| | |].
    - intros i Hi Hr. split; [done|]. destruct (Hth i) as [_ [He|[? He]]]; [|congruence|congruence].
      rewrite (iv_len _ _ Hinv). pose proof (iv_n _ _ Hinv). change (n_threads s1) with (n_threads s) in Hi. lia.
    - intros c i Hci. pose proof (iv_cur _ _ Hinv c i Hci). pose proof (iv_n _ _ Hinv).
      destruct (Hth i) as [-> He]; [rewrite (iv_len _ _ Hinv); lia|]. split; [done|tauto].
    - intros c i j Hci Hj Hjn Hjh Hjs. pose proof (iv_n _ _ Hinv).
      destruct (Hth j) as [-> He]; [rewrite (iv_len _ _ Hinv); lia|]. split; [done|].
      destruct He as [->|[? ?]]; [done|left; done]. }
  split; [done|]. change (current s me) with (current s1 me) in Hcur.
  pose proof (iv_cur _ _ Hinv1 me prev Hcur) as Hp.
  unfold schedule_locked. fold s1. rewrite Hcur.
  pose proof (next_runnable_spec me prev s1 Hp) as Hnx.
  destruct (iv_idle _ _ Hinv1 me prev Hcur) as (j & Hj & Hjn & Hjh & Hjs).
  destruct (next_runnable me (Some prev) s1) as [next|].
  - destruct Hnx as (Hn & He & Hfirst).
    assert (next <> prev) as Hne.
    { intros ->. apply eligible_spec in He as [He _].
      destruct (iv_live _ _ Hinv1 me prev Hcur) as [?|[?|(_ & _ & Hnidle)]]; [congruence..|].
      assert (j <> prev) as Hjp by congruence.
      destruct (idle_ready _ _ _ _ _ Hinv1 Hcur Hj Hjp) as [_ Hej].
      specialize (Hfirst j Hjn Hej). pose proof (dist_self_max _ _ _ Hp Hjn Hjp). lia. }
    repeat split; try done. destruct (Nat.eqb_spec next prev); done.
  - destruct (is_state RUNNING (th s1 prev)) eqn:Er; [apply is_state_true in Er; done|].
    apply is_state_false in Er. exfalso.
    assert (j <> prev) as Hjp.
    { intros ->. destruct (iv_live _ _ Hinv1 me prev Hcur) as [?|[?|(_ & _ & Hnidle)]]; try congruence.
      destruct Hjs; congruence. }
    destruct (idle_ready _ _ _ _ _ Hinv1 Hcur Hj Hjp) as [_ Hej]. rewrite Hnx in Hej; done.
Qed.

Lemma inv_weaken me s : inv s -> inv_at (Some me) s.
Proof.
  intros [? ? ? ? ? ? Hlive ? ?]. split; try done. intros c i H. destruct (Hlive c i H) as [?|[?|[? _]]]; auto. done.
Qed.

Lemma schedule_inv me sp s prev :
  inv_at (Some me) s -> current s me = Some prev -> inv (schedule_locked me sp s).
Proof.
  intros Hinv Hcur. destruct (schedule_cases me sp s prev Hinv Hcur) as [Hinv1 Hc].
  set (s1 := expire s) in *. change (current s me) with (current s1 me) in Hcur. clearbody s1.
  pose proof (iv_cur _ _ Hinv1 me prev Hcur) as Hp. pose proof (current_lt _ _ _ Hcur) as Hme.
  pose proof (iv_len _ _ Hinv1) as Hlen. pose proof (iv_n _ _ Hinv1) as Hmax.
  destruct (next_runnable me (Some prev) s1) as [next|].
  - destruct Hc as (Hne & Hn & He & ->). apply eligible_spec in He as [Hs Hh].
    destruct (switch_to_switched me prev next sp s1) as [St Id Cu Ix N [L1 L2] _ _]; try done; [lia..|].
    assert (forall i, t_home (th (switch_to me prev next sp s1) i) = t_home (th s1 i)) as Hhome.
    { intros i. pose proof (Id i) as Hi. unfold ident in Hi. congruence. }
    assert (forall c, current s1 c <> Some next) as Hfree.
    { intros c Hc. destruct (iv_live _ _ Hinv1 c next Hc) as [?|[?|(Hw & _)]]; [congruence..|].
      assert (c = me) as -> by congruence. congruence. }
    pose proof (iv_cpus _ _ Hinv1).
    split; try congruence; try lia.
    + intros c i. rewrite Cu, N. case_bool_decide; [intros [= <-]; done|apply (iv_cur _ _ Hinv1)].
    + intros c c' i. rewrite !Cu. repeat case_bool_decide; subst; try done.
      * intros [= <-] H2. by destruct (Hfree _ H2).
      * intros H1 [= <-]. by destruct (Hfree _ H1).
      * apply (iv_excl _ _ Hinv1).
    + intros i. rewrite N, St. intros Hi Hr. destruct (decide (i = next)) as [->|Hin].
      { exists me. rewrite Cu. by rewrite bool_decide_true. }
      rewrite (bool_decide_false (i = next)) in Hr by done.
      destruct (decide (i = prev)) as [->|Hip].
      { rewrite bool_decide_true in Hr by done. cbn [andb] in Hr.
        destruct (is_state RUNNING (th s1 prev)) eqn:Er; [done|]. apply is_state_false in Er. done. }
      rewrite (bool_decide_false (i = prev)) in Hr by done. cbn [andb] in Hr.
      destruct (iv_running _ _ Hinv1 i Hi Hr) as [c Hc]. exists c. rewrite Cu.
      rewrite bool_decide_false; [done|]. intros ->. congruence.
    + intros c i. rewrite Cu, St. case_bool_decide as E.
      * intros [= <-]. left. by rewrite bool_decide_true.
      * intros Hc. assert (i <> next) by (intros ->; by apply (Hfree c)).
        assert (i <> prev) by (intros ->; apply E; by eapply (iv_excl _ _ Hinv1)).
        rewrite !bool_decide_false by done. cbn [andb].
        destruct (iv_live _ _ Hinv1 c i Hc) as [?|[?|(Hw & _)]]; auto. congruence.
    + intros c i. rewrite Cu, Hhome. case_bool_decide as E; [intros [= <-]; subst; done|apply (iv_home _ _ Hinv1)].
    + intros c i. rewrite Cu, Ix, N. intros Hc.
      assert (exists i0, current s1 c = Some i0) as [i0 Hi0].
      { case_bool_decide; [subst; eauto|eauto]. }
      destruct (iv_idle _ _ Hinv1 c i0 Hi0) as (j & Hj & Hjn & Hjh & Hjs). exists j.
      rewrite Hhome, St. repeat split; try done.
      destruct (decide (j = next)) as [->|]; [right; by rewrite bool_decide_true|].
      rewrite (bool_decide_false (j = next)) by done. destruct (_ && _); [by left|done].
  - destruct Hc as [Hr ->]. destruct Hinv1 as [? ? ? ? ? ? Hlive ? ?]. split; try done.
    intros c i Hc. destruct (Hlive c i Hc) as [?|[?|(Hw & Hs & _)]]; auto.
    assert (c = me) as -> by congruence. assert (i = prev) as -> by congruence. left. done.
Qed.
