(* ===== verification/SchedRun.v ===== *)
(** * Runs of the scheduler

    The operations of [Sched] as the steps of a transition system, one step per
    section under the scheduler lock, interleaved over the processors in any
    order.  Along every run: no thread is on two processors, an id names one
    process for ever, a runnable thread is chosen within [MAX_THREADS] passes
    of any processor that may run it.  The last part shows what the window
    inside [thread_exit] allows. *)
From S2P Require Import Prelude Mem Pmm Sched.

(** ** A slot taken *)

(** [s'] is [s] with the spare slot [i] put to some use. *)
Record taken (i : nat) (s s' : sched) : Prop := {
  tk_len : length (threads s') = length (threads s);
  tk_cpus : cpus s' = cpus s;
  tk_n : (n_threads s <= n_threads s' <= MAX_THREADS)%nat;
  tk_i : (i < n_threads s')%nat;
  tk_free : (i < n_threads s)%nat -> t_state (th s i) = FREE;
  tk_new j : (n_threads s <= j < n_threads s')%nat -> j = i;
  tk_other j : j <> i -> th s' j = th s j
}.

Lemma first_free_spec ts i n k :
  first_free ts i n = Some k -> (i <= k < i + n)%nat /\ t_state (nth k ts zero_thread) = FREE.
Proof.
  revert i. induction n as [|n IH]; intros i; cbn [first_free]; [done|].
  destruct (is_state FREE (nth i ts zero_thread)) eqn:E.
  - intros [= <-]. split; [lia|]. by apply is_state_true.
  - intros H%IH. destruct H. split; [lia|done].
Qed.

Lemma alloc_slot_spec s i s1 :
  length (threads s) = MAX_THREADS -> (n_threads s <= MAX_THREADS)%nat ->
  alloc_slot s = Some (i, s1) ->
  taken i s s1 /\ t_state (th s1 i) = FREE /\ next_id s1 = next_id s /\ pages_ s1 = pages_ s.
Proof.
  intros Hl Hn. unfold alloc_slot.
  destruct (first_free (threads s) 0 (n_threads s)) as [k|] eqn:E.
  - intros [= <- <-]. apply first_free_spec in E as [Hk Hf].
    repeat split; try done; lia.
  - destruct (Nat.ltb_spec (n_threads s) MAX_THREADS); [|done]. intros [= <- <-].
    split; [split|split; [|done]].
    + cbn. apply length_alter.
    + done.
    + split; cbn -[MAX_THREADS]; lia.
    + cbn. lia.
    + lia.
    + cbn. lia.
    + intros j Hj. change (th (upd (n_threads s) (set_state FREE) s) j = th s j). by apply th_upd_ne.
    + change (t_state (th (upd (n_threads s) (set_state FREE) s) (n_threads s)) = FREE).
      rewrite th_upd_eq by lia. done.
Qed.

(** Work on the slot keeps it the only one touched. *)
Lemma taken_upd i f s s1 : taken i s s1 -> taken i s (upd i f s1).
Proof.
  intros [? ? ? ? ? ? Ho]. split; try done.
  - by rewrite length_upd.
  - intros j Hj. rewrite th_upd_ne by done. by apply Ho.
Qed.
Lemma taken_pages i p s s1 : taken i s s1 -> taken i s (with_pages p s1).
Proof. by intros [? ? ? ? ? ? ?]. Qed.
Lemma taken_next_id i v s s1 : taken i s s1 -> taken i s (with_next_id v s1).
Proof. by intros [? ? ? ? ? ? ?]. Qed.
Create HintDb taken.
#[local] Hint Resolve taken_upd taken_pages taken_next_id : taken.

Lemma taken_lt i s s1 : length (threads s) = MAX_THREADS -> taken i s s1 -> (i < length (threads s1))%nat.
Proof. intros Hl [Hl1 _ Hn Hi _ _ _]. lia. Qed.

(** ** What the creators make *)
Definition pgid_here (s : sched) (me : nat) : Z :=
  match current s me with Some c => t_pgid (th s c) | None => 0 end.

(** A slot as [slot_init] leaves it, whatever its state. *)
Record newborn (me : nat) (s : sched) (name : string) (t : thread) : Prop := {
  nb_id : t_id t = next_id s;
  nb_name : t_name t = name;
  nb_parent : t_parent t = my_id s me;
  nb_pgid : t_pgid t = pgid_here s me;
  nb_home : t_home t = -1;
  nb_pending : t_pending t = 0 /\ t_blocked t = 0 /\ t_wake_at t = 0;
  nb_sigact : t_sigact t = replicate NSIG (SigAction 0 0 0);
  nb_fd : t_fd t = replicate NFD None
}.

Lemma slot_init_spec me i name sp s s1 :
  length (threads s) = MAX_THREADS -> taken i s s1 -> next_id s1 = next_id s ->
  (forall c, current s me = Some c -> c <> i) ->
  taken i s (slot_init me i name sp s1)
  /\ next_id (slot_init me i name sp s1) = i32 (next_id s + 1)
  /\ newborn me s name (th (slot_init me i name sp s1) i)
  /\ t_state (th (slot_init me i name sp s1) i) = t_state (th s1 i)
  /\ t_space (th (slot_init me i name sp s1) i) = sp
  /\ pages_ (slot_init me i name sp s1) = pages_ s1.
Proof.
  intros Hl Ht Hid Hc. pose proof (taken_lt _ _ _ Hl Ht) as Hi.
  unfold slot_init. rewrite Hid.
  assert (current s1 me = current s me) as Hcur by (unfold current, cpu_of; by rewrite (tk_cpus _ _ _ Ht)).
  split; [by apply taken_next_id, taken_upd|]. split; [done|].
  match goal with |- context [with_next_id ?v (upd i ?f s1)] =>
    assert (th (with_next_id v (upd i f s1)) i = f (th s1 i)) as -> by (by apply th_upd_eq) end.
  rewrite Hcur. split; [|done].
  destruct (current s me) as [c|] eqn:E; [rewrite (tk_other _ _ _ Ht c (Hc c eq_refl))|];
    split; unfold my_id, pgid_here; rewrite ?E; done.
Qed.

(** A [store] to the stack of a slot in hand. *)
Lemma with_pages_th p s i : th (with_pages p s) i = th s i.
Proof. done. Qed.

Section create.
Context (ep : Z).

Lemma thread_create_spec me name fn arg s o s' :
  length (threads s) = MAX_THREADS -> (n_threads s <= MAX_THREADS)%nat ->
  (forall c, current s me = Some c -> (c < n_threads s)%nat /\ t_state (th s c) <> FREE) ->
  thread_create ep me name fn arg s = (o, s') ->
  match o with
  | None => next_id s' = next_id s /\ (s' = s \/ exists i, taken i s s' /\ t_state (th s' i) = FREE)
  | Some i => taken i s s' /\ next_id s' = i32 (next_id s + 1)
      /\ newborn me s name (th s' i) /\ t_state (th s' i) = RUNNABLE
      /\ let stack := t_stack_low (th s' i) in let frame := t_sp (th s' i) in
         stack <> 0 /\ fst (alloc_pages STACK_PAGES (pages_ s)) = stack
         /\ frame = stack + 16288
         /\ word (mem (pages_ s')) stack = STACK_CANARY
         /\ word (mem (pages_ s')) frame = fn /\ word (mem (pages_ s')) (frame + 8) = arg
         /\ word (mem (pages_ s')) (frame + 88) = ep
         /\ forall k, 2 <= k < 11 -> word (mem (pages_ s')) (frame + 8 * k) = 0
  end.
Proof.
  intros Hl Hn Hc. unfold thread_create.
  destruct (alloc_slot s) as [[i s1]|] eqn:Ea; [|intros [= <- <-]; auto].
  destruct (alloc_slot_spec _ _ _ Hl Hn Ea) as (Ht & Hf & Hid & Hpg). rewrite Hpg.
  destruct (alloc_pages STACK_PAGES (pages_ s)) as [stack p] eqn:Ep.
  destruct (Z.eqb_spec stack 0) as [Hz|Hz]; intros [= <- <-].
  - split; [done|]. right. exists i. split; [by apply taken_upd, taken_pages|].
    rewrite th_upd_eq by (apply (taken_lt i s); auto with taken). done.
  - destruct (slot_init_spec me i name 0 s (with_pages p s1) Hl) as (Hs & Hnid & Hnb & _ & _ & Hpp); auto with taken.
    { intros c Hcc ->. destruct (Hc i Hcc) as [Hlt Hst]. by apply Hst, (tk_free _ _ _ Ht). }
    set (s2 := slot_init me i name 0 (with_pages p s1)) in *. clearbody s2.
    split; [eauto 8 with taken|].
    pose proof (taken_lt _ _ _ Hl Hs) as Hi2.
    split; [done|].
    match goal with |- context [upd i (set_state RUNNABLE) (upd i (set_sp ?f) (with_pages ?q _))] =>
      assert (th (upd i (set_state RUNNABLE) (upd i (set_sp f) (with_pages q (upd i (set_stack_low stack) s2)))) i
              = set_state RUNNABLE (set_sp f (set_stack_low stack (th s2 i)))) as -> end.
    { by rewrite !th_upd_eq, with_pages_th, th_upd_eq by (cbn; rewrite ?length_alter; done). }
    cbn [set_state set_sp set_stack_low t_stack_low t_sp t_state].
    split; [by destruct Hnb; split|]. split; [done|]. split; [done|]. split; [done|].
    split; [unfold STACK_PAGES, PAGE_SIZE; lia|].
    cbn [pages_ upd with_threads with_pages set_mem mem].
    unfold STACK_PAGES, PAGE_SIZE. replace (stack + 4 * 4096 - 96) with (stack + 16288) by lia.
    rewrite !word_store.
    split; [zsplit; rewrite word_fill_out, word_store_eq; [done|intros (j & Hj & E); lia]|].
    split; [by zsplit|]. split; [by zsplit|]. split; [by zsplit|].
    intros k Hk. rewrite !word_store. zsplit. apply word_fill_in. exists k. lia.
Qed.
End create.

(** The child of a fork is the caller's copy, in a slot of its own. *)
Record child_of (me : nat) (s : sched) (space : Z) (t : thread) : Prop := {
  co_id : t_id t = next_id s;
  co_parent : t_parent t = my_id s me;
  co_pgid : t_pgid t = pgid_here s me;
  co_home : t_home t = -1;
  co_space : t_space t = space;
  co_pending : t_pending t = 0;
  co_same c : current s me = Some c ->
    t_fd t = t_fd (th s c) /\ t_sigact t = t_sigact (th s c) /\ t_blocked t = t_blocked (th s c) /\ t_sav t = t_sav (th s c)
}.

Lemma word_put_words_out m a l b : ~ in_words a (length l) b -> word (put_words m a l) b = word m b.
Proof.
  revert m a. induction l as [|v l IH]; intros m a Hb; [done|]. cbn [put_words length] in *.
  rewrite in_words_S in Hb. rewrite IH by tauto. apply word_store_ne. tauto.
Qed.
Lemma word_put_words m a l i : 0 <= i < zlen l -> word (put_words m a l) (a + 8 * i) = at_ l i.
Proof.
  revert m a i. induction l as [|v l IH]; intros m a i Hi; [change (zlen []) with 0 in Hi; lia|]. rewrite zlen_cons in Hi.
  cbn [put_words]. destruct (decide (i = 0)) as [->|].
  - rewrite word_put_words_out by (intros (j & Hj & E); lia). replace (a + 8 * 0) with a by lia. by rewrite word_store_eq.
  - replace (a + 8 * i) with (a + 8 + 8 * (i - 1)) by lia. rewrite IH by lia.
    unfold at_. replace (Z.to_nat i) with (S (Z.to_nat (i - 1))) by lia. done.
Qed.

Section fork.
Context (ru : Z).

Lemma thread_fork_spec me frame space s o s' :
  length (threads s) = MAX_THREADS -> (n_threads s <= MAX_THREADS)%nat ->
  (forall c, current s me = Some c -> (c < n_threads s)%nat /\ t_state (th s c) <> FREE) ->
  0 < zlen frame ->
  thread_fork ru me frame space s = (o, s') ->
  match o with
  | None => next_id s' = next_id s /\ (s' = s \/ exists i, taken i s s' /\ t_state (th s' i) = FREE)
  | Some i => taken i s s' /\ next_id s' = i32 (next_id s + 1)
      /\ child_of me s space (th s' i) /\ t_state (th s' i) = RUNNABLE
      /\ let stack := t_stack_low (th s' i) in let sw := t_sp (th s' i) in
         stack <> 0 /\ fst (alloc_pages STACK_PAGES (pages_ s)) = stack
         /\ word (mem (pages_ s')) (sw + 88) = ru
         /\ word (mem (pages_ s')) (sw + 96) = 0
         /\ forall k, 1 <= k < zlen frame -> word (mem (pages_ s')) (sw + 96 + 8 * k) = at_ frame k
  end.
Proof.
  intros Hl Hn Hc Hfr. unfold thread_fork.
  destruct (alloc_slot s) as [[i s1]|] eqn:Ea; [|intros [= <- <-]; auto].
  destruct (alloc_slot_spec _ _ _ Hl Hn Ea) as (Ht & Hf & Hid & Hpg). rewrite Hpg.
  destruct (alloc_pages STACK_PAGES (pages_ s)) as [stack p] eqn:Ep.
  destruct (Z.eqb_spec stack 0) as [Hz|Hz]; intros [= <- <-].
  { split; [done|]. right. exists i. split; [by apply taken_upd, taken_pages|].
    rewrite th_upd_eq by (apply (taken_lt i s); auto with taken). done. }
  assert (forall c, current s me = Some c -> c <> i) as Hne.
  { intros c Hcc ->. destruct (Hc i Hcc) as [Hlt Hst]. by apply Hst, (tk_free _ _ _ Ht). }
  destruct (slot_init_spec me i "child" space s (with_pages p s1) Hl) as (Hs & Hnid & Hnb & _ & Hsp & Hpp); auto with taken.
  set (s2 := slot_init me i "child" space (with_pages p s1)) in *. clearbody s2.
  assert (current s2 me = current s me) as Hcur by (unfold current, cpu_of; by rewrite (tk_cpus _ _ _ Hs)).
  rewrite Hcur. set (s3 := match current s me with Some c => upd i (inherit (th s2 c)) s2 | None => s2 end).
  pose proof (taken_lt _ _ _ Hl Hs) as Hi2.
  assert (taken i s s3 /\ next_id s3 = i32 (next_id s + 1) /\ child_of me s space (th s3 i)) as (Ht3 & Hnid3 & Hco).
  { unfold s3. destruct (current s me) as [c|] eqn:Ecur.
    - split; [by apply taken_upd|]. split; [done|]. rewrite th_upd_eq by done.
      destruct Hnb as [? ? ? ? ? (? & ? & ?) ? ?]. split; try done. intros c' E. rewrite Ecur in E. injection E as <-.
      by rewrite (tk_other _ _ _ Hs c (Hne c eq_refl)).
    - split; [done|]. split; [done|]. destruct Hnb as [? ? ? ? ? (? & ? & ?) ? ?]. split; try done. congruence. }
  clearbody s3. pose proof (taken_lt _ _ _ Hl Ht3) as Hi3.
  split; [eauto 8 with taken|]. split; [done|].
  match goal with |- context [upd i (set_state RUNNABLE) (upd i (set_sp ?f) (with_pages ?q _))] =>
    assert (th (upd i (set_state RUNNABLE) (upd i (set_sp f) (with_pages q (upd i (set_stack_low stack) s3)))) i
            = set_state RUNNABLE (set_sp f (set_stack_low stack (th s3 i)))) as -> end.
  { by rewrite !th_upd_eq, with_pages_th, th_upd_eq by (cbn; rewrite ?length_alter; done). }
  cbn [set_state set_sp set_stack_low t_stack_low t_sp t_state].
  split; [by destruct Hco; split|]. split; [done|]. split; [done|]. split; [done|].
  cbn [pages_ upd with_threads with_pages set_mem mem].
  set (a := stack + STACK_PAGES * PAGE_SIZE - 8 * zlen frame).
  split; [apply word_store_eq|].
  assert (forall k, 0 <= k -> ~ in_words (a - 96) 12 (a + 8 * k)) as Hout by (intros k Hk (j & Hj & E); lia).
  split.
  - rewrite word_store_ne by lia. replace (a - 96 + 96) with (a + 8 * 0) by lia. rewrite word_fill_out by (apply Hout; lia).
    replace (a + 8 * 0) with a by lia. apply word_store_eq.
  - intros k Hk. rewrite word_store_ne by lia. replace (a - 96 + 96 + 8 * k) with (a + 8 * k) by lia.
    rewrite word_fill_out by (apply Hout; lia). rewrite word_store_ne by lia. apply word_put_words. lia.
Qed.
End fork.

(** ** The steps *)

(** The thread a processor runs, awake, and not the processor's own idler:
    the idlers loop in [sched_idle_loop], and neither block nor exit. *)
Record working (s : sched) (me c : nat) : Prop := {
  wk_cur : current s me = Some c;
  wk_run : t_state (th s c) = RUNNING;
  wk_idle : idle (cpu_of s me) <> Some c
}.

(** A pass of processor [me] through [schedule_locked], or not. *)
Inductive event := Pass (me : nat) | Other.

Section steps.
Context (ep : Z).

(** The child collected is off every processor; what happens when it is not
    is the last part of this file. *)
Definition parked (s : sched) (i : nat) : Prop := forall c, current s c <> Some i.

Inductive step : event -> sched -> sched -> Prop :=
  | step_tick s n : ticks s <= n -> step Other s (with_ticks n s)
  | step_create me name fn arg s :
      step Other s (thread_create ep me name fn arg s).2
  | step_fork ru me frame space s :
      0 < zlen frame -> step Other s (thread_fork ru me frame space s).2
  | step_cpu_init me name s :
      current s me = None -> (me < length (cpus s))%nat ->
      step Other s (sched_cpu_init me name s)
  | step_schedule me sp s c :
      current s me = Some c -> started s = true -> step (Pass me) s (schedule me sp s)
  | step_block_console me sp s c :
      working s me c -> step (Pass me) s (thread_block_on_console me sp s)
  | step_block_pipe me sp object s c :
      working s me c -> step (Pass me) s (thread_block_on_pipe me sp object s)
  | step_block_until me sp object n s c :
      working s me c -> step (Pass me) s (thread_block_on_pipe_until me sp object n s)
  | step_wake_pipe object s : step Other s (thread_wake_pipe object s)
  | step_wake_console s : step Other s (thread_wake_console s)
  | step_signal pid sig s : step Other s (thread_signal pid sig s).2
  | step_setpgid me pid pgid s : step Other s (thread_setpgid me pid pgid s).2
  | step_exit_mark me status s c :
      working s me c -> step Other s (exit_mark me status s).2
  | step_exit_wake me s : step Other s (exit_wake me s)
  | step_reap me s :
      (forall i, scan (threads s) (my_id s me) false 0 (n_threads s) = inl i -> parked s i) ->
      step Other s (thread_reap me s).2
  | step_wait me sp s c r s' :
      working s me c -> thread_wait me sp s = (r, s') ->
      (forall i, scan (threads s) (my_id s me) false 0 (n_threads s) = inl i -> parked s i) ->
      step (match r with WaitAgain => Pass me | _ => Other end) s s'.

Definition reaches (s s' : sched) : Prop := rtc (fun a b => exists e, step e a b) s s'.

(** ** The invariant *)
Lemma inv_taken s i s' :
  inv s -> taken i s s' -> t_state (th s' i) = FREE \/ t_state (th s' i) = RUNNABLE -> inv s'.
Proof.
  intros Hinv Ht Hst. pose proof Ht as [Hl Hc Hn Hi Hfree Hnew Ho].
  assert (forall c k, current s c = Some k -> k <> i) as Hki.
  { intros c k Hk ->. destruct (iv_live _ _ Hinv c i Hk) as [E|[E|(? & _)]]; [..|done];
      rewrite (Hfree (iv_cur _ _ Hinv c i Hk)) in E; done. }
  eapply inv_benign; [exact Hinv|done|by rewrite Hc|done| | | |].
  - intros c. unfold current, cpu_of. by rewrite Hc.
  - intros k Hk Hr. assert (k <> i) as Hne by (intros ->; destruct Hst; congruence).
    rewrite (Ho k Hne) in Hr. split; [|done].
    destruct (decide (k < n_threads s)%nat); [done|]. destruct Hne. apply Hnew. lia.
  - intros c k Hk. rewrite (Ho k (Hki c k Hk)). auto.
  - intros c k j Hk Hj Hjn Hjh Hjs. assert (j <> i) as Hne.
    { intros ->. specialize (Hfree Hjn). destruct Hjs; congruence. }
    rewrite (Ho j Hne). auto.
Qed.

Lemma inv_current s c i :
  inv s -> current s c = Some i -> (i < n_threads s)%nat /\ t_state (th s i) <> FREE.
Proof.
  intros Hinv Hc. split; [by eapply iv_cur|].
  destruct (iv_live _ _ Hinv c i Hc) as [E|[E|(? & _)]]; congruence.
Qed.

Lemma create_inv me name fn arg s :
  inv s -> inv (thread_create ep me name fn arg s).2.
Proof.
  intros Hinv. destruct (thread_create ep me name fn arg s) as [o s'] eqn:E. cbn.
  pose proof (thread_create_spec ep me name fn arg s o s' (iv_len _ _ Hinv) (iv_n _ _ Hinv)
    (fun c Hc => inv_current s me c Hinv Hc) E) as H.
  destruct o as [i|].
  - destruct H as (Ht & _ & _ & Hr & _). eapply inv_taken; eauto.
  - destruct H as (_ & [->|(i & Ht & Hf)]); [done|]. eapply inv_taken; eauto.
Qed.

Lemma fork_inv ru me frame space s :
  inv s -> 0 < zlen frame -> inv (thread_fork ru me frame space s).2.
Proof.
  intros Hinv Hfr. destruct (thread_fork ru me frame space s) as [o s'] eqn:E. cbn.
  pose proof (thread_fork_spec ru me frame space s o s' (iv_len _ _ Hinv) (iv_n _ _ Hinv)
    (fun c Hc => inv_current s me c Hinv Hc) Hfr E) as H.
  destruct o as [i|].
  - destruct H as (Ht & _ & _ & Hr & _). eapply inv_taken; eauto.
  - destruct H as (_ & [->|(i & Ht & Hf)]); [done|]. eapply inv_taken; eauto.
Qed.

(** Waking, signalling and the like: a map over the table that leaves homes
    alone and at most makes a blocked thread runnable. *)
Lemma inv_on_all who p f s :
  inv_at who s ->
  (forall t, p t = true -> t_home (f t) = t_home t
     /\ (t_state (f t) = t_state t \/ (t_state t = BLOCKED /\ t_state (f t) = RUNNABLE))) ->
  inv_at who (on_all p f s).
Proof.
  intros Hinv Hf.
  assert (forall i, (i < n_threads s)%nat -> t_home (th (on_all p f s) i) = t_home (th s i)
     /\ (t_state (th (on_all p f s) i) = t_state (th s i)
         \/ (t_state (th s i) = BLOCKED /\ t_state (th (on_all p f s) i) = RUNNABLE))) as H.
  { intros i Hi. pose proof (iv_n _ _ Hinv). rewrite th_on_all by (rewrite (iv_len _ _ Hinv); lia).
    destruct (_ <? _)%nat; cbn [andb]; [|auto]. destruct (p (th s i)) eqn:E; auto. }
  eapply inv_benign; [exact Hinv|apply length_on_all|done| |done|..].
  - split; [done|apply Hinv].
  - intros i Hi Hr. split; [done|]. destruct (H i Hi) as [_ [E|[_ E]]]; congruence.
  - intros c i Hc. destruct (H i (iv_cur _ _ Hinv c i Hc)) as [E1 E2]. split; [done|tauto].
  - intros c i j _ _ Hj _ Hs. destruct (H j Hj) as [E1 E2]. split; [done|].
    destruct E2 as [->|[_ E2]]; auto.
Qed.

(** A change of one thread that touches neither its state nor its home. *)
Lemma inv_upd_same who i f s :
  inv_at who s -> (forall t, t_home (f t) = t_home t /\ t_state (f t) = t_state t) ->
  inv_at who (upd i f s).
Proof.
  intros Hinv Hf.
  assert (forall j, t_home (th (upd i f s) j) = t_home (th s j) /\ t_state (th (upd i f s) j) = t_state (th s j)) as H.
  { intros j. rewrite th_upd. case_bool_decide as E; [|done]. destruct E as [-> _]. apply Hf. }
  eapply inv_benign; [exact Hinv|apply length_upd|done|split; [done|apply Hinv]|done|..].
  - intros j Hj. destruct (H j) as [_ ->]. done.
  - intros c j _. destruct (H j) as [-> ->]. auto.
  - intros c j k _ _ _ _ Hs. destruct (H k) as [-> ->]. auto.
Qed.

(** The running thread marked: it is about to leave its processor, or is a
    zombie on it. *)
Lemma inv_mark s me c f :
  inv s -> working s me c -> (forall t, t_home (f t) = t_home t) ->
  (t_state (f (th s c)) = BLOCKED -> inv_at (Some me) (upd c f s))
  /\ (t_state (f (th s c)) = ZOMBIE -> inv (upd c f s)).
Proof.
  intros Hinv [Hc Hr Hid] Hh. pose proof (iv_cur _ _ Hinv me c Hc) as Hcn.
  assert (c < length (threads s))%nat as Hl by (rewrite (iv_len _ _ Hinv); pose proof (iv_n _ _ Hinv); lia).
  assert (forall j, t_home (th (upd c f s) j) = t_home (th s j)) as Hhome.
  { intros j. rewrite th_upd. case_bool_decide as E; [destruct E as [-> _]; apply Hh|done]. }
  assert (forall k i j, current s k = Some i -> idle (cpu_of s k) = Some j -> (j < n_threads s)%nat ->
    t_home (th s j) = Z.of_nat k -> j <> c) as Hjc.
  { intros k i j Hk Hj Hjn Hjh ->. destruct (iv_home _ _ Hinv me c Hc) as [|E]; [lia|].
    assert (k = me) as -> by lia. done. }
  split; intros Hs.
  - pose proof Hinv as [Hlen Hn Hcp Hcu Hex Hrun Hlive Hho Hidle]. split; try done.
    + by rewrite length_upd.
    + intros i Hi Hri. destruct (decide (i = c)) as [->|]; [rewrite th_upd_eq in Hri by done; congruence|].
      rewrite th_upd_ne in Hri by done. by apply Hrun.
    + intros k i Hk. destruct (decide (i = c)) as [->|].
      * assert (k = me) as -> by (by eapply Hex).
        right; right. rewrite th_upd_eq by done. auto.
      * rewrite th_upd_ne by done. destruct (Hlive k i Hk) as [?|[?|(? & _)]]; [auto..|done].
    + intros k i Hk. rewrite Hhome. by apply Hho.
    + intros k i Hk. destruct (Hidle k i Hk) as (j & Hj & Hjn & Hjh & Hjs). exists j.
      rewrite Hhome, th_upd_ne by eauto. auto.
  - eapply inv_benign; [exact Hinv|apply length_upd|done|split; [done|apply Hinv]|done|..].
    + intros i Hi Hri. destruct (decide (i = c)) as [->|]; [rewrite th_upd_eq in Hri by done; congruence|].
      by rewrite th_upd_ne in Hri by done.
    + intros k i Hk. split; [done|]. destruct (decide (i = c)) as [->|];
        [rewrite th_upd_eq by done; auto|rewrite th_upd_ne by done; auto].
    + intros k i j Hk Hj Hjn Hjh Hjs. rewrite Hhome, th_upd_ne by eauto. auto.
Qed.

(** A slot given back. *)
Record released (i : nat) (s s' : sched) : Prop := {
  rl_len : length (threads s') = length (threads s);
  rl_cpus : cpus s' = cpus s;
  rl_n : n_threads s' = n_threads s /\ next_id s' = next_id s;
  rl_slot : (i < length (threads s))%nat ->
    t_state (th s' i) = FREE /\ t_id (th s' i) = -1 /\ t_parent (th s' i) = -1 /\ t_stack_low (th s' i) = 0;
  rl_other j : j <> i -> th s' j = th s j
}.

Lemma release_spec i s : released i s (release_slot i s).
Proof.
  unfold release_slot.
  set (s1 := if negb _ then _ else s).
  assert (length (threads s1) = length (threads s) /\ cpus s1 = cpus s /\ n_threads s1 = n_threads s
          /\ next_id s1 = next_id s /\ (forall j, j <> i -> th s1 j = th s j)
          /\ ((i < length (threads s))%nat -> t_stack_low (th s1 i) = 0)) as (H1 & H2 & H3 & H4 & H5 & H6).
  { unfold s1. destruct (Z.eqb_spec (t_stack_low (th s i)) 0); cbn [negb]; [done|].
    repeat split; try done.
    - cbn. apply length_alter.
    - intros j Hj. rewrite th_upd_ne by done. done.
    - intros Hl. rewrite th_upd_eq by done. done. }
  split.
  - by rewrite length_upd.
  - done.
  - done.
  - intros Hl. rewrite th_upd_eq by (by rewrite H1). cbn. rewrite H6 by done. done.
  - intros j Hj. rewrite th_upd_ne by done. auto.
Qed.

Lemma release_inv i s :
  inv s -> (i < n_threads s)%nat -> t_state (th s i) = ZOMBIE -> parked s i -> inv (release_slot i s).
Proof.
  intros Hinv Hi Hz Hp. destruct (release_spec i s) as [Hl Hc [Hn _] Hsl Ho].
  pose proof (iv_n _ _ Hinv). pose proof (iv_len _ _ Hinv).
  destruct Hsl as (Hf & _); [lia|].
  eapply inv_benign; [exact Hinv|done|by rewrite Hc|lia|intros c; unfold current, cpu_of; by rewrite Hc|..].
  - intros k Hk Hr. assert (k <> i) as Hne by (intros ->; congruence).
    rewrite (Ho k Hne) in Hr. split; [lia|done].
  - intros c k Hk. rewrite Ho by (intros ->; by apply (Hp c)). auto.
  - intros c k j Hk Hj Hjn Hjh Hjs. rewrite Ho by (intros ->; destruct Hjs; congruence). auto.
Qed.

Lemma scan_spec ts id have i n :
  match scan ts id have i n with
  | inl k => (i <= k < i + n)%nat /\ t_state (nth k ts zero_thread) = ZOMBIE /\ t_parent (nth k ts zero_thread) = id
  | inr b =>
      (forall k, (i <= k < i + n)%nat -> t_parent (nth k ts zero_thread) = id -> t_state (nth k ts zero_thread) <> ZOMBIE)
      /\ (b = true <-> have = true \/ exists k, (i <= k < i + n)%nat
            /\ t_parent (nth k ts zero_thread) = id /\ t_state (nth k ts zero_thread) <> FREE)
  end.
Proof.
  revert i have. induction n as [|n IH]; intros i have; cbn [scan].
  { split; [lia|]. split; [auto|]. intros [|(k & ? & _)]; [done|lia]. }
  destruct (Z.eqb_spec (t_parent (nth i ts zero_thread)) id) as [Hp|Hp]; cbn [negb].
  - destruct (is_state ZOMBIE _) eqn:Ez.
    { apply is_state_true in Ez. split; [lia|done]. }
    apply is_state_false in Ez. specialize (IH (S i) (have || negb (is_state FREE (nth i ts zero_thread)))).
    destruct (scan _ _ _ _ n) as [k|b]; [destruct IH as (? & ? & ?); split; [lia|done]|].
    destruct IH as [IH1 IH2]. split.
    + intros k Hk Hkp. destruct (decide (k = i)) as [->|]; [done|]. apply IH1; [lia|done].
    + rewrite IH2, orb_true_iff, negb_true_iff, is_state_false. split.
      * intros [[?|?]|(k & ? & ?)]; [by left|right; exists i; split; [lia|done]|right; exists k; split; [lia|done]].
      * intros [?|(k & Hk & ? & ?)]; [by left; left|].
        destruct (decide (k = i)) as [->|]; [by left; right|]. right. exists k. split; [lia|done].
  - specialize (IH (S i) have).
    destruct (scan _ _ _ _ n) as [k|b]; [destruct IH as (? & ? & ?); split; [lia|done]|].
    destruct IH as [IH1 IH2]. split.
    + intros k Hk Hkp. destruct (decide (k = i)) as [->|]; [done|]. apply IH1; [lia|done].
    + rewrite IH2. split; (intros [?|(k & Hk & ? & ?)]; [by left|]).
      * right. exists k. split; [lia|done].
      * destruct (decide (k = i)) as [->|]; [done|]. right. exists k. split; [lia|done].
Qed.

Lemma reap_inv me s :
  inv s -> (forall i, scan (threads s) (my_id s me) false 0 (n_threads s) = inl i -> parked s i) ->
  inv (thread_reap me s).2.
Proof.
  intros Hinv Hp. unfold thread_reap. pose proof (scan_spec (threads s) (my_id s me) false 0 (n_threads s)) as Hs.
  destruct (scan _ _ _ _ _) as [i|b]; [|done]. destruct Hs as (Hi & Hz & _). apply release_inv; auto. lia.
Qed.

Lemma block_inv me sp s c f :
  inv s -> working s me c -> (forall t, t_home (f t) = t_home t) ->
  inv (schedule_locked me sp (upd c (fun t => set_state BLOCKED (f t)) s)).
Proof.
  intros Hinv Hw Hf. eapply schedule_inv; [|exact (wk_cur _ _ _ Hw)].
  apply (inv_mark s me c (fun t => set_state BLOCKED (f t))); done.
Qed.

Lemma working_block s me c sp f :
  working s me c ->
  block me sp f s = schedule_locked me sp (upd c (fun t => set_state BLOCKED (f t)) s).
Proof.
  intros [Hc Hr _]. unfold block. rewrite Hc. by rewrite (proj2 (is_state_true _ _) Hr).
Qed.

Lemma cpu_init_inv me name s :
  inv s -> current s me = None -> (me < length (cpus s))%nat -> inv (sched_cpu_init me name s).
Proof.
  intros Hinv Hnone Hme. unfold sched_cpu_init.
  destruct (alloc_slot s) as [[i s1]|] eqn:Ea; [|done].
  destruct (alloc_slot_spec _ _ _ (iv_len _ _ Hinv) (iv_n _ _ Hinv) Ea) as (Ht & Hf & Hid & _).
  destruct (slot_init_spec me i name 0 s s1 (iv_len _ _ Hinv) Ht Hid) as (Hs & _ & Hnb & _); [congruence|].
  set (s2 := slot_init me i name 0 s1) in *. clearbody s2.
  set (s3 := upd i (set_state RUNNING) (upd i (set_home (Z.of_nat me)) (upd i (set_parent (-1)) s2))).
  assert (taken i s s3) as Ht3 by (unfold s3; eauto using taken_upd).
  pose proof (taken_lt _ _ _ (iv_len _ _ Hinv) Hs) as Hi.
  assert (t_state (th s3 i) = RUNNING /\ t_home (th s3 i) = Z.of_nat me) as [Hr Hh].
  { unfold s3. rewrite !th_upd_eq by (rewrite ?length_upd; done). done. }
  clearbody s3. pose proof Ht3 as [Hl Hc Hn Hin Hfree Hnew Ho].
  assert (forall c k, current s c = Some k -> k <> i) as Hki.
  { intros c k Hk ->. destruct (inv_current s c i Hinv Hk) as [Hlt Hst]. by apply Hst, Hfree. }
  set (s4 := upd_cpu me (set_idle (Some i)) (upd_cpu me (set_cur (Some i)) s3)).
  assert (forall c, current s4 c = if bool_decide (c = me) then Some i else current s c) as Hcur.
  { intros c. unfold current, s4. rewrite !cpu_upd by (rewrite ?length_upd_cpu, ?Hc; done).
    unfold cpu_of. rewrite Hc. rewrite (bool_decide_true (me = me)) by done. case_bool_decide; done. }
  assert (forall c, idle (cpu_of s4 c) = if bool_decide (c = me) then Some i else idle (cpu_of s c)) as Hidl.
  { intros c. unfold s4. rewrite !cpu_upd by (rewrite ?length_upd_cpu, ?Hc; done).
    unfold cpu_of. rewrite Hc. rewrite (bool_decide_true (me = me)) by done. case_bool_decide; done. }
  assert (forall j, th s4 j = th s3 j) as Hth by done.
  assert (forall j, j <> i -> th s4 j = th s j) as Hth' by (intros; rewrite Hth; auto).
  change (inv s4).
  pose proof Hinv as [Ilen In Icp Icu Iex Irun Ilive Iho Iidle]. split.
  - by rewrite <- Ilen, <- Hl.
  - apply Hn.
  - unfold s4. rewrite !length_upd_cpu, Hc. done.
  - intros c k. rewrite Hcur. case_bool_decide as E; [intros [= <-]; done|]. intros Hlt%Icu. change (n_threads s4) with (n_threads s3). lia.
  - intros c c' k. rewrite !Hcur. repeat case_bool_decide; subst; try done.
    + intros [= <-] Hx%Hki. done.
    + intros Hx%Hki [= <-]. done.
    + apply Iex.
  - intros k Hk Hkr. destruct (decide (k = i)) as [->|Hne].
    { exists me. rewrite Hcur. by rewrite bool_decide_true. }
    rewrite Hth' in Hkr by done. destruct (Irun k) as [c Hck]; [|done|].
    { destruct (decide (k < n_threads s)%nat); [done|]. destruct Hne. apply Hnew. split; [lia|done]. }
    exists c. rewrite Hcur. rewrite bool_decide_false; [done|]. intros ->. congruence.
  - intros c k. rewrite Hcur. case_bool_decide as E; [intros [= <-]; left; by rewrite Hth|].
    intros Hk. rewrite Hth' by eauto. destruct (Ilive c k Hk) as [?|[?|(? & _)]]; [auto..|done].
  - intros c k. rewrite Hcur. case_bool_decide as E; [intros [= <-]; subst; right; by rewrite Hth|].
    intros Hk. rewrite Hth' by eauto. eauto.
  - intros c k. rewrite Hcur, Hidl. case_bool_decide as E.
    + intros [= <-]. subst c. exists i. rewrite Hth. auto.
    + intros Hk. destruct (Iidle c k Hk) as (j & Hj & Hjn & Hjh & Hjs). exists j.
      assert (j <> i) as Hji by (intros ->; specialize (Hfree Hjn); destruct Hjs; congruence).
      rewrite Hth' by done. change (n_threads s4) with (n_threads s3). repeat split; try done. lia.
Qed.

Lemma step_inv e s s' : inv s -> step e s s' -> inv s'.
Proof.
  intros Hinv Hstep. destruct Hstep.
  - by destruct Hinv; split.
  - by apply create_inv.
  - by apply fork_inv.
  - by apply cpu_init_inv.
  - unfold schedule. destruct (started s); [|done]. eapply schedule_inv; [by apply inv_weaken|done].
  - unfold thread_block_on_console. rewrite (working_block s me c) by done. by eapply block_inv.
  - unfold thread_block_on_pipe. rewrite (working_block s me c) by done. by eapply block_inv.
  - unfold thread_block_on_pipe_until. rewrite (working_block s me c) by done. by eapply block_inv.
  - apply inv_on_all; [done|]. intros t. rewrite !andb_true_iff, is_state_true. cbn. tauto.
  - apply inv_on_all; [done|]. intros t. rewrite !andb_true_iff, is_state_true. cbn. tauto.
  - apply inv_on_all; [done|]. intros t _. unfold is_state at 2. cbn.
    unfold is_state. cbn. case_bool_decide; cbn; auto.
  - unfold thread_setpgid. destruct (named me pid s); [|done]. by apply inv_upd_same.
  - unfold exit_mark. pose proof H as [Hc _ _]. rewrite Hc. cbn [snd]. by eapply inv_mark.
  - unfold exit_wake. destruct (current s me) as [c|]; [|done]. apply inv_on_all; [done|].
    intros t. rewrite !andb_true_iff, is_state_true. cbn. tauto.
  - by apply reap_inv.
  - unfold thread_wait in H0.
    pose proof (scan_spec (threads s) (my_id s me) false 0 (n_threads s)) as Hs.
    destruct (scan _ _ _ _ _) as [i|[|]] eqn:E.
    + simplify_eq. destruct Hs as (Hi & Hz & _). apply release_inv; auto. lia.
    + pose proof H as [Hc _ _]. rewrite Hc in H0. simplify_eq. by apply block_inv with (f := set_wait_reason WAIT_CHILD).
    + by simplify_eq.
Qed.

(** ** What a step does to a process *)

(** The process in the slot is the same one, and if it had finished its status
    stands. *)
Record kept (t t' : thread) : Prop := {
  kp_id : t_id t' = t_id t;
  kp_parent : t_parent t' = t_parent t;
  kp_home : t_home t' = t_home t;
  kp_free : t_state t' = FREE <-> t_state t = FREE;
  kp_zombie : t_state t = ZOMBIE -> t_state t' = ZOMBIE /\ t_status t' = t_status t
}.
#[local] Instance kept_pre : PreOrder kept.
Proof.
  split; [by intros t; split|]. intros a b c [H1 H2 H3 H4 H5] [K1 K2 K3 K4 K5].
  split; try congruence; [tauto|]. intros Hz. destruct (H5 Hz) as [Hz' ?].
  destruct (K5 Hz'). split; congruence.
Qed.

Record all_kept (s s' : sched) : Prop := {
  ak_n : n_threads s' = n_threads s;
  ak_id : next_id s' = next_id s;
  ak_kept j : (j < n_threads s)%nat -> kept (th s j) (th s' j)
}.
#[local] Instance all_kept_pre : PreOrder all_kept.
Proof.
  split; [by intros s; split|]. intros a b c [H1 H2 H3] [K1 K2 K3].
  split; try congruence. intros j Hj. etransitivity; [by apply H3|]. apply K3. lia.
Qed.

Lemma kept_on_all p f s :
  (n_threads s <= length (threads s))%nat ->
  (forall t, p t = true -> kept t (f t)) -> all_kept s (on_all p f s).
Proof.
  intros Hl Hf. split; [done..|]. intros j Hj. rewrite th_on_all by lia.
  destruct (_ <? _)%nat; cbn [andb]; [|done]. destruct (p (th s j)) eqn:E; [auto|done].
Qed.
Lemma kept_upd i f s : kept (th s i) (f (th s i)) -> all_kept s (upd i f s).
Proof.
  intros Hf. split; [done..|]. intros j _. rewrite th_upd. case_bool_decide as E; [|done].
  by destruct E as [-> _].
Qed.

Ltac by_kept := split; cbn in *; try done; try congruence; try (split; congruence); try (intros; split; congruence).

Lemma expire_kept s : (n_threads s <= length (threads s))%nat -> all_kept s (expire s).
Proof.
  intros Hl. apply kept_on_all; [done|]. intros t. rewrite !andb_true_iff, is_state_true. intros [[Hb _] _].
  by_kept.
Qed.

(** A pass of [me]: every process is kept, no other processor is disturbed,
    and a thread waiting for [me] is either chosen or nearer. *)
Lemma schedule_pass me sp s prev :
  inv_at (Some me) s -> current s me = Some prev ->
  let s' := schedule_locked me sp s in
  all_kept s s'
  /\ (forall c, c <> me -> current s' c = current s c)
  /\ forall j, (j < n_threads s)%nat -> eligible me (th s j) = true ->
       exists k, current s' me = Some k
         /\ (k = j \/ (dist MAX_THREADS k j < dist MAX_THREADS prev j)%nat).
Proof.
  intros Hinv Hcur s'. pose proof (iv_len _ _ Hinv) as Hlen. pose proof (iv_n _ _ Hinv) as Hn.
  destruct (schedule_cases me sp s prev Hinv Hcur) as [Hinv1 Hc]. fold s' in Hc.
  pose proof (expire_kept s ltac:(lia)) as Hk1.
  change (current s me) with (current (expire s) me) in Hcur.
  assert (forall j, (j < n_threads s)%nat -> eligible me (th s j) = true -> eligible me (th (expire s) j) = true) as Hel.
  { intros j Hj. rewrite !eligible_spec. unfold expire. rewrite th_on_all by lia.
    destruct (_ && _); cbn; tauto. }
  change (n_threads s) with (n_threads (expire s)) in *.
  assert (forall c, current s c = current (expire s) c) as Hcs by done.
  setoid_rewrite Hcs. clear Hcs.
  set (s1 := expire s) in *.
  pose proof (iv_cur _ _ Hinv1 me prev Hcur) as Hp.
  pose proof (next_runnable_spec me prev s1 Hp) as Hnx.
  destruct (next_runnable me (Some prev) s1) as [next|].
  - destruct Hc as (Hne & Hnn & He & Hs'). destruct Hnx as (_ & _ & Hfirst).
    apply eligible_spec in He as [Hst _].
    destruct (switch_to_switched me prev next sp s1) as [St Id Cu Ix N [L1 L2] Ni _]; try done.
    { rewrite (iv_len _ _ Hinv1). lia. }
    { rewrite (iv_len _ _ Hinv1). lia. }
    { by eapply current_lt. }
    rewrite <- Hs' in *. split; [etransitivity; [exact Hk1|]|].
    + split; [done..|]. intros j _. pose proof (Id j) as Hid. unfold ident in Hid. simplify_eq.
      split; try congruence; rewrite St; repeat case_bool_decide; subst; cbn [andb]; try done.
      * split; congruence.
      * destruct (is_state RUNNING (th s1 prev)) eqn:E; [|done]. apply is_state_true in E. split; congruence.
      * intros; congruence.
      * destruct (is_state RUNNING (th s1 prev)) eqn:E; [|done]. apply is_state_true in E. intros; congruence.
    + split; [intros c Hc; rewrite Cu; by rewrite bool_decide_false|].
      intros j Hj Hej%Hel; [|done]. exists next. rewrite Cu, bool_decide_true by done. split; [done|].
      specialize (Hfirst j Hj Hej). destruct (decide (next = j)) as [|Hnj]; [by left|right].
      revert Hfirst. unfold dist. repeat case_match; rewrite ?Nat.leb_le, ?Nat.leb_gt in *; lia.
  - destruct Hc as [_ ->]. split; [done|]. split; [done|].
    intros j Hj Hej%Hel; [|done]. rewrite Hnx in Hej; done.
Qed.

(** What one step does to the table: everything kept, or one slot filled with
    a new process, or one finished process removed. *)
Record life (s s' : sched) : Prop := {
  lf_n : (n_threads s <= n_threads s')%nat;
  lf_next : next_id s' = next_id s \/ next_id s' = i32 (next_id s + 1);
  lf_slot j : (j < n_threads s')%nat ->
    (j < n_threads s)%nat /\ kept (th s j) (th s' j)
    \/ (t_state (th s' j) = FREE /\ ((j < n_threads s)%nat -> t_state (th s j) = FREE \/ t_state (th s j) = ZOMBIE))
    \/ (((j < n_threads s)%nat -> t_state (th s j) = FREE)
        /\ t_id (th s' j) = next_id s /\ next_id s' = i32 (next_id s + 1)
        /\ forall j', (j' < n_threads s')%nat -> j' <> j -> (j' < n_threads s)%nat /\ th s' j' = th s j')
}.

Lemma life_kept s s' : all_kept s s' -> life s s'.
Proof.
  intros [Hn Hi Hk]. split; [lia|by left|]. intros j Hj. left. split; [lia|]. apply Hk. lia.
Qed.

Lemma life_taken s i s' :
  taken i s s' ->
  (t_state (th s' i) = FREE /\ next_id s' = next_id s)
  \/ (t_id (th s' i) = next_id s /\ next_id s' = i32 (next_id s + 1)) ->
  life s s'.
Proof.
  intros [Hl Hc Hn Hi Hfree Hnew Ho] H. split; [lia|tauto|]. intros j Hj.
  assert (forall j', (j' < n_threads s')%nat -> j' <> i -> (j' < n_threads s)%nat /\ th s' j' = th s j') as Hoth.
  { intros j' Hj' Hne. split; [|auto]. destruct (decide (j' < n_threads s)%nat); [done|].
    destruct Hne. apply Hnew. lia. }
  destruct (decide (j = i)) as [->|Hne].
  - right. destruct H as [[? ?]|[? ?]]; [left|right]; split; auto.
  - left. destruct (Hoth j Hj Hne) as [? ->]. done.
Qed.

Lemma life_released s i s' :
  (i < n_threads s)%nat -> (n_threads s <= length (threads s))%nat ->
  t_state (th s i) = ZOMBIE -> released i s s' -> life s s'.
Proof.
  intros Hi Hl Hz [_ _ [Hn Hid] Hsl Ho]. destruct Hsl as (Hf & _); [lia|].
  split; [lia|by left|]. intros j Hj. destruct (decide (j = i)) as [->|Hne]; [right; left; auto|].
  left. split; [lia|]. by rewrite Ho.
Qed.

(** What a step does to the processors. *)
Definition cpu_frame (e : event) (s s' : sched) : Prop :=
  forall c i, current s c = Some i -> e <> Pass c -> current s' c = Some i.

(** What a pass of [me] does for the threads that wait for it. *)
Definition pass_progress (e : event) (s s' : sched) : Prop :=
  forall me j prev, e = Pass me -> current s me = Some prev ->
    (j < n_threads s)%nat -> eligible me (th s j) = true ->
    exists k, current s' me = Some k /\ (k = j \/ (dist MAX_THREADS k j < dist MAX_THREADS prev j)%nat).

Lemma pass_all me sp s1 s prev :
  inv_at (Some me) s1 -> current s1 me = Some prev ->
  all_kept s s1 -> cpus s1 = cpus s ->
  (forall j, (j < n_threads s)%nat -> eligible me (th s j) = true -> eligible me (th s1 j) = true) ->
  life s (schedule_locked me sp s1) /\ cpu_frame (Pass me) s (schedule_locked me sp s1)
  /\ pass_progress (Pass me) s (schedule_locked me sp s1).
Proof.
  intros Hinv Hcur Hk Hcp Hel.
  destruct (schedule_pass me sp s1 prev Hinv Hcur) as (K & F & P).
  assert (forall c, current s1 c = current s c) as Hcs by (intros; unfold current, cpu_of; by rewrite Hcp).
  split; [apply life_kept; by etransitivity|]. split.
  - intros c i Hc Hne. rewrite F, Hcs; [done|congruence].
  - intros me' j prev' [= <-] Hp Hj Hej. rewrite Hcs in Hcur.
    assert (prev' = prev) as -> by congruence. apply P; [rewrite (ak_n _ _ Hk); done|auto].
Qed.

Lemma working_pass me sp s c f :
  inv s -> working s me c ->
  (forall t, t_home (f t) = t_home t /\ t_id (f t) = t_id t /\ t_parent (f t) = t_parent t) ->
  let s' := schedule_locked me sp (upd c (fun t => set_state BLOCKED (f t)) s) in
  life s s' /\ cpu_frame (Pass me) s s' /\ pass_progress (Pass me) s s'.
Proof.
  intros Hinv Hw Hf. pose proof Hw as [Hc Hr _]. apply (pass_all me sp _ s c); [|done| |done|].
  - apply (inv_mark s me c (fun t => set_state BLOCKED (f t))); [done..| |done]. apply Hf.
  - apply kept_upd. destruct (Hf (th s c)) as (? & ? & ?). by_kept.
  - intros j Hj Hej. rewrite th_upd_ne; [done|]. intros ->. apply eligible_spec in Hej as [? _]. congruence.
Qed.

Lemma kept_other s s' :
  all_kept s s' -> cpus s' = cpus s -> life s s' /\ cpu_frame Other s s' /\ pass_progress Other s s'.
Proof.
  intros Hk Hc. split; [by apply life_kept|]. split; [|done].
  intros c i Hi _. unfold current, cpu_of. by rewrite Hc.
Qed.

Lemma create_facts me name fn arg s :
  inv s -> let s' := (thread_create ep me name fn arg s).2 in life s s' /\ cpus s' = cpus s.
Proof.
  intros Hinv. destruct (thread_create ep me name fn arg s) as [o s'] eqn:E. cbn.
  pose proof (thread_create_spec ep me name fn arg s o s' (iv_len _ _ Hinv) (iv_n _ _ Hinv)
    (fun c Hc => inv_current s me c Hinv Hc) E) as H.
  destruct o as [i|].
  - destruct H as (Ht & Hid & [Hnid] & _). split; [eapply life_taken; eauto|apply Ht].
  - destruct H as (Hid & [->|(i & Ht & Hf)]); [by split; [apply life_kept|]|].
    split; [eapply life_taken; eauto|apply Ht].
Qed.

Lemma fork_facts ru me frame space s :
  inv s -> 0 < zlen frame -> let s' := (thread_fork ru me frame space s).2 in life s s' /\ cpus s' = cpus s.
Proof.
  intros Hinv Hfr. destruct (thread_fork ru me frame space s) as [o s'] eqn:E. cbn.
  pose proof (thread_fork_spec ru me frame space s o s' (iv_len _ _ Hinv) (iv_n _ _ Hinv)
    (fun c Hc => inv_current s me c Hinv Hc) Hfr E) as H.
  destruct o as [i|].
  - destruct H as (Ht & Hid & [Hnid] & _). split; [eapply life_taken; eauto|apply Ht].
  - destruct H as (Hid & [->|(i & Ht & Hf)]); [by split; [apply life_kept|]|].
    split; [eapply life_taken; eauto|apply Ht].
Qed.

Lemma cpu_init_facts me name s :
  inv s -> current s me = None -> (me < length (cpus s))%nat ->
  life s (sched_cpu_init me name s) /\ cpu_frame Other s (sched_cpu_init me name s).
Proof.
  intros Hinv Hnone Hme. unfold sched_cpu_init.
  destruct (alloc_slot s) as [[i s1]|] eqn:Ea; [|split; [by apply life_kept|by intros c i]].
  destruct (alloc_slot_spec _ _ _ (iv_len _ _ Hinv) (iv_n _ _ Hinv) Ea) as (Ht & Hf & Hid & _).
  destruct (slot_init_spec me i name 0 s s1 (iv_len _ _ Hinv) Ht Hid) as (Hs & Hnx & Hnb & _); [congruence|].
  set (s2 := slot_init me i name 0 s1) in *. clearbody s2.
  set (s3 := upd i (set_state RUNNING) (upd i (set_home (Z.of_nat me)) (upd i (set_parent (-1)) s2))).
  assert (taken i s s3) as Ht3 by (unfold s3; eauto using taken_upd).
  pose proof (taken_lt _ _ _ (iv_len _ _ Hinv) Hs) as Hi.
  assert (life s s3) as Hlife.
  { eapply life_taken; [done|]. right. split; [|done]. unfold s3.
    rewrite !th_upd_eq by (rewrite ?length_upd; done). apply Hnb. }
  split.
  - destruct Hlife as [L1 L2 L3]. split; [exact L1|exact L2|exact L3].
  - intros c k Hk _. unfold current. rewrite !cpu_upd by (rewrite ?length_upd_cpu, ?(tk_cpus _ _ _ Ht3); done).
    rewrite !bool_decide_false by congruence.
    unfold cpu_of. by rewrite (tk_cpus _ _ _ Ht3).
Qed.

Lemma step_facts e s s' :
  inv s -> step e s s' -> life s s' /\ cpu_frame e s s' /\ pass_progress e s s'.
Proof.
  intros Hinv Hstep. pose proof (iv_len _ _ Hinv) as Hlen. pose proof (iv_n _ _ Hinv) as Hn.
  destruct Hstep.
  - by apply kept_other.
  - destruct (create_facts me name fn arg s Hinv) as [Hl Hc]. split; [done|]. split; [|done].
    intros c i Hi _. unfold current, cpu_of. by rewrite Hc.
  - destruct (fork_facts ru me frame space s Hinv) as [Hl Hc]; [done|]. split; [done|]. split; [|done].
    intros c i Hi _. unfold current, cpu_of. by rewrite Hc.
  - destruct (cpu_init_facts me name s Hinv) as [Hl Hc]; [done..|]. done.
  - unfold schedule. destruct (started s); [|done].
    apply (pass_all me sp s s c); [by apply inv_weaken|done..].
  - unfold thread_block_on_console. rewrite (working_block s me c) by done. by apply working_pass.
  - unfold thread_block_on_pipe. rewrite (working_block s me c) by done. by apply working_pass.
  - unfold thread_block_on_pipe_until. rewrite (working_block s me c) by done. by apply working_pass.
  - apply kept_other; [|done]. apply kept_on_all; [lia|]. intros t. rewrite !andb_true_iff, is_state_true. intros [[? ?] ?]. by_kept.
  - apply kept_other; [|done]. apply kept_on_all; [lia|]. intros t. rewrite !andb_true_iff, is_state_true. intros [? ?]. by_kept.
  - apply kept_other; [|done]. apply kept_on_all; [lia|]. intros t _.
    unfold is_state. cbn. case_bool_decide; by_kept.
  - apply kept_other; [|unfold thread_setpgid; by destruct (named me pid s)].
    unfold thread_setpgid. destruct (named me pid s); [|done]. by apply kept_upd.
  - unfold exit_mark. pose proof H as [Hc Hr _]. rewrite Hc. apply kept_other; [|done]. apply kept_upd. by_kept.
  - unfold exit_wake. destruct (current s me) as [c|]; [|by apply kept_other].
    apply kept_other; [|done]. apply kept_on_all; [lia|]. intros t. rewrite !andb_true_iff, is_state_true. intros [[? ?] ?]. by_kept.
  - unfold thread_reap. pose proof (scan_spec (threads s) (my_id s me) false 0 (n_threads s)) as Hs.
    destruct (scan _ _ _ _ _) as [i|b]; [|by apply kept_other]. destruct Hs as (Hi & Hz & _). cbn [snd].
    split; [eapply life_released; eauto using release_spec; lia|]. split; [|done].
    intros c k Hk _. unfold current, cpu_of. by rewrite (rl_cpus _ _ _ (release_spec i s)).
  - unfold thread_wait in H0. pose proof (scan_spec (threads s) (my_id s me) false 0 (n_threads s)) as Hs.
    destruct (scan _ _ _ _ _) as [i|[|]] eqn:E.
    + simplify_eq. destruct Hs as (Hi & Hz & _).
      split; [eapply life_released; eauto using release_spec; lia|]. split; [|done].
      intros c' k Hk _. unfold current, cpu_of. by rewrite (rl_cpus _ _ _ (release_spec i s)).
    + pose proof H as [Hc _ _]. rewrite Hc in H0. simplify_eq.
      by apply working_pass with (f := set_wait_reason WAIT_CHILD).
    + simplify_eq. by apply kept_other.
Qed.

(** ** Boot

    The static state, then [sched_init] and [sched_cpu_idle] on processor 0,
    as [main] does; [p] is the allocator by then, [fn] is [idle_entry]. *)
Definition cold (p : pmm) : sched :=
  Sched (replicate MAX_THREADS zero_thread) 0 0 (replicate MAX_CPUS zero_cpu) 0 0 false p.
Definition boot (p : pmm) (fn : Z) : sched :=
  sched_cpu_idle ep 0 "idle-0" fn (sched_init 0 "boot" (cold p)).

(** Every process has an id of its own, below the counter. *)
Definition once (s : sched) : Prop :=
  (forall i, (i < n_threads s)%nat -> t_state (th s i) <> FREE -> 0 <= t_id (th s i) < next_id s)
  /\ forall i j, (i < n_threads s)%nat -> (j < n_threads s)%nat ->
       t_state (th s i) <> FREE -> t_state (th s j) <> FREE -> t_id (th s i) = t_id (th s j) -> i = j.

Lemma boot_shape p fn :
  idle (cpu_of (boot p fn) 0) <> None ->
  exists i s1, let s0 := sched_init 0 "boot" (cold p) in
    boot p fn = upd_cpu 0 (set_idle (Some i)) (upd i (set_home 0) s1)
    /\ taken i s0 s1 /\ i <> 0%nat /\ (forall j, (j < n_threads s1)%nat -> j = 0%nat \/ j = i)
    /\ t_state (th s1 i) = RUNNABLE /\ t_id (th s1 i) = 1 /\ next_id s1 = 2.
Proof.
  unfold boot, sched_cpu_idle. set (s0 := sched_init 0 "boot" (cold p)).
  destruct (thread_create ep 0 "idle-0" fn 0 s0) as [[i|] s1] eqn:E; intros Hid.
  - destruct (thread_create_spec ep 0 "idle-0" fn 0 s0 (Some i) s1) as (Ht & Hn & [Hi] & Hr & _); try done.
    { change (n_threads s0) with 1%nat. unfold MAX_THREADS, MAX_CPUS. lia. }
    { intros c [= <-]. split; [change (n_threads s0) with 1%nat; lia|done]. }
    exists i, s1. split; [done|]. split; [done|].
    pose proof (tk_free _ _ _ Ht) as Hf. pose proof (tk_new _ _ _ Ht) as Hw. change (n_threads s0) with 1%nat in *.
    assert (i <> 0%nat) as Hi0 by (intros ->; specialize (Hf ltac:(lia)); done).
    split; [done|]. split; [|by rewrite Hi, Hn].
    intros j Hj. destruct (decide (j = 0%nat)); [by left|right]. apply Hw. lia.
  - exfalso. apply Hid. pose proof (thread_create_spec ep 0 "idle-0" fn 0 s0 None s1) as H.
    destruct H as (_ & [->|(i & Ht & _)]); try done.
    { change (n_threads s0) with 1%nat. unfold MAX_THREADS, MAX_CPUS. lia. }
    { intros c [= <-]. split; [change (n_threads s0) with 1%nat; lia|done]. }
    unfold cpu_of. by rewrite (tk_cpus _ _ _ Ht).
Qed.

Lemma boot_ok p fn :
  idle (cpu_of (boot p fn) 0) <> None -> inv (boot p fn) /\ once (boot p fn) /\ next_id (boot p fn) = 2.
Proof.
  intros (i & s1 & -> & Ht & Hi0 & Hall & Hr & Hid & Hn)%boot_shape.
  set (s0 := sched_init 0 "boot" (cold p)) in *.
  assert (length (threads s0) = MAX_THREADS) as Hl by done.
  pose proof (taken_lt _ _ _ Hl Ht) as Hi.
  set (s := upd_cpu 0 (set_idle (Some i)) (upd i (set_home 0) s1)).
  pose proof (tk_other _ _ _ Ht 0%nat (not_eq_sym Hi0)) as H0.
  assert (th s i = set_home 0 (th s1 i)) as Hsi.
  { change (th s i) with (th (upd i (set_home 0) s1) i). by rewrite th_upd_eq. }
  assert (th s 0 = th s0 0) as Hs0.
  { change (th s 0) with (th (upd i (set_home 0) s1) 0). by rewrite th_upd_ne. }
  assert (forall c, cpu_of s c = if bool_decide (c = 0%nat) then Cpu (Some 0%nat) (Some i) 0 0 else zero_cpu) as Hc.
  { intros c. unfold s. rewrite cpu_upd by (cbn; rewrite (tk_cpus _ _ _ Ht); cbn; lia).
    unfold cpu_of. cbn [cpus upd with_threads]. rewrite (tk_cpus _ _ _ Ht).
    case_bool_decide; [done|]. destruct c as [|c]; [done|]. change (nth c (replicate 7 zero_cpu) zero_cpu = zero_cpu).
    rewrite nth_lookup. destruct (replicate 7 zero_cpu !! c) eqn:E; [|done]. by apply lookup_replicate in E as [-> _]. }
  assert (forall c k, current s c = Some k -> c = 0%nat /\ k = 0%nat) as Hcur.
  { intros c k. unfold current. rewrite Hc. case_bool_decide; [intros [= <-]; done|done]. }
  assert (n_threads s = n_threads s1) as Hnt by done.
  pose proof (tk_n _ _ _ Ht) as Hns. change (n_threads s0) with 1%nat in Hns.
  split; [|split; [|exact Hn]].
  - split.
    + unfold s. cbn. rewrite length_alter. rewrite (tk_len _ _ _ Ht). done.
    + apply Hns.
    + unfold s. rewrite length_upd_cpu. cbn [cpus upd with_threads]. by rewrite (tk_cpus _ _ _ Ht).
    + intros c k [_ ->]%Hcur. rewrite Hnt. lia.
    + intros c c' k [-> _]%Hcur [-> _]%Hcur. done.
    + intros k Hk Hrun. destruct (Hall k Hk) as [->| ->].
      * exists 0%nat. unfold current. by rewrite Hc.
      * rewrite Hsi in Hrun. cbn in Hrun. congruence.
    + intros c k [-> ->]%Hcur. rewrite Hs0. by left.
    + intros c k [-> ->]%Hcur. rewrite Hs0. by left.
    + intros c k [-> ->]%Hcur. exists i. rewrite Hc, Hsi. cbn. rewrite Hr. split; [done|]. split; [apply Ht|]. split; [done|by left].
  - assert (next_id s = 2) as Hn2 by exact Hn. split.
    + intros k Hk _. rewrite Hn2. destruct (Hall k Hk) as [->| ->]; [rewrite Hs0|rewrite Hsi; cbn; lia].
      change (t_id (th s0 0)) with 0. lia.
    + assert (t_id (th s i) = 1) as E1 by (by rewrite Hsi). assert (t_id (th s 0) = 0) as E0 by (by rewrite Hs0).
      intros k j Hk Hj _ _. destruct (Hall k Hk) as [->| ->], (Hall j Hj) as [->| ->]; congruence.
Qed.

Lemma reaches_inv s s' : inv s -> reaches s s' -> inv s'.
Proof. apply rtc_inv. intros a b Ha [e He]. by eapply step_inv. Qed.


(** ** One id, one process *)

(** A step before the counter of ids has gone round. *)
Definition bstep (s s' : sched) : Prop := (exists e, step e s s') /\ next_id s < 2 ^ 31 - 1.

Lemma life_once s s' : life s s' -> next_id s < 2 ^ 31 - 1 -> once s -> 0 <= next_id s -> once s' /\ next_id s <= next_id s'.
Proof.
  intros [Hn Hnx Hsl] Hb [H1 H2] H0.
  assert (i32 (next_id s + 1) = next_id s + 1) as Ew by (unfold swrap; rewrite Z.mod_small; lia).
  rewrite Ew in *.
  assert (next_id s <= next_id s') as Hle by lia. split; [|done]. split.
  - intros i Hi Hf. destruct (Hsl i Hi) as [[Hi' K]|[[? _]|(_ & -> & -> & _)]]; [|done|lia].
    rewrite (kp_id _ _ K). assert (t_state (th s i) <> FREE) as Hf' by (intros E; by apply Hf, (kp_free _ _ K)).
    specialize (H1 i Hi' Hf'). lia.
  - assert (forall i j, (i < n_threads s')%nat -> (j < n_threads s')%nat ->
      t_state (th s' i) <> FREE -> t_state (th s' j) <> FREE -> t_id (th s' i) = t_id (th s' j) -> 
      ((i < n_threads s)%nat /\ kept (th s i) (th s' i)) ->  i = j) as Hk.
    { intros i j Hi Hj Hfi Hfj E [Hi' Ki].
      assert (t_state (th s i) <> FREE) as Hfi' by (intros X; by apply Hfi, (kp_free _ _ Ki)).
      pose proof (H1 i Hi' Hfi') as Hri. rewrite (kp_id _ _ Ki) in E.
      destruct (Hsl j Hj) as [[Hj' Kj]|[[? _]|(_ & Ej & _)]]; [|done|lia].
      apply H2; [done..|intros X; by apply Hfj, (kp_free _ _ Kj)|]. by rewrite <- (kp_id _ _ Kj). }
    intros i j Hi Hj Hfi Hfj E. destruct (Hsl i Hi) as [Ki|[[? _]|(Hf & Ei & _ & Ho)]]; [by eapply Hk|done|].
    destruct (decide (j = i)) as [|Hne]; [done|]. destruct (Ho j Hj Hne) as [Hj' Ej]. symmetry.
    apply Hk; try done. by rewrite Ej.
Qed.

(** What became of the processes of [s0], seen from [s]. *)
Record history (s0 s : sched) : Prop := {
  hi_inv : inv s; hi_once : once s; hi_next : 0 <= next_id s0 <= next_id s;
  hi_same i : (i < n_threads s)%nat -> t_state (th s i) <> FREE -> t_id (th s i) < next_id s0 ->
    (i < n_threads s0)%nat /\ t_state (th s0 i) <> FREE /\ kept (th s0 i) (th s i)
}.

Lemma history_step s0 s s' : history s0 s -> bstep s s' -> history s0 s'.
Proof.
  intros [Hi Ho Hn Hs] [[e He] Hb]. destruct (step_facts e s s' Hi He) as (L & _ & _).
  destruct (life_once s s' L Hb Ho) as [Ho' Hle]; [lia|]. split; [by eapply step_inv|done|lia|].
  intros i Hi' Hf Hlt. destruct (lf_slot _ _ L i Hi') as [[Hin K]|[[? _]|(_ & E & _)]]; [|done|lia].
  destruct (Hs i Hin) as (? & ? & ?).
  - intros X. by apply Hf, (kp_free _ _ K).
  - by rewrite <- (kp_id _ _ K).
  - split; [done|]. split; [done|]. by etransitivity.
Qed.


(** ** Nobody waits for ever *)

(** A run along which thread [j] stays runnable and no processor takes it; the
    number counts the passes of processor [me]. *)
Inductive waits (me j : nat) : nat -> sched -> sched -> Prop :=
  | waits_done s : t_state (th s j) = RUNNABLE -> waits me j 0 s s
  | waits_step e n s s1 s' :
      t_state (th s j) = RUNNABLE -> step e s s1 -> waits me j n s1 s' ->
      waits me j (match e with Pass c => if decide (c = me) then S n else n | Other => n end) s s'.

Lemma eligible_kept me s s' j :
  life s s' -> (j < n_threads s)%nat -> eligible me (th s j) = true -> t_state (th s' j) = RUNNABLE ->
  eligible me (th s' j) = true.
Proof.
  intros [Hn _ Hsl] Hj [Hr Hh]%eligible_spec Hr'. apply eligible_spec. split; [done|].
  destruct (Hsl j) as [[_ K]|[[? _]|(Hf & _)]]; [lia| |congruence|].
  - by rewrite (kp_home _ _ K).
  - specialize (Hf Hj). congruence.
Qed.

Lemma waits_bound me j n s s' prev :
  waits me j n s s' -> inv s -> current s me = Some prev -> (j < n_threads s)%nat ->
  eligible me (th s j) = true -> (n < dist MAX_THREADS prev j)%nat.
Proof.
  intros H. revert prev. induction H as [s Hr|e n s s1 s' Hr Hst Hw IH]; intros prev Hinv Hcur Hj He;
    pose proof (iv_n _ _ Hinv); pose proof (iv_cur _ _ Hinv me prev Hcur).
  { pose proof (dist_range MAX_THREADS prev j). lia. }
  destruct (step_facts e s s1 Hinv Hst) as (L & F & P). pose proof (step_inv e s s1 Hinv Hst) as Hinv1.
  assert (t_state (th s1 j) = RUNNABLE) as Hr1 by (by destruct Hw).
  pose proof (eligible_kept me s s1 j L Hj He Hr1) as He1.
  pose proof (lf_n _ _ L).
  assert (e <> Pass me -> (n < dist MAX_THREADS prev j)%nat) as Hother.
  { intros Hne. apply IH; [done|by apply F|lia|done]. }
  destruct e as [c|]; [|by apply Hother]. case_decide as Hc; [subst c|apply Hother; congruence].
  destruct (P me j prev eq_refl Hcur Hj He) as (k & Hk & [->|Hd]).
  - destruct (iv_live _ _ Hinv1 me j Hk) as [?|[?|(? & _)]]; congruence.
  - specialize (IH k Hinv1 Hk ltac:(lia) He1). lia.
Qed.

(** C29: round robin starves nobody.  Whatever else the processors do
    meanwhile, a thread that processor [me] may run and that stays runnable
    sees fewer than [MAX_THREADS] passes of [me] through the scheduler before
    some processor takes it. *)
Theorem runnable_runs p fn s me prev j n s' :
  idle (cpu_of (boot p fn) 0) <> None -> reaches (boot p fn) s ->
  current s me = Some prev -> (j < n_threads s)%nat -> eligible me (th s j) = true ->
  waits me j n s s' -> (n < MAX_THREADS)%nat.
Proof.
  intros Hb Hr Hcur Hj He Hw. destruct (boot_ok p fn Hb) as (Hinv & _).
  pose proof (reaches_inv _ _ Hinv Hr) as I.
  pose proof (waits_bound me j n s s' prev Hw I Hcur Hj He).
  pose proof (dist_range MAX_THREADS prev j). pose proof (iv_n _ _ I). pose proof (iv_cur _ _ I me prev Hcur). lia.
Qed.

(** ** The window inside [thread_exit] *)

(** Whoever arrives on a processor arrives running. *)
Lemma pass_arrival me sp s prev c i :
  inv_at (Some me) s -> current s me = Some prev ->
  current (schedule_locked me sp s) c = Some i ->
  current s c = Some i \/ t_state (th (schedule_locked me sp s) i) = RUNNING.
Proof.
  intros Hinv Hcur. destruct (schedule_cases me sp s prev Hinv Hcur) as [Hinv1 Hc].
  change (current s me) with (current (expire s) me) in Hcur.
  change (current s c) with (current (expire s) c). set (s1 := expire s) in *.
  pose proof (iv_len _ _ Hinv1). pose proof (iv_n _ _ Hinv1). pose proof (iv_cur _ _ Hinv1 me prev Hcur).
  destruct (next_runnable me (Some prev) s1) as [next|].
  - destruct Hc as (Hne & Hnn & _ & ->).
    destruct (switch_to_switched me prev next sp s1) as [St _ Cu]; try done; [lia..|by eapply current_lt|].
    rewrite Cu. case_bool_decide; [|auto]. intros [= <-]. right. rewrite St. by rewrite bool_decide_true.
  - destruct Hc as [_ ->]. auto.
Qed.

Lemma working_arrival me sp s w f c i :
  inv s -> working s me w -> (forall t, t_home (f t) = t_home t) ->
  let s' := schedule_locked me sp (upd w (fun t => set_state BLOCKED (f t)) s) in
  current s' c = Some i -> current s c = Some i \/ t_state (th s' i) = RUNNING.
Proof.
  intros Hinv Hw Hf s' Hc. eapply (pass_arrival me sp _ w) in Hc; [exact Hc| |apply Hw].
  apply (inv_mark s me w (fun t => set_state BLOCKED (f t))); done.
Qed.

Lemma step_arrival e s s' c i :
  inv s -> step e s s' -> current s' c = Some i -> current s c = Some i \/ t_state (th s' i) = RUNNING.
Proof.
  intros Hinv Hstep Hc.
  assert (cpus s' = cpus s -> current s c = Some i) as Hsame.
  { intros E. unfold current, cpu_of in *. by rewrite <- E. }
  destruct Hstep; try (left; by apply Hsame).
  - left. apply Hsame. by destruct (create_facts me name fn arg s Hinv).
  - left. apply Hsame. by destruct (fork_facts ru me frame space s Hinv).
  - pose proof (cpu_init_inv me name s Hinv H H0) as Hinv'.
    destruct (decide (c = me)) as [->|Hne].
    + right. unfold sched_cpu_init in *. destruct (alloc_slot s) as [[k s1]|] eqn:Ea; [|congruence].
      destruct (alloc_slot_spec _ _ _ (iv_len _ _ Hinv) (iv_n _ _ Hinv) Ea) as (Ht & Hf & _).
      pose proof (taken_lt _ _ _ (iv_len _ _ Hinv) Ht) as Hl.
      unfold current in Hc. rewrite !cpu_upd, bool_decide_true in Hc
        by (rewrite ?length_upd_cpu; cbn [cpus upd with_threads slot_init with_next_id]; rewrite ?(tk_cpus _ _ _ Ht); done).
      simplify_eq/=.
      match goal with |- t_state (th ?x i) = _ => change (t_state (th (upd i (set_state RUNNING)
        (upd i (set_home (Z.of_nat me)) (upd i (set_parent (-1)) (slot_init me i name 0 s1)))) i) = RUNNING) end.
      rewrite th_upd_eq; [done|]. rewrite !length_upd. unfold slot_init. cbn. by rewrite length_alter.
    + left. unfold sched_cpu_init in Hc. destruct (alloc_slot s) as [[k s1]|] eqn:Ea; [|done].
      destruct (alloc_slot_spec _ _ _ (iv_len _ _ Hinv) (iv_n _ _ Hinv) Ea) as (Ht & Hf & _).
      unfold current in *. rewrite !cpu_upd, !bool_decide_false in Hc
        by (done || (rewrite ?length_upd_cpu; cbn [cpus upd with_threads slot_init with_next_id]; rewrite ?(tk_cpus _ _ _ Ht); done)).
      unfold cpu_of in *. cbn [cpus upd with_threads slot_init with_next_id] in Hc. by rewrite (tk_cpus _ _ _ Ht) in Hc.
  - unfold schedule in *. destruct (started s); [|auto]. eapply pass_arrival; eauto using inv_weaken.
  - unfold thread_block_on_console in *. rewrite (working_block s me c0) in * by done. by eapply working_arrival.
  - unfold thread_block_on_pipe in *. rewrite (working_block s me c0) in * by done. by eapply working_arrival.
  - unfold thread_block_on_pipe_until in *. rewrite (working_block s me c0) in * by done. by eapply working_arrival.
  - left. apply Hsame. unfold thread_setpgid. by destruct (named me pid s).
  - left. apply Hsame. unfold exit_mark. by destruct (current s me).
  - left. apply Hsame. unfold exit_wake. by destruct (current s me).
  - left. apply Hsame. unfold thread_reap. destruct (scan _ _ _ _ _) as [k|]; [|done]. cbn. exact (rl_cpus _ _ _ (release_spec k s)).
  - unfold thread_wait in H0. destruct (scan _ _ _ _ _) as [k|[|]].
    + left. apply Hsame. simplify_eq. exact (rl_cpus _ _ _ (release_spec k s)).
    + pose proof H as [Hcu _ _]. rewrite Hcu in H0. simplify_eq.
      by apply working_arrival with (f := set_wait_reason WAIT_CHILD) (w := c0).
    + left. apply Hsame. by simplify_eq.
Qed.

(** A zombie on no processor: until it is collected it stays so. *)
Definition lost (id : Z) (s : sched) : Prop :=
  forall i, (i < n_threads s)%nat -> t_state (th s i) <> FREE -> t_id (th s i) = id ->
    t_state (th s i) = ZOMBIE /\ parked s i.

Lemma lost_step id s s' :
  inv s -> once s -> 0 <= id < next_id s -> bstep s s' -> lost id s -> lost id s'.
Proof.
  intros Hinv Ho Hid [[e He] Hb] Hlost i Hi Hf Hii.
  destruct (step_facts e s s' Hinv He) as (L & _ & _).
  destruct (lf_slot _ _ L i Hi) as [[Hin K]|[[? _]|(_ & E & _)]]; [|done|lia].
  destruct (Hlost i Hin) as [Hz Hp].
  - intros X. by apply Hf, (kp_free _ _ K).
  - by rewrite <- (kp_id _ _ K).
  - destruct (kp_zombie _ _ K Hz) as [Hz' _]. split; [done|]. intros c Hc.
    destruct (step_arrival e s s' c i Hinv He Hc) as [Hc'|Hr]; [by apply (Hp c)|congruence].
Qed.

End steps.

(** ** Collecting *)

(** [thread_reap] answers as [wait4] with [WNOHANG] must.  An id above 0
    or any other non-answer comes from a finished child of the caller, whose
    own status is reported and whose slot alone changes, to a free one; 0 says
    children exist and none has finished; -1 that no slot in use names the
    caller as parent; neither of those changes anything. *)
Theorem thread_reap_collects me s :
  let '(id, status, s') := thread_reap me s in
  (exists i, (i < n_threads s)%nat /\ t_state (th s i) = ZOMBIE /\ t_parent (th s i) = my_id s me
     /\ id = t_id (th s i) /\ status = t_status (th s i)
     /\ (forall j, j <> i -> th s' j = th s j) /\ cpus s' = cpus s
     /\ ((i < length (threads s))%nat -> t_state (th s' i) = FREE /\ t_stack_low (th s' i) = 0 /\ t_parent (th s' i) = -1))
  \/ (s' = s /\ (forall i, (i < n_threads s)%nat -> t_parent (th s i) = my_id s me -> t_state (th s i) <> ZOMBIE)
      /\ if id =? 0
         then exists i, (i < n_threads s)%nat /\ t_parent (th s i) = my_id s me /\ t_state (th s i) <> FREE
         else id = -1 /\ forall i, (i < n_threads s)%nat -> t_parent (th s i) = my_id s me -> t_state (th s i) = FREE).
Proof.
  unfold thread_reap. pose proof (scan_spec (threads s) (my_id s me) false 0 (n_threads s)) as Hs.
  destruct (scan _ _ _ _ _) as [i|b].
  - destruct Hs as (Hi & Hz & Hp). left. exists i. destruct (release_spec i s) as [Hl Hc _ Hsl Ho].
    repeat split; try done; try lia; try by apply Hsl.
  - destruct Hs as [Hz Hb]. right. split; [done|].
    split; [intros i Hi; apply Hz; lia|].
    destruct b; cbn.
    + destruct Hb as [[?|(k & Hk & ? & ?)] _]; [done..|]. exists k. split; [lia|done].
    + split; [done|]. intros i Hi Hp. destruct (decide (t_state (th s i) = FREE)); [done|].
      exfalso. destruct Hb as [_ Hb]. enough (false = true) by done. apply Hb. right. exists i. split; [lia|done].
Qed.

(** ** Concrete runs *)
Definition pool16 : pmm := Pmm false 0x1000 0x1000 0x11000 0 0 0 0 None 0 0 ∅.
Abbreviation boot16 := (boot 0 pool16 0).

Lemma boot16_idle : idle (cpu_of boot16 0) <> None.
Proof. by vm_compute. Qed.



Lemma runnable_runs_witness :
  eligible 0 (th boot16 1) = true /\ exists n, waits 0 0 1 n boot16 boot16 /\ (n < MAX_THREADS)%nat.
Proof.
  assert (eligible 0 (th boot16 1) = true) as H by (vm_compute; reflexivity).
  split; [exact H|]. exists 0%nat.
  assert (waits 0 0 1 0 boot16 boot16) as W by (constructor; vm_compute; reflexivity).
  split; [exact W|].
  apply (runnable_runs 0 pool16 0 boot16 0 0 1 0 boot16 boot16_idle (rtc_refl _ _)); [vm_compute; reflexivity|vm_compute; lia|exact H|exact W].
Defined.

(** Boot runs a program in slot 2, its child of id 2. *)
Definition program16 : sched :=
  schedule 0 0 (schedule 0 0 (snd (thread_create 0 0 "program" 0 0 boot16))).

Lemma program16_reached : rtc (bstep 0) boot16 program16.
Proof.
  eapply rtc_l; [split; [exists Other; apply (step_create 0 0 "program" 0 0)|by vm_compute]|].
  eapply rtc_l; [split; [exists (Pass 0%nat); apply (step_schedule 0 0 0 _ 0%nat); vm_compute; reflexivity|by vm_compute]|].
  apply rtc_once. split; [exists (Pass 0%nat); apply (step_schedule 0 0 0 _ 1%nat); vm_compute; reflexivity|by vm_compute].
Qed.


(** Collecting a child that is still inside [thread_exit] puts two
    processors on one slot.  Processor 1 runs a child, which marks itself a
    zombie and drops the lock; its parent on processor 0 collects it there and
    then, its stack freed and its slot free while processor 1 still runs on
    it; the next process created takes the slot, and processor 0 is given it. *)
Theorem reap_inside_exit :
  let s := sched_cpu_init 1 "idle" boot16 in
  let s := snd (thread_create 0 0 "child" 0 0 s) in
  let s := schedule 1 0 s in
  let s := (exit_mark 1 7 s).2 in
  let '(id, status, s1) := thread_reap 0 s in
  id = 3 /\ status = 7 /\ current s1 1 = Some 3%nat /\ t_state (th s1 3) = FREE
  /\ let s2 := snd (thread_create 0 0 "next" 0 0 s1) in
     let s3 := schedule 0 0 (schedule 0 0 s2) in
     t_id (th s3 3) = 4 /\ current s3 0 = Some 3%nat /\ current s3 1 = Some 3%nat.
Proof. vm_compute. repeat split; reflexivity. Qed.
