(* ===== verification/User.v ===== *)
(** * The program's memory, as the kernel sees it

    What a system call does with an address the program gave it: ask
    [vm_user_ok], then read and write bytes through it.  [UserMem] is what the
    address-space code offers the rest of the kernel and [UserLaws] what it
    promises; [flat] is the simplest memory that keeps the promise. *)
From S2P Require Import Prelude.

Class UserMem (M : Type) := {
  (** [vm_user_ok(va, len, write)]; a check for writing resolves copy-on-write *)
  user_ok : Z -> Z -> bool -> M -> bool * M;
  uld : M -> Z -> Z;
  ust : M -> Z -> Z -> M;
  (** may the program touch the byte, to write it if the flag says so *)
  may : M -> bool -> Z -> Prop
}.

Class UserLaws (M : Type) `{UserMem M} := {
  user_ok_sound va len w m m' a :
    user_ok va len w m = (true, m') -> va <= a < va + len -> may m' w a;
  user_ok_complete va len w m :
    0 <= va -> 0 < len -> (forall a, va <= a < va + len -> may m w a) -> fst (user_ok va len w m) = true;
  user_ok_keeps va len w m b m' a :
    user_ok va len w m = (b, m') -> uld m' a = uld m a /\ forall w', may m w' a -> may m' w' a;
  may_read m a : may m true a -> may m false a;
  may_ust m w a b v : may (ust m a v) w b <-> may m w b;
  uld_ust m a v b : may m true a -> is_byte v -> uld (ust m a v) b = if b =? a then v else uld m b;
  uld_ust_ne m a v b : may m true a -> b <> a -> uld (ust m a v) b = uld m b;
  uld_byte m a : is_byte (uld m a)
}.

Section bytes.
Context {M : Type} `{UserLaws M}.

(** [memcpy] to and from the program, a byte at a time. *)
Fixpoint ustores (m : M) (a : Z) (l : list Z) : M :=
  match l with [] => m | b :: l => ustores (ust m a b) (a + 1) l end.
Fixpoint uloads (m : M) (a : Z) (n : nat) : list Z :=
  match n with O => [] | S n => uld m a :: uloads m (a + 1) n end.

(** A 64-bit word in memory. *)
Definition uld64 (m : M) (a : Z) : Z := le_combine (uloads m a 8).
Definition ust64 (m : M) (a v : Z) : M := ustores m a (le_split 8 v).
Fixpoint uld64s (m : M) (a : Z) (n : nat) : list Z :=
  match n with O => [] | S n => uld64 m a :: uld64s m (a + 8) n end.
Fixpoint ust64s (m : M) (a : Z) (l : list Z) : M :=
  match l with [] => m | v :: l => ust64s (ust64 m a v) (a + 8) l end.

Definition may_range (m : M) (w : bool) (a n : Z) : Prop := forall b, a <= b < a + n -> may m w b.

Lemma may_ustores m a l w b : may (ustores m a l) w b <-> may m w b.
Proof. revert m a. induction l as [|x l IH]; intros m a; [done|]. cbn [ustores]. by rewrite IH, may_ust. Qed.
Lemma may_ust64s m a l w b : may (ust64s m a l) w b <-> may m w b.
Proof. revert m a. induction l as [|x l IH]; intros m a; [done|]. cbn [ust64s]. rewrite IH. apply may_ustores. Qed.
Lemma may_range_stores m a l w b n : may_range (ustores m a l) w b n <-> may_range m w b n.
Proof. unfold may_range. by setoid_rewrite may_ustores. Qed.

Lemma uld_ustores_out m a l b :
  bytes_ok l -> may_range m true a (zlen l) -> ~ (a <= b < a + zlen l) -> uld (ustores m a l) b = uld m b.
Proof.
  revert m a. induction l as [|x l IH]; intros m a Hl Hm Hb; [done|].
  apply Forall_cons in Hl as [Hx Hl]. rewrite zlen_cons in *. pose proof (zlen_nonneg l). cbn [ustores].
  rewrite IH; [|done| |lia].
  - rewrite uld_ust; [by zsplit|apply Hm; lia|done].
  - intros c Hc. rewrite may_ust. apply Hm. lia.
Qed.

Lemma uloads_length m a n : length (uloads m a n) = n.
Proof. revert a. induction n; intros a; cbn; auto. Qed.
Lemma uloads_bytes m a n : bytes_ok (uloads m a n).
Proof. revert a. induction n; intros a; cbn; constructor; auto using uld_byte. Qed.

Lemma uloads_ustores_out m a l b n :
  bytes_ok l -> may_range m true a (zlen l) -> b + Z.of_nat n <= a \/ a + zlen l <= b ->
  uloads (ustores m a l) b n = uloads m b n.
Proof.
  intros Hl Hm. revert b. induction n as [|n IH]; intros b Hb; [done|]. cbn [uloads].
  f_equal; [|apply IH; lia]. apply uld_ustores_out; [done..|]. lia.
Qed.

Lemma uloads_ustores m a l :
  bytes_ok l -> may_range m true a (zlen l) -> uloads (ustores m a l) a (length l) = l.
Proof.
  revert m a. induction l as [|x l IH]; intros m a Hl Hm; [done|].
  apply Forall_cons in Hl as [Hx Hl]. rewrite zlen_cons in *. pose proof (zlen_nonneg l).
  assert (may_range (ust m a x) true (a + 1) (zlen l)) as Hm'.
  { intros c Hc. rewrite may_ust. apply Hm. lia. }
  cbn [ustores uloads length]. f_equal; [|by apply IH].
  rewrite uld_ustores_out by (done || lia).
  rewrite uld_ust, Z.eqb_refl; [done|apply Hm; lia|done].
Qed.

Lemma uloads_split m a n k : uloads m a (n + k) = uloads m a n ++ uloads m (a + Z.of_nat n) k.
Proof.
  revert a. induction n as [|n IH]; intros a; cbn [uloads Nat.add app].
  - f_equal. lia.
  - rewrite IH. do 3 f_equal. lia.
Qed.

Lemma uld64_ust64 m a v :
  0 <= v < 2 ^ 64 -> may_range m true a 8 -> uld64 (ust64 m a v) a = v.
Proof.
  intros Hv Hm. unfold uld64, ust64.
  pose proof (uloads_ustores m a (le_split 8 v)) as E. rewrite le_split_length in E.
  rewrite E by (try apply le_split_bytes; rewrite zlen_le_split; done).
  apply le_combine_split. change (256 ^ Z.of_nat 8) with (2 ^ 64). done.
Qed.
Lemma uld64_ust64_out m a v b :
  may_range m true a 8 -> b + 8 <= a \/ a + 8 <= b -> uld64 (ust64 m a v) b = uld64 m b.
Proof.
  intros Hm Hb. unfold uld64, ust64. rewrite uloads_ustores_out; [done|apply le_split_bytes|..]; rewrite zlen_le_split; [done|lia].
Qed.
Lemma uld64s_out m a v b n :
  may_range m true a 8 -> b + 8 * Z.of_nat n <= a \/ a + 8 <= b -> uld64s (ust64 m a v) b n = uld64s m b n.
Proof.
  intros Hm. revert b. induction n as [|n IH]; intros b Hb; [done|]. cbn [uld64s].
  rewrite uld64_ust64_out by (done || lia). f_equal. apply IH. lia.
Qed.
Lemma uld64_ust64s_out m a l b :
  may_range m true a (8 * zlen l) -> b + 8 <= a \/ a + 8 * zlen l <= b -> uld64 (ust64s m a l) b = uld64 m b.
Proof.
  revert m a. induction l as [|v l IH]; intros m a Hm Hb; [done|]. rewrite zlen_cons in *.
  pose proof (zlen_nonneg l). cbn [ust64s]. rewrite IH; [apply uld64_ust64_out| |lia].
  - intros c Hc. apply Hm. lia.
  - lia.
  - intros c Hc. unfold ust64. rewrite may_ustores. apply Hm. lia.
Qed.

(** Words written are read back. *)
Lemma uld64s_ust64s m a l :
  Forall (fun v => 0 <= v < 2 ^ 64) l -> may_range m true a (8 * zlen l) ->
  uld64s (ust64s m a l) a (length l) = l.
Proof.
  revert m a. induction l as [|v l IH]; intros m a Hl Hm; [done|].
  apply Forall_cons in Hl as [Hv Hl]. rewrite zlen_cons in *. pose proof (zlen_nonneg l).
  assert (may_range (ust64 m a v) true (a + 8) (8 * zlen l)) as Hm'.
  { intros c Hc. unfold ust64. rewrite may_ustores. apply Hm. lia. }
  cbn [ust64s uld64s length]. f_equal; [|by apply IH].
  rewrite uld64_ust64s_out by (done || lia). apply uld64_ust64; [done|]. intros c Hc. apply Hm. lia.
Qed.

Lemma uld64_range m a : 0 <= uld64 m a < 2 ^ 64.
Proof.
  unfold uld64. pose proof (le_combine_range _ (uloads_bytes m a 8)) as Hr. exact Hr.
Qed.

(** Two memories that agree on a range. *)
Definition agree (m m' : M) (a n : Z) : Prop := forall b, a <= b < a + n -> uld m' b = uld m b.

Lemma agree_uloads m m' a n : agree m m' a (Z.of_nat n) -> uloads m' a n = uloads m a n.
Proof.
  revert a. induction n as [|n IH]; intros a Ha; [done|]. cbn [uloads]. f_equal; [apply Ha; lia|].
  apply IH. intros b Hb. apply Ha. lia.
Qed.
Lemma agree_uld64 m m' a n b : agree m m' a n -> a <= b -> b + 8 <= a + n -> uld64 m' b = uld64 m b.
Proof. intros Ha Hb Hn. unfold uld64. rewrite (agree_uloads m); [done|]. intros c Hc. apply Ha. lia. Qed.
Lemma agree_uld64s m m' a n b k :
  agree m m' a n -> a <= b -> b + 8 * Z.of_nat k <= a + n -> uld64s m' b k = uld64s m b k.
Proof.
  intros Ha. revert b. induction k as [|k IH]; intros b Hb Hn; [done|]. cbn [uld64s].
  f_equal; [eapply agree_uld64; eauto; lia|apply IH; lia].
Qed.
End bytes.

(** ** A flat memory

    One readable and one writable range, every byte of it present. *)
Record flat := Flat { fl_bytes : gmap Z Z; fl_lo : Z; fl_hi : Z; fl_wlo : Z }.

#[global] Instance flat_mem : UserMem flat := {
  user_ok va len w m :=
    (if len <=? 0 then true else (Z.max (fl_lo m) (if w then fl_wlo m else fl_lo m) <=? va) && (va + len <=? fl_hi m), m);
  uld m a := default 0 (fl_bytes m !! a) mod 256;
  ust m a v := Flat (<[a := v]> (fl_bytes m)) (fl_lo m) (fl_hi m) (fl_wlo m);
  may m w a := Z.max (fl_lo m) (if w then fl_wlo m else fl_lo m) <= a < fl_hi m
}.

#[global] Instance flat_laws : UserLaws flat.
Proof.
  split; cbn.
  - intros va len w m m' a [= Hc <-] Ha. destruct (Z.leb_spec len 0); [lia|].
    apply andb_true_iff in Hc as [?%Z.leb_le ?%Z.leb_le]. lia.
  - intros va len w m _ Hlen Ha. destruct (Z.leb_spec len 0); [lia|].
    pose proof (Ha va ltac:(lia)). pose proof (Ha (va + len - 1) ltac:(lia)).
    apply andb_true_iff. rewrite !Z.leb_le. lia.
  - by intros va len w m b m' a [= _ <-].
  - intros m a. lia.
  - done.
  - intros m a v b _ Hv. destruct (Z.eqb_spec b a) as [->|].
    + rewrite lookup_insert_eq. cbn. apply Z.mod_small. exact Hv.
    + by rewrite lookup_insert_ne by done.
  - intros m a v b _ Hne. by rewrite lookup_insert_ne by done.
  - intros m a. apply Z.mod_pos_bound. lia.
Qed.
