(* ===== verification/Signal.v ===== *)
(** * Signal handlers

    [stam/signal.c]: installing a handler, arranging for the interrupted
    program to run it, and coming back.  The interrupted registers are written
    to the program's own stack by [sig_deliver] and read back by [sig_return].
    The theorems: what is interrupted is what resumes, whatever the handler
    did meanwhile; nothing on the stack can make the kernel resume a program
    outside EL0; and SIGKILL can be neither caught nor held off. *)
From S2P Require Import Prelude Mem Pmm Sched User.

(** [regs_t], the frame of a trap from the program. *)
Record regs := Regs { rx : list Z; lr : Z; elr : Z; spsr : Z; sp_el0 : Z }.

Definition regs_words (f : regs) : list Z := rx f ++ [lr f; elr f; spsr f; sp_el0 f].
Definition regs_of (l : list Z) : regs :=
  Regs (take 30 l) (nth 30 l 0) (nth 31 l 0) (nth 32 l 0) (nth 33 l 0).

Definition SIGFRAME_MAGIC : Z := 0x5354414d53494731.
(** [sizeof(sigframe_t)]: the magic, the mask and 34 registers. *)
Definition SIGFRAME : Z := 288.

Definition EINVAL : Z := -22.
Definition EFAULT : Z := -14.

Definition sigact_of (t : thread) (sig : Z) : sigaction :=
  nth (Z.to_nat sig) (t_sigact t) (SigAction 0 0 0).
Definition put_sigact (sig : Z) (a : sigaction) (t : thread) : thread :=
  set_sigact (<[Z.to_nat sig := a]> (t_sigact t)) t.

Section signal.
Context {M : Type} `{UserLaws M}.

Definition sig_action (sig handler restorer mask : Z) (t : thread) (m : M) : Z * thread * M :=
  if (sig <=? 0) || (Z.of_nat NSIG <=? sig) then (EINVAL, t, m) else
  if sig =? SIGKILL then (EINVAL, t, m) else
  let put m := (0, put_sigact sig (SigAction handler restorer mask) t, m) in
  if 1 <? handler then
    let '(ok, m) := user_ok handler 4 false m in
    if negb ok then (EFAULT, t, m) else
    if restorer =? 0 then (EFAULT, t, m) else
    let '(ok, m) := user_ok restorer 4 false m in
    if negb ok then (EFAULT, t, m) else put m
  else put m.

(** [for (s = 1; s < NSIG; s++)]: caught signals go back to the default. *)
Definition uncaught (s : nat) (a : sigaction) : sigaction :=
  if (1 <=? s)%nat && (1 <? sa_handler a) then SigAction 0 0 0 else a.
Definition sig_exec_reset (t : thread) : thread :=
  set_blocked 0 (set_sigact (imap uncaught (t_sigact t)) t).

Definition clear_pending (sig : Z) (t : thread) : thread :=
  set_pending (i32 (Z.ldiff (t_pending t) (Z.shiftl 1 sig))) t.

Definition sig_deliver (sig : Z) (t : thread) (f : regs) (m : M) : Z * thread * regs * M :=
  let h := sa_handler (sigact_of t sig) in
  if h =? 1 then (1, clear_pending sig t, f, m) else
  if h =? 0 then (0, t, f, m) else
  let sp := Z.ldiff (u64 (sp_el0 f - SIGFRAME)) 15 in
  let '(ok, m) := user_ok sp SIGFRAME true m in
  if negb ok then (0, t, f, m) else
  let m := ust64 m sp SIGFRAME_MAGIC in
  let m := ust64 m (sp + 8) (t_blocked t) in
  let m := ust64s m (sp + 16) (regs_words f) in
  let t := set_blocked (Z.lor (t_blocked t) (Z.lor (sa_mask (sigact_of t sig)) (Z.shiftl 1 sig))) t in
  let r := sa_restorer (sigact_of t sig) in
  (1, clear_pending sig t,
   Regs (<[0%nat := u64 sig]> (rx f)) r h (spsr f) sp, m).

Definition EFAULT64 : Z := u64 EFAULT.

Definition sig_return (t : thread) (f : regs) (m : M) : Z * thread * regs * M :=
  let sp := sp_el0 f in
  let '(ok, m) := user_ok sp SIGFRAME false m in
  if negb ok then (EFAULT64, t, f, m) else
  if negb (uld64 m sp =? SIGFRAME_MAGIC) then (EFAULT64, t, f, m) else
  let saved := regs_of (uld64s m (sp + 16) 34) in
  let saved := Regs (rx saved) (lr saved) (elr saved) (Z.land (spsr saved) 0xf0000000) (sp_el0 saved) in
  let '(ok, m) := user_ok (elr saved) 4 false m in
  if negb ok then (EFAULT64, t, f, m) else
  let blocked := uld64 m (sp + 8) in
  (nth 0 (rx saved) 0, set_blocked blocked t, saved, m).

(** ** What goes on the stack comes back *)
Definition reg_ok (v : Z) : Prop := 0 <= v < 2 ^ 64.
Record regs_ok (f : regs) : Prop := {
  ro_x : length (rx f) = 30%nat; ro_range : Forall reg_ok (regs_words f)
}.

Lemma regs_of_words f : length (rx f) = 30%nat -> regs_of (regs_words f) = f.
Proof.
  destruct f as [x l e s p]. cbn. intros Hl. unfold regs_of, regs_words. cbn.
  rewrite <- Hl at 1. rewrite take_app_length.
  f_equal; rewrite app_nth2 by lia; rewrite Hl; done.
Qed.

Lemma ldiff_align a : 0 <= a -> Z.ldiff a 15 = a - a mod 16.
Proof.
  intros Ha. change 15 with (Z.ones 4). rewrite Z.ldiff_ones_r, Z.shiftr_div_pow2, Z.shiftl_mul_pow2 by lia.
  change (2 ^ 4) with 16. zdm.
Qed.

Lemma frame_stored m sp b ws :
  may_range m true sp (16 + 8 * zlen ws) -> reg_ok b -> Forall reg_ok ws ->
  let m' := ust64s (ust64 (ust64 m sp SIGFRAME_MAGIC) (sp + 8) b) (sp + 16) ws in
  uld64 m' sp = SIGFRAME_MAGIC /\ uld64 m' (sp + 8) = b /\ uld64s m' (sp + 16) (length ws) = ws
  /\ forall w a, may m' w a <-> may m w a.
Proof.
  intros Hm Hb Hw m'. pose proof (zlen_nonneg ws).
  assert (may_range m true sp 8) as F1 by (intros c Hc; apply Hm; lia).
  assert (may_range (ust64 m sp SIGFRAME_MAGIC) true (sp + 8) 8) as F2.
  { intros c Hc. unfold ust64. rewrite may_ustores. apply Hm. lia. }
  assert (may_range (ust64 (ust64 m sp SIGFRAME_MAGIC) (sp + 8) b) true (sp + 16) (8 * zlen ws)) as F3.
  { intros c Hc. unfold ust64. rewrite !may_ustores. apply Hm. lia. }
  unfold m'. rewrite !(uld64_ust64s_out _ (sp + 16)) by (done || lia).
  rewrite (uld64_ust64_out _ (sp + 8)) by (done || lia).
  rewrite !uld64_ust64 by (done || (unfold SIGFRAME_MAGIC; lia)).
  split; [done|]. split; [done|]. split; [by apply uld64s_ust64s|].
  intros w a. rewrite may_ust64s. unfold ust64. by rewrite !may_ustores.
Qed.

(** C22: a handler returns to exactly where the program was.  If [sig_deliver]
    sets up a handler, and later -- the handler having run, nested signals
    included -- [sig_return] is called with the stack pointer where delivery
    left it and the frame's bytes as delivery wrote them, then every register
    of the interrupted program comes back, the flags of the processor state
    among them and the rest of it forced to EL0, the mask is the one before,
    and the value returned is the interrupted x0. *)
Theorem sig_round_trip sig t f m t1 f1 m1 t2 f2 m2 :
  regs_ok f -> reg_ok (t_blocked t) -> 1 < sa_handler (sigact_of t sig) ->
  (forall a, elr f <= a < elr f + 4 -> may m false a) ->
  sig_deliver sig t f m = (1, t1, f1, m1) ->
  sp_el0 f2 = sp_el0 f1 -> agree m1 m2 (sp_el0 f1) SIGFRAME ->
  (forall w a, may m1 w a -> may m2 w a) ->
  let saved := Regs (rx f) (lr f) (elr f) (Z.land (spsr f) 0xf0000000) (sp_el0 f) in
  exists m3, sig_return t2 f2 m2 = (nth 0 (rx f) 0, set_blocked (t_blocked t) t2, saved, m3)
    /\ forall a, uld m3 a = uld m2 a.
Proof.
  intros [Hx Hr] Hb Hh Helr Hd Hsp Hag Hmay saved. unfold sig_deliver in Hd.
  rewrite (proj2 (Z.eqb_neq _ 1)), (proj2 (Z.eqb_neq _ 0)) in Hd by lia.
  set (sp := Z.ldiff (u64 (sp_el0 f - SIGFRAME)) 15) in *.
  destruct (user_ok sp SIGFRAME true m) as [ok m0] eqn:E0. destruct ok; [|done]. cbn [negb] in Hd.
  injection Hd as <- <- <-. cbn [sp_el0] in *.
  assert (0 <= sp) as Hsp0.
  { unfold sp. pose proof (uwrap_range 64 (sp_el0 f - SIGFRAME)). rewrite ldiff_align by lia.
    pose proof (Z.mod_pos_bound (u64 (sp_el0 f - SIGFRAME)) 16). zdm. }
  assert (zlen (regs_words f) = 34) as Hl34 by (unfold zlen, regs_words; rewrite length_app, Hx; done).
  destruct (frame_stored m0 sp (t_blocked t) (regs_words f)) as (S1 & S2 & S3 & S4); [|done..|].
  { rewrite Hl34. intros a Ha. eapply user_ok_sound; [exact E0|]. unfold SIGFRAME. lia. }
  set (m1' := ust64s _ _ _) in *. clearbody m1'.
  assert (length (regs_words f) = 34%nat) as Hl by (unfold zlen in Hl34; lia). rewrite Hl in S3.
  unfold sig_return. rewrite Hsp.
  destruct (user_ok sp SIGFRAME false m2) as [ok m2'] eqn:E2.
  assert (ok = true) as ->.
  { pose proof (user_ok_complete sp SIGFRAME false m2) as Hc. rewrite E2 in Hc. apply Hc; [lia|done|].
    intros a Ha. apply Hmay, S4. eapply may_read, user_ok_sound; [exact E0|done]. }
  assert (agree m1' m2' sp SIGFRAME) as Hag2.
  { intros a Ha. rewrite (proj1 (user_ok_keeps _ _ _ _ _ _ a E2)). by apply Hag. }
  cbn [negb]. rewrite (agree_uld64 m1' m2' sp SIGFRAME sp Hag2), S1, Z.eqb_refl by (unfold SIGFRAME; lia).
  cbn [negb]. rewrite (agree_uld64s m1' m2' sp SIGFRAME (sp + 16) 34 Hag2), S3 by (unfold SIGFRAME; lia).
  rewrite regs_of_words by done. cbn [elr rx lr spsr sp_el0].
  destruct (user_ok (elr f) 4 false m2') as [ok m3] eqn:E3.
  apply Forall_app in Hr as [_ Hr]. apply Forall_cons in Hr as [_ Hr]. apply Forall_cons in Hr as [Helr0 _].
  assert (ok = true) as ->.
  { pose proof (user_ok_complete (elr f) 4 false m2') as Hc. rewrite E3 in Hc. apply Hc; [apply Helr0|lia|].
    intros a Ha. apply (user_ok_keeps _ _ _ _ _ _ a E2). apply Hmay, S4. apply (user_ok_keeps _ _ _ _ _ _ a E0). by apply Helr. }
  cbn [negb]. exists m3. split.
  - do 3 f_equal. f_equal. rewrite <- S2. transitivity (uld64 m2' (sp + 8)).
    + unfold uld64. f_equal. apply agree_uloads. intros a Ha. apply (user_ok_keeps _ _ _ _ _ _ a E3).
    + eapply agree_uld64; [exact Hag2|..]; unfold SIGFRAME; lia.
  - intros a. rewrite (proj1 (user_ok_keeps _ _ _ _ _ _ a E3)). apply (user_ok_keeps _ _ _ _ _ _ a E2).
Qed.


(** ** SIGKILL *)
Lemma lowest_signal_found p k sig n :
  Z.testbit p k = true -> sig <= k < sig + Z.of_nat n ->
  sig <= lowest_signal p sig n <= k /\ Z.testbit p (lowest_signal p sig n) = true.
Proof.
  intros Hk. revert sig. induction n as [|n IH]; intros sig Hr; [lia|]. cbn [lowest_signal].
  destruct (Z.testbit p sig) eqn:E; [by split; [lia|]|].
  assert (sig <> k) by congruence. destruct (IH (sig + 1)); [lia|]. split; [lia|done].
Qed.

Lemma sigact_put sig a t k :
  0 <= sig -> 0 <= k -> sig <> k -> sigact_of (put_sigact sig a t) k = sigact_of t k.
Proof.
  intros Hs Hk Hne. unfold sigact_of, put_sigact. cbn. rewrite !nth_lookup.
  by rewrite list_lookup_insert_ne by lia.
Qed.

Lemma sigact_reset t k :
  sa_handler (sigact_of t k) = 0 -> sa_handler (sigact_of (sig_exec_reset t) k) = 0.
Proof.
  unfold sigact_of, sig_exec_reset. cbn. rewrite !nth_lookup, list_lookup_imap.
  destruct (t_sigact t !! Z.to_nat k) as [a|]; cbn; [|done]. intros Ha.
  unfold uncaught. rewrite Ha. by rewrite andb_false_r.
Qed.

(** Everything this file does to a thread. *)
Inductive handles : thread -> thread -> Prop :=
  | handles_action sig h r mask t m o t' m' :
      sig_action sig h r mask t m = (o, t', m') -> handles t t'
  | handles_reset t : handles t (sig_exec_reset t)
  | handles_deliver sig t f m o t' f' m' :
      sig_deliver sig t f m = (o, t', f', m') -> handles t t'
  | handles_return t f m o t' f' m' :
      sig_return t f m = (o, t', f', m') -> handles t t'.

Lemma handles_sigkill t t' :
  handles t t' -> sa_handler (sigact_of t SIGKILL) = 0 -> sa_handler (sigact_of t' SIGKILL) = 0.
Proof.
  intros Hst H9. destruct Hst as [sig h r mask t m o t' m' E|t|sig t f m o t' f' m' E|t f m o t' f' m' E].
  - unfold sig_action in E.
    destruct (Z.leb_spec sig 0); cbn [orb] in E; [by simplify_eq|].
    destruct (Z.leb_spec (Z.of_nat NSIG) sig); [by simplify_eq|].
    destruct (Z.eqb_spec sig SIGKILL); [by simplify_eq|].
    assert (sa_handler (sigact_of (put_sigact sig (SigAction h r mask) t) SIGKILL) = 0) as Hput.
    { rewrite sigact_put; [done|lia|unfold SIGKILL; lia|done]. }
    destruct (1 <? h); [|by simplify_eq]. destruct (user_ok h 4 false m) as [[] m1]; cbn [negb] in E; [|by simplify_eq].
    destruct (r =? 0); [by simplify_eq|]. destruct (user_ok r 4 false m1) as [[] m2]; cbn [negb] in E; by simplify_eq.
  - by apply sigact_reset.
  - unfold sig_deliver in E. destruct (_ =? 1); [by simplify_eq|]. destruct (_ =? 0); [by simplify_eq|].
    destruct (user_ok _ SIGFRAME true m) as [[] m1]; cbn [negb] in E; by simplify_eq.
  - unfold sig_return in E. destruct (user_ok _ SIGFRAME false m) as [[] m1]; cbn [negb] in E; [|by simplify_eq].
    destruct (negb _) in E; [by simplify_eq|].
    destruct (user_ok _ 4 false m1) as [[] m2]; cbn [negb] in E; by simplify_eq.
Qed.

(** SIGKILL always works.  A program starts with the default action for
    it, and whatever it does with handlers, masks and its own signal frames
    afterwards, SIGKILL is never held off and never caught: while it is
    pending the kernel finds a signal to act on, a lower one or SIGKILL
    itself, and delivering SIGKILL finds no handler, so the caller kills. *)
Theorem sigkill_always_works t0 t f m :
  sa_handler (sigact_of t0 SIGKILL) = 0 -> rtc handles t0 t ->
  sig_deliver SIGKILL t f m = (0, t, f, m)
  /\ (Z.testbit (t_pending t) SIGKILL = true ->
      1 <= thread_signalled t <= SIGKILL
      /\ Z.testbit (t_pending t) (thread_signalled t) = true
      /\ (thread_signalled t = SIGKILL \/ Z.testbit (t_blocked t) (thread_signalled t) = false)).
Proof.
  intros H0' Hr.
  assert (sa_handler (sigact_of t SIGKILL) = 0) as H9.
  { eapply (rtc_inv handles (fun t => sa_handler (sigact_of t SIGKILL) = 0)); [|exact H0'|exact Hr].
    intros x y Hx Hxy. by eapply handles_sigkill. }
  split; [unfold sig_deliver; by rewrite H9|]. intros Hp.
  unfold thread_signalled. set (p := Z.land _ _).
  assert (forall k, 0 <= k < 64 -> Z.testbit p k
            = Z.testbit (t_pending t) k && negb (Z.testbit (t_blocked t) k && negb (k =? SIGKILL))) as Hbit.
  { intros k Hk. unfold p, uwrap. rewrite Z.land_spec, Z.mod_pow2_bits_low, Z.lnot_spec, Z.ldiff_spec by lia.
    rewrite Z.shiftl_1_l, Z.pow2_bits_eqb by (unfold SIGKILL; lia). by rewrite (Z.eqb_sym SIGKILL k). }
  assert (Z.testbit p SIGKILL = true) as Hp9.
  { rewrite Hbit, Hp, Z.eqb_refl by (unfold SIGKILL; lia). by rewrite andb_false_r. }
  destruct (Z.eqb_spec p 0) as [E|_]; [rewrite E, Z.bits_0 in Hp9; done|].
  destruct (lowest_signal_found p SIGKILL 1 31 Hp9) as [Hr1 Hb1]; [unfold SIGKILL; lia|].
  unfold SIGKILL in Hr1. rewrite Hbit in Hb1 by lia. apply andb_true_iff in Hb1 as [Hb1 Hb2].
  split; [unfold SIGKILL; lia|]. split; [done|].
  destruct (Z.eqb_spec (lowest_signal p 1 31) SIGKILL) as [|_]; [by left|right].
  rewrite andb_true_r in Hb2. by apply negb_true_iff.
Qed.
End signal.

(** ** A concrete program

    Memory from 0x1000 to 0x9000, its handler for SIGINT at 0x2000. *)
Definition flat0 : flat := Flat ∅ 0x1000 0x9000 0x1000.
Definition prog : thread :=
  put_sigact SIGINT (SigAction 0x2000 0x3000 0) (set_pending 4 zero_thread).
Definition regs0 : regs := Regs (replicate 30 7) 0x2222 0x2400 0x60000000 0x8008.

Lemma sig_round_trip_witness :
  let '(o, t1, f1, m1) := sig_deliver SIGINT prog regs0 flat0 in
  o = 1 /\ elr f1 = 0x2000 /\ exists m3,
    sig_return t1 (Regs [] 0 0 0 (sp_el0 f1)) m1 = (7, set_blocked 0 t1, regs0, m3).
Proof.
  destruct (sig_deliver SIGINT prog regs0 flat0) as [[[o t1] f1] m1] eqn:E.
  assert (o = 1 /\ elr f1 = 0x2000) as [Ho He].
  { pose proof (f_equal (fun x => x.1.1.1) E) as E1. pose proof (f_equal (fun x => elr x.1.2) E) as E2.
    cbn [fst snd] in E1, E2. rewrite <- E1, <- E2. split; vm_compute; reflexivity. }
  split; [exact Ho|]. split; [exact He|].
  destruct (sig_round_trip SIGINT prog regs0 flat0 t1 f1 m1 t1 (Regs [] 0 0 0 (sp_el0 f1)) m1) as (m3 & Hm & _).
  - split; [done|]. repeat constructor; done.
  - split; done.
  - done.
  - intros a Ha. cbn in *. lia.
  - rewrite E. by rewrite Ho.
  - done.
  - done.
  - done.
  - exists m3. exact Hm.
Defined.


Lemma sigkill_always_works_witness :
  let t := set_pending (2 ^ 9) (set_blocked (-1) prog) in
  sa_handler (sigact_of t SIGKILL) = 0 /\ 1 <= thread_signalled t <= 9.
Proof.
  intros t. split; [reflexivity|].
  refine (proj1 (proj2 (sigkill_always_works (M:=flat) t t regs0 flat0 _ (rtc_refl _ _)) _)); reflexivity.
Defined.
