(* ===== verification/Fat.v ===== *)
(** * The FAT32 reader and writer

    [stam/fat.c] over the block device of [Disk]: mounting, the table of
    clusters, reading and writing a file along its chain, directories.  The
    scratch sectors [secbuf] and [dirbuf] are never read before they are
    filled, so they are values here and not state; the device is the state. *)
From S2P Require Import Prelude Bytes Disk Gpt.
Import Gpt.Find.

(** What [fat_mount] keeps of the boot sector. *)
Record geom := Geom {
  sec_per_clus : Z; first_data_sec : Z; fat_start : Z; root_clus : Z; fsinfo_sec : Z;
  total_clus : Z; nfats : Z; fatsz : Z; part_lba : Z
}.

(** [fat_file_t] *)
Record fat_file := FatFile {
  ff_cluster : Z; ff_size : Z; ff_is_dir : bool; ff_dir_sec : Z; ff_dir_off : Z
}.

(** ** Mounting *)
Section mount.
Context {D : Type} `{BlockDevLaws D}.

Definition fat_mount (d : D) : option geom :=
  if negb (blk_present d) then None else
  let lba := match gpt_find_esp d with Some (start, _) => start | None => 0 end in
  match blk_read d (u64 lba) with
  | None => None
  | Some b =>
      if negb (at_ b 510 =? 0x55) || negb (at_ b 511 =? 0xaa) then None else
      let bytes_per_sec := rd16 b 11 in
      let spc := at_ b 13 in
      let reserved := rd16 b 14 in
      let nf := at_ b 16 in
      let fsz := rd32 b 36 in
      let root := rd32 b 44 in
      let totsec := rd32 b 32 in
      if negb (bytes_per_sec =? 512) || (spc =? 0) || (fsz =? 0) || (nf =? 0) || (root <? 2) then None else
      let fds := u32 (reserved + u32 (nf * fsz)) in
      Some (Geom spc fds reserved root (rd16 b 48)
              (u32 (u32 (totsec - fds) / spc + 2)) nf fsz lba)
  end.
End mount.

(** ** Names *)
Definition upper (c : Z) : Z := if (97 <=? c) && (c <=? 122) then c - 32 else c.

Fixpoint name_eq (a b : list Z) : bool :=
  match a, b with
  | [], [] => true
  | x :: a, y :: b => if upper x =? upper y then name_eq a b else false
  | _, _ => false
  end.

(** The characters from [i] on up to a space, at most [n]. *)
Fixpoint until_space (e : list Z) (i : Z) (n : nat) : list Z :=
  match n with
  | O => []
  | S n => if at_ e i =? 32 then [] else at_ e i :: until_space e (i + 1) n
  end.

(** The string [short_name] leaves in its buffer. *)
Definition short_name (e : list Z) : list Z :=
  cstr (until_space e 0 8 ++ (if at_ e 8 =? 32 then [] else 46 :: until_space e 8 3)).

Definition lfn_off : list Z := [1; 3; 5; 7; 9; 14; 16; 18; 20; 22; 24; 28; 30].
Definition lfn_chars (e : list Z) : list Z :=
  (fun o => let u := rd16 e o in if (u =? 0) || (u =? 0xffff) then 0 else Z.land u 0xff) <$> lfn_off.

(** The long name being collected: the array and how much of it counts. *)
Record lfn := Lfn { lfn_buf : list Z; lfn_len : Z }.
Definition lfn_reset (l : lfn) : lfn := Lfn (lfn_buf l) 0.
Definition lfn_add (e : list Z) (l : lfn) : lfn :=
  let seq := Z.land (at_ e 0) 0x3f in
  if (1 <=? seq) && (seq <=? 20) then
    let at' := (seq - 1) * 13 in
    Lfn (splice (splice (lfn_buf l) at' (lfn_chars e)) 260 [0]) (if lfn_len l <? at' + 13 then at' + 13 else lfn_len l)
  else l.
Definition long_name (l : lfn) : list Z := cstr (take (Z.to_nat (Z.min (lfn_len l) 260)) (lfn_buf l)).

(** An 8.3 name padded with spaces; [None]: it does not fit. *)
Fixpoint last_dot (name : list Z) (i dot : Z) : Z :=
  match name with
  | [] => dot
  | c :: name => last_dot name (i + 1) (if c =? 46 then i else dot)
  end.
Fixpoint make_83_loop (name : list Z) (i dot : Z) (base ext : list Z) : option (list Z * list Z) :=
  match name with
  | [] => Some (base, ext)
  | c :: name =>
      let ch := upper c in
      if (ch =? 47) || (ch =? 0) then None else
      if i =? dot then make_83_loop name (i + 1) dot base ext else
      if (0 <=? dot) && (dot <? i)
      then if 3 <=? zlen ext then None else make_83_loop name (i + 1) dot base (ext ++ [ch])
      else if 8 <=? zlen base then None else make_83_loop name (i + 1) dot (base ++ [ch]) ext
  end.
Definition pad_to (n : Z) (l : list Z) : list Z := l ++ replicate (Z.to_nat (n - zlen l)) 32.
Definition make_83 (name : list Z) : option (list Z) :=
  match make_83_loop name 0 (last_dot name 0 (-1)) [] [] with
  | None => None
  | Some (base, ext) => if zlen base =? 0 then None else Some (pad_to 8 base ++ pad_to 3 ext)
  end.

(** ** Paths *)
Fixpoint skip_slashes (p : list Z) : list Z :=
  match p with c :: p' => if c =? 47 then skip_slashes p' else p | [] => [] end.
(** A component, at most 63 characters of it, and the rest. *)
Fixpoint take_part (p : list Z) (n : nat) : list Z * list Z :=
  match p, n with
  | c :: p', S n => if c =? 47 then ([], p) else let '(a, r) := take_part p' n in (c :: a, r)
  | _, _ => ([], p)
  end.
(** What is before the last slash, if there is one, and what is after it. *)
Fixpoint split_last (p : list Z) : option (list Z) * list Z :=
  match p with
  | [] => (None, [])
  | c :: p =>
      match split_last p with
      | (Some a, l) => (Some (c :: a), l)
      | (None, l) => if c =? 47 then (Some [], l) else (None, c :: l)
      end
  end.

Section fat.
Context {D : Type} `{BlockDevLaws D} (g : geom).
(** What the stack held where the long-name buffer is. *)
Context (junk : list Z).

Definition rd_sec (d : D) (s : Z) : option (list Z) := blk_read d (u64 (part_lba g + s)).
Definition wr_sec (d : D) (s : Z) (b : list Z) : option D := blk_write d (u64 (part_lba g + s)) b.

(** ** The table *)
Definition EOC : Z := 0x0ffffff8.
Definition clus_sector (c : Z) : Z := first_data_sec g + u32 (c - 2) * sec_per_clus g.

Fixpoint fat_set_copies (d : D) (c v k : Z) (n : nat) : bool * D :=
  match n with
  | O => (true, d)
  | S n =>
      let off := c * 4 in
      let s := fat_start g + k * fatsz g + off / 512 in
      match rd_sec d s with
      | None => (false, d)
      | Some b =>
          let old := rd32 b (off mod 512) in
          match wr_sec d s (wr32 b (off mod 512) (Z.lor (Z.land old 0xf0000000) (Z.land v 0x0fffffff))) with
          | None => (false, d)
          | Some d => fat_set_copies d c v (k + 1) n
          end
      end
  end.
Definition fat_set (d : D) (c v : Z) : bool * D :=
  if (c <? 2) || (total_clus g <=? c) then (false, d) else fat_set_copies d c v 0 (Z.to_nat (nfats g)).

Definition fat_next (d : D) (c : Z) : Z :=
  if (c <? 2) || (total_clus g <=? c) then 0 else
  match rd_sec d (fat_start g + c * 4 / 512) with
  | None => 0
  | Some b =>
      let v := Z.land (rd32 b (c * 4 mod 512)) 0x0fffffff in
      if (EOC <=? v) || (v <? 2) then 0 else v
  end.

(** A cluster of zeros. *)
Fixpoint clear_clus (d : D) (c s : Z) (n : nat) : bool * D :=
  match n with
  | O => (true, d)
  | S n =>
      match wr_sec d (clus_sector c + s) (zeros 512) with
      | None => (false, d)
      | Some d => clear_clus d c (s + 1) n
      end
  end.

(** [cached] is the number of the sector in [secbuf], which holds [b]. *)
Fixpoint alloc_loop (d : D) (cached : Z) (b : list Z) (c : Z) (n : nat) : Z * D :=
  match n with
  | O => (0, d)
  | S n =>
      let off := c * 4 in
      let sec := fat_start g + off / 512 in
      match (if sec =? cached then Some b else rd_sec d sec) with
      | None => (0, d)
      | Some b =>
          if negb (Z.land (rd32 b (off mod 512)) 0x0fffffff =? 0) then alloc_loop d sec b (c + 1) n else
          match fat_set d c EOC with
          | (false, d) => (0, d)
          | (true, d) =>
              match clear_clus d c 0 (Z.to_nat (sec_per_clus g)) with
              | (false, d) => (0, d)
              | (true, d) => (c, d)
              end
          end
      end
  end.
Definition clus_alloc (d : D) : Z * D :=
  alloc_loop d (2 ^ 64 - 1) [] 2 (Z.to_nat (total_clus g - 2)).

(** [fsinfo_update] through [fat_sync] *)
Definition fat_sync (d : D) : D :=
  if fsinfo_sec g =? 0 then d else
  match rd_sec d (fsinfo_sec g) with
  | None => d
  | Some b =>
      if negb (rd32 b 0 =? 0x41615252) then d else
      match wr_sec d (fsinfo_sec g) (wr32 (wr32 b 488 0xffffffff) 492 0xffffffff) with
      | None => d
      | Some d => d
      end
  end.

(** ** Reading *)
Definition cluster_bytes : Z := sec_per_clus g * 512.

Fixpoint skip_loop (d : D) (c : Z) (n : nat) : Z :=
  match n with
  | O => c
  | S n => if c =? 0 then c else skip_loop d (fat_next d c) n
  end.

(** The bytes delivered, most recent last, and whether a sector failed. *)
Fixpoint read_loop (fuel : nat) (d : D) (c within done len : Z) (dst : list Z) : Z * list Z :=
  if (done <? len) && negb (c =? 0) then
    match fuel with
    | O => (-1, dst)
    | S fuel =>
        match rd_sec d (clus_sector c + u32 (within / 512)) with
        | None => (if done =? 0 then -1 else done, dst)
        | Some b =>
            let in_sec := within mod 512 in
            let n := Z.min (512 - in_sec) (len - done) in
            let dst := dst ++ slice b in_sec n in
            let '(within, c) := if cluster_bytes <=? within + n then (0, fat_next d c) else (within + n, c) in
            read_loop fuel d c within (done + n) len dst
        end
    end
  else (done, dst).

Definition fat_read (d : D) (f : fat_file) (off len : Z) : Z * list Z :=
  if ff_is_dir f then (-1, []) else
  if ff_size f <=? off then (0, []) else
  let len := if ff_size f <? u64 (off + len) then ff_size f - off else len in
  let c := skip_loop d (ff_cluster f) (Z.to_nat (off / cluster_bytes)) in
  read_loop (Z.to_nat len) d c (off mod cluster_bytes) 0 len [].

(** ** Writing *)
Definition dir_writeback (d : D) (f : fat_file) : bool * D :=
  if ff_dir_sec f =? 0 then (false, d) else
  match rd_sec d (ff_dir_sec f) with
  | None => (false, d)
  | Some b =>
      let e := ff_dir_off f in
      let b := wr32 b (e + 28) (ff_size f) in
      let b := wr16 b (e + 20) (u16 (Z.shiftr (ff_cluster f) 16)) in
      let b := wr16 b (e + 26) (Z.land (ff_cluster f) 0xffff) in
      match wr_sec d (ff_dir_sec f) b with None => (false, d) | Some d => (true, d) end
  end.

(** The next cluster, one more put on the chain when there is none; 0: no
    room, or the device failed. *)
Definition next_or_alloc (d : D) (c : Z) : Z * D :=
  let n := fat_next d c in
  if negb (n =? 0) then (n, d) else
  let '(n, d) := clus_alloc d in
  if n =? 0 then (0, d) else
  match fat_set d c n with (true, d) => (n, d) | (false, d) => (0, d) end.

Fixpoint write_skip (d : D) (c : Z) (n : nat) : Z * D :=
  match n with
  | O => (c, d)
  | S n =>
      match next_or_alloc d c with
      | (c', d) => if c' =? 0 then (0, d) else write_skip d c' n
      end
  end.

(** How the loop ended: all done, out of clusters ([break]), or a sector failed
    ([return]). *)
Inductive wstop := WAll | WBreak | WFail.

Fixpoint write_loop (fuel : nat) (d : D) (c within done : Z) (src : list Z) : wstop * Z * D :=
  let len := zlen src in
  if done <? len then
    match fuel with
    | O => (WFail, done, d)
    | S fuel =>
        let s := clus_sector c + u32 (within / 512) in
        let in_sec := within mod 512 in
        let n := Z.min (512 - in_sec) (len - done) in
        match (if n =? 512 then Some (zeros 512) else rd_sec d s) with
        | None => (WFail, done, d)
        | Some b =>
            match wr_sec d s (splice b in_sec (slice src done n)) with
            | None => (WFail, done, d)
            | Some d =>
                let done := done + n in
                let within := within + n in
                if (done <? len) && (cluster_bytes <=? within) then
                  match next_or_alloc d c with
                  | (c', d) => if c' =? 0 then (WBreak, done, d) else write_loop fuel d c' 0 done src
                  end
                else write_loop fuel d c within done src
            end
        end
    end
  else (WAll, done, d).

Definition set_cluster (c : Z) (f : fat_file) : fat_file :=
  FatFile c (ff_size f) (ff_is_dir f) (ff_dir_sec f) (ff_dir_off f).
Definition set_size (n : Z) (f : fat_file) : fat_file :=
  FatFile (ff_cluster f) n (ff_is_dir f) (ff_dir_sec f) (ff_dir_off f).

Definition some_or_fail (done : Z) : Z := if done =? 0 then -1 else done.

Definition fat_write (d : D) (f : fat_file) (off : Z) (src : list Z) : Z * fat_file * D :=
  if ff_is_dir f || (ff_dir_sec f =? 0) then (-1, f, d) else
  if zlen src =? 0 then (0, f, d) else
  if ff_size f <? off then (-1, f, d) else
  let '(f, d) := if ff_cluster f =? 0 then let '(c, d) := clus_alloc d in (set_cluster c f, d) else (f, d) in
  if ff_cluster f =? 0 then (-1, f, d) else
  let '(c, d) := write_skip d (ff_cluster f) (Z.to_nat (off / cluster_bytes)) in
  if c =? 0 then (-1, f, d) else
  match write_loop (length src) d c (off mod cluster_bytes) 0 src with
  | (WFail, done, d) => (some_or_fail done, f, d)
  | (_, done, d) =>
      let f := if ff_size f <? u64 (off + done) then set_size (u32 (off + done)) f else f in
      match dir_writeback d f with
      | (true, d) => (done, f, d)
      | (false, d) => (some_or_fail done, f, d)
      end
  end.

(** Every cluster of a chain back on the free list.  Fuel: each turn frees a
    cluster that was in use, or ends. *)
Fixpoint free_chain (fuel : nat) (d : D) (c : Z) : outcome D :=
  if c =? 0 then Ret d else
  match fuel with
  | O => Diverge
  | S fuel =>
      let next := fat_next d c in
      match fat_set d c 0 with
      | (false, d) => Ret d
      | (true, d) => free_chain fuel d next
      end
  end.
Definition chain_fuel : nat := Z.to_nat (total_clus g).

Definition fat_truncate (d : D) (f : fat_file) : outcome (bool * fat_file * D) :=
  if ff_is_dir f || (ff_dir_sec f =? 0) then Ret (false, f, d) else
  let! d := free_chain chain_fuel d (ff_cluster f) in
  let f := set_size 0 (set_cluster 0 f) in
  let '(ok, d) := dir_writeback d f in Ret (ok, f, d).
(** ** Directories

    The three loops every directory operation makes: along the chain, over the
    sectors of a cluster, over the sixteen entries of a sector.  [step] is the
    body; it answers with a new state ([continue]) or a result ([return]). *)
Section walk.
Context {S R : Type} (step : S -> Z -> Z -> Z -> list Z -> S + R) (err : R).

Fixpoint walk_entries (st : S) (c sec : Z) (b : list Z) (i : Z) (n : nat) : S + R :=
  match n with
  | O => inl st
  | Datatypes.S n =>
      match step st c sec i b with
      | inr r => inr r
      | inl st => walk_entries st c sec b (i + 32) n
      end
  end.

Fixpoint walk_sectors (d : D) (st : S) (c s : Z) (n : nat) : S + R :=
  match n with
  | O => inl st
  | Datatypes.S n =>
      let sec := clus_sector c + s in
      match rd_sec d sec with
      | None => inr err
      | Some b =>
          match walk_entries st c sec b 0 16 with
          | inr r => inr r
          | inl st => walk_sectors d st c (s + 1) n
          end
      end
  end.

Fixpoint walk_chain (fuel : nat) (d : D) (st : S) (c : Z) : outcome (S + R) :=
  if c =? 0 then Ret (inl st) else
  match fuel with
  | O => Diverge
  | Datatypes.S fuel =>
      match walk_sectors d st c 0 (Z.to_nat (sec_per_clus g)) with
      | inr r => Ret (inr r)
      | inl st => walk_chain fuel d st (fat_next d c)
      end
  end.
End walk.

Definition lfn_start : lfn := Lfn junk 0.

Definition entry_file (e : list Z) (sec i : Z) : fat_file :=
  let cl := Z.lor (Z.shiftl (rd16 e 20) 16) (rd16 e 26) in
  FatFile (if cl <? 2 then 0 else cl) (rd32 e 28) (negb (Z.land (at_ e 11) 0x10 =? 0)) sec i.

Definition find_step (name : list Z) (st : lfn) (c sec i : Z) (b : list Z) : lfn + option fat_file :=
  let e := slice b i 32 in
  if at_ e 0 =? 0 then inr None else
  if at_ e 0 =? 0xe5 then inl (lfn_reset st) else
  if Z.land (at_ e 11) 0x0f =? 0x0f then inl (lfn_add e st) else
  if negb (Z.land (at_ e 11) 0x08 =? 0) then inl (lfn_reset st) else
  let lname := long_name st in
  if name_eq (short_name e) name || (negb (zlen lname =? 0) && name_eq lname name)
  then inr (Some (entry_file e sec i)) else inl (lfn_reset st).

(** [None]: the code's [-1]. *)
Definition dir_find (d : D) (dir : Z) (name : list Z) : outcome (option fat_file) :=
  let! r := walk_chain (find_step name) None chain_fuel d lfn_start dir in
  match r with inr r => Ret r | inl _ => Ret None end.

Definition root_file : fat_file := FatFile (root_clus g) 0 true 0 0.
Definition dir_cluster (f : fat_file) : Z := if ff_cluster f =? 0 then root_clus g else ff_cluster f.

Fixpoint open_loop (fuel : nat) (d : D) (path : list Z) (cur : fat_file) : outcome (option fat_file) :=
  match path with
  | [] => Ret (Some cur)
  | _ =>
      match fuel with
      | O => Diverge
      | S fuel =>
          let '(part, rest) := take_part path 63 in
          let rest := skip_slashes rest in
          if zlen part =? 0 then open_loop fuel d rest cur else
          if negb (ff_is_dir cur) then Ret None else
          let! r := dir_find d (dir_cluster cur) part in
          match r with None => Ret None | Some f => open_loop fuel d rest f end
      end
  end.
Definition fat_open (d : D) (path : list Z) : outcome (option fat_file) :=
  let path := skip_slashes path in open_loop (length path) d path root_file.

(** The cluster of the directory a new name goes into. *)
Definition parent_dir (d : D) (parent : option (list Z)) : outcome (option Z) :=
  match parent with
  | None => Ret (Some (root_clus g))
  | Some p =>
      let! r := fat_open d (take 127 p) in
      match r with
      | Some f => Ret (if ff_is_dir f then Some (dir_cluster f) else None)
      | None => Ret None
      end
  end.

(** The state is [last_c]; a free slot is the sector's number, the offset and
    the sector. *)
Definition slot_step (last : Z) (c sec i : Z) (b : list Z) : Z + option (Z * Z * list Z) :=
  if negb (at_ b i =? 0) && negb (at_ b i =? 0xe5) then inl c else inr (Some (sec, i, b)).

Definition new_entry (name83 : list Z) : list Z := name83 ++ [0x20] ++ zeros 20.

Definition fat_create (d : D) (path : list Z) : outcome (option fat_file * D) :=
  let! have := fat_open d path in
  match have with
  | Some _ => Ret (None, d)
  | None =>
      let '(parent, last) := split_last (skip_slashes path) in
      let! dir := parent_dir d parent in
      match dir with
      | None => Ret (None, d)
      | Some dir =>
          match make_83 last with
          | None => Ret (None, d)
          | Some name83 =>
              let! r := walk_chain slot_step None chain_fuel d dir dir in
              match r with
              | inr None => Ret (None, d)
              | inr (Some (sec, i, b)) =>
                  match wr_sec d sec (splice b i (new_entry name83)) with
                  | None => Ret (None, d)
                  | Some d => Ret (Some (FatFile 0 0 false sec i), d)
                  end
              | inl last_c =>
                  let '(nc, d) := clus_alloc d in
                  if nc =? 0 then Ret (None, d) else
                  match fat_set d last_c nc with
                  | (false, d) => Ret (None, d)
                  | (true, d) =>
                      match rd_sec d (clus_sector nc) with
                      | None => Ret (None, d)
                      | Some b =>
                          match wr_sec d (clus_sector nc) (splice b 0 (new_entry name83)) with
                          | None => Ret (None, d)
                          | Some d => Ret (Some (FatFile 0 0 false (clus_sector nc) 0), d)
                          end
                      end
                  end
              end
          end
      end
  end.

(** Counting entries: the state is [seen] and the long name. *)
Definition dirent_step (index : Z) (st : Z * lfn) (c sec i : Z) (b : list Z)
    : Z * lfn + option (list Z * Z * bool) :=
  let '(seen, l) := st in
  let e := slice b i 32 in
  if at_ e 0 =? 0 then inr None else
  if at_ e 0 =? 0xe5 then inl (seen, lfn_reset l) else
  if Z.land (at_ e 11) 0x0f =? 0x0f then inl (seen, lfn_add e l) else
  if negb (Z.land (at_ e 11) 0x08 =? 0) then inl (seen, lfn_reset l) else
  if seen =? index then
    let lname := long_name l in
    inr (Some (if zlen lname =? 0 then short_name e else lname, rd32 e 28, negb (Z.land (at_ e 11) 0x10 =? 0)))
  else inl (u32 (seen + 1), lfn_reset l).

Definition fat_dirent (d : D) (dir : fat_file) (index : Z) : outcome (option (list Z * Z * bool)) :=
  if negb (ff_is_dir dir) then Ret None else
  let! r := walk_chain (dirent_step index) None chain_fuel d (0, lfn_start) (dir_cluster dir) in
  match r with inr r => Ret r | inl _ => Ret None end.

Definition dot_entry (name : list Z) (c : Z) : list Z :=
  pad_to 11 name ++ [0x10] ++ zeros 8 ++ b_wr16 (u16 (Z.shiftr c 16)) ++ zeros 4 ++ b_wr16 (Z.land c 0xffff) ++ zeros 4.

(** The parent's cluster, for [..]. *)
Definition mkdir_parent (d : D) (path : list Z) : outcome Z :=
  match fst (split_last (skip_slashes path)) with
  | None => Ret (root_clus g)
  | Some p =>
      let! r := fat_open d (take 127 p) in
      match r with
      | Some f => Ret (if ff_is_dir f then ff_cluster f else root_clus g)
      | None => Ret (root_clus g)
      end
  end.

Definition fat_mkdir (d : D) (path : list Z) : outcome (bool * D) :=
  let! r := fat_create d path in
  match r with
  | (None, d) => Ret (false, d)
  | (Some f, d) =>
      let '(c, d) := clus_alloc d in
      if c =? 0 then Ret (false, d) else
      let! parent := mkdir_parent d path in
      let pp := if parent =? root_clus g then 0 else parent in
      match wr_sec d (clus_sector c) (dot_entry [46] c ++ dot_entry [46; 46] pp ++ zeros 448) with
      | None => Ret (false, d)
      | Some d =>
          match rd_sec d (ff_dir_sec f) with
          | None => Ret (false, d)
          | Some b =>
              let o := ff_dir_off f in
              let b := splice b (o + 11) [0x10] in
              let b := wr32 b (o + 28) 0 in
              let b := wr16 b (o + 20) (u16 (Z.shiftr c 16)) in
              let b := wr16 b (o + 26) (Z.land c 0xffff) in
              match wr_sec d (ff_dir_sec f) b with
              | None => Ret (false, d)
              | Some d => Ret (true, d)
              end
          end
      end
  end.

(** Is there nothing in the directory but its two dots? *)
Fixpoint only_dots (fuel : nat) (d : D) (dir : fat_file) (i : Z) : outcome bool :=
  match fuel with
  | O => Diverge
  | S fuel =>
      let! r := fat_dirent d dir i in
      match r with
      | None => Ret true
      | Some (name, _, _) =>
          if name_eq name [46] || name_eq name [46; 46] then only_dots fuel d dir (u32 (i + 1)) else Ret false
      end
  end.
Definition dots_fuel : nat := Z.to_nat (total_clus g * sec_per_clus g * 16 + 1).

Definition fat_unlink (d : D) (path : list Z) : outcome (bool * D) :=
  let! r := fat_open d path in
  match r with
  | None => Ret (false, d)
  | Some f =>
      if ff_dir_sec f =? 0 then Ret (false, d) else
      let! empty := if ff_is_dir f then only_dots dots_fuel d f 0 else Ret true in
      if negb empty then Ret (false, d) else
      let! d := free_chain chain_fuel d (ff_cluster f) in
      match rd_sec d (ff_dir_sec f) with
      | None => Ret (false, d)
      | Some b =>
          match wr_sec d (ff_dir_sec f) (splice b (ff_dir_off f) [0xe5]) with
          | None => Ret (false, d)
          | Some d => Ret (true, d)
          end
      end
  end.
End fat.
