(* ===== verification/FatTable.v ===== *)
(** * The table of clusters

    What [fat_set], [fat_next], [clus_alloc] and [free_chain] do to the table:
    the value of a cluster, chains, and the frame that keeps one file's
    operations away from every other file's clusters. *)
From S2P Require Import Prelude Bytes Disk Gpt Fat.
Import Gpt.Find.

Section table.
Context {D : Type} `{BlockDevLaws D} (g : geom).

(** A volume whose regions fit: the copies of the table one after the other,
    each large enough for every cluster, the clusters behind them, all of it
    addressable. *)
Record geom_ok : Prop := {
  go_spc : 1 <= sec_per_clus g < 256; go_nf : 1 <= nfats g; go_start : 0 <= fat_start g;
  go_fatsz : 4 * total_clus g <= 512 * fatsz g;
  go_fds : first_data_sec g = fat_start g + nfats g * fatsz g;
  go_tc : 2 <= total_clus g <= EOC;
  go_lba : 0 <= part_lba g;
  go_end : part_lba g + first_data_sec g + total_clus g * sec_per_clus g < 2 ^ 64
}.
Context (Hg : geom_ok).

Definition in_vol (s : Z) : Prop := 0 <= s < first_data_sec g + total_clus g * sec_per_clus g.

Lemma fds_nonneg : 0 <= first_data_sec g.
Proof. destruct Hg as [? ? ? ? E ? ? ?]. rewrite E. nia. Qed.

Lemma rd_wr d s b d' s' :
  wr_sec g d s b = Some d' -> sector_ok b -> in_vol s -> in_vol s' ->
  rd_sec g d' s' = if s' =? s then Some b else rd_sec g d s'.
Proof.
  unfold rd_sec, wr_sec, in_vol. intros Hw Hb Hs Hs'. pose proof (go_lba Hg). pose proof (go_end Hg).
  rewrite !uwrap_small in * by lia. destruct (Z.eqb_spec s' s) as [->|Hne].
  - by eapply blk_read_write.
  - apply (blk_read_write_ne _ _ _ _ _ Hw). lia.
Qed.

Lemma rd_sector_ok d s b : rd_sec g d s = Some b -> sector_ok b.
Proof. apply blk_read_sector. Qed.

(** ** Where things are *)
Definition clus_ok (c : Z) : Prop := 2 <= c < total_clus g.
Definition fsec (k c : Z) : Z := fat_start g + k * fatsz g + c * 4 / 512.

Lemma fsec_range k c :
  0 <= k < nfats g -> 0 <= c < total_clus g ->
  fat_start g + k * fatsz g <= fsec k c < fat_start g + (k + 1) * fatsz g.
Proof. intros Hk Hc. unfold fsec. pose proof (go_fatsz Hg). zdm. Qed.
Lemma fsec_vol k c : 0 <= k < nfats g -> 0 <= c < total_clus g -> 0 <= fsec k c < first_data_sec g.
Proof.
  intros Hk Hc. pose proof (fsec_range k c Hk Hc). destruct Hg as [? ? ? ? -> ? ? ?]. nia.
Qed.
Lemma fsec_in k c : 0 <= k < nfats g -> 0 <= c < total_clus g -> in_vol (fsec k c).
Proof. intros Hk Hc. pose proof (fsec_vol k c Hk Hc). pose proof (go_spc Hg). pose proof (go_tc Hg). unfold in_vol. nia. Qed.
Lemma fsec_copy k k' c c' :
  0 <= k < nfats g -> 0 <= k' < nfats g -> 0 <= c < total_clus g -> 0 <= c' < total_clus g ->
  fsec k c = fsec k' c' -> k = k' /\ c * 4 / 512 = c' * 4 / 512.
Proof.
  intros Hk Hk' Hc Hc' E. pose proof (fsec_range k c Hk Hc). pose proof (fsec_range k' c' Hk' Hc').
  assert (k = k') as -> by nia. unfold fsec in E. lia.
Qed.

Lemma clus_sector_eq c : clus_ok c -> clus_sector g c = first_data_sec g + (c - 2) * sec_per_clus g.
Proof.
  intros Hc. unfold clus_sector, clus_ok in *. pose proof (go_tc Hg). rewrite uwrap_small; [done|]. unfold EOC in *. lia.
Qed.
Definition dsec (c i : Z) : Z := clus_sector g c + i.
Lemma dsec_range c i :
  clus_ok c -> 0 <= i < sec_per_clus g -> first_data_sec g <= dsec c i < first_data_sec g + total_clus g * sec_per_clus g.
Proof. intros Hc Hi. unfold dsec. rewrite clus_sector_eq by done. unfold clus_ok in Hc. nia. Qed.
Lemma dsec_in c i : clus_ok c -> 0 <= i < sec_per_clus g -> in_vol (dsec c i).
Proof. intros Hc Hi. pose proof (dsec_range c i Hc Hi). pose proof fds_nonneg. unfold in_vol. lia. Qed.
Lemma dsec_inj c i c' i' :
  clus_ok c -> clus_ok c' -> 0 <= i < sec_per_clus g -> 0 <= i' < sec_per_clus g ->
  dsec c i = dsec c' i' -> c = c' /\ i = i'.
Proof.
  intros Hc Hc' Hi Hi'. unfold dsec. rewrite !clus_sector_eq by done. unfold clus_ok in *. intros E.
  assert (c = c') as -> by nia. lia.
Qed.

(** ** The value of a cluster *)

(** The raw entry in copy [k], and its 28 bits in the copy that is read. *)
Definition raw (d : D) (k c : Z) : option Z :=
  (fun b => rd32 b (c * 4 mod 512)) <$> rd_sec g d (fsec k c).
Definition val (d : D) (c : Z) : option Z := (fun v => Z.land v 0x0fffffff) <$> raw d 0 c.
Definition nxt (v : Z) : Z := if (EOC <=? v) || (v <? 2) then 0 else v.

Lemma fsec0 c : fat_start g + c * 4 / 512 = fsec 0 c.
Proof. unfold fsec. lia. Qed.

Lemma fat_next_val d c : clus_ok c -> fat_next g d c = match val d c with Some v => nxt v | None => 0 end.
Proof.
  unfold clus_ok. intros Hc. unfold fat_next. rewrite fsec0. zsplit.
  unfold val, raw. by destruct (rd_sec g d (fsec 0 c)).
Qed.

Definition new_raw (old v : Z) : Z := Z.lor (Z.land old 0xf0000000) (Z.land v 0x0fffffff).

Lemma land28_range v : 0 <= Z.land v 0x0fffffff < 2 ^ 28.
Proof. apply land_range; lia. Qed.
Lemma new_raw_28 old v : Z.land (new_raw old v) 0x0fffffff = Z.land v 0x0fffffff.
Proof.
  unfold new_raw. apply Z.bits_inj'. intros i Hi. rewrite !Z.land_spec, Z.lor_spec, !Z.land_spec.
  change 0x0fffffff with (Z.ones 28). change 0xf0000000 with (Z.shiftl (Z.ones 4) 28).
  destruct (decide (i < 28)).
  - rewrite Z.shiftl_spec_low, Z.ones_spec_low by lia. by destruct (Z.testbit old i), (Z.testbit v i).
  - rewrite (Z.ones_spec_high 28) by lia. by rewrite !andb_false_r.
Qed.
Lemma new_raw_top old v : Z.land (new_raw old v) 0xf0000000 = Z.land old 0xf0000000.
Proof.
  unfold new_raw. apply Z.bits_inj'. intros i Hi. rewrite !Z.land_spec, Z.lor_spec, !Z.land_spec.
  change 0x0fffffff with (Z.ones 28). change 0xf0000000 with (Z.shiftl (Z.ones 4) 28).
  destruct (decide (i < 28)).
  - rewrite Z.shiftl_spec_low by lia. by rewrite !andb_false_r.
  - rewrite (Z.ones_spec_high 28) by lia. rewrite andb_false_r, orb_false_r.
    by destruct (Z.testbit old i), (Z.testbit _ i).
Qed.
Lemma new_raw_range old v : 0 <= new_raw old v < 2 ^ 32.
Proof.
  unfold new_raw. apply lor_range; [lia|apply land_range; lia|].
  pose proof (land28_range v). lia.
Qed.

(** One entry of a sector replaced. *)
Lemma entry_sector b o v :
  sector_ok b -> 0 <= o -> o + 4 <= 512 -> 0 <= v < 2 ^ 32 ->
  sector_ok (wr32 b o v) /\ rd32 (wr32 b o v) o = v
  /\ forall o', 0 <= o' -> o' + 4 <= 512 -> o' + 4 <= o \/ o + 4 <= o' -> rd32 (wr32 b o v) o' = rd32 b o'.
Proof.
  intros [Hl Hb] Ho Ho4 Hv. unfold SECTOR in Hl. unfold wr32.
  assert (zlen (b_wr32 v) = 4) as Hw by apply zlen_b_wr32.
  split; [split|split].
  - unfold SECTOR. rewrite zlen_splice; lia.
  - apply splice_bytes; [done|apply b_wr32_bytes].
  - apply rd32_splice; lia.
  - intros o' Ho' Ho4' Hd. eapply rd32_splice_ne; [exact Hl|lia..].
Qed.

(** ** [fat_set] *)
Lemma copy_neq c c' : c' <> c -> 0 <= c -> 0 <= c' -> c * 4 / 512 = c' * 4 / 512 ->
  0 <= c' * 4 mod 512 /\ c' * 4 mod 512 + 4 <= 512
  /\ (c' * 4 mod 512 + 4 <= c * 4 mod 512 \/ c * 4 mod 512 + 4 <= c' * 4 mod 512).
Proof. intros. repeat split; zdm. Qed.

Lemma off_ok c : 0 <= c -> 0 <= c * 4 mod 512 /\ c * 4 mod 512 + 4 <= 512.
Proof. intros. split; zdm. Qed.

Definition changed (c v : Z) (b : list Z) : list Z :=
  wr32 b (c * 4 mod 512) (new_raw (rd32 b (c * 4 mod 512)) v).

Lemma changed_ok c v b : 0 <= c -> sector_ok b -> sector_ok (changed c v b).
Proof.
  intros Hc Hb. pose proof (off_ok c Hc). pose proof (new_raw_range (rd32 b (c * 4 mod 512)) v).
  by apply (entry_sector b (c * 4 mod 512)); try lia.
Qed.

Lemma fat_set_copies_spec n : forall d c v k ok d',
  fat_set_copies g d c v k n = (ok, d') -> clus_ok c -> 0 <= k -> k + Z.of_nat n <= nfats g ->
  (forall s, in_vol s -> (forall k', k <= k' < k + Z.of_nat n -> s <> fsec k' c) -> rd_sec g d' s = rd_sec g d s)
  /\ (forall k', k <= k' < k + Z.of_nat n ->
        rd_sec g d' (fsec k' c) = rd_sec g d (fsec k' c) \/
        exists b, rd_sec g d (fsec k' c) = Some b /\ rd_sec g d' (fsec k' c) = Some (changed c v b))
  /\ (ok = true -> forall k', k <= k' < k + Z.of_nat n ->
        exists b, rd_sec g d (fsec k' c) = Some b /\ rd_sec g d' (fsec k' c) = Some (changed c v b)).
Proof.
  induction n as [|n IH]; intros d c v k ok d' E Hc Hk Hn; cbn [fat_set_copies] in E.
  { injection E as <- <-. split; [done|]. split; [by left|]. lia. }
  replace (fat_start g + k * fatsz g + c * 4 / 512) with (fsec k c) in E by done.
  destruct (rd_sec g d (fsec k c)) as [b|] eqn:Eb; [|injection E as <- <-; split; [done|]; split; [by left|done]].
  destruct (wr_sec g d (fsec k c) _) as [d1|] eqn:Ew; [|injection E as <- <-; split; [done|]; split; [by left|done]].
  change (wr_sec g d (fsec k c) (changed c v b) = Some d1) in Ew.
  unfold clus_ok in Hc. pose proof (changed_ok c v b ltac:(lia) (rd_sector_ok _ _ _ Eb)) as Hcb.
  assert (forall s, in_vol s -> rd_sec g d1 s = if s =? fsec k c then Some (changed c v b) else rd_sec g d s) as R1.
  { intros s Hs. eapply rd_wr; [exact Ew|done|apply fsec_in; lia|done]. }
  assert (forall k', k + 1 <= k' < k + 1 + Z.of_nat n -> fsec k' c <> fsec k c) as Hne.
  { intros k' Hk' E'. apply fsec_copy in E'; lia. }
  specialize (IH d1 c v (k + 1) ok d' E Hc ltac:(lia) ltac:(lia)) as (A1 & A2 & A3).
  assert (forall k', k <= k' < k + Z.of_nat (S n) -> in_vol (fsec k' c)) as Hin by (intros; apply fsec_in; lia).
  assert (rd_sec g d' (fsec k c) = Some (changed c v b)) as Hk0.
  { rewrite A1, R1, Z.eqb_refl; [done|apply Hin; lia|apply Hin; lia|]. intros k' Hk' E'. by apply (Hne k'). }
  split; [|split].
  - intros s Hs Hns. rewrite A1 by (try done; intros k' Hk'; apply Hns; lia). rewrite R1 by done.
    specialize (Hns k ltac:(lia)). by zsplit.
  - intros k' Hk'. destruct (decide (k' = k)) as [->|Hkk]; [right; by exists b|].
    specialize (A2 k' ltac:(lia)). rewrite !R1 in A2 by (apply Hin; lia).
    specialize (Hne k' ltac:(lia)). by destruct (Z.eqb_spec (fsec k' c) (fsec k c)).
  - intros -> k' Hk'. destruct (decide (k' = k)) as [->|Hkk]; [by exists b|].
    specialize (A3 eq_refl k' ltac:(lia)). rewrite !R1 in A3 by (apply Hin; lia).
    specialize (Hne k' ltac:(lia)). by destruct (Z.eqb_spec (fsec k' c) (fsec k c)).
Qed.

(** What [fat_set d c v] leaves, whether or not it got to the end. *)
Record set_to (c v : Z) (ok : bool) (d d' : D) : Prop := {
  st_other s : in_vol s -> (forall k, 0 <= k < nfats g -> s <> fsec k c) -> rd_sec g d' s = rd_sec g d s;
  st_raw k c' : 0 <= k < nfats g -> 0 <= c' < total_clus g -> c' <> c -> raw d' k c' = raw d k c';
  st_self k : 0 <= k < nfats g ->
    raw d' k c = raw d k c \/ exists old, raw d k c = Some old /\ raw d' k c = Some (new_raw old v);
  st_ok : ok = true -> forall k, 0 <= k < nfats g ->
    exists old, raw d k c = Some old /\ raw d' k c = Some (new_raw old v)
}.

Lemma fat_set_spec d c v ok d' :
  fat_set g d c v = (ok, d') -> clus_ok c -> set_to c v ok d d'.
Proof.
  intros E Hc. unfold fat_set in E. pose proof Hc as Hc'. unfold clus_ok in Hc'.
  rewrite (proj2 (Z.ltb_ge _ _)), (proj2 (Z.leb_gt _ _)) in E by lia. cbn [orb] in E.
  pose proof (go_nf Hg).
  destruct (fat_set_copies_spec _ _ _ _ _ _ _ E Hc) as (A1 & A2 & A3); [lia..|].
  rewrite Z2Nat.id in A1, A2, A3 by lia. rewrite Z.add_0_l in A1, A2, A3.
  pose proof (off_ok c ltac:(lia)) as Hoff.
  assert (forall k b, rd_sec g d (fsec k c) = Some b -> rd32 (changed c v b) (c * 4 mod 512) = new_raw (rd32 b (c * 4 mod 512)) v) as Hnew.
  { intros k b Eb. apply (entry_sector b); [by eapply rd_sector_ok|lia..|apply new_raw_range]. }
  split.
  - done.
  - intros k c' Hk Hc2 Hne. unfold raw.
    destruct (decide (fsec k c' = fsec k c)) as [Es|Es].
    + rewrite Es. destruct (A2 k Hk) as [->|(b & Eb & ->)]; [done|]. rewrite Eb. cbn. f_equal.
      apply fsec_copy in Es as [_ Eo]; [|lia..].
      destruct (copy_neq c c' Hne ltac:(lia) ltac:(lia) (eq_sym Eo)) as (? & ? & ?).
      apply (entry_sector b (c * 4 mod 512)); [by eapply rd_sector_ok|lia..|apply new_raw_range|lia|lia|lia].
    + f_equal. apply A1; [apply fsec_in; lia|]. intros k' Hk' E'.
      apply Es. pose proof (fsec_copy k k' c' c Hk Hk' ltac:(lia) ltac:(lia) E') as [-> _]. done.
  - intros k Hk. unfold raw. destruct (A2 k Hk) as [->|(b & Eb & ->)]; [by left|right].
    rewrite Eb. cbn. eexists. split; [done|]. f_equal. by eapply Hnew.
  - intros -> k Hk. unfold raw. destruct (A3 eq_refl k Hk) as (b & Eb & ->).
    rewrite Eb. cbn. eexists. split; [done|]. f_equal. by eapply Hnew.
Qed.

Lemma nf0 : 0 <= 0 < nfats g.
Proof. pose proof (go_nf Hg). lia. Qed.

Lemma set_val_ne c v ok d d' c' :
  set_to c v ok d d' -> clus_ok c' -> c' <> c -> val d' c' = val d c'.
Proof.
  intros Hs Hc Hne. unfold val. unfold clus_ok in Hc. by rewrite (st_raw _ _ _ _ _ Hs 0 c' nf0 ltac:(lia) Hne).
Qed.
Lemma set_val_eq c v d d' :
  set_to c v true d d' -> 0 <= v < 2 ^ 28 -> val d' c = Some v /\ exists v0, val d c = Some v0.
Proof.
  intros Hs Hv. destruct (st_ok _ _ _ _ _ Hs eq_refl 0 nf0) as (old & E1 & E2).
  unfold val. rewrite E1, E2. cbn. rewrite new_raw_28. split; [|eauto]. f_equal.
  change 0x0fffffff with (Z.ones 28). rewrite Z.land_ones by lia. by apply Z.mod_small.
Qed.
Lemma set_val_any c v ok d d' :
  set_to c v ok d d' -> 0 <= v < 2 ^ 28 -> val d' c = val d c \/ val d' c = Some v.
Proof.
  intros Hs Hv. unfold val. destruct (st_self _ _ _ _ _ Hs 0 nf0) as [->|(old & E1 & E2)]; [by left|right].
  rewrite E2. cbn. rewrite new_raw_28. f_equal.
  change 0x0fffffff with (Z.ones 28). rewrite Z.land_ones by lia. by apply Z.mod_small.
Qed.
Lemma set_data c v ok d d' c' i :
  set_to c v ok d d' -> clus_ok c -> clus_ok c' -> 0 <= i < sec_per_clus g -> rd_sec g d' (dsec c' i) = rd_sec g d (dsec c' i).
Proof.
  intros Hs Hc Hc' Hi. apply (st_other _ _ _ _ _ Hs); [by apply dsec_in|]. intros k Hk E.
  pose proof (dsec_range c' i Hc' Hi). unfold clus_ok in Hc. pose proof (fsec_vol k c Hk ltac:(lia)). lia.
Qed.

(** ** The frame

    Every cluster in use but those in [X] keeps its place in its chain and its
    bytes. *)
Definition keeps (X : list Z) (d d' : D) : Prop :=
  forall c, clus_ok c -> c ∉ X -> val d c <> Some 0 ->
    val d' c = val d c /\ forall i, 0 <= i < sec_per_clus g -> rd_sec g d' (dsec c i) = rd_sec g d (dsec c i).

Lemma keeps_refl X d : keeps X d d.
Proof. by intros c. Qed.
Lemma keeps_trans X d1 d2 d3 : keeps X d1 d2 -> keeps X d2 d3 -> keeps X d1 d3.
Proof.
  intros K1 K2 c Hc HX Hv. destruct (K1 c Hc HX Hv) as [V1 R1].
  destruct (K2 c Hc HX) as [V2 R2]; [by rewrite V1|]. split; [congruence|].
  intros i Hi. by rewrite R2, R1.
Qed.
Lemma keeps_mono X Y d d' : keeps X d d' -> (forall c, c ∈ X -> c ∈ Y) -> keeps Y d d'.
Proof. intros K HXY c Hc HY Hv. apply K; [done| |done]. intros HX. by apply HY, HXY. Qed.
(** A cluster that was free is no one else's. *)
Lemma keeps_fresh X n d1 d2 d3 :
  keeps X d1 d2 -> keeps (X ++ [n]) d2 d3 -> val d1 n = Some 0 -> keeps X d1 d3.
Proof.
  intros K1 K2 Hn c Hc HX Hv. destruct (K1 c Hc HX Hv) as [V1 R1].
  assert (c <> n) as Hne by (intros ->; congruence).
  destruct (K2 c Hc) as [V2 R2]; [rewrite elem_of_app, list_elem_of_singleton; tauto|by rewrite V1|].
  split; [congruence|]. intros i Hi. by rewrite R2, R1.
Qed.

Lemma set_keeps c v ok d d' : set_to c v ok d d' -> clus_ok c -> keeps [c] d d'.
Proof.
  intros Hs Hc c' Hc' HX _. rewrite list_elem_of_singleton in HX. split; [by eapply set_val_ne|].
  intros i Hi. by eapply set_data.
Qed.

Lemma set_free_keeps c v ok d d' : set_to c v ok d d' -> clus_ok c -> val d c = Some 0 -> keeps [] d d'.
Proof.
  intros Hs Hc Hv. apply (keeps_fresh [] c d d d'); [apply keeps_refl|by eapply set_keeps|done].
Qed.

(** ** Allocation *)
Lemma clear_clus_spec n : forall d c s ok d',
  clear_clus g d c s n = (ok, d') -> clus_ok c -> 0 <= s -> s + Z.of_nat n <= sec_per_clus g ->
  (forall sec, in_vol sec -> (forall i, s <= i < s + Z.of_nat n -> sec <> dsec c i) -> rd_sec g d' sec = rd_sec g d sec)
  /\ (ok = true -> forall i, s <= i < s + Z.of_nat n -> rd_sec g d' (dsec c i) = Some (zeros 512)).
Proof.
  induction n as [|n IH]; intros d c s ok d' E Hc Hs Hn; cbn [clear_clus] in E.
  { injection E as <- <-. split; [done|lia]. }
  change (clus_sector g c + s) with (dsec c s) in E.
  destruct (wr_sec g d (dsec c s) (zeros 512)) as [d1|] eqn:Ew; [|by injection E as <- <-].
  assert (forall sec, in_vol sec -> rd_sec g d1 sec = if sec =? dsec c s then Some (zeros 512) else rd_sec g d sec) as R1.
  { intros sec Hsec. eapply rd_wr; [exact Ew|apply zero_sector_ok|apply dsec_in; [done|lia]|done]. }
  destruct (IH d1 c (s + 1) ok d' E Hc) as [A1 A2]; [lia..|]. split.
  - intros sec Hsec Hns. rewrite A1 by (try done; intros i Hi; apply Hns; lia). rewrite R1 by done.
    specialize (Hns s ltac:(lia)). by zsplit.
  - intros -> i Hi. destruct (decide (i = s)) as [->|Hne]; [|apply A2; [done|lia]].
    assert (in_vol (dsec c s)) by (apply dsec_in; [done|lia]).
    rewrite A1, R1, Z.eqb_refl; [done..|]. intros i Hi' E'. apply dsec_inj in E' as [_ ?]; [lia|done..|lia|lia].
Qed.

Record allocated (c : Z) (d d' : D) : Prop := {
  al_ok : clus_ok c;
  al_free : val d c = Some 0;
  al_val : val d' c = Some EOC;
  al_zero i : 0 <= i < sec_per_clus g -> rd_sec g d' (dsec c i) = Some (zeros 512);
  al_other c' : clus_ok c' -> c' <> c -> val d' c' = val d c';
  al_first c' : 2 <= c' < c -> val d c' <> Some 0
}.

Lemma clear_keeps c ok d d' n :
  clear_clus g d c 0 n = (ok, d') -> clus_ok c -> Z.of_nat n <= sec_per_clus g ->
  (forall c', clus_ok c' -> val d' c' = val d c') /\ keeps [c] d d'.
Proof.
  intros E Hc Hn. destruct (clear_clus_spec _ _ _ _ _ _ E Hc) as [A1 _]; [lia..|].
  assert (forall c', clus_ok c' -> val d' c' = val d c') as Hv.
  { intros c' Hc'. unfold val, raw, clus_ok in *. rewrite A1; [done|apply fsec_in; [apply nf0|lia]|].
    intros i Hi Es. pose proof (fsec_vol 0 c' nf0 ltac:(lia)). pose proof (dsec_range c i Hc ltac:(lia)). lia. }
  split; [done|]. intros c' Hc' HX _. rewrite list_elem_of_singleton in HX. split; [auto|].
  intros i Hi. apply A1; [by apply dsec_in|]. intros i' Hi' Es. apply dsec_inj in Es as [? _]; [done|done|done|lia|lia].
Qed.

Lemma alloc_loop_spec n : forall d cached b c c' d',
  alloc_loop g d cached b c n = (c', d') ->
  2 <= c -> c + Z.of_nat n = total_clus g ->
  (forall k, 2 <= k < c -> val d k <> Some 0) ->
  (forall k, clus_ok k -> fsec 0 k = cached -> rd_sec g d cached = Some b) ->
  keeps [] d d' /\ (c' <> 0 -> allocated c' d d').
Proof.
  induction n as [|n IH]; intros d cached b c c' d' E Hc Hn Hlow Hcache; cbn [alloc_loop] in E.
  { injection E as <- <-. split; [apply keeps_refl|done]. }
  assert (clus_ok c) as Hcok by (unfold clus_ok; lia). rewrite fsec0 in E.
  assert ((if fsec 0 c =? cached then Some b else rd_sec g d (fsec 0 c)) = rd_sec g d (fsec 0 c)) as Er.
  { destruct (Z.eqb_spec (fsec 0 c) cached) as [Eq|]; [|done]. rewrite Eq. symmetry. by apply (Hcache c). }
  rewrite Er in E. destruct (rd_sec g d (fsec 0 c)) as [b1|] eqn:Eb; [|injection E as <- <-; split; [apply keeps_refl|done]].
  assert (val d c = Some (Z.land (rd32 b1 (c * 4 mod 512)) 0x0fffffff)) as Hv by (unfold val, raw; by rewrite Eb).
  destruct (Z.eqb_spec (Z.land (rd32 b1 (c * 4 mod 512)) 0x0fffffff) 0) as [Hz|Hz]; cbn [negb] in E.
  - rewrite Hz in Hv. destruct (fat_set g d c EOC) as [[] d1] eqn:Es.
    + pose proof (fat_set_spec _ _ _ _ _ Es Hcok) as Hset.
      destruct (clear_clus g d1 c 0 _) as [ok2 d2] eqn:Ec.
      pose proof (go_spc Hg).
      destruct (clear_keeps c ok2 d1 d2 _ Ec Hcok) as [Vc Kc]; [lia|].
      assert (keeps [] d d2) as K.
      { apply (keeps_fresh [] c d d1 d2); [by eapply set_free_keeps|done|done]. }
      destruct ok2; injection E as <- <-; (split; [done|]); [|done]. intros _.
      destruct (set_val_eq _ _ _ _ Hset) as [Hv1 _]; [unfold EOC; lia|].
      split; [done|done| | | |done].
      * by rewrite Vc.
      * intros i Hi. destruct (clear_clus_spec _ _ _ _ _ _ Ec Hcok) as [_ A2]; [lia..|]. apply A2; [done|lia].
      * intros k Hk Hne. rewrite Vc by done. by eapply set_val_ne.
    + injection E as <- <-. split; [|done]. eapply set_free_keeps; [by eapply fat_set_spec|done|done].
  - apply (IH d (fsec 0 c) b1 (c + 1)); try done; try lia.
    + intros k Hk. destruct (decide (k = c)) as [->|]; [|apply Hlow; lia]. rewrite Hv. congruence.
Qed.

Lemma clus_alloc_spec d c d' :
  clus_alloc g d = (c, d') -> keeps [] d d' /\ (c <> 0 -> allocated c d d').
Proof.
  intros E. pose proof (go_tc Hg). eapply alloc_loop_spec; [exact E|lia|lia|lia|].
  intros k Hk Hs. unfold clus_ok in Hk. pose proof (fsec_vol 0 k nf0 ltac:(lia)). pose proof (go_end Hg). pose proof (go_lba Hg). pose proof (go_spc Hg). nia.
Qed.

(** ** Chains *)
Fixpoint chain (d : D) (c : Z) (l : list Z) : Prop :=
  match l with
  | [] => c = 0
  | x :: l => x = c /\ clus_ok c /\ exists v, val d c = Some v /\ 2 <= v /\ chain d (nxt v) l
  end.

Lemma chain_next d c x l : chain d c (x :: l) -> x = c /\ clus_ok c /\ chain d (fat_next g d c) l.
Proof.
  intros (-> & Hc & v & Hv & _ & Hl). split; [done|]. split; [done|]. rewrite fat_next_val by done. by rewrite Hv.
Qed.
Lemma chain_nonzero d c l : chain d c l -> c = 0 <-> l = [].
Proof. destruct l as [|x l]; cbn; [done|]. unfold clus_ok. intros (_ & ? & _). split; [lia|done]. Qed.
Lemma chain_used d c l x : chain d c l -> x ∈ l -> clus_ok x /\ exists v, val d x = Some v /\ 2 <= v.
Proof.
  revert c. induction l as [|y l IH]; intros c Hch Hx; [by apply not_elem_of_nil in Hx|].
  destruct Hch as (-> & Hc & v & Hv & Hv2 & Hl). apply elem_of_cons in Hx as [->|Hx]; [eauto|]. by eapply IH.
Qed.
Lemma chain_used_ne d c l x : chain d c l -> x ∈ l -> val d x <> Some 0.
Proof. intros Hch Hx. destruct (chain_used _ _ _ _ Hch Hx) as (_ & v & -> & Hv). intros [= ->]. lia. Qed.
Lemma chain_same d d' c l : chain d c l -> (forall x, x ∈ l -> val d' x = val d x) -> chain d' c l.
Proof.
  revert c. induction l as [|y l IH]; intros c Hch Hx; [done|].
  destruct Hch as (-> & Hc & v & Hv & Hv2 & Hl). split; [done|]. split; [done|]. exists v.
  rewrite Hx by (by left). split; [done|]. split; [done|]. apply IH; [done|]. intros x Hx'. apply Hx. by right.
Qed.
Lemma chain_keeps X d d' c l : chain d c l -> keeps X d d' -> (forall x, x ∈ l -> x ∉ X) -> chain d' c l.
Proof.
  intros Hch K HX. eapply chain_same; [exact Hch|]. intros x Hx.
  destruct (chain_used _ _ _ _ Hch Hx) as [Hc _]. apply K; [done|auto|by eapply chain_used_ne].
Qed.
Lemma chain_det d c l l' : chain d c l -> chain d c l' -> l = l'.
Proof.
  revert c l'. induction l as [|x l IH]; intros c l' Hch Hch'.
  - symmetry. by apply (chain_nonzero _ _ _ Hch').
  - destruct l' as [|x' l']; [cbn in Hch'; subst c; by apply (chain_nonzero _ _ _ Hch)|].
    apply chain_next in Hch as (-> & _ & Hl). apply chain_next in Hch' as (-> & _ & Hl'). f_equal. by eapply IH.
Qed.
Lemma chain_suffix d c l1 x l2 : chain d c (l1 ++ x :: l2) -> chain d x (x :: l2).
Proof.
  revert c. induction l1 as [|y l1 IH]; intros c Hch; cbn [app] in Hch.
  - pose proof Hch as (-> & _). done.
  - destruct Hch as (_ & _ & v & _ & _ & Hl). by eapply IH.
Qed.
Lemma chain_nodup d c l : chain d c l -> NoDup l.
Proof.
  revert c. induction l as [|x l IH]; intros c Hch; [constructor|]. pose proof Hch as (-> & _ & v & _ & _ & Hl).
  constructor; [|by eapply IH]. intros Hin. apply list_elem_of_split in Hin as (l1 & l2 & ->).
  pose proof (chain_suffix d (nxt v) l1 c l2 Hl) as H2. pose proof (chain_det _ _ _ _ Hch H2) as E.
  apply (f_equal length) in E. cbn in E. rewrite length_app in E. cbn in E. lia.
Qed.

Lemma nxt_range v : 2 <= v < EOC -> nxt v = v.
Proof. intros Hv. unfold nxt. zsplit. done. Qed.
Lemma nxt_eoc : nxt EOC = 0.
Proof. done. Qed.

(** One cluster more at the end. *)
Lemma chain_extend d d' c l x n :
  chain d c (l ++ [x]) -> clus_ok n -> n ∉ l ++ [x] -> val d n = Some EOC ->
  val d' x = Some n -> (forall y, clus_ok y -> y <> x -> val d' y = val d y) ->
  chain d' c (l ++ [x; n]).
Proof.
  intros Hch Hn Hni Hv Hvx Hother.
  assert (2 <= n < EOC) as Hnr by (unfold clus_ok in Hn; pose proof (go_tc Hg); lia).
  pose proof (chain_nodup _ _ _ Hch) as Hnd.
  assert (val d' n = Some EOC) as Hvn.
  { rewrite Hother; [done|done|]. intros ->. apply Hni, elem_of_app. right. by left. }
  clear Hv Hni. revert c Hch. induction l as [|y l IH]; intros c Hch; cbn [app chain] in *.
  - destruct Hch as (-> & Hc & v & Hv & Hv2 & Hl). split; [done|]. split; [done|]. exists n.
    split; [done|]. split; [lia|]. rewrite nxt_range by done. split; [done|]. split; [done|]. exists EOC.
    split; [done|]. split; [unfold EOC; lia|done].
  - destruct Hch as (-> & Hc & v & Hv & Hv2 & Hl). apply NoDup_cons in Hnd as [Hni Hnd].
    split; [done|]. split; [done|]. exists v. split; [|split; [done|by apply IH]].
    rewrite Hother; [done|done|]. intros ->. apply Hni, elem_of_app. right. by left.
Qed.

(** ** A device that does not fail

    [good d]: every sector of the volume can be read and written, and a write
    leaves it so. *)
Record reliable (good : D -> Prop) : Prop := {
  rl_rd d s : good d -> in_vol s -> exists b, rd_sec g d s = Some b;
  rl_wr d s b : good d -> in_vol s -> sector_ok b -> exists d', wr_sec g d s b = Some d' /\ good d'
}.
Context (good : D -> Prop) (Hrel : reliable good).

Definition full (d : D) : Prop := forall c, clus_ok c -> val d c <> Some 0.

Lemma set_copies_reliable n : forall d c v k,
  good d -> clus_ok c -> 0 <= k -> k + Z.of_nat n <= nfats g ->
  exists d', fat_set_copies g d c v k n = (true, d') /\ good d'.
Proof.
  induction n as [|n IH]; intros d c v k Hd Hc Hk Hn; cbn [fat_set_copies]; [eauto|].
  change (fat_start g + k * fatsz g + c * 4 / 512) with (fsec k c). unfold clus_ok in Hc.
  assert (in_vol (fsec k c)) as Hin by (apply fsec_in; lia).
  destruct (rl_rd _ Hrel d (fsec k c) Hd Hin) as [b Eb]. rewrite Eb.
  destruct (rl_wr _ Hrel d (fsec k c) (changed c v b) Hd Hin) as (d1 & Ew & G1).
  { apply changed_ok; [lia|by eapply rd_sector_ok]. }
  change (wr32 b (c * 4 mod 512) (Z.lor (Z.land (rd32 b (c * 4 mod 512)) 0xf0000000) (Z.land v 0x0fffffff))) with (changed c v b).
  rewrite Ew. apply IH; [done|done|lia|lia].
Qed.
Lemma set_reliable d c v : good d -> clus_ok c -> exists d', fat_set g d c v = (true, d') /\ good d'.
Proof.
  intros Hd Hc. unfold fat_set. pose proof Hc as Hc'. unfold clus_ok in Hc'. zsplit.
  pose proof (go_nf Hg). apply set_copies_reliable; [done|done|lia|lia].
Qed.

Lemma clear_reliable n : forall d c s,
  good d -> clus_ok c -> 0 <= s -> s + Z.of_nat n <= sec_per_clus g ->
  exists d', clear_clus g d c s n = (true, d') /\ good d'.
Proof.
  induction n as [|n IH]; intros d c s Hd Hc Hs Hn; cbn [clear_clus]; [eauto|].
  change (clus_sector g c + s) with (dsec c s).
  destruct (rl_wr _ Hrel d (dsec c s) (zeros 512) Hd) as (d1 & Ew & G1); [apply dsec_in; [done|lia]|apply zero_sector_ok|].
  rewrite Ew. apply IH; [done|done|lia|lia].
Qed.

Lemma alloc_loop_reliable n : forall d cached b c c' d',
  alloc_loop g d cached b c n = (c', d') -> good d ->
  2 <= c -> c + Z.of_nat n = total_clus g ->
  (forall k, 2 <= k < c -> val d k <> Some 0) ->
  (forall k, clus_ok k -> fsec 0 k = cached -> rd_sec g d cached = Some b) ->
  good d' /\ (c' = 0 -> d' = d /\ full d).
Proof.
  induction n as [|n IH]; intros d cached b c c' d' E Hd Hc Hn Hlow Hcache; cbn [alloc_loop] in E.
  { injection E as <- <-. split; [done|]. intros _. split; [done|]. intros k Hk. apply Hlow. unfold clus_ok in Hk. lia. }
  assert (clus_ok c) as Hcok by (unfold clus_ok; lia). rewrite fsec0 in E.
  assert ((if fsec 0 c =? cached then Some b else rd_sec g d (fsec 0 c)) = rd_sec g d (fsec 0 c)) as Er.
  { destruct (Z.eqb_spec (fsec 0 c) cached) as [Eq|]; [|done]. rewrite Eq. symmetry. by apply (Hcache c). }
  rewrite Er in E. destruct (rl_rd _ Hrel d (fsec 0 c) Hd) as [b1 Eb]; [apply fsec_in; [apply nf0|lia]|].
  rewrite Eb in E.
  assert (val d c = Some (Z.land (rd32 b1 (c * 4 mod 512)) 0x0fffffff)) as Hv by (unfold val, raw; by rewrite Eb).
  destruct (Z.eqb_spec (Z.land (rd32 b1 (c * 4 mod 512)) 0x0fffffff) 0) as [Hz|Hz]; cbn [negb] in E.
  - destruct (set_reliable d c EOC Hd Hcok) as (d1 & Es & G1). rewrite Es in E.
    pose proof (go_spc Hg).
    destruct (clear_reliable (Z.to_nat (sec_per_clus g)) d1 c 0 G1 Hcok) as (d2 & Ec & G2); [lia|lia|].
    rewrite Ec in E. injection E as <- <-. split; [done|lia].
  - apply (IH d (fsec 0 c) b1 (c + 1)) in E; try done; try lia.
    intros k Hk. destruct (decide (k = c)) as [->|]; [|apply Hlow; lia]. rewrite Hv. congruence.
Qed.

(** An allocation fails only when every cluster is in use, and then changes
    nothing. *)
Lemma alloc_reliable d c d' :
  clus_alloc g d = (c, d') -> good d -> good d' /\ (c = 0 -> d' = d /\ full d).
Proof.
  intros E Hd. pose proof (go_tc Hg). eapply alloc_loop_reliable; [exact E|done|lia|lia|lia|].
  intros k Hk Hs. unfold clus_ok in Hk. pose proof (fsec_vol 0 k nf0 ltac:(lia)). pose proof (go_end Hg). pose proof (go_lba Hg). pose proof (go_spc Hg). nia.
Qed.

Lemma next_or_alloc_reliable d c c' d' :
  next_or_alloc g d c = (c', d') -> good d -> clus_ok c -> good d' /\ (c' = 0 -> d' = d /\ full d).
Proof.
  intros E Hd Hc. unfold next_or_alloc in E.
  destruct (Z.eqb_spec (fat_next g d c) 0); cbn [negb] in E; [|by injection E as <- <-].
  destruct (clus_alloc g d) as [n d1] eqn:Ea. destruct (alloc_reliable _ _ _ Ea Hd) as [G1 Hn].
  destruct (Z.eqb_spec n 0) as [Hz|Hz]; [injection E as <- <-; auto|].
  destruct (set_reliable d1 c n G1 Hc) as (d2 & Es & G2). rewrite Es in E. by injection E as <- <-.
Qed.
End table.
