(* ===== verification/FatFile.v ===== *)
(** * Files on the disk

    A file is the bytes along its chain.  [fat_read] delivers a stretch of
    them, [fat_write] overwrites and extends them, [fat_truncate] gives the
    clusters back; and none of the three disturbs a file with other clusters. *)
From S2P Require Import Prelude Bytes Disk Gpt Fat FatTable.
Import Gpt.Find.

(** The bytes [f p .. f (p + n - 1)]. *)
Definition tabulate (f : Z -> Z) (p : Z) (n : Z) : list Z :=
  (fun i => f (p + Z.of_nat i)) <$> seq 0 (Z.to_nat n).

Lemma zlen_tabulate f p n : 0 <= n -> zlen (tabulate f p n) = n.
Proof. intros Hn. unfold zlen, tabulate. rewrite length_fmap, length_seq. lia. Qed.
Lemma at_tabulate f p n i : 0 <= i < n -> at_ (tabulate f p n) i = f (p + i).
Proof.
  intros Hi. unfold at_, tabulate. rewrite nth_lookup, list_lookup_fmap, lookup_seq_lt by lia.
  cbn. f_equal. lia.
Qed.
Lemma tabulate_app f p n m : 0 <= n -> 0 <= m -> tabulate f p (n + m) = tabulate f p n ++ tabulate f (p + n) m.
Proof.
  intros Hn Hm. apply buf_ext; rewrite ?zlen_app, !zlen_tabulate by lia; [done|].
  intros i Hi. rewrite at_tabulate by lia. destruct (decide (i < n)).
  - rewrite at_app_l by (rewrite zlen_tabulate; lia). by rewrite at_tabulate by lia.
  - rewrite at_app_r by (rewrite zlen_tabulate; lia). rewrite zlen_tabulate, at_tabulate by lia. f_equal. lia.
Qed.
Lemma tabulate_ext f h p n : (forall i, p <= i < p + n -> f i = h i) -> tabulate f p n = tabulate h p n.
Proof.
  intros E. destruct (decide (0 <= n)).
  - apply buf_ext; rewrite !zlen_tabulate by lia; [done|]. intros i Hi. rewrite !at_tabulate by lia. apply E. lia.
  - unfold tabulate. by replace (Z.to_nat n) with 0%nat by lia.
Qed.
Lemma tabulate_at src n : n = zlen src -> tabulate (at_ src) 0 n = src.
Proof.
  intros ->. pose proof (zlen_nonneg src). apply buf_ext; rewrite zlen_tabulate by lia; [done|].
  intros i Hi. by rewrite at_tabulate by lia.
Qed.

Section file.
Context {D : Type} `{BlockDevLaws D} (g : geom) (Hg : geom_ok g).

Abbreviation cb := (cluster_bytes g).
Abbreviation chain := (chain g).
Abbreviation val := (val g).
Abbreviation dsec := (dsec g).
Abbreviation rd := (rd_sec g).

Lemma cb_pos : 512 <= cb.
Proof. unfold cluster_bytes. pose proof (go_spc g Hg). lia. Qed.

(** The byte at position [p] of the chain [l]. *)
Definition byte (d : D) (l : list Z) (p : Z) : Z :=
  match l !! Z.to_nat (p / cb) with
  | Some c => match rd d (dsec c (p mod cb / 512)) with Some b => at_ b (p mod 512) | None => 0 end
  | None => 0
  end.

Definition room (l : list Z) : Z := zlen l * cb.

Definition readable (d : D) (l : list Z) : Prop :=
  forall x i, x ∈ l -> 0 <= i < sec_per_clus g -> rd d (dsec x i) <> None.

(** *** Positions *)
Lemma cb_mod512 p : 0 <= p -> p mod 512 = (p mod cb) mod 512.
Proof.
  intros Hp. unfold cluster_bytes. rewrite (Z.mul_comm _ 512). pose proof (go_spc g Hg).
  rewrite Z.rem_mul_r by lia. rewrite (Z.mul_comm 512 (_ mod _)), Z_mod_plus_full, Z.mod_mod; lia.
Qed.
Lemma pos_parts j w : 0 <= j -> 0 <= w < cb ->
  (j * cb + w) / cb = j /\ (j * cb + w) mod cb = w /\ (j * cb + w) mod 512 = w mod 512 /\ 0 <= w / 512 < sec_per_clus g.
Proof.
  intros Hj Hw. pose proof cb_pos.
  assert ((j * cb + w) mod cb = w) as E by (rewrite Z.add_comm, Z_mod_plus_full; apply Z.mod_small; lia).
  split; [rewrite Z.add_comm, Z.div_add by lia; rewrite Z.div_small by lia; lia|].
  split; [done|]. split; [rewrite cb_mod512, E by nia; done|].
  unfold cluster_bytes in Hw. split; [apply Z.div_pos; lia|apply Z.div_lt_upper_bound; lia].
Qed.

Lemma byte_at d l j c w :
  l !! j = Some c -> 0 <= w < cb ->
  byte d l (Z.of_nat j * cb + w) = match rd d (dsec c (w / 512)) with Some b => at_ b (w mod 512) | None => 0 end.
Proof.
  intros Hl Hw. unfold byte. destruct (pos_parts (Z.of_nat j) w) as (-> & -> & -> & _); [lia|done|].
  by rewrite Nat2Z.id, Hl.
Qed.

Lemma pos_cluster l p : 0 <= p < room l -> exists j c w,
  p = Z.of_nat j * cb + w /\ 0 <= w < cb /\ l !! j = Some c.
Proof.
  unfold room, zlen. intros Hp. pose proof cb_pos.
  assert (Z.to_nat (p / cb) < length l)%nat as Hlt.
  { assert (p / cb < Z.of_nat (length l)) by (apply Z.div_lt_upper_bound; lia). lia. }
  destruct (lookup_lt_is_Some_2 l _ Hlt) as [c Hc].
  exists (Z.to_nat (p / cb)), c, (p mod cb). split; [|split; [apply Z.mod_pos_bound; lia|done]].
  rewrite Z2Nat.id by (apply Z.div_pos; lia). pose proof (Z.div_mod p cb). lia.
Qed.

Lemma byte_frame d d' l l' p :
  l `prefix_of` l' -> (forall x i, x ∈ l -> 0 <= i < sec_per_clus g -> rd d' (dsec x i) = rd d (dsec x i)) ->
  0 <= p < room l -> byte d' l' p = byte d l p.
Proof.
  intros [k ->] Hd Hp. destruct (pos_cluster l p Hp) as (j & c & w & -> & Hw & Hc).
  rewrite !(byte_at _ _ j c w); [|done|done|by apply lookup_app_l_Some|done].
  rewrite Hd; [done|by eapply list_elem_of_lookup_2|]. by apply (pos_parts (Z.of_nat j)); [lia|].
Qed.

(** ** Reading *)
Lemma skip_loop_spec d n : forall c l,
  chain d c l -> chain d (skip_loop g d c n) (drop n l).
Proof.
  induction n as [|n IH]; intros c l Hch; cbn [skip_loop]; [by rewrite drop_0|].
  destruct l as [|x l].
  - cbn in Hch. subst c. done.
  - destruct (Z.eqb_spec c 0) as [->|]; [by apply (chain_nonzero g) in Hch as [Hch _]; specialize (Hch eq_refl)|].
    cbn [drop]. apply IH. by apply (chain_next g) in Hch as (_ & _ & ?).
Qed.

Lemma read_loop_spec d l : readable d l -> forall fuel c within done len dst j,
  chain d c (drop j l) -> 0 <= within < cb -> 0 <= done <= len ->
  Z.of_nat j * cb + within + (len - done) <= room l -> len - done <= Z.of_nat fuel ->
  read_loop g fuel d c within done len dst
  = (len, dst ++ tabulate (byte d l) (Z.of_nat j * cb + within) (len - done)).
Proof.
  intros Hrd. induction fuel as [|fuel IH]; intros c within done len dst j Hch Hw Hd Hroom Hf; cbn [read_loop].
  - assert (done = len) as -> by lia. rewrite Z.ltb_irrefl. cbn [andb]. rewrite Z.sub_diag. by rewrite app_nil_r.
  - destruct (Z.ltb_spec done len) as [Hlt|Hge]; cbn [andb].
    2: { assert (done = len) as -> by lia. rewrite Z.sub_diag. by rewrite app_nil_r. }
    pose proof cb_pos.
    assert (j < length l)%nat as Hj by (unfold room, zlen in Hroom; nia).
    destruct (lookup_lt_is_Some_2 l j Hj) as [x Hx].
    rewrite (drop_S l x j Hx) in Hch. destruct (chain_next g _ _ _ _ Hch) as (Ex & Hc & Hnx). subst x.
    rewrite (proj2 (Z.eqb_neq c 0)) by (unfold clus_ok in Hc; lia). cbn [negb].
    destruct (pos_parts (Z.of_nat j) within) as (_ & _ & _ & Hs); [lia|done|].
    change (clus_sector g c + u32 (within / 512)) with (dsec c (u32 (within / 512))).
    pose proof (go_spc g Hg).
    rewrite uwrap_small by lia.
    destruct (rd d (dsec c (within / 512))) as [b|] eqn:Eb.
    2: { exfalso. by apply (Hrd c (within / 512)); [eapply list_elem_of_lookup_2| |]. }
    set (n := Z.min (512 - within mod 512) (len - done)).
    assert (0 <= within mod 512 < 512) as Hm by (apply Z.mod_pos_bound; lia).
    assert (0 < n /\ n <= 512 - within mod 512 /\ n <= len - done) as Hn by lia.
    assert (within + n <= cb) as Hwn.
    { pose proof (Z.div_mod within 512). unfold cluster_bytes in *. nia. }
    assert (slice b (within mod 512) n = tabulate (byte d l) (Z.of_nat j * cb + within) n) as Esl.
    { destruct (rd_sector_ok g _ _ _ Eb) as [Hl512 _]. unfold SECTOR in Hl512.
      apply buf_ext; rewrite zlen_slice, ?zlen_tabulate by lia; [done|]. intros i Hi.
      rewrite at_slice, at_tabulate by lia. rewrite <- Z.add_assoc, (byte_at d l j c) by (done || lia).
      replace ((within + i) / 512) with (within / 512) by zdm. rewrite Eb. f_equal. zdm. }
    replace (len - done) with (n + (len - (done + n))) by lia. rewrite tabulate_app, app_assoc, <- Esl by lia.
    destruct (Z.leb_spec cb (within + n)).
    + rewrite (IH _ _ _ _ _ (S j)); [|done|lia|lia|lia|lia].
      do 3 f_equal. lia.
    + rewrite (IH _ _ _ _ _ j); [|by rewrite (drop_S l c j Hx)|lia|lia|lia|lia].
      do 3 f_equal. lia.
Qed.

(** ** Growing a chain *)

(** From [d], where the chain from [f0] is [l], to [d'], where it is [l']:
    clusters are only added, only free ones, and no other cluster in use is
    touched. *)
Record evolves (f0 : Z) (l : list Z) (d : D) (l' : list Z) (d' : D) : Prop := {
  ev_chain : chain d' f0 l';
  ev_prefix : l `prefix_of` l';
  ev_keeps : keeps g l d d';
  ev_new x : x ∈ l' -> x ∉ l -> val d x = Some 0;
  ev_read : readable d l -> readable d' l'
}.

Lemma prefix_elem (l l' : list Z) x : l `prefix_of` l' -> x ∈ l -> x ∈ l'.
Proof. intros [k ->] Hx. apply elem_of_app. by left. Qed.

Lemma evolves_refl f0 l d : chain d f0 l -> evolves f0 l d l d.
Proof. intros Hch. split; [done|done|apply keeps_refl|done|done]. Qed.

Lemma evolves_trans f0 l1 d1 l2 d2 l3 d3 :
  evolves f0 l1 d1 l2 d2 -> evolves f0 l2 d2 l3 d3 -> evolves f0 l1 d1 l3 d3.
Proof.
  intros [C1 P1 K1 N1 R1] [C2 P2 K2 N2 R2]. split; [done|by etransitivity| | |by auto].
  - intros c Hc Hni Hv. destruct (K1 c Hc Hni Hv) as [V1 S1].
    destruct (K2 c Hc) as [V2 S2].
    + intros Hin. specialize (N1 c Hin Hni). congruence.
    + by rewrite V1.
    + split; [congruence|]. intros i Hi. by rewrite S2, S1.
  - intros x Hx Hni. destruct (decide (x ∈ l2)) as [Hin|Hnin]; [by apply N1|].
    pose proof (N2 x Hx Hnin) as Hv. destruct (chain_used g _ _ _ _ C2 Hx) as [Hc _].
    destruct (decide (val d1 x = Some 0)) as [|Hv1]; [done|].
    destruct (K1 x Hc Hni Hv1) as [V1 _]. congruence.
Qed.

(** [next_or_alloc] moves on to the next cluster, there or new; the data of
    the file stays. *)
Lemma next_or_alloc_spec f0 l d c j c' d' :
  chain d f0 l -> l !! j = Some c -> next_or_alloc g d c = (c', d') ->
  exists l', evolves f0 l d l' d' /\ (c' <> 0 -> l' !! S j = Some c')
    /\ forall x i, x ∈ l -> 0 <= i < sec_per_clus g -> rd d' (dsec x i) = rd d (dsec x i).
Proof.
  intros Hch Hj E. unfold next_or_alloc in E.
  assert (l = take j l ++ c :: drop (S j) l) as El by (rewrite <- (take_drop_middle l j c Hj) at 1; done).
  assert (chain d (fat_next g d c) (drop (S j) l)) as Hn.
  { rewrite El in Hch. apply (chain_suffix g) in Hch. by apply (chain_next g) in Hch as (_ & _ & ?). }
  destruct (Z.eqb_spec (fat_next g d c) 0) as [Hz|Hz]; cbn [negb] in E.
  2: { injection E as <- <-. exists l. split; [by apply evolves_refl|]. split; [|done]. intros _.
       destruct (drop (S j) l) as [|y k] eqn:Ed; [by apply (chain_nonzero g) in Hn; destruct Hz; apply Hn|].
       destruct Hn as (Ey & _). subst y. rewrite <- (Nat.add_0_r (S j)), <- lookup_drop, Ed. done. }
  rewrite Hz in Hn. apply (chain_nonzero g) in Hn as [Hn _]. specialize (Hn eq_refl).
  rewrite Hn in El. set (l1 := take j l) in *.
  assert (length l1 = j) as Hl1 by (unfold l1; rewrite length_take; apply lookup_lt_Some in Hj; lia).
  clearbody l1. subst l. clear Hn.
  destruct (clus_alloc g d) as [n d1] eqn:Ea.
  destruct (clus_alloc_spec g Hg _ _ _ Ea) as [K1 A1].
  assert (forall x, x ∈ l1 ++ [c] -> clus_ok g x /\ val d x <> Some 0) as Huse.
  { intros x Hx. split; [by eapply chain_used|by eapply chain_used_ne]. }
  assert (forall x, x ∈ l1 ++ [c] -> val d1 x = val d x
            /\ forall i, 0 <= i < sec_per_clus g -> rd d1 (dsec x i) = rd d (dsec x i)) as Hk1.
  { intros x Hx. destruct (Huse x Hx). by apply K1; [|apply not_elem_of_nil|]. }
  assert (chain d1 f0 (l1 ++ [c])) as Hch1 by (eapply chain_same; [exact Hch|intros x Hx; by apply Hk1]).
  destruct (Z.eqb_spec n 0) as [Hn0|Hn0].
  { injection E as <- <-. exists (l1 ++ [c]). split; [|split; [done|intros x i Hx; by apply Hk1]].
    split; [done|done|by eapply keeps_mono; [exact K1|intros x Hx; by apply not_elem_of_nil in Hx]|done|].
    intros Hr x i Hx Hi. rewrite (proj2 (Hk1 x Hx)) by done. by apply Hr. }
  destruct (A1 Hn0) as [Hnok Hnfree Hnval Hnzero _ _].
  assert (n ∉ l1 ++ [c]) as Hni by (intros Hin; by destruct (Huse n Hin)).
  destruct (Huse c) as [Hcok _]; [apply elem_of_app; right; by left|].
  destruct (fat_set g d1 c n) as [ok d2] eqn:Es. pose proof (fat_set_spec g Hg _ _ _ _ _ Es Hcok) as Hset.
  assert (c' = (if ok then n else 0) /\ d' = d2) as [-> ->] by (destruct ok; by simplify_eq). clear E.
  assert (forall x i, clus_ok g x -> 0 <= i < sec_per_clus g -> rd d2 (dsec x i) = rd d1 (dsec x i)) as Hd2.
  { intros x i Hx Hi. by eapply set_data. }
  assert (keeps g (l1 ++ [c]) d d2) as K2.
  { eapply keeps_trans; [by eapply keeps_mono; [exact K1|intros x Hx; by apply not_elem_of_nil in Hx]|].
    eapply keeps_mono; [by eapply set_keeps|]. intros x ->%list_elem_of_singleton. apply elem_of_app. right. by left. }
  assert (forall x i, x ∈ l1 ++ [c] -> 0 <= i < sec_per_clus g -> rd d2 (dsec x i) = rd d (dsec x i)) as Hdat.
  { intros x i Hx Hi. destruct (Huse x Hx). rewrite Hd2 by done. by apply Hk1. }
  assert (2 <= n < 2 ^ 28) as Hnr by (unfold clus_ok in Hnok; pose proof (go_tc g Hg); unfold EOC in *; lia).
  assert (val d2 c = val d1 c \/ val d2 c = Some n) as Hvc by (eapply (set_val_any g Hg); [exact Hset|lia]).
  assert (ok = true \/ val d2 c = Some n \/ (ok = false /\ val d2 c = val d1 c)) as Hcase by (destruct ok; tauto).
  destruct (decide (ok = true \/ val d2 c = Some n)) as [Hgrow|Hsame].
  - assert (chain d2 f0 (l1 ++ [c; n])) as Hch2.
    { apply (chain_extend g Hg d1 d2); try done.
      - destruct Hgrow as [->|]; [|done]. destruct (set_val_eq g Hg _ _ _ _ Hset); [lia|done].
      - intros y Hy Hyc. by eapply set_val_ne. }
    exists (l1 ++ [c; n]). split; [split|].
    + done.
    + exists [n]. by rewrite <- app_assoc.
    + done.
    + intros x Hx Hxn. assert (x = n) as ->; [|done].
      apply elem_of_app in Hx as [Hx|Hx]; [destruct Hxn; apply elem_of_app; by left|].
      apply elem_of_cons in Hx as [->|Hx]; [destruct Hxn; apply elem_of_app; right; by left|].
      by apply list_elem_of_singleton in Hx.
    + intros Hr x i Hx Hi. destruct (decide (x ∈ l1 ++ [c])) as [Hin|Hnin]; [rewrite Hdat by done; by apply Hr|].
      assert (x = n) as ->.
      { apply elem_of_app in Hx as [Hx|Hx]; [destruct Hnin; apply elem_of_app; by left|].
        apply elem_of_cons in Hx as [->|Hx]; [destruct Hnin; apply elem_of_app; right; by left|].
        by apply list_elem_of_singleton in Hx. }
      rewrite Hd2, Hnzero by done. done.
    + split; [|done]. intros Hnz. destruct ok; [|done].
      rewrite lookup_app_r by lia. by replace (S j - length l1)%nat with 1%nat by lia.
  - destruct ok; [destruct Hsame; by left|].
    assert (val d2 c = val d1 c) as Hsv by (destruct Hvc; [done|destruct Hsame; by right]).
    exists (l1 ++ [c]). split; [split|split; [done|done]].
    + eapply chain_same; [exact Hch1|]. intros x Hx. destruct (decide (x = c)) as [->|]; [done|].
      eapply (set_val_ne g Hg); [exact Hset| |done]. by apply Huse.
    + done.
    + done.
    + done.
    + intros Hr x i Hx Hi. rewrite Hdat by done. by apply Hr.
Qed.

Lemma write_skip_spec f0 n : forall d l c j c' d',
  chain d f0 l -> l !! j = Some c -> (j + n <= length l)%nat -> write_skip g d c n = (c', d') ->
  exists l', evolves f0 l d l' d' /\ (c' <> 0 -> l' !! (j + n)%nat = Some c')
    /\ forall x i, x ∈ l -> 0 <= i < sec_per_clus g -> rd d' (dsec x i) = rd d (dsec x i).
Proof.
  induction n as [|n IH]; intros d l c j c' d' Hch Hj Hn E; cbn [write_skip] in E.
  { injection E as <- <-. exists l. split; [by apply evolves_refl|]. rewrite Nat.add_0_r. done. }
  destruct (next_or_alloc g d c) as [c1 d1] eqn:En.
  destruct (next_or_alloc_spec f0 l d c j c1 d1 Hch Hj En) as (l1 & E1 & L1 & D1).
  destruct (Z.eqb_spec c1 0) as [Hz|Hz].
  { injection E as <- <-. exists l1. split; [done|]. split; [done|done]. }
  pose proof (prefix_length _ _ (ev_prefix _ _ _ _ _ E1)).
  destruct (IH d1 l1 c1 (S j) c' d') as (l2 & E2 & L2 & D2); [apply E1|auto|lia|done|].
  exists l2. split; [by eapply evolves_trans|]. split; [intros Hc; rewrite <- (L2 Hc); f_equal; lia|].
  intros x i Hx Hi. rewrite D2, D1; [done..|by eapply prefix_elem; [apply E1|]|done].
Qed.

(** A write to a data sector changes no chain and no other data sector. *)
Lemma data_write d c s b d' :
  clus_ok g c -> 0 <= s < sec_per_clus g -> sector_ok b -> wr_sec g d (dsec c s) b = Some d' ->
  (forall x, clus_ok g x -> val d' x = val d x)
  /\ forall x i, clus_ok g x -> 0 <= i < sec_per_clus g ->
       rd d' (dsec x i) = if (x =? c) && (i =? s) then Some b else rd d (dsec x i).
Proof.
  intros Hc Hs Hb Hw.
  assert (forall s', in_vol g s' -> rd d' s' = if s' =? dsec c s then Some b else rd d s') as R.
  { intros s' Hs'. eapply (rd_wr g Hg); [exact Hw|done|by apply dsec_in|done]. }
  split.
  - intros x Hx. unfold FatTable.val, raw. unfold clus_ok in Hx.
    pose proof (fsec_vol g Hg 0 x (nf0 g Hg) ltac:(lia)). pose proof (dsec_range g Hg c s Hc Hs).
    rewrite R by (apply fsec_in; [done|by apply nf0|lia]). zsplit. done.
  - intros x i Hx Hi. rewrite R by (by apply dsec_in).
    destruct (Z.eqb_spec (dsec x i) (dsec c s)) as [Ed|Ed].
    + apply (dsec_inj g Hg) in Ed as [-> ->]; [by rewrite !Z.eqb_refl|done..].
    + destruct (Z.eqb_spec x c) as [->|]; [|done]. destruct (Z.eqb_spec i s) as [->|]; done.
Qed.

(** ** One sector of a file written *)
Lemma write_sector_spec f0 l d c j s b d' :
  chain d f0 l -> l !! j = Some c -> 0 <= s < sec_per_clus g -> sector_ok b ->
  wr_sec g d (dsec c s) b = Some d' ->
  evolves f0 l d l d'
  /\ forall p, 0 <= p < room l ->
       byte d' l p = (let s0 := Z.of_nat j * cb + s * 512 in
         if (s0 <=? p) && (p <? s0 + 512) then at_ b (p - s0) else byte d l p).
Proof.
  intros Hch Hj Hs Hb Hw.
  assert (c ∈ l) as Hcl by (by eapply list_elem_of_lookup_2).
  destruct (chain_used g _ _ _ _ Hch Hcl) as [Hc _].
  destruct (data_write d c s b d' Hc Hs Hb Hw) as [Hval Hdat].
  split; [split|].
  - eapply chain_same; [exact Hch|]. intros x Hx. apply Hval. by eapply chain_used.
  - done.
  - intros x Hx Hni _. split; [by apply Hval|]. intros i Hi. rewrite Hdat by done.
    destruct (Z.eqb_spec x c) as [->|]; [done|done].
  - done.
  - intros Hr x i Hx Hi. rewrite Hdat by (done || by eapply chain_used). destruct (_ && _); [done|by apply Hr].
  - intros p Hp. cbv zeta. set (s0 := Z.of_nat j * cb + s * 512). destruct (pos_cluster l p Hp) as (j' & c' & w & -> & Hw' & Hc').
    rewrite !(byte_at _ _ j' c' w) by done.
    destruct (pos_parts (Z.of_nat j') w) as (_ & _ & _ & Hws); [lia|done|].
    rewrite Hdat; [|eapply chain_used; [exact Hch|by eapply list_elem_of_lookup_2]|done].
    pose proof (chain_nodup g _ _ _ Hch) as Hnd. pose proof cb_pos.
    assert (s * 512 + 512 <= cb) by (unfold cluster_bytes; nia).
    destruct (decide (c' = c)) as [->|Hne].
    + assert (j' = j) as -> by (by eapply NoDup_lookup). rewrite Z.eqb_refl. cbn [andb].
      pose proof (Z.div_mod w 512). pose proof (Z.mod_pos_bound w 512).
      destruct (Z.eqb_spec (w / 512) s) as [<-|Hws'].
      * unfold s0. rewrite (proj2 (Z.leb_le _ _)), (proj2 (Z.ltb_lt _ _)) by lia. cbn [andb]. f_equal. lia.
      * unfold s0. destruct (Z.leb_spec (Z.of_nat j * cb + s * 512) (Z.of_nat j * cb + w)); cbn [andb]; [|done].
        rewrite (proj2 (Z.ltb_ge _ _)) by lia. done.
    + rewrite (proj2 (Z.eqb_neq c' c)) by done. cbn [andb].
      assert (j' <> j) as Hjj by (intros ->; congruence).
      unfold s0. destruct (Z.leb_spec (Z.of_nat j * cb + s * 512) (Z.of_nat j' * cb + w)); cbn [andb]; [|done].
      destruct (Z.ltb_spec (Z.of_nat j' * cb + w) (Z.of_nat j * cb + s * 512 + 512)); [nia|done].
Qed.

Lemma room_prefix l l' : l `prefix_of` l' -> room l <= room l'.
Proof. intros [k ->]. unfold room. rewrite zlen_app. pose proof (zlen_nonneg k). pose proof cb_pos. nia. Qed.

(** The bytes [done .. done'] of [src] have gone to the file from [pos] on, and
    every other byte is as before. *)
Record wrote (f0 : Z) (src : list Z) (pos done done' : Z) (l : list Z) (d : D) (l' : list Z) (d' : D) : Prop := {
  wt_ev : evolves f0 l d l' d';
  wt_done : done <= done' <= zlen src;
  wt_room : pos + (done' - done) <= room l';
  wt_byte p : 0 <= p -> p < room l \/ pos <= p < pos + (done' - done) ->
    byte d' l' p = if (pos <=? p) && (p <? pos + (done' - done)) then at_ src (done + (p - pos)) else byte d l p
}.

Ltac ranges := repeat match goal with
  | |- context [Z.leb ?a ?b] => destruct (Z.leb_spec a b)
  | |- context [Z.ltb ?a ?b] => destruct (Z.ltb_spec a b)
  end; cbn [andb]; try done; try lia.

Lemma wrote_refl f0 src pos done l d :
  chain d f0 l -> done <= zlen src -> pos <= room l -> wrote f0 src pos done done l d l d.
Proof.
  intros Hch Hd Hp. split; [by apply evolves_refl|lia|lia|]. intros p Hp0 _. ranges.
Qed.

Lemma wrote_trans f0 src pos pos1 done done1 done2 l d l1 d1 l2 d2 :
  wrote f0 src pos done done1 l d l1 d1 -> pos1 = pos + (done1 - done) -> wrote f0 src pos1 done1 done2 l1 d1 l2 d2 ->
  wrote f0 src pos done done2 l d l2 d2.
Proof.
  intros [E1 N1 R1 B1] -> [E2 N2 R2 B2]. pose proof (room_prefix _ _ (ev_prefix _ _ _ _ _ E1)).
  split; [by eapply evolves_trans|lia|lia|]. intros p Hp Hor. rewrite B2 by lia.
  ranges; [f_equal; lia|..]; rewrite B1 by lia; ranges.
Qed.

(** The file grew, its bytes are where they were. *)
Lemma wrote_grow f0 src pos done done' l d l1 d1 l2 d2 :
  wrote f0 src pos done done' l d l1 d1 -> evolves f0 l1 d1 l2 d2 ->
  (forall x i, x ∈ l1 -> 0 <= i < sec_per_clus g -> rd d2 (dsec x i) = rd d1 (dsec x i)) ->
  wrote f0 src pos done done' l d l2 d2.
Proof.
  intros [E1 N1 R1 B1] E2 Hd. pose proof (room_prefix _ _ (ev_prefix _ _ _ _ _ E1)).
  pose proof (room_prefix _ _ (ev_prefix _ _ _ _ _ E2)).
  split; [by eapply evolves_trans|lia|lia|]. intros p Hp Hor.
  rewrite (byte_frame d1 d2 l1 l2); [by apply B1|apply E2|done|lia].
Qed.

(** The part of a write that falls in one sector. *)
Lemma write_part f0 l d c j w src done n b d' :
  chain d f0 l -> l !! j = Some c -> 0 <= w < cb -> bytes_ok src -> 0 <= done ->
  0 < n -> n <= 512 - w mod 512 -> done + n <= zlen src ->
  (if n =? 512 then Some (zeros 512) else rd d (dsec c (w / 512))) = Some b ->
  wr_sec g d (dsec c (w / 512)) (splice b (w mod 512) (slice src done n)) = Some d' ->
  wrote f0 src (Z.of_nat j * cb + w) done (done + n) l d l d'.
Proof.
  intros Hch Hj Hw Hsrc Hd Hn0 Hn512 Hnl Eb Ew. pose proof cb_pos.
  assert (j < length l)%nat as Hjl by (by eapply lookup_lt_Some).
  destruct (pos_parts (Z.of_nat j) w) as (_ & _ & _ & Hs); [lia|done|].
  pose proof (Z.div_mod w 512). assert (0 <= w mod 512 < 512) by (apply Z.mod_pos_bound; lia).
  assert (sector_ok b) as [Hbl Hbb].
  { destruct (n =? 512); [injection Eb as <-; apply zero_sector_ok|by eapply rd_sector_ok]. }
  unfold SECTOR in Hbl. assert (zlen (slice src done n) = n) as Hsl by (apply zlen_slice; lia).
  assert (w + n <= cb) by (unfold cluster_bytes in *; nia).
  destruct (write_sector_spec f0 l d c j (w / 512) (splice b (w mod 512) (slice src done n)) d') as [E1 B1]; try done.
  { split; [unfold SECTOR; rewrite zlen_splice; lia|by apply splice_bytes; [|apply slice_bytes]]. }
  split; [done|lia|unfold room, zlen; nia|]. intros p Hp Hor.
  rewrite B1 by (unfold room, zlen in *; nia). cbv zeta. replace (done + n - done) with n by lia.
  set (s0 := Z.of_nat j * cb + w / 512 * 512). set (pos := Z.of_nat j * cb + w).
  assert (pos = s0 + w mod 512) as Epos by (unfold pos, s0; lia).
  destruct (decide (pos <= p < pos + n)) as [Hin|Hout].
  { ranges. rewrite at_splice_in, at_slice by lia. f_equal. lia. }
  destruct (decide (s0 <= p < s0 + 512)) as [Hin|Hout']; [|ranges].
  transitivity (byte d l p); [|ranges]. ranges. rewrite at_splice_out by lia.
  rewrite (proj2 (Z.eqb_neq n 512)) in Eb by lia.
  replace p with (Z.of_nat j * cb + (p - Z.of_nat j * cb)) at 2 by lia.
  rewrite (byte_at d l j c) by (try done; unfold s0, cluster_bytes in *; nia).
  assert ((p - Z.of_nat j * cb) / 512 = w / 512) as -> by (symmetry; apply (Z.div_unique _ 512 _ (p - s0)); unfold s0; lia).
  rewrite Eb. f_equal. apply (Z.mod_unique _ 512 (w / 512)); unfold s0; lia.
Qed.

Lemma write_loop_spec f0 src : bytes_ok src -> forall fuel d l c w done st done' d' j,
  write_loop g fuel d c w done src = (st, done', d') ->
  chain d f0 l -> l !! j = Some c -> 0 <= w <= cb -> (done < zlen src -> w < cb) ->
  0 <= done <= zlen src -> zlen src - done <= Z.of_nat fuel ->
  exists l', wrote f0 src (Z.of_nat j * cb + w) done done' l d l' d' /\ (st = WAll -> done' = zlen src).
Proof.
  intros Hsrc. induction fuel as [|fuel IH]; intros d l c w done st done' d' j E Hch Hj Hw Hwlt Hd Hf;
    cbn [write_loop] in E; pose proof cb_pos; pose proof (lookup_lt_Some _ _ _ Hj) as Hjl.
  all: assert (wrote f0 src (Z.of_nat j * cb + w) done done l d l d) as Hstop
    by (apply wrote_refl; [done|lia|unfold room, zlen; nia]).
  { rewrite (proj2 (Z.ltb_ge _ _)) in E by lia. injection E as <- <- <-. exists l. split; [done|lia]. }
  destruct (Z.ltb_spec done (zlen src)) as [Hlt|Hge]; [|injection E as <- <- <-; exists l; split; [done|lia]].
  specialize (Hwlt Hlt). destruct (pos_parts (Z.of_nat j) w) as (_ & _ & _ & Hs); [lia|lia|].
  pose proof (go_spc g Hg).
  change (clus_sector g c + u32 (w / 512)) with (dsec c (u32 (w / 512))) in E. rewrite uwrap_small in E by lia.
  set (n := Z.min (512 - w mod 512) (zlen src - done)) in *.
  assert (0 <= w mod 512 < 512) as Hm by (apply Z.mod_pos_bound; lia).
  assert (0 < n /\ n <= 512 - w mod 512 /\ done + n <= zlen src) as (Hn0 & Hn1 & Hn2) by lia.
  assert (w + n <= cb) as Hwn by (pose proof (Z.div_mod w 512); unfold cluster_bytes in *; nia).
  destruct (if n =? 512 then Some (zeros 512) else rd d (dsec c (w / 512))) as [b|] eqn:Eb;
    [|injection E as <- <- <-; by exists l].
  destruct (wr_sec g d (dsec c (w / 512)) (splice b (w mod 512) (slice src done n))) as [d1|] eqn:Ew;
    [|injection E as <- <- <-; by exists l].
  pose proof (write_part f0 l d c j w src done n b d1 Hch Hj ltac:(lia) Hsrc ltac:(lia) Hn0 Hn1 Hn2 Eb Ew) as W1.
  destruct ((done + n <? zlen src) && (cb <=? w + n)) eqn:Ecase.
  - apply andb_true_iff in Ecase as [Hmore%Z.ltb_lt Hfull%Z.leb_le].
    destruct (next_or_alloc g d1 c) as [c' d2] eqn:En.
    destruct (next_or_alloc_spec f0 l d1 c j c' d2) as (l2 & E2 & L2 & D2); [apply W1|done|done|].
    pose proof (wrote_grow _ _ _ _ _ _ _ _ _ _ _ W1 E2 D2) as W2.
    destruct (Z.eqb_spec c' 0) as [Hz|Hz]; [injection E as <- <- <-; by exists l2|].
    destruct (IH d2 l2 c' 0 (done + n) st done' d' (S j) E (ev_chain _ _ _ _ _ E2) (L2 Hz)) as (l3 & W3 & Hall); [lia..|].
    exists l3. split; [|done]. eapply wrote_trans; [exact W2| |exact W3]. lia.
  - apply andb_false_iff in Ecase as Ecase'.
    destruct (IH d1 l c (w + n) (done + n) st done' d' j E (ev_chain _ _ _ _ _ (wt_ev _ _ _ _ _ _ _ _ _ W1)) Hj)
      as (l3 & W3 & Hall); [lia| |lia|lia|].
    { intros Hlt'. destruct Ecase' as [X%Z.ltb_ge|X%Z.leb_gt]; lia. }
    exists l3. split; [|done]. eapply wrote_trans; [exact W1| |exact W3]. lia.
Qed.

(** ** Directory entries *)

(** [f] is what the directory entry at its place says, in cluster [dc], which
    is not one of the file's own. *)
Record entry_at (d : D) (f : fat_file) (l : list Z) (dc i : Z) : Prop := {
  en_clus : clus_ok g dc; en_used : val d dc <> Some 0; en_out : dc ∉ l;
  en_sec : ff_dir_sec f = dsec dc i /\ 0 <= i < sec_per_clus g /\ ff_dir_sec f <> 0;
  en_off : 0 <= ff_dir_off f /\ ff_dir_off f + 32 <= 512;
  en_same : exists b, rd d (ff_dir_sec f) = Some b
    /\ entry_file (slice b (ff_dir_off f) 32) (ff_dir_sec f) (ff_dir_off f) = f
}.

Definition put_entry (b : list Z) (f : fat_file) : list Z :=
  let e := ff_dir_off f in
  wr16 (wr16 (wr32 b (e + 28) (ff_size f)) (e + 20) (u16 (Z.shiftr (ff_cluster f) 16)))
    (e + 26) (Z.land (ff_cluster f) 0xffff).

Lemma slice_rd16 b o k n : 0 <= o -> 0 <= k -> k + 2 <= n -> rd16 (slice b o n) k = rd16 b (o + k).
Proof. intros. apply rd16_ext. intros i Hi. rewrite at_slice by lia. f_equal. lia. Qed.
Lemma slice_rd32 b o k n : 0 <= o -> 0 <= k -> k + 4 <= n -> rd32 (slice b o n) k = rd32 b (o + k).
Proof. intros. apply rd32_ext. intros i Hi. rewrite at_slice by lia. f_equal. lia. Qed.

Lemma put_entry_ok b f :
  sector_ok b -> 0 <= ff_dir_off f -> ff_dir_off f + 32 <= 512 -> 0 <= ff_cluster f < 2 ^ 32 -> 0 <= ff_size f < 2 ^ 32 ->
  sector_ok (put_entry b f)
  /\ (forall i, 0 <= i < 512 -> i < ff_dir_off f + 20 \/ ff_dir_off f + 32 <= i -> at_ (put_entry b f) i = at_ b i)
  /\ entry_file (slice (put_entry b f) (ff_dir_off f) 32) (ff_dir_sec f) (ff_dir_off f)
     = FatFile (if ff_cluster f <? 2 then 0 else ff_cluster f) (ff_size f)
         (negb (Z.land (at_ b (ff_dir_off f + 11)) 0x10 =? 0)) (ff_dir_sec f) (ff_dir_off f).
Proof.
  intros [Hl Hb] Ho Ho2 Hc Hs. unfold SECTOR in Hl. unfold put_entry, wr16, wr32.
  set (o := ff_dir_off f) in *.
  assert (zlen (b_wr32 (ff_size f)) = 4) as L4 by apply zlen_b_wr32.
  assert (forall v, zlen (b_wr16 v) = 2) as L2 by apply zlen_b_wr16.
  set (b1 := splice b (o + 28) (b_wr32 (ff_size f))).
  assert (zlen b1 = 512) as Hl1 by (unfold b1; rewrite zlen_splice; lia).
  set (hi := u16 (Z.shiftr (ff_cluster f) 16)). set (lo := Z.land (ff_cluster f) 0xffff).
  assert (0 <= hi < 2 ^ 16) as Hhi by (apply uwrap_range; lia).
  assert (0 <= lo < 2 ^ 16) as Hlo by (apply land_range; lia).
  set (b2 := splice b1 (o + 20) (b_wr16 hi)).
  assert (zlen b2 = 512) as Hl2 by (unfold b2; rewrite zlen_splice; rewrite ?L2; lia).
  assert (zlen (splice b2 (o + 26) (b_wr16 lo)) = 512) as Hl3 by (rewrite zlen_splice; rewrite ?L2; lia).
  split; [split; [done|]|split].
  - repeat apply splice_bytes; auto using b_wr16_bytes, b_wr32_bytes.
  - intros i Hi Hout. rewrite (at_splice_ne b2 _ _ _ 512) by (rewrite ?L2; lia).
    unfold b2. rewrite (at_splice_ne b1 _ _ _ 512) by (rewrite ?L2; lia).
    unfold b1. by rewrite (at_splice_ne b _ _ _ 512) by lia.
  - unfold entry_file. rewrite !slice_rd16, slice_rd32, at_slice by lia.
    set (b3 := splice b2 (o + 26) (b_wr16 lo)).
    assert (rd16 b3 (o + 20) = hi) as ->.
    { unfold b3. rewrite (rd16_splice_ne b2 _ _ (o + 20) 512) by (rewrite ?L2; lia). apply (rd16_splice_eq b1 _ _ 512); lia. }
    assert (rd16 b3 (o + 26) = lo) as -> by (apply (rd16_splice_eq b2 _ _ 512); lia).
    assert (rd32 b3 (o + 28) = ff_size f) as ->.
    { unfold b3. rewrite (rd32_splice_ne b2 _ _ (o + 28) 512) by (rewrite ?L2; lia).
      unfold b2. rewrite (rd32_splice_ne b1 _ _ (o + 28) 512) by (rewrite ?L2; lia). apply (rd32_splice_eq b _ _ 512); lia. }
    assert (at_ b3 (o + 11) = at_ b (o + 11)) as ->.
    { unfold b3. rewrite (at_splice_ne b2 _ _ (o + 11) 512) by (rewrite ?L2; lia).
      unfold b2. rewrite (at_splice_ne b1 _ _ (o + 11) 512) by (rewrite ?L2; lia). apply (at_splice_ne b _ _ (o + 11) 512); lia. }
    assert (Z.lor (Z.shiftl hi 16) lo = ff_cluster f) as ->; [|done].
    rewrite Z.lor_comm, lor_shiftl_add by lia. unfold hi, lo, uwrap.
    change 0xffff with (Z.ones 16). rewrite Z.land_ones, Z.shiftr_div_pow2 by lia. zdm.
Qed.

(** [dir_writeback] on a device that works: the entry says what [f] is, and
    nothing but the twelve bytes of its numbers changes. *)
Lemma dir_writeback_spec good d f l dc i :
  reliable g good -> good d -> clus_ok g dc -> ff_dir_sec f = dsec dc i -> 0 <= i < sec_per_clus g -> ff_dir_sec f <> 0 ->
  0 <= ff_dir_off f -> ff_dir_off f + 32 <= 512 -> 0 <= ff_cluster f < 2 ^ 32 -> 0 <= ff_size f < 2 ^ 32 ->
  chain d (ff_cluster f) l -> dc ∉ l ->
  exists b d', rd d (ff_dir_sec f) = Some b /\ dir_writeback g d f = (true, d') /\ good d'
    /\ rd d' (ff_dir_sec f) = Some (put_entry b f)
    /\ (forall x, clus_ok g x -> val d' x = val d x)
    /\ forall x j, clus_ok g x -> 0 <= j < sec_per_clus g -> dsec x j <> ff_dir_sec f -> rd d' (dsec x j) = rd d (dsec x j).
Proof.
  intros Hrel Hd Hdc Hsec Hi Hnz Ho Ho2 Hc Hs Hch Hni.
  assert (in_vol g (ff_dir_sec f)) as Hin by (rewrite Hsec; by apply dsec_in).
  destruct (rl_rd _ _ Hrel d _ Hd Hin) as [b Eb].
  destruct (put_entry_ok b f) as (Hok & _); [by eapply rd_sector_ok|done..|].
  destruct (rl_wr _ _ Hrel d _ (put_entry b f) Hd Hin Hok) as (d' & Ew & Hd').
  exists b, d'. split; [done|]. unfold dir_writeback.
  rewrite (proj2 (Z.eqb_neq (ff_dir_sec f) 0)) by done. rewrite Eb.
  split; [unfold put_entry in Ew; by rewrite Ew|]. split; [done|].
  rewrite Hsec in Ew |- *. destruct (data_write d dc i _ d' Hdc Hi Hok Ew) as [Hval Hdat].
  split; [by rewrite Hdat, !Z.eqb_refl|]. split; [done|].
  intros x j Hx Hj Hne. rewrite Hdat by done.
  destruct (Z.eqb_spec x dc) as [->|]; [|done]. destruct (Z.eqb_spec j i) as [->|]; done.
Qed.

(** ** Files *)
Record is_file (d : D) (f : fat_file) (l : list Z) : Prop := {
  fl_chain : chain d (ff_cluster f) l;
  fl_size : 0 <= ff_size f <= room l /\ ff_size f < 2 ^ 32;
  fl_read : readable d l;
  fl_dir : ff_is_dir f = false
}.

Definition contents (d : D) (f : fat_file) (l : list Z) : list Z := tabulate (byte d l) 0 (ff_size f).

(** C18: [fat_read] delivers the file.  Of a file of any length over any chain,
    at any position, it returns as many of the bytes asked for as the file
    has, and they are the file's bytes at that position. *)
Theorem fat_read_contents d f l off len :
  is_file d f l -> 0 <= off -> 0 <= len -> off + len < 2 ^ 64 ->
  let n := Z.max 0 (Z.min len (ff_size f - off)) in
  fat_read g d f off len = (n, slice (contents d f l) off n).
Proof.
  intros [Hch Hs Hr Hdir] Ho Hl Hu n. unfold fat_read. rewrite Hdir.
  destruct (Z.leb_spec (ff_size f) off) as [Hge|Hlt].
  { unfold n. replace (Z.max 0 _) with 0 by lia. done. }
  rewrite uwrap_small by lia. set (k := if _ <? _ then _ else len).
  assert (k = n) as -> by (unfold k, n; zsplit; lia).
  pose proof cb_pos. pose proof (Z.div_mod off cb). pose proof (Z.mod_pos_bound off cb).
  assert (0 <= off / cb) by (apply Z.div_pos; lia).
  rewrite (read_loop_spec d l Hr (Z.to_nat n) _ _ 0 n [] (Z.to_nat (off / cb))); [|by apply skip_loop_spec|lia..].
  f_equal. cbn [app]. rewrite Z2Nat.id by lia. replace (off / cb * cb + off mod cb) with off by lia.
  rewrite Z.sub_0_r. unfold contents.
  apply buf_ext; rewrite zlen_tabulate, ?zlen_slice by (rewrite ?zlen_tabulate; lia); [done|].
  intros i Hi. rewrite at_slice, !at_tabulate by lia. done.
Qed.

Lemma write_skip_reliable good f0 n : reliable g good -> forall d l c j c' d',
  write_skip g d c n = (c', d') -> good d -> chain d f0 l -> l !! j = Some c -> (j + n <= length l)%nat ->
  good d' /\ (c' = 0 -> d' = d /\ full g d).
Proof.
  intros Hrel. induction n as [|n IH]; intros d l c j c' d' E Hd Hch Hj Hn; cbn [write_skip] in E.
  { injection E as <- <-. split; [done|]. intros ->.
    destruct (chain_used g d f0 l 0 Hch) as [Hc _]; [by eapply list_elem_of_lookup_2|]. unfold clus_ok in Hc. lia. }
  destruct (next_or_alloc g d c) as [c1 d1] eqn:En.
  destruct (chain_used g d f0 l c Hch) as [Hc _]; [by eapply list_elem_of_lookup_2|].
  destruct (next_or_alloc_reliable g Hg good Hrel _ _ _ _ En Hd Hc) as [G1 Z1].
  destruct (Z.eqb_spec c1 0) as [Hz|Hz]; [injection E as <- <-; auto|].
  destruct (next_or_alloc_spec f0 l d c j c1 d1 Hch Hj En) as (l1 & E1 & L1 & D1).
  pose proof (prefix_length _ _ (ev_prefix _ _ _ _ _ E1)).
  destruct (IH d1 l1 c1 (S j) c' d' E G1) as [G2 Z2]; [apply E1|auto|lia|].
  split; [done|]. intros ->. destruct (Z2 eq_refl) as [-> Hfull].
  assert (n <> 0%nat) as Hn0.
  { intros ->. cbn in E. injection E as ->. done. }
  (* the step before the last stayed inside the chain *)
  assert (d1 = d) as ->; [|done].
  unfold next_or_alloc in En. destruct (Z.eqb_spec (fat_next g d c) 0) as [Hf|Hf]; cbn [negb] in En; [|by injection En as <- <-].
  exfalso. assert (S j < length l)%nat as Hlt by lia.
  rewrite <- (take_drop_middle l j c Hj) in Hch. apply (chain_suffix g) in Hch. apply (chain_next g) in Hch as (_ & _ & Hch).
  rewrite Hf in Hch. apply (chain_nonzero g) in Hch as [Hch _]. specialize (Hch eq_refl).
  apply (f_equal length) in Hch. rewrite length_drop in Hch. cbn in Hch. lia.
Qed.

Lemma write_loop_reliable good f0 src : reliable g good -> bytes_ok src -> forall fuel d l c w done st done' d' j,
  write_loop g fuel d c w done src = (st, done', d') -> good d ->
  chain d f0 l -> l !! j = Some c -> 0 <= w <= cb -> (done < zlen src -> w < cb) ->
  0 <= done <= zlen src -> zlen src - done <= Z.of_nat fuel ->
  good d' /\ st <> WFail /\ (done < zlen src -> done < done') /\ (st = WBreak -> full g d').
Proof.
  intros Hrel Hsrc. induction fuel as [|fuel IH]; intros d l c w done st done' d' j E Hd Hch Hj Hw Hwlt Hdn Hf;
    cbn [write_loop] in E; pose proof cb_pos.
  { rewrite (proj2 (Z.ltb_ge _ _)) in E by lia. injection E as <- <- <-. split; [done|]. split; [done|]. split; [lia|done]. }
  destruct (Z.ltb_spec done (zlen src)) as [Hlt|Hge]; [|injection E as <- <- <-; split; [done|]; split; [done|]; split; [lia|done]].
  specialize (Hwlt Hlt). destruct (pos_parts (Z.of_nat j) w) as (_ & _ & _ & Hs); [lia|lia|].
  pose proof (go_spc g Hg).
  destruct (chain_used g d f0 l c Hch) as [Hc _]; [by eapply list_elem_of_lookup_2|].
  change (clus_sector g c + u32 (w / 512)) with (dsec c (u32 (w / 512))) in E. rewrite uwrap_small in E by lia.
  set (n := Z.min (512 - w mod 512) (zlen src - done)) in *.
  assert (0 <= w mod 512 < 512) as Hm by (apply Z.mod_pos_bound; lia).
  assert (0 < n /\ n <= 512 - w mod 512 /\ done + n <= zlen src) as (Hn0 & Hn1 & Hn2) by lia.
  assert (w + n <= cb) as Hwn by (pose proof (Z.div_mod w 512); unfold cluster_bytes in *; nia).
  pose proof (dsec_in g Hg c (w / 512) Hc Hs) as Hin.
  destruct (if n =? 512 then Some (zeros 512) else rd d (dsec c (w / 512))) as [b|] eqn:Eb.
  2: { destruct (n =? 512); [done|]. destruct (rl_rd _ _ Hrel d _ Hd Hin) as [b Eb']. congruence. }
  assert (sector_ok b) as [Hbl Hbb].
  { destruct (n =? 512); [injection Eb as <-; apply zero_sector_ok|by eapply rd_sector_ok]. }
  destruct (rl_wr _ _ Hrel d _ (splice b (w mod 512) (slice src done n)) Hd Hin) as (d1 & Ew & G1).
  { unfold SECTOR in Hbl. assert (zlen (slice src done n) = n) by (apply zlen_slice; lia).
    split; [unfold SECTOR; rewrite zlen_splice; lia|by apply splice_bytes; [|apply slice_bytes]]. }
  rewrite Ew in E.
  pose proof (write_part f0 l d c j w src done n b d1 Hch Hj ltac:(lia) Hsrc ltac:(lia) Hn0 Hn1 Hn2 Eb Ew) as W1.
  pose proof (ev_chain _ _ _ _ _ (wt_ev _ _ _ _ _ _ _ _ _ W1)) as Hch1.
  destruct ((done + n <? zlen src) && (cb <=? w + n)) eqn:Ecase.
  - apply andb_true_iff in Ecase as [Hmore%Z.ltb_lt Hfull%Z.leb_le].
    destruct (next_or_alloc g d1 c) as [c' d2] eqn:En.
    destruct (next_or_alloc_reliable g Hg good Hrel _ _ _ _ En G1 Hc) as [G2 Z2].
    destruct (next_or_alloc_spec f0 l d1 c j c' d2) as (l2 & E2 & L2 & D2); [done..|].
    destruct (Z.eqb_spec c' 0) as [Hz|Hz].
    { injection E as <- <- <-. destruct (Z2 Hz) as [-> Hfl]. split; [done|]. split; [done|]. split; [lia|done]. }
    destruct (IH d2 l2 c' 0 (done + n) st done' d' (S j) E G2 (ev_chain _ _ _ _ _ E2) (L2 Hz)) as (G3 & S3 & P3 & F3); [lia..|].
    split; [done|]. split; [done|]. split; [lia|done].
  - apply andb_false_iff in Ecase as Ecase'.
    destruct (IH d1 l c (w + n) (done + n) st done' d' j E G1 Hch1 Hj) as (G3 & S3 & P3 & F3); [lia| |lia|lia|].
    { intros Hlt'. destruct Ecase' as [X%Z.ltb_ge|X%Z.leb_gt]; lia. }
    split; [done|]. split; [done|]. split; [|done]. intros _.
    destruct (decide (done + n < zlen src)); [lia|].
    destruct (write_loop_spec f0 src Hsrc fuel d1 l c (w + n) (done + n) st done' d' j E Hch1 Hj) as (l' & W & _); [lia|lia|lia|lia|].
    pose proof (wt_done _ _ _ _ _ _ _ _ _ W). lia.
Qed.

(** The first cluster, allocated when the file has none. *)
Lemma start_chain good d f l f1 d1 :
  reliable g good -> good d -> chain d (ff_cluster f) l ->
  (if ff_cluster f =? 0 then (let '(c, d) := clus_alloc g d in (set_cluster c f, d)) else (f, d)) = (f1, d1) ->
  good d1 /\ f1 = set_cluster (ff_cluster f1) f /\ (ff_cluster f <> 0 -> d1 = d)
  /\ (ff_cluster f1 = 0 -> d1 = d /\ f1 = f /\ full g d)
  /\ (ff_cluster f1 <> 0 -> exists l1, evolves (ff_cluster f1) l d l1 d1 /\ l1 !! 0%nat = Some (ff_cluster f1)
      /\ (forall x i, x ∈ l -> 0 <= i < sec_per_clus g -> rd d1 (dsec x i) = rd d (dsec x i))).
Proof.
  intros Hrel Hd Hch E. destruct (Z.eqb_spec (ff_cluster f) 0) as [Hz|Hz].
  - destruct (clus_alloc g d) as [c d'] eqn:Ea. injection E as <- <-. cbn [ff_cluster set_cluster].
    destruct (alloc_reliable g Hg good Hrel _ _ _ Ea Hd) as [G1 Z1].
    destruct (clus_alloc_spec g Hg _ _ _ Ea) as [K1 A1].
    split; [done|]. split; [done|]. split; [done|]. split.
    + intros ->. destruct (Z1 eq_refl). split; [done|]. split; [|done]. destruct f; cbn in *. by subst.
    + intros Hc. destruct (A1 Hc) as [Hok Hfree Hval Hzero _ _]. rewrite Hz in Hch.
      apply (chain_nonzero g) in Hch as [Hl _]. specialize (Hl eq_refl). subst l.
      exists [c]. split; [split|split; [done|intros x i Hx; by apply not_elem_of_nil in Hx]].
      * split; [done|]. split; [done|]. exists EOC. done.
      * by exists [c].
      * done.
      * intros x ->%list_elem_of_singleton _. done.
      * intros _ x i ->%list_elem_of_singleton Hi. by rewrite Hzero.
  - injection E as <- <-. split; [done|]. split; [by destruct f|]. split; [done|]. split; [done|]. intros _. exists l.
    split; [by apply evolves_refl|]. split; [|done].
    destruct l as [|x l]; [done|]. by destruct Hch as (-> & _).
Qed.

(** Another file: a chain that shares no cluster with [l]. *)
Definition apart (l : list Z) (dc : Z) (l2 : list Z) : Prop := forall x, x ∈ l2 -> (x ∉ l) /\ x <> dc.

Lemma apart_kept l dc d d' c2 l2 :
  chain d c2 l2 -> apart l dc l2 ->
  (forall x, clus_ok g x -> x ∉ l -> x <> dc -> val d x <> Some 0 ->
     val d' x = val d x /\ forall i, 0 <= i < sec_per_clus g -> rd d' (dsec x i) = rd d (dsec x i)) ->
  chain d' c2 l2 /\ forall p, 0 <= p < room l2 -> byte d' l2 p = byte d l2 p.
Proof.
  intros Hch Hap Hk.
  assert (forall x, x ∈ l2 -> val d' x = val d x /\ forall i, 0 <= i < sec_per_clus g -> rd d' (dsec x i) = rd d (dsec x i)) as K.
  { intros x Hx. destruct (Hap x Hx). destruct (chain_used g _ _ _ _ Hch Hx) as [Hc _]. apply Hk; try done. by eapply chain_used_ne. }
  split; [eapply chain_same; [exact Hch|intros x Hx; by apply K]|].
  intros p Hp. apply byte_frame; [done| |done]. intros x i Hx. by apply K.
Qed.

(** [splice] at the end of a list may make it longer. *)
Definition overwrite (old : list Z) (off : Z) (v : list Z) : list Z :=
  take (Z.to_nat off) old ++ v ++ drop (Z.to_nat (off + zlen v)) old.

Lemma zlen_overwrite old off v : 0 <= off <= zlen old -> zlen (overwrite old off v) = Z.max (zlen old) (off + zlen v).
Proof.
  intros Ho. unfold overwrite, zlen in *. rewrite !length_app, length_take, length_drop. lia.
Qed.
Lemma at_overwrite old off v i :
  0 <= off <= zlen old -> 0 <= i ->
  at_ (overwrite old off v) i = if (off <=? i) && (i <? off + zlen v) then at_ v (i - off) else at_ old i.
Proof.
  intros Ho Hi. unfold overwrite, at_, zlen in *. rewrite !nth_lookup.
  destruct (Z.leb_spec off i); cbn [andb].
  - destruct (Z.ltb_spec i (off + Z.of_nat (length v))); f_equal; rewrite lookup_app_r by (rewrite length_take; lia);
      rewrite length_take.
    + rewrite lookup_app_l by lia. f_equal. lia.
    + rewrite lookup_app_r by lia. rewrite lookup_drop. f_equal. lia.
  - f_equal. rewrite lookup_app_l by (rewrite length_take; lia). by rewrite lookup_take_lt by lia.
Qed.

(** The end of [fat_write]: the size and the entry. *)
Lemma write_tail good d0 d f f1 l l3 dc i off src done :
  reliable g good -> good d -> is_file d0 f l -> entry_at d0 f l dc i ->
  0 <= off <= ff_size f -> off + zlen src < 2 ^ 32 -> 0 < done <= zlen src ->
  f1 = set_cluster (ff_cluster f1) f -> evolves (ff_cluster f1) l d0 l3 d ->
  off + done <= room l3 ->
  (forall p, 0 <= p < off + done \/ 0 <= p < room l -> byte d l3 p
     = if (off <=? p) && (p <? off + done) then at_ src (p - off) else byte d0 l p) ->
  let f2 := if ff_size f1 <? u64 (off + done) then set_size (u32 (off + done)) f1 else f1 in
  exists d', dir_writeback g d f2 = (true, d') /\ good d' /\ (forall x, clus_ok g x -> val d' x = val d x)
    /\ is_file d' f2 l3 /\ entry_at d' f2 l3 dc i
    /\ contents d' f2 l3 = overwrite (contents d0 f l) off (take (Z.to_nat done) src)
    /\ forall x, clus_ok g x -> x ∉ l -> x <> dc -> val d0 x <> Some 0 ->
         val d' x = val d0 x /\ forall k, 0 <= k < sec_per_clus g -> rd d' (dsec x k) = rd d0 (dsec x k).
Proof.
  intros Hrel Hd [Hch [Hsz Hsz32] Hr Hdir] [Hdc Hused Hout (Hsec & Hi & Hsnz) [Ho1 Ho2] (b0 & Eb0 & Een)] Hoff H32 Hdone Ef1 Ev Hroom Hby f2.
  destruct Ev as [Hch3 Hpre Hk Hnew Hrd].
  assert (dc ∉ l3) as Hout3 by (intros Hin; specialize (Hnew dc Hin Hout); congruence).
  assert (l3 <> []) as Hl3 by (intros ->; unfold room in Hroom; change (zlen (@nil Z)) with 0 in Hroom; lia).
  assert (ff_dir_sec f1 = ff_dir_sec f /\ ff_dir_off f1 = ff_dir_off f /\ ff_is_dir f1 = false /\ ff_size f1 = ff_size f) as (F1 & F2 & F3 & F4)
    by (rewrite Ef1; done).
  assert (clus_ok g (ff_cluster f1)) as Hc1.
  { destruct l3 as [|x l3]; [done|]. by destruct Hch3 as (-> & ? & _). }
  assert (ff_size f2 = Z.max (ff_size f) (off + done) /\ ff_cluster f2 = ff_cluster f1 /\ ff_is_dir f2 = false
          /\ ff_dir_sec f2 = ff_dir_sec f /\ ff_dir_off f2 = ff_dir_off f) as (Z1 & Z2 & Z3 & Z4 & Z5).
  { unfold f2. rewrite !uwrap_small by lia. destruct (Z.ltb_spec (ff_size f1) (off + done)); cbn; repeat split; try done; lia. }
  clearbody f2. pose proof (go_tc g Hg). unfold clus_ok, EOC in *.
  destruct (dir_writeback_spec good d f2 l3 dc i) as (b & d' & Eb & Ew & G' & Rb & Vk & Dk);
    rewrite ?Z1, ?Z2, ?Z4, ?Z5; try done; try lia.
  exists d'. split; [done|]. split; [done|]. split; [done|].
  assert (forall x j, x ∈ l3 -> 0 <= j < sec_per_clus g -> rd d' (dsec x j) = rd d (dsec x j)) as Dl3.
  { intros x j Hx Hj. destruct (chain_used g _ _ _ _ Hch3 Hx) as [Hcx _]. apply Dk; [done|done|].
    rewrite Z4, Hsec. intros E. apply (dsec_inj g Hg) in E as [-> _]; done. }
  assert (b = b0) as ->.
  { rewrite Z4, Hsec in Eb. rewrite Hsec in Eb0. destruct (Hk dc) as [_ Hkd]; [done..|]. rewrite Hkd in Eb by done. congruence. }
  assert (forall p, 0 <= p < room l3 -> byte d' l3 p = byte d l3 p) as Bl3 by (intros p Hp; by apply byte_frame).
  pose proof (room_prefix _ _ Hpre) as Hrp.
  split; [split; rewrite ?Z1, ?Z2|split; [split|split]].
  - eapply chain_same; [exact Hch3|]. intros x Hx. apply Vk. by eapply chain_used.
  - lia.
  - intros x j Hx Hj. rewrite Dl3 by done. by apply Hrd.
  - done.
  - done.
  - rewrite Vk by done. destruct (Hk dc) as [-> _]; done.
  - done.
  - by rewrite Z4.
  - by rewrite Z5.
  - exists (put_entry b0 f2). split; [done|].
    destruct (put_entry_ok b0 f2) as (_ & _ & ->); rewrite ?Z1, ?Z2, ?Z5; try done; try lia; [by eapply rd_sector_ok|].
    rewrite (proj2 (Z.ltb_ge (ff_cluster f1) 2)) by lia.
    apply (f_equal ff_is_dir) in Een. unfold entry_file in Een. cbn in Een. rewrite at_slice in Een by lia.
    rewrite Een, Hdir. destruct f2; cbn in *; congruence.
  - unfold contents. assert (zlen (take (Z.to_nat done) src) = done) as Ht by (unfold zlen in *; rewrite length_take; lia).
    apply buf_ext; rewrite zlen_tabulate by lia; [rewrite zlen_overwrite, zlen_tabulate by (rewrite ?zlen_tabulate; lia); lia|].
    intros p Hp. rewrite at_tabulate, at_overwrite, Ht by (rewrite ?zlen_tabulate; lia). rewrite Z.add_0_l.
    rewrite Bl3, Hby by lia. destruct (Z.leb_spec off p), (Z.ltb_spec p (off + done)); cbn [andb].
    + unfold at_. rewrite !nth_lookup, lookup_take_lt by lia. done.
    + by rewrite at_tabulate by lia.
    + by rewrite at_tabulate by lia.
    + lia.
  - intros x Hx Hxl Hxd Hv. destruct (Hk x Hx Hxl Hv) as [V0 R0]. rewrite Vk by done. split; [done|].
    intros k Hkr. rewrite Dk; [by apply R0|done|done|]. rewrite Z4, Hsec. intros E. apply (dsec_inj g Hg) in E as [-> _]; done.
Qed.

(** C7: [fat_write] is overwriting.  On a device that works, writing [src] at a
    position up to the end of a file either fails because the disk is full,
    and then nothing changed, or writes a non-empty part of it -- all of it
    unless the disk filled up -- and leaves a file whose contents are the old
    ones with that part laid over them, whose directory entry says so, and
    which extends the old chain by clusters that were free.  Every other file
    keeps its chain and every byte. *)
Theorem fat_write_overwrites good d f l dc i off src n f' d' :
  reliable g good -> good d -> is_file d f l -> entry_at d f l dc i -> bytes_ok src ->
  0 < zlen src -> 0 <= off <= ff_size f -> off + zlen src < 2 ^ 32 ->
  fat_write g d f off src = (n, f', d') ->
  good d'
  /\ (n = -1 /\ d' = d /\ f' = f /\ full g d
      \/ 0 < n <= zlen src /\ (n < zlen src -> full g d')
         /\ exists l', l `prefix_of` l' /\ is_file d' f' l' /\ entry_at d' f' l' dc i
            /\ contents d' f' l' = overwrite (contents d f l) off (take (Z.to_nat n) src))
  /\ (forall c2 l2, chain d c2 l2 -> apart l dc l2 ->
        chain d' c2 l2 /\ forall p, 0 <= p < room l2 -> byte d' l2 p = byte d l2 p).
Proof.
  intros Hrel Hd Hf Hen Hsrc Hlen Hoff H32 E. unfold fat_write in E.
  pose proof Hf as [Hch [Hsz Hsz32] Hr Hdir]. pose proof Hen as [_ _ _ (_ & _ & Hsnz) _ _].
  rewrite Hdir, (proj2 (Z.eqb_neq (ff_dir_sec f) 0)) in E by done. cbn [orb] in E.
  rewrite (proj2 (Z.eqb_neq (zlen src) 0)), (proj2 (Z.ltb_ge (ff_size f) off)) in E by lia.
  destruct (if ff_cluster f =? 0 then _ else _) as [f1 d1] eqn:E1.
  destruct (start_chain good d f l f1 d1 Hrel Hd Hch E1) as (G1 & F1 & S1 & Z1 & N1).
  destruct (Z.eqb_spec (ff_cluster f1) 0) as [Hz|Hz].
  { injection E as <- <- <-. destruct (Z1 Hz) as (-> & -> & Hfull). split; [done|]. split; [by left|done]. }
  destruct (N1 Hz) as (l1 & E01 & L1 & D1). clear N1 Z1 E1.
  destruct (write_skip g d1 (ff_cluster f1) _) as [c d2] eqn:E2.
  pose proof cb_pos. pose proof (Z.div_mod off cb). pose proof (Z.mod_pos_bound off cb).
  assert (0 <= off / cb) by (apply Z.div_pos; lia).
  assert (l = [] \/ room l <= room l1) as Hrl by (right; apply room_prefix, E01).
  assert (Z.to_nat (off / cb) <= length l1)%nat as Hk.
  { assert (off <= room l1) as Hr1 by (pose proof (room_prefix _ _ (ev_prefix _ _ _ _ _ E01)); lia).
    unfold room, zlen in Hr1. assert (off / cb <= Z.of_nat (length l1)); [apply Z.div_le_upper_bound; lia|lia]. }
  destruct (write_skip_spec (ff_cluster f1) _ _ _ _ 0 _ _ (ev_chain _ _ _ _ _ E01) L1 Hk E2) as (l2 & E12 & L2 & D2).
  destruct (write_skip_reliable good (ff_cluster f1) _ Hrel _ _ _ 0 _ _ E2 G1 (ev_chain _ _ _ _ _ E01) L1 Hk) as (G2 & Z2).
  destruct (Z.eqb_spec c 0) as [Hc|Hc].
  { injection E as <- <- <-. destruct (Z2 Hc) as [-> Hfull].
    destruct (decide (ff_cluster f = 0)) as [Hf0|Hf0].
    - rewrite Hf0 in Hch. apply (chain_nonzero g) in Hch as [Hl _]. specialize (Hl eq_refl). subst l.
      change (room []) with 0 in Hsz. assert (off = 0) as -> by lia. rewrite Z.div_0_l in E2 by lia.
      cbn in E2. injection E2 as E2. congruence.
    - specialize (S1 Hf0). subst d1. split; [done|]. split; [left|done].
      split; [done|]. split; [done|]. split; [|done]. rewrite F1.
      assert (ff_cluster f1 = ff_cluster f) as ->; [|by destruct f].
      pose proof (ev_chain _ _ _ _ _ E01) as Hc1. destruct (ev_prefix _ _ _ _ _ E01) as [k ->].
      destruct l as [|x l]; [by apply (chain_nonzero g) in Hch; destruct Hf0; apply Hch|].
      destruct Hch as (<- & _). by destruct Hc1 as (<- & _). }
  specialize (L2 Hc). cbn [Nat.add] in L2.
  destruct (write_loop g (length src) d2 c (off mod cb) 0 src) as [[st done] d3] eqn:E3.
  assert (Z.of_nat (Z.to_nat (off / cb)) * cb + off mod cb = off) as Epos by lia.
  destruct (write_loop_spec (ff_cluster f1) src Hsrc _ _ _ _ _ _ _ _ _ _ E3 (ev_chain _ _ _ _ _ E12) L2) as (l3 & W3 & Hall);
    [lia|lia|lia|unfold zlen; lia|].
  destruct (write_loop_reliable good (ff_cluster f1) src Hrel Hsrc _ _ _ _ _ _ _ _ _ _ E3 G2 (ev_chain _ _ _ _ _ E12) L2) as (G3 & S3 & P3 & F3);
    [lia|lia|lia|unfold zlen; lia|].
  rewrite Epos in W3. destruct W3 as [E23 Hdone Hroom Hby]. rewrite Z.sub_0_r in Hroom, Hby.
  pose proof (evolves_trans _ _ _ _ _ _ _ (evolves_trans _ _ _ _ _ _ _ E01 E12) E23) as E03.
  pose proof (room_prefix _ _ (ev_prefix _ _ _ _ _ E01)) as R01. pose proof (room_prefix _ _ (ev_prefix _ _ _ _ _ E12)) as R12.
  destruct (write_tail good d d3 f f1 l l3 dc i off src done) as (d4 & Ew & G4 & V4 & If & Ie & Ic & K4); try done; try lia.
  { intros p Hp. rewrite Hby by lia. destruct (_ && _) eqn:Er; [f_equal; lia|].
    apply andb_false_iff in Er as Er'.
    assert (p < room l) by (destruct Er' as [X%Z.leb_gt|X%Z.ltb_ge]; lia).
    apply byte_frame; [etransitivity; [apply E01|apply E12]| |lia]. intros x k Hx Hk'.
    rewrite D2, D1; [done..|by eapply prefix_elem; [apply E01|]|done]. }
  assert ((n, f', d') = (done, if ff_size f1 <? u64 (off + done) then set_size (u32 (off + done)) f1 else f1, d4)) as Er.
  { destruct st; [by rewrite Ew in E|by rewrite Ew in E|done]. }
  injection Er as -> -> ->. split; [done|]. split; [right|].
  - split; [lia|]. split; [|exists l3; split; [apply E03|done]].
    intros Hshort. assert (full g d3) as Hf3 by (destruct st; [specialize (Hall eq_refl); lia|by apply F3|done]).
    intros x Hx. rewrite V4 by done. by apply Hf3.
  - intros c2 l2' Hc2 Hap. eapply apart_kept; [done|exact Hap|done].
Qed.

(** ** Giving the clusters back *)

(** How many clusters are in use. *)
Definition used (d : D) : nat :=
  length (filter (fun c => val d c <> Some 0) (seqZ 2 (total_clus g - 2))).

Lemma filter_fewer (P Q : Z -> Prop) `{!forall x, Decision (P x)} `{!forall x, Decision (Q x)} (l : list Z) c :
  (forall x, x ∈ l -> Q x -> P x) -> c ∈ l -> P c -> ~ Q c -> (length (filter Q l) < length (filter P l))%nat.
Proof.
  intros HQP Hc HP HQ. induction l as [|x l IH]; [by apply not_elem_of_nil in Hc|].
  assert (length (filter Q l) <= length (filter P l))%nat as Hle.
  { clear IH Hc. assert (forall y, y ∈ l -> Q y -> P y) as Hl by (intros y Hy; apply HQP; by right).
    clear HQP. induction l as [|y l IH]; [done|]. rewrite !filter_cons.
    assert (forall z, z ∈ l -> Q z -> P z) as Hl' by (intros z Hz; apply Hl; by right). specialize (IH Hl').
    specialize (Hl y ltac:(by left)). destruct (decide (Q y)), (decide (P y)); cbn; try lia. tauto. }
  rewrite !filter_cons. apply elem_of_cons in Hc as [<-|Hc].
  - rewrite decide_False by done. rewrite decide_True by done. cbn. lia.
  - specialize (IH ltac:(intros y Hy; apply HQP; by right) Hc). specialize (HQP x ltac:(by left)).
    destruct (decide (Q x)), (decide (P x)); cbn; try lia. tauto.
Qed.

Lemma used_bound d : (used d <= Z.to_nat (total_clus g - 2))%nat.
Proof.
  unfold used. etransitivity; [apply length_filter|]. by rewrite length_seqZ.
Qed.

Lemma free_chain_total fuel : forall d c, (S (used d) <= fuel)%nat -> exists d', free_chain g fuel d c = Ret d'.
Proof.
  induction fuel as [|fuel IH]; intros d c Hf; [lia|]. cbn [free_chain].
  destruct (Z.eqb_spec c 0) as [|Hc]; [eauto|].
  destruct (fat_set g d c 0) as [ok d1] eqn:Es. destruct ok; [|eauto].
  assert (clus_ok g c) as Hok.
  { unfold fat_set in Es. unfold clus_ok. destruct (Z.ltb_spec c 2), (Z.leb_spec (total_clus g) c); cbn [orb] in Es; try done; lia. }
  pose proof (fat_set_spec g Hg _ _ _ _ _ Es Hok) as Hset.
  destruct (set_val_eq g Hg _ _ _ _ Hset) as [Hv _]; [lia|].
  destruct (decide (fat_next g d c = 0)) as [->|Hn].
  { destruct fuel; cbn [free_chain]; rewrite Z.eqb_refl; eauto. }
  rewrite fat_next_val in Hn by done. apply IH.
  enough (used d1 < used d)%nat by lia. unfold used. apply filter_fewer with (c := c).
  - intros x Hx Hq Hp. apply Hq. destruct (decide (x = c)) as [->|]; [done|].
    rewrite (set_val_ne g Hg _ _ _ _ _ _ Hset); [done| |done].
    apply elem_of_seqZ in Hx. unfold clus_ok. lia.
  - apply elem_of_seqZ. unfold clus_ok in Hok. lia.
  - intros E. rewrite E in Hn. by cbn in Hn.
  - rewrite Hv. tauto.
Qed.


Lemma free_chain_spec good fuel : reliable g good -> forall d c l d',
  free_chain g fuel d c = Ret d' -> good d -> chain d c l ->
  good d' /\ (forall x, x ∈ l -> val d' x = Some 0)
  /\ (forall x, clus_ok g x -> x ∉ l -> val d' x = val d x)
  /\ forall x i, clus_ok g x -> 0 <= i < sec_per_clus g -> rd d' (dsec x i) = rd d (dsec x i).
Proof.
  intros Hrel. induction fuel as [|fuel IH]; intros d c l d' E Hd Hch; cbn [free_chain] in E;
    destruct (Z.eqb_spec c 0) as [->|Hc].
  1, 3: injection E as <-; apply (chain_nonzero g) in Hch as [Hl _]; specialize (Hl eq_refl); subst l;
    split; [done|]; split; [intros x Hx; by apply not_elem_of_nil in Hx|done].
  { done. }
  destruct l as [|x l]; [done|]. pose proof (chain_nodup g _ _ _ Hch) as [Hni Hnd]%NoDup_cons.
  destruct (chain_next g _ _ _ _ Hch) as (-> & Hok & Hn).
  destruct (set_reliable g Hg good Hrel d c 0 Hd Hok) as (d1 & Es & G1). rewrite Es in E.
  pose proof (fat_set_spec g Hg _ _ _ _ _ Es Hok) as Hset.
  destruct (set_val_eq g Hg _ _ _ _ Hset) as [Hv _]; [lia|].
  assert (chain d1 (fat_next g d c) l) as Hch1.
  { eapply chain_same; [exact Hn|]. intros y Hy. eapply (set_val_ne g Hg); [exact Hset|by eapply chain_used|].
    intros ->. done. }
  destruct (IH d1 _ l d' E G1 Hch1) as (G' & F' & K' & D'). split; [done|]. split; [|split].
  - intros y [->|Hy]%elem_of_cons; [|auto]. by rewrite K'.
  - intros y Hy [Hyc Hyl]%not_elem_of_cons. rewrite K' by done. eapply (set_val_ne g Hg); [exact Hset|done|done].
  - intros y i Hy Hi. rewrite D' by done. by eapply set_data.
Qed.

(** C37: [fat_truncate] empties the file.  On a device that works it leaves a
    file of length zero whose entry says so, every cluster of the old chain
    free, and every other file with its chain and every byte. *)
Theorem fat_truncate_frees good d f l dc i :
  reliable g good -> good d -> is_file d f l -> entry_at d f l dc i ->
  exists f' d', fat_truncate g d f = Ret (true, f', d') /\ good d'
    /\ is_file d' f' [] /\ entry_at d' f' [] dc i /\ ff_size f' = 0
    /\ (forall x, x ∈ l -> val d' x = Some 0)
    /\ forall c2 l2, chain d c2 l2 -> apart l dc l2 ->
        chain d' c2 l2 /\ forall p, 0 <= p < room l2 -> byte d' l2 p = byte d l2 p.
Proof.
  intros Hrel Hd [Hch [Hsz Hsz32] Hr Hdir] [Hdc Hused Hout (Hsec & Hi & Hsnz) [Ho1 Ho2] (b0 & Eb0 & Een)].
  unfold fat_truncate. rewrite Hdir, (proj2 (Z.eqb_neq (ff_dir_sec f) 0)) by done. cbn [orb].
  destruct (free_chain_total (chain_fuel g) d (ff_cluster f)) as [d1 E1].
  { pose proof (used_bound d). pose proof (go_tc g Hg). unfold chain_fuel. lia. }
  rewrite E1. cbn [obind]. destruct (free_chain_spec good _ Hrel _ _ _ _ E1 Hd Hch) as (G1 & F1 & K1 & D1).
  set (f' := set_size 0 (set_cluster 0 f)).
  destruct (dir_writeback_spec good d1 f' [] dc i) as (b & d' & Eb & Ew & G' & Rb & Vk & Dk);
    try done; try (cbn; lia); try apply not_elem_of_nil.
  rewrite Ew. exists f', d'. split; [done|]. split; [done|].
  assert (b = b0) as ->.
  { change (ff_dir_sec f') with (ff_dir_sec f) in Eb. rewrite Hsec in Eb, Eb0. rewrite D1 in Eb by done. congruence. }
  split; [split|split; [split|split; [done|split]]].
  - done.
  - change (room []) with 0. change (ff_size f') with 0. lia.
  - intros x k Hx. by apply not_elem_of_nil in Hx.
  - done.
  - done.
  - rewrite Vk, K1 by done. done.
  - apply not_elem_of_nil.
  - done.
  - done.
  - exists (put_entry b0 f'). split; [done|].
    destruct (put_entry_ok b0 f') as (_ & _ & ->); try done; try (cbn; lia); [by eapply rd_sector_ok|].
    apply (f_equal ff_is_dir) in Een. unfold entry_file in Een. cbn in Een. rewrite at_slice in Een by lia.
    unfold f'. cbn. rewrite Een. done.
  - intros x Hx. rewrite Vk; [by apply F1|by eapply chain_used].
  - intros c2 l2 Hc2 Hap. eapply apart_kept; [done|exact Hap|]. intros x Hx Hxl Hxd _.
    rewrite Vk, K1 by done. split; [done|]. intros k Hk. rewrite Dk, D1; [done..|].
    change (ff_dir_sec f') with (ff_dir_sec f). rewrite Hsec. intros E. apply (dsec_inj g Hg) in E as [-> _]; done.
Qed.
End file.

(** ** A small volume in memory

    Thirteen sectors: two copies of the table, ten clusters of a sector, the
    root directory in cluster 2. *)
Definition g0 : geom := Geom 1 3 1 2 0 10 2 1 0.
Definition d0 : ramdisk := snd (fat_set g0 (blank 13) 2 EOC).

Lemma g0_ok : geom_ok g0.
Proof. split; cbn; unfold EOC; lia. Qed.

(** A disk in memory that is large enough never fails. *)
Definition ram_good (n : Z) (d : ramdisk) : Prop :=
  n <= rd_sectors d /\ map_Forall (fun _ b => sector_ok b) (rd_map d).

Lemma ram_reliable g :
  geom_ok g -> reliable g (ram_good (part_lba g + first_data_sec g + total_clus g * sec_per_clus g)).
Proof.
  intros Hg. pose proof (go_end g Hg). pose proof (go_lba g Hg).
  split; intros d s; [intros [Hn Hm]|intros b [Hn Hm]]; unfold in_vol, rd_sec, wr_sec; cbn; unfold ram_read, ram_write;
    intros Hs; rewrite uwrap_small by lia; rewrite (proj2 (Z.leb_le _ _)), (proj2 (Z.ltb_lt _ _)) by lia; cbn [andb].
  - destruct (rd_map d !! _) as [b|] eqn:E; [|eauto]. rewrite decide_True by (by eapply Hm). eauto.
  - intros Hb. eexists. split; [done|]. split; [done|]. cbn. by apply map_Forall_insert_2.
Qed.

(** The disk after a file of two clusters is made on it. *)
Definition hello_vol : option (fat_file * ramdisk) :=
  match fat_create g0 [] d0 (str "hello.txt") with
  | Ret (Some f, d) => let '(_, f, d) := fat_write g0 d f 0 (replicate 600 65) in Some (f, d)
  | _ => None
  end.
Definition hello : fat_file := FatFile 3 600 false 3 0.
Definition hello_disk : ramdisk := match hello_vol with Some (_, d) => d | None => d0 end.

Lemma hello_good : ram_good 13 hello_disk.
Proof.
  split; [by vm_compute|]. assert (bool_decide (map_Forall (fun _ b => sector_ok b) (rd_map hello_disk)) = true) as E by by vm_compute.
  by apply bool_decide_eq_true in E.
Qed.
Lemma hello_file : hello_vol = Some (hello, hello_disk) /\ is_file g0 hello_disk hello [3; 4].
Proof.
  split; [by vm_compute|]. split; [|by vm_compute|..|done].
  - split; [done|]. split; [done|]. exists 4. split; [by vm_compute|]. split; [lia|].
    split; [done|]. split; [done|]. exists EOC. split; [by vm_compute|]. split; [done|done].
  - intros x i Hx Hi. change (sec_per_clus g0) with 1 in Hi. assert (i = 0) as -> by lia.
    apply elem_of_cons in Hx as [->|Hx]; [by vm_compute|]. apply list_elem_of_singleton in Hx as ->. by vm_compute.
Qed.
Lemma hello_entry : entry_at g0 hello_disk hello [3; 4] 2 0.
Proof.
  split; [done|by vm_compute| |by vm_compute|by vm_compute|].
  - intros Hx. apply elem_of_cons in Hx as [?|Hx]; [done|]. by apply list_elem_of_singleton in Hx.
  - exists (default [] (rd_sec g0 hello_disk (ff_dir_sec hello))). split; vm_compute; reflexivity.
Qed.

Lemma fat_read_contents_witness :
  fat_read g0 hello_disk hello 511 2 = (2, [65; 65]).
Proof.
  rewrite (fat_read_contents g0 g0_ok hello_disk hello [3; 4] 511 2 (proj2 hello_file)) by lia.
  vm_compute. reflexivity.
Defined.

Lemma fat_write_overwrites_witness :
  exists l', [3; 4] `prefix_of` l' /\ let '(n, f', d') := fat_write g0 hello_disk hello 599 [66; 67] in
    contents g0 d' f' l' = replicate 599 65 ++ [66; 67].
Proof.
  destruct (fat_write g0 hello_disk hello 599 [66; 67]) as [[n f'] d'] eqn:E.
  assert (n = 2) as Hn by (pose proof (f_equal (fun x => x.1.1) E) as E1; cbn [fst] in E1; rewrite <- E1; by vm_compute).
  edestruct (fat_write_overwrites g0 g0_ok (ram_good 13) hello_disk hello [3; 4] 2 0 599 [66; 67] n f' d') as (_ & Hw & _).
  - exact (ram_reliable g0 g0_ok).
  - exact hello_good.
  - exact (proj2 hello_file).
  - exact hello_entry.
  - repeat (constructor; [unfold is_byte; lia|]). constructor.
  - reflexivity.
  - cbn. lia.
  - reflexivity.
  - exact E.
  - destruct Hw as [(Hm & _)|(_ & _ & l' & Hp & _ & _ & Hc)]; [rewrite Hn in Hm; discriminate Hm|].
    clear E. exists l'. split; [exact Hp|]. rewrite Hc, Hn. vm_compute. reflexivity.
Defined.


Lemma fat_truncate_frees_witness :
  exists f' d', fat_truncate g0 hello_disk hello = Ret (true, f', d') /\ val g0 d' 3 = Some 0.
Proof.
  edestruct (fat_truncate_frees g0 g0_ok (ram_good 13) hello_disk hello [3; 4] 2 0) as (f' & d' & E & _ & _ & _ & _ & Hf & _).
  - exact (ram_reliable g0 g0_ok).
  - exact hello_good.
  - exact (proj2 hello_file).
  - exact hello_entry.
  - exists f', d'. split; [exact E|]. apply Hf. by left.
Defined.
