(* ===== verification/FatDir.v ===== *)
(** * Names and directories on the disk

    A name that fits 8.3 without spaces is found again once created; a lookup
    terminates in any directory whose clusters form a chain.  At the end, what
    names outside that form and a damaged table do. *)
From S2P Require Import Prelude Bytes Disk Gpt Fat FatTable FatFile.
Import Gpt.Find.

(** ** 8.3 names *)
Lemma upper_idem c : upper (upper c) = upper c.
Proof.
  unfold upper. destruct (Z.leb_spec 97 c), (Z.leb_spec c 122); cbn [andb]; zsplit; lia.
Qed.
Lemma upper_special c k : upper c = k -> k < 65 -> c = k.
Proof. unfold upper. destruct (Z.leb_spec 97 c), (Z.leb_spec c 122); cbn [andb]; lia. Qed.

Lemma name_eq_upper a : name_eq (upper <$> a) a = true.
Proof. induction a as [|x a IH]; [done|]. cbn. by rewrite upper_idem, Z.eqb_refl. Qed.
Lemma name_eq_app a b x y : name_eq a b = true -> name_eq (a ++ x) (b ++ y) = name_eq x y.
Proof.
  revert b. induction a as [|c a IH]; intros [|c' b] Hab; cbn in *; try done.
  destruct (upper c =? upper c'); [by apply IH|done].
Qed.

Lemma last_dot_none name i dot : 46 ∉ name -> last_dot name i dot = dot.
Proof.
  revert i. induction name as [|c name IH]; intros i Hn; [done|]. apply not_elem_of_cons in Hn as [Hc Hn].
  cbn. rewrite (proj2 (Z.eqb_neq c 46)) by done. by apply IH.
Qed.
Lemma last_dot_some b e i dot : 46 ∉ e -> last_dot (b ++ 46 :: e) i dot = i + zlen b.
Proof.
  intros He. revert i dot. induction b as [|c b IH]; intros i dot; cbn.
  - rewrite last_dot_none by done. change (zlen (@nil Z)) with 0. lia.
  - rewrite IH, zlen_cons. lia.
Qed.

Lemma split_dot (name : list Z) : 46 ∉ name \/ exists b e, name = b ++ 46 :: e /\ 46 ∉ e.
Proof.
  induction name as [|c name IH]; [left; apply not_elem_of_nil|].
  destruct IH as [Hn|(b & e & -> & He)].
  - destruct (decide (c = 46)) as [->|Hc]; [right; by exists [], name|left; by apply not_elem_of_cons].
  - right. by exists (c :: b), e.
Qed.

(** The loop over characters that all go one way. *)
Lemma make_83_base b : forall r i dot base ext o,
  0 <= i -> (dot < 0 \/ i + zlen b <= dot) ->
  make_83_loop (b ++ r) i dot base ext = Some o ->
  make_83_loop r (i + zlen b) dot (base ++ (upper <$> b)) ext = Some o
  /\ zlen (base ++ (upper <$> b)) <= Z.max 8 (zlen base) /\ Forall (fun c => upper c <> 47 /\ upper c <> 0) b.
Proof.
  induction b as [|c b IH]; intros r i dot base ext o Hi Hd E; cbn [app fmap list_fmap] in *.
  - rewrite zlen_nil, Z.add_0_r, app_nil_r. split; [done|]. split; [lia|done].
  - rewrite zlen_cons in *. pose proof (zlen_nonneg b). cbn [make_83_loop] in E.
    destruct (Z.eqb_spec (upper c) 47); [done|]. destruct (Z.eqb_spec (upper c) 0); [done|]. cbn [orb] in E.
    rewrite (proj2 (Z.eqb_neq i dot)) in E by lia.
    destruct ((0 <=? dot) && (dot <? i)) eqn:Ed.
    { apply andb_true_iff in Ed as [Ed1%Z.leb_le Ed2%Z.ltb_lt]. lia. }
    destruct (Z.leb_spec 8 (zlen base)); [done|].
    apply IH in E as (E & Hb & Hf); [|lia|lia]. rewrite <- app_assoc in E, Hb. cbn [app] in E, Hb.
    assert (zlen (base ++ [upper c]) = zlen base + 1) as Hx by (rewrite zlen_app; done).
    split; [rewrite <- E; f_equal; lia|]. split; [lia|by constructor].
Qed.
Lemma make_83_ext e : forall i dot base ext o,
  0 <= dot < i -> make_83_loop e i dot base ext = Some o ->
  o = (base, ext ++ (upper <$> e)) /\ zlen (ext ++ (upper <$> e)) <= Z.max 3 (zlen ext)
  /\ Forall (fun c => upper c <> 47 /\ upper c <> 0) e.
Proof.
  induction e as [|c e IH]; intros i dot base ext o Hd E; cbn [fmap list_fmap make_83_loop] in *.
  - injection E as <-. rewrite app_nil_r. split; [done|]. split; [lia|done].
  - destruct (Z.eqb_spec (upper c) 47); [done|]. destruct (Z.eqb_spec (upper c) 0); [done|]. cbn [orb] in E.
    rewrite (proj2 (Z.eqb_neq i dot)), (proj2 (Z.leb_le 0 dot)), (proj2 (Z.ltb_lt dot i)) in E by lia. cbn [andb] in E.
    destruct (Z.leb_spec 3 (zlen ext)); [done|].
    apply IH in E as (-> & Hb & Hf); [|lia]. rewrite <- app_assoc in *. cbn [app] in *.
    assert (zlen (ext ++ [upper c]) = zlen ext + 1) as Hx by (rewrite zlen_app; done).
    split; [done|]. split; [lia|by constructor].
Qed.

(** What [make_83] accepts and what it makes of it. *)
Lemma make_83_spec name n83 :
  make_83 name = Some n83 -> exists b e,
    (name = b /\ e = [] \/ name = b ++ 46 :: e)
    /\ n83 = pad_to 8 (upper <$> b) ++ pad_to 3 (upper <$> e)
    /\ 1 <= zlen b <= 8 /\ zlen e <= 3 /\ Forall (fun c => upper c <> 47 /\ upper c <> 0) (b ++ e).
Proof.
  assert (forall l : list Z, zlen (upper <$> l) = zlen l) as Hlen by (intros l; unfold zlen; by rewrite length_fmap).
  unfold make_83. intros E. destruct (make_83_loop name 0 _ [] []) as [[base ext]|] eqn:El; [|done].
  destruct (Z.eqb_spec (zlen base) 0) as [|Hz]; [done|]. injection E as <-.
  destruct (split_dot name) as [Hn|(b & e & -> & He)].
  - rewrite last_dot_none in El by done. rewrite <- (app_nil_r name) in El.
    apply make_83_base in El as (El & Hb & Hf); [|lia|lia]. cbn in El. injection El as <- <-.
    exists name, []. change (zlen (@nil Z)) with 0 in Hb. cbn [app] in *. rewrite Hlen in *. rewrite app_nil_r.
    pose proof (zlen_nonneg name). split; [by left|]. split; [done|]. split; [lia|]. split; [by vm_compute|done].
  - rewrite last_dot_some in El by done. pose proof (zlen_nonneg b).
    apply make_83_base in El as (El & Hb & Hf); [|lia|lia]. cbn [app make_83_loop] in El.
    change ((upper 46 =? 47) || (upper 46 =? 0)) with false in El. cbv iota in El.
    rewrite Z.eqb_refl in El. apply make_83_ext in El as (Eo & He3 & Hfe); [|lia].
    injection Eo as -> ->. cbn [app] in *. change (zlen (@nil Z)) with 0 in *. rewrite Hlen in *.
    exists b, e. split; [by right|]. split; [done|]. split; [lia|]. split; [lia|by apply Forall_app].
Qed.

Lemma until_space_pad l n k r :
  Forall (fun c => c <> 32) l -> zlen l <= Z.of_nat n -> Z.of_nat n <= zlen l + k ->
  until_space (l ++ replicate (Z.to_nat k) 32 ++ r) 0 n = l.
Proof.
  assert (forall p q m, until_space (p ++ q) (zlen p) m = until_space q 0 m) as Hshift.
  { intros p q m. enough (forall i, 0 <= i -> until_space (p ++ q) (zlen p + i) m = until_space q i m) as X.
    { rewrite <- (X 0); [f_equal|]; lia. }
    induction m as [|m IH]; intros i Hi; [done|]. cbn [until_space].
    rewrite at_app_r by lia. replace (zlen p + i - zlen p) with i by lia.
    destruct (at_ q i =? 32); [done|]. f_equal. rewrite <- IH by lia. f_equal. lia. }
  revert n. induction l as [|c l IH]; intros n Hf Hn Hk.
  - rewrite zlen_nil in *. destruct n as [|n]; [done|]. cbn [app until_space].
    destruct (Z.to_nat k) as [|m] eqn:Em; [lia|]. done.
  - rewrite zlen_cons in *. pose proof (zlen_nonneg l). destruct n as [|n]; [lia|].
    apply Forall_cons in Hf as [Hc Hf]. cbn [until_space]. cbn [app].
    change (at_ (c :: l ++ replicate (Z.to_nat k) 32 ++ r) 0) with c. rewrite (proj2 (Z.eqb_neq c 32)) by done.
    f_equal. rewrite <- (IH n Hf) at 2 by lia. rewrite <- (Hshift [c]). done.
Qed.

(** A name as users type one. *)
Record plain (name : list Z) : Prop := {
  pl_bytes : bytes_ok name;
  pl_chars : Forall (fun c => c <> 32) name;
  pl_slash : Forall (fun c => c <> 47) name;
  pl_last : last name <> Some 46;
  pl_first : head name <> Some 0xe5
}.


Lemma upper_ne c k : c <> k -> k < 65 -> upper c <> k.
Proof. intros Hc Hk E. apply Hc. by apply upper_special. Qed.

Lemma cstr_id l : Forall (fun c => c <> 0) l -> cstr l = l.
Proof.
  induction 1 as [|c l Hc Hl IH]; [done|]. cbn. rewrite (proj2 (Z.eqb_neq c 0)) by done. by rewrite IH.
Qed.

Lemma zlen_upper l : zlen (upper <$> l) = zlen l.
Proof. unfold zlen. by rewrite length_fmap. Qed.

Lemma until_space_at p q m : until_space (p ++ q) (zlen p) m = until_space q 0 m.
Proof.
  enough (forall i, 0 <= i -> until_space (p ++ q) (zlen p + i) m = until_space q i m) as X.
  { rewrite <- (X 0); [f_equal|]; lia. }
  induction m as [|m IH]; intros i Hi; [done|]. cbn [until_space].
  rewrite at_app_r by lia. replace (zlen p + i - zlen p) with i by lia.
  destruct (at_ q i =? 32); [done|]. f_equal. rewrite <- IH by lia. f_equal. lia.
Qed.

(** The entry [fat_create] writes for a name reads back as that name. *)
Lemma short_name_new name n83 :
  plain name -> make_83 name = Some n83 ->
  zlen n83 = 11 /\ name_eq (short_name (new_entry n83)) name = true
  /\ at_ n83 0 <> 0 /\ at_ n83 0 <> 0xe5.
Proof.
  intros [_ Hsp _ Hlast Hfirst] (b & e & Hname & -> & Hb & He & Hf)%make_83_spec.
  assert (Forall (fun c => c <> 32) (b ++ e)) as Hsp'.
  { destruct Hname as [[-> ->]| ->]; [by rewrite app_nil_r|]. apply Forall_app in Hsp as [H1 H2].
    apply Forall_cons in H2 as [_ H2]. by apply Forall_app. }
  apply Forall_app in Hsp' as [Hbs Hes]. apply Forall_app in Hf as [Hbf Hef].
  assert (forall l, Forall (fun c => c <> 32) l -> Forall (fun c => c <> 32) (upper <$> l)) as Hup.
  { intros l Hl. apply Forall_fmap. eapply Forall_impl; [exact Hl|]. intros c Hc. by apply upper_ne. }
  assert (forall l, Forall (fun c => upper c <> 47 /\ upper c <> 0) l -> Forall (fun c => c <> 0) (upper <$> l)) as Hnz.
  { intros l Hl. apply Forall_fmap. eapply Forall_impl; [exact Hl|]. by intros c []. }
  assert (forall n l, zlen l <= n -> zlen (pad_to n l) = n) as Hpad.
  { intros n l Hl. unfold pad_to. rewrite zlen_app. unfold zlen at 2. rewrite length_replicate. lia. }
  assert (zlen (pad_to 8 (upper <$> b)) = 8) as H8 by (apply Hpad; rewrite zlen_upper; lia).
  assert (zlen (pad_to 3 (upper <$> e)) = 3) as H3 by (apply Hpad; rewrite zlen_upper; lia).
  split; [rewrite zlen_app; lia|].
  assert (exists c b', b = c :: b') as (c0 & b' & Eb).
  { destruct b as [|c b]; [change (zlen (@nil Z)) with 0 in Hb; lia|eauto]. }
  assert (at_ (pad_to 8 (upper <$> b) ++ pad_to 3 (upper <$> e)) 0 = upper c0) as -> by (by rewrite Eb).
  split; [|split].
  - unfold short_name, new_entry. rewrite <- !app_assoc.
    set (rest := [32] ++ zeros 20).
    assert (until_space (pad_to 8 (upper <$> b) ++ pad_to 3 (upper <$> e) ++ rest) 0 8 = upper <$> b) as ->.
    { unfold pad_to at 1. rewrite <- app_assoc. apply until_space_pad; rewrite ?zlen_upper; auto; lia. }
    assert (at_ (pad_to 8 (upper <$> b) ++ pad_to 3 (upper <$> e) ++ rest) 8 = at_ (pad_to 3 (upper <$> e) ++ rest) 0) as ->.
    { rewrite at_app_r by lia. by rewrite H8. }
    assert (until_space (pad_to 8 (upper <$> b) ++ pad_to 3 (upper <$> e) ++ rest) 8 3 = upper <$> e) as ->.
    { rewrite <- H8 at 2. rewrite until_space_at. unfold pad_to. rewrite <- app_assoc.
      apply until_space_pad; rewrite ?zlen_upper; auto; lia. }
    destruct e as [|c1 e].
    + change (at_ (pad_to 3 (upper <$> []) ++ rest) 0) with 32. rewrite Z.eqb_refl, app_nil_r.
      rewrite cstr_id by auto. destruct Hname as [[-> _]| ->]; [apply name_eq_upper|].
      exfalso. apply Hlast. by rewrite last_snoc.
    + destruct Hname as [[_ ?]| ->]; [done|].
      change (at_ (pad_to 3 (upper <$> c1 :: e) ++ rest) 0) with (upper c1).
      apply Forall_cons in Hes as [Hc1 Hes]. rewrite (proj2 (Z.eqb_neq (upper c1) 32)) by (by apply upper_ne).
      rewrite cstr_id.
      * rewrite name_eq_app by apply name_eq_upper. apply (name_eq_upper (46 :: c1 :: e)).
      * apply Forall_app. split; [by apply Hnz|]. constructor; [done|]. by apply Hnz.
  - rewrite Eb in Hbf. by apply Forall_cons in Hbf as [[_ ?] _].
  - intros E. assert (c0 = 0xe5) as ->.
    { revert E. unfold upper. destruct (Z.leb_spec 97 c0), (Z.leb_spec c0 122); cbn [andb]; lia. }
    apply Hfirst. destruct Hname as [[-> _]| ->]; by rewrite Eb.
Qed.

(** ** Walks *)
Section dir.
Context {D : Type} `{BlockDevLaws D} (g : geom) (Hg : geom_ok g) (junk : list Z).

Abbreviation rd := (rd_sec g).
Abbreviation dsec := (dsec g).

(** A walk along a chain does not run out of fuel. *)
Lemma chain_length d c l : chain g d c l -> (length l <= Z.to_nat (total_clus g - 2))%nat.
Proof.
  intros Hch. pose proof (chain_nodup g _ _ _ Hch) as Hnd.
  rewrite <- (length_seqZ 2 (total_clus g - 2)). apply submseteq_length, NoDup_submseteq; [done|].
  intros x Hx. destruct (chain_used g _ _ _ _ Hch Hx) as [Hc _]. apply elem_of_seqZ. unfold clus_ok in Hc. lia.
Qed.

Lemma walk_chain_total {S R} (step : S -> Z -> Z -> Z -> list Z -> S + R) err d : forall l fuel st c,
  chain g d c l -> (length l <= fuel)%nat -> exists r, walk_chain g step err fuel d st c = Ret r.
Proof.
  induction l as [|x l IH]; intros fuel st c Hch Hf.
  - cbn in Hch. subst c. destruct fuel; cbn [walk_chain]; rewrite Z.eqb_refl; eauto.
  - destruct (chain_next g _ _ _ _ Hch) as (-> & Hc & Hn). cbn in Hf. destruct fuel as [|fuel]; [lia|].
    cbn [walk_chain]. destruct (c =? 0); [eauto|]. destruct (walk_sectors _ _ _ _ _ _ _ _); [|eauto].
    apply IH; [done|lia].
Qed.

(** Looking a name up terminates, whatever the sectors hold and whichever
    of them fail, in any directory whose clusters form a chain. *)
Theorem dir_find_terminates d dir l name : chain g d dir l -> exists r, dir_find g junk d dir name = Ret r.
Proof.
  intros Hch. unfold dir_find. pose proof (chain_length _ _ _ Hch). pose proof (go_tc g Hg).
  destruct (walk_chain_total (find_step name) None d l (chain_fuel g) (lfn_start junk) dir Hch) as [r ->].
  { unfold chain_fuel. lia. }
  cbn [obind]. destruct r; eauto.
Qed.

(** ** Creating and finding

    The two walks over the same directory: the search for a free slot, and the
    search for a name that is not there.  Where the first stops, the second
    finds the entry put there since. *)
Definition no_match (r : lfn + option fat_file) : Prop := forall f, r <> inr (Some f).

(** The entry at [i] of [b2] is one for [name]; the entries before are those
    of [b]. *)
Definition matches (name b b2 : list Z) (i : Z) : Prop :=
  (forall k, 0 <= k -> k + 32 <= i -> slice b2 k 32 = slice b k 32)
  /\ forall st c sec, find_step name st c sec i b2 = inr (Some (entry_file (slice b2 i 32) sec i)).

Lemma find_step_live name st c sec i b :
  zlen b = 512 -> 0 <= i -> i + 32 <= 512 ->
  at_ b i <> 0 -> no_match (find_step name st c sec i b) -> exists st', find_step name st c sec i b = inl st'.
Proof.
  intros Hl Hi Hi2 Hz Hn. unfold find_step in *. rewrite at_slice in * by lia. rewrite Z.add_0_r in *.
  rewrite (proj2 (Z.eqb_neq (at_ b i) 0)) in * by done.
  destruct (at_ b i =? 0xe5); [eauto|]. destruct (Z.land _ _ =? _); [eauto|].
  destruct (negb _); [eauto|]. destruct (name_eq _ _ || _); [|eauto]. by destruct (Hn _ eq_refl).
Qed.

Lemma find_step_ext name st c sec i b b2 :
  slice b2 i 32 = slice b i 32 -> find_step name st c sec i b2 = find_step name st c sec i b.
Proof. intros E. unfold find_step. by rewrite E. Qed.

Lemma entries_create name b c sec n : zlen b = 512 -> forall last i st,
  0 <= i -> i + 32 * Z.of_nat n <= 512 -> i mod 32 = 0 ->
  no_match (walk_entries (find_step name) st c sec b i n) ->
  match walk_entries slot_step last c sec b i n with
  | inl _ => exists st', walk_entries (find_step name) st c sec b i n = inl st'
  | inr None => False
  | inr (Some (sec', i', b')) => sec' = sec /\ b' = b /\ i <= i' /\ i' + 32 <= 512 /\ i' mod 32 = 0
      /\ forall b2, matches name b b2 i' ->
           walk_entries (find_step name) st c sec b2 i n = inr (Some (entry_file (slice b2 i' 32) sec i'))
  end.
Proof.
  intros Hl. induction n as [|n IH]; intros last i st Hi Hn Hm Hno; cbn [walk_entries] in *; [eauto|].
  unfold slot_step at 1.
  destruct (Z.eqb_spec (at_ b i) 0) as [Hz|Hz]; cbn [negb andb].
  2: destruct (Z.eqb_spec (at_ b i) 0xe5) as [He|He]; cbn [negb andb].
  1, 2: repeat split; try done; try lia; intros b2 [_ Hb2]; by rewrite Hb2.
  destruct (find_step_live name st c sec i b) as [st' E]; [done|lia|lia|done| |].
  { intros f E. rewrite E in Hno. by apply (Hno f). }
  rewrite E in Hno |- *. specialize (IH c (i + 32) st' ltac:(lia) ltac:(lia)).
  assert ((i + 32) mod 32 = 0) as Hm' by zdm. specialize (IH Hm' Hno).
  destruct (walk_entries slot_step c c sec b (i + 32) n) as [|[[[sec' i'] b']|]]; [done| |done].
  destruct IH as (-> & -> & Hii & Hi2 & Hmm & IH). repeat split; try done; try lia.
  intros b2 Hb2. pose proof Hb2 as [Hpre _]. rewrite (find_step_ext name st c sec i b b2), E by (apply Hpre; lia). by apply IH.
Qed.

Lemma sectors_create name d c n : clus_ok g c -> forall last s st,
  0 <= s -> s + Z.of_nat n <= sec_per_clus g ->
  no_match (walk_sectors g (find_step name) None d st c s n) ->
  match walk_sectors g slot_step None d last c s n with
  | inl _ => exists st', walk_sectors g (find_step name) None d st c s n = inl st'
  | inr None => True
  | inr (Some (sec, i, b)) => exists k, sec = dsec c k /\ s <= k < s + Z.of_nat n /\ rd d sec = Some b
      /\ 0 <= i /\ i + 32 <= 512
      /\ forall d2 b2, matches name b b2 i -> rd d2 sec = Some b2 ->
           (forall k', s <= k' < k -> rd d2 (dsec c k') = rd d (dsec c k')) ->
           walk_sectors g (find_step name) None d2 st c s n = inr (Some (entry_file (slice b2 i 32) sec i))
  end.
Proof.
  intros Hc. induction n as [|n IH]; intros last s st Hs Hn Hno; cbn [walk_sectors] in *; [eauto|].
  change (clus_sector g c + s) with (dsec c s) in *.
  destruct (rd d (dsec c s)) as [b|] eqn:Eb; [|done].
  destruct (rd_sector_ok g _ _ _ Eb) as [Hl _]. unfold SECTOR in Hl.
  pose proof (entries_create name b c (dsec c s) 16 Hl last 0 st) as He.
  assert (no_match (walk_entries (find_step name) st c (dsec c s) b 0 16)) as Hno1.
  { intros f E. rewrite E in Hno. by apply (Hno f). }
  specialize (He ltac:(lia) ltac:(lia) eq_refl Hno1).
  destruct (walk_entries slot_step last c (dsec c s) b 0 16) as [last'|[[[sec i] b']|]] eqn:Es; [| |done].
  - destruct He as [st' E]. rewrite E in Hno |- *. specialize (IH last' (s + 1) st' ltac:(lia) ltac:(lia) Hno).
    destruct (walk_sectors g slot_step None d last' c (s + 1) n) as [|[[[sec i] b']|]]; [done| |done].
    destruct IH as (k & -> & Hk & Hr & Hi & Hi2 & IH). exists k. repeat split; try done; try lia.
    intros d2 b2 Hm Hr2 Hpre. rewrite (Hpre s), Eb, E by lia. apply IH; [done|done|]. intros k' Hk'. apply Hpre. lia.
  - destruct He as (-> & -> & Hi & Hi2 & _ & IHe). exists s. repeat split; try done; try lia.
    intros d2 b2 Hm Hr2 _. by rewrite Hr2, IHe.
Qed.

(** The search for a slot ends in the cluster it last looked at. *)
Lemma slot_entries_last n : forall last c sec b i last',
  walk_entries slot_step last c sec b i n = inl last' -> n = 0%nat \/ last' = c.
Proof.
  induction n as [|n IH]; intros last c sec b i last' E; [by left|right]. cbn [walk_entries] in E. unfold slot_step at 1 in E.
  destruct (negb _ && negb _); [|done]. destruct (IH _ _ _ _ _ _ E) as [->|]; [by injection E as <-|done].
Qed.
Lemma slot_sectors_last n : forall d last c s last',
  walk_sectors g slot_step None d last c s n = inl last' -> n = 0%nat \/ last' = c.
Proof.
  induction n as [|n IH]; intros d last c s last' E; [by left|right]. cbn [walk_sectors] in E.
  destruct (rd_sec g d _); [|done]. destruct (walk_entries _ _ _ _ _ _ _) as [a1|] eqn:Ee; [|done].
  destruct (slot_entries_last _ _ _ _ _ _ _ Ee) as [?| ->]; [done|].
  destruct (IH _ _ _ _ _ E) as [->|]; [by injection E as <-|done].
Qed.

(** A walk over one cluster reads nothing else. *)
Lemma walk_sectors_ext {S R} (step : S -> Z -> Z -> Z -> list Z -> S + R) err d d2 c n : forall s st,
  (forall k, s <= k < s + Z.of_nat n -> rd d2 (dsec c k) = rd d (dsec c k)) ->
  walk_sectors g step err d2 st c s n = walk_sectors g step err d st c s n.
Proof.
  induction n as [|n IH]; intros s st He; [done|]. cbn [walk_sectors].
  change (clus_sector g c + s) with (dsec c s). rewrite (He s) by lia.
  destruct (rd d (dsec c s)); [|done]. destruct (walk_entries _ _ _ _ _ _ _); [|done].
  apply IH. intros k Hk. apply He. lia.
Qed.

Lemma chain_create name d : forall l fuel last st c,
  chain g d c l -> (length l <= fuel)%nat ->
  (forall r, walk_chain g (find_step name) None fuel d st c = Ret r -> no_match r) ->
  forall r, walk_chain g slot_step None fuel d last c = Ret r ->
  match r with
  | inl last' => (exists st', walk_chain g (find_step name) None fuel d st c = Ret (inl st'))
      /\ (l = [] /\ last' = last \/ exists l0, l = l0 ++ [last'])
  | inr None => True
  | inr (Some (sec, i, b)) => exists x k, x ∈ l /\ sec = dsec x k /\ 0 <= k < sec_per_clus g /\ rd d sec = Some b
      /\ 0 <= i /\ i + 32 <= 512
      /\ forall d2 b2, matches name b b2 i -> rd d2 sec = Some b2 -> chain g d2 c l ->
           (forall y k', y ∈ l -> 0 <= k' < sec_per_clus g -> dsec y k' <> sec -> rd d2 (dsec y k') = rd d (dsec y k')) ->
           walk_chain g (find_step name) None fuel d2 st c = Ret (inr (Some (entry_file (slice b2 i 32) sec i)))
  end.
Proof.
  induction l as [|x l IH]; intros fuel last st c Hch Hf Hno r Hr.
  { cbn in Hch. subst c. destruct fuel; cbn [walk_chain] in *; rewrite Z.eqb_refl in *; injection Hr as <-;
      (split; [eauto|by left]). }
  destruct (chain_next g _ _ _ _ Hch) as (-> & Hc & Hn). cbn [length] in Hf. destruct fuel as [|fuel]; [lia|].
  pose proof (chain_nodup g _ _ _ Hch) as [Hxl _]%NoDup_cons. pose proof (go_spc g Hg).
  cbn [walk_chain] in *. rewrite (proj2 (Z.eqb_neq c 0)) in * by (unfold clus_ok in Hc; lia).
  pose proof (sectors_create name d c (Z.to_nat (sec_per_clus g)) Hc last 0 st ltac:(lia) ltac:(lia)) as Hs.
  assert (no_match (walk_sectors g (find_step name) None d st c 0 (Z.to_nat (sec_per_clus g)))) as Hno1.
  { intros f E. rewrite E in Hno. by apply (Hno _ eq_refl f). }
  specialize (Hs Hno1).
  destruct (walk_sectors g slot_step None d last c 0 _) as [last'|[[[sec i] b]|]] eqn:Es.
  - destruct Hs as [st' E]. rewrite E in Hno |- *. specialize (IH fuel last' st' _ Hn ltac:(lia) Hno r Hr).
    assert (last' = c) as El by (destruct (slot_sectors_last _ _ _ _ _ _ Es); [lia|done]).
    destruct r as [last2|[[[sec i] b]|]]; [| |done].
    + destruct IH as [IH1 IH2]. split; [done|right]. destruct IH2 as [[-> ->]|[l0 ->]]; [by exists []; rewrite El|by exists (c :: l0)].
    + destruct IH as (y & k & Hy & -> & Hk & Hrd & Hi & Hi2 & IH). exists y, k.
      split; [by right|]. repeat split; try done; try lia. intros d2 b2 Hm Hr2 Hch2 Hpre.
      assert (y <> c) as Hyc by (intros ->; done).
      assert (clus_ok g y) as Hyok by (exact (proj1 (chain_used g d _ _ y Hn Hy))).
      assert (walk_sectors g (find_step name) None d2 st c 0 (Z.to_nat (sec_per_clus g)) = inl st') as E2.
      { rewrite <- E. apply walk_sectors_ext. intros k' Hk'. apply Hpre; [by left|lia|].
        intros E'. apply (dsec_inj g Hg) in E' as [-> _]; [done|done|done|lia|lia]. }
      rewrite E2. destruct (chain_next g _ _ _ _ Hch2) as (_ & _ & Hn2).
      assert (fat_next g d2 c = fat_next g d c) as En.
      { destruct l as [|z l]; [by apply not_elem_of_nil in Hy|]. destruct Hn as (-> & _). destruct Hn2 as (<- & _). done. }
      rewrite En in *. apply IH; [done|done|done|]. intros z k' Hz. apply Hpre. by right.
  - injection Hr as <-. destruct Hs as (k & -> & Hk & Hrd & Hi & Hi2 & IHs). exists c, k.
    split; [by left|]. repeat split; try done; try lia. intros d2 b2 Hm Hr2 Hch2 Hpre.
    rewrite IHs with (b2 := b2); [done|done|done|]. intros k' Hk'. apply Hpre; [by left|lia|].
    intros E. apply (dsec_inj g Hg) in E as [_ ?]; [lia|done|done|lia|lia].
  - injection Hr as <-. done.
Qed.

Lemma walk_chain_grown {S R} (step : S -> Z -> Z -> Z -> list Z -> S + R) err d d2 n r : forall l fuel fuel2 st c st',
  chain g d c l -> chain g d2 c (l ++ [n]) ->
  (forall x k, x ∈ l -> 0 <= k < sec_per_clus g -> rd d2 (dsec x k) = rd d (dsec x k)) ->
  walk_chain g step err fuel d st c = Ret (inl st') -> (length l < fuel2)%nat ->
  (forall st, walk_sectors g step err d2 st n 0 (Z.to_nat (sec_per_clus g)) = inr r) ->
  walk_chain g step err fuel2 d2 st c = Ret (inr r).
Proof.
  pose proof (go_spc g Hg).
  induction l as [|x l IH]; intros fuel fuel2 st c st' Hch Hch2 Hd E Hf Hn; cbn [length app] in *;
    destruct fuel2 as [|fuel2]; try lia; cbn [walk_chain].
  - destruct Hch2 as (-> & Hc & _). rewrite (proj2 (Z.eqb_neq c 0)) by (unfold clus_ok in Hc; lia). by rewrite Hn.
  - destruct (chain_next g _ _ _ _ Hch) as (-> & Hc & Hnx). destruct (chain_next g _ _ _ _ Hch2) as (_ & _ & Hnx2).
    assert (c <> 0) as Hc0 by (unfold clus_ok in Hc; lia). rewrite (proj2 (Z.eqb_neq c 0)) by done.
    destruct fuel as [|fuel]; cbn [walk_chain] in E; rewrite (proj2 (Z.eqb_neq c 0)) in E by done; [done|].
    rewrite (walk_sectors_ext step err d d2) by (intros k Hk; apply Hd; [by left|lia]).
    destruct (walk_sectors g step err d st c 0 _) as [st1|]; [|done].
    assert (walk_chain g step err fuel d st1 (fat_next g d c) = Ret (inl st')) as E1 by done.
    destruct l as [|y l].
    + destruct Hnx2 as (-> & Hn2). destruct fuel2 as [|fuel2]; [cbn in Hf; lia|]. cbn [walk_chain].
      destruct Hn2 as [Hn2 _]. rewrite (proj2 (Z.eqb_neq _ 0)) by (unfold clus_ok in Hn2; lia). by rewrite Hn.
    + assert (fat_next g d2 c = fat_next g d c) as En by (pose proof (proj1 Hnx); pose proof (proj1 Hnx2); congruence).
      rewrite En in *. eapply IH; [done|done| |exact E1|lia|done]. intros z k Hz. apply Hd. by right.
Qed.

(** *** The entry *)
Lemma new_entry_file n83 sec i : zlen n83 = 11 -> entry_file (new_entry n83) sec i = FatFile 0 0 false sec i.
Proof.
  unfold zlen. intros Hl. do 11 (destruct n83 as [|? n83]; [cbn in Hl; lia|]).
  destruct n83; [reflexivity|cbn in Hl; lia].
Qed.
Lemma new_entry_len n83 : zlen n83 = 11 -> zlen (new_entry n83) = 32.
Proof. intros Hl. unfold new_entry. rewrite !zlen_app, Hl. done. Qed.
Lemma new_entry_attr n83 : zlen n83 = 11 -> at_ (new_entry n83) 11 = 0x20.
Proof. intros Hl. unfold new_entry. rewrite at_app_r by lia. by rewrite Hl. Qed.

Lemma new_entry_matches name n83 b i :
  plain name -> make_83 name = Some n83 -> zlen b = 512 -> 0 <= i -> i + 32 <= 512 ->
  matches name b (splice b i (new_entry n83)) i /\ slice (splice b i (new_entry n83)) i 32 = new_entry n83.
Proof.
  intros Hp Hm Hl Hi Hi2. destruct (short_name_new name n83 Hp Hm) as (H11 & Heq & Hz & He5).
  pose proof (new_entry_len n83 H11) as H32.
  assert (slice (splice b i (new_entry n83)) i 32 = new_entry n83) as Es.
  { rewrite <- H32. apply (slice_splice_eq b i _ 512); lia. }
  split; [|done]. split.
  - intros k Hk Hki. apply (slice_splice_ne b i _ k 32 512); lia.
  - intros st c sec. unfold find_step. rewrite Es.
    assert (at_ (new_entry n83) 0 = at_ n83 0) as -> by (unfold new_entry; apply at_app_l; lia).
    rewrite new_entry_attr, (proj2 (Z.eqb_neq (at_ n83 0) 0)), (proj2 (Z.eqb_neq (at_ n83 0) 0xe5)), Heq by done.
    done.
Qed.

Lemma take_part_all p n : Forall (fun c => c <> 47) p -> (length p <= n)%nat -> take_part p n = (p, []).
Proof.
  intros Hp. revert n. induction Hp as [|c p Hc Hp IH]; intros n Hn; [by destruct n|].
  destruct n as [|n]; [cbn in Hn; lia|]. cbn. rewrite (proj2 (Z.eqb_neq c 47)) by done. rewrite IH; [done|cbn in Hn; lia].
Qed.
Lemma split_last_none p : Forall (fun c => c <> 47) p -> split_last p = (None, p).
Proof. induction 1 as [|c p Hc Hp IH]; [done|]. cbn. rewrite IH. by rewrite (proj2 (Z.eqb_neq c 47)). Qed.

(** Opening a name in the root directory is looking it up there. *)
Lemma fat_open_root d name :
  Forall (fun c => c <> 47) name -> name <> [] -> (length name <= 63)%nat ->
  fat_open g junk d name = dir_find g junk d (root_clus g) name.
Proof.
  intros Hs Hne Hl. unfold fat_open.
  assert (skip_slashes name = name) as ->.
  { destruct name as [|c name]; [done|]. apply Forall_cons in Hs as [Hc _]. cbn. by rewrite (proj2 (Z.eqb_neq c 47)). }
  destruct (length name) as [|n] eqn:En; [by destruct name|]. rewrite <- En in *. rewrite En at 1. cbn [open_loop].
  destruct name as [|c name]; [done|]. rewrite take_part_all by done. cbn [skip_slashes].
  rewrite (proj2 (Z.eqb_neq _ 0)) by (rewrite zlen_cons; pose proof (zlen_nonneg name); lia). cbn [ff_is_dir root_file negb].
  assert (dir_cluster g (root_file g) = root_clus g) as ->.
  { unfold dir_cluster, root_file. cbn. destruct (Z.eqb_spec (root_clus g) 0); congruence. }
  destruct (dir_find g junk d (root_clus g) (c :: name)) as [[f|]| |]; [|done..]. cbn [obind]. by destruct n.
Qed.

Lemma make_83_chars name n83 : make_83 name = Some n83 ->
  Forall (fun c => c <> 47) name /\ name <> [] /\ (length name <= 12)%nat.
Proof.
  intros (b & e & Hname & _ & Hb & He & Hf)%make_83_spec. unfold zlen in *.
  assert (Forall (fun c => c <> 47) (b ++ e)) as Hs.
  { eapply Forall_impl; [exact Hf|]. intros c [Hc _] ->. by apply Hc. }
  destruct Hname as [[-> ->]| ->].
  - rewrite app_nil_r in Hs. split; [done|]. split; [intros ->; cbn in Hb; lia|lia].
  - apply Forall_app in Hs as [H1 H2]. split; [apply Forall_app; split; [done|constructor; [lia|done]]|].
    split; [by destruct b|]. rewrite length_app. cbn. lia.
Qed.

Lemma make_83_bytes name n83 : bytes_ok name -> make_83 name = Some n83 -> bytes_ok n83.
Proof.
  intros Hb (b & e & Hname & -> & _)%make_83_spec.
  assert (bytes_ok b /\ bytes_ok e) as [H1' H2'].
  { destruct Hname as [[-> ->]| ->]; [done|]. apply Forall_app in Hb as [? Hb]. by apply Forall_cons in Hb as [_ ?]. }
  assert (forall l n, bytes_ok l -> bytes_ok (pad_to n (upper <$> l))) as Hp.
  { intros l n Hl. unfold pad_to. apply Forall_app. split; [|apply Forall_replicate; unfold is_byte; lia].
    apply Forall_fmap. eapply Forall_impl; [exact Hl|]. intros c Hc. unfold is_byte, upper in *. cbn.
    destruct (_ && _) eqn:E; [|done]. apply andb_true_iff in E as [?%Z.leb_le ?%Z.leb_le]. lia. }
  apply Forall_app. split; by apply Hp.
Qed.

Lemma new_sector_ok name n83 b i :
  plain name -> make_83 name = Some n83 -> sector_ok b -> 0 <= i -> i + 32 <= 512 ->
  sector_ok (splice b i (new_entry n83)).
Proof.
  intros Hp Hm [Hl Hb] Hi Hi2. destruct (short_name_new name n83 Hp Hm) as (H11 & _).
  pose proof (new_entry_len n83 H11) as H32. unfold SECTOR in Hl. split.
  - unfold SECTOR. rewrite zlen_splice; lia.
  - apply splice_bytes; [done|]. unfold new_entry. apply Forall_app. split.
    + eapply make_83_bytes; [apply Hp|done].
    + repeat (constructor; [unfold is_byte; lia|]). constructor.
Qed.

(** The entry put first into a cluster added to the directory is found. *)
Lemma create_grown name n83 d d1 d2 d3 l0 c last nc st b :
  chain g d c (l0 ++ [last]) -> plain name -> make_83 name = Some n83 ->
  (exists st', walk_chain g (find_step name) None (chain_fuel g) d st c = Ret (inl st')) ->
  clus_alloc g d = (nc, d1) -> nc <> 0 -> fat_set g d1 last nc = (true, d2) ->
  rd d2 (clus_sector g nc) = Some b -> wr_sec g d2 (clus_sector g nc) (splice b 0 (new_entry n83)) = Some d3 ->
  walk_chain g (find_step name) None (chain_fuel g) d3 st c
    = Ret (inr (Some (FatFile 0 0 false (clus_sector g nc) 0))).
Proof.
  intros Hch Hpl E83 [st' Hst] Ea Hnc Es Eb Ew.
  destruct (clus_alloc_spec g Hg _ _ _ Ea) as [K1 Hal]. destruct (Hal Hnc) as [Hok Hfree Heoc _ Hval1 _]. clear Hal.
  destruct (chain_used g _ _ _ last Hch) as [Hlok _]; [apply elem_of_app; right; by left|].
  pose proof (fat_set_spec g Hg _ _ _ _ _ Es Hlok) as Hset. pose proof (go_tc g Hg) as Htc. pose proof (go_spc g Hg) as Hspc.
  assert (nc ∉ l0 ++ [last]) as Hni.
  { intros Hin. by apply (chain_used_ne g _ _ _ _ Hch Hin). }
  assert (0 <= nc < 2 ^ 28) as Hncr by (unfold clus_ok, EOC in *; lia).
  assert (sector_ok b) as Hbok by (by eapply rd_sector_ok).
  assert (clus_sector g nc = dsec nc 0) as Esec by (unfold FatTable.dsec; lia).
  rewrite Esec in *.
  destruct (data_write g Hg d2 nc 0 _ d3 Hok ltac:(lia) (new_sector_ok _ _ b 0 Hpl E83 Hbok ltac:(lia) ltac:(lia)) Ew) as [Hval3 Hdat3].
  assert (chain g d3 c (l0 ++ [last; nc])) as Hch3.
  { apply chain_same with (d := d2).
    - apply (chain_extend g Hg d1 d2); [|done|done|done| |].
      + eapply chain_keeps; [exact Hch|exact K1|]. intros; apply not_elem_of_nil.
      + by apply (set_val_eq g Hg _ _ _ _ Hset).
      + intros y Hy Hyl. by eapply (set_val_ne g Hg); [exact Hset|..].
    - intros x Hx. apply Hval3. apply elem_of_app in Hx as [Hx|Hx].
      + eapply chain_used; [exact Hch|]. apply elem_of_app. by left.
      + apply elem_of_cons in Hx as [->|Hx]; [done|]. by apply list_elem_of_singleton in Hx as ->. }
  destruct Hbok as [Hbl _]. unfold SECTOR in Hbl.
  destruct (new_entry_matches name n83 b 0 Hpl E83) as [[_ Hm] Hsl]; [done|lia|lia|].
  destruct (short_name_new name n83 Hpl E83) as (H11 & _).
  eapply walk_chain_grown with (d := d) (l := l0 ++ [last]) (n := nc); [exact Hch| | |exact Hst| |].
  - rewrite <- app_assoc. exact Hch3.
  - intros x k Hx Hk. destruct (chain_used g _ _ _ x Hch Hx) as [Hxok _].
    rewrite Hdat3 by done. destruct (Z.eqb_spec x nc) as [->|]; [done|]. cbn [andb].
    rewrite (set_data g Hg _ _ _ _ _ _ _ Hset) by done.
    apply K1; [done|apply not_elem_of_nil|by eapply chain_used_ne|done].
  - pose proof (chain_length _ _ _ Hch). unfold chain_fuel. lia.
  - intros st2. destruct (Z.to_nat (sec_per_clus g)) as [|n] eqn:En; [lia|]. cbn [walk_sectors].
    rewrite Esec, Z.add_0_r, Hdat3, !Z.eqb_refl by (done || lia). cbn [andb].
    change 16%nat with (S 15). cbn [walk_entries]. rewrite Hm, Hsl, new_entry_file by done. done.
Qed.

(** C20: what is created is found.  In a root directory of any length, if a name
    without spaces or a final dot is not there and [fat_create] makes it, in a
    free slot or in a cluster it adds, then [fat_open] finds it: the new, empty
    file, at the very entry that was written. *)
Theorem fat_create_opens d l name f d' :
  chain g d (root_clus g) l -> root_clus g <> 0 -> plain name ->
  fat_create g junk d name = Ret (Some f, d') ->
  fat_open g junk d' name = Ret (Some f) /\ ff_size f = 0 /\ ff_is_dir f = false.
Proof.
  intros Hch Hroot Hpl E. pose proof (pl_slash _ Hpl) as Hns. unfold fat_create in E.
  destruct (fat_open g junk d name) as [[f0|]| |] eqn:Eo; cbn [obind] in E; [done| |done..].
  assert (skip_slashes name = name) as Hsk.
  { destruct name as [|c name]; [done|]. apply Forall_cons in Hns as [Hc _]. cbn. by rewrite (proj2 (Z.eqb_neq c 47)). }
  rewrite Hsk, split_last_none in E by done. cbn [parent_dir obind] in E.
  destruct (make_83 name) as [n83|] eqn:E83; [|done].
  destruct (make_83_chars _ _ E83) as (_ & Hne & Hlen). rewrite fat_open_root in Eo by (done || lia).
  rewrite (fat_open_root d' name) by (done || lia).
  pose proof (go_tc g Hg) as Htc. pose proof (chain_length _ _ _ Hch) as Hcl.
  assert (length l <= chain_fuel g)%nat as Hfuel by (unfold chain_fuel; lia).
  destruct (walk_chain g slot_step None (chain_fuel g) d (root_clus g) (root_clus g)) as [r| |] eqn:Ew; cbn [obind] in E; [|done..].
  unfold dir_find in Eo.
  assert (forall r, walk_chain g (find_step name) None (chain_fuel g) d (lfn_start junk) (root_clus g) = Ret r -> no_match r) as Hno.
  { intros r' Er f'. rewrite Er in Eo. cbn [obind] in Eo. intros ->. done. }
  pose proof (chain_create name d l (chain_fuel g) (root_clus g) (lfn_start junk) _ Hch Hfuel Hno r Ew) as Hcc.
  destruct r as [last_c|[[[sec i] b]|]]; [| |done].
  - destruct Hcc as [[st' Hst] Hlast].
    destruct Hlast as [[-> _]|[l0 ->]]; [by apply (chain_nonzero g) in Hch; destruct Hroot; apply Hch|].
    destruct (clus_alloc g d) as [nc d1] eqn:Ea. destruct (Z.eqb_spec nc 0); [done|].
    destruct (fat_set g d1 last_c nc) as [[] d2] eqn:Es; [|done].
    destruct (rd_sec g d2 (clus_sector g nc)) as [b|] eqn:Eb; [|done].
    destruct (wr_sec g d2 (clus_sector g nc) _) as [d3|] eqn:Ewr; [|done]. injection E as <- <-. split; [|done].
    unfold dir_find. by rewrite (create_grown _ _ _ _ _ _ _ _ _ _ _ _ Hch Hpl E83 (ex_intro _ st' Hst) Ea ltac:(done) Es Eb Ewr).
  - destruct Hcc as (x & k & Hx & -> & Hk & Hb & Hi & Hi2 & Hfind).
    destruct (wr_sec g d (dsec x k) _) as [d1|] eqn:Ewr; [|done]. injection E as <- <-. split; [|done].
    destruct (rd_sector_ok g _ _ _ Hb) as [Hbl Hbb]. unfold SECTOR in Hbl.
    destruct (short_name_new name n83 Hpl E83) as (H11 & _). pose proof (new_entry_len n83 H11) as H32.
    destruct (new_entry_matches name n83 b i Hpl E83) as [Hm Hsl]; [done..|].
    destruct (chain_used g _ _ _ _ Hch Hx) as [Hxok _].
    destruct (data_write g Hg d x k _ d1 Hxok Hk (new_sector_ok _ _ _ _ Hpl E83 (conj Hbl Hbb) Hi Hi2) Ewr) as [Hval Hdat].
    unfold dir_find. rewrite (Hfind d1 _ Hm); [|by rewrite Hdat, !Z.eqb_refl| |].
    + cbn [obind]. rewrite Hsl, new_entry_file by done. done.
    + eapply chain_same; [exact Hch|]. intros y Hy. apply Hval. by eapply chain_used.
    + intros y k' Hy Hk' Hne'. rewrite Hdat by (done || by eapply chain_used).
      destruct (Z.eqb_spec y x) as [->|]; [|done]. destruct (Z.eqb_spec k' k) as [->|]; done.
Qed.
End dir.

Lemma fat_create_opens_witness :
  exists f d', fat_create g0 [] d0 (str "hello.txt") = Ret (Some f, d') /\ fat_open g0 [] d' (str "hello.txt") = Ret (Some f).
Proof.
  exists (FatFile 0 0 false 3 0),
    (match fat_create g0 [] d0 (str "hello.txt") with Ret (_, d) => d | _ => d0 end).
  assert (fat_create g0 [] d0 (str "hello.txt")
    = Ret (Some (FatFile 0 0 false 3 0), match fat_create g0 [] d0 (str "hello.txt") with Ret (_, d) => d | _ => d0 end)) as E
    by (vm_compute; reflexivity).
  split; [exact E|].
  apply (fat_create_opens g0 g0_ok [] d0 [2] (str "hello.txt") _ _) with (4 := E).
  - split; [reflexivity|]. split; [unfold clus_ok; cbn; lia|]. exists EOC. split; [vm_compute; reflexivity|]. split; [unfold EOC; lia|reflexivity].
  - discriminate.
  - let x := eval vm_compute in (str "hello.txt") in change (str "hello.txt") with x.
    split; [| | |discriminate|discriminate].
    + repeat (constructor; [unfold is_byte; lia|]). constructor.
    + repeat (constructor; [discriminate|]). constructor.
    + repeat (constructor; [discriminate|]). constructor.
Defined.

(** ** What other names and a damaged table do

    [make_83] accepts a space inside a name and a final dot, which the reader
    takes for padding: the file is made, cannot be opened, and is made again. *)
Theorem odd_names_lost :
  (forall name, name = str "a b" \/ name = str "foo." ->
    exists f d1 f2 d2, fat_create g0 [] d0 name = Ret (Some f, d1)
      /\ fat_open g0 [] d1 name = Ret None
      /\ fat_create g0 [] d1 name = Ret (Some f2, d2) /\ ff_dir_off f2 <> ff_dir_off f).
Proof.
  intros name Hname.
  exists (FatFile 0 0 false 3 0), (match fat_create g0 [] d0 name with Ret (_, d) => d | _ => d0 end),
    (FatFile 0 0 false 3 32),
    (match fat_create g0 [] d0 name with Ret (_, d) => match fat_create g0 [] d name with Ret (_, d) => d | _ => d0 end | _ => d0 end).
  destruct Hname as [-> | ->]; (split; [vm_compute; reflexivity|split; [vm_compute; reflexivity|split; [vm_compute; reflexivity|discriminate]]]).
Qed.

(** A lookup in a directory whose table entry points back at it never ends,
    however long one waits. *)
Lemma walk_ring {D} `{BlockDevLaws D} {S R} g (step : S -> Z -> Z -> Z -> list Z -> S + R) err d st c :
  c <> 0 -> fat_next g d c = c -> walk_sectors g step err d st c 0 (Z.to_nat (sec_per_clus g)) = inl st ->
  forall fuel, walk_chain g step err fuel d st c = Diverge.
Proof.
  intros Hc Hn Hs. induction fuel as [|fuel IH]; cbn [walk_chain]; rewrite (proj2 (Z.eqb_neq c 0)) by done; [done|].
  by rewrite Hs, Hn.
Qed.

Definition ring_disk : ramdisk :=
  default d0 (wr_sec g0 (snd (fat_set g0 d0 2 2)) 3 (replicate 512 0xe5)).

Theorem ring_never_ends name fuel :
  walk_chain g0 (find_step name) None fuel ring_disk (lfn_start []) 2 = Diverge.
Proof.
  apply walk_ring; [done|vm_compute; reflexivity|vm_compute; reflexivity].
Qed.

Lemma dir_find_terminates_witness : exists r, dir_find g0 [] d0 2 (str "x") = Ret r.
Proof.
  apply (dir_find_terminates g0 g0_ok [] d0 2 [2] (str "x")).
  split; [reflexivity|]. split; [unfold clus_ok; cbn; lia|]. exists EOC.
  split; [vm_compute; reflexivity|]. split; [unfold EOC; lia|reflexivity].
Defined.
