(* ===== verification/File.v ===== *)
(** * Open files and pipes

    [stam/file.c] over the scheduler of [Sched], the archive of [Cpio] and the
    disk of [Fat].  The console and the network are behind the class
    [Channels]: file.c only calls them.  A section under the scheduler lock is
    one step; a section that ends in [thread_block_on_pipe] says [Block], and
    running it again is what the thread does once it is woken. *)
From stdpp Require Import strings.
From S2P Require Import Prelude Bytes Disk Cpio Gpt Sched Fat.
Open Scope Z_scope.

Definition NPIPE : nat := 8.
Definition NFILE : nat := 32.
Definition PIPE_SIZE : Z := 4096.
Definition NMEM : nat := 4.
Definition MEM_SIZE : Z := 4096.
Definition NAME_MAX : nat := 32.

Inductive fkind :=
  FILE_FREE | FILE_CONSOLE | FILE_PIPE_R | FILE_PIPE_W | FILE_INITRD | FILE_MEM
  | FILE_FAT | FILE_FATDIR | FILE_UDP | FILE_TCP.
#[global] Instance fkind_eq_dec : EqDecision fkind.
Proof. solve_decision. Defined.

Inductive open_mode := OPEN_READ | OPEN_WRITE | OPEN_APPEND.
#[global] Instance open_mode_eq_dec : EqDecision open_mode.
Proof. solve_decision. Defined.

(** [pipe_t] *)
Record pipe := Pipe {
  p_buf : list Z; p_head : Z; p_tail : Z; p_readers : Z; p_writers : Z; p_used : bool
}.
(** [memfile_t] *)
Record memfile := MemFile { m_name : list Z; m_data : list Z; m_len : Z; m_used : bool }.
(** [struct file]; pipes and memory files by number, [ro] by its offset in the
    archive, sockets by the numbers the network gives them. *)
Record file := File {
  f_refs : Z; f_kind : fkind; f_pipe : option nat; f_mem : option nat;
  f_ro : Z; f_ro_len : Z; f_fat : fat_file; f_sock : option Z; f_conn : option Z;
  f_writable : bool; f_pos : Z
}.

Definition eta_pipe (p : pipe) : pipe := Pipe (p_buf p) (p_head p) (p_tail p) (p_readers p) (p_writers p) (p_used p).
Definition with_head v p : pipe := ltac:(field_set p_head eta_pipe v p).
Definition with_buf v p : pipe := ltac:(field_set p_buf eta_pipe v p).
Definition with_tail v p : pipe := ltac:(field_set p_tail eta_pipe v p).
Definition with_readers v p : pipe := ltac:(field_set p_readers eta_pipe v p).
Definition with_writers v p : pipe := ltac:(field_set p_writers eta_pipe v p).
Definition with_used v p : pipe := ltac:(field_set p_used eta_pipe v p).

Definition eta_file (f : file) : file :=
  File (f_refs f) (f_kind f) (f_pipe f) (f_mem f) (f_ro f) (f_ro_len f) (f_fat f) (f_sock f) (f_conn f) (f_writable f) (f_pos f).
Definition with_refs v f : file := ltac:(field_set f_refs eta_file v f).
Definition with_kind v f : file := ltac:(field_set f_kind eta_file v f).
Definition with_pipe v f : file := ltac:(field_set f_pipe eta_file v f).
Definition with_mem v f : file := ltac:(field_set f_mem eta_file v f).
Definition with_ro v f : file := ltac:(field_set f_ro eta_file v f).
Definition with_ro_len v f : file := ltac:(field_set f_ro_len eta_file v f).
Definition with_fat v f : file := ltac:(field_set f_fat eta_file v f).
Definition with_sock v f : file := ltac:(field_set f_sock eta_file v f).
Definition with_conn v f : file := ltac:(field_set f_conn eta_file v f).
Definition with_writable v f : file := ltac:(field_set f_writable eta_file v f).
Definition with_pos v f : file := ltac:(field_set f_pos eta_file v f).

Definition zero_pipe : pipe := Pipe (zeros PIPE_SIZE) 0 0 0 0 false.
Definition zero_mem : memfile := MemFile [] (zeros MEM_SIZE) 0 false.
Definition zero_file : file := File 0 FILE_FREE None None 0 0 (FatFile 0 0 false 0 0) None None false 0.

(** What file.c asks of the console and of the network.  A read or a send that
    has to wait does so inside the call. *)
Class Channels (K : Type) := {
  console_read_line : K -> Z -> Z * list Z * K;
  kputc : K -> Z -> K;
  udp_open : K -> option Z * K;
  udp_close : K -> Z -> K;
  tcp_open : K -> option Z * K;
  tcp_close : K -> Z -> K;
  tcp_send : K -> Z -> list Z -> Z * K;
  tcp_recv : K -> Z -> Z -> Z * list Z * K
}.

Section file.
Context {D : Type} `{BlockDevLaws D} {K : Type} `{Channels K}.
(** Where the linker put [pipes]: the object a thread waits on is an address. *)
Context (pipes_at : Z).

Definition pipe_obj (j : nat) : Z := pipes_at + 4116 * Z.of_nat j.

Record world := World {
  pipes : list pipe; files : list file; console_file : option nat; memfiles : list memfile;
  archive : list Z; scheduler : sched; volume : option geom; device : D; channels : K
}.
Definition eta_world (w : world) : world :=
  World (pipes w) (files w) (console_file w) (memfiles w) (archive w) (scheduler w) (volume w) (device w) (channels w).
Definition with_pipes v w : world := ltac:(field_set pipes eta_world v w).
Definition with_files v w : world := ltac:(field_set files eta_world v w).
Definition with_console v w : world := ltac:(field_set console_file eta_world v w).
Definition with_memfiles v w : world := ltac:(field_set memfiles eta_world v w).
Definition with_archive v w : world := ltac:(field_set archive eta_world v w).
Definition with_scheduler v w : world := ltac:(field_set scheduler eta_world v w).
Definition with_device v w : world := ltac:(field_set device eta_world v w).
Definition with_channels v w : world := ltac:(field_set channels eta_world v w).

Definition file_at (w : world) (i : nat) : file := nth i (files w) zero_file.
Definition pipe_at (w : world) (j : nat) : pipe := nth j (pipes w) zero_pipe.
Definition mem_at (w : world) (m : nat) : memfile := nth m (memfiles w) zero_mem.
Definition put_file (i : nat) (f : file) (w : world) : world := with_files (<[i := f]> (files w)) w.
Definition put_pipe (j : nat) (p : pipe) (w : world) : world := with_pipes (<[j := p]> (pipes w)) w.
Definition put_mem (m : nat) (f : memfile) (w : world) : world := with_memfiles (<[m := f]> (memfiles w)) w.
Definition wake (j : nat) (w : world) : world := with_scheduler (thread_wake_pipe (pipe_obj j) (scheduler w)) w.

(** The first element of a pool that satisfies [ok]. *)
Fixpoint first_of {A} (ok : A -> bool) (l : list A) (i : nat) : option nat :=
  match l with
  | [] => None
  | x :: l => if ok x then Some i else first_of ok l (S i)
  end.

(** ** Files *)
Definition is_kind (k : fkind) (f : file) : bool := bool_decide (f_kind f = k).

(** Everything is set but [fat] and [writable]. *)
Definition file_init (kind : fkind) (p : option nat) (f : file) : file :=
  with_conn None (with_sock None (with_pos 0 (with_ro_len 0 (with_ro 0 (with_mem None
    (with_pipe p (with_refs 1 (with_kind kind f)))))))).

Definition file_alloc (kind : fkind) (p : option nat) (w : world) : option (nat * world) :=
  match first_of (is_kind FILE_FREE) (files w) 0 with
  | None => None
  | Some i => Some (i, put_file i (file_init kind p (file_at w i)) w)
  end.

Definition file_set_archive (image : list Z) (w : world) : world := with_archive image w.

Fixpoint name_eq (a b : list Z) : bool :=
  match a, b with
  | [], [] => true
  | x :: a, y :: b => if x =? y then name_eq a b else false
  | _, _ => false
  end.

Definition mem_named (name : list Z) (m : memfile) : bool := m_used m && name_eq (m_name m) name.

(** A new file object with its remaining fields set by [f]; [-24] is
    [-EMFILE]. *)
Definition open_as (kind : fkind) (f : file -> file) (w : world) : Z * option nat * world :=
  match file_alloc kind None w with
  | None => (-24, None, w)
  | Some (i, w) => (0, Some i, put_file i (f (file_at w i)) w)
  end.

(** Opening a memory file for writing. *)
Definition mem_open (name : list Z) (mode : open_mode) (w : world) : Z * option nat * world :=
  let found := first_of (mem_named name) (memfiles w) 0 in
  let free := first_of (fun m => negb (m_used m)) (memfiles w) 0 in
  match (match found with Some m => Some m | None => free end) with
  | None => (-24, None, w)
  | Some m =>
      let old := mem_at w m in
      let len := if bool_decide (mode = OPEN_WRITE) || negb (m_used old) then 0 else m_len old in
      let w := put_mem m (MemFile (take (NAME_MAX - 1) name) (m_data old) len true) w in
      open_as FILE_MEM (fun f => with_pos (if bool_decide (mode = OPEN_APPEND) then len else 0) (with_mem (Some m) f)) w
  end.

(** What the disk has by that name, before the lock is taken. *)
Inductive on_disk := DNone | DFile (write : bool) (ff : fat_file) | DDir (ff : fat_file) | DError (e : Z).

Definition disk_open (g : geom) (junk : list Z) (d : D) (absolute : bool) (name : list Z) (mode : open_mode)
    : outcome (on_disk * D) :=
  match mode with
  | OPEN_READ =>
      let! r := fat_open g junk d name in
      Ret (match r with Some ff => if ff_is_dir ff then DDir ff else DFile false ff | None => DNone end, d)
  | _ =>
      if negb absolute then Ret (DNone, d) else
      let! r := fat_open g junk d name in
      let have := match r with Some ff => if ff_is_dir ff then None else Some ff | None => None end in
      match have with
      | None =>
          let! c := fat_create g junk d name in
          match c with
          | (Some ff, d) => Ret (DFile true ff, d)
          | (None, d) => Ret (DError (-2), d)
          end
      | Some ff =>
          if bool_decide (mode = OPEN_WRITE) then
            let! t := fat_truncate g d ff in
            match t with
            | (true, ff, d) => Ret (DFile true ff, d)
            | (false, _, d) => Ret (DError (-5), d)
            end
          else Ret (DFile true ff, d)
      end
  end.

Definition fat_object (ff : fat_file) (f : file) : file := with_ro_len (ff_size ff) (with_fat ff f).

(** Reading: a memory file, the archive, the disk, in that order. *)
Definition read_open (name : list Z) (disk : on_disk) (w : world) : outcome (Z * option nat * world) :=
  match first_of (mem_named name) (memfiles w) 0 with
  | Some m => Ret (open_as FILE_MEM (fun f => with_pos 0 (with_mem (Some m) f)) w)
  | None =>
      let size := zlen (archive w) in
      let! found :=
        if size =? 0 then Ret Reader.NotFound
        else Reader.cpio_find (S (length (archive w))) (archive w ++ [0]) size name in
      match found with
      | Reader.Found addr len =>
          Ret (open_as FILE_INITRD (fun f => with_pos 0 (with_ro_len len (with_ro addr f))) w)
      | Reader.NotFound =>
          match disk with
          | DFile _ ff => Ret (open_as FILE_FAT (fun f => with_pos 0 (fat_object ff f)) w)
          | DDir ff => Ret (open_as FILE_FATDIR (fun f => with_pos 0 (fat_object ff f)) w)
          | _ => Ret (-2, None, w)
          end
      end
  end.

Definition file_open (junk name : list Z) (mode : open_mode) (w : world) : outcome (Z * option nat * world) :=
  let absolute := at_ name 0 =? 47 in
  let name := Reader.skip_slash name in
  let! found := match volume w with
                | None => Ret (DNone, device w)
                | Some g => disk_open g junk (device w) absolute name mode
                end in
  let '(disk, d) := found in
  let w := with_device d w in
  match disk with
  | DError e => Ret (e, None, w)
  | DFile true ff =>
      Ret (open_as FILE_FAT (fun f => with_pos (if bool_decide (mode = OPEN_APPEND) then ff_size ff else 0)
                                        (with_writable true (fat_object ff f))) w)
  | _ =>
      if bool_decide (mode = OPEN_READ) then read_open name disk w else Ret (mem_open name mode w)
  end.

Definition file_console (w : world) : option nat * world :=
  match console_file w with
  | Some i => (Some i, put_file i (with_refs (f_refs (file_at w i) + 1) (file_at w i)) w)
  | None =>
      match file_alloc FILE_CONSOLE None w with
      | None => (None, w)
      | Some (i, w) => (Some i, with_console (Some i) w)
      end
  end.

Definition file_pipe (w : world) : option (nat * nat) * world :=
  match first_of (fun p => negb (p_used p)) (pipes w) 0 with
  | None => (None, w)
  | Some j =>
      let w1 := put_pipe j (with_writers 1 (with_readers 1 (with_tail 0 (with_head 0 (with_used true (pipe_at w j)))))) w in
      match file_alloc FILE_PIPE_R (Some j) w1 with
      | None => (None, put_pipe j (with_used false (pipe_at w1 j)) w1)
      | Some (r, w2) =>
          match file_alloc FILE_PIPE_W (Some j) w2 with
          | None =>
              let w3 := put_file r (with_refs 0 (with_kind FILE_FREE (file_at w2 r))) w2 in
              (None, put_pipe j (with_used false (pipe_at w3 j)) w3)
          | Some (wr, w3) => (Some (r, wr), w3)
          end
      end
  end.

Definition file_ref (i : nat) (w : world) : world :=
  put_file i (with_refs (f_refs (file_at w i) + 1) (file_at w i)) w.

(** The end of a pipe that goes with its last holder. *)
Definition drop_end (kind : fkind) (j : nat) (w : world) : world :=
  let p := pipe_at w j in
  let p := if bool_decide (kind = FILE_PIPE_R) then with_readers (p_readers p - 1) p
           else with_writers (p_writers p - 1) p in
  let p := if (p_readers p <=? 0) && (p_writers p <=? 0) then with_used false p else p in
  wake j (put_pipe j p w).

Definition file_close (i : nat) (w : world) : world :=
  let f := file_at w i in
  let refs := f_refs f - 1 in
  if 0 <? refs then put_file i (with_refs refs f) w else
  let kind := f_kind f in
  let was_written := bool_decide (kind = FILE_FAT) && f_writable f in
  let sock := if bool_decide (kind = FILE_UDP) then f_sock f else None in
  let conn := if bool_decide (kind = FILE_TCP) then f_conn f else None in
  let w := put_file i (with_conn None (with_sock None (with_pipe None (with_kind FILE_FREE (with_refs refs f))))) w in
  let w := if bool_decide (console_file w = Some i) then with_console None w else w in
  let w := match f_pipe f with Some j => drop_end kind j w | None => w end in
  let w := match sock with Some s => with_channels (udp_close (channels w) s) w | None => w end in
  let w := match conn with Some c => with_channels (tcp_close (channels w) c) w | None => w end in
  if was_written then
    match volume w with Some g => with_device (fat_sync g (device w)) w | None => w end
  else w.

(** *** Sockets as files *)
Definition file_udp (w : world) : Z * option nat * world :=
  let '(s, k) := udp_open (channels w) in
  let w := with_channels k w in
  match s with
  | None => (-105, None, w)
  | Some s =>
      match file_alloc FILE_UDP None w with
      | None => (-24, None, with_channels (udp_close (channels w) s) w)
      | Some (i, w) => (0, Some i, put_file i (with_sock (Some s) (file_at w i)) w)
      end
  end.
Definition file_udp_sock (i : nat) (w : world) : option Z :=
  if is_kind FILE_UDP (file_at w i) then f_sock (file_at w i) else None.

(** Wrapping a connection that exists; [file_tcp] opens one first. *)
Definition file_tcp_adopt (c : option Z) (w : world) : Z * option nat * world :=
  match c with
  | None => (-22, None, w)
  | Some c =>
      match file_alloc FILE_TCP None w with
      | None => (-24, None, with_channels (tcp_close (channels w) c) w)
      | Some (i, w) => (0, Some i, put_file i (with_conn (Some c) (file_at w i)) w)
      end
  end.
Definition file_tcp (w : world) : Z * option nat * world :=
  let '(c, k) := tcp_open (channels w) in
  let w := with_channels k w in
  match c with None => (-105, None, w) | Some c => file_tcp_adopt (Some c) w end.
Definition file_tcp_conn (i : nat) (w : world) : option Z :=
  if is_kind FILE_TCP (file_at w i) then f_conn (file_at w i) else None.

(** ** Reading *)
Definition pipe_bytes (p : pipe) : Z := u32 (p_head p - p_tail p) mod PIPE_SIZE.

(** What a call comes to: a result with the bytes delivered, or a wait on a
    pipe with so many bytes written already. *)
Inductive io := Done (r : Z) (b : list Z) | Block (n : Z).

(** [while (n < len && pos < total) buf[n++] = src[pos++]] *)
Fixpoint copy_out (src : list Z) (pos total : Z) (n : nat) : list Z :=
  match n with
  | O => []
  | S n => if pos <? total then at_ src pos :: copy_out src (pos + 1) total n else []
  end.

Fixpoint pipe_take (p : pipe) (n : nat) : list Z * pipe :=
  match n with
  | O => ([], p)
  | S n =>
      if 0 <? pipe_bytes p then
        let '(l, p') := pipe_take (with_tail ((p_tail p + 1) mod PIPE_SIZE) p) n in
        (at_ (p_buf p) (p_tail p) :: l, p')
      else ([], p)
  end.

Definition pipe_read (me : nat) (sp : Z) (j : nat) (len : Z) (w : world) : io * world :=
  let p := pipe_at w j in
  if pipe_bytes p =? 0 then
    if p_writers p <=? 0 then (Done 0 [], w)
    else (Block 0, with_scheduler (thread_block_on_pipe me sp (pipe_obj j) (scheduler w)) w)
  else
    let '(l, p) := pipe_take p (Z.to_nat len) in
    (Done (zlen l) l, wake j (put_pipe j p w)).

(** The descriptor is [None] for the null pointer. *)
Definition file_read (me : nat) (sp : Z) (fd : option nat) (len : Z) (w : world) : outcome (io * world) :=
  match fd with
  | None => Ret (Done (-9) [], w)
  | Some i =>
      let f := file_at w i in
      match f_kind f with
      | FILE_FREE | FILE_PIPE_W | FILE_UDP => Ret (Done (-9) [], w)
      | FILE_CONSOLE =>
          let '(n, b, k) := console_read_line (channels w) len in Ret (Done n b, with_channels k w)
      | FILE_TCP =>
          match f_conn f with
          | None => Fault
          | Some c => let '(n, b, k) := tcp_recv (channels w) c (u32 len) in Ret (Done n b, with_channels k w)
          end
      | kind =>
          if len =? 0 then Ret (Done 0 [], w) else
          match kind with
          | FILE_INITRD =>
              let b := copy_out (drop (Z.to_nat (f_ro f)) (archive w)) (f_pos f) (f_ro_len f) (Z.to_nat len) in
              Ret (Done (zlen b) b, put_file i (with_pos (f_pos f + zlen b) f) w)
          | FILE_MEM =>
              match f_mem f with
              | None => Fault
              | Some m =>
                  let b := copy_out (m_data (mem_at w m)) (f_pos f) (m_len (mem_at w m)) (Z.to_nat len) in
                  Ret (Done (zlen b) b, put_file i (with_pos (f_pos f + zlen b) f) w)
              end
          | FILE_FAT =>
              let '(n, b) := match volume w with
                             | Some g => fat_read g (device w) (f_fat f) (f_pos f) len
                             | None => (-1, [])
                             end in
              Ret (Done n b, put_file i (with_pos (if 0 <? n then u64 (f_pos f + n) else f_pos f) f) w)
          | _ => match f_pipe f with None => Fault | Some j => Ret (pipe_read me sp j len w) end
          end
      end
  end.

(** ** Names out of a directory *)
Definition dirent_len (name : list Z) : Z := Z.land (19 + zlen name + 1 + 7) (Z.lnot 7).
Definition dirent_bytes (pos : Z) (name : list Z) (is_dir : bool) : list Z :=
  let rec := dirent_len name in
  zeros 8 ++ le_split 8 (u64 (pos + 1)) ++ [Z.land rec 0xff; u8 (Z.shiftr rec 8)] ++ [if is_dir then 4 else 8]
  ++ name ++ [0] ++ zeros (rec - (19 + zlen name + 1)).

(** Fuel: an entry takes 24 bytes at least. *)
Fixpoint getdents_loop (fuel : nat) (g : geom) (junk : list Z) (i : nat) (len : Z) (buf : list Z) (w : world)
    : outcome (Z * list Z * world) :=
  match fuel with
  | O => Diverge
  | S fuel =>
      let f := file_at w i in
      let! e := fat_dirent g junk (device w) (f_fat f) (u32 (f_pos f)) in
      match e with
      | None => Ret (zlen buf, buf, w)
      | Some (name, _, is_dir) =>
          if len <? zlen buf + dirent_len name then
            if zlen buf =? 0 then Ret (-22, [], w) else Ret (zlen buf, buf, w)
          else
            getdents_loop fuel g junk i len (buf ++ dirent_bytes (f_pos f) name is_dir)
              (put_file i (with_pos (u64 (f_pos f + 1)) f) w)
      end
  end.

Definition file_getdents (junk : list Z) (fd : option nat) (len : Z) (w : world) : outcome (Z * list Z * world) :=
  match fd with
  | None => Ret (-20, [], w)
  | Some i =>
      if negb (is_kind FILE_FATDIR (file_at w i)) then Ret (-20, [], w) else
      match volume w with
      | None => Ret (0, [], w)
      | Some g => getdents_loop (S (Z.to_nat (len / 24))) g junk i len [] w
      end
  end.

(** ** Writing *)
Fixpoint mem_put (data : list Z) (pos : Z) (buf : list Z) : list Z * Z :=
  match buf with
  | [] => (data, pos)
  | c :: buf => if pos <? MEM_SIZE then mem_put (splice data pos [c]) (pos + 1) buf else (data, pos)
  end.

Inductive put_stop := PAll | PNobody | PFull.

(** The loop of a write to a pipe, up to its end, its error, or its wait. *)
Fixpoint pipe_put (p : pipe) (buf : list Z) (n : Z) : put_stop * Z * pipe :=
  match buf with
  | [] => (PAll, n, p)
  | c :: buf =>
      if p_readers p <=? 0 then (PNobody, n, p) else
      if pipe_bytes p =? PIPE_SIZE - 1 then (PFull, n, p) else
      pipe_put (with_head ((p_head p + 1) mod PIPE_SIZE) (with_buf (splice (p_buf p) (p_head p) [c]) p)) buf (n + 1)
  end.

(** [n] bytes of [buf] are written already: 0 on entry, and what [Block] said
    when the thread goes on after a wait. *)
Definition pipe_write (me : nat) (sp : Z) (j : nat) (buf : list Z) (n : Z) (w : world) : io * world :=
  let '(st, n, p) := pipe_put (pipe_at w j) (drop (Z.to_nat n) buf) n in
  let w := put_pipe j p w in
  match st with
  | PAll => (Done n [], wake j w)
  | PNobody => (Done (if n =? 0 then -32 else n) [], w)
  | PFull => (Block n, with_scheduler (thread_block_on_pipe me sp (pipe_obj j) (scheduler w)) w)
  end.

Definition file_write (me : nat) (sp : Z) (fd : option nat) (buf : list Z) (n : Z) (w : world) : outcome (io * world) :=
  match fd with
  | None => Ret (Done (-9) [], w)
  | Some i =>
      let f := file_at w i in
      match f_kind f with
      | FILE_FREE | FILE_PIPE_R | FILE_UDP | FILE_INITRD => Ret (Done (-9) [], w)
      | FILE_CONSOLE => Ret (Done (zlen buf) [], with_channels (fold_left kputc buf (channels w)) w)
      | FILE_TCP =>
          match f_conn f with
          | None => Fault
          | Some c => let '(r, k) := tcp_send (channels w) c (take (Z.to_nat (u32 (zlen buf))) buf) in
                      Ret (Done r [], with_channels k w)
          end
      | FILE_FAT =>
          if negb (f_writable f) then Ret (Done (-9) [], w) else
          let '(r, ff, d) := match volume w with
                             | Some g => fat_write g (device w) (f_fat f) (f_pos f) buf
                             | None => (-1, f_fat f, device w)
                             end in
          Ret (Done r [], put_file i (with_pos (if 0 <? r then u64 (f_pos f + r) else f_pos f) (with_fat ff f)) (with_device d w))
      | FILE_MEM =>
          match f_mem f with
          | None => Fault
          | Some m =>
              let old := mem_at w m in
              let '(data, pos) := mem_put (m_data old) (f_pos f) buf in
              let r := pos - f_pos f in
              let len := if m_len old <? pos then pos else m_len old in
              let w := put_file i (with_pos pos f) (put_mem m (MemFile (m_name old) data len (m_used old)) w) in
              Ret (Done (if (r =? 0) && negb (zlen buf =? 0) then -28 else r) [], w)
          end
      | _ => match f_pipe f with None => Fault | Some j => Ret (pipe_write me sp j buf n w) end
      end
  end.
End file.
