(* ===== verification/FileRun.v ===== *)
(** * Any run of the file layer

    What holds however processes interleave opening, sharing, reading, writing
    and closing: who holds an object is what its counts say, and a pipe is a
    queue. *)
From stdpp Require Import strings.
From S2P Require Import Prelude Bytes Disk Cpio Gpt Pmm Sched SchedRun Fat File.
Open Scope Z_scope.

(** ** Pipes as queues *)
Record pipe_ok (p : pipe) : Prop := {
  po_buf : zlen (p_buf p) = PIPE_SIZE;
  po_head : 0 <= p_head p < PIPE_SIZE;
  po_tail : 0 <= p_tail p < PIPE_SIZE
}.

Lemma pipe_bytes_mod p : pipe_bytes p = (p_head p - p_tail p) mod PIPE_SIZE.
Proof.
  unfold pipe_bytes, uwrap, PIPE_SIZE. symmetry. change (2 ^ 32) with (4096 * 1048576).
  rewrite Z.rem_mul_r by lia. rewrite (Z.mul_comm 4096), Z_mod_plus_full. by rewrite Z.mod_mod.
Qed.

Lemma pipe_bytes_range p : 0 <= pipe_bytes p < PIPE_SIZE.
Proof. rewrite pipe_bytes_mod. by apply Z.mod_pos_bound. Qed.

(** What is in the pipe, oldest first. *)
Definition queue (p : pipe) : list Z :=
  (fun k => at_ (p_buf p) ((p_tail p + k) mod PIPE_SIZE)) <$> seqZ 0 (pipe_bytes p).

Lemma queue_length p : zlen (queue p) = pipe_bytes p.
Proof. pose proof (pipe_bytes_range p). unfold zlen, queue. rewrite length_fmap, length_seqZ. lia. Qed.

Lemma queue_take p :
  pipe_ok p -> 0 < pipe_bytes p ->
  let p' := with_tail ((p_tail p + 1) mod PIPE_SIZE) p in
  pipe_ok p' /\ queue p = at_ (p_buf p) (p_tail p) :: queue p'.
Proof.
  intros [Hb Hh Ht] Hn p'. assert (pipe_bytes p' = pipe_bytes p - 1) as E.
  { rewrite !pipe_bytes_mod in *. unfold p', PIPE_SIZE in *. cbn. zdm. }
  split; [split; cbn; [done|done|apply Z.mod_pos_bound; done]|].
  unfold queue. rewrite E. rewrite (seqZ_cons 0) by lia. cbn [fmap list_fmap]. f_equal.
  - f_equal. rewrite Z.add_0_r. by rewrite Z.mod_small.
  - replace (Z.succ 0) with (1 + 0) by lia. rewrite <- (fmap_add_seqZ 1 0 (Z.pred (pipe_bytes p))).
    replace (pipe_bytes p - 1) with (Z.pred (pipe_bytes p)) by lia.
    rewrite <- list_fmap_compose. apply list_fmap_ext. intros ? k _. cbn -[at_].
    rewrite Zplus_mod_idemp_l. by rewrite Z.add_assoc.
Qed.

Lemma queue_put p c :
  pipe_ok p -> pipe_bytes p <> PIPE_SIZE - 1 ->
  let p' := with_head ((p_head p + 1) mod PIPE_SIZE) (with_buf (splice (p_buf p) (p_head p) [c]) p) in
  pipe_ok p' /\ queue p' = queue p ++ [c].
Proof.
  intros [Hb Hh Ht] Hn p'. pose proof (pipe_bytes_range p) as Hr.
  assert (pipe_bytes p' = pipe_bytes p + 1) as E.
  { rewrite !pipe_bytes_mod in *. unfold p', PIPE_SIZE in *. cbn. zdm. }
  assert (zlen [c] = 1) as H1 by done.
  split; [split; cbn; [rewrite zlen_splice; lia|apply Z.mod_pos_bound; done|done]|].
  unfold queue. rewrite E. rewrite seqZ_app by lia. rewrite fmap_app. f_equal.
  - apply list_fmap_ext. intros i k Hk. apply lookup_seqZ in Hk as [-> Hi]. cbn -[at_].
    rewrite at_splice_out; [done|lia|by apply Z.mod_pos_bound|rewrite H1, Hb; lia|].
    rewrite H1. rewrite pipe_bytes_mod in *. unfold PIPE_SIZE in *. zdm.
  - rewrite (seqZ_cons (0 + pipe_bytes p)), seqZ_nil by lia. unfold p'. cbn -[at_]. f_equal.
    assert ((p_tail p + (0 + pipe_bytes p)) mod PIPE_SIZE = p_head p) as ->.
    { rewrite pipe_bytes_mod in *. unfold PIPE_SIZE in *. zdm. }
    rewrite at_splice_in by lia. rewrite Z.sub_diag. done.
Qed.

Lemma pipe_take_spec n : forall p l p',
  pipe_ok p -> pipe_take p n = (l, p') ->
  pipe_ok p' /\ queue p = l ++ queue p' /\ length l = Nat.min n (length (queue p))
  /\ p_readers p' = p_readers p /\ p_writers p' = p_writers p /\ p_used p' = p_used p.
Proof.
  induction n as [|n IH]; intros p l p' Hp E; cbn [pipe_take] in E; [by injection E as <- <-|].
  destruct (Z.ltb_spec 0 (pipe_bytes p)) as [Hn|Hn].
  - destruct (queue_take p Hp Hn) as [Hp1 Hq]. destruct (pipe_take _ n) as [l1 p1] eqn:E1.
    injection E as <- <-. destruct (IH _ _ _ Hp1 E1) as (? & Hq1 & Hl & ? & ? & ?).
    rewrite Hq, Hq1. split; [done|]. split; [done|]. rewrite Hq1 in Hl. cbn [length app] in *. split; [lia|done].
  - injection E as <- <-. pose proof (queue_length p) as Hl. pose proof (pipe_bytes_range p). unfold zlen in Hl.
    split; [done|]. split; [done|]. cbn [length]. split; [lia|done].
Qed.

Lemma pipe_put_spec buf : forall p n st n' p',
  pipe_ok p -> pipe_put p buf n = (st, n', p') ->
  pipe_ok p' /\ n <= n' <= n + zlen buf /\ queue p' = queue p ++ take (Z.to_nat (n' - n)) buf
  /\ (st = PAll -> n' = n + zlen buf) /\ (st = PFull -> n' < n + zlen buf /\ pipe_bytes p' = PIPE_SIZE - 1 /\ 0 < p_readers p)
  /\ (st = PNobody -> n' = n /\ p_readers p <= 0 /\ p' = p)
  /\ p_readers p' = p_readers p /\ p_writers p' = p_writers p /\ p_used p' = p_used p.
Proof.
  induction buf as [|c buf IH]; intros p n st n' p' Hp E; cbn [pipe_put] in E.
  - injection E as <- <- <-. rewrite zlen_nil, take_nil, app_nil_r. split; [done|]. repeat split; done || lia.
  - rewrite zlen_cons. pose proof (zlen_nonneg buf). destruct (Z.leb_spec (p_readers p) 0) as [Hr|Hr].
    + injection E as <- <- <-. rewrite Z.sub_diag, app_nil_r. split; [done|]. repeat split; done || lia.
    + destruct (Z.eqb_spec (pipe_bytes p) (PIPE_SIZE - 1)) as [Hf|Hf].
      * injection E as <- <- <-. rewrite Z.sub_diag, app_nil_r. split; [done|]. repeat split; done || lia.
      * destruct (queue_put p c Hp Hf) as [Hp1 Hq].
        destruct (IH _ _ _ _ _ Hp1 E) as (? & Hn & Hq1 & Ha & Hfull & Hno & ? & ? & ?).
        assert (Z.to_nat (n' - n) = S (Z.to_nat (n' - (n + 1)))) as -> by lia.
        rewrite Hq1, Hq, <- app_assoc. cbn [take app]. cbn in Hfull, Hno.
        split; [done|]. split; [lia|]. split; [done|]. split; [intros Hs; specialize (Ha Hs); lia|].
        split; [intros Hs; destruct (Hfull Hs) as (? & ? & ?); split; [lia|done]|].
        split; [|done]. intros Hs. destruct (Hno Hs) as (_ & ? & _). lia.
Qed.

(** ** Who holds what *)

(** How many of [fs] are [k] ends of pipe [j]. *)
Definition is_end (k : fkind) (j : nat) (f : file) : Prop := f_kind f = k /\ f_pipe f = Some j.
#[global] Instance is_end_dec k j f : Decision (is_end k j f).
Proof. unfold is_end. apply _. Defined.
Definition ends (k : fkind) (j : nat) (fs : list file) : Z := zlen (filter (is_end k j) fs).
Definition end_of (k : fkind) (j : nat) (f : file) : Z := if decide (is_end k j f) then 1 else 0.

Lemma ends_insert k j fs i f g :
  fs !! i = Some f -> ends k j (<[i := g]> fs) = ends k j fs - end_of k j f + end_of k j g.
Proof.
  intros Hi. unfold ends, end_of, zlen. rewrite insert_take_drop by (by eapply lookup_lt_Some).
  rewrite <- (take_drop_middle fs i f Hi) at 3. rewrite !filter_app, !filter_cons, !length_app.
  destruct (decide (is_end k j f)), (decide (is_end k j g)); cbn; lia.
Qed.
Lemma ends_nonneg k j fs : 0 <= ends k j fs.
Proof. unfold ends. apply zlen_nonneg. Qed.
Lemma ends_pos k j fs : 0 < ends k j fs <-> exists i f, fs !! i = Some f /\ is_end k j f.
Proof.
  unfold ends, zlen. split.
  - intros Hp. destruct (filter (is_end k j) fs) as [|f l] eqn:E; [cbn in Hp; lia|].
    assert (f ∈ filter (is_end k j) fs) as Hf by (rewrite E; by left).
    apply list_elem_of_filter in Hf as [Hf [i Hi]%list_elem_of_lookup]. eauto.
  - intros (i & f & Hi & Hf). assert (f ∈ filter (is_end k j) fs) as Hin.
    { apply list_elem_of_filter. split; [done|by eapply list_elem_of_lookup_2]. }
    destruct (filter (is_end k j) fs); [by apply not_elem_of_nil in Hin|cbn; lia].
Qed.

(** [held]: the object of every descriptor there is, in any process.  An
    object is free exactly when nobody holds it, and counts its holders; a
    pipe in use counts its open ends. *)
Definition holders (i : nat) (held : list nat) : Z := zlen (filter (fun x => x = i) held).

Record file_ok (con : option nat) (held : list nat) (i : nat) (f : file) : Prop := {
  fo_free : f_kind f = FILE_FREE -> holders i held = 0;
  fo_refs : f_kind f <> FILE_FREE -> f_refs f = holders i held /\ 0 < holders i held;
  fo_pipe : f_kind f = FILE_PIPE_R \/ f_kind f = FILE_PIPE_W -> exists j, f_pipe f = Some j /\ (j < NPIPE)%nat;
  fo_none : f_kind f <> FILE_FREE -> f_kind f <> FILE_PIPE_R -> f_kind f <> FILE_PIPE_W -> f_pipe f = None;
  fo_console : f_kind f = FILE_CONSOLE <-> con = Some i
}.
Record pipe_counts (fs : list file) (j : nat) (p : pipe) : Prop := {
  pc_ok : pipe_ok p;
  pc_used : p_used p = true ->
    p_readers p = ends FILE_PIPE_R j fs /\ p_writers p = ends FILE_PIPE_W j fs
    /\ 0 < ends FILE_PIPE_R j fs + ends FILE_PIPE_W j fs;
  pc_free : p_used p = false -> ends FILE_PIPE_R j fs = 0 /\ ends FILE_PIPE_W j fs = 0
}.

Record table_ok (held : list nat) (fs : list file) (ps : list pipe) (con : option nat) : Prop := {
  tb_len : length fs = NFILE; tb_plen : length ps = NPIPE;
  tb_held i : i ∈ held -> (i < NFILE)%nat;
  tb_con i : con = Some i -> (i < NFILE)%nat;
  tb_file i f : fs !! i = Some f -> file_ok con held i f;
  tb_pipe j p : ps !! j = Some p -> pipe_counts fs j p
}.

Lemma holders_cons x i held : holders x (i :: held) = holders x held + if decide (i = x) then 1 else 0.
Proof. unfold holders, zlen. rewrite filter_cons. destruct (decide (i = x)); cbn; lia. Qed.
Lemma holders_nonneg x held : 0 <= holders x held.
Proof. apply zlen_nonneg. Qed.
Lemma holders_in x held : 0 < holders x held <-> x ∈ held.
Proof.
  unfold holders, zlen. split.
  - intros Hp. destruct (filter (fun y => y = x) held) as [|y l] eqn:E; [cbn in Hp; lia|].
    assert (y ∈ filter (fun y => y = x) held) as Hy by (rewrite E; by left). by apply list_elem_of_filter in Hy as [-> ?].
  - intros Hx. assert (x ∈ filter (fun y => y = x) held) as Hin by (by apply list_elem_of_filter).
    destruct (filter (fun y => y = x) held); [by apply not_elem_of_nil in Hin|cbn; lia].
Qed.
Lemma holders_perm x h h' : h ≡ₚ h' -> holders x h = holders x h'.
Proof. intros E. unfold holders, zlen. by rewrite E. Qed.

(** Two files that are ends of the same pipes. *)
Definition same_ends (j : nat) (f g : file) : Prop := forall k, k = FILE_PIPE_R \/ k = FILE_PIPE_W -> end_of k j f = end_of k j g.

Lemma end_of_other k j f : k = FILE_PIPE_R \/ k = FILE_PIPE_W -> f_kind f <> FILE_PIPE_R -> f_kind f <> FILE_PIPE_W -> end_of k j f = 0.
Proof. intros [-> | ->] HR HW; unfold end_of; rewrite decide_False; try done; by intros []. Qed.

Lemma end_of_ext k j f g : f_kind g = f_kind f -> f_pipe g = f_pipe f -> end_of k j f = end_of k j g.
Proof.
  intros Hk Hp. unfold end_of. destruct (decide _) as [[E1 E2]|N1], (decide _) as [[E3 E4]|N2]; try done.
  - destruct N2. split; congruence.
  - destruct N1. split; congruence.
Qed.

Lemma pipe_counts_put fs i f g j p :
  fs !! i = Some f -> same_ends j f g -> pipe_counts fs j p -> pipe_counts (<[i := g]> fs) j p.
Proof.
  intros Hi Hs [Hok Hu Hf]. split; [done|..].
  all: rewrite !(ends_insert _ _ _ _ _ _ Hi), !Hs by auto; intros E.
  - destruct (Hu E) as (? & ? & ?). split; [lia|]. split; lia.
  - destruct (Hf E). lia.
Qed.

(** One file object changes. *)
Lemma table_put held held' fs ps con con' i f g :
  table_ok held fs ps con -> fs !! i = Some f ->
  (forall x, x <> i -> holders x held' = holders x held) -> (forall x, x ∈ held' -> x ∈ held \/ x = i) ->
  file_ok con' held' i g -> (forall x, x <> i -> con' = Some x <-> con = Some x) ->
  forall ps', length ps' = NPIPE -> (forall j p, ps' !! j = Some p -> pipe_counts (<[i := g]> fs) j p) ->
  table_ok held' (<[i := g]> fs) ps' con'.
Proof.
  intros [Hl Hpl Hh Hc Hf Hp] Hi Hhold Hin Hg Hcon ps' Hlp Hps. split; [by rewrite length_insert|done| | | |done].
  - intros x Hx. destruct (Hin x Hx) as [?| ->]; [auto|]. rewrite <- Hl. by eapply lookup_lt_Some.
  - intros x Hx. destruct (decide (x = i)) as [->|Hne]; [|by apply Hc, Hcon].
    rewrite <- Hl. by eapply lookup_lt_Some.
  - intros x f' Hx. destruct (decide (x = i)) as [->|Hne].
    + rewrite list_lookup_insert_eq in Hx by (by eapply lookup_lt_Some). by injection Hx as <-.
    + rewrite list_lookup_insert_ne in Hx by done. destruct (Hf x f' Hx) as [A B C E F].
      split; rewrite ?Hhold by done; try done. rewrite F. symmetry. by apply Hcon.
Qed.

Lemma table_same held fs ps con i f g :
  table_ok held fs ps con -> fs !! i = Some f ->
  f_kind g = f_kind f -> f_refs g = f_refs f -> f_pipe g = f_pipe f -> table_ok held (<[i := g]> fs) ps con.
Proof.
  intros Ht Hi Hk Hr Hp. pose proof (tb_file _ _ _ _ Ht i f Hi) as [A B C E F].
  eapply table_put; [exact Ht|exact Hi|done|by left| |done|apply Ht|].
  - split; rewrite ?Hk, ?Hr, ?Hp; done.
  - intros j p Hj. eapply pipe_counts_put; [exact Hi| |by eapply (tb_pipe _ _ _ _ Ht)].
    intros k _. by apply end_of_ext.
Qed.

Lemma table_ref held fs ps con i f :
  table_ok held fs ps con -> fs !! i = Some f -> i ∈ held ->
  table_ok (i :: held) (<[i := with_refs (f_refs f + 1) f]> fs) ps con.
Proof.
  intros Ht Hi Hin. pose proof (tb_file _ _ _ _ Ht i f Hi) as [A B C E F].
  assert (holders i (i :: held) = holders i held + 1) as Eh by (rewrite holders_cons, decide_True; done).
  pose proof (proj2 (holders_in i held) Hin).
  eapply table_put; [exact Ht|exact Hi| | | |done|apply Ht|].
  - intros x Hx. rewrite holders_cons, decide_False by done. lia.
  - intros x [->|?]%elem_of_cons; auto.
  - split; rewrite ?Eh; cbn; try done.
    + intros Hz. specialize (A Hz). lia.
    + intros Hz. specialize (B Hz). lia.
  - intros j p Hj. eapply pipe_counts_put; [exact Hi|intros k _; by apply end_of_ext|by eapply (tb_pipe _ _ _ _ Ht)].
Qed.

(** A free object taken for something that is no pipe. *)
Lemma table_alloc held fs ps con con' i f g :
  table_ok held fs ps con -> fs !! i = Some f -> f_kind f = FILE_FREE ->
  f_refs g = 1 -> f_pipe g = None -> f_kind g <> FILE_FREE -> f_kind g <> FILE_PIPE_R -> f_kind g <> FILE_PIPE_W ->
  (f_kind g = FILE_CONSOLE <-> con' = Some i) -> (forall x, x <> i -> con' = Some x <-> con = Some x) ->
  table_ok (i :: held) (<[i := g]> fs) ps con'.
Proof.
  intros Ht Hi Hfree Hr Hp Hk HkR HkW Hc Hcon. pose proof (tb_file _ _ _ _ Ht i f Hi) as [A B C E F].
  assert (holders i (i :: held) = 1) as Eh by (rewrite holders_cons, decide_True, A; done).
  eapply table_put; [exact Ht|exact Hi| | | |done|apply Ht|].
  - intros x Hx. rewrite holders_cons, decide_False by done. lia.
  - intros x [->|?]%elem_of_cons; auto.
  - split; rewrite ?Eh; try done. intros [?|?]; done.
  - intros j p Hj. eapply pipe_counts_put; [exact Hi| |by eapply (tb_pipe _ _ _ _ Ht)].
    intros k Hkk. rewrite !end_of_other; try done; by rewrite Hfree.
Qed.

(** The last holder of [i] gone, or one of several. *)
Lemma holders_remove i held held' x : held ≡ₚ i :: held' -> holders x held' = holders x held - if decide (i = x) then 1 else 0.
Proof. intros E. rewrite (holders_perm _ _ _ E), holders_cons. destruct (decide (i = x)); lia. Qed.

Lemma table_unref held held' fs ps con i f :
  table_ok held fs ps con -> fs !! i = Some f -> held ≡ₚ i :: held' -> 0 < f_refs f - 1 ->
  table_ok held' (<[i := with_refs (f_refs f - 1) f]> fs) ps con.
Proof.
  intros Ht Hi Hperm Hr. pose proof (tb_file _ _ _ _ Ht i f Hi) as [A B C E F].
  assert (i ∈ held) as Hin by (rewrite Hperm; by left). pose proof (proj2 (holders_in i held) Hin).
  pose proof (holders_remove _ _ _ i Hperm) as Eh. rewrite decide_True in Eh by done.
  assert (f_kind f <> FILE_FREE) as Hk by (intros Hk; specialize (A Hk); lia). destruct (B Hk) as [Hrf _].
  eapply table_put; [exact Ht|exact Hi| | | |done|apply Ht|].
  - intros x Hx. rewrite (holders_remove _ _ _ x Hperm), decide_False by done. lia.
  - intros x Hx. left. rewrite Hperm. by right.
  - split; rewrite ?Eh; cbn; try done. intros _. lia.
  - intros j p Hj. eapply pipe_counts_put; [exact Hi|intros k _; by apply end_of_ext|by eapply (tb_pipe _ _ _ _ Ht)].
Qed.

(** The object itself freed; [g] is the freed object. *)
Lemma table_free held held' fs ps con i f g con' :
  table_ok held fs ps con -> fs !! i = Some f -> held ≡ₚ i :: held' -> f_refs f - 1 <= 0 ->
  f_kind g = FILE_FREE -> con' = (if bool_decide (con = Some i) then None else con) ->
  forall ps', length ps' = NPIPE -> (forall j p, ps' !! j = Some p -> pipe_counts (<[i := g]> fs) j p) ->
  table_ok held' (<[i := g]> fs) ps' con'.
Proof.
  intros Ht Hi Hperm Hr Hg ->. pose proof (tb_file _ _ _ _ Ht i f Hi) as [A B C E F].
  assert (i ∈ held) as Hin by (rewrite Hperm; by left). pose proof (proj2 (holders_in i held) Hin).
  pose proof (holders_remove _ _ _ i Hperm) as Eh. rewrite decide_True in Eh by done.
  assert (f_kind f <> FILE_FREE) as Hk by (intros Hk; specialize (A Hk); lia). destruct (B Hk) as [Hrf _].
  eapply table_put; [exact Ht|exact Hi| | | |].
  - intros x Hx. rewrite (holders_remove _ _ _ x Hperm), decide_False by done. lia.
  - intros x Hx. left. rewrite Hperm. by right.
  - split; rewrite ?Hg; try done; [lia|by intros [?|?]|]. case_bool_decide; done.
  - intros x Hx. case_bool_decide; [|done]. subst con. split; [done|congruence].
Qed.

Lemma table_pipes held fs ps con j p :
  table_ok held fs ps con -> pipe_counts fs j p -> table_ok held fs (<[j := p]> ps) con.
Proof.
  intros [Hl Hpl Hh Hc Hf Hp] Hj. split; [done|by rewrite length_insert|done..|].
  intros j' p' Hj'. apply list_lookup_insert_Some in Hj' as [(<- & -> & _)|[_ ?]]; [done|auto].
Qed.

Lemma end_of_is k j f : f_kind f = k -> f_pipe f = Some j -> end_of k j f = 1.
Proof. intros. unfold end_of. by rewrite decide_True. Qed.
Lemma end_of_not k j f : ~ is_end k j f -> end_of k j f = 0.
Proof. intros. unfold end_of. by rewrite decide_False. Qed.

(** A free object taken for an end of pipe [j]. *)
Lemma table_end held fs ps con i f g k j p :
  table_ok held fs ps con -> fs !! i = Some f -> f_kind f = FILE_FREE -> k = FILE_PIPE_R \/ k = FILE_PIPE_W ->
  f_refs g = 1 -> f_pipe g = Some j -> f_kind g = k -> (j < NPIPE)%nat -> pipe_ok p -> p_used p = true ->
  p_readers p = ends FILE_PIPE_R j fs + (if decide (k = FILE_PIPE_R) then 1 else 0) ->
  p_writers p = ends FILE_PIPE_W j fs + (if decide (k = FILE_PIPE_W) then 1 else 0) ->
  table_ok (i :: held) (<[i := g]> fs) (<[j := p]> ps) con.
Proof.
  intros Ht Hi Hfree Hk Hr Hp Hgk Hj Hok Hu Hre Hwr. pose proof (tb_file _ _ _ _ Ht i f Hi) as [A B C E F].
  assert (holders i (i :: held) = 1) as Eh by (rewrite holders_cons, decide_True, A; done).
  assert (forall k' j', k' = FILE_PIPE_R \/ k' = FILE_PIPE_W -> end_of k' j' f = 0) as E0.
  { intros k' j' Hk'. apply end_of_other; [done|rewrite Hfree; done..]. }
  eapply table_put; [exact Ht|exact Hi| | | |done| |].
  - intros x Hx. rewrite holders_cons, decide_False by done. lia.
  - intros x [->|?]%elem_of_cons; auto.
  - split; rewrite ?Eh, ?Hgk; try done; [by intros ->; destruct Hk|eauto|by destruct Hk as [-> | ->]|].
    rewrite <- F, Hfree. split; [by destruct Hk as [-> | ->]|done].
  - rewrite length_insert. apply Ht.
  - intros j' p' Hj'. apply list_lookup_insert_Some in Hj' as [(<- & -> & _)|[Hne Hj']].
    + pose proof (ends_nonneg FILE_PIPE_R j fs). pose proof (ends_nonneg FILE_PIPE_W j fs).
      split; [done| |congruence]. rewrite !(ends_insert _ _ _ _ _ _ Hi), !E0 by auto. intros _.
      destruct Hk as [-> | ->]; rewrite (end_of_is _ _ g Hgk Hp), end_of_not by (intros [? _]; congruence).
      * rewrite decide_True in Hre by done. rewrite decide_False in Hwr by done. lia.
      * rewrite decide_False in Hre by done. rewrite decide_True in Hwr by done. lia.
    + apply pipe_counts_put with (f := f); [done| |by apply (tb_pipe _ _ _ _ Ht)].
      intros k' Hk'. rewrite E0 by done. symmetry. apply end_of_not. intros [_ ?]. congruence.
Qed.

(** The last holder of an end gone. *)
Lemma table_drop held held' fs ps con i f g j p p' :
  table_ok held fs ps con -> fs !! i = Some f -> held ≡ₚ i :: held' -> f_refs f - 1 <= 0 ->
  f_kind g = FILE_FREE -> f_pipe f = Some j -> ps !! j = Some p -> pipe_ok p' ->
  p_readers p' = p_readers p - (if decide (f_kind f = FILE_PIPE_R) then 1 else 0) ->
  p_writers p' = p_writers p - (if decide (f_kind f = FILE_PIPE_R) then 0 else 1) ->
  p_used p' = (if (p_readers p' <=? 0) && (p_writers p' <=? 0) then false else p_used p) ->
  table_ok held' (<[i := g]> fs) (<[j := p']> ps) (if bool_decide (con = Some i) then None else con).
Proof.
  intros Ht Hi Hperm Hr Hg Hpi Hj Hok Hre Hwr Hu. pose proof (tb_file _ _ _ _ Ht i f Hi) as [A B C E F].
  assert (i ∈ held) as Hin by (rewrite Hperm; by left). pose proof (proj2 (holders_in i held) Hin).
  assert (f_kind f <> FILE_FREE) as Hk by (intros Hk; specialize (A Hk); lia).
  assert (f_kind f = FILE_PIPE_R \/ f_kind f = FILE_PIPE_W) as Hkind.
  { destruct (decide (f_kind f = FILE_PIPE_R)) as [|HR]; [by left|].
    destruct (decide (f_kind f = FILE_PIPE_W)) as [|HW]; [by right|]. rewrite E in Hpi by done. done. }
  assert (forall k' j', k' = FILE_PIPE_R \/ k' = FILE_PIPE_W -> end_of k' j' g = 0) as E0.
  { intros k' j' Hk'. apply end_of_other; [done|rewrite Hg; done..]. }
  eapply table_free; try done; [by rewrite length_insert; apply Ht|].
  intros j' q Hj'. apply list_lookup_insert_Some in Hj' as [(<- & <- & _)|[Hne Hj']].
  - destruct (tb_pipe _ _ _ _ Ht _ _ Hj) as [_ Pu Pf].
    pose proof (ends_nonneg FILE_PIPE_R j (<[i:=g]> fs)) as NR. pose proof (ends_nonneg FILE_PIPE_W j (<[i:=g]> fs)) as NW.
    rewrite (ends_insert _ _ _ _ _ _ Hi), E0 in NR by auto. rewrite (ends_insert _ _ _ _ _ _ Hi), E0 in NW by auto.
    assert (p_used p = true) as Hup.
    { destruct (p_used p); [done|]. destruct (Pf eq_refl) as [Z1 Z2].
      destruct Hkind as [Hk'|Hk']; rewrite (end_of_is _ _ f Hk' Hpi) in *; lia. }
    destruct (Pu Hup) as (HR & HW & _). rewrite Hup in Hu.
    assert (p_readers p' = ends FILE_PIPE_R j fs - end_of FILE_PIPE_R j f /\ p_writers p' = ends FILE_PIPE_W j fs - end_of FILE_PIPE_W j f) as [HR' HW'].
    { destruct Hkind as [Hk'|Hk']; rewrite Hk' in Hre, Hwr; rewrite (end_of_is _ _ f Hk' Hpi), end_of_not by (intros [? _]; congruence).
      - rewrite decide_True in Hre, Hwr by done. lia.
      - rewrite decide_False in Hre, Hwr by done. lia. }
    split; [done|..]; rewrite !(ends_insert _ _ _ _ _ _ Hi), !E0 by auto; rewrite Hu;
      destruct (Z.leb_spec (p_readers p') 0), (Z.leb_spec (p_writers p') 0); cbn [andb]; try done; intros _; lia.
  - apply pipe_counts_put with (f := f); [done| |by apply (tb_pipe _ _ _ _ Ht)].
    intros k' Hk'. rewrite E0 by done. apply end_of_not. intros [_ ?]. congruence.
Qed.

Lemma first_of_spec {A} (ok : A -> bool) l : forall k i, first_of ok l k = Some i ->
  exists x, l !! (i - k)%nat = Some x /\ ok x = true /\ (k <= i)%nat.
Proof.
  induction l as [|y l IH]; intros k i E; cbn in E; [done|]. destruct (ok y) eqn:Ey.
  - injection E as <-. rewrite Nat.sub_diag. by exists y.
  - destruct (IH _ _ E) as (x & Hx & Hok & Hk). exists x. split; [|split; [done|lia]].
    replace (i - k)%nat with (S (i - S k)) by lia. done.
Qed.
Lemma first_of_0 {A} (ok : A -> bool) l i : first_of ok l 0 = Some i -> exists x, l !! i = Some x /\ ok x = true.
Proof. intros E. destruct (first_of_spec _ _ _ _ E) as (x & Hx & Hok & _). rewrite Nat.sub_0_r in Hx. eauto. Qed.

Section run.
Context {D : Type} `{BlockDevLaws D} {K : Type} `{Channels K} (pipes_at : Z).
Abbreviation world := (@world D K).

Definition well (held : list nat) (w : world) : Prop := table_ok held (files w) (pipes w) (console_file w).
Definition hold (o : option nat) (held : list nat) : list nat := match o with Some i => i :: held | None => held end.

Lemma file_at_lookup (w : world) i f : files w !! i = Some f -> file_at w i = f.
Proof. intros Hf. unfold file_at. by rewrite nth_lookup, Hf. Qed.
Lemma pipe_at_lookup (w : world) i f : pipes w !! i = Some f -> pipe_at w i = f.
Proof. intros Hf. unfold pipe_at. by rewrite nth_lookup, Hf. Qed.
Lemma held_file held w i : well held w -> i ∈ held -> exists f, files w !! i = Some f.
Proof. intros Ht Hi. apply lookup_lt_is_Some_2. rewrite (tb_len _ _ _ _ Ht). by eapply tb_held. Qed.

Lemma file_alloc_spec kind p (w : world) i w' :
  file_alloc kind p w = Some (i, w') ->
  exists f, files w !! i = Some f /\ f_kind f = FILE_FREE /\ w' = put_file i (file_init kind p f) w.
Proof.
  unfold file_alloc. destruct (first_of _ _ 0) as [k|] eqn:E; [|done]. intros [= -> <-].
  destruct (first_of_0 _ _ _ E) as (f & Hf & Hk). exists f. split; [done|]. unfold is_kind in Hk.
  apply bool_decide_eq_true in Hk. split; [done|]. by rewrite (file_at_lookup _ _ _ Hf).
Qed.

(** A new object that is no pipe, its remaining fields set by [g]. *)
Definition keeps_shape (g : file -> file) : Prop :=
  forall f, f_kind (g f) = f_kind f /\ f_refs (g f) = f_refs f /\ f_pipe (g f) = f_pipe f.

Lemma alloc_well held (w : world) kind i w' g :
  well held w -> file_alloc kind None w = Some (i, w') -> keeps_shape g ->
  kind <> FILE_FREE -> kind <> FILE_PIPE_R -> kind <> FILE_PIPE_W -> kind <> FILE_CONSOLE ->
  well (i :: held) (put_file i (g (file_at w' i)) w') /\ pipes w' = pipes w.
Proof.
  intros Hw (f & Hf & Hfree & ->)%file_alloc_spec Hg Hk HkR HkW HkC. split; [|done].
  assert (file_at (put_file i (file_init kind None f) w) i = file_init kind None f) as ->.
  { apply file_at_lookup. cbn. apply list_lookup_insert_eq. by eapply lookup_lt_Some. }
  unfold well. cbn. rewrite list_insert_insert_eq. destruct (Hg (file_init kind None f)) as (G1 & G2 & G3).
  pose proof (tb_file _ _ _ _ Hw i f Hf) as [_ _ _ _ Hcon].
  apply table_alloc with (con := console_file w) (f := f); rewrite ?G1, ?G2, ?G3; try done.
  split; [done|]. intros Hc. apply Hcon in Hc. congruence.
Qed.

Lemma open_as_well held (w : world) kind g c o w' :
  well held w -> open_as kind g w = (c, o, w') -> keeps_shape g ->
  kind <> FILE_FREE -> kind <> FILE_PIPE_R -> kind <> FILE_PIPE_W -> kind <> FILE_CONSOLE ->
  well (hold o held) w' /\ pipes w' = pipes w.
Proof.
  intros Hw E Hg Hk HkR HkW HkC. unfold open_as in E. destruct (file_alloc kind None w) as [[i w1]|] eqn:Ea.
  - injection E as <- <- <-. by apply (alloc_well held w kind i w1 g).
  - by injection E as <- <- <-.
Qed.

Ltac shape := by repeat split.

Lemma file_open_well held (w : world) junk name mode c o w' :
  well held w -> file_open junk name mode w = Ret (c, o, w') -> well (hold o held) w' /\ pipes w' = pipes w.
Proof.
  intros Hw E. unfold file_open in E.
  destruct (match volume w with None => _ | Some g => _ end) as [[disk d]| |]; cbn [obind] in E; [|done..].
  assert (well held (with_device d w)) as Hw1 by done. set (w1 := with_device d w) in *.
  assert (forall c o w', read_open (Reader.skip_slash name) disk w1 = Ret (c, o, w') -> well (hold o held) w' /\ pipes w' = pipes w1) as Hr.
  { clear E c o w'. intros c o w' E. unfold read_open in E. destruct (first_of _ _ 0) as [m|].
    - injection E as E. eapply open_as_well; [exact Hw1|exact E|shape|done..].
    - destruct (if zlen (archive w1) =? 0 then _ else _) as [found| |]; cbn [obind] in E; [|done..].
      destruct found as [addr len|]; [injection E as E; eapply open_as_well; [exact Hw1|exact E|shape|done..]|].
      destruct disk; try (injection E as E; eapply open_as_well; [exact Hw1|exact E|shape|done..]).
      all: by injection E as <- <- <-. }
  assert (forall c o w', mem_open (Reader.skip_slash name) mode w1 = (c, o, w') -> well (hold o held) w' /\ pipes w' = pipes w1) as Hm.
  { clear E c o w' Hr. intros c o w' E. unfold mem_open in E. destruct (match first_of _ _ 0 with Some m => _ | None => _ end) as [m|].
    - eapply open_as_well in E; [exact E|exact Hw1|shape|done..].
    - by injection E as <- <- <-. }
  assert (forall c o w', (if bool_decide (mode = OPEN_READ) then read_open (Reader.skip_slash name) disk w1
            else Ret (mem_open (Reader.skip_slash name) mode w1)) = Ret (c, o, w') -> well (hold o held) w' /\ pipes w' = pipes w1) as Hrm.
  { intros c' o' w2 E'. case_bool_decide; [by apply Hr in E'|]. injection E' as E'. by apply Hm in E'. }
  change (pipes w) with (pipes w1). destruct disk as [|[] ff|ff|e].
  - by eapply Hrm.
  - injection E as E. eapply open_as_well; [exact Hw1|exact E|shape|done..].
  - by eapply Hrm.
  - by eapply Hrm.
  - by injection E as <- <- <-.
Qed.

Lemma file_console_well held (w : world) o w' :
  well held w -> file_console w = (o, w') -> well (hold o held) w' /\ pipes w' = pipes w.
Proof.
  intros Hw E. unfold file_console in E. destruct (console_file w) as [i|] eqn:Ec.
  - injection E as <- <-. split; [|done].
    assert (exists f, files w !! i = Some f /\ f_kind f = FILE_CONSOLE) as (f & Hf & Hk).
    { pose proof Hw as [Hl _ _ Hc Hfs _]. destruct (files w !! i) as [f|] eqn:Ef.
      - exists f. split; [done|]. by apply (fo_console _ _ _ _ (Hfs i f Ef)).
      - exfalso. apply lookup_ge_None in Ef. specialize (Hc i Ec). lia. }
    rewrite (file_at_lookup _ _ _ Hf). unfold well. cbn. apply table_ref; [done|done|].
    apply holders_in. by apply (fo_refs _ _ _ _ (tb_file _ _ _ _ Hw i f Hf)); rewrite Hk.
  - destruct (file_alloc FILE_CONSOLE None w) as [[i w1]|] eqn:Ea; [|by injection E as <- <-].
    injection E as <- <-. apply file_alloc_spec in Ea as (f & Hf & Hfree & ->). split; [|done].
    unfold well. cbn. apply table_alloc with (con := console_file w) (f := f); try done.
    intros x Hx. rewrite Ec. split; [congruence|done].
Qed.

(** Nothing goes into or out of a pipe in use. *)
Definition still (w w' : world) : Prop :=
  forall j, p_used (pipe_at w j) = true -> queue (pipe_at w' j) = queue (pipe_at w j).

Lemma still_pipes (w w' : world) : pipes w' = pipes w -> still w w'.
Proof. intros E j _. unfold pipe_at. by rewrite E. Qed.

Lemma pipe_at_put j p (w : world) j' :
  (j < length (pipes w))%nat -> pipe_at (put_pipe j p w) j' = if decide (j' = j) then p else pipe_at w j'.
Proof.
  intros Hj. unfold pipe_at. cbn. rewrite !nth_lookup. destruct (decide (j' = j)) as [->|Hne].
  - by rewrite list_lookup_insert_eq.
  - by rewrite list_lookup_insert_ne.
Qed.

(** An unused pipe made anew. *)
Definition fresh_pipe (r w : Z) (p : pipe) : pipe :=
  with_writers w (with_readers r (with_tail 0 (with_head 0 (with_used true p)))).

Lemma file_pipe_well held (w : world) o w' :
  well held w -> file_pipe w = (o, w') ->
  well (match o with Some (r, wr) => wr :: r :: held | None => held end) w' /\ still w w'.
Proof.
  intros Hw E. unfold file_pipe in E.
  destruct (first_of (fun p => negb (p_used p)) (pipes w) 0) as [j|] eqn:Ej; [|injection E as <- <-; by split].
  destruct (first_of_0 _ _ _ Ej) as (p & Hp & Hu%negb_true_iff). rewrite (pipe_at_lookup _ _ _ Hp) in E.
  change (with_writers 1 _) with (fresh_pipe 1 1 p) in E.
  assert (j < length (pipes w))%nat as Hj by (by eapply lookup_lt_Some).
  assert (j < NPIPE)%nat as Hjn by (rewrite <- (tb_plen _ _ _ _ Hw); done).
  destruct (tb_pipe _ _ _ _ Hw _ _ Hp) as [[Hb Hh Ht] _ Hfree]. specialize (Hfree Hu) as [ER EW].
  assert (forall r v, pipe_ok (fresh_pipe r v p)) as Hok by (intros r v; split; cbn; done).
  assert (forall w2 : world, (exists q, pipes w2 = <[j := q]> (pipes w)) -> still w w2) as Hstill.
  { intros w2 [q Eq] j' Hj'. destruct (decide (j' = j)) as [->|Hne].
    - rewrite (pipe_at_lookup _ _ _ Hp) in Hj'. congruence.
    - unfold pipe_at. by rewrite Eq, !nth_lookup, list_lookup_insert_ne. }
  set (w1 := put_pipe j (fresh_pipe 1 1 p) w) in *.
  assert (forall (w2 : world) q, p_used q = false -> pipe_ok q -> files w2 = files w -> pipes w2 = <[j := q]> (pipes w) ->
    console_file w2 = console_file w -> well held w2) as Hundo.
  { intros w2 q Hq Hqo E1 E2 E3. unfold well. rewrite E1, E2, E3. apply table_pipes; [done|]. split; [done|congruence|done]. }
  destruct (file_alloc FILE_PIPE_R (Some j) w1) as [[r w2]|] eqn:E1.
  2: { injection E as <- <-. assert (pipe_at w1 j = fresh_pipe 1 1 p) as Ep by (apply pipe_at_lookup, list_lookup_insert_eq; done).
    rewrite Ep. split; [|apply Hstill; eexists; cbn; by rewrite list_insert_insert_eq].
    apply (Hundo _ (with_used false (fresh_pipe 1 1 p))); [done|split; cbn; done|done|cbn; by rewrite list_insert_insert_eq|done]. }
  apply file_alloc_spec in E1 as (f & Hf & Hffree & ->). cbn in Hf.
  set (g := file_init FILE_PIPE_R (Some j) f) in *.
  assert (table_ok (r :: held) (<[r := g]> (files w)) (<[j := fresh_pipe 1 0 p]> (pipes w)) (console_file w)) as Ht1.
  { eapply table_end with (k := FILE_PIPE_R); try done; [by left|by rewrite ER|by rewrite EW]. }
  destruct (file_alloc FILE_PIPE_W (Some j) (put_file r g w1)) as [[wr w3]|] eqn:E2.
  - injection E as <- <-. apply file_alloc_spec in E2 as (f2 & Hf2 & Hf2free & ->). cbn in Hf2.
    split; [|apply Hstill; by eexists]. unfold well. cbn.
    rewrite <- (list_insert_insert_eq (pipes w) j _ (fresh_pipe 1 0 p)).
    assert (forall k, k = FILE_PIPE_R \/ k = FILE_PIPE_W -> end_of k j f = 0) as Ef.
    { intros k Hk. apply end_of_other; [done|rewrite Hffree; done..]. }
    eapply table_end with (k := FILE_PIPE_W); try done; [by right|rewrite (ends_insert _ _ _ _ _ _ Hf), Ef, ?ER, ?EW by auto..].
    + rewrite (end_of_is _ _ g), decide_False by done. done.
    + rewrite end_of_not, decide_True by (done || by intros []). done.
  - injection E as <- <-. set (w2 := put_file r g w1) in *.
    assert (file_at w2 r = g) as -> by (apply file_at_lookup, list_lookup_insert_eq; by eapply lookup_lt_Some).
    set (w3 := put_file r _ w2).
    assert (pipe_at w3 j = fresh_pipe 1 1 p) as -> by (apply pipe_at_lookup, list_lookup_insert_eq; done).
    split; [|apply Hstill; eexists; cbn; by rewrite list_insert_insert_eq].
    unfold well. cbn. rewrite !list_insert_insert_eq. set (g' := with_refs 0 _).
    pose proof (tb_file _ _ _ _ Hw r f Hf) as [A B C E F].
    eapply table_put; [exact Hw|exact Hf|done|by left| |done|rewrite length_insert; apply Hw|].
    + split; unfold g'; cbn; [intros _; by apply A|done|by intros [?|?]|done|]. by rewrite <- F, Hffree.
    + intros j' q Hj'. apply list_lookup_insert_Some in Hj' as [(<- & <- & _)|[Hne Hj']].
      * split; [split; cbn; done|done|]. intros _. rewrite !(ends_insert _ _ _ _ _ _ Hf).
        rewrite !(end_of_other _ _ f) by (auto || by rewrite Hffree). rewrite !(end_of_other _ _ g') by auto. lia.
      * apply pipe_counts_put with (f := f); [done| |by apply (tb_pipe _ _ _ _ Hw)].
        intros k Hk. rewrite !end_of_other; try done; by rewrite Hffree.
Qed.

Lemma file_ref_well held (w : world) i :
  well held w -> i ∈ held -> well (i :: held) (file_ref i w) /\ pipes (file_ref i w) = pipes w.
Proof.
  intros Hw Hi. destruct (held_file _ _ _ Hw Hi) as [f Hf]. split; [|done].
  unfold file_ref, well. rewrite (file_at_lookup _ _ _ Hf). by apply table_ref.
Qed.

(** Closing touches the tables as [table_unref], [table_free] or [table_drop]
    says; the rest is the channels' and the disk's. *)
Lemma file_close_well held held' (w : world) i :
  well held w -> held ≡ₚ i :: held' -> well held' (file_close pipes_at i w) /\ still w (file_close pipes_at i w).
Proof.
  intros Hw Hperm. assert (i ∈ held) as Hi by (rewrite Hperm; by left).
  destruct (held_file _ _ _ Hw Hi) as [f Hf]. unfold file_close. rewrite (file_at_lookup _ _ _ Hf).
  destruct (Z.ltb_spec 0 (f_refs f - 1)) as [Hr|Hr].
  { split; [|by apply still_pipes]. by eapply table_unref. }
  set (g := with_conn None _). set (w1 := put_file i g w).
  set (w2 := if bool_decide (console_file w1 = Some i) then with_console None w1 else w1).
  set (w3 := match f_pipe f with Some j => _ | None => _ end).
  assert (well held' w3 /\ still w w3) as [H3 S3].
  { assert (files w2 = <[i := g]> (files w) /\ pipes w2 = pipes w
      /\ console_file w2 = if bool_decide (console_file w = Some i) then None else console_file w) as (F2 & P2 & C2).
    { unfold w2. change (console_file w1) with (console_file w). by case_bool_decide. }
    unfold w3. destruct (f_pipe f) as [j|] eqn:Ep.
    - pose proof (tb_file _ _ _ _ Hw i f Hf) as [A B C E F]. pose proof (proj2 (holders_in i held) Hi).
      assert (f_kind f <> FILE_FREE) as Hk by (intros Hk; specialize (A Hk); lia).
      assert (exists p, pipes w !! j = Some p) as [p Hp].
      { apply lookup_lt_is_Some_2. rewrite (tb_plen _ _ _ _ Hw).
        destruct (decide (f_kind f = FILE_PIPE_R)) as [HR|HR]; [destruct (C (or_introl HR)) as (? & Hx & ?); rewrite Ep in Hx; by injection Hx as ->|].
        destruct (decide (f_kind f = FILE_PIPE_W)) as [HW|HW]; [destruct (C (or_intror HW)) as (? & Hx & ?); rewrite Ep in Hx; by injection Hx as ->|].
        rewrite E in Ep; done. }
      unfold drop_end. assert (pipe_at w2 j = p) as -> by (apply pipe_at_lookup; by rewrite P2).
      set (p1 := if bool_decide (f_kind f = FILE_PIPE_R) then _ else _).
      set (p2 := if (p_readers p1 <=? 0) && (p_writers p1 <=? 0) then _ else _).
      destruct (tb_pipe _ _ _ _ Hw _ _ Hp) as [Hpok _ _].
      assert (pipe_ok p2 /\ queue p2 = queue p) as [Hp2 Hq2].
      { unfold p2. destruct (_ && _); unfold p1; destruct (bool_decide (f_kind f = FILE_PIPE_R)); (split; [split; cbn; apply Hpok|done]). }
      split.
      + unfold well, wake. cbn. rewrite F2, P2, C2. eapply table_drop; try done.
        * unfold p2. destruct (_ && _); unfold p1; destruct (bool_decide_reflect (f_kind f = FILE_PIPE_R)); cbn; rewrite ?decide_True, ?decide_False by done; lia.
        * unfold p2. destruct (_ && _); unfold p1; destruct (bool_decide_reflect (f_kind f = FILE_PIPE_R)); cbn; rewrite ?decide_True, ?decide_False by done; lia.
        * unfold p2. destruct ((p_readers p1 <=? 0) && (p_writers p1 <=? 0)) eqn:Eb; cbn; rewrite Eb; [done|].
          unfold p1. by destruct (bool_decide (f_kind f = FILE_PIPE_R)).
      + intros j' _. unfold pipe_at. cbn. rewrite P2, !nth_lookup. destruct (decide (j' = j)) as [->|Hne].
        * rewrite list_lookup_insert_eq by (by eapply lookup_lt_Some). by rewrite Hp.
        * by rewrite list_lookup_insert_ne.
    - split; [|by apply still_pipes]. unfold well. rewrite F2, P2, C2.
      eapply table_free; try done; [apply Hw|]. intros j p Hj.
      eapply pipe_counts_put; [exact Hf| |by eapply (tb_pipe _ _ _ _ Hw)].
      intros k Hk. rewrite (end_of_not k j f) by (intros [_ E]; congruence). symmetry.
      apply end_of_not. intros [E _]. by destruct Hk as [-> | ->]. }
  assert (forall w4 : world, files w4 = files w3 -> pipes w4 = pipes w3 -> console_file w4 = console_file w3 ->
    well held' w4 /\ still w w4) as Hend.
  { intros w4 E1 E2 E3. split; [unfold well; by rewrite E1, E2, E3|].
    intros j Hj. unfold pipe_at. rewrite E2. by apply S3. }
  cbv zeta. apply Hend; clear; destruct (if bool_decide (f_kind f = FILE_UDP) then f_sock f else None),
    (if bool_decide (f_kind f = FILE_TCP) then f_conn f else None), (bool_decide (f_kind f = FILE_FAT) && f_writable f); cbn; try done;
    by destruct (volume w3).
Qed.

Lemma file_udp_well held (w : world) c o w' :
  well held w -> file_udp w = (c, o, w') -> well (hold o held) w' /\ pipes w' = pipes w.
Proof.
  intros Hw E. unfold file_udp in E. destruct (udp_open (channels w)) as [[s|] k]; [|by injection E as <- <- <-].
  destruct (file_alloc FILE_UDP None _) as [[i w1]|] eqn:Ea; injection E as <- <- <-; [|done].
  by apply (alloc_well held (with_channels k w) FILE_UDP i w1 (with_sock (Some s))).
Qed.
Lemma file_tcp_adopt_well held (w : world) s c o w' :
  well held w -> file_tcp_adopt s w = (c, o, w') -> well (hold o held) w' /\ pipes w' = pipes w.
Proof.
  intros Hw E. unfold file_tcp_adopt in E. destruct s as [s|]; [|by injection E as <- <- <-].
  destruct (file_alloc FILE_TCP None _) as [[i w1]|] eqn:Ea; injection E as <- <- <-; [|done].
  by apply (alloc_well held w FILE_TCP i w1 (with_conn (Some s))).
Qed.
Lemma file_tcp_well held (w : world) c o w' :
  well held w -> file_tcp w = (c, o, w') -> well (hold o held) w' /\ pipes w' = pipes w.
Proof.
  intros Hw E. unfold file_tcp in E. destruct (tcp_open (channels w)) as [[s|] k]; [|by injection E as <- <- <-].
  by apply (file_tcp_adopt_well held (with_channels k w)) in E.
Qed.

(** *** Reading and writing *)

(** What a read delivers out of pipe [j]; what a write puts in. *)
Definition delivered (j : nat) (f : file) (r : io) : list Z :=
  if decide (is_end FILE_PIPE_R j f) then match r with Done _ b => b | Block _ => [] end else [].
Definition progress (r : io) (n : Z) : Z :=
  match r with Done m _ => if m <? 0 then n else m | Block m => m end.
Definition accepted (j : nat) (f : file) (buf : list Z) (n : Z) (r : io) : list Z :=
  if decide (is_end FILE_PIPE_W j f) then slice buf n (progress r n - n) else [].

Lemma pipe_replaced held (w w' : world) j p p' :
  well held w -> pipes w !! j = Some p -> pipe_ok p' ->
  p_readers p' = p_readers p -> p_writers p' = p_writers p -> p_used p' = p_used p ->
  files w' = files w -> pipes w' = <[j := p']> (pipes w) -> console_file w' = console_file w -> well held w'.
Proof.
  intros Hw Hp Hok Hr Hwr Hu Ef Ep Ec. unfold well. rewrite Ef, Ep, Ec. apply table_pipes; [done|].
  destruct (tb_pipe _ _ _ _ Hw _ _ Hp) as [_ Pu Pf]. split; [done|by rewrite Hr, Hwr, Hu|by rewrite Hu].
Qed.

Lemma pipe_read_well held (w : world) me sp j len r w' :
  well held w -> (j < NPIPE)%nat -> pipe_read pipes_at me sp j len w = (r, w') ->
  well held w' /\ (forall j', pipe_at w' j' = if decide (j' = j) then pipe_at w' j else pipe_at w j')
  /\ queue (pipe_at w j) = match r with Done _ b => b | Block _ => [] end ++ queue (pipe_at w' j).
Proof.
  intros Hw Hj E. pose proof Hj as Hjl. rewrite <- (tb_plen _ _ _ _ Hw) in Hjl.
  destruct (lookup_lt_is_Some_2 _ _ Hjl) as [p Hp]. unfold pipe_read in E. rewrite (pipe_at_lookup _ _ _ Hp) in *.
  destruct (Z.eqb_spec (pipe_bytes p) 0) as [Hz|Hz].
  - assert (well held w' /\ pipes w' = pipes w /\ match r with Done _ b => b | Block _ => [] end = []) as (Hw' & Ep & ->).
    { destruct (p_writers p <=? 0); injection E as <- <-; done. }
    unfold pipe_at. rewrite Ep. split; [done|]. split; [intros j'; by destruct (decide (j' = j)) as [->|]|].
    by rewrite nth_lookup, Hp.
  - destruct (pipe_take p (Z.to_nat len)) as [l p'] eqn:Et. injection E as <- <-.
    destruct (tb_pipe _ _ _ _ Hw _ _ Hp) as [Hpok _ _].
    destruct (pipe_take_spec _ _ _ _ Hpok Et) as (Hok' & Hq & _ & Hr & Hwr & Hu).
    assert (pipe_at (wake pipes_at j (put_pipe j p' w)) j = p') as E' by (apply pipe_at_lookup, list_lookup_insert_eq; done).
    rewrite E'. split; [by eapply pipe_replaced|]. split; [|done].
    intros j'. by apply (pipe_at_put j p' w j').
Qed.

Lemma pipe_write_well held (w : world) me sp j buf n r w' :
  well held w -> (j < NPIPE)%nat -> pipe_write pipes_at me sp j buf n w = (r, w') ->
  well held w' /\ (forall j', pipe_at w' j' = if decide (j' = j) then pipe_at w' j else pipe_at w j')
  /\ (0 <= n <= zlen buf -> queue (pipe_at w' j) = queue (pipe_at w j) ++ slice buf n (progress r n - n)).
Proof.
  intros Hw Hj E. pose proof Hj as Hjl. rewrite <- (tb_plen _ _ _ _ Hw) in Hjl.
  destruct (lookup_lt_is_Some_2 _ _ Hjl) as [p Hp]. unfold pipe_write in E. rewrite (pipe_at_lookup _ _ _ Hp) in *.
  destruct (pipe_put p (drop (Z.to_nat n) buf) n) as [[st n'] p'] eqn:Et.
  destruct (tb_pipe _ _ _ _ Hw _ _ Hp) as [Hpok _ _].
  destruct (pipe_put_spec _ _ _ _ _ _ Hpok Et) as (Hok' & Hn' & Hq & _ & _ & Hno & Hr & Hwr & Hu).
  assert (files w' = files w /\ pipes w' = <[j := p']> (pipes w) /\ console_file w' = console_file w) as (Ef & Ep & Ec).
  { destruct st; injection E as <- <-; done. }
  assert (0 <= n <= zlen buf -> progress r n = n') as Hpr.
  { intros Hn. destruct st; injection E as <- <-; cbn; [zsplit; done| |done].
    destruct (Hno eq_refl) as (-> & _). destruct (Z.eqb_spec n 0) as [->|]; [done|]. cbn. zsplit. done. }
  assert (pipe_at w' j = p') as E' by (apply pipe_at_lookup; rewrite Ep; by apply list_lookup_insert_eq).
  rewrite E'. split; [by eapply pipe_replaced|]. split; [|intros Hn; by rewrite Hpr].
  intros j'. unfold pipe_at at 1. rewrite Ep. by apply (pipe_at_put j p' w j').
Qed.

(** A position, a place on the disk or a memory file changes. *)
Ltac moved Hw Hf := unfold well; cbn; eapply table_same; [exact Hw|exact Hf|reflexivity..].

Lemma no_delivery j f r : f_kind f <> FILE_PIPE_R -> delivered j f r = [].
Proof. intros Hk. unfold delivered. rewrite decide_False; [done|]. by intros []. Qed.
Lemma no_acceptance j f buf n r : f_kind f <> FILE_PIPE_W -> accepted j f buf n r = [].
Proof. intros Hk. unfold accepted. rewrite decide_False; [done|]. by intros []. Qed.

Ltac not_pipe Hk := intros j; rewrite ?no_delivery, ?no_acceptance by (rewrite Hk; done); rewrite ?app_nil_r; cbn [app]; try done.

Lemma file_read_well held (w : world) me sp i len r w' :
  well held w -> i ∈ held -> file_read pipes_at me sp (Some i) len w = Ret (r, w') ->
  well held w' /\ forall j, queue (pipe_at w j) = delivered j (file_at w i) r ++ queue (pipe_at w' j).
Proof.
  intros Hw Hi E. destruct (held_file _ _ _ Hw Hi) as [f Hf]. cbn [file_read] in E.
  rewrite (file_at_lookup _ _ _ Hf) in *. pose proof (tb_file _ _ _ _ Hw i f Hf) as [_ _ Cp Cn _].
  destruct (f_kind f) eqn:Hk.
  - injection E as <- <-. split; [done|not_pipe Hk].
  - destruct (console_read_line _ _) as [[n b] k]. injection E as <- <-. split; [done|not_pipe Hk].
  - destruct (Cp (or_introl eq_refl)) as (j & Hj & Hjn). destruct (len =? 0); [|rewrite Hj in E; injection E as E].
    + injection E as <- <-. split; [done|]. intros j'. unfold delivered. by destruct (decide _).
    + destruct (pipe_read_well held w me sp j len r w' Hw Hjn E) as (Hw' & Hother & Hq). split; [done|].
      intros j'. unfold delivered, is_end. destruct (decide (f_kind f = FILE_PIPE_R /\ f_pipe f = Some j')) as [[_ Hj']|Hn].
      * rewrite Hj in Hj'. injection Hj' as <-. done.
      * rewrite Hother, decide_False; [done|]. intros ->. by destruct Hn.
  - injection E as <- <-. split; [done|not_pipe Hk].
  - destruct (len =? 0); injection E as <- <-; [split; [done|not_pipe Hk]|].
    split; [moved Hw Hf|not_pipe Hk].
  - destruct (len =? 0); [injection E as <- <-; split; [done|not_pipe Hk]|]. destruct (f_mem f) as [m|]; [|done].
    injection E as <- <-. split; [moved Hw Hf|not_pipe Hk].
  - destruct (len =? 0); [injection E as <- <-; split; [done|not_pipe Hk]|].
    destruct (match volume w with Some g => _ | None => _ end) as [n b]. injection E as <- <-.
    split; [moved Hw Hf|not_pipe Hk].
  - destruct (len =? 0); [injection E as <- <-; split; [done|not_pipe Hk]|]. rewrite Cn in E by (rewrite ?Hk; done). done.
  - injection E as <- <-. split; [done|not_pipe Hk].
  - destruct (f_conn f); [|done]. destruct (tcp_recv _ _ _) as [[n b] k]. injection E as <- <-. split; [done|not_pipe Hk].
Qed.

Lemma file_write_well held (w : world) me sp i buf n r w' :
  well held w -> i ∈ held -> file_write pipes_at me sp (Some i) buf n w = Ret (r, w') ->
  well held w' /\ (0 <= n <= zlen buf -> forall j, queue (pipe_at w' j) = queue (pipe_at w j) ++ accepted j (file_at w i) buf n r).
Proof.
  intros Hw Hi E. destruct (held_file _ _ _ Hw Hi) as [f Hf]. cbn [file_write] in E.
  rewrite (file_at_lookup _ _ _ Hf) in *. pose proof (tb_file _ _ _ _ Hw i f Hf) as [_ _ Cp Cn _].
  destruct (f_kind f) eqn:Hk.
  - injection E as <- <-. split; [done|intros _; not_pipe Hk].
  - injection E as <- <-. split; [done|intros _; not_pipe Hk].
  - injection E as <- <-. split; [done|intros _; not_pipe Hk].
  - destruct (Cp (or_intror eq_refl)) as (j & Hj & Hjn). rewrite Hj in E. injection E as E.
    destruct (pipe_write_well held w me sp j buf n r w' Hw Hjn E) as (Hw' & Hother & Hq). split; [done|].
    intros Hn0 j'. specialize (Hq Hn0). unfold accepted, is_end. destruct (decide (f_kind f = FILE_PIPE_W /\ f_pipe f = Some j')) as [[_ Hj']|Hn].
    + rewrite Hj in Hj'. injection Hj' as <-. done.
    + rewrite Hother, decide_False, app_nil_r; [done|]. intros ->. by destruct Hn.
  - injection E as <- <-. split; [done|intros _; not_pipe Hk].
  - destruct (f_mem f) as [m|]; [|done]. destruct (mem_put _ _ _) as [data pos]. injection E as <- <-.
    split; [moved Hw Hf|intros _; not_pipe Hk].
  - destruct (f_writable f); cbn [negb] in E; [|injection E as <- <-; split; [done|intros _; not_pipe Hk]].
    destruct (match volume w with Some g => _ | None => _ end) as [[n' ff] d]. injection E as <- <-.
    split; [moved Hw Hf|intros _; not_pipe Hk].
  - rewrite Cn in E by (rewrite ?Hk; done). done.
  - injection E as <- <-. split; [done|intros _; not_pipe Hk].
  - destruct (f_conn f); [|done]. destruct (tcp_send _ _ _) as [n' k]. injection E as <- <-. split; [done|intros _; not_pipe Hk].
Qed.

Lemma getdents_well held g junk i len fuel : forall (w : world) buf c b w',
  well held w -> i ∈ held -> getdents_loop fuel g junk i len buf w = Ret (c, b, w') ->
  well held w' /\ pipes w' = pipes w.
Proof.
  induction fuel as [|fuel IH]; intros w buf c b w' Hw Hi E; [done|]. cbn [getdents_loop] in E.
  destruct (fat_dirent _ _ _ _ _) as [[[[name sz] dir]|]| |]; cbn [obind] in E; [|by injection E as <- <- <-|done..].
  destruct (len <? _). { destruct (zlen buf =? 0); by injection E as <- <- <-. }
  destruct (held_file _ _ _ Hw Hi) as [f Hf]. rewrite (file_at_lookup _ _ _ Hf) in E.
  apply IH in E; [exact E| |done]. by eapply (table_same held (files w)).
Qed.
Lemma file_getdents_well held (w : world) junk i len c b w' :
  well held w -> i ∈ held -> file_getdents junk (Some i) len w = Ret (c, b, w') -> well held w' /\ pipes w' = pipes w.
Proof.
  intros Hw Hi E. unfold file_getdents in E. destruct (negb _); [by injection E as <- <- <-|].
  destruct (volume w); [by eapply getdents_well|by injection E as <- <- <-].
Qed.

(** ** Runs

    A state is the descriptors there are, by the object each names, and the
    machine.  Every call of file.c is a step, made by any process with the
    descriptors that exist; [Moved] is everything the rest of the kernel does
    to the scheduler, the disk, the network and memory files. *)
Inductive event := ERead (i : nat) (r : io) | EWrite (i : nat) (buf : list Z) (n : Z) (r : io) | EOther.
Abbreviation state := (list nat * world)%type.

Inductive fstep : event -> state -> state -> Prop :=
  | s_open h w junk name mode c o w' :
      file_open junk name mode w = Ret (c, o, w') -> fstep EOther (h, w) (hold o h, w')
  | s_console h w o w' : file_console w = (o, w') -> fstep EOther (h, w) (hold o h, w')
  | s_pipe h w o w' : file_pipe w = (o, w') ->
      fstep EOther (h, w) (match o with Some (r, wr) => wr :: r :: h | None => h end, w')
  | s_ref h w i : i ∈ h -> fstep EOther (h, w) (i :: h, file_ref i w)
  | s_close h h' w i : h ≡ₚ i :: h' -> fstep EOther (h, w) (h', file_close pipes_at i w)
  | s_udp h w c o w' : file_udp w = (c, o, w') -> fstep EOther (h, w) (hold o h, w')
  | s_tcp h w c o w' : file_tcp w = (c, o, w') -> fstep EOther (h, w) (hold o h, w')
  | s_adopt h w s c o w' : file_tcp_adopt s w = (c, o, w') -> fstep EOther (h, w) (hold o h, w')
  | s_dents h w junk i len c b w' : i ∈ h ->
      file_getdents junk (Some i) len w = Ret (c, b, w') -> fstep EOther (h, w) (h, w')
  | s_read h w me sp i len r w' : i ∈ h -> 0 <= len ->
      file_read pipes_at me sp (Some i) len w = Ret (r, w') -> fstep (ERead i r) (h, w) (h, w')
  | s_write h w me sp i buf n r w' : i ∈ h -> 0 <= n <= zlen buf ->
      file_write pipes_at me sp (Some i) buf n w = Ret (r, w') -> fstep (EWrite i buf n r) (h, w) (h, w')
  | s_moved h w w' : files w' = files w -> pipes w' = pipes w -> console_file w' = console_file w ->
      fstep EOther (h, w) (h, w').

Definition out_of (j : nat) (e : event) (w : world) : list Z :=
  match e with ERead i r => delivered j (file_at w i) r | _ => [] end.
Definition into (j : nat) (e : event) (w : world) : list Z :=
  match e with EWrite i buf n r => accepted j (file_at w i) buf n r | _ => [] end.

Lemma fstep_well e (s s' : state) : well s.1 s.2 -> fstep e s s' ->
  well s'.1 s'.2
  /\ forall j, p_used (pipe_at s.2 j) = true -> queue (pipe_at s.2 j) ++ into j e s.2 = out_of j e s.2 ++ queue (pipe_at s'.2 j).
Proof.
  assert (forall (P : Prop) (w w' : world), P /\ still w w' -> P /\ forall j, p_used (pipe_at w j) = true ->
    queue (pipe_at w j) ++ [] = [] ++ queue (pipe_at w' j)) as Hquiet.
  { intros P w w' [HP Hs]. split; [done|]. intros j Hj. by rewrite app_nil_r, (Hs j Hj). }
  assert (forall (P : Prop) (w w' : world), P /\ pipes w' = pipes w -> P /\ still w w') as Hsame.
  { intros P w w' [HP Hs]. split; [done|by apply still_pipes]. }
  intros Hw Hst. destruct Hst; cbn [fst snd into out_of] in *.
  - apply Hquiet, Hsame. by eapply file_open_well.
  - apply Hquiet, Hsame. by eapply file_console_well.
  - apply Hquiet. by eapply file_pipe_well.
  - apply Hquiet, Hsame. by apply file_ref_well.
  - apply Hquiet. by apply (file_close_well h).
  - apply Hquiet, Hsame. by eapply file_udp_well.
  - apply Hquiet, Hsame. by eapply file_tcp_well.
  - apply Hquiet, Hsame. by eapply file_tcp_adopt_well.
  - apply Hquiet, Hsame. by eapply file_getdents_well.
  - edestruct (file_read_well h w) as [Hw' Hq]; try done. split; [done|]. intros j _. by rewrite app_nil_r, Hq.
  - edestruct (file_write_well h w) as [Hw' Hq]; try done. split; [done|]. intros j _. by rewrite Hq.
  - apply Hquiet, Hsame. split; [|done]. unfold well in *. congruence.
Qed.

(** The static tables before anything is opened. *)
Record cold (w : world) : Prop := {
  cold_files : files w = replicate NFILE zero_file; cold_pipes : pipes w = replicate NPIPE zero_pipe;
  cold_console : console_file w = None
}.

Lemma cold_well w : cold w -> well [] w.
Proof.
  intros [Ef Ep Ec]. unfold well. rewrite Ef, Ep, Ec.
  assert (forall k j, k = FILE_PIPE_R \/ k = FILE_PIPE_W -> ends k j (replicate NFILE zero_file) = 0) as E0.
  { intros k j Hk. destruct (decide (ends k j (replicate NFILE zero_file) = 0)) as [|Hn]; [done|].
    pose proof (ends_nonneg k j (replicate NFILE zero_file)).
    destruct (proj1 (ends_pos k j (replicate NFILE zero_file))) as (i & f & Hf & Hk' & _); [lia|].
    apply lookup_replicate in Hf as [-> _]. by destruct Hk as [-> | ->]. }
  split; [done|done| | | |].
  - intros i Hi. by apply not_elem_of_nil in Hi.
  - done.
  - intros i f Hf. apply lookup_replicate in Hf as [-> _]. split; try done. by intros [?|?].
  - intros j p Hp. apply lookup_replicate in Hp as [-> _]. split; [|done|].
    + split; by vm_compute.
    + rewrite !E0 by auto. done.
Qed.

Definition fruns (s s' : state) : Prop := rtc (fun a b => exists e, fstep e a b) s s'.

Lemma fruns_well s s' : well s.1 s.2 -> fruns s s' -> well s'.1 s'.2.
Proof. intros Hw R. induction R as [|s1 s2 s3 [e He] _ IH]; [done|]. apply IH. by eapply fstep_well. Qed.

(** A tidy pool, its descriptors and its pipes. *)
Lemma well_holders held (w : world) :
  well held w ->
  (forall i, (i < NFILE)%nat ->
     (f_kind (file_at w i) = FILE_FREE <-> i ∉ held)
     /\ (i ∈ held -> f_refs (file_at w i) = holders i held))
  /\ forall i j, i ∈ held -> f_pipe (file_at w i) = Some j ->
     p_used (pipe_at w j) = true
     /\ (0 < p_readers (pipe_at w j) <-> exists i', i' ∈ held /\ is_end FILE_PIPE_R j (file_at w i'))
     /\ (0 < p_writers (pipe_at w j) <-> exists i', i' ∈ held /\ is_end FILE_PIPE_W j (file_at w i')).
Proof.
  intros Hw.
  assert (forall i, (i < NFILE)%nat -> exists f, files w !! i = Some f) as Hlt.
  { intros i Hi. apply lookup_lt_is_Some_2. by rewrite (tb_len _ _ _ _ Hw). }
  assert (forall i, (i < NFILE)%nat -> (f_kind (file_at w i) = FILE_FREE <-> i ∉ held)) as Hfree.
  { intros i Hi. destruct (Hlt i Hi) as [f Hf]. rewrite (file_at_lookup _ _ _ Hf).
    destruct (tb_file _ _ _ _ Hw i f Hf) as [A B _ _ _]. rewrite <- holders_in. split.
    - intros Hk. rewrite A; [lia|done].
    - intros Hn. destruct (decide (f_kind f = FILE_FREE)) as [|Hk]; [done|]. by destruct (B Hk). }
  assert (forall i, i ∈ held -> exists f, files w !! i = Some f /\ f_kind f <> FILE_FREE) as Hin.
  { intros i Hi. pose proof (tb_held _ _ _ _ Hw i Hi) as Hl. destruct (Hlt i Hl) as [f Hf]. exists f. split; [done|].
    intros Hk. rewrite <- (file_at_lookup _ _ _ Hf) in Hk. by apply (Hfree i Hl) in Hk. }
  split.
  - intros i Hi. split; [by apply Hfree|]. intros Hh. destruct (Hin i Hh) as (f & Hf & Hk).
    rewrite (file_at_lookup _ _ _ Hf). by apply (tb_file _ _ _ _ Hw i f Hf).
  - intros i j Hi Hj. destruct (Hin i Hi) as (f & Hf & Hk). rewrite (file_at_lookup _ _ _ Hf) in Hj.
    destruct (tb_file _ _ _ _ Hw i f Hf) as [_ _ C E _].
    assert (f_kind f = FILE_PIPE_R \/ f_kind f = FILE_PIPE_W) as Hkind.
    { destruct (decide (f_kind f = FILE_PIPE_R)); [by left|]. destruct (decide (f_kind f = FILE_PIPE_W)); [by right|].
      rewrite E in Hj; done. }
    destruct (C Hkind) as (j' & Hj' & Hjn). assert (j' = j) as -> by congruence. rewrite <- (tb_plen _ _ _ _ Hw) in Hjn.
    destruct (lookup_lt_is_Some_2 _ _ Hjn) as [p Hp]. rewrite (pipe_at_lookup _ _ _ Hp).
    destruct (tb_pipe _ _ _ _ Hw _ _ Hp) as [_ Pu Pf].
    assert (p_used p = true) as Hu.
    { destruct (p_used p); [done|]. destruct (Pf eq_refl) as [Z1 Z2].
      destruct Hkind as [Hk'|Hk']; [assert (0 < ends FILE_PIPE_R j (files w)) by (apply ends_pos; eexists _, _; by split)
        |assert (0 < ends FILE_PIPE_W j (files w)) by (apply ends_pos; eexists _, _; by split)]; lia. }
    destruct (Pu Hu) as (-> & -> & _). split; [done|].
    assert (forall k, k <> FILE_FREE -> 0 < ends k j (files w) <-> exists i', i' ∈ held /\ is_end k j (file_at w i')) as Hends.
    { intros k Hk0. rewrite ends_pos. split; intros (i' & Hi').
      - destruct Hi' as (f' & Hf' & He). exists i'. rewrite (file_at_lookup _ _ _ Hf'). split; [|done].
        apply holders_in. apply (tb_file _ _ _ _ Hw i' f' Hf'). destruct He as [-> _]. done.
      - destruct Hi' as [Hh He]. destruct (Hin i' Hh) as (f' & Hf' & _). rewrite (file_at_lookup _ _ _ Hf') in He. eauto. }
    split; by apply Hends.
Qed.

(** C10: the counts are the holders.  Whatever processes open, share, read,
    write and close, an object of the pool is free exactly when no descriptor
    names it and counts its descriptors; and an end of a pipe that is open
    keeps that pipe in use, whose count of readers (writers) is not zero
    exactly when a descriptor of a reading (writing) end exists. *)
Theorem file_holders w0 held w :
  cold w0 -> fruns ([], w0) (held, w) ->
  (forall i, (i < NFILE)%nat ->
     (f_kind (file_at w i) = FILE_FREE <-> i ∉ held)
     /\ (i ∈ held -> f_refs (file_at w i) = holders i held))
  /\ forall i j, i ∈ held -> f_pipe (file_at w i) = Some j ->
     p_used (pipe_at w j) = true
     /\ (0 < p_readers (pipe_at w j) <-> exists i', i' ∈ held /\ is_end FILE_PIPE_R j (file_at w i'))
     /\ (0 < p_writers (pipe_at w j) <-> exists i', i' ∈ held /\ is_end FILE_PIPE_W j (file_at w i')).
Proof. intros Hc R. by apply well_holders, (fruns_well ([], w0) (held, w) (cold_well _ Hc) R). Qed.

(** A run watched at pipe [j], in use throughout: what went in and came out,
    by whichever process and descriptor. *)
Inductive watched (j : nat) : list Z -> list Z -> state -> state -> Prop :=
  | w_here s : watched j [] [] s s
  | w_step a d s1 s2 s3 e : watched j a d s1 s2 -> p_used (pipe_at s2.2 j) = true -> fstep e s2 s3 ->
      watched j (a ++ into j e s2.2) (d ++ out_of j e s2.2) s1 s3.

Lemma watched_one j e s1 s2 a d :
  p_used (pipe_at s1.2 j) = true -> fstep e s1 s2 -> into j e s1.2 = a -> out_of j e s1.2 = d -> watched j a d s1 s2.
Proof. intros Hu He <- <-. exact (w_step j [] [] s1 s1 s2 e (w_here j s1) Hu He). Qed.

(** C8: a pipe is a queue.  However many processes read, write, wait, and
    share its ends, what came out of a pipe in use and what is still in it is
    what was in it and went in, byte for byte and in order, and there are never
    more than 4095 bytes in it. *)
Theorem pipe_fifo w0 h1 w1 h2 w2 j a d :
  cold w0 -> fruns ([], w0) (h1, w1) -> watched j a d (h1, w1) (h2, w2) ->
  queue (pipe_at w1 j) ++ a = d ++ queue (pipe_at w2 j) /\ zlen (queue (pipe_at w2 j)) <= 4095.
Proof.
  intros Hc R Hr. pose proof (fruns_well ([], w0) (h1, w1) (cold_well _ Hc) R) as Hw. clear Hc R w0.
  split; [|pose proof (pipe_bytes_range (pipe_at w2 j)) as Hb; unfold PIPE_SIZE in Hb; rewrite queue_length; lia].
  change w1 with ((h1, w1).2). change w2 with ((h2, w2).2). revert Hr Hw. generalize (h1, w1) (h2, w2). intros s1 s2 Hr Hw.
  enough (well s2.1 s2.2 /\ queue (pipe_at s1.2 j) ++ a = d ++ queue (pipe_at s2.2 j)) as [_ E] by exact E.
  induction Hr as [s|a d s1 s2 s3 e Hr IH Hu He]; [split; [done|by rewrite app_nil_r]|].
  destruct (IH Hw) as [Hw2 E]. destruct (fstep_well _ _ _ Hw2 He) as [Hw3 Hq]. split; [done|].
  by rewrite app_assoc, E, <- !app_assoc, Hq.
Qed.

(** What a read of a pipe comes to.  It delivers as many of the oldest
    bytes as were asked for and are there; it says end of file only when the
    pipe is empty and no descriptor anywhere names a writing end; and it waits
    only when the pipe is empty and one does. *)
Theorem pipe_read_result w0 held w me sp i j len r w' :
  cold w0 -> fruns ([], w0) (held, w) -> i ∈ held -> is_end FILE_PIPE_R j (file_at w i) -> 0 < len ->
  file_read pipes_at me sp (Some i) len w = Ret (r, w') ->
  match r with
  | Done n b => n = zlen b /\ b = take (Z.to_nat len) (queue (pipe_at w j))
      /\ (n = 0 -> queue (pipe_at w j) = [] /\ forall i', i' ∈ held -> ~ is_end FILE_PIPE_W j (file_at w i'))
  | Block _ => queue (pipe_at w j) = [] /\ exists i', i' ∈ held /\ is_end FILE_PIPE_W j (file_at w i')
  end.
Proof.
  intros Hc R Hi [Hk Hj] Hlen E. destruct (file_holders w0 held w Hc R) as [_ Hends].
  destruct (Hends i j Hi Hj) as (Hu & _ & HW). assert (well held w) as Hw by (by apply (fruns_well ([], w0) (held, w) (cold_well _ Hc) R)).
  assert (pipe_ok (pipe_at w j)) as Hok.
  { unfold pipe_at in *. rewrite nth_lookup in *. destruct (pipes w !! j) as [p|] eqn:Ep; [|done]. by apply (tb_pipe _ _ _ _ Hw j p Ep). }
  cbn [file_read] in E. rewrite Hk, (proj2 (Z.eqb_neq len 0)), Hj in E by lia. injection E as E. unfold pipe_read in E.
  pose proof (queue_length (pipe_at w j)) as Hql. pose proof (pipe_bytes_range (pipe_at w j)).
  destruct (Z.eqb_spec (pipe_bytes (pipe_at w j)) 0) as [Hz|Hz].
  - assert (queue (pipe_at w j) = []) as Hq by (destruct (queue (pipe_at w j)); [done|rewrite zlen_cons in Hql; pose proof (zlen_nonneg l); lia]).
    destruct (Z.leb_spec (p_writers (pipe_at w j)) 0); injection E as <- <-.
    + rewrite Hq, take_nil. split; [done|]. split; [done|]. intros _. split; [done|]. intros i' Hi' He.
      assert (0 < p_writers (pipe_at w j)) by (apply HW; eauto). lia.
    + split; [done|]. by apply HW.
  - destruct (pipe_take _ _) as [l p'] eqn:Et. injection E as <- <-.
    destruct (pipe_take_spec _ _ _ _ Hok Et) as (_ & Hq & Hl & _). unfold zlen in *. split; [done|]. split.
    + rewrite Hq, length_app in Hl. rewrite Hq, take_app, take_ge by lia.
      destruct (decide (Z.to_nat len <= length l)%nat).
      * replace (Z.to_nat len - length l)%nat with 0%nat by lia. by rewrite take_0, app_nil_r.
      * assert (length (queue p') = 0%nat) as ->%nil_length_inv by lia. by rewrite take_nil, app_nil_r.
    + intros Hz0. lia.
Qed.

(** A write that does not fit, to an empty pipe somebody reads, stops 4095
    bytes in and sleeps without waking the reader. *)
Lemma pipe_write_full (w : world) me sp j src :
  pipe_ok (pipe_at w j) -> (j < length (pipes w))%nat -> pipe_bytes (pipe_at w j) = 0 -> 0 < p_readers (pipe_at w j) -> 4096 <= zlen src ->
  exists w', pipe_write pipes_at me sp j src 0 w = (Block 4095, w') /\ pipe_bytes (pipe_at w' j) = 4095
    /\ scheduler w' = thread_block_on_pipe me sp (pipe_obj pipes_at j) (scheduler w).
Proof.
  intros Hok Hj Hz Hr Hl. unfold pipe_write. rewrite drop_0.
  destruct (pipe_put (pipe_at w j) src 0) as [[st n] p] eqn:E.
  destruct (pipe_put_spec _ _ _ _ _ _ Hok E) as (_ & Hn & Hq & Ha & Hf & Hno & _).
  apply (f_equal zlen) in Hq. rewrite zlen_app, !queue_length, Hz, Z.sub_0_r in Hq.
  assert (zlen (take (Z.to_nat n) src) = n) as Ht by (unfold zlen in *; rewrite length_take; lia). rewrite Ht in Hq.
  pose proof (pipe_bytes_range p) as Hp. unfold PIPE_SIZE in *. destruct st.
  - specialize (Ha eq_refl). lia.
  - destruct (Hno eq_refl) as (_ & ? & _). lia.
  - destruct (Hf eq_refl) as (_ & Hfull & _). assert (n = 4095) as -> by lia.
    eexists. split; [done|]. cbn. split; [|done].
    unfold pipe_at. cbn. by rewrite nth_lookup, list_lookup_insert_eq.
Qed.

(** A directory has no contents: reading one follows a null pointer. *)
Theorem fatdir_read_faults (w : world) me sp i len :
  f_kind (file_at w i) = FILE_FATDIR -> f_pipe (file_at w i) = None -> 0 < len ->
  file_read pipes_at me sp (Some i) len w = Fault /\ forall buf, file_write pipes_at me sp (Some i) buf 0 w = Fault.
Proof. intros Hk Hp Hl. cbn. rewrite Hk, Hp, (proj2 (Z.eqb_neq len 0)) by lia. done. Qed.
End run.

(** ** Concrete runs *)
#[global] Instance no_channels : Channels unit := {|
  console_read_line k _ := (0, [], k); kputc k _ := k;
  udp_open k := (None, k); udp_close k _ := k; tcp_open k := (None, k); tcp_close k _ := k;
  tcp_send k _ _ := (-1, k); tcp_recv k _ _ := (-1, [], k)
|}.

Definition world0 (s : sched) : @world ramdisk unit :=
  World (replicate NPIPE zero_pipe) (replicate NFILE zero_file) None (replicate NMEM zero_mem) [] s None (blank 0) tt.

(** Two programs, in slots 2 and 3, the first of them running. *)
Definition two_programs : sched :=
  schedule 0 0 (schedule 0 0 (snd (thread_create 0 0 "writer" 0 0 (snd (thread_create 0 0 "reader" 0 0 boot16))))).
(** The first has a pipe, whose writing end the second holds, and reads it. *)
Definition piped : @world ramdisk unit := snd (file_pipe (world0 two_programs)).
Definition reading : @world ramdisk unit :=
  with_scheduler (thread_block_on_pipe 0 0 (pipe_obj 0 0) (scheduler piped)) piped.

Lemma with_scheduler_keeps {D K} v (w : @world D K) :
  pipes (with_scheduler v w) = pipes w /\ files (with_scheduler v w) = files w.
Proof. by destruct w. Qed.

(** A write of more than the pipe holds, to a reader that was there first,
    puts both to sleep for good.  The reader waits on the empty pipe; the
    writer, run next, fills it and waits for room without waking the reader;
    each sleeps on the pipe, with 4095 bytes in it, and nobody else has it. *)
Theorem pipe_deadlock src :
  4096 <= zlen src ->
  file_read 0 0 0 (Some 0%nat) 512 piped = Ret (Block 0, reading)
  /\ exists w', file_write 0 0 0 (Some 1%nat) src 0 reading = Ret (Block 4095, w')
    /\ pipe_bytes (pipe_at w' 0) = 4095
    /\ forall i, i = 2%nat \/ i = 3%nat ->
         t_state (th (scheduler w') i) = BLOCKED /\ t_wait_reason (th (scheduler w') i) = WAIT_PIPE
         /\ t_wait_object (th (scheduler w') i) = pipe_obj 0 0 /\ t_wake_at (th (scheduler w') i) = 0.
Proof.
  intros Hl. assert (pipe_at piped 0 = fresh_pipe 1 1 zero_pipe) as Ep by (vm_compute; reflexivity).
  destruct (with_scheduler_keeps (thread_block_on_pipe 0 0 (pipe_obj 0 0) (scheduler piped)) piped) as [Kp Kf].
  fold reading in Kp, Kf.
  assert (pipe_at reading 0 = fresh_pipe 1 1 zero_pipe) as Er by (rewrite <- Ep; unfold pipe_at; rewrite Kp; reflexivity).
  assert (forall i, file_at reading i = file_at piped i) as Ef by (intros i; unfold file_at; rewrite Kf; reflexivity).
  split.
  { cbn [file_read]. assert (f_kind (file_at piped 0) = FILE_PIPE_R) as -> by (vm_compute; reflexivity).
    assert (f_pipe (file_at piped 0) = Some 0%nat) as -> by (vm_compute; reflexivity).
    change (512 =? 0) with false. cbv iota. unfold pipe_read. rewrite Ep. reflexivity. }
  destruct (pipe_write_full 0 reading 0 0 0 src) as (w' & E & Hb & Hs).
  { rewrite Er. split; cbn; unfold PIPE_SIZE; [reflexivity|lia|lia]. }
  { rewrite Kp. vm_compute. lia. }
  { rewrite Er. reflexivity. }
  { rewrite Er. reflexivity. }
  { exact Hl. }
  exists w'. split; [|split; [exact Hb|]].
  - cbn [file_write]. rewrite Ef.
    assert (f_kind (file_at piped 1) = FILE_PIPE_W) as -> by (vm_compute; reflexivity).
    assert (f_pipe (file_at piped 1) = Some 0%nat) as -> by (vm_compute; reflexivity). by rewrite E.
  - rewrite Hs. 
    intros i [-> | ->]; vm_compute; repeat split.
Qed.

Lemma pipe_deadlock_witness :
  exists w', file_write 0 0 0 (Some 1%nat) (replicate 5000 65) 0 reading = Ret (Block 4095, w').
Proof.
  destruct (pipe_deadlock (replicate 5000 65)) as [_ (w' & E & _)]; [vm_compute; discriminate|].
  exists w'. exact E.
Defined.

Lemma world0_cold s : cold (world0 s).
Proof. by split. Qed.
Lemma piped_run : fruns 0 ([], world0 two_programs) ([1; 0]%nat, piped).
Proof.
  apply rtc_once. exists EOther. unfold piped. set (w0 := world0 two_programs).
  assert (fst (file_pipe w0) = Some (0%nat, 1%nat)) as E by (vm_compute; reflexivity).
  apply (s_pipe 0 [] w0 (Some (0%nat, 1%nat))). rewrite <- E. by destruct (file_pipe w0).
Qed.

Lemma file_holders_witness : f_refs (file_at piped 0) = 1 /\ p_used (pipe_at piped 0) = true.
Proof.
  destruct (file_holders 0 (world0 two_programs) [1; 0]%nat piped (world0_cold _) piped_run) as [Hf Hp].
  split.
  - rewrite (proj2 (Hf 0%nat ltac:(unfold NFILE; lia)) ltac:(right; left)). reflexivity.
  - apply (Hp 0%nat 0%nat); [right; left|vm_compute; reflexivity].
Defined.

Lemma pipe_read_result_witness : queue (pipe_at piped 0) = [].
Proof.
  assert (file_read 0 0 0 (Some 0%nat) 512 piped = Ret (Block 0, reading)) as E
    by exact (proj1 (pipe_deadlock (replicate 5000 65) ltac:(vm_compute; discriminate))).
  refine (proj1 (pipe_read_result 0 (world0 two_programs) [1; 0]%nat piped 0 0 0 0 512 _ reading (world0_cold _) piped_run _ _ _ E)).
  - right. left.
  - split; vm_compute; reflexivity.
  - lia.
Defined.

(** A byte through the pipe. *)
Definition fed : @world ramdisk unit :=
  match file_write 0 0 0 (Some 1%nat) [65; 66] 0 piped with Ret (_, w) => w | _ => piped end.
Lemma fed_step : fstep 0 (EWrite 1 [65; 66] 0 (Done 2 [])) ([1; 0]%nat, piped) ([1; 0]%nat, fed).
Proof.
  apply (s_write 0 _ piped 0 0); [left|by vm_compute|]. unfold fed.
  assert (match file_write 0 0 0 (Some 1%nat) [65; 66] 0 piped with Ret (Done 2 [], _) => True | _ => False end) as E by (vm_compute; exact I).
  destruct (file_write 0 0 0 (Some 1%nat) [65; 66] 0 piped) as [[[r [|x l]|n] w']| |]; try contradiction.
  all: destruct r as [|[p|[p|p|]|]|]; try contradiction.
  reflexivity.
Qed.
Lemma pipe_fifo_witness : queue (pipe_at piped 0) ++ [65; 66] = [] ++ queue (pipe_at fed 0).
Proof.
  refine (proj1 (pipe_fifo 0 (world0 two_programs) [1; 0]%nat piped [1; 0]%nat fed 0 [65; 66] [] (world0_cold _) piped_run _)).
  apply (watched_one 0 0 (EWrite 1 [65; 66] 0 (Done 2 []))); [vm_compute; reflexivity|exact fed_step|vm_compute; reflexivity..].
Defined.

