(* ===== verification/Net.v ===== *)
(** * Ethernet, ARP, IPv4, ICMP, UDP and the DHCP client

    [stam/net.c].  The card, the timer and the wait are behind the class
    [Machine]; TCP is a parameter, because the two call each other: a segment
    that arrives is given to [tcp_input], which sends through [net_ip_send],
    which may have to ask for an address and, while it waits, poll the card.
    That recursion is the code's own; its depth is bounded here by fuel.

    A received packet is a list of bytes of the length the card gave, and every
    read from it is checked: a read outside is a [Fault]. *)
From S2P Require Import Prelude Bytes.

Definition ET_ARP : Z := 0x0806.
Definition ET_IPV4 : Z := 0x0800.
Definition IP_ICMP : Z := 1.
Definition IP_UDP : Z := 17.
Definition IP_TCP : Z := 6.
Definition bcast_mac : list Z := replicate 6 0xff.
Definition ARP_N : nat := 4.
Definition PING_ID : Z := 0x5354.
Definition PAYLOAD : Z := 32.
Definition NSOCK : nat := 8.
Definition DGRAM_MAX : Z := 1472.

(** ** Checked reads *)
Definition ld16be (b : list Z) (o : Z) : outcome Z :=
  let! p0 := ld b o in let! p1 := ld b (o + 1) in Ret (Z.lor (Z.shiftl p0 8) p1).
Definition lds (b : list Z) (o n : Z) : outcome (list Z) :=
  if (0 <=? o) && (0 <=? n) && (o + n <=? zlen b) then Ret (slice b o n) else Fault.

(** ** The internet checksum *)
Fixpoint sum_add (sum : Z) (p : list Z) : Z :=
  match p with
  | a :: b :: p => sum_add (u32 (sum + Z.lor (Z.shiftl a 8) b)) p
  | [a] => u32 (sum + Z.shiftl a 8)
  | [] => sum
  end.

(** Two turns are enough for any 32-bit sum. *)
Fixpoint fold_loop (n : nat) (sum : Z) : Z :=
  match n with
  | O => sum
  | S n => if Z.shiftr sum 16 =? 0 then sum else fold_loop n (Z.land sum 0xffff + Z.shiftr sum 16)
  end.
Definition sum_fold (sum : Z) : Z := u16 (Z.lnot (fold_loop 3 sum)).
Definition checksum (p : list Z) : Z := sum_fold (sum_add 0 p).

Definition pseudo (src dst proto len : Z) : list Z :=
  b_put32 src ++ b_put32 dst ++ [0; proto] ++ b_put16 (u16 len).
Definition net_ip_checksum_with_pseudo (src dst proto : Z) (seg : list Z) : Z :=
  sum_fold (sum_add (sum_add 0 (pseudo src dst proto (zlen seg))) seg).

(** ** State *)
Record arp_entry := ArpEntry { a_ip : Z; a_mac : list Z; a_used : bool }.
(** [struct udp_sock]; [u_data] is the first [len] bytes of [data]. *)
Record udp_sock := UdpSock {
  u_used : bool; u_port : Z; u_have : bool; u_from_ip : Z; u_from_port : Z; u_data : list Z
}.
Record net := Net {
  my_mac : list Z; my_ip : Z; my_mask : Z; gw_ip : Z; dns_ip : Z; up : bool;
  arp : list arp_entry; socks : list udp_sock; next_ephemeral : Z; ident : Z;
  ping_seq : option Z; ping_got : bool; ping_intact : bool
}.
Definition eta_net (n : net) : net :=
  Net (my_mac n) (my_ip n) (my_mask n) (gw_ip n) (dns_ip n) (up n) (arp n) (socks n) (next_ephemeral n) (ident n)
    (ping_seq n) (ping_got n) (ping_intact n).
Definition with_my_mac v n : net := ltac:(field_set my_mac eta_net v n).
Definition with_my_ip v n : net := ltac:(field_set my_ip eta_net v n).
Definition with_my_mask v n : net := ltac:(field_set my_mask eta_net v n).
Definition with_gw_ip v n : net := ltac:(field_set gw_ip eta_net v n).
Definition with_dns_ip v n : net := ltac:(field_set dns_ip eta_net v n).
Definition with_up v n : net := ltac:(field_set up eta_net v n).
Definition with_arp v n : net := ltac:(field_set arp eta_net v n).
Definition with_socks v n : net := ltac:(field_set socks eta_net v n).
Definition with_next_ephemeral v n : net := ltac:(field_set next_ephemeral eta_net v n).
Definition with_ident v n : net := ltac:(field_set ident eta_net v n).
Definition with_ping_seq v n : net := ltac:(field_set ping_seq eta_net v n).
Definition with_ping_got v n : net := ltac:(field_set ping_got eta_net v n).
Definition with_ping_intact v n : net := ltac:(field_set ping_intact eta_net v n).

Definition zero_arp : arp_entry := ArpEntry 0 (zeros 6) false.
Definition zero_udp : udp_sock := UdpSock false 0 false 0 0 [].
Definition net0 : net :=
  Net (zeros 6) 0 0 0 0 false (replicate ARP_N zero_arp) (replicate NSOCK zero_udp) 49152 0 None false false.

Fixpoint find_index {A} (ok : A -> bool) (l : list A) (i : nat) : option nat :=
  match l with
  | [] => None
  | x :: l => if ok x then Some i else find_index ok l (S i)
  end.

(** ** The cache of addresses *)
Definition arp_learn (ip : Z) (mac : list Z) (n : net) : net :=
  match find_index (fun e => a_used e && (a_ip e =? ip)) (arp n) 0 with
  | Some i => with_arp (<[i := ArpEntry ip mac true]> (arp n)) n
  | None =>
      match find_index (fun e => negb (a_used e)) (arp n) 0 with
      | Some i => with_arp (<[i := ArpEntry ip mac true]> (arp n)) n
      | None => with_arp (<[0%nat := ArpEntry ip mac true]> (arp n)) n
      end
  end.
Fixpoint arp_find (ip : Z) (l : list arp_entry) : option (list Z) :=
  match l with
  | [] => None
  | e :: l => if a_used e && (a_ip e =? ip) then Some (a_mac e) else arp_find ip l
  end.
Definition arp_lookup (ip : Z) (n : net) : option (list Z) := arp_find ip (arp n).

(** ** UDP sockets *)
Definition sock (n : net) (i : nat) : udp_sock := nth i (socks n) zero_udp.
Definition put_sock (i : nat) (s : udp_sock) (n : net) : net := with_socks (<[i := s]> (socks n)) n.

Definition port_taken (p : Z) (n : net) : bool :=
  existsb (fun s => u_used s && (u_port s =? p)) (socks n).

Definition udp_open (n : net) : option nat * net :=
  if negb (up n) then (None, n) else
  match find_index (fun s => negb (u_used s)) (socks n) 0 with
  | None => (None, n)
  | Some i =>
      let s := sock n i in
      (Some i, put_sock i (UdpSock true 0 false (u_from_ip s) (u_from_port s) (u_data s)) n)
  end.
Definition udp_close (i : nat) (n : net) : net :=
  let s := sock n i in put_sock i (UdpSock false 0 false (u_from_ip s) (u_from_port s) (u_data s)) n.

Definition set_port (i : nat) (p : Z) (n : net) : net :=
  let s := sock n i in put_sock i (UdpSock (u_used s) p (u_have s) (u_from_ip s) (u_from_port s) (u_data s)) n.

Fixpoint pick_port (tries : nat) (i : nat) (n : net) : bool * net :=
  match tries with
  | O => (false, n)
  | S tries =>
      let p := next_ephemeral n in
      let next := u16 (p + 1) in
      let n := with_next_ephemeral (if next =? 0 then 49152 else next) n in
      if port_taken p n then pick_port tries i n else (true, set_port i p n)
  end.
Definition udp_bind (i : nat) (port : Z) (n : net) : bool * net :=
  if negb (u_used (sock n i)) then (false, n) else
  if port =? 0 then pick_port 4096 i n else
  if port_taken port n then (false, n) else (true, set_port i port n).

(** The bytes, the sender, and the socket empty again. *)
Definition udp_recvfrom (i : nat) (max : Z) (n : net) : option (list Z * Z * Z) * net :=
  let s := sock n i in
  if negb (u_used s) || negb (u_have s) then (None, n) else
  (Some (take (Z.to_nat (Z.min (zlen (u_data s)) max)) (u_data s), u_from_ip s, u_from_port s),
   put_sock i (UdpSock (u_used s) (u_port s) false (u_from_ip s) (u_from_port s) (u_data s)) n).

(** ** Frames *)
Definition eth_header (n : net) (dst : list Z) (type : Z) : list Z := dst ++ my_mac n ++ b_put16 type.

(** Twenty bytes, the checksum computed with zero in its place. *)
Definition ip_bytes (total id proto src dst c : Z) : list Z :=
  [0x45; 0] ++ b_put16 (u16 total) ++ b_put16 (u16 id) ++ [0; 0; 64; proto] ++ b_put16 c ++ b_put32 src ++ b_put32 dst.
Definition ip_header (total id proto src dst : Z) : list Z :=
  ip_bytes total id proto src dst (checksum (ip_bytes total id proto src dst 0)).

Definition udp_bytes (sport dport c : Z) (buf : list Z) : list Z :=
  b_put16 sport ++ b_put16 dport ++ b_put16 (u16 (8 + zlen buf)) ++ b_put16 c ++ buf.
Definition udp_frame (n : net) (src sport dst dport : Z) (mac buf : list Z) : list Z :=
  let c := net_ip_checksum_with_pseudo src dst IP_UDP (udp_bytes sport dport 0 buf) in
  eth_header n mac ET_IPV4 ++ ip_header (20 + 8 + zlen buf) (Z.lxor sport dport) IP_UDP src dst
  ++ udp_bytes sport dport (if c =? 0 then 0xffff else c) buf.

Definition arp_frame (n : net) (dst : list Z) (op : Z) (target_mac : list Z) (target : Z) : list Z :=
  eth_header n dst ET_ARP ++ b_put16 1 ++ b_put16 ET_IPV4 ++ [6; 4] ++ b_put16 op
  ++ my_mac n ++ b_put32 (my_ip n) ++ target_mac ++ b_put32 target ++ zeros 18.

(** ** The machine *)
Class Machine (M : Type) := {
  card_present : M -> bool;
  (** 0 on success *)
  card_send : M -> list Z -> Z * M;
  (** the next frame, none if nothing is waiting *)
  card_recv : M -> list Z * M;
  ticks : M -> Z; hz : M -> Z;
  net_wait : M -> Z -> M;
  counter : M -> Z * M;
  micros : M -> Z
}.

Section host.
Context {M : Type} `{Machine M} {T : Type}.

Record host := Host { h_net : net; h_tcp : T; h_m : M }.
Definition on_net (f : net -> net) (h : host) : host := Host (f (h_net h)) (h_tcp h) (h_m h).
Definition set_tcp (t : T) (h : host) : host := Host (h_net h) t (h_m h).
Definition set_m (m : M) (h : host) : host := Host (h_net h) (h_tcp h) m.

Definition transmit (frame : list Z) (h : host) : Z * host :=
  let '(r, m) := card_send (h_m h) frame in (r, set_m m h).

(** [route ip h]: the hardware address a packet to [ip] goes to. *)
Abbreviation router := (Z -> host -> outcome (option (list Z) * host)).
Abbreviation sender := (Z -> Z -> list Z -> host -> outcome (Z * host)).

(** [tcp_input send seg src h] *)
Context (tcp_input : sender -> list Z -> Z -> host -> outcome host).

Definition net_ip_send (route : router) (dst proto : Z) (payload : list Z) (h : host) : outcome (Z * host) :=
  if 1480 <? zlen payload then Ret (-1, h) else
  let! r := route dst h in
  match r with
  | (None, h) => Ret (-1, h)
  | (Some mac, h) =>
      let n := h_net h in
      let f := eth_header n mac ET_IPV4 ++ ip_header (20 + zlen payload) (ident n) proto (my_ip n) dst ++ payload in
      Ret (transmit f (on_net (with_ident (u16 (ident n + 1))) h))
  end.

(** ** What arrived *)
Definition handle_arp (r : list Z) (h : host) : outcome host :=
  if zlen r <? 42 then Ret h else
  let! ptype := ld16be r 16 in let! hl := ld r 18 in let! pl := ld r 19 in
  if negb (ptype =? ET_IPV4) || negb (hl =? 6) || negb (pl =? 4) then Ret h else
  let! op := ld16be r 20 in
  let! from := ld32be r 28 in
  let! mac := lds r 22 6 in
  let h := on_net (arp_learn from mac) h in
  if negb (op =? 1) then Ret h else
  let! target := ld32be r 38 in
  let n := h_net h in
  if (my_ip n =? 0) || negb (target =? my_ip n) then Ret h else
  Ret (transmit (arp_frame n mac 2 mac from) h).2.

Fixpoint echo_intact (p : list Z) (seq i : Z) (k : nat) : outcome bool :=
  match k with
  | O => Ret true
  | S k =>
      let! c := ld p (8 + i) in
      let! rest := echo_intact p seq (i + 1) k in
      Ret ((c =? u8 (0x40 + Z.land (seq + i) 0x1f)) && rest)
  end.

Definition handle_icmp (route : router) (ic : list Z) (src : Z) (h : host) : outcome host :=
  let n := zlen ic in
  if n <? 8 then Ret h else
  if negb (checksum ic =? 0) then Ret h else
  let! type := ld ic 0 in
  if type =? 0 then
    match ping_seq (h_net h) with
    | None => Ret h
    | Some seq =>
        let! id := ld16be ic 4 in
        if negb (id =? PING_ID) then Ret h else
        let! s := ld16be ic 6 in
        if negb (s =? u16 seq) then Ret h else
        if n <? 8 + PAYLOAD then Ret h else
        let! same := echo_intact ic seq 0 (Z.to_nat PAYLOAD) in
        Ret (on_net (fun n => with_ping_got true (with_ping_intact same n)) h)
    end
  else if (type =? 8) && negb (my_ip (h_net h) =? 0) then
    let len := if 14 + 20 + 8 + DGRAM_MAX <? n then DGRAM_MAX else n in
    if 14 + 20 + 8 + 64 - 14 - 20 <? len then Ret h else
    let! r := route src h in
    match r with
    | (None, h) => Ret h
    | (Some mac, h) =>
        let! body := lds ic 4 (len - 4) in
        let! code := ld ic 1 in
        let o := [0; code; 0; 0] ++ body in
        let f := eth_header (h_net h) mac ET_IPV4 ++ ip_header (20 + len) 0 IP_ICMP (my_ip (h_net h)) src
                 ++ [0; code] ++ b_put16 (checksum o) ++ body in
        Ret (transmit f h).2
    end
  else Ret h.

(** The first socket bound to the port, if it is empty. *)
Definition handle_udp (u : list Z) (src : Z) (h : host) : outcome host :=
  let n := zlen u in
  if n <? 8 then Ret h else
  let! sport := ld16be u 0 in let! dport := ld16be u 2 in let! ulen := ld16be u 4 in
  if (ulen <? 8) || (n <? ulen) then Ret h else
  let payload := ulen - 8 in
  match find_index (fun s => u_used s && (u_port s =? dport)) (socks (h_net h)) 0 with
  | None => Ret h
  | Some i =>
      let s := sock (h_net h) i in
      if u_have s then Ret h else
      let! data := lds u 8 (if DGRAM_MAX <? payload then DGRAM_MAX else payload) in
      Ret (on_net (put_sock i (UdpSock (u_used s) (u_port s) true src sport data)) h)
  end.

Definition handle_ipv4 (route : router) (r : list Z) (h : host) : outcome host :=
  let n := zlen r in
  if n <? 14 + 20 then Ret h else
  let! b0 := ld r 14 in
  let ihl := Z.land b0 0x0f * 4 in
  if negb (Z.shiftr b0 4 =? 4) || (ihl <? 20) then Ret h else
  if n <? 14 + ihl then Ret h else
  let! hdr := lds r 14 ihl in
  if negb (checksum hdr =? 0) then Ret h else
  let! total := ld16be r 16 in
  if (total <? ihl) || (n <? 14 + total) then Ret h else
  let! src := ld32be r 26 in
  let! dst := ld32be r 30 in
  let me := my_ip (h_net h) in
  if negb (me =? 0) && negb (dst =? me) && negb (dst =? 0xffffffff) then Ret h else
  let! payload := lds r (14 + ihl) (total - ihl) in
  let! proto := ld r 23 in
  if proto =? IP_ICMP then handle_icmp route payload src h else
  if proto =? IP_UDP then handle_udp payload src h else
  if proto =? IP_TCP then tcp_input (net_ip_send route) payload src h else Ret h.

Definition handle_frame (route : router) (r : list Z) (h : host) : outcome host :=
  let! type := ld16be r 12 in
  if type =? ET_ARP then handle_arp r h else
  if type =? ET_IPV4 then handle_ipv4 route r h else Ret h.

Fixpoint poll_loop (route : router) (guard : nat) (h : host) : outcome host :=
  match guard with
  | O => Ret h
  | S guard =>
      let '(r, m) := card_recv (h_m h) in
      let h := set_m m h in
      if zlen r <? 14 then Ret h else
      let! h := handle_frame route r h in
      poll_loop route guard h
  end.
Definition net_poll_with (route : router) (h : host) : outcome host :=
  if negb (card_present (h_m h)) then Ret h else poll_loop route 32 h.

(** ** Asking for an address *)
Fixpoint resolve_loop (poll : host -> outcome host) (fuel : nat) (deadline ip : Z) (h : host)
    : outcome (option (list Z) * host) :=
  if negb (ticks (h_m h) <? deadline) then Ret (None, h) else
  match fuel with
  | O => Diverge
  | S fuel =>
      let! h := poll h in
      match arp_lookup ip (h_net h) with
      | Some mac => Ret (Some mac, h)
      | None => resolve_loop poll fuel deadline ip (set_m (net_wait (h_m h) 1) h)
      end
  end.

Definition arp_resolve_with (poll : host -> outcome host) (fuel : nat) (ip : Z) (h : host)
    : outcome (option (list Z) * host) :=
  if negb (card_present (h_m h)) then Ret (None, h) else
  match arp_lookup ip (h_net h) with
  | Some mac => Ret (Some mac, h)
  | None =>
      let '(r, h) := transmit (arp_frame (h_net h) bcast_mac 1 (zeros 6) ip) h in
      if negb (r =? 0) then Ret (None, h) else
      resolve_loop poll fuel (u64 (ticks (h_m h) + hz (h_m h))) ip h
  end.

Definition next_hop (ip : Z) (n : net) : Z :=
  if negb (my_mask n =? 0) && negb (Z.land (Z.lxor ip (my_ip n)) (my_mask n) =? 0) then gw_ip n else ip.

Fixpoint route_mac (fuel : nat) (ip : Z) (h : host) : outcome (option (list Z) * host) :=
  let next := next_hop ip (h_net h) in
  if next =? 0 then Ret (None, h) else
  match arp_lookup next (h_net h) with
  | Some mac => Ret (Some mac, h)
  | None =>
      match fuel with
      | O => Diverge
      | S fuel => arp_resolve_with (net_poll_with (route_mac fuel)) fuel next h
      end
  end.

Definition net_poll (fuel : nat) (h : host) : outcome host := net_poll_with (route_mac fuel) h.
Definition net_arp_resolve (fuel : nat) (ip : Z) (h : host) : outcome (option (list Z) * host) :=
  arp_resolve_with (net_poll fuel) fuel ip h.

(** ** Sending a datagram *)
Definition udp_send_from (src sport dst dport : Z) (mac buf : list Z) (h : host) : Z * host :=
  if DGRAM_MAX <? zlen buf then (-1, h) else
  transmit (udp_frame (h_net h) src sport dst dport mac buf) h.

Definition udp_sendto (fuel : nat) (i : nat) (ip port : Z) (buf : list Z) (h : host) : outcome (Z * host) :=
  let s := sock (h_net h) i in
  if negb (u_used s) || negb (up (h_net h)) then Ret (-1, h) else
  let '(ok, h) := if u_port s =? 0 then let '(ok, n) := udp_bind i 0 (h_net h) in (ok, on_net (fun _ => n) h) else (true, h) in
  if negb ok then Ret (-1, h) else
  let! r := route_mac fuel ip h in
  match r with
  | (None, h) => Ret (-1, h)
  | (Some mac, h) => Ret (udp_send_from (my_ip (h_net h)) (u_port (sock (h_net h) i)) ip port mac buf h)
  end.

(** ** ICMP echo *)
Definition echo_payload (seq : Z) : list Z := (fun i => u8 (0x40 + Z.land (seq + i) 0x1f)) <$> seqZ 0 PAYLOAD.
Definition echo_bytes (seq c : Z) : list Z := [8; 0] ++ b_put16 c ++ b_put16 PING_ID ++ b_put16 seq ++ echo_payload seq.

Fixpoint ping_loop (poll : host -> outcome host) (fuel : nat) (deadline sent : Z) (h : host) : outcome (Z * bool * host) :=
  if negb (ticks (h_m h) <? deadline) then Ret (-1, false, on_net (with_ping_seq None) h) else
  match fuel with
  | O => Diverge
  | S fuel =>
      let! h := poll h in
      if ping_got (h_net h) then
        let took := u64 (micros (h_m h) - sent) in
        Ret (Z.min took 0x7fffffff, ping_intact (h_net h), on_net (with_ping_seq None) h)
      else ping_loop poll fuel deadline sent (set_m (net_wait (h_m h) 1) h)
  end.

Definition net_ping (fuel : nat) (ip seq : Z) (h : host) : outcome (Z * bool * host) :=
  if negb (card_present (h_m h)) then Ret (-1, false, h) else
  let! r := route_mac fuel ip h in
  let! r := match r with
            | (Some mac, h) => Ret (Some mac, h)
            | (None, h) => net_arp_resolve fuel ip h
            end in
  match r with
  | (None, h) => Ret (-1, false, h)
  | (Some gw, h) =>
      let f := eth_header (h_net h) gw ET_IPV4 ++ ip_header (20 + 8 + PAYLOAD) seq IP_ICMP (my_ip (h_net h)) ip
               ++ echo_bytes seq (checksum (echo_bytes seq 0)) in
      let h := on_net (fun n => with_ping_seq (Some seq) (with_ping_intact false (with_ping_got false n))) h in
      let sent := micros (h_m h) in
      let '(r, h) := transmit f h in
      if negb (r =? 0) then Ret (-1, false, on_net (with_ping_seq None) h) else
      ping_loop (net_poll fuel) fuel (u64 (ticks (h_m h) + hz (h_m h) * 2)) sent h
  end.

(** ** DHCP *)
Definition DHCP_MAGIC : Z := 0x63825363.
Definition DHCP_LEN : Z := 300.

(** The offset and the length of an option's value; offset 0 when it is not
    there.  [fuel]: the bytes left. *)
Fixpoint option_loop (fuel : nat) (p : list Z) (want i : Z) : outcome (Z * Z) :=
  match fuel with
  | O => Diverge
  | S fuel =>
      if i + 1 <? zlen p then
        let! code := ld p i in
        if code =? 255 then Ret (0, 0) else
        if code =? 0 then option_loop fuel p want (i + 1) else
        let! l := ld p (i + 1) in
        if zlen p <? i + 2 + l then Ret (0, 0) else
        if code =? want then Ret (i + 2, l) else option_loop fuel p want (i + 2 + l)
      else Ret (0, 0)
  end.
Definition dhcp_option (p : list Z) (want : Z) : outcome (Z * Z) := option_loop (S (length p)) p want 240.

Definition dhcp_fill (n : net) (xid type server requested : Z) : list Z :=
  let m := [1; 1; 6; 0] ++ b_put32 xid ++ zeros 2 ++ b_put16 0x8000 ++ zeros 16 ++ my_mac n ++ zeros 202 ++ b_put32 DHCP_MAGIC
           ++ [53; 1; type]
           ++ (if server =? 0 then [] else [54; 4] ++ b_put32 server)
           ++ (if requested =? 0 then [] else [50; 4] ++ b_put32 requested)
           ++ [55; 3; 1; 3; 6; 255] in
  m ++ zeros (DHCP_LEN - zlen m).

(** Is this the answer waited for? *)
Definition dhcp_answer (xid want : Z) (m : list Z) : outcome bool :=
  if zlen m <? 240 then Ret false else
  let! op := ld m 0 in
  if negb (op =? 2) then Ret false else
  let! x := ld32be m 4 in
  if negb (x =? xid) then Ret false else
  let! magic := ld32be m 236 in
  if negb (magic =? DHCP_MAGIC) then Ret false else
  let! o := dhcp_option m 53 in
  let '(t, l) := o in
  if (t =? 0) || negb (l =? 1) then Ret false else
  let! type := ld m t in Ret (type =? want).

Fixpoint dhcp_wait (poll : host -> outcome host) (fuel : nat) (deadline : Z) (i : nat) (xid want : Z) (h : host)
    : outcome (option (list Z) * host) :=
  if negb (ticks (h_m h) <? deadline) then Ret (None, h) else
  match fuel with
  | O => Diverge
  | S fuel =>
      let! h := poll h in
      match udp_recvfrom i DGRAM_MAX (h_net h) with
      | (None, n) => dhcp_wait poll fuel deadline i xid want (set_m (net_wait (h_m h) 1) (on_net (fun _ => n) h))
      | (Some (m, _, _), n) =>
          let h := on_net (fun _ => n) h in
          let! ok := dhcp_answer xid want m in
          if ok then Ret (Some m, h) else dhcp_wait poll fuel deadline i xid want h
      end
  end.

(** One option's address, when it is there. *)
Definition option_ip (m : list Z) (want : Z) (exact : bool) : outcome (option Z) :=
  let! o := dhcp_option m want in
  let '(t, l) := o in
  if negb (t =? 0) && (if exact then l =? 4 else 4 <=? l) then let! a := ld32be m t in Ret (Some a) else Ret None.

Definition or_keep (f : Z -> net -> net) (o : option Z) (n : net) : net := match o with Some v => f v n | None => n end.

Definition dhcp_configure (fuel : nat) (h : host) : outcome (bool * host) :=
  let '(s, n) := udp_open (h_net h) in
  let h := on_net (fun _ => n) h in
  match s with
  | None => Ret (false, h)
  | Some i =>
      let close h := on_net (udp_close i) h in
      let '(ok, n) := udp_bind i 68 (h_net h) in
      let h := on_net (fun _ => n) h in
      if negb ok then Ret (false, close h) else
      let '(c, m) := counter (h_m h) in
      let h := set_m m h in
      let xid := Z.lxor (u32 c) 0x5354414d in
      let deadline h := u64 (ticks (h_m h) + hz (h_m h) * 2) in
      let '(r, h) := udp_send_from 0 68 0xffffffff 67 bcast_mac (dhcp_fill (h_net h) xid 1 0 0) h in
      if negb (r =? 0) then Ret (false, close h) else
      let! o := dhcp_wait (net_poll fuel) fuel (deadline h) i xid 2 h in
      match o with
      | (None, h) => Ret (false, close h)
      | (Some reply, h) =>
          let! offered := ld32be reply 16 in
          let! server := option_ip reply 54 true in
          let '(r, h) := udp_send_from 0 68 0xffffffff 67 bcast_mac
                           (dhcp_fill (h_net h) xid 3 (default 0 server) offered) h in
          if negb (r =? 0) then Ret (false, close h) else
          let! a := dhcp_wait (net_poll fuel) fuel (deadline h) i xid 5 h in
          match a with
          | (None, h) => Ret (false, close h)
          | (Some reply, h) =>
              let! ip := ld32be reply 16 in
              let! mask := option_ip reply 1 true in
              let! gw := option_ip reply 3 false in
              let! dns := option_ip reply 6 false in
              let h := on_net (fun n => or_keep with_dns_ip dns (or_keep with_gw_ip gw
                                          (or_keep with_my_mask mask (with_my_ip ip n)))) h in
              Ret (negb (ip =? 0), close h)
          end
      end
  end.

(** [IPV4(a, b, c, d)] *)
Definition IPV4 (a b c d : Z) : Z := Z.lor (Z.lor (Z.lor (Z.shiftl a 24) (Z.shiftl b 16)) (Z.shiftl c 8)) d.

Definition net_init (fuel : nat) (mac : list Z) (h : host) : outcome host :=
  let h := on_net (fun n => with_up true (with_my_mac mac n)) h in
  let! r := dhcp_configure fuel h in
  match r with
  | (true, h) => Ret h
  | (false, h) =>
      Ret (on_net (fun n => with_gw_ip (IPV4 10 0 2 2) (with_my_mask (IPV4 255 255 255 0) (with_my_ip (IPV4 10 0 2 15) n))) h)
  end.
End host.
