(* ===== verification/Packets.v ===== *)
(** * What the network sends is what it receives

    The checksum verifies itself; a datagram built on one machine is delivered,
    byte for byte, to the socket bound on another; and no packet whatever makes
    the receiver read outside it. *)
From S2P Require Import Prelude Bytes Net.

(** ** The checksum *)

(** The sum of the 16-bit words, an odd byte padded on the right. *)
Fixpoint words (p : list Z) : Z :=
  match p with
  | a :: b :: p => a * 256 + b + words p
  | [a] => a * 256
  | [] => 0
  end.

Lemma pair_ind (P : list Z -> Prop) : P [] -> (forall a, P [a]) -> (forall a b p, P p -> P (a :: b :: p)) -> forall p, P p.
Proof.
  intros H0 H1 H2. fix IH 1. intros [|a [|b p]]; [done|done|]. apply H2, IH.
Qed.

Lemma words_nonneg p : bytes_ok p -> 0 <= words p.
Proof.
  induction p as [|a|a b p IH] using pair_ind; intros Hp; cbn; [lia| |].
  - apply Forall_cons in Hp as [Ha _]. unfold is_byte in Ha. lia.
  - apply Forall_cons in Hp as [Ha Hp]. apply Forall_cons in Hp as [Hb Hp]. specialize (IH Hp). unfold is_byte in *. lia.
Qed.
Lemma words_bound p : bytes_ok p -> words p <= 32768 * (zlen p + 1).
Proof.
  induction p as [|a|a b p IH] using pair_ind; intros Hp; cbn [words]; [done| |]; rewrite !zlen_cons, ?zlen_nil.
  - apply Forall_cons in Hp as [Ha _]. unfold is_byte in Ha. lia.
  - apply Forall_cons in Hp as [Ha Hp]. apply Forall_cons in Hp as [Hb Hp]. specialize (IH Hp). unfold is_byte in *. lia.
Qed.
Lemma words_app p q : Z.even (zlen p) = true -> words (p ++ q) = words p + words q.
Proof.
  induction p as [|a|a b p IH] using pair_ind; intros He; [done|done|].
  cbn [words app]. rewrite IH; [lia|].
  assert (zlen (a :: b :: p) = zlen p + 2) as E by (rewrite !zlen_cons; lia). rewrite E, Z.even_add in He.
  by destruct (Z.even (zlen p)).
Qed.

Lemma word_sum a b : is_byte b -> Z.lor (Z.shiftl a 8) b = a * 256 + b.
Proof. unfold is_byte. intros Hb. rewrite Z.lor_comm, lor_shiftl_add by lia. lia. Qed.

Lemma sum_add_words p : forall s, bytes_ok p -> 0 <= s -> s + words p < 2 ^ 32 -> sum_add s p = s + words p.
Proof.
  induction p as [|a|a b p IH] using pair_ind; intros s Hp Hs Hb; cbn [sum_add words] in *; [lia| |].
  - rewrite uwrap_small; rewrite Z.shiftl_mul_pow2 by lia; [done|].
    apply Forall_cons in Hp as [Ha _]. unfold is_byte in Ha. lia.
  - apply Forall_cons in Hp as [Ha Hp]. apply Forall_cons in Hp as [Hb' Hp]. rewrite word_sum by done.
    pose proof (words_nonneg p Hp). unfold is_byte in *. rewrite uwrap_small by lia. rewrite IH; [lia|done|lia|lia].
Qed.

Lemma fold_step s : 0 <= s -> Z.land s 0xffff + Z.shiftr s 16 = s mod 65536 + s / 65536.
Proof. intros Hs. change 0xffff with (Z.ones 16). rewrite Z.land_ones, Z.shiftr_div_pow2 by lia. done. Qed.

(** Folding keeps the sum modulo [65535], and keeps zero apart. *)
Lemma fold_spec s : 0 <= s < 2 ^ 32 ->
  0 <= fold_loop 3 s < 65536 /\ fold_loop 3 s mod 65535 = s mod 65535 /\ (fold_loop 3 s = 0 -> s = 0).
Proof.
  intros Hs.
  assert (forall n t, 0 <= t -> (Z.shiftr t 16 =? 0) = true -> fold_loop n t = t /\ t < 65536) as Hend.
  { intros n t Ht E. split; [destruct n; [done|cbn [fold_loop]; by rewrite E]|].
    apply Z.eqb_eq in E. rewrite Z.shiftr_div_pow2 in E by lia. zdm. }
  assert (forall t, 0 <= t < 2 ^ 32 -> let u := t mod 65536 + t / 65536 in
    0 <= u < 131071 /\ u mod 65535 = t mod 65535 /\ (u = 0 -> t = 0) /\ (t < 131071 -> u < 65536)) as Hstep.
  { intros t Ht u. unfold u. split; [zdm|]. split; [|split; zdm].
    rewrite (Z.div_mod t 65536) at 3 by lia. replace (65536 * (t / 65536) + t mod 65536) with (t mod 65536 + t / 65536 + (t / 65536) * 65535) by lia.
    by rewrite Z_mod_plus_full. }
  cbn [fold_loop]. destruct (Z.shiftr s 16 =? 0) eqn:E1.
  { destruct (Hend 0%nat s) as [_ ?]; [lia|done|]. split; [lia|done]. }
  rewrite fold_step by lia. destruct (Hstep s Hs) as (B1 & M1 & Z1 & _). set (u := s mod 65536 + s / 65536) in *.
  destruct (Z.shiftr u 16 =? 0) eqn:E2.
  { destruct (Hend 0%nat u) as [_ ?]; [lia|done|]. split; [lia|done]. }
  rewrite fold_step by lia. destruct (Hstep u) as (B2 & M2 & Z2 & L2); [lia|]. set (v := u mod 65536 + u / 65536) in *.
  assert ((Z.shiftr v 16 =? 0) = true) as ->.
  { apply Z.eqb_eq. rewrite Z.shiftr_div_pow2 by lia. apply Z.div_small. lia. }
  split; [lia|]. split; [congruence|]. auto.
Qed.

Lemma sum_fold_spec s : 0 <= s < 2 ^ 32 -> sum_fold s = 65535 - fold_loop 3 s.
Proof.
  intros Hs. destruct (fold_spec s Hs) as (Hb & _). unfold sum_fold, Z.lnot, uwrap.
  replace (Z.pred (- fold_loop 3 s)) with (65535 - fold_loop 3 s + (-1) * 65536) by lia.
  change (2 ^ 16) with 65536. rewrite Z_mod_plus_full. apply Z.mod_small. lia.
Qed.

(** A sum with its own checksum added folds to zero. *)
Lemma sum_fold_zero s : 0 <= s -> s + 65535 < 2 ^ 32 -> sum_fold (s + sum_fold s) = 0.
Proof.
  intros Hs Hb. destruct (decide (s = 0)) as [->|Hs0]; [done|].
  rewrite (sum_fold_spec s) by lia. destruct (fold_spec s) as (B & Hm & Hz); [lia|].
  rewrite sum_fold_spec by lia. destruct (fold_spec (s + (65535 - fold_loop 3 s))) as (B2 & Hm2 & Hz2); [lia|].
  set (f := fold_loop 3 s) in *. set (f2 := fold_loop 3 (s + (65535 - f))) in *.
  assert (f2 mod 65535 = 0) as Hf2.
  { rewrite Hm2. replace (s + (65535 - f)) with (s - f + 1 * 65535) by lia. rewrite Z_mod_plus_full.
    rewrite Zminus_mod, Hm, Z.sub_diag. done. }
  assert (f2 <> 0) by (intros E; specialize (Hz2 E); lia).
  apply Z.mod_divide in Hf2 as [k Hk]; [|lia]. assert (k = 1) as -> by lia. lia.
Qed.

Lemma checksum_words p : bytes_ok p -> zlen p <= 65536 -> checksum p = sum_fold (words p) /\ 0 <= words p < 2 ^ 31 + 2 ^ 16.
Proof.
  intros Hp Hl. pose proof (words_nonneg p Hp). pose proof (words_bound p Hp). unfold checksum.
  rewrite sum_add_words by (done || lia). split; [done|lia].
Qed.

Lemma words_put16 c : 0 <= c < 65536 -> words (b_put16 c) = c.
Proof. intros Hc. cbn. unfold uwrap. rewrite Z.shiftr_div_pow2 by lia. zdm. Qed.

Lemma words_ip_bytes total id proto src dst c :
  0 <= c < 65536 -> words (ip_bytes total id proto src dst c) = words (ip_bytes total id proto src dst 0) + c.
Proof.
  intros Hc. pose proof (words_put16 c Hc) as E. pose proof (words_put16 0 ltac:(lia)) as E0.
  unfold ip_bytes. rewrite !words_app by done. lia.
Qed.

Lemma ip_bytes_ok total id proto src dst c : is_byte proto -> bytes_ok (ip_bytes total id proto src dst c).
Proof.
  intros Hp. unfold ip_bytes. repeat (apply Forall_app; split); try apply b_put16_bytes; try apply b_put32_bytes.
  - by repeat (constructor; [unfold is_byte; lia|]).
  - repeat (constructor; [done || (unfold is_byte; lia)|]). constructor.
Qed.
Lemma ip_bytes_len total id proto src dst c : zlen (ip_bytes total id proto src dst c) = 20.
Proof. reflexivity. Qed.

Lemma sum_fold_range s : 0 <= sum_fold s < 65536.
Proof. apply (uwrap_range 16). lia. Qed.

(** A header carries its own checksum. *)
Lemma ip_header_verifies total id proto src dst : is_byte proto -> checksum (ip_header total id proto src dst) = 0.
Proof.
  intros Hp. unfold ip_header.
  destruct (checksum_words (ip_bytes total id proto src dst 0)) as [-> [B0 B1]]; [by apply ip_bytes_ok|by rewrite ip_bytes_len|].
  set (c := sum_fold _). pose proof (sum_fold_range (words (ip_bytes total id proto src dst 0))).
  destruct (checksum_words (ip_bytes total id proto src dst c)) as [-> _]; [by apply ip_bytes_ok|by rewrite ip_bytes_len|].
  rewrite words_ip_bytes by done. apply sum_fold_zero; lia.
Qed.

(** And so does a segment under its pseudo-header. *)
Lemma pseudo_ok src dst proto len : is_byte proto -> bytes_ok (pseudo src dst proto len).
Proof.
  intros Hp. unfold pseudo. repeat (apply Forall_app; split); try apply b_put16_bytes; try apply b_put32_bytes.
  repeat (constructor; [done || (unfold is_byte; lia)|]). constructor.
Qed.
Lemma pseudo_sum src dst proto seg :
  is_byte proto -> bytes_ok seg -> zlen seg <= 2000 ->
  net_ip_checksum_with_pseudo src dst proto seg = sum_fold (words (pseudo src dst proto (zlen seg)) + words seg)
  /\ 0 <= words (pseudo src dst proto (zlen seg)) + words seg < 2 ^ 31.
Proof.
  intros Hp Hs Hl. pose proof (pseudo_ok src dst proto (zlen seg) Hp) as Hps.
  pose proof (words_nonneg _ Hps). pose proof (words_bound _ Hps) as Hb. change (zlen (pseudo src dst proto (zlen seg))) with 12 in Hb.
  pose proof (words_nonneg _ Hs). pose proof (words_bound _ Hs).
  unfold net_ip_checksum_with_pseudo. rewrite !sum_add_words by (done || rewrite ?sum_add_words by (done || lia); lia).
  split; [done|lia].
Qed.
Lemma pseudo_verifies src dst proto seg0 seg c :
  is_byte proto -> bytes_ok seg0 -> bytes_ok seg -> zlen seg = zlen seg0 -> zlen seg <= 2000 ->
  c = net_ip_checksum_with_pseudo src dst proto seg0 -> words seg = words seg0 + c ->
  net_ip_checksum_with_pseudo src dst proto seg = 0.
Proof.
  intros Hp Hs0 Hs El Hl Hc Hw.
  destruct (pseudo_sum src dst proto seg0) as [E0 B0]; [done|done|lia|].
  destruct (pseudo_sum src dst proto seg) as [-> _]; [done|done|lia|].
  rewrite Hw, El, Hc, E0, Z.add_assoc. apply sum_fold_zero; lia.
Qed.

(** ** Fields of a packet *)
Lemma lds_app a b c : lds (a ++ b ++ c) (zlen a) (zlen b) = Ret b.
Proof.
  unfold lds. pose proof (zlen_nonneg a). pose proof (zlen_nonneg b). pose proof (zlen_nonneg c).
  rewrite !zlen_app. rewrite !(proj2 (Z.leb_le _ _)) by lia. cbn [andb]. f_equal.
  unfold slice, zlen. rewrite !Nat2Z.id. rewrite drop_app_length, take_app_length. done.
Qed.

Lemma join16 v : 0 <= v < 65536 -> Z.lor (Z.shiftl (u8 (Z.shiftr v 8)) 8) (u8 v) = v.
Proof. intros Hv. rewrite word_sum by apply u8_byte. unfold uwrap. rewrite Z.shiftr_div_pow2 by lia. zdm. Qed.
Lemma join32 v : 0 <= v < 2 ^ 32 ->
  Z.lor (Z.lor (Z.lor (Z.shiftl (u8 (Z.shiftr v 24)) 24) (Z.shiftl (u8 (Z.shiftr v 16)) 16)) (Z.shiftl (u8 (Z.shiftr v 8)) 8)) (u8 v) = v.
Proof.
  intros Hv. change (u8 v) with (at_ (b_put32 v) 3). change (u8 (Z.shiftr v 8)) with (at_ (b_put32 v) 2).
  change (u8 (Z.shiftr v 16)) with (at_ (b_put32 v) 1). change (u8 (Z.shiftr v 24)) with (at_ (b_put32 v) 0).
  change (Z.lor _ _) with (get32 (b_put32 v) 0). rewrite get32_sum by apply b_put32_bytes.
  pose proof (rd32_b_wr32 v Hv) as E. rewrite rd32_sum in E by apply b_wr32_bytes.
  change (at_ (b_wr32 v) 0) with (at_ (b_put32 v) (0 + 3)) in E. change (at_ (b_wr32 v) (0 + 1)) with (at_ (b_put32 v) (0 + 2)) in E.
  change (at_ (b_wr32 v) (0 + 2)) with (at_ (b_put32 v) (0 + 1)) in E. change (at_ (b_wr32 v) (0 + 3)) with (at_ (b_put32 v) 0) in E. lia.
Qed.

(** A read of the front of [a ++ b] is a read of [a]. *)
Lemma ld_front a b i : 0 <= i < zlen a -> ld (a ++ b) i = ld a i.
Proof.
  intros Hi. unfold ld, zlen in *. rewrite (proj2 (Z.leb_le 0 i)) by lia. by rewrite lookup_app_l by lia.
Qed.
Lemma ld16be_front a b i : 0 <= i -> i + 2 <= zlen a -> ld16be (a ++ b) i = ld16be a i.
Proof. intros. unfold ld16be. by rewrite !ld_front by lia. Qed.
Lemma ld32be_front a b i : 0 <= i -> i + 4 <= zlen a -> ld32be (a ++ b) i = ld32be a i.
Proof. intros. unfold ld32be. by rewrite !ld_front by lia. Qed.

Section delivery.
Context {M : Type} `{Machine M} {T : Type}.
Context (tcp_input : (Z -> Z -> list Z -> @host M T -> outcome (Z * @host M T)) -> list Z -> Z -> @host M T -> outcome (@host M T)).
Context (route : Z -> @host M T -> outcome (option (list Z) * @host M T)).

(** An IPv4 packet the machine is addressed by reaches its handler whole,
    whatever the card appends to short frames. *)
Lemma ipv4_delivered (n : net) mac id proto src dst payload padding (h : @host M T) :
  length mac = 6%nat -> length (my_mac n) = 6%nat -> is_byte proto ->
  0 <= src < 2 ^ 32 -> 0 <= dst < 2 ^ 32 -> zlen payload <= 1480 ->
  (my_ip (h_net h) = 0 \/ dst = my_ip (h_net h) \/ dst = 0xffffffff) ->
  handle_frame tcp_input route
    ((eth_header n mac ET_IPV4 ++ ip_header (20 + zlen payload) id proto src dst ++ payload) ++ padding) h =
  (if proto =? IP_ICMP then handle_icmp route payload src h else
   if proto =? IP_UDP then handle_udp payload src h else
   if proto =? IP_TCP then tcp_input (net_ip_send route) payload src h else Ret h).
Proof.
  intros Hmac Hmy Hp Hsrc Hdst Hl Hme. pose proof (zlen_nonneg payload). pose proof (zlen_nonneg padding).
  destruct mac as [|d0 [|d1 [|d2 [|d3 [|d4 [|d5 [|]]]]]]]; try discriminate Hmac.
  unfold eth_header. destruct (my_mac n) as [|m0 [|m1 [|m2 [|m3 [|m4 [|m5 [|]]]]]]] eqn:Emy; try discriminate Hmy.
  pose proof (ip_header_verifies (20 + zlen payload) id proto src dst Hp) as Hv.
  set (eth := ([d0; d1; d2; d3; d4; d5] ++ [m0; m1; m2; m3; m4; m5] ++ b_put16 ET_IPV4)).
  set (hdr := ip_header (20 + zlen payload) id proto src dst) in *.
  assert (zlen eth = 14) as He by reflexivity. assert (zlen hdr = 20) as Hh by reflexivity.
  replace ((eth ++ hdr ++ payload) ++ padding) with ((eth ++ hdr) ++ payload ++ padding) by (by rewrite <- !app_assoc).
  set (front := eth ++ hdr). assert (zlen front = 34) as Hf by (unfold front; rewrite zlen_app; lia).
  set (r := front ++ payload ++ padding).
  assert (zlen r = 34 + zlen payload + zlen padding) as Hr by (unfold r; rewrite !zlen_app; lia).
  unfold handle_frame. unfold r at 1. rewrite ld16be_front by lia. change (ld16be front 12) with (Ret ET_IPV4). cbn [obind].
  change (ET_IPV4 =? ET_ARP) with false. change (ET_IPV4 =? ET_IPV4) with true. cbv iota.
  unfold handle_ipv4. rewrite Hr, (proj2 (Z.ltb_ge _ _)) by lia.
  unfold r at 1. rewrite ld_front by lia. change (ld front 14) with (Ret 0x45). cbn [obind].
  change (Z.land 69 15 * 4) with 20. change (negb (Z.shiftr 69 4 =? 4) || (20 <? 20)) with false. cbv iota.
  rewrite (proj2 (Z.ltb_ge _ _)) by lia.
  assert (lds r 14 20 = Ret hdr) as ->.
  { unfold r, front. rewrite <- app_assoc, <- He, <- Hh. apply lds_app. }
  cbn [obind]. rewrite Hv. change (negb (0 =? 0)) with false. cbv iota.
  assert (ld16be r 16 = Ret (20 + zlen payload)) as ->.
  { unfold r. rewrite ld16be_front by lia. change (ld16be front 16) with
      (Ret (Z.lor (Z.shiftl (u8 (Z.shiftr (u16 (20 + zlen payload)) 8)) 8) (u8 (u16 (20 + zlen payload))))).
    rewrite (uwrap_small 16) by lia. by rewrite join16 by lia. }
  cbn [obind]. rewrite (proj2 (Z.ltb_ge (20 + zlen payload) 20)), (proj2 (Z.ltb_ge (34 + zlen payload + zlen padding) _)) by lia. cbn [orb].
  assert (ld32be r 26 = Ret src) as ->.
  { unfold r. rewrite ld32be_front by lia. change (ld32be front 26) with (Ret (Z.lor (Z.lor (Z.lor (Z.shiftl (u8 (Z.shiftr src 24)) 24)
      (Z.shiftl (u8 (Z.shiftr src 16)) 16)) (Z.shiftl (u8 (Z.shiftr src 8)) 8)) (u8 src))). by rewrite join32. }
  assert (ld32be r 30 = Ret dst) as ->.
  { unfold r. rewrite ld32be_front by lia. change (ld32be front 30) with (Ret (Z.lor (Z.lor (Z.lor (Z.shiftl (u8 (Z.shiftr dst 24)) 24)
      (Z.shiftl (u8 (Z.shiftr dst 16)) 16)) (Z.shiftl (u8 (Z.shiftr dst 8)) 8)) (u8 dst))). by rewrite join32. }
  cbn [obind].
  assert (negb (my_ip (h_net h) =? 0) && negb (dst =? my_ip (h_net h)) && negb (dst =? 4294967295) = false) as ->.
  { destruct Hme as [-> | [-> | ->]]; [done|by rewrite Z.eqb_refl, andb_false_r|by rewrite andb_false_r]. }
  assert (lds r (14 + 20) (20 + zlen payload - 20) = Ret payload) as ->.
  { replace (20 + zlen payload - 20) with (zlen payload) by lia. change (14 + 20) with 34. rewrite <- Hf. apply lds_app. }
  unfold r. rewrite ld_front by lia. change (ld front 23) with (Ret proto). done.
Qed.

Lemma find_index_app {A} (ok : A -> bool) l i k : find_index ok l k = Some i -> (k <= i)%nat /\ exists x, l !! (i - k)%nat = Some x /\ ok x = true.
Proof.
  revert k. induction l as [|y l IH]; intros k E; cbn in E; [done|]. destruct (ok y) eqn:Ey.
  - injection E as <-. rewrite Nat.sub_diag. split; [lia|]. by exists y.
  - destruct (IH _ E) as (Hk & x & Hx & Hok). split; [lia|]. exists x.
    replace (i - k)%nat with (S (i - S k)) by lia. done.
Qed.

Lemma udp_delivered src sport dport c buf i (h : @host M T) :
  0 <= sport < 65536 -> 0 <= dport < 65536 -> zlen buf <= DGRAM_MAX ->
  find_index (fun s => u_used s && (u_port s =? dport)) (socks (h_net h)) 0 = Some i -> u_have (sock (h_net h) i) = false ->
  handle_udp (udp_bytes sport dport c buf) src h
  = Ret (on_net (put_sock i (UdpSock true dport true src sport buf)) h).
Proof.
  unfold DGRAM_MAX. intros Hs Hd Hl Hi Hhave. pose proof (zlen_nonneg buf). unfold handle_udp, udp_bytes.
  set (front := b_put16 sport ++ b_put16 dport ++ b_put16 (u16 (8 + zlen buf)) ++ b_put16 c).
  replace (b_put16 sport ++ b_put16 dport ++ b_put16 (u16 (8 + zlen buf)) ++ b_put16 c ++ buf) with (front ++ buf)
    by (unfold front; by rewrite <- !app_assoc).
  assert (zlen front = 8) as Hf by reflexivity.
  rewrite zlen_app, Hf, (proj2 (Z.ltb_ge (8 + zlen buf) 8)) by lia. rewrite !ld16be_front by lia.
  change (ld16be front 0) with (Ret (Z.lor (Z.shiftl (u8 (Z.shiftr sport 8)) 8) (u8 sport))).
  change (ld16be front 2) with (Ret (Z.lor (Z.shiftl (u8 (Z.shiftr dport 8)) 8) (u8 dport))).
  change (ld16be front 4) with (Ret (Z.lor (Z.shiftl (u8 (Z.shiftr (u16 (8 + zlen buf)) 8)) 8) (u8 (u16 (8 + zlen buf))))).
  rewrite (uwrap_small 16), !join16 by lia. cbn [obind]. rewrite !(proj2 (Z.ltb_ge _ _)) by lia. cbn [orb]. rewrite Hi.
  destruct (find_index_app _ _ _ _ Hi) as (_ & x & Hx & Hok). rewrite Nat.sub_0_r in Hx.
  assert (sock (h_net h) i = x) as Esock by (unfold sock; by rewrite nth_lookup, Hx). rewrite Esock in *.
  apply andb_true_iff in Hok as [Hu Hp%Z.eqb_eq]. rewrite Hhave, Hu, Hp.
  rewrite (proj2 (Z.ltb_ge 1472 _)) by (unfold DGRAM_MAX; lia). replace (8 + zlen buf - 8) with (zlen buf) by lia.
  pose proof (lds_app front buf []) as E. rewrite app_nil_r, Hf in E. by rewrite E.
Qed.

(** C14: a datagram sent is the datagram received.  The frame one machine
    builds for a payload of any length a datagram may have is delivered by
    another, addressed by it or by broadcast or not addressed yet, to the first
    socket bound to the port: the payload byte for byte with the sender's
    address and port; and nothing else of that machine changes. *)
Theorem udp_round_trip (n : net) mac src sport dst dport buf padding i (h : @host M T) :
  length mac = 6%nat -> length (my_mac n) = 6%nat -> bytes_ok buf -> zlen buf <= DGRAM_MAX ->
  0 <= src < 2 ^ 32 -> 0 <= dst < 2 ^ 32 -> 0 <= sport < 65536 -> 0 <= dport < 65536 ->
  (my_ip (h_net h) = 0 \/ dst = my_ip (h_net h) \/ dst = 0xffffffff) ->
  find_index (fun s => u_used s && (u_port s =? dport)) (socks (h_net h)) 0 = Some i -> u_have (sock (h_net h) i) = false ->
  handle_frame tcp_input route (udp_frame n src sport dst dport mac buf ++ padding) h
  = Ret (on_net (put_sock i (UdpSock true dport true src sport buf)) h).
Proof.
  intros Hmac Hmy Hb Hl Hsrc Hdst Hs Hd Hme Hi Hhave. unfold udp_frame.
  set (c := if _ =? 0 then _ else _).
  assert (20 + 8 + zlen buf = 20 + zlen (udp_bytes sport dport c buf)) as ->.
  { unfold udp_bytes. rewrite !zlen_app, !zlen_b_put16. lia. }
  rewrite ipv4_delivered; try done.
  - change (IP_UDP =? IP_ICMP) with false. change (IP_UDP =? IP_UDP) with true. cbv iota. by apply udp_delivered.
  - unfold udp_bytes, DGRAM_MAX in *. rewrite !zlen_app, !zlen_b_put16. lia.
Qed.
End delivery.

(** ** No read outside a packet *)
Lemma ld_inside b i : 0 <= i < zlen b -> exists v, ld b i = Ret v.
Proof.
  intros Hi. unfold ld, zlen in *. rewrite (proj2 (Z.leb_le 0 i)) by lia.
  destruct (lookup_lt_is_Some_2 b (Z.to_nat i)) as [v ->]; [lia|eauto].
Qed.
Lemma ld16be_inside b i : 0 <= i -> i + 2 <= zlen b -> exists v, ld16be b i = Ret v.
Proof.
  intros. unfold ld16be. destruct (ld_inside b i) as [u ->]; [lia|]. destruct (ld_inside b (i + 1)) as [v ->]; [lia|]. cbn. eauto.
Qed.
Lemma ld32be_inside b i : 0 <= i -> i + 4 <= zlen b -> exists v, ld32be b i = Ret v.
Proof.
  intros. unfold ld32be. destruct (ld_inside b i) as [u ->]; [lia|]. destruct (ld_inside b (i + 1)) as [v ->]; [lia|].
  destruct (ld_inside b (i + 2)) as [w ->]; [lia|]. destruct (ld_inside b (i + 3)) as [x ->]; [lia|]. cbn. eauto.
Qed.
Lemma lds_inside b i n : 0 <= i -> 0 <= n -> i + n <= zlen b -> lds b i n = Ret (slice b i n) /\ zlen (slice b i n) = n.
Proof. intros. unfold lds. rewrite !(proj2 (Z.leb_le _ _)) by lia. cbn [andb]. split; [done|]. apply zlen_slice; lia. Qed.

(** [x] does not fault. *)
Definition sound {A} (x : outcome A) : Prop := x <> Fault.

Lemma sound_bind {A B} (x : outcome A) (k : A -> outcome B) : sound x -> (forall a, x = Ret a -> sound (k a)) -> sound (obind x k).
Proof. unfold sound. destruct x; cbn; intros Hx Hk; [by apply Hk|done|done]. Qed.
Lemma sound_ret {A} (a : A) : sound (Ret a).
Proof. done. Qed.

(** [inside H]: the next read is inside the packet. *)
Ltac read1 := match goal with
  | |- sound (obind (ld ?b ?i) _) => let v := fresh "v" in let E := fresh "E" in destruct (ld_inside b i) as [v E]; [lia|rewrite E; cbn [obind]; clear E]
  | |- sound (obind (ld16be ?b ?i) _) => let v := fresh "v" in let E := fresh "E" in destruct (ld16be_inside b i) as [v E]; [lia|lia|rewrite E; cbn [obind]; clear E]
  | |- sound (obind (ld32be ?b ?i) _) => let v := fresh "v" in let E := fresh "E" in destruct (ld32be_inside b i) as [v E]; [lia|lia|rewrite E; cbn [obind]; clear E]
  | |- sound (if ?c then _ else _) => destruct c eqn:?; [done|]
  end.

Section sound.
Context {M : Type} `{Machine M} {T : Type}.
Abbreviation hst := (@host M T).
Abbreviation sender := (Z -> Z -> list Z -> hst -> outcome (Z * hst)).
Context (tcp_input : sender -> list Z -> Z -> hst -> outcome hst).
Context (Htcp : forall send : sender, (forall dst p b h, sound (send dst p b h)) -> forall seg src h, sound (tcp_input send seg src h)).

Section routed.
Context (route : Z -> hst -> outcome (option (list Z) * hst)) (Hroute : forall ip h, sound (route ip h)).

Lemma net_ip_send_sound dst p b h : sound (net_ip_send route dst p b h).
Proof.
  unfold net_ip_send. destruct (_ <? _); [done|]. apply sound_bind; [apply Hroute|]. intros [[mac|] h'] _; done.
Qed.

Lemma handle_arp_sound r (h : hst) : sound (handle_arp r h).
Proof.
  unfold handle_arp. destruct (Z.ltb_spec (zlen r) 42); [done|]. repeat read1.
  destruct (lds_inside r 22 6) as [-> _]; [lia..|]. cbn [obind]. repeat read1. destruct (_ || _); done.
Qed.

Lemma echo_intact_sound p seq k : forall i, 0 <= i -> 8 + i + Z.of_nat k <= zlen p -> sound (echo_intact p seq i k).
Proof.
  induction k as [|k IH]; intros i Hi Hk; [done|]. cbn [echo_intact]. read1.
  apply sound_bind; [apply IH; lia|done].
Qed.

Lemma handle_icmp_sound ic src (h : hst) : sound (handle_icmp route ic src h).
Proof.
  unfold handle_icmp. destruct (Z.ltb_spec (zlen ic) 8); [done|]. repeat read1. destruct (v =? 0).
  - destruct (ping_seq (h_net h)) as [seq|]; [|done]. repeat read1. destruct (Z.ltb_spec (zlen ic) (8 + PAYLOAD)); [done|].
    apply sound_bind; [apply echo_intact_sound; unfold PAYLOAD in *; lia|done].
  - destruct (_ && _); [|done]. set (len := if 14 + 20 + 8 + DGRAM_MAX <? zlen ic then DGRAM_MAX else zlen ic). destruct (Z.ltb_spec (14 + 20 + 8 + 64 - 14 - 20) len); [done|].
    apply (sound_bind (route src h)); [apply Hroute|]. intros [[mac|] h'] _; [|done].
    assert (len = zlen ic) as ->.
    { unfold len, DGRAM_MAX in *. destruct (Z.ltb_spec (14 + 20 + 8 + 1472) (zlen ic)); [lia|done]. }
    destruct (lds_inside ic 4 (zlen ic - 4)) as [-> _]; [lia..|]. cbn [obind]. read1. done.
Qed.

Lemma handle_udp_sound u src (h : hst) : sound (handle_udp u src h).
Proof.
  unfold handle_udp. destruct (Z.ltb_spec (zlen u) 8); [done|]. repeat read1.
  match goal with E : _ || _ = false |- _ => apply orb_false_iff in E as [E1%Z.ltb_ge E2%Z.ltb_ge] end.
  destruct (find_index _ _ _) as [i|]; [|done]. destruct (u_have _); [done|].
  destruct (lds_inside u 8 (if DGRAM_MAX <? v1 - 8 then DGRAM_MAX else v1 - 8)) as [-> _]; [lia|..|done].
  all: unfold DGRAM_MAX; destruct (Z.ltb_spec 1472 (v1 - 8)); lia.
Qed.

Lemma handle_frame_sound r (h : hst) : 14 <= zlen r -> sound (handle_frame tcp_input route r h).
Proof.
  intros Hr. unfold handle_frame. read1. destruct (v =? ET_ARP); [apply handle_arp_sound|].
  destruct (v =? ET_IPV4); [|done]. unfold handle_ipv4. destruct (Z.ltb_spec (zlen r) (14 + 20)); [done|].
  repeat read1. apply orb_false_iff in Heqb as [_ Hihl%Z.ltb_ge]. apply Z.ltb_ge in Heqb0.
  destruct (lds_inside r 14 (Z.land v0 0x0f * 4)) as [-> _]; [lia..|]. cbn [obind]. repeat read1.
  match goal with E : (_ <? Z.land _ _ * 4) || _ = false |- _ => apply orb_false_iff in E as [E1%Z.ltb_ge E2%Z.ltb_ge] end.
  repeat read1. destruct (lds_inside r (14 + Z.land v0 0x0f * 4) (v1 - Z.land v0 0x0f * 4)) as [-> _]; [lia..|]. cbn [obind]. read1.
  destruct (_ =? IP_ICMP); [apply handle_icmp_sound|]. destruct (_ =? IP_UDP); [apply handle_udp_sound|].
  destruct (_ =? IP_TCP); [|done]. apply Htcp, net_ip_send_sound.
Qed.

Lemma net_poll_with_sound (h : hst) : sound (net_poll_with tcp_input route h).
Proof.
  unfold net_poll_with. destruct (negb _); [done|]. generalize 32%nat. intros n. revert h.
  induction n as [|n IH]; intros h; [done|]. cbn [poll_loop]. destruct (card_recv (h_m h)) as [r m].
  destruct (Z.ltb_spec (zlen r) 14); [done|]. apply sound_bind; [by apply handle_frame_sound|]. intros h' _. apply IH.
Qed.
End routed.

Lemma resolve_loop_sound (poll : hst -> outcome hst) fuel : (forall h, sound (poll h)) -> forall d ip (h : hst), sound (resolve_loop poll fuel d ip h).
Proof.
  intros Hp. induction fuel as [|fuel IH]; intros d ip h; cbn [resolve_loop]; destruct (negb _); try done.
  apply sound_bind; [apply Hp|]. intros h' _. destruct (arp_lookup _ _); [done|]. apply IH.
Qed.

Lemma route_mac_sound fuel : forall ip (h : hst), sound (route_mac tcp_input fuel ip h).
Proof.
  induction fuel as [|fuel IH]; intros ip h; cbn [route_mac]; destruct (_ =? 0); try done; destruct (arp_lookup _ _); try done.
  unfold arp_resolve_with. destruct (negb _); [done|]. destruct (arp_lookup _ _); [done|].
  destruct (transmit _ _) as [r h']. destruct (negb _); [done|]. apply resolve_loop_sound. intros h2. by apply net_poll_with_sound.
Qed.

Lemma net_poll_sound fuel (h : hst) : sound (net_poll tcp_input fuel h).
Proof. apply net_poll_with_sound. apply route_mac_sound. Qed.
End sound.

(** ** A concrete machine

    A wire with the frames still to arrive, the frames sent, and a clock, for
    the theorems' witnesses. *)
Record wire := Wire { w_in : list (list Z); w_out : list (list Z); w_clock : Z }.
#[global] Instance wire_machine : Machine wire := {
  card_present _ := true;
  card_send w f := (0, Wire (w_in w) (w_out w ++ [f]) (w_clock w));
  card_recv w := match w_in w with
                 | [] => ([], w)
                 | f :: l => (f, Wire l (w_out w) (w_clock w))
                 end;
  ticks w := w_clock w;
  hz _ := 100;
  net_wait w n := Wire (w_in w) (w_out w) (w_clock w + n);
  counter w := (w_clock w, Wire (w_in w) (w_out w) (w_clock w + 1));
  micros w := w_clock w * 10000
}.

Definition ex_net (ip : Z) : net :=
  with_my_ip ip (with_my_mac [2; 0; 0; 0; 0; ip] (with_up true net0)).

Lemma udp_round_trip_witness :
  let n := ex_net 1 in
  let h := Host (put_sock 3 (UdpSock true 53 false 0 0 []) (ex_net 2)) tt (Wire [] [] 0) in
  handle_frame (fun _ _ _ h => Ret h) (fun _ h => Ret (None, h))
    (udp_frame n 1 4000 2 53 [2; 0; 0; 0; 0; 2] (str "ping") ++ zeros 14) h
  = Ret (on_net (put_sock 3 (UdpSock true 53 true 1 4000 (str "ping"))) h).
Proof.
  intros n h. apply udp_round_trip; try done; try lia.
  - apply (bool_decide_unpack _). vm_compute. exact I.
  - right. left. reflexivity.
Defined.
