(* ===== verification/Tcp.v ===== *)
(** * TCP

    [stam/tcp.c] over the network layer of [Net].  A segment that arrives goes
    through [tcp_input]; the calls above poll the card, which is how segments
    arrive, and wait on the timer. *)
From S2P Require Import Prelude Bytes Net.

Definition F_FIN : Z := 0x01.
Definition F_SYN : Z := 0x02.
Definition F_RST : Z := 0x04.
Definition F_PSH : Z := 0x08.
Definition F_ACK : Z := 0x10.
Definition NTCP : nat := 6.
Definition RXBUF : Z := 4096.
Definition MSS : Z := 1400.
Definition RETRIES : nat := 6.
Definition RTO_TICKS : Z := 1.

Inductive tcp_state :=
  T_FREE | T_LISTEN | T_SYN_SENT | T_SYN_RCVD | T_ESTABLISHED | T_CLOSE_WAIT | T_FIN_WAIT | T_CLOSED.
#[global] Instance tcp_state_eq_dec : EqDecision tcp_state.
Proof. solve_decision. Defined.

(** [struct tcp_sock]; [rx] is the first [rxlen] bytes of the buffer, [parent]
    the number of the listening socket. *)
Record tcp_sock := TcpSock {
  t_state : tcp_state; lport : Z; rport : Z; rip : Z; snd_nxt : Z; snd_una : Z; rcv_nxt : Z;
  rx : list Z; fin_seen : bool; t_reset : bool; parent : option nat
}.
Definition eta_sock (s : tcp_sock) : tcp_sock :=
  TcpSock (t_state s) (lport s) (rport s) (rip s) (snd_nxt s) (snd_una s) (rcv_nxt s) (rx s) (fin_seen s) (t_reset s) (parent s).
Definition with_state v s : tcp_sock := ltac:(field_set t_state eta_sock v s).
Definition with_lport v s : tcp_sock := ltac:(field_set lport eta_sock v s).
Definition with_rport v s : tcp_sock := ltac:(field_set rport eta_sock v s).
Definition with_rip v s : tcp_sock := ltac:(field_set rip eta_sock v s).
Definition with_snd_nxt v s : tcp_sock := ltac:(field_set snd_nxt eta_sock v s).
Definition with_snd_una v s : tcp_sock := ltac:(field_set snd_una eta_sock v s).
Definition with_rcv_nxt v s : tcp_sock := ltac:(field_set rcv_nxt eta_sock v s).
Definition with_rx v s : tcp_sock := ltac:(field_set rx eta_sock v s).
Definition with_fin_seen v s : tcp_sock := ltac:(field_set fin_seen eta_sock v s).
Definition with_reset v s : tcp_sock := ltac:(field_set t_reset eta_sock v s).
Definition with_parent v s : tcp_sock := ltac:(field_set parent eta_sock v s).

Record tcp := Tcp { conns : list tcp_sock; next_port : Z }.
Definition free_sock : tcp_sock := TcpSock T_FREE 0 0 0 0 0 0 [] false false None.
Definition tcp0 : tcp := Tcp (replicate NTCP free_sock) 40000.

Definition is_st (st : tcp_state) (s : tcp_sock) : bool := bool_decide (t_state s = st).
Definition flag (f flags : Z) : bool := negb (Z.land flags f =? 0).

(** [(int32_t)(a - b) >= 0] *)
Definition seq_ge (a b : Z) : bool := 0 <=? i32 (a - b).

(** ** Writing a segment *)
Definition seg_bytes (s : tcp_sock) (flags seq c : Z) (data : list Z) (with_mss : bool) : list Z :=
  b_put16 (lport s) ++ b_put16 (rport s) ++ b_put32 seq ++ b_put32 (rcv_nxt s)
  ++ [Z.shiftl (if with_mss then 6 else 5) 4; flags] ++ b_put16 (u16 (RXBUF - zlen (rx s))) ++ b_put16 c ++ [0; 0]
  ++ (if with_mss then [2; 4] ++ b_put16 MSS else []) ++ data.
Definition segment (me : Z) (s : tcp_sock) (flags seq : Z) (data : list Z) (with_mss : bool) : list Z :=
  seg_bytes s flags seq (net_ip_checksum_with_pseudo me (rip s) IP_TCP (seg_bytes s flags seq 0 data with_mss)) data with_mss.

Section tcp.
Context {M : Type} `{Machine M}.
Abbreviation hst := (@host M tcp).
Abbreviation sender := (Z -> Z -> list Z -> hst -> outcome (Z * hst)).

Definition conn (h : hst) (i : nat) : tcp_sock := nth i (conns (h_tcp h)) free_sock.
Definition upd (i : nat) (f : tcp_sock -> tcp_sock) (h : hst) : hst :=
  set_tcp (Tcp (alter f i (conns (h_tcp h))) (next_port (h_tcp h))) h.

Definition send_seg (send : sender) (i : nat) (flags seq : Z) (data : list Z) (with_mss : bool) (h : hst) : outcome (Z * hst) :=
  let s := conn h i in
  send (rip s) IP_TCP (segment (my_ip (h_net h)) s flags seq data with_mss) h.

(** A segment whose result the code does not look at. *)
Definition send_ack (send : sender) (i : nat) (h : hst) : outcome hst :=
  let! r := send_seg send i F_ACK (snd_nxt (conn h i)) [] false h in Ret r.2.

(** ** Reading one *)
Definition four_tuple (dport sport src : Z) (s : tcp_sock) : bool :=
  negb (is_st T_FREE s) && negb (is_st T_LISTEN s) && (lport s =? dport) && (rport s =? sport) && (rip s =? src).

(** A connection asked for: a socket of its own, and the answer. *)
Definition passive_open (send : sender) (dport sport src seq : Z) (h : hst) : outcome hst :=
  match find_index (fun s => is_st T_LISTEN s && (lport s =? dport)) (conns (h_tcp h)) 0 with
  | None => Ret h
  | Some l =>
      match find_index (is_st T_FREE) (conns (h_tcp h)) 0 with
      | None => Ret h
      | Some c =>
          let '(t, m) := counter (h_m h) in
          let iss := u32 t in
          let h := upd c (fun _ => TcpSock T_SYN_RCVD dport sport src (u32 (iss + 1)) iss (u32 (seq + 1)) [] false false (Some l)) (set_m m h) in
          let! r := send_seg send c (Z.lor F_SYN F_ACK) iss [] true h in Ret r.2
      end
  end.

(** Cumulative, forward only. *)
Definition take_ack (flags ack : Z) (s : tcp_sock) : tcp_sock :=
  if flag F_ACK flags && seq_ge ack (snd_una s) && seq_ge (snd_nxt s) ack then with_snd_una ack s else s.

(** In order, and as much as there is room for. *)
Definition take_data (seq : Z) (data : list Z) (s : tcp_sock) : tcp_sock :=
  if seq =? rcv_nxt s then
    let n := Z.min (zlen data) (RXBUF - zlen (rx s)) in
    with_rcv_nxt (u32 (rcv_nxt s + n)) (with_rx (rx s ++ take (Z.to_nat n) data) s)
  else s.

Definition take_fin (seq dlen : Z) (s : tcp_sock) : tcp_sock :=
  with_fin_seen true (with_rcv_nxt (u32 (seq + dlen + 1)) s).
Definition after_fin (s : tcp_sock) : tcp_sock :=
  if is_st T_ESTABLISHED s then with_state T_CLOSE_WAIT s
  else if is_st T_FIN_WAIT s then with_state T_CLOSED s else s.

(** From the acknowledgement on, for a connection past its handshake. *)
Definition conn_input (send : sender) (i : nat) (flags seq ack : Z) (data : list Z) (h : hst) : outcome hst :=
  let h := upd i (take_ack flags ack) h in
  let! h := if zlen data =? 0 then Ret h else send_ack send i (upd i (take_data seq data) h) in
  if flag F_FIN flags && seq_ge (rcv_nxt (conn h i)) seq then
    let! h := send_ack send i (upd i (take_fin seq (zlen data)) h) in
    Ret (upd i after_fin h)
  else Ret h.

(** What a segment does once its fields are read. *)
Definition tcp_segment (send : sender) (sport dport seq ack flags : Z) (data : list Z) (src : Z) (h : hst) : outcome hst :=
  match find_index (four_tuple dport sport src) (conns (h_tcp h)) 0 with
  | None =>
      if flag F_SYN flags && negb (flag F_ACK flags) then passive_open send dport sport src seq h else Ret h
  | Some i =>
      let s := conn h i in
      if flag F_RST flags then Ret (upd i (fun s => with_state T_CLOSED (with_reset true s)) h) else
      match t_state s with
      | T_SYN_SENT =>
          if negb (flag F_SYN flags) || negb (flag F_ACK flags) then Ret h else
          if negb (ack =? snd_nxt s) then Ret h else
          send_ack send i (upd i (fun s => with_state T_ESTABLISHED (with_rcv_nxt (u32 (seq + 1)) (with_snd_una ack s))) h)
      | T_SYN_RCVD =>
          if negb (flag F_ACK flags) || negb (ack =? snd_nxt s) then Ret h else
          conn_input send i flags seq ack data (upd i (fun s => with_state T_ESTABLISHED (with_snd_una ack s)) h)
      | _ => conn_input send i flags seq ack data h
      end
  end.

Definition tcp_input (send : sender) (seg : list Z) (src : Z) (h : hst) : outcome hst :=
  let n := zlen seg in
  if n <? 20 then Ret h else
  let! b12 := ld seg 12 in
  let hlen := Z.shiftr b12 4 * 4 in
  if (hlen <? 20) || (n <? hlen) then Ret h else
  if negb (net_ip_checksum_with_pseudo src (my_ip (h_net h)) IP_TCP seg =? 0) then Ret h else
  let! sport := ld16be seg 0 in let! dport := ld16be seg 2 in
  let! seq := ld32be seg 4 in let! ack := ld32be seg 8 in
  let! flags := ld seg 13 in
  let! data := lds seg hlen (n - hlen) in
  tcp_segment send sport dport seq ack flags data src h.

(** ** The calls above it *)
Definition tcp_open (h : hst) : option nat * hst :=
  match find_index (is_st T_FREE) (conns (h_tcp h)) 0 with
  | None => (None, h)
  | Some i =>
      (Some i, upd i (fun s => TcpSock T_CLOSED 0 0 0 (snd_nxt s) (snd_una s) (rcv_nxt s) [] false false None) h)
  end.

(** Another socket than [i] listens on [port]. *)
Definition listening (i : nat) (port : Z) (h : hst) : bool :=
  existsb (fun '(k, s) => negb (Nat.eqb k i) && is_st T_LISTEN s && (lport s =? port)) (imap pair (conns (h_tcp h))).

Definition tcp_bind (i : nat) (port : Z) (h : hst) : Z * hst :=
  if negb (is_st T_CLOSED (conn h i)) then (-22, h) else
  if listening i port h then (-98, h) else (0, upd i (with_lport port) h).

Definition tcp_listen (i : nat) (h : hst) : Z * hst :=
  let s := conn h i in
  if negb (is_st T_CLOSED s) || negb (up (h_net h)) then (-22, h) else
  if lport s =? 0 then (-22, h) else
  if listening i (lport s) h then (-98, h) else
  (0, upd i (fun s => with_state T_LISTEN (with_parent None (with_rip 0 (with_rport 0 s)))) h).

Definition tcp_peer_ip (i : nat) (h : hst) : Z := rip (conn h i).
Definition tcp_peer_port (i : nat) (h : hst) : Z := rport (conn h i).
Definition tcp_state_established (i : nat) (h : hst) : bool :=
  is_st T_ESTABLISHED (conn h i) || is_st T_CLOSE_WAIT (conn h i).

(** A connection that finished its handshake and is nobody's yet. *)
Definition ready (l : nat) (s : tcp_sock) : bool :=
  bool_decide (parent s = Some l) && (is_st T_ESTABLISHED s || is_st T_CLOSE_WAIT s).

Section calls.
Context (poll : hst -> outcome hst) (send : sender).

Fixpoint accept_loop (fuel : nat) (l : nat) (deadline : Z) (h : hst) : outcome (option nat * hst) :=
  match fuel with
  | O => Diverge
  | S fuel =>
      let! h := poll h in
      match find_index (ready l) (conns (h_tcp h)) 0 with
      | Some c => Ret (Some c, upd c (with_parent None) h)
      | None =>
          if deadline <=? ticks (h_m h) then Ret (None, h)
          else accept_loop fuel l deadline (set_m (net_wait (h_m h) 1) h)
      end
  end.
Definition tcp_accept (fuel : nat) (l : nat) (n : Z) (h : hst) : outcome (option nat * hst) :=
  if negb (is_st T_LISTEN (conn h l)) then Ret (None, h)
  else accept_loop fuel l (u64 (ticks (h_m h) + n)) h.

(** Waiting until [ok] or the deadline; the result says which. *)
Fixpoint wait_for {A} (fuel : nat) (ok : hst -> option A) (n deadline : Z) (h : hst) : outcome (option A * hst) :=
  if negb (ticks (h_m h) <? deadline) then Ret (None, h) else
  match fuel with
  | O => Diverge
  | S fuel =>
      let! h := poll h in
      match ok h with
      | Some a => Ret (Some a, h)
      | None => wait_for fuel ok n deadline (set_m (net_wait (h_m h) n) h)
      end
  end.

(** What [tcp_connect] looks for: refused, or established. *)
Definition connected (i : nat) (h : hst) : option Z :=
  if t_reset (conn h i) then Some (-111) else if is_st T_ESTABLISHED (conn h i) then Some 0 else None.

Fixpoint connect_loop (fuel : nat) (i : nat) (iss : Z) (try tries : nat) (h : hst) : outcome (Z * hst) :=
  let fail h := Ret (-110, upd i (with_state T_CLOSED) h) in
  match tries with
  | O => fail h
  | S tries =>
      let! r := send_seg send i F_SYN iss [] true h in
      let '(e, h) := r in
      if negb (e =? 0) then fail h else
      let! w := wait_for fuel (connected i) 1 (u64 (ticks (h_m h) + (Z.of_nat try + 1) * 20)) h in
      match w with
      | (Some 0, h) => Ret (0, h)
      | (Some e, h) => Ret (e, upd i (with_state T_CLOSED) h)
      | (None, h) => connect_loop fuel i iss (S try) tries h
      end
  end.

Definition tcp_connect (fuel : nat) (i : nat) (ip port : Z) (h : hst) : outcome (Z * hst) :=
  if negb (is_st T_CLOSED (conn h i)) || negb (up (h_net h)) then Ret (-1, h) else
  let '(c, m) := counter (h_m h) in
  let iss := u32 c in
  let p := next_port (h_tcp h) in
  let next := u16 (p + 1) in
  let h := upd i (fun s => with_state T_SYN_SENT (with_lport p (with_rport port (with_rip ip
                  (with_rcv_nxt 0 (with_snd_nxt (u32 (iss + 1)) (with_snd_una iss s))))))) (set_m m h) in
  let h := set_tcp (Tcp (conns (h_tcp h)) (if next <? 40000 then 40000 else next)) h in
  connect_loop fuel i iss 0 RETRIES h.

(** What [tcp_send] looks for: a reset, or its segment acknowledged. *)
Definition acked (i : nat) (upto : Z) (h : hst) : option bool :=
  if t_reset (conn h i) then Some false else if seq_ge (snd_una (conn h i)) upto then Some true else None.

(** One segment until it is acknowledged: [inr] when it is, [inl] the error. *)
Fixpoint chunk_loop (fuel : nat) (i : nat) (seq : Z) (data : list Z) (try tries : nat) (h : hst) : outcome ((Z + unit) * hst) :=
  match tries with
  | O => Ret (inl (-110), upd i (with_snd_nxt seq) h)
  | S tries =>
      let! r := send_seg send i (Z.lor F_ACK F_PSH) seq data false h in
      let '(e, h) := r in
      if negb (e =? 0) then Ret (inl (-101), h) else
      let! w := wait_for fuel (acked i (u32 (seq + zlen data))) RTO_TICKS (u64 (ticks (h_m h) + (Z.of_nat try + 1) * 20)) h in
      match w with
      | (Some true, h) => Ret (inr tt, h)
      | (Some false, h) => Ret (inl (-104), h)
      | (None, h) => chunk_loop fuel i seq data (S try) tries h
      end
  end.

(** [n]: chunks there can be at most. *)
Fixpoint send_loop (n : nat) (fuel : nat) (i : nat) (buf : list Z) (sent : Z) (h : hst) : outcome (Z * hst) :=
  if zlen buf <=? sent then Ret (sent, h) else
  match n with
  | O => Diverge
  | S n =>
      let data := slice buf sent (Z.min (zlen buf - sent) MSS) in
      let seq := snd_nxt (conn h i) in
      let! r := chunk_loop fuel i seq data 0 RETRIES (upd i (with_snd_nxt (u32 (seq + zlen data))) h) in
      match r with
      | (inr _, h) => send_loop n fuel i buf (sent + zlen data) h
      | (inl e, h) => Ret (if sent =? 0 then e else sent, h)
      end
  end.

Definition tcp_send (fuel : nat) (i : nat) (buf : list Z) (h : hst) : outcome (Z * hst) :=
  let s := conn h i in
  if t_reset s then Ret (-104, h) else
  if negb (is_st T_ESTABLISHED s) && negb (is_st T_CLOSE_WAIT s) then Ret (-107, h) else
  send_loop (length buf) fuel i buf 0 h.

(** The oldest bytes there are, at most [max]. *)
Definition take_rx (i : nat) (max : Z) (h : hst) : list Z * hst :=
  let n := Z.to_nat (Z.min (zlen (rx (conn h i))) max) in
  (take n (rx (conn h i)), upd i (fun s => with_rx (drop n (rx s)) s) h).

Fixpoint recv_loop (fuel : nat) (i : nat) (max deadline : Z) (h : hst) : outcome (Z * list Z * hst) :=
  match fuel with
  | O => Diverge
  | S fuel =>
      let! h := poll h in
      let s := conn h i in
      if negb (zlen (rx s) =? 0) then let '(b, h) := take_rx i max h in Ret (zlen b, b, h) else
      if t_reset s then Ret (-104, [], h) else
      if fin_seen s then Ret (0, [], h) else
      if deadline <=? ticks (h_m h) then Ret (-11, [], h)
      else recv_loop fuel i max deadline (set_m (net_wait (h_m h) 1) h)
  end.
Definition tcp_recv (fuel : nat) (i : nat) (max : Z) (h : hst) : outcome (Z * list Z * hst) :=
  if t_reset (conn h i) then Ret (-104, [], h)
  else recv_loop fuel i max (u64 (ticks (h_m h) + hz (h_m h) * 5)) h.

(** [while (timer_ticks() < deadline && state != T_CLOSED)] *)
Fixpoint close_loop (fuel : nat) (i : nat) (deadline : Z) (h : hst) : outcome hst :=
  if negb (ticks (h_m h) <? deadline) || is_st T_CLOSED (conn h i) then Ret h else
  match fuel with
  | O => Diverge
  | S fuel => let! h := poll h in close_loop fuel i deadline (set_m (net_wait (h_m h) 1) h)
  end.

Definition tcp_close (fuel : nat) (i : nat) (h : hst) : outcome hst :=
  let s := conn h i in
  if is_st T_LISTEN s then Ret (upd i (with_state T_FREE) h) else
  let! h :=
    if is_st T_ESTABLISHED s || is_st T_CLOSE_WAIT s then
      let! r := send_seg send i (Z.lor F_ACK F_FIN) (snd_nxt s) [] false h in
      let h := upd i (fun s => with_state (if is_st T_CLOSE_WAIT s then T_CLOSED else T_FIN_WAIT) (with_snd_nxt (u32 (snd_nxt s + 1)) s)) r.2 in
      close_loop fuel i (u64 (ticks (h_m h) + hz (h_m h) / 2)) h
    else Ret h in
  Ret (upd i (with_state T_FREE) h).
End calls.
End tcp.
