(* ===== verification/TcpRun.v ===== *)
(** * What TCP delivers

    The whole receive path never reads outside a packet; the bytes [tcp_recv]
    returns are the peer's stream in order, whatever is lost, repeated or
    reordered, with the calls polling the card from inside each other; the
    handshake of two machines running this code; and the case in which a FIN
    acknowledges bytes that were never taken. *)
From S2P Require Import Prelude Bytes Net Packets Tcp.

(** ** No read outside a segment *)
Section sound.
Context {M : Type} `{Machine M}.
Abbreviation hst := (@host M tcp).
Context (send : Z -> Z -> list Z -> hst -> outcome (Z * hst)) (Hsend : forall dst p b h, sound (send dst p b h)).

Lemma send_ack_sound i (h : hst) : sound (send_ack send i h).
Proof using Hsend. unfold send_ack. apply sound_bind; [apply Hsend|done]. Qed.

Lemma passive_open_sound dport sport src seq (h : hst) : sound (passive_open send dport sport src seq h).
Proof using Hsend.
  unfold passive_open. destruct (find_index _ _ _); [|done]. destruct (find_index (is_st T_FREE) _ _); [|done].
  destruct (counter _). apply sound_bind; [apply Hsend|done].
Qed.

Lemma conn_input_sound i flags seq ack data (h : hst) : sound (conn_input send i flags seq ack data h).
Proof using Hsend.
  unfold conn_input. apply sound_bind; [destruct (_ =? 0); [done|apply send_ack_sound]|]. intros h' _.
  destruct (_ && _); [|done]. apply sound_bind; [apply send_ack_sound|done].
Qed.

Lemma tcp_input_sound seg src (h : hst) : sound (tcp_input send seg src h).
Proof using Hsend.
  unfold tcp_input. destruct (Z.ltb_spec (zlen seg) 20); [done|]. repeat read1.
  match goal with E : _ || _ = false |- _ => apply orb_false_iff in E as [E1%Z.ltb_ge E2%Z.ltb_ge] end.
  destruct (lds_inside seg (Z.shiftr v 4 * 4) (zlen seg - Z.shiftr v 4 * 4)) as [-> _]; [lia..|]. cbn [obind].
  unfold tcp_segment. destruct (find_index _ _ _) as [i|]; [|destruct (_ && _); [apply passive_open_sound|done]].
  destruct (flag F_RST _); [done|]. destruct (t_state _); try apply conn_input_sound.
  - repeat (case_match; [done|]). apply send_ack_sound.
  - case_match; [done|]. apply conn_input_sound.
Qed.
End sound.

(** The search for a DHCP option ends, and the value it finds is inside. *)
Lemma option_loop_total p want fuel : bytes_ok p -> forall i, 0 <= i -> (Z.to_nat (zlen p - i) < fuel)%nat ->
  exists t l, option_loop fuel p want i = Ret (t, l) /\ 0 <= t /\ (t <> 0 -> 0 <= l /\ t + l <= zlen p).
Proof.
  intros Hp. induction fuel as [|fuel IH]; intros i Hi Hf; [lia|]. cbn [option_loop].
  destruct (Z.ltb_spec (i + 1) (zlen p)) as [Hlt|]; [|by exists 0, 0].
  rewrite !ld_ret by lia. cbn [obind]. destruct (_ =? 255); [by exists 0, 0|].
  destruct (_ =? 0); [apply IH; lia|].
  pose proof (at_byte p (i + 1) Hp) as Hl. unfold is_byte in Hl. set (l := at_ p (i + 1)) in *.
  destruct (Z.ltb_spec (zlen p) (i + 2 + l)); [by exists 0, 0|].
  destruct (_ =? want); [exists (i + 2), l; repeat split; lia|]. apply IH; lia.
Qed.
Lemma dhcp_option_inside p want : bytes_ok p ->
  exists t l, dhcp_option p want = Ret (t, l) /\ 0 <= t /\ (t <> 0 -> 0 <= l /\ t + l <= zlen p).
Proof. intros Hp. apply option_loop_total; [done|lia|unfold zlen; lia]. Qed.

(** C28: nothing that arrives makes the receiver read outside it.  Polling the
    card - every frame through Ethernet, ARP, IPv4, ICMP, UDP and TCP, the
    answers sent meanwhile and the polling they do in turn included - reads no
    byte outside the frame it was given, whatever the bytes are; and the search
    for an option of a DHCP message ends, and returns a value that lies inside
    the message. *)
Theorem net_no_overread {M : Type} `{Machine M} fuel (h : @host M tcp) p want :
  net_poll tcp_input fuel h <> Fault
  /\ (bytes_ok p -> exists t l, dhcp_option p want = Ret (t, l) /\ 0 <= t /\ (t <> 0 -> 0 <= l /\ t + l <= zlen p)).
Proof.
  split; [|apply dhcp_option_inside]. apply net_poll_sound. intros send Hs seg src h'. by apply tcp_input_sound.
Qed.

(** ** The stream *)
Section stream.
Context {M : Type} `{Machine M}.
Abbreviation hst := (@host M tcp).
(** The connection: its slot, its addresses, the peer's first number and the
    bytes the peer sends; and what is known of the machine. *)
Context (i : nat) (me lp rp ra isn : Z) (strm : list Z) (Good : M -> Prop).
Context (Hlen : zlen strm + 1 < 2 ^ 32).

(** A segment of that stream: a part of it under its own number, with a FIN
    only at its end; or no data at all. *)
Definition of_stream (flags seq : Z) (data : list Z) : Prop :=
  (data = [] /\ flag F_FIN flags = false) \/
  exists off, 0 <= off /\ off + zlen data <= zlen strm /\ seq = u32 (isn + 1 + off)
    /\ data = slice strm off (zlen data) /\ (flag F_FIN flags = true -> off + zlen data = zlen strm).

(** Of the segments with a right checksum, those that name the connection are
    the peer's. *)
Definition genuine (seg : list Z) (src : Z) : Prop :=
  forall b12 seq flags data,
  src = ra -> ld16be seg 0 = Ret rp -> ld16be seg 2 = Ret lp ->
  net_ip_checksum_with_pseudo src me IP_TCP seg = 0 ->
  ld seg 12 = Ret b12 -> ld32be seg 4 = Ret seq -> ld seg 13 = Ret flags ->
  lds seg (Z.shiftr b12 4 * 4) (zlen seg - Z.shiftr b12 4 * 4) = Ret data ->
  of_stream flags seq data.
Definition genuine_frame (r : list Z) : Prop :=
  forall b0 total src payload,
  ld r 14 = Ret b0 -> ld16be r 16 = Ret total -> ld32be r 26 = Ret src ->
  lds r (14 + Z.land b0 0x0f * 4) (total - Z.land b0 0x0f * 4) = Ret payload ->
  genuine payload src.

(** What holds of the machine however it is used. *)
Context (Hrecv : forall m r m', Good m -> card_recv m = (r, m') -> genuine_frame r /\ Good m').
Context (Hcard : forall m b, Good m -> Good (card_send m b).2).
Context (Hwait : forall m n, Good m -> Good (net_wait m n)).
Context (Hcounter : forall m, Good m -> Good (counter m).2).

(** [out]: what the program has been given so far. *)
Definition conn_inv (out : list Z) (s : tcp_sock) : Prop :=
  (is_st T_FREE s || is_st T_LISTEN s || is_st T_SYN_SENT s || is_st T_SYN_RCVD s) = false
  /\ lport s = lp /\ rport s = rp /\ rip s = ra /\ zlen (rx s) <= RXBUF
  /\ exists k, 0 <= k <= zlen strm /\ out ++ rx s = take (Z.to_nat k) strm
     /\ (rcv_nxt s = u32 (isn + 1 + k) \/ rcv_nxt s = u32 (isn + 1 + (zlen strm + 1))).
Definition inv (out : list Z) (h : hst) : Prop :=
  conn_inv out (conn h i) /\ my_ip (h_net h) = me /\ Good (h_m h).

Lemma u32_inj a b : 0 <= a < 2 ^ 32 -> 0 <= b < 2 ^ 32 -> u32 (isn + 1 + a) = u32 (isn + 1 + b) -> a = b.
Proof.
  unfold uwrap. intros Ha Hb E. rewrite <- (Z.mod_small a (2 ^ 32)), <- (Z.mod_small b (2 ^ 32)) by done.
  replace a with (isn + 1 + a - (isn + 1)) by lia. replace b with (isn + 1 + b - (isn + 1)) by lia.
  rewrite Zminus_mod, E, <- Zminus_mod. done.
Qed.

Lemma take_slice k n : 0 <= k -> 0 <= n -> take (Z.to_nat k) strm ++ slice strm k n = take (Z.to_nat (k + n)) strm.
Proof. intros. unfold slice. rewrite take_take_drop. f_equal. lia. Qed.

Lemma take_ack_inv out flags ack s : conn_inv out s -> conn_inv out (take_ack flags ack s).
Proof. intros Hs. unfold take_ack. by destruct (_ && _ && _). Qed.

Lemma take_data_inv out flags seq data s :
  of_stream flags seq data -> conn_inv out s -> conn_inv out (take_data seq data s).
Proof using Hlen.
  intros Hg (Hst & Hl & Hr & Ha & Hroom & k & Hk & Hout & Hnxt). unfold take_data.
  destruct (Z.eqb_spec seq (rcv_nxt s)) as [Es|]; [|repeat split; try done; eauto].
  set (n := Z.min (zlen data) (RXBUF - zlen (rx s))). pose proof (zlen_nonneg data).
  destruct Hg as [[-> _]|(off & Ho0 & Ho1 & Eseq & Edata & _)].
  { assert (n = 0) as -> by (unfold n; rewrite zlen_nil; lia). cbn. rewrite app_nil_r, Z.add_0_r. repeat split; try done.
    exists k. repeat split; try done; try lia. destruct Hnxt as [->| ->]; [left|right]; by apply uwrap_idemp. }
  assert (off = k) as ->.
  { rewrite Eseq in Es. destruct Hnxt as [E|E]; rewrite E in Es; apply u32_inj in Es; lia. }
  assert (zlen (take (Z.to_nat n) data) = n) as En by (unfold zlen in *; rewrite length_take; lia).
  split; [done|]. repeat split; try done. { cbn [with_rcv_nxt with_rx rx]. rewrite zlen_app. lia. }
  exists (k + n). cbn [with_rcv_nxt with_rx rx rcv_nxt]. split; [lia|]. split.
  - rewrite app_assoc, Hout, <- take_slice by lia. f_equal. rewrite Edata. unfold slice at 1. rewrite take_take. unfold slice.
    f_equal. lia.
  - left. rewrite <- Es, Eseq. unfold uwrap. rewrite Zplus_mod_idemp_l. f_equal. lia.
Qed.

Lemma take_fin_inv out flags seq data s :
  of_stream flags seq data -> flag F_FIN flags = true -> conn_inv out s -> conn_inv out (take_fin seq (zlen data) s).
Proof.
  intros Hg Hf (Hst & Hl & Hr & Ha & Hroom & k & Hk & Hout & Hnxt).
  destruct Hg as [[_ Hn]|(off & Ho0 & Ho1 & -> & _ & Hend)]; [congruence|]. specialize (Hend Hf).
  repeat split; try done. exists k. repeat split; try done; try lia. right. cbn [take_fin with_fin_seen with_rcv_nxt rcv_nxt].
  unfold uwrap. rewrite <- Z.add_assoc, Zplus_mod_idemp_l. f_equal. lia.
Qed.

Lemma after_fin_inv out s : conn_inv out s -> conn_inv out (after_fin s).
Proof.
  intros Hs. unfold after_fin. destruct (is_st T_ESTABLISHED s); [by destruct Hs as [_ ?]|].
  destruct (is_st T_FIN_WAIT s); [by destruct Hs as [_ ?]|done].
Qed.

(** *** The slots *)
Lemma conn_upd j f (h : hst) : (i < length (conns (h_tcp h)))%nat ->
  conn (upd j f h) i = if decide (j = i) then f (conn h i) else conn h i.
Proof.
  intros Hi. unfold conn, upd. cbn [h_tcp set_tcp conns]. rewrite !nth_lookup.
  destruct (decide (j = i)) as [->|Hn].
  - rewrite list_lookup_alter_eq. destruct (lookup_lt_is_Some_2 _ _ Hi) as [s ->]. done.
  - by rewrite list_lookup_alter_ne.
Qed.
Lemma inv_slot out h : inv out h -> (i < length (conns (h_tcp h)))%nat.
Proof.
  intros [(Hst & _) _]. destruct (decide (i < length (conns (h_tcp h)))%nat); [done|].
  unfold conn in Hst. rewrite nth_overflow in Hst by lia. done.
Qed.

Lemma upd_inv out out' j f (h : hst) :
  inv out h -> (j = i -> conn_inv out (conn h i) -> conn_inv out' (f (conn h i))) -> (j <> i -> out' = out) ->
  inv out' (upd j f h).
Proof.
  intros Hi Hf Ho. pose proof (inv_slot _ _ Hi) as Hlt. destruct Hi as (Hc & Hme & HG). split; [|done].
  rewrite conn_upd by done. destruct (decide (j = i)) as [E|E]; [by apply Hf|]. by rewrite Ho.
Qed.
Lemma set_m_inv out m (h : hst) : inv out h -> Good m -> inv out (set_m m h).
Proof. by intros (Hc & Hme & _) Hm. Qed.
Lemma on_net_inv out f (h : hst) : inv out h -> my_ip (f (h_net h)) = my_ip (h_net h) -> inv out (on_net f h).
Proof. intros (Hc & Hme & HG) Hf. split; [done|]. split; [|done]. cbn. by rewrite Hf. Qed.

(** *** A call that returns leaves the invariant *)
Definition keeps (f : hst -> outcome hst) : Prop := forall out h h', inv out h -> f h = Ret h' -> inv out h'.
Definition keeps_pair {A} (f : hst -> outcome (A * hst)) : Prop := forall out h r, inv out h -> f h = Ret r -> inv out r.2.

(** The next slot that satisfies a test, as the code finds it. *)
Lemma found (ok : tcp_sock -> bool) (h : hst) j : find_index ok (conns (h_tcp h)) 0 = Some j -> ok (conn h j) = true.
Proof.
  intros E. destruct (find_index_app _ _ _ _ E) as (_ & x & Hx & Hok). rewrite Nat.sub_0_r in Hx.
  unfold conn. by rewrite nth_lookup, Hx.
Qed.

Section sending.
Context (send : Z -> Z -> list Z -> hst -> outcome (Z * hst)) (Hsend : forall dst p b, keeps_pair (send dst p b)).

Lemma send_seg_keeps j flags seq data w : keeps_pair (send_seg send j flags seq data w).
Proof using Hsend. intros out h r Hi E. by eapply Hsend. Qed.
Lemma send_ack_keeps j : keeps (send_ack send j).
Proof using Hsend. intros out h h' Hi E. unfold send_ack in E. run E. injection E as <-. by eapply Hsend. Qed.

Lemma passive_open_keeps dport sport src seq : keeps (passive_open send dport sport src seq).
Proof using Hsend Hcounter.
  intros out h h' Hi E. unfold passive_open in E. destruct (find_index _ _ _) as [l|]; [|by injection E as <-].
  destruct (find_index (is_st T_FREE) _ _) as [c|] eqn:Ec; [|by injection E as <-]. apply found in Ec.
  pose proof (Hcounter (h_m h)) as Hm. destruct (counter (h_m h)) as [t m]. run E. injection E as <-.
  eapply send_seg_keeps; [|eassumption]. eapply upd_inv; [apply set_m_inv; [exact Hi|apply Hm, Hi]| |done].
  intros ->. destruct Hi as [(Hst & _) _]. by rewrite Ec in Hst.
Qed.

Lemma conn_input_keeps j flags seq ack data out h h' :
  inv out h -> (j = i -> of_stream flags seq data) -> conn_input send j flags seq ack data h = Ret h' -> inv out h'.
Proof using Hsend Hlen.
  intros Hi Hg E. unfold conn_input in E.
  assert (inv out (upd j (take_ack flags ack) h)) as Hi1 by (eapply upd_inv; [exact Hi|intros _; apply take_ack_inv|done]).
  revert Hi1 E. generalize (upd j (take_ack flags ack) h). clear h Hi. intros h Hi E.
  apply obind_ret_inv in E as (h1 & E1 & E).
  assert (inv out h1) as Hi1.
  { destruct (_ =? 0); [by injection E1 as <-|]. eapply send_ack_keeps; [|exact E1].
    eapply upd_inv; [exact Hi|intros Hj; apply (take_data_inv _ flags); auto|done]. }
  destruct (flag F_FIN flags) eqn:Hf; cbn [andb] in E; [|by injection E as <-].
  destruct (seq_ge _ _); [|by injection E as <-]. apply obind_ret_inv in E as (h2 & E2 & E). injection E as <-.
  eapply upd_inv; [|intros _; apply after_fin_inv|done]. eapply send_ack_keeps; [|exact E2].
  eapply upd_inv; [exact Hi1|intros Hj; apply (take_fin_inv _ flags seq data); auto|done].
Qed.

Lemma tcp_input_keeps seg src : genuine seg src -> keeps (tcp_input send seg src).
Proof using Hsend Hlen Hcounter.
  intros Hg out h h' Hi E. unfold tcp_input in E. destruct (zlen seg <? 20); [by injection E as <-|].
  apply obind_ret_inv in E as (b12 & E12 & E). destruct (_ || _); [by injection E as <-|].
  destruct (negb (net_ip_checksum_with_pseudo _ _ _ _ =? 0)) eqn:Ec; [by injection E as <-|].
  apply negb_false_iff, Z.eqb_eq in Ec. rewrite (proj1 (proj2 Hi)) in Ec.
  apply obind_ret_inv in E as (sport & Es & E). apply obind_ret_inv in E as (dport & Ed & E).
  apply obind_ret_inv in E as (seq & Eq & E). apply obind_ret_inv in E as (ack & Ea & E).
  apply obind_ret_inv in E as (flags & Ef & E). apply obind_ret_inv in E as (data & Edata & E).
  unfold tcp_segment in E. destruct (find_index _ _ _) as [j|] eqn:Ej.
  2: { destruct (_ && _); [|by injection E as <-]. by eapply passive_open_keeps. }
  apply found in Ej. unfold four_tuple in Ej. rewrite !andb_true_iff, !Z.eqb_eq in Ej. destruct Ej as [[[_ El] Er] Ei].
  assert (j = i -> of_stream flags seq data) as Hgen.
  { intros ->. destruct Hi as [(_ & Hl & Hr & Ha & _) _]. eapply Hg; eauto; congruence. }
  destruct (flag F_RST flags).
  { injection E as <-. eapply upd_inv; [exact Hi|intros _ [_ ?]; by split|done]. }
  assert (inv out h /\ (j = i -> is_st T_SYN_SENT (conn h j) || is_st T_SYN_RCVD (conn h j) = false)) as [_ Hst].
  { split; [done|]. intros ->. destruct Hi as [(Hst & _) _]. rewrite !orb_false_iff in *. tauto. }
  unfold is_st in Hst. destruct (t_state (conn h j)); try by eapply conn_input_keeps.
  - destruct (_ || _); [by injection E as <-|]. destruct (negb _); [by injection E as <-|].
    eapply send_ack_keeps; [|exact E]. eapply upd_inv; [exact Hi|intros Hj; by specialize (Hst Hj)|done].
  - destruct (_ || _); [by injection E as <-|]. eapply conn_input_keeps; [|exact Hgen|exact E].
    eapply upd_inv; [exact Hi|intros Hj; by specialize (Hst Hj)|done].
Qed.
End sending.

(** *** The card, and what polls it *)
Lemma transmit_inv out f (h : hst) : inv out h -> inv out (transmit f h).2.
Proof using Hcard.
  intros Hi. unfold transmit. pose proof (Hcard (h_m h) f) as Hm. destruct (card_send (h_m h) f) as [r m].
  apply set_m_inv; [done|]. apply Hm, Hi.
Qed.
Lemma wait_inv out n (h : hst) : inv out h -> inv out (set_m (net_wait (h_m h) n) h).
Proof using Hwait. intros Hi. apply set_m_inv; [done|]. apply Hwait, Hi. Qed.
Lemma arp_learn_ip ip mac n : my_ip (arp_learn ip mac n) = my_ip n.
Proof. unfold arp_learn. by repeat case_match. Qed.

Section routing.
Context (route : Z -> hst -> outcome (option (list Z) * hst)) (Hroute : forall ip, keeps_pair (route ip)).

Lemma net_ip_send_keeps dst p b : keeps_pair (net_ip_send route dst p b).
Proof using Hroute Hcard.
  intros out h r Hi E. unfold net_ip_send in E. destruct (_ <? _); [by injection E as <-|].
  apply obind_ret_inv in E as ([[mac|] h1] & E1 & E); apply (Hroute _ _ _ _ Hi) in E1; injection E as <-; cbn in E1; [|done].
  apply transmit_inv. by apply on_net_inv.
Qed.

Lemma handle_arp_keeps r : keeps (handle_arp r).
Proof using Hcard.
  intros out h h' Hi E. unfold handle_arp in E. destruct (_ <? _); [by injection E as <-|].
  apply obind_ret_inv in E as (a & _ & E). apply obind_ret_inv in E as (b & _ & E). apply obind_ret_inv in E as (c & _ & E).
  destruct (_ || _ || _); [by injection E as <-|].
  apply obind_ret_inv in E as (op & _ & E). apply obind_ret_inv in E as (from & _ & E). apply obind_ret_inv in E as (mac & _ & E).
  assert (inv out (on_net (arp_learn from mac) h)) as H1 by (apply on_net_inv; [done|apply arp_learn_ip]).
  destruct (negb _); [by injection E as <-|]. apply obind_ret_inv in E as (t & _ & E).
  destruct (_ || _); injection E as <-; [done|]. by apply transmit_inv.
Qed.

Lemma handle_icmp_keeps ic src : keeps (handle_icmp route ic src).
Proof using Hroute Hcard.
  intros out h h' Hi E. unfold handle_icmp in E. destruct (_ <? _); [by injection E as <-|].
  destruct (negb (checksum ic =? 0)); [by injection E as <-|]. apply obind_ret_inv in E as (type & _ & E). destruct (type =? 0).
  - destruct (ping_seq _) as [sq|]; [|by injection E as <-].
    apply obind_ret_inv in E as (id & _ & E). destruct (negb _); [by injection E as <-|].
    apply obind_ret_inv in E as (s & _ & E). destruct (negb _); [by injection E as <-|].
    destruct (_ <? _); [by injection E as <-|]. apply obind_ret_inv in E as (same & _ & E). injection E as <-. by apply on_net_inv.
  - destruct (_ && _); [|by injection E as <-].
    cbv zeta in E. match type of E with (if ?c then _ else _) = _ => destruct c end; [by injection E as <-|].
    apply obind_ret_inv in E as ([[mac|] h1] & E1 & E); apply (Hroute _ _ _ _ Hi) in E1; cbn in E1; [|by injection E as <-].
    apply obind_ret_inv in E as (body & _ & E). apply obind_ret_inv in E as (code & _ & E). injection E as <-. by apply transmit_inv.
Qed.

Lemma handle_udp_keeps u src : keeps (handle_udp u src).
Proof.
  intros out h h' Hi E. unfold handle_udp in E. destruct (_ <? _); [by injection E as <-|].
  apply obind_ret_inv in E as (a & _ & E). apply obind_ret_inv in E as (b & _ & E). apply obind_ret_inv in E as (c & _ & E).
  destruct (_ || _); [by injection E as <-|]. destruct (find_index _ _ _) as [j|]; [|by injection E as <-].
  destruct (u_have _); [by injection E as <-|]. apply obind_ret_inv in E as (d & _ & E). injection E as <-. by apply on_net_inv.
Qed.

Lemma handle_frame_keeps r : genuine_frame r -> keeps (handle_frame tcp_input route r).
Proof using Hroute Hcard Hcounter Hlen.
  intros Hg out h h' Hi E. unfold handle_frame in E. apply obind_ret_inv in E as (type & _ & E).
  destruct (type =? ET_ARP); [by eapply handle_arp_keeps|]. destruct (type =? ET_IPV4); [|by injection E as <-].
  unfold handle_ipv4 in E. destruct (_ <? _); [by injection E as <-|]. apply obind_ret_inv in E as (b0 & E0 & E).
  destruct (_ || _); [by injection E as <-|]. destruct (_ <? _); [by injection E as <-|].
  apply obind_ret_inv in E as (hdr & _ & E). destruct (negb _); [by injection E as <-|].
  apply obind_ret_inv in E as (total & Et & E). destruct (_ || _); [by injection E as <-|].
  apply obind_ret_inv in E as (src & Es & E). apply obind_ret_inv in E as (dst & _ & E).
  destruct (_ && _ && _); [by injection E as <-|].
  apply obind_ret_inv in E as (payload & Ep & E). apply obind_ret_inv in E as (proto & _ & E).
  destruct (proto =? IP_ICMP); [by eapply handle_icmp_keeps|]. destruct (proto =? IP_UDP); [by eapply handle_udp_keeps|].
  destruct (proto =? IP_TCP); [|by injection E as <-].
  eapply tcp_input_keeps; [apply net_ip_send_keeps| |exact Hi|exact E]. by eapply Hg.
Qed.

Lemma net_poll_with_keeps : keeps (net_poll_with tcp_input route).
Proof using Hroute Hcard Hcounter Hlen Hrecv.
  intros out h h' Hi E. unfold net_poll_with in E. destruct (negb _); [by injection E as <-|].
  revert h Hi E. generalize 32%nat. intros n. induction n as [|n IH]; intros h Hi E; [by injection E as <-|].
  cbn [poll_loop] in E. destruct (card_recv (h_m h)) as [r m] eqn:Er. apply Hrecv in Er as [Hr Hm]; [|apply Hi].
  assert (inv out (set_m m h)) as H1 by by apply set_m_inv.
  destruct (_ <? _); [by injection E as <-|]. apply obind_ret_inv in E as (h1 & E1 & E).
  eapply IH; [|exact E]. by eapply handle_frame_keeps.
Qed.
End routing.

Lemma resolve_loop_keeps poll fuel deadline ip : keeps poll -> keeps_pair (resolve_loop poll fuel deadline ip).
Proof using Hwait.
  intros Hp. induction fuel as [|fuel IH]; intros out h r Hi E; cbn [resolve_loop] in E;
    destruct (negb _); try (by injection E as <-); [done|].
  apply obind_ret_inv in E as (h1 & E1 & E). apply (Hp _ _ _ Hi) in E1.
  destruct (arp_lookup _ _); [by injection E as <-|]. eapply IH; [|exact E]. by apply wait_inv.
Qed.

Lemma route_mac_keeps fuel ip : keeps_pair (route_mac tcp_input fuel ip).
Proof using Hcard Hcounter Hlen Hrecv Hwait.
  revert ip. induction fuel as [|fuel IH]; intros ip out h r Hi E; cbn [route_mac] in E;
    destruct (_ =? 0); try (by injection E as <-); destruct (arp_lookup _ _); try (by injection E as <-); [done|].
  unfold arp_resolve_with in E. destruct (negb _); [by injection E as <-|].
  destruct (arp_lookup _ _); [by injection E as <-|]. pose proof (transmit_inv out (arp_frame (h_net h) bcast_mac 1 (zeros 6) (next_hop ip (h_net h))) h Hi) as H1.
  destruct (transmit _ _) as [e h1]. destruct (negb _); [by injection E as <-|].
  eapply resolve_loop_keeps; [|exact H1|exact E]. by apply net_poll_with_keeps.
Qed.

Lemma net_poll_keeps fuel : keeps (net_poll tcp_input fuel).
Proof using Hcard Hcounter Hlen Hrecv Hwait. apply net_poll_with_keeps. intros ip. apply route_mac_keeps. Qed.

(** *** The calls *)
Lemma wait_for_keeps {A} poll fuel (ok : hst -> option A) n deadline : keeps poll -> keeps_pair (wait_for poll fuel ok n deadline).
Proof using Hwait.
  intros Hp. induction fuel as [|fuel IH]; intros out h r Hi E; cbn [wait_for] in E;
    destruct (negb _); try (by injection E as <-); [done|].
  apply obind_ret_inv in E as (h1 & E1 & E). apply (Hp _ _ _ Hi) in E1.
  destruct (ok h1); [by injection E as <-|]. eapply IH; [|exact E]. by apply wait_inv.
Qed.

Lemma snd_nxt_inv out j v (h : hst) : inv out h -> inv out (upd j (with_snd_nxt v) h).
Proof. intros Hi. by eapply upd_inv. Qed.

Section polled.
Context (poll : hst -> outcome hst) (send : Z -> Z -> list Z -> hst -> outcome (Z * hst)).
Context (Hpoll : keeps poll) (Hsend : forall dst p b, keeps_pair (send dst p b)).

Lemma chunk_loop_keeps fuel j seq data tries : forall try, keeps_pair (chunk_loop poll send fuel j seq data try tries).
Proof using Hpoll Hsend Hwait.
  induction tries as [|tries IH]; intros try out h r Hi E; cbn [chunk_loop] in E.
  { injection E as <-. by apply snd_nxt_inv. }
  apply obind_ret_inv in E as ([e h1] & E1 & E). apply (send_seg_keeps send Hsend _ _ _ _ _ _ _ _ Hi) in E1. cbn in E1.
  destruct (negb _); [by injection E as <-|].
  apply obind_ret_inv in E as ([w h2] & E2 & E). eapply wait_for_keeps in E2; [|exact Hpoll|exact E1]. cbn in E2.
  destruct w as [[|]|]; [by injection E as <-..|]. by eapply IH.
Qed.
Lemma send_loop_keeps n fuel j buf : forall sent, keeps_pair (send_loop poll send n fuel j buf sent).
Proof using Hpoll Hsend Hwait.
  induction n as [|n IH]; intros sent out h r Hi E; cbn [send_loop] in E; destruct (_ <=? _); try (by injection E as <-); [done|].
  apply obind_ret_inv in E as ([w h2] & E2 & E). eapply chunk_loop_keeps in E2; [|by apply snd_nxt_inv]. cbn in E2.
  destruct w as [e|]; [by injection E as <-|]. by eapply IH.
Qed.
Lemma tcp_send_keeps fuel j buf : keeps_pair (tcp_send poll send fuel j buf).
Proof using Hpoll Hsend Hwait.
  intros out h r Hi E. unfold tcp_send in E. destruct (t_reset _); [by injection E as <-|].
  destruct (_ && _); [by injection E as <-|]. by eapply send_loop_keeps.
Qed.

Lemma take_rx_inv out max h b h' : inv out h -> take_rx i max h = (b, h') -> inv (out ++ b) h'.
Proof.
  intros Hi E. injection E as <- <-. set (n := Z.to_nat (Z.min _ _)). eapply upd_inv; [exact Hi| |done].
  intros _ (Hst & Hl & Hr & Ha & Hroom & k & Hk & Hout & Hnxt). repeat split; try done.
  { cbn [with_rx rx]. unfold zlen in *. rewrite length_drop. lia. }
  exists k. split; [done|]. split; [|done]. cbn [with_rx rx]. by rewrite <- app_assoc, take_drop.
Qed.
Lemma tcp_recv_inv fuel max out h n b h' : inv out h -> tcp_recv poll fuel i max h = Ret (n, b, h') -> inv (out ++ b) h'.
Proof using Hpoll Hwait.
  intros Hi E. unfold tcp_recv in E. destruct (t_reset _); [injection E as <- <- <-; by rewrite app_nil_r|].
  revert E. generalize (u64 (ticks (h_m h) + hz (h_m h) * 5)). intros d. revert h Hi.
  induction fuel as [|fuel IH]; intros h Hi E; [done|]. cbn [recv_loop] in E.
  apply obind_ret_inv in E as (h1 & E1 & E). apply (Hpoll _ _ _ Hi) in E1. destruct (negb _).
  { destruct (take_rx i max h1) as [b1 h2] eqn:Et. injection E as <- <- <-. by eapply take_rx_inv. }
  destruct (t_reset _); [injection E as <- <- <-; by rewrite app_nil_r|].
  destruct (fin_seen _); [injection E as <- <- <-; by rewrite app_nil_r|].
  destruct (_ <=? _); [injection E as <- <- <-; by rewrite app_nil_r|]. eapply IH; [|exact E]. by apply wait_inv.
Qed.
End polled.
End stream.

(** What is known of the machine under a connection: however it is used, the
    segments of the connection it delivers are the peer's. *)
Record faithful {M} `{Machine M} (me lp rp ra isn : Z) (strm : list Z) (Good : M -> Prop) : Prop := {
  faithful_recv m r m' : Good m -> card_recv m = (r, m') -> genuine_frame me lp rp ra isn strm r /\ Good m';
  faithful_send m b : Good m -> Good (card_send m b).2;
  faithful_wait m n : Good m -> Good (net_wait m n);
  faithful_counter m : Good m -> Good (counter m).2
}.

(** A program's calls on the connection, and what they gave it so far. *)
Inductive call {M} `{Machine M} (i : nat) : list Z * @host M tcp -> list Z * @host M tcp -> Prop :=
  | call_recv fuel max out h n b h' :
      tcp_recv (net_poll tcp_input fuel) fuel i max h = Ret (n, b, h') -> call i (out, h) (out ++ b, h')
  | call_send fuel buf out h r h' :
      tcp_send (net_poll tcp_input fuel) (net_ip_send (route_mac tcp_input fuel)) fuel i buf h = Ret (r, h') ->
      call i (out, h) (out, h')
  | call_poll fuel out h h' : net_poll tcp_input fuel h = Ret h' -> call i (out, h) (out, h').

(** C9: TCP delivers the peer's stream.  Take an established connection, and
    a network on which whatever passes the checksum and names the connection is
    a part of one stream under its own sequence number, but arrives in any
    order, any number of times or never, among any other traffic.  Then after
    any sequence of receives, sends and polls - with the polling that sending
    does in turn - the bytes the program was given, followed by those still in
    the buffer, are a prefix of the stream: nothing is duplicated, reordered or
    invented; and the buffer never overflows. *)
Theorem tcp_stream {M} `{Machine M} i isn strm Good (h0 h : @host M tcp) out :
  zlen strm + 1 < 2 ^ 32 -> Good (h_m h0) ->
  faithful (my_ip (h_net h0)) (lport (conn h0 i)) (rport (conn h0 i)) (rip (conn h0 i)) isn strm Good ->
  t_state (conn h0 i) = T_ESTABLISHED -> rx (conn h0 i) = [] -> rcv_nxt (conn h0 i) = u32 (isn + 1) ->
  rtc (call i) ([], h0) (out, h) ->
  zlen (rx (conn h i)) <= RXBUF /\ exists rest, strm = out ++ rx (conn h i) ++ rest.
Proof.
  intros Hlen HG [Fr Fs Fw Fc] Hst Hrx Hnxt Hrun.
  set (P := inv i (my_ip (h_net h0)) (lport (conn h0 i)) (rport (conn h0 i)) (rip (conn h0 i)) isn strm Good).
  assert (P out h) as Hi.
  { refine (rtc_inv (call i) (fun x => P x.1 x.2) ([], h0) (out, h) _ _ Hrun).
    - clear Hrun. intros x y Hx Hxy. destruct Hxy as [fuel max o h1 n b h2 E|fuel buf o h1 r h2 E|fuel o h1 h2 E]; cbn in *.
      + eapply tcp_recv_inv; [exact Fw|by apply net_poll_keeps|exact Hx|exact E].
      + eapply (tcp_send_keeps i _ _ _ _ _ strm Good Fw _ _ _ _ fuel i buf o h1 (r, h2) Hx E).
      + eapply net_poll_keeps; eauto.
    - split; [|done]. cbn [fst snd]. unfold conn_inv, is_st. rewrite Hst, Hrx. repeat split; try done. exists 0. pose proof (zlen_nonneg strm).
      repeat split; try lia. left. by rewrite Z.add_0_r. }
  destruct Hi as [(_ & _ & _ & _ & Hroom & k & Hk & Hout & _) _]. split; [done|].
  exists (drop (Z.to_nat k) strm). by rewrite app_assoc, Hout, take_drop.
Unshelve.
  - by apply net_poll_keeps.
  - intros dst p b. apply net_ip_send_keeps; [done|]. intros ip. by apply route_mac_keeps.
Qed.

(** ** A segment sent is the segment read *)
Definition sock_ok (s : tcp_sock) : Prop :=
  0 <= lport s < 65536 /\ 0 <= rport s < 65536 /\ 0 <= rcv_nxt s < 2 ^ 32.

Definition seg_front (s : tcp_sock) (flags seq c : Z) (w : bool) : list Z :=
  b_put16 (lport s) ++ b_put16 (rport s) ++ b_put32 seq ++ b_put32 (rcv_nxt s)
  ++ [Z.shiftl (if w then 6 else 5) 4; flags] ++ b_put16 (u16 (RXBUF - zlen (rx s))) ++ b_put16 c ++ [0; 0]
  ++ (if w then [2; 4] ++ b_put16 MSS else []).
Lemma seg_bytes_front s flags seq c data w : seg_bytes s flags seq c data w = seg_front s flags seq c w ++ data.
Proof. unfold seg_bytes, seg_front. by rewrite <- !app_assoc. Qed.
Lemma seg_front_len s flags seq c w : zlen (seg_front s flags seq c w) = if w then 24 else 20.
Proof. by destruct w. Qed.
Lemma seg_front_ok s flags seq c w : is_byte flags -> bytes_ok (seg_front s flags seq c w).
Proof.
  intros Hf. unfold seg_front. repeat (apply Forall_app; split); try apply b_put16_bytes; try apply b_put32_bytes.
  - repeat (constructor; [destruct w; done || (unfold is_byte; cbn; lia)|]). constructor.
  - apply (bool_decide_unpack _). done.
  - destruct w; apply (bool_decide_unpack _); done.
Qed.
Lemma words_seg_front s flags seq c w :
  0 <= c < 65536 -> words (seg_front s flags seq c w) = words (seg_front s flags seq 0 w) + c.
Proof.
  intros Hc. pose proof (words_put16 c Hc) as E. pose proof (words_put16 0 ltac:(lia)) as E0.
  unfold seg_front. rewrite !words_app by done. lia.
Qed.

Section segment.
Context {M : Type} `{Machine M}.
Abbreviation hst := (@host M tcp).
Abbreviation sender := (Z -> Z -> list Z -> hst -> outcome (Z * hst)).

Lemma segment_received (send : sender) s flags seq data w src h :
  sock_ok s -> 0 <= seq < 2 ^ 32 -> is_byte flags -> bytes_ok data -> zlen data <= MSS -> rip s = my_ip (h_net h) ->
  tcp_input send (segment src s flags seq data w) src h
  = tcp_segment send (lport s) (rport s) seq (rcv_nxt s) flags data src h.
Proof.
  intros (Hl & Hr & Hn) Hseq Hf Hd Hlen Hip. unfold MSS in Hlen. pose proof (zlen_nonneg data). unfold segment.
  set (c := net_ip_checksum_with_pseudo src (rip s) IP_TCP (seg_bytes s flags seq 0 data w)).
  assert (net_ip_checksum_with_pseudo src (my_ip (h_net h)) IP_TCP (seg_bytes s flags seq c data w) = 0) as Hsum.
  { rewrite <- Hip. rewrite !seg_bytes_front. eapply pseudo_verifies with (seg0 := seg_bytes s flags seq 0 data w).
    - done.
    - rewrite seg_bytes_front. apply Forall_app. split; [by apply seg_front_ok|done].
    - apply Forall_app. split; [by apply seg_front_ok|done].
    - by rewrite seg_bytes_front, !zlen_app, !seg_front_len.
    - rewrite zlen_app, seg_front_len. destruct w; lia.
    - reflexivity.
    - fold c. rewrite seg_bytes_front, !words_app by (rewrite seg_front_len; by destruct w).
      rewrite words_seg_front by apply sum_fold_range. lia. }
  unfold tcp_input. rewrite Hsum. clear Hsum. rewrite seg_bytes_front.
  pose proof (seg_front_len s flags seq c w) as Ef. set (hl := if w then 24 else 20) in Ef.
  assert (20 <= hl <= 24) as Hhl by (unfold hl; destruct w; lia).
  rewrite zlen_app, Ef, (proj2 (Z.ltb_ge (hl + zlen data) 20)) by lia.
  rewrite !ld_front, !ld16be_front, !ld32be_front by lia.
  assert (ld (seg_front s flags seq c w) 12 = Ret (4 * hl)) as -> by by destruct w.
  cbn [obind]. assert (Z.shiftr (4 * hl) 4 * 4 = hl) as -> by by destruct w.
  rewrite (proj2 (Z.ltb_ge hl 20)), (proj2 (Z.ltb_ge (hl + zlen data) hl)) by lia. cbn [orb negb Z.eqb].
  change (ld16be (seg_front s flags seq c w) 0) with (Ret (Z.lor (Z.shiftl (u8 (Z.shiftr (lport s) 8)) 8) (u8 (lport s)))).
  change (ld16be (seg_front s flags seq c w) 2) with (Ret (Z.lor (Z.shiftl (u8 (Z.shiftr (rport s) 8)) 8) (u8 (rport s)))).
  rewrite !join16 by lia. cbn [obind].
  change (ld32be (seg_front s flags seq c w) 4) with (Ret (Z.lor (Z.lor (Z.lor (Z.shiftl (u8 (Z.shiftr seq 24)) 24)
      (Z.shiftl (u8 (Z.shiftr seq 16)) 16)) (Z.shiftl (u8 (Z.shiftr seq 8)) 8)) (u8 seq))).
  change (ld32be (seg_front s flags seq c w) 8) with (Ret (Z.lor (Z.lor (Z.lor (Z.shiftl (u8 (Z.shiftr (rcv_nxt s) 24)) 24)
      (Z.shiftl (u8 (Z.shiftr (rcv_nxt s) 16)) 16)) (Z.shiftl (u8 (Z.shiftr (rcv_nxt s) 8)) 8)) (u8 (rcv_nxt s)))).
  rewrite !join32 by lia. cbn [obind]. change (ld (seg_front s flags seq c w) 13) with (Ret flags). cbn [obind].
  replace (hl + zlen data - hl) with (zlen data) by lia.
  pose proof (lds_app (seg_front s flags seq c w) data []) as E. rewrite app_nil_r, Ef in E. by rewrite E.
Qed.

Lemma slot_lt (ok : tcp_sock -> bool) (h : hst) j : find_index ok (conns (h_tcp h)) 0 = Some j -> (j < length (conns (h_tcp h)))%nat.
Proof.
  intros E. destruct (find_index_app _ _ _ _ E) as (_ & x & Hx & _). rewrite Nat.sub_0_r in Hx. by apply lookup_lt_Some in Hx.
Qed.
Lemma conn_upd_same j f (h : hst) : (j < length (conns (h_tcp h)))%nat -> conn (upd j f h) j = f (conn h j).
Proof. intros Hj. rewrite conn_upd by done. by rewrite decide_True. Qed.
Lemma upd_len j f (h : hst) : length (conns (h_tcp (upd j f h))) = length (conns (h_tcp h)).
Proof. apply length_alter. Qed.
Lemma seq_ge_refl a : seq_ge a a = true.
Proof. unfold seq_ge. by rewrite Z.sub_diag. Qed.

(** The connection a SYN makes, and what each end becomes. *)
Definition half_open (cs : tcp_sock) (cip iss : Z) (l : nat) : tcp_sock :=
  TcpSock T_SYN_RCVD (rport cs) (lport cs) cip (u32 (iss + 1)) iss (u32 (snd_una cs + 1)) [] false false (Some l).
Definition opened (s : tcp_sock) (una nxt : Z) : tcp_sock := with_state T_ESTABLISHED (with_rcv_nxt nxt (with_snd_una una s)).

(** C15: the handshake.  A client waiting on the SYN it sent and a server that
    listens on the port and has a socket free exchange three segments: the
    server, given the SYN, makes a half-open connection and sends exactly the
    SYN|ACK; any client in that state, given it, becomes established and sends
    exactly the ACK; any server with that half-open connection, given it, has
    it established.  Each end then expects the very number the other sends
    next. *)
Theorem tcp_handshake (send : sender) (hc hs : hst) i l c :
  let cs := conn hc i in let cip := my_ip (h_net hc) in let sip := my_ip (h_net hs) in
  let iss := u32 (counter (h_m hs)).1 in let ss := half_open cs cip iss l in
  let cs' := opened cs (snd_nxt cs) (u32 (iss + 1)) in let ss' := opened ss (u32 (iss + 1)) (rcv_nxt ss) in
  t_state cs = T_SYN_SENT -> sock_ok cs -> 0 <= snd_una cs < 2 ^ 32 -> snd_nxt cs = u32 (snd_una cs + 1) -> rip cs = sip ->
  find_index (four_tuple (lport cs) (rport cs) sip) (conns (h_tcp hc)) 0 = Some i ->
  find_index (four_tuple (rport cs) (lport cs) cip) (conns (h_tcp hs)) 0 = None ->
  find_index (fun s => is_st T_LISTEN s && (lport s =? rport cs)) (conns (h_tcp hs)) 0 = Some l ->
  find_index (is_st T_FREE) (conns (h_tcp hs)) 0 = Some c ->
  (exists hs1, conn hs1 c = ss /\
     tcp_input send (segment cip cs F_SYN (snd_una cs) [] true) cip hs
     = let! r := send cip IP_TCP (segment sip ss (Z.lor F_SYN F_ACK) iss [] true) hs1 in Ret r.2)
  /\ (exists hc1, conn hc1 i = cs' /\
     tcp_input send (segment sip ss (Z.lor F_SYN F_ACK) iss [] true) sip hc
     = let! r := send sip IP_TCP (segment cip cs' F_ACK (snd_nxt cs) [] false) hc1 in Ret r.2)
  /\ (forall hs2 : hst, my_ip (h_net hs2) = sip -> conn hs2 c = ss ->
     find_index (four_tuple (rport cs) (lport cs) cip) (conns (h_tcp hs2)) 0 = Some c ->
     exists hs3, tcp_input send (segment cip cs' F_ACK (snd_nxt cs) [] false) cip hs2 = Ret hs3 /\ conn hs3 c = ss')
  /\ snd_nxt cs' = rcv_nxt ss' /\ snd_nxt ss' = rcv_nxt cs'.
Proof.
  intros cs cip sip iss ss cs' ss' Hst (Hl & Hr & Hn) Hu Hnx Hrip Hfc Hfs Hfl Hff.
  assert (0 <= iss < 2 ^ 32) as Hiss by (apply (uwrap_range 32); lia).
  pose proof (uwrap_range 32 (iss + 1) ltac:(lia)) as Hiss1. pose proof (uwrap_range 32 (snd_una cs + 1) ltac:(lia)) as Hu1.
  split; [|split; [|split; [|done]]].
  - exists (upd c (fun _ => ss) (set_m (counter (h_m hs)).2 hs)). pose proof (slot_lt _ _ _ Hff) as Hc. rewrite conn_upd_same by done. split; [done|].
    rewrite segment_received by (done || (unfold is_byte, F_SYN; lia)). unfold tcp_segment. rewrite Hfs.
    change (flag F_SYN F_SYN && negb (flag F_ACK F_SYN)) with true. cbv iota. unfold passive_open. rewrite Hfl, Hff.
    destruct (counter (h_m hs)) as [t m] eqn:Et. unfold send_seg. cbn [fst snd] in *. rewrite conn_upd_same by done. done.
  - exists (upd i (fun s => with_state T_ESTABLISHED (with_rcv_nxt (u32 (iss + 1)) (with_snd_una (u32 (snd_una cs + 1)) s))) hc).
    pose proof (slot_lt _ _ _ Hfc) as Hi. rewrite conn_upd_same by done. split; [by unfold cs', opened; rewrite Hnx|].
    rewrite segment_received by (done || (unfold is_byte, F_SYN, F_ACK; cbn; lia)). unfold tcp_segment. cbn [ss half_open lport rport rcv_nxt].
    rewrite Hfc. change (flag F_RST (Z.lor F_SYN F_ACK)) with false. cbv iota. fold cs. rewrite Hst.
    change (negb (flag F_SYN (Z.lor F_SYN F_ACK)) || negb (flag F_ACK (Z.lor F_SYN F_ACK))) with false. cbv iota.
    rewrite Hnx, Z.eqb_refl. cbn [negb]. unfold send_ack, send_seg. rewrite conn_upd_same by done. fold cs.
    cbn [with_state with_rcv_nxt with_snd_una snd_nxt rip]. rewrite Hnx, Hrip. unfold cs', opened. by rewrite Hnx.
  - intros hs2 Hme Hss Hf2. pose proof (slot_lt _ _ _ Hf2) as Hc.
    rewrite segment_received; [|done|by rewrite Hnx|unfold is_byte, F_ACK; lia|done|done|by rewrite Hme].
    unfold tcp_segment. cbn [cs' opened with_state with_rcv_nxt with_snd_una lport rport rcv_nxt]. rewrite Hf2.
    change (flag F_RST F_ACK) with false. cbv iota. rewrite Hss. cbn [ss half_open t_state snd_nxt].
    change (flag F_ACK F_ACK) with true. rewrite Z.eqb_refl. cbn [negb orb]. unfold conn_input. change (zlen [] =? 0) with true.
    cbn [obind]. change (flag F_FIN F_ACK) with false. cbn [andb]. eexists. split; [done|].
    rewrite conn_upd_same by (rewrite upd_len; done). rewrite conn_upd_same by done. rewrite Hss.
    unfold take_ack. cbn [with_state with_snd_una ss half_open snd_una snd_nxt]. rewrite !seq_ge_refl. done.
Qed.

(** What follows is about a machine whose sends find the address they need, so
    that nothing else arrives meanwhile. *)
Definition quiet (send : sender) : Prop := forall dst p b h, exists r, send dst p b h = Ret r /\ h_tcp r.2 = h_tcp h.

Lemma send_ack_quiet (send : sender) j h : quiet send -> exists h', send_ack send j h = Ret h' /\ h_tcp h' = h_tcp h.
Proof.
  intros Hq. unfold send_ack, send_seg. destruct (Hq (rip (conn h j)) IP_TCP
    (segment (my_ip (h_net h)) (conn h j) F_ACK (snd_nxt (conn h j)) [] false) h) as (r & -> & E). by exists r.2.
Qed.
Lemma conn_tcp (h h' : hst) j : h_tcp h' = h_tcp h -> conn h' j = conn h j.
Proof. unfold conn. by intros ->. Qed.

(** A FIN acknowledges bytes that were never taken.  A peer whose
    acknowledgement was lost may send again from an older byte, with what
    follows and its FIN in the same segment.  That segment is not in order, so
    nothing of it is put in the buffer; but its FIN is accepted, and with it the
    receiver claims every byte of the segment.  The new bytes are lost: the
    buffer is as it was, the peer is told they arrived, and once the buffer is
    empty the reader is told that the stream has ended. *)
Theorem tcp_fin_loss (send : sender) p flags seq data src i (h : hst) :
  quiet send -> sock_ok p -> 0 <= seq < 2 ^ 32 -> is_byte flags -> bytes_ok data -> 0 < zlen data <= MSS -> rip p = my_ip (h_net h) ->
  find_index (four_tuple (rport p) (lport p) src) (conns (h_tcp h)) 0 = Some i -> t_state (conn h i) = T_ESTABLISHED ->
  t_reset (conn h i) = false -> flag F_RST flags = false -> flag F_FIN flags = true ->
  seq <> rcv_nxt (conn h i) -> seq_ge (rcv_nxt (conn h i)) seq = true ->
  exists h', tcp_input send (segment src p flags seq data false) src h = Ret h'
    /\ rx (conn h' i) = rx (conn h i) /\ rcv_nxt (conn h' i) = u32 (seq + zlen data + 1)
    /\ t_state (conn h' i) = T_CLOSE_WAIT
    /\ (rx (conn h i) = [] -> forall fuel max, tcp_recv (fun h => Ret h) (S fuel) i max h' = Ret (0, [], h')).
Proof.
  intros Hq Hp Hseq Hfl Hd [Hd0 Hlen] Hip Hi Hst Hrst HR HF Hne Hge. rewrite segment_received by done.
  unfold tcp_segment. rewrite Hi, HR, Hst. pose proof (slot_lt _ _ _ Hi) as Hlt. unfold conn_input.
  rewrite (proj2 (Z.eqb_neq _ 0)) by lia.
  set (ha := upd i (take_data seq data) (upd i (take_ack flags (rcv_nxt p)) h)).
  destruct (send_ack_quiet send i ha Hq) as (h1 & -> & E1). cbn [obind].
  set (s := conn h i) in *. set (sa := take_ack flags (rcv_nxt p) s).
  assert (rcv_nxt sa = rcv_nxt s /\ rx sa = rx s /\ t_state sa = t_state s /\ t_reset sa = t_reset s) as (Ea & Eb & Ec & Ed)
    by (unfold sa, take_ack; by destruct (_ && _ && _)).
  assert (conn ha i = sa) as Eha.
  { unfold ha. rewrite !conn_upd_same by (rewrite ?upd_len; done). unfold take_data. fold s sa. rewrite Ea.
    by rewrite (proj2 (Z.eqb_neq _ _) Hne). }
  assert (length (conns (h_tcp h1)) = length (conns (h_tcp h))) as L1 by (rewrite E1; unfold ha; by rewrite !upd_len).
  rewrite (conn_tcp ha) by done. rewrite Eha, Ea, HF, Hge. cbn [andb].
  destruct (send_ack_quiet send i (upd i (take_fin seq (zlen data)) h1) Hq) as (h2 & -> & E2). cbn [obind].
  assert (length (conns (h_tcp h2)) = length (conns (h_tcp h))) as L2 by (rewrite E2, upd_len; done).
  assert (conn (upd i after_fin h2) i = with_state T_CLOSE_WAIT (take_fin seq (zlen data) sa)) as E.
  { rewrite conn_upd_same by lia. rewrite (conn_tcp _ _ _ E2), conn_upd_same by lia. rewrite (conn_tcp _ _ _ E1), Eha.
    unfold after_fin, is_st. cbn [take_fin with_fin_seen with_rcv_nxt t_state]. by rewrite Ec, Hst. }
  eexists. split; [done|]. rewrite E. cbn. rewrite Eb. split_and!; [done..|].
  intros Hrx fuel max. unfold tcp_recv. rewrite E. cbn [with_state take_fin with_fin_seen with_rcv_nxt t_reset]. rewrite Ed, Hrst.
  cbn [recv_loop obind]. rewrite E. cbn [with_state take_fin with_fin_seen with_rcv_nxt t_reset rx fin_seen]. by rewrite Eb, Hrx, Ed, Hrst.
Qed.
End segment.

(** ** Instances *)
Definition ex_conn (st : tcp_state) (port peer_port peer nxt rcv : Z) : tcp_sock :=
  TcpSock st port peer_port peer nxt nxt rcv [] false false None.
Definition ex_host (ip : Z) (l : list tcp_sock) (w : wire) : @host wire tcp :=
  Host (arp_learn (3 - ip) [2; 0; 0; 0; 0; 3 - ip] (ex_net ip)) (Tcp l 40000) w.
Definition ex_peer : tcp_sock := ex_conn T_ESTABLISHED 4000 80 2 1001 501.
Definition ex_frame (flags seq : Z) (data : list Z) : list Z :=
  let seg := segment 1 ex_peer flags seq data false in
  eth_header (ex_net 1) [2; 0; 0; 0; 0; 2] ET_IPV4 ++ ip_header (20 + zlen seg) 0 IP_TCP 1 2 ++ seg.

(** "hello world": the first part, its repetition, the last part too early,
    the middle, and the last part again with the FIN. *)
Definition ex_stream : list Z := str "hello world".
Definition ex_arrivals : list (list Z) :=
  [ex_frame F_ACK 1001 (str "hello"); ex_frame F_ACK 1001 (str "hello"); ex_frame F_ACK 1009 (str "rld");
   ex_frame F_ACK 1006 (str " wo"); ex_frame (Z.lor F_ACK F_FIN) 1009 (str "rld")].
Definition ex_established (l : list (list Z)) : @host wire tcp :=
  ex_host 2 [free_sock; ex_conn T_ESTABLISHED 80 4000 1 501 1001] (Wire l [] 0).

Ltac compute_ret H := vm_compute in H; injection H as <-.
Lemma ex_genuine r flags off data :
  r = ex_frame flags (1001 + off) data -> 0 <= off -> off + zlen data <= 11 ->
  (forall b0 total src payload, ld r 14 = Ret b0 -> ld16be r 16 = Ret total -> ld32be r 26 = Ret src ->
    lds r (14 + Z.land b0 0x0f * 4) (total - Z.land b0 0x0f * 4) = Ret payload -> payload = segment 1 ex_peer flags (1001 + off) data false) ->
  (forall b12 q f d, let seg := segment 1 ex_peer flags (1001 + off) data false in
    ld seg 12 = Ret b12 -> ld32be seg 4 = Ret q -> ld seg 13 = Ret f ->
    lds seg (Z.shiftr b12 4 * 4) (zlen seg - Z.shiftr b12 4 * 4) = Ret d -> q = 1001 + off /\ f = flags /\ d = data) ->
  data = slice ex_stream off (zlen data) -> (flag F_FIN flags = true -> off + zlen data = 11) ->
  genuine_frame 2 80 4000 1 1000 ex_stream r.
Proof.
  intros Er Ho Hl Hp Hf Hs Hfin b0 total src payload H0 H1 H2 H3. rewrite (Hp _ _ _ _ H0 H1 H2 H3).
  intros b12 q f d _ _ _ _ H4 H5 H6 H7. destruct (Hf _ _ _ _ H4 H5 H6 H7) as (-> & -> & ->).
  right. exists off. split_and!; try done. pose proof (zlen_nonneg data). rewrite uwrap_small; lia.
Qed.
Ltac ex_frame_genuine flags off data :=
  apply (ex_genuine _ flags off data); [reflexivity|lia|vm_compute; discriminate|
    intros ???? H0 H1 H2 H3; compute_ret H0; compute_ret H1; compute_ret H2; compute_ret H3; reflexivity|
    intros ???? ? H0 H1 H2 H3; compute_ret H0; compute_ret H1; compute_ret H2; compute_ret H3; done|reflexivity|
    vm_compute; discriminate || reflexivity].

Definition ex_good (w : wire) : Prop := Forall (genuine_frame 2 80 4000 1 1000 ex_stream) (w_in w).
Lemma ex_arrivals_good : ex_good (Wire ex_arrivals [] 0).
Proof.
  unfold ex_good, ex_arrivals. cbn [w_in].
  constructor; [ex_frame_genuine F_ACK 0 (str "hello")|].
  constructor; [ex_frame_genuine F_ACK 0 (str "hello")|].
  constructor; [ex_frame_genuine F_ACK 8 (str "rld")|].
  constructor; [ex_frame_genuine F_ACK 5 (str " wo")|].
  constructor; [ex_frame_genuine (Z.lor F_ACK F_FIN) 8 (str "rld")|]. constructor.
Qed.
Lemma ex_faithful : faithful 2 80 4000 1 1000 ex_stream ex_good.
Proof.
  split; unfold ex_good.
  - intros [[|f l] o c] r m' HG E; injection E as <- <-; cbn in *.
    + split; [|done]. intros b0 total src payload H0. discriminate H0.
    + apply Forall_cons in HG. exact HG.
  - done.
  - done.
  - done.
Qed.

Lemma tcp_stream_witness :
  let h := ex_established ex_arrivals in
  exists n h', tcp_recv (net_poll tcp_input 2) 2 1 64 h = Ret (n, ex_stream, h')
  /\ exists rest, ex_stream = ex_stream ++ rx (conn h' 1) ++ rest.
Proof.
  intros h. destruct (tcp_recv (net_poll tcp_input 2) 2 1 64 h) as [[[n b] h']| |] eqn:E; [|vm_compute in E; discriminate E..].
  assert (b = ex_stream) as -> by (vm_compute in E; injection E as _ <- _; reflexivity).
  exists n, h'. split; [done|].
  apply (tcp_stream 1 1000 ex_stream ex_good h h' ex_stream); try reflexivity.
  - apply ex_arrivals_good.
  - apply ex_faithful.
  - apply (rtc_once ([], h)). exact (call_recv 1 2 64 [] h n ex_stream h' E).
Defined.

(** Sends that reach the card at once. *)
Definition ex_send : Z -> Z -> list Z -> @host wire tcp -> outcome (Z * @host wire tcp) :=
  net_ip_send (fun _ h => Ret (Some [2; 0; 0; 0; 0; 9], h)).
Lemma ex_send_quiet : quiet ex_send.
Proof. intros dst p b h. unfold ex_send, net_ip_send. destruct (_ <? _); eexists; split; reflexivity || done. Qed.

Lemma tcp_handshake_witness :
  let hc := ex_host 1 [with_snd_una 7000 (ex_conn T_SYN_SENT 40001 80 2 7001 0)] (Wire [] [] 5) in
  let hs := ex_host 2 [ex_conn T_LISTEN 80 0 0 0 0; free_sock] (Wire [] [] 9000) in
  let cs := conn hc 0 in let cip := my_ip (h_net hc) in let sip := my_ip (h_net hs) in
  let iss := u32 (counter (h_m hs)).1 in let ss := half_open cs cip iss 0 in
  iss = 9000 /\ exists hs1, conn hs1 1 = ss
    /\ tcp_input ex_send (segment cip cs F_SYN (snd_una cs) [] true) cip hs
       = let! r := ex_send cip IP_TCP (segment sip ss (Z.lor F_SYN F_ACK) iss [] true) hs1 in Ret r.2.
Proof.
  intros hc hs cs cip sip iss ss. split; [reflexivity|].
  refine (proj1 (tcp_handshake ex_send hc hs 0 0 1 _ _ _ _ _ _ _ _ _)); try reflexivity.
  - repeat split; vm_compute; discriminate || reflexivity.
  - vm_compute. split; discriminate || reflexivity.
Defined.

Lemma tcp_fin_loss_witness :
  let p := ex_peer in let h := ex_established [] in
  let h := upd 1 (with_rcv_nxt 1006) h in
  exists h', tcp_input ex_send (segment 1 p (Z.lor F_ACK F_FIN) 1001 (str "hello world") false) 1 h = Ret h'
    /\ rcv_nxt (conn h' 1) = 1013 /\ tcp_recv (fun h => Ret h) 1 1 64 h' = Ret (0, [], h').
Proof.
  intros p h1 h.
  destruct (tcp_fin_loss ex_send p (Z.lor F_ACK F_FIN) 1001 (str "hello world") 1 1 h) as (h' & E & _ & Hn & _ & Hr);
    [apply ex_send_quiet|..|exists h'; split; [exact E|split; [exact Hn|exact (Hr eq_refl 0%nat 64)]]].
  - repeat split; vm_compute; discriminate || reflexivity.
  - vm_compute. split; discriminate || reflexivity.
  - vm_compute. split; discriminate || reflexivity.
  - apply (bool_decide_unpack _). vm_compute. exact I.
  - vm_compute. split; discriminate || reflexivity.
  - reflexivity.
  - reflexivity.
  - reflexivity.
  - reflexivity.
  - reflexivity.
  - reflexivity.
  - vm_compute. discriminate.
  - reflexivity.
Defined.

Lemma net_no_overread_witness :
  let h := ex_established ex_arrivals in
  net_poll tcp_input 2 h <> Fault /\ exists t l, dhcp_option (zeros 240 ++ [53; 1; 5; 255]) 53 = Ret (t, l) /\ t = 242.
Proof.
  intros h. destruct (net_no_overread 2 h (zeros 240 ++ [53; 1; 5; 255]) 53) as [H1 H2]. split; [exact H1|].
  destruct H2 as (t & l & E & _); [apply (bool_decide_unpack _); vm_compute; exact I|].
  exists t, l. split; [exact E|]. vm_compute in E. injection E as <- _. reflexivity.
Defined.
