(* ===== verification/Elf.v ===== *)
(** * Executables: the kernel's loader and the sav compiler's writer

    [Load] models [stam/elf.c]: the checks, the segments put where they ask to
    be, and the manifest of a sav program.  [Write] models [sav/src/elf.c],
    which writes the file a sav program is.  The loader fills in a space behind
    the class [Space]; the page tables of [Vm] implement it. *)
From stdpp Require Import strings.
From S2P Require Import Prelude Bytes Mem Pmm Sav Vm.
Open Scope Z_scope.

(** A space being filled in.  [place]: a fresh zeroed page mapped at an
    address, executable or not.  [st8]: a byte stored through the address, none
    if the processor faults.  [ld8] is for the theorems: the byte at an address
    the program may write. *)
Class Space (M : Type) := {
  place : Z -> bool -> M -> bool * M;
  st8 : M -> Z -> Z -> option M;
  ld8 : M -> Z -> option Z
}.

(** What the kernel gets from a page of memory and a page of the tables: the
    page mapped is a fresh one; a store goes where the tables say, or to the
    kernel's own window. *)
Definition get_byte (m : memory) (a : Z) : Z := Z.land (Z.shiftr (word m (a - a mod 8)) (8 * (a mod 8))) 255.
Definition put_byte (m : memory) (a v : Z) : memory :=
  let k := 8 * (a mod 8) in
  store m (a - a mod 8) (Z.lor (Z.ldiff (word m (a - a mod 8)) (Z.shiftl 255 k)) (Z.shiftl v k)).

(** The address the kernel itself finds the byte at, if it may be written. *)
Definition window (s : vm) (va : Z) : option Z :=
  if va <? USER_LIMIT then
    match translate (mem (pm s)) (mmu_current_user_table_kva s) va with
    | Some (pa, attrs) => if Z.land attrs D_AP_RO =? 0 then Some (phys_to_kva pa) else None
    | None => None
    end
  else if KVA_OFFSET <=? va then Some va else None.

#[global] Instance vm_space : Space vm := {
  place va x s := let '(p, s) := alloc s in if p =? 0 then (false, s) else map_user_page s va p x;
  st8 s va v := a ← window s va; Some (set_pm s (set_mem (pm s) (put_byte (mem (pm s)) a v)));
  ld8 s va := get_byte (mem (pm s)) <$> window s va
}.

Module Load.
Definition PT_LOAD : Z := 1.
Definition PT_NOTE : Z := 4.
Definition PF_X : Z := 1.
Definition SAV_NOTE_TYPE : Z := 1.
Definition SAV_MAGIC : Z := 0x31564153.
(** ** The note *)
Fixpoint read_calls (n : nat) (img : list Z) (p : Z) : outcome (list Z) :=
  match n with
  | O => Ret []
  | S n => let! c := ld32le img p in let! l := read_calls n img (p + 4) in Ret (c :: l)
  end.
Fixpoint read_names (n : nat) (img : list Z) (p : Z) : outcome (list Z) :=
  match n with
  | O => Ret []
  | S n => let! c := ld img p in let! l := read_names n img (p + 1) in Ret ((if c =? 0 then 32 else c) :: l)
  end.
(** Without the spaces at the end. *)
Fixpoint trim (l : list Z) : list Z :=
  match l with
  | [] => []
  | c :: l => match trim l with [] => if c =? 32 then [] else [c] | l => c :: l end
  end.

Definition read_sav_note (img : list Z) (off len : Z) (m : sav_manifest) : outcome sav_manifest :=
  if (zlen img <? u64 (off + len)) || (len <? 16) then Ret m else
  let! namesz := ld32le img off in let! descsz := ld32le img (off + 4) in let! type := ld32le img (off + 8) in
  let desc_at := 12 + clear (u32 (namesz + 3)) 3 in
  if len <? desc_at + descsz then Ret m else
  if negb (type =? SAV_NOTE_TYPE) || negb (namesz =? 4) then Ret m else
  let! c0 := ld img (off + 12) in let! c1 := ld img (off + 13) in let! c2 := ld img (off + 14) in let! c3 := ld img (off + 15) in
  if negb ((c0 =? 115) && (c1 =? 97) && (c2 =? 118) && (c3 =? 0)) then Ret m else
  let d := off + desc_at in
  if descsz <? 16 then Ret m else
  let! magic := ld32le img d in let! version := ld32le img (d + 4) in
  if negb (magic =? SAV_MAGIC) || negb (version =? 1) then Ret m else
  let! ncalls := ld32le img (d + 8) in let! nameslen := ld32le img (d + 12) in
  if descsz <? 16 + ncalls * 4 + nameslen then Ret m else
  if SAV_MAX_CALLS <? ncalls then Ret m else
  let! l := read_calls (Z.to_nat ncalls) img (d + 16) in
  let! names := read_names (Z.to_nat (Z.min nameslen (SAV_CAPS_BYTES - 1))) img (d + 16 + ncalls * 4) in
  Ret (Manifest true l (trim names)).

(** ** The segments *)
Section load.
Context {M : Type} `{Space M}.

(** The pages from [va], [n] of them. *)
Fixpoint place_loop (n : nat) (va : Z) (x : bool) (m : M) : bool * M :=
  match n with
  | O => (true, m)
  | S n => let '(ok, m) := place va x m in if ok then place_loop n (va + PAGE_SIZE) x m else (false, m)
  end.

(** [n] bytes of [src] stored from [dst]. *)
Fixpoint copy_bytes (src : list Z) (n dst : Z) (m : M) : outcome M :=
  if n <=? 0 then Ret m else
  match src with
  | [] => Fault
  | v :: src => match st8 m dst v with Some m => copy_bytes src (n - 1) (u64 (dst + 1)) m | None => Fault end
  end.
Definition from (img : list Z) (o : Z) : list Z := if o <? zlen img then drop (Z.to_nat o) img else [].

Definition load_segment (img : list Z) (flags offset vaddr filesz memsz : Z) (m : M) : outcome (bool * M) :=
  if zlen img <? u64 (offset + filesz) then Ret (false, m) else
  if memsz <? filesz then Ret (false, m) else
  let first := clear vaddr (PAGE_SIZE - 1) in
  let last := clear (u64 (vaddr + memsz + PAGE_SIZE - 1)) (PAGE_SIZE - 1) in
  let '(ok, m) := place_loop (Z.to_nat ((last - first) / PAGE_SIZE)) first (negb (Z.land flags PF_X =? 0)) m in
  if negb ok then Ret (false, m) else
  let! m := copy_bytes (from img offset) filesz vaddr m in Ret (true, m).

(** The program headers from the [i]th, [n] of them. *)
Fixpoint seg_loop (n : nat) (img : list Z) (phoff phentsize i loaded : Z) (mf : sav_manifest) (m : M)
    : outcome (option (Z * sav_manifest) * M) :=
  match n with
  | O => Ret (Some (loaded, mf), m)
  | S n =>
      let ph := phoff + i * phentsize in
      let! type := ld32le img ph in
      if type =? PT_NOTE then
        let! off := ld64le img (ph + 8) in let! len := ld64le img (ph + 32) in
        let! mf := read_sav_note img off len mf in
        seg_loop n img phoff phentsize (i + 1) loaded mf m
      else if negb (type =? PT_LOAD) then seg_loop n img phoff phentsize (i + 1) loaded mf m
      else
        let! flags := ld32le img (ph + 4) in
        let! offset := ld64le img (ph + 8) in
        let! vaddr := ld64le img (ph + 16) in
        let! filesz := ld64le img (ph + 32) in
        let! memsz := ld64le img (ph + 40) in
        let! r := load_segment img flags offset vaddr filesz memsz m in
        let '(ok, m) := r in
        if ok then seg_loop n img phoff phentsize (i + 1) (loaded + 1) mf m else Ret (None, m)
  end.

(** The entry point and the manifest; none is the [-1]. *)
Definition elf_load (img : list Z) (m : M) : outcome (option (Z * sav_manifest) * M) :=
  if zlen img <? 64 then Ret (None, m) else
  let! e0 := ld img 0 in let! e1 := ld img 1 in let! e2 := ld img 2 in let! e3 := ld img 3 in
  if negb ((e0 =? 0x7f) && (e1 =? 69) && (e2 =? 76) && (e3 =? 70)) then Ret (None, m) else
  let! class := ld img 4 in
  if negb (class =? 2) then Ret (None, m) else
  let! order := ld img 5 in
  if negb (order =? 1) then Ret (None, m) else
  let! machine := ld16le img 18 in
  if negb (machine =? 183) then Ret (None, m) else
  let! phoff := ld64le img 32 in
  let! phentsize := ld16le img 54 in let! phnum := ld16le img 56 in
  if (phnum =? 0) || (zlen img <? u64 (phoff + phnum * phentsize)) then Ret (None, m) else
  let! r := seg_loop (Z.to_nat phnum) img phoff phentsize 0 0 no_manifest m in
  match r with
  | (None, m) => Ret (None, m)
  | (Some (loaded, mf), m) =>
      if loaded =? 0 then Ret (None, m) else
      let! entry := ld64le img 24 in Ret (Some (entry, mf), m)
  end.
End load.
End Load.

(** ** [sav/src/elf.c] *)
Module Write.
(** The type and flag numbers are those of the loader. *)
Import Load.
Definition BASE_VA : Z := 0x400000.
Definition PF_W : Z := 2.
Definition PF_R : Z := 4.

(** [Image]; [text] is the code and the read-only data behind it. *)
Record Image := Img {
  text : list Z; rodata_off : Z; bss_size : Z; i_entry : Z; text_vaddr : Z; data_vaddr : Z;
  syscalls : list Z; capnames : list (list Z)
}.

Definition phdr (type flags off va filesz memsz align : Z) : list Z :=
  b_wr32 type ++ b_wr32 flags ++ b_put64 off ++ b_put64 va ++ b_put64 va ++ b_put64 filesz ++ b_put64 memsz ++ b_put64 align.
Definition shdr (name type flags addr off size align : Z) : list Z :=
  b_wr32 name ++ b_wr32 type ++ b_put64 flags ++ b_put64 addr ++ b_put64 off ++ b_put64 size
  ++ b_wr32 0 ++ b_wr32 0 ++ b_put64 align ++ b_put64 0.

Definition up (n k : Z) : Z := clear (u64 (n + (k - 1))) (k - 1).

(** The names, a NUL after each. *)
Definition names (img : Image) : list Z := concat ((fun s => s ++ [0]) <$> capnames img).
Definition build_note (img : Image) : list Z :=
  let desc := 16 + zlen (syscalls img) * 4 + zlen (names img) in
  let desc_pad := up desc 4 in
  let p := b_wr32 4 ++ b_wr32 desc_pad ++ b_wr32 1 ++ (str "sav" ++ [0]) ++ b_wr32 0x31564153 ++ b_wr32 1
           ++ b_wr32 (zlen (syscalls img)) ++ b_wr32 (zlen (names img)) ++ concat (b_wr32 <$> syscalls img) ++ names img in
  p ++ zeros (12 + 4 + desc_pad - zlen p).

Definition ehdr (entry sh_off : Z) : list Z :=
  [0x7f; 69; 76; 70; 2; 1; 1; 0] ++ zeros 8 ++ b_wr16 2 ++ b_wr16 183 ++ b_wr32 1 ++ b_put64 entry ++ b_put64 64 ++ b_put64 sh_off
  ++ b_wr32 0 ++ b_wr16 64 ++ b_wr16 56 ++ b_wr16 3 ++ b_wr16 64 ++ b_wr16 6 ++ b_wr16 5.

Definition shstr : list Z :=
  [0] ++ str ".text" ++ [0] ++ str ".rodata" ++ [0] ++ str ".note.sav" ++ [0] ++ str ".bss" ++ [0] ++ str ".shstrtab" ++ [0].

(** [while (ftell(f) < o) w8(f, 0);] *)
Definition fill_to (f : list Z) (o : Z) : list Z := f ++ zeros (o - zlen f).

(** The file; none is the compiler's internal error. *)
Definition write_elf (img : Image) : option (list Z) :=
  let note := build_note img in
  let hdr_size := 64 + 3 * 56 in
  let text_off := u64 (text_vaddr img - BASE_VA) in
  if text_off <? hdr_size then None else
  let text_end := text_off + zlen (text img) in
  let note_off := up text_end 4 in
  let seg1_size := note_off + zlen note in
  let data_off := up seg1_size 4096 in
  let code_size := rodata_off img in
  let rodata_va := text_vaddr img + rodata_off img in
  let rodata_sz := zlen (text img) - rodata_off img in
  let shstr_off := data_off in
  let sh_off := up (shstr_off + zlen shstr) 8 in
  let f := ehdr (i_entry img) sh_off
    ++ phdr PT_LOAD (Z.lor PF_R PF_X) 0 BASE_VA seg1_size seg1_size 0x1000
    ++ phdr PT_LOAD (Z.lor PF_R PF_W) data_off (data_vaddr img) 0 (bss_size img) 0x1000
    ++ phdr PT_NOTE PF_R note_off (BASE_VA + note_off) (zlen note) (zlen note) 4 in
  let f := fill_to f text_off ++ text img in
  let f := fill_to f note_off ++ note in
  let f := fill_to f shstr_off ++ shstr in
  let f := fill_to f sh_off in
  Some (f
    ++ shdr 0 0 0 0 0 0 0
    ++ shdr 1 1 0x6 (text_vaddr img) text_off code_size 4
    ++ shdr 7 1 0x2 rodata_va (text_off + code_size) rodata_sz 8
    ++ shdr 15 7 0x2 (BASE_VA + note_off) note_off (zlen note) 4
    ++ shdr 25 8 0x3 (data_vaddr img) data_off (bss_size img) 8
    ++ shdr 30 3 0 0 shstr_off (zlen shstr) 1).
End Write.
