(* ===== verification/ElfRun.v ===== *)
(** * What the loader does with a file

    The kernel loads what savc writes: the segments, the entry point and the
    manifest.  And a file made for it can have the loader write anywhere in the
    kernel. *)
From stdpp Require Import strings.
From S2P Require Import Prelude Bytes Mem Pmm Sav Vm Elf.
Import Elf.Load.
Open Scope Z_scope.

(** ** Fields of a file *)
Lemma ld16le_front a b i : 0 <= i -> i + 2 <= zlen a -> ld16le (a ++ b) i = ld16le a i.
Proof. intros. unfold ld16le. by rewrite !ld_app_l by lia. Qed.
Lemma ld32le_front a b i : 0 <= i -> i + 4 <= zlen a -> ld32le (a ++ b) i = ld32le a i.
Proof. intros. unfold ld32le. by rewrite !ld_app_l by lia. Qed.
Lemma ld64le_front a b i : 0 <= i -> i + 8 <= zlen a -> ld64le (a ++ b) i = ld64le a i.
Proof. intros. unfold ld64le. by rewrite !ld32le_front by lia. Qed.
Lemma ld32le_behind a b i : 0 <= i -> ld32le (a ++ b) (zlen a + i) = ld32le b i.
Proof.
  intros Hi. unfold ld32le. rewrite <- !Z.add_assoc. by rewrite !ld_app_r by lia.
Qed.

(** ** Bytes of words *)
Lemma get_put_byte m a v b : is_byte v -> get_byte (put_byte m a v) b = if b =? a then v else get_byte m b.
Proof.
  unfold is_byte. intros Hv. unfold get_byte, put_byte. rewrite word_store.
  pose proof (Z.mod_pos_bound a 8 ltac:(lia)) as Ha. pose proof (Z.mod_pos_bound b 8 ltac:(lia)) as Hb.
  destruct (Z.eqb_spec (b - b mod 8) (a - a mod 8)) as [E|E].
  2: { destruct (Z.eqb_spec b a) as [->|]; [lia|done]. }
  rewrite E. set (w := word m (a - a mod 8)).
  assert (forall k j, 0 <= k -> 0 <= j -> Z.testbit (Z.shiftl 255 k) j = bool_decide (k <= j < k + 8)) as H255.
  { intros k j Hk Hj. change 255 with (Z.ones 8). rewrite Z.shiftl_spec by lia. destruct (decide (k <= j)).
    - rewrite Z.testbit_ones_nonneg by lia. destruct (Z.ltb_spec (j - k) 8); symmetry; [apply bool_decide_eq_true|apply bool_decide_eq_false]; lia.
    - rewrite Z.testbit_neg_r by lia. symmetry. apply bool_decide_eq_false. lia. }
  assert (forall i, 0 <= i -> Z.testbit 255 i = bool_decide (i < 8)) as Hff.
  { intros i Hi. change 255 with (Z.ones 8). rewrite Z.testbit_ones_nonneg by lia.
    destruct (Z.ltb_spec i 8); symmetry; [apply bool_decide_eq_true|apply bool_decide_eq_false]; lia. }
  assert (forall i, 8 <= i -> Z.testbit v i = false) as Hvh by (intros i Hi; apply (range_bits 8); [exact Hv|lia]).
  apply Z.bits_inj'. intros i Hi.
  rewrite Z.land_spec, Z.shiftr_spec, Z.lor_spec, Z.ldiff_spec, H255, Hff, (Z.shiftl_spec v) by lia.
  destruct (Z.eqb_spec b a) as [->|Hne].
  - replace (i + 8 * (a mod 8) - 8 * (a mod 8)) with i by lia. destruct (decide (i < 8)).
    + rewrite !bool_decide_eq_true_2 by lia. cbn. by rewrite andb_false_r, andb_true_r.
    + rewrite (bool_decide_eq_false_2 (i < 8)) by lia. rewrite andb_false_r. symmetry. apply Hvh. lia.
  - rewrite Z.land_spec, Z.shiftr_spec, Hff by lia. destruct (decide (i < 8)); [|rewrite (bool_decide_eq_false_2 (i < 8)) by lia; by rewrite !andb_false_r].
    rewrite (bool_decide_eq_false_2 (8 * (a mod 8) <= _ < _)) by lia. cbn [negb]. rewrite andb_true_r.
    assert (Z.testbit v (i + 8 * (b mod 8) - 8 * (a mod 8)) = false) as ->; [|by rewrite orb_false_r].
    destruct (decide (b mod 8 < a mod 8)); [apply Z.testbit_neg_r; lia|apply Hvh; lia].
Qed.

(** ** A file made to write in the kernel *)

(** One segment, to be put at [va], whose size in memory makes its end wrap. *)
Definition crafted_header (va n : Z) : list Z :=
  [0x7f; 69; 76; 70; 2; 1; 1; 0] ++ zeros 8 ++ b_wr16 2 ++ b_wr16 183 ++ b_wr32 1 ++ b_put64 0 ++ b_put64 64 ++ b_put64 0
   ++ b_wr32 0 ++ b_wr16 64 ++ b_wr16 56 ++ b_wr16 1 ++ b_wr16 0 ++ b_wr16 0 ++ b_wr16 0
   ++ Write.phdr 1 4 120 va n (2 ^ 64 - va) 1.
Definition crafted (va : Z) (payload : list Z) : list Z := crafted_header va (zlen payload) ++ payload.

Definition bytes_from (m m' : memory) (dst : Z) (l : list Z) : Prop :=
  forall a, get_byte m' a = if (dst <=? a) && (a <? dst + zlen l) then at_ l (a - dst) else get_byte m a.

Lemma copy_bytes_window l : forall dst (s : vm), bytes_ok l -> KVA_OFFSET <= dst -> dst + zlen l <= 2 ^ 64 ->
  exists s', copy_bytes l (zlen l) dst s = Ret s' /\ bytes_from (mem (pm s)) (mem (pm s')) dst l.
Proof.
  induction l as [|v l IH]; intros dst s Hl Hd He.
  { exists s. split; [done|]. intros a. rewrite zlen_nil. zsplit; done. }
  apply Forall_cons in Hl as [Hv Hl]. rewrite zlen_cons in *. pose proof (zlen_nonneg l).
  cbn [copy_bytes]. rewrite (proj2 (Z.leb_gt (1 + zlen l) 0)) by lia. unfold st8, vm_space, window, KVA_OFFSET, USER_LIMIT in *.
  rewrite (proj2 (Z.ltb_ge dst (Z.shiftl 1 39))), (proj2 (Z.leb_le 0xffffff8000000000 dst)) by (change (Z.shiftl 1 39) with (2 ^ 39); lia).
  cbn [mbind option_bind]. replace (1 + zlen l - 1) with (zlen l) by lia.
  set (s1 := set_pm s (set_mem (pm s) (put_byte (mem (pm s)) dst v))).
  assert (forall a, get_byte (mem (pm s1)) a = if a =? dst then v else get_byte (mem (pm s)) a) as H1
    by (intros a; by apply get_put_byte).
  destruct l as [|v2 l].
  - exists s1. split; [done|]. intros a. rewrite H1, zlen_cons, zlen_nil. zsplit; try done. by replace (a - dst) with 0 by lia.
  - rewrite zlen_cons in He. pose proof (zlen_nonneg l). rewrite uwrap_small by lia.
    destruct (IH (dst + 1) s1) as (s' & E & Hs'); [done|unfold KVA_OFFSET; lia|rewrite zlen_cons; lia|]. exists s'. split; [exact E|]. intros a. rewrite Hs', H1, !zlen_cons. zsplit; try done.
    + by replace (a - dst) with 0 by lia.
    + unfold at_. replace (Z.to_nat (a - dst)) with (S (Z.to_nat (a - (dst + 1)))) by lia. done.
Qed.

(** C27: a file can have the loader write anywhere in the kernel.  The loader
    does not look at where a segment asks to be: for any address of the kernel's
    half and any bytes, there is a file that [elf_load] accepts, asking for no
    page at all, and that leaves exactly those bytes at exactly that address -
    the kernel's own data, its page tables, the free list - and nothing else
    changed. *)
Theorem elf_load_kernel_write (s : vm) va payload :
  bytes_ok payload -> 0 < zlen payload < 2 ^ 32 -> KVA_OFFSET <= va -> va + zlen payload <= 2 ^ 64 ->
  exists s', elf_load (crafted va payload) s = Ret (Some (0, no_manifest), s')
    /\ bytes_from (mem (pm s)) (mem (pm s')) va payload.
Proof.
  intros Hp Hlen Hva He. unfold KVA_OFFSET in Hva.
  destruct (copy_bytes_window payload va s Hp ltac:(unfold KVA_OFFSET; lia) He) as (s' & Hcopy & Hs'). exists s'. split; [|done].
  unfold crafted. set (h := crafted_header va (zlen payload)). assert (zlen h = 120) as Eh by reflexivity.
  unfold elf_load. rewrite zlen_app, Eh, (proj2 (Z.ltb_ge (120 + zlen payload) 64)) by lia.
  rewrite !ld_app_l, !ld16le_front, !ld64le_front by lia.
  change (ld h 0) with (Ret 0x7f). change (ld h 1) with (Ret 69). change (ld h 2) with (Ret 76). change (ld h 3) with (Ret 70).
  change (ld h 4) with (Ret 2). change (ld h 5) with (Ret 1). change (ld16le h 18) with (Ret 183). change (ld64le h 32) with (Ret 64).
  change (ld16le h 54) with (Ret 56). change (ld16le h 56) with (Ret 1). change (ld64le h 24) with (Ret 0). cbn [obind].
  change (negb ((127 =? 0x7f) && (69 =? 69) && (76 =? 76) && (70 =? 70))) with false. cbn [Z.eqb negb orb]. cbv iota.
  change (u64 (64 + 1 * 56)) with 120. rewrite (proj2 (Z.ltb_ge (120 + zlen payload) 120)) by lia.
  change (Z.to_nat 1) with 1%nat. cbn [seg_loop]. change (64 + 0 * 56) with 64.
  rewrite !ld32le_front, !ld64le_front by lia. change (ld32le h 64) with (Ret 1). change (ld32le h (64 + 4)) with (Ret 4).
  change (ld64le h (64 + 8)) with (Ret 120). change (ld64le h (64 + 16)) with (Ret (rd64 (b_put64 va) 0)).
  change (ld64le h (64 + 32)) with (Ret (rd64 (b_put64 (zlen payload)) 0)).
  change (ld64le h (64 + 40)) with (Ret (rd64 (b_put64 (2 ^ 64 - va)) 0)).
  rewrite !rd64_b_put64 by lia. cbn [obind]. change (1 =? PT_NOTE) with false. change (negb (1 =? PT_LOAD)) with false. cbv iota.
  unfold load_segment. rewrite zlen_app, Eh, (uwrap_small 64 (120 + zlen payload)) by lia.
  rewrite (proj2 (Z.ltb_ge (120 + zlen payload) (120 + zlen payload))), (proj2 (Z.ltb_ge (2 ^ 64 - va) (zlen payload))) by lia.
  assert (u64 (va + (2 ^ 64 - va) + PAGE_SIZE - 1) = 4095) as -> by (replace (va + _) with (2 ^ 64) by lia; done).
  change (clear 4095 (PAGE_SIZE - 1)) with 0. assert (0 <= clear va (PAGE_SIZE - 1)) as Hc by (apply Z.ldiff_nonneg; lia).
  replace (Z.to_nat ((0 - clear va (PAGE_SIZE - 1)) / PAGE_SIZE)) with 0%nat by (unfold PAGE_SIZE in *; zdm).
  cbn [place_loop negb].
  assert (from (h ++ payload) 120 = payload) as ->.
  { unfold from. rewrite zlen_app, Eh, (proj2 (Z.ltb_lt _ _)) by lia. change (Z.to_nat 120) with (length h). apply drop_app_length. }
  rewrite Hcopy. cbn [obind]. change (0 + 1 =? 0) with false. cbv iota. done.
Qed.

Lemma elf_load_kernel_write_witness :
  let s := Vm (Pmm true 0 0 0 0 0 0 0 None 0 0 ∅) 0 0 in
  exists s', elf_load (crafted (KVA_OFFSET + 0x40000123) (str "owned")) s = Ret (Some (0, no_manifest), s')
    /\ get_byte (mem (pm s')) (KVA_OFFSET + 0x40000123) = 111.
Proof.
  intros s. destruct (elf_load_kernel_write s (KVA_OFFSET + 0x40000123) (str "owned")) as (s' & E & Hs').
  - apply (bool_decide_unpack _). vm_compute. exact I.
  - vm_compute. split; reflexivity.
  - vm_compute. discriminate.
  - vm_compute. discriminate.
  - exists s'. split; [exact E|]. rewrite Hs'. reflexivity.
Defined.

(** ** Loading into a space that keeps its promise *)

(** What a space promises about the user half: a page placed is there and
    zero, as long as there is room for pages; a byte stored is the byte read. *)
Class SpaceLaws (M : Type) `{Space M} := {
  sp_ok : M -> Prop;
  room : M -> nat;
  place_law va x m : sp_ok m -> va mod 4096 = 0 -> 0 <= va < 2 ^ 39 -> (0 < room m)%nat ->
    exists m', place va x m = (true, m') /\ sp_ok m' /\ (room m <= S (room m'))%nat
      /\ forall a, ld8 m' a = if a / 4096 =? va / 4096 then Some 0 else ld8 m a;
  st8_law m a v : sp_ok m -> 0 <= a < 2 ^ 39 -> is_byte v -> is_Some (ld8 m a) ->
    exists m', st8 m a v = Some m' /\ sp_ok m' /\ room m' = room m
      /\ forall b, ld8 m' b = if b =? a then Some v else ld8 m b
}.

Section space.
Context {M : Type} `{SpaceLaws M}.

Lemma place_loop_ok n : forall va x m,
  sp_ok m -> va mod 4096 = 0 -> 0 <= va -> va + 4096 * Z.of_nat n <= 2 ^ 39 -> (n <= room m)%nat ->
  exists m', place_loop n va x m = (true, m') /\ sp_ok m' /\ (room m <= n + room m')%nat
    /\ forall a, ld8 m' a = if (va <=? a) && (a <? va + 4096 * Z.of_nat n) then Some 0 else ld8 m a.
Proof.
  induction n as [|n IH]; intros va x m Hok Hal Hva Hend Hroom.
  { exists m. split; [done|]. split; [done|]. split; [lia|]. intros a. zsplit; done. }
  destruct (place_law va x m) as (m1 & E1 & Hok1 & Hr1 & Hm1); [done|done|lia|lia|]. cbn [place_loop]. rewrite E1.
  unfold PAGE_SIZE in *. destruct (IH (va + 4096) x m1) as (m' & E & Hok' & Hr & Hm'); [done|zdm|lia|lia|lia|].
  exists m'. split; [done|]. split; [done|]. split; [lia|]. intros a. rewrite Hm', Hm1.
  destruct (Z.eqb_spec (a / 4096) (va / 4096)) as [Ea|Ea]; zsplit; try done; exfalso; zdm.
Qed.

Lemma copy_bytes_ok l : forall n dst m,
  sp_ok m -> bytes_ok l -> n <= zlen l -> 0 <= dst -> dst + n <= 2 ^ 39 ->
  (forall a, dst <= a < dst + n -> is_Some (ld8 m a)) ->
  exists m', copy_bytes l n dst m = Ret m' /\ sp_ok m' /\ room m' = room m
    /\ forall a, ld8 m' a = if (dst <=? a) && (a <? dst + n) then Some (at_ l (a - dst)) else ld8 m a.
Proof.
  induction l as [|v l IH]; intros n dst m Hok Hl Hn Hd He Hm.
  { rewrite zlen_nil in Hn. exists m. cbn [copy_bytes]. rewrite (proj2 (Z.leb_le n 0)) by lia. repeat split; try done.
    intros a. zsplit; done. }
  cbn [copy_bytes]. destruct (Z.leb_spec n 0).
  { exists m. repeat split; try done. intros a. zsplit; done. }
  rewrite zlen_cons in Hn. apply Forall_cons in Hl as [Hv Hl].
  destruct (st8_law m dst v) as (m1 & E1 & Hok1 & Hr1 & Hm1); [done|lia|done|apply Hm; lia|]. rewrite E1, uwrap_small by lia.
  destruct (IH (n - 1) (dst + 1) m1) as (m' & E & Hok' & Hr & Hm'); [done|done|lia|lia|lia| |].
  { intros a Ha. rewrite Hm1. destruct (a =? dst); [done|]. apply Hm. lia. }
  exists m'. split; [done|]. split; [done|]. split; [congruence|]. intros a. rewrite Hm', Hm1. zsplit; try done.
  - by replace (a - dst) with 0 by lia.
  - unfold at_. by replace (Z.to_nat (a - dst)) with (S (Z.to_nat (a - (dst + 1)))) by lia.
Qed.

(** The pages a segment touches. *)
Definition first_page (va : Z) : Z := va - va mod 4096.
Definition end_page (va memsz : Z) : Z := (va + memsz + 4095) - (va + memsz + 4095) mod 4096.
Definition pages (va memsz : Z) : nat := Z.to_nat ((end_page va memsz - first_page va) / 4096).

Lemma load_segment_ok img flags off va filesz memsz m :
  sp_ok m -> bytes_ok img -> zlen img < 2 ^ 64 -> 0 <= off -> 0 <= filesz -> off + filesz <= zlen img -> filesz <= memsz ->
  0 <= va -> va + memsz + 4096 <= 2 ^ 39 -> (pages va memsz <= room m)%nat ->
  exists m', load_segment img flags off va filesz memsz m = Ret (true, m') /\ sp_ok m'
    /\ (room m <= pages va memsz + room m')%nat
    /\ forall a, ld8 m' a = if (va <=? a) && (a <? va + filesz) then Some (at_ img (off + (a - va)))
                           else if (first_page va <=? a) && (a <? end_page va memsz) then Some 0 else ld8 m a.
Proof.
  intros Hok Hb Hsz Ho Hf Hin Hfm Hva Hend Hroom. unfold load_segment. rewrite (uwrap_small 64 (off + filesz)) by lia.
  rewrite (proj2 (Z.ltb_ge (zlen img) _)), (proj2 (Z.ltb_ge memsz filesz)) by lia.
  unfold PAGE_SIZE. replace (va + memsz + 4096 - 1) with (va + memsz + 4095) by lia. rewrite (uwrap_small 64 (va + memsz + 4095)) by lia.
  change (4096 - 1) with (2 ^ 12 - 1). rewrite !clear_ones by lia. change (2 ^ 12) with 4096.
  fold (end_page va memsz) (first_page va) (pages va memsz).
  assert (first_page va mod 4096 = 0 /\ 0 <= first_page va <= va) as [Hf1 Hf2] by (unfold first_page; zdm).
  assert (va + memsz <= end_page va memsz < va + memsz + 4096 /\ (end_page va memsz - first_page va) mod 4096 = 0) as [He1 He2]
    by (unfold end_page, first_page; zdm).
  assert (first_page va + 4096 * Z.of_nat (pages va memsz) = Z.max (first_page va) (end_page va memsz)) as Hn by (unfold pages; zdm).
  destruct (place_loop_ok (pages va memsz) (first_page va) (negb (Z.land flags PF_X =? 0)) m) as (m1 & -> & Hok1 & Hr1 & Hm1);
    [done|done|lia|lia|done|]. cbn [negb].
  assert (filesz <= zlen (from img off) /\ bytes_ok (from img off) /\ forall k, 0 <= k < filesz -> at_ (from img off) k = at_ img (off + k)) as (Hl1 & Hl2 & Hl3).
  { unfold from. destruct (Z.ltb_spec off (zlen img)).
    - split; [unfold zlen in *; rewrite length_drop; lia|]. split; [by apply Forall_drop|]. intros k Hk. unfold at_.
      rewrite !nth_lookup, lookup_drop. do 2 f_equal. lia.
    - rewrite zlen_nil. split; [lia|]. split; [done|]. intros k Hk. lia. }
  destruct (copy_bytes_ok (from img off) filesz va m1) as (m' & -> & Hok' & Hr' & Hm'); [done|done|done|lia|lia| |].
  { intros a Ha. rewrite Hm1. zsplit; [done|..]; lia. }
  exists m'. split; [done|]. split; [done|]. split; [lia|]. intros a. rewrite Hm', Hm1, Hn.
  destruct (Z.leb_spec va a), (Z.ltb_spec a (va + filesz)); cbn [andb]; try (rewrite Hl3 by lia; done); zsplit; done || lia.
Qed.
End space.

(** ** The file savc writes *)
Import Elf.Write.

Lemma up_spec n j : 0 <= j -> 0 <= n -> n + 2 ^ j < 2 ^ 64 -> n <= up n (2 ^ j) < n + 2 ^ j.
Proof.
  intros Hj Hn Hb. unfold up. pose proof (Z.pow_pos_nonneg 2 j ltac:(lia) Hj).
  rewrite clear_ones, uwrap_small by lia. pose proof (Z.mod_pos_bound (n + (2 ^ j - 1)) (2 ^ j) ltac:(lia)). lia.
Qed.

Lemma zlen_fill_to f o : zlen f <= o -> zlen (fill_to f o) = o.
Proof. intros. unfold fill_to. rewrite zlen_app, zlen_zeros by lia. lia. Qed.

Lemma zlen_words l : zlen (concat (b_wr32 <$> l)) = 4 * zlen l.
Proof. induction l as [|v l IH]; [done|]. cbn [fmap list_fmap concat]. rewrite zlen_app, IH, zlen_cons, zlen_b_wr32. lia. Qed.

Lemma words_bytes l : bytes_ok (concat (b_wr32 <$> l)).
Proof. induction l as [|c l IH]; [constructor|]. cbn [fmap list_fmap concat]. apply Forall_app. split; [apply b_wr32_bytes|exact IH]. Qed.

(** What the theorem asks of a program: it fits the user half, the globals do
    not share a page with the code, and its lists have the sizes they may. *)
Record image_ok (img : Image) : Prop := {
  io_text : bytes_ok (text img);
  io_size : zlen (text img) < 2 ^ 30;
  io_va : BASE_VA + 232 <= text_vaddr img < 2 ^ 37;
  io_entry : 0 <= i_entry img < 2 ^ 64;
  io_bss : 0 <= bss_size img < 2 ^ 37;
  io_data : 0 <= data_vaddr img < 2 ^ 38;
  io_apart : text_vaddr img + zlen (text img) + zlen (build_note img) + 4099 <= first_page (data_vaddr img);
  io_calls : Forall (fun c => 0 <= c < 2 ^ 32) (syscalls img);
  io_count : zlen (syscalls img) <= SAV_MAX_CALLS;
  io_names : bytes_ok (names img);
  io_nlen : zlen (names img) < 2 ^ 20
}.

Section image.
Context (img : Image) (Hi : image_ok img).

Definition desc_len : Z := 16 + zlen (syscalls img) * 4 + zlen (names img).
Definition note_head : list Z :=
  b_wr32 4 ++ b_wr32 (up desc_len 4) ++ b_wr32 1 ++ (str "sav" ++ [0]) ++ b_wr32 0x31564153 ++ b_wr32 1
  ++ b_wr32 (zlen (syscalls img)) ++ b_wr32 (zlen (names img)).

Lemma desc_bounds : 16 <= desc_len < 2 ^ 21 /\ desc_len <= up desc_len 4 < desc_len + 4.
Proof using Hi.
  pose proof (zlen_nonneg (syscalls img)). pose proof (zlen_nonneg (names img)). destruct Hi.
  assert (16 <= desc_len < 2 ^ 21) as Hd by (unfold desc_len, SAV_MAX_CALLS in *; lia). split; [done|].
  change 4 with (2 ^ 2). apply up_spec; lia.
Qed.

Lemma build_note_shape :
  build_note img = note_head ++ concat (b_wr32 <$> syscalls img) ++ names img ++ zeros (up desc_len 4 - desc_len)
  /\ zlen (build_note img) = 16 + up desc_len 4.
Proof using Hi.
  destruct desc_bounds as [Hd Hu]. unfold build_note. fold desc_len.
  set (p := b_wr32 4 ++ _). assert (p = note_head ++ concat (b_wr32 <$> syscalls img) ++ names img) as Ep.
  { unfold p, note_head. by rewrite <- !app_assoc. }
  assert (zlen p = 16 + desc_len) as El.
  { rewrite Ep, !zlen_app, zlen_words. change (zlen note_head) with 32. unfold desc_len. lia. }
  split.
  - rewrite El, Ep, <- !app_assoc. do 4 f_equal. lia.
  - rewrite zlen_app, zlen_zeros by lia. lia.
Qed.

Lemma read_calls_ok l pre post : Forall (fun c => 0 <= c < 2 ^ 32) l ->
  read_calls (length l) (pre ++ concat (b_wr32 <$> l) ++ post) (zlen pre) = Ret l.
Proof.
  revert pre. induction l as [|c l IH]; intros pre Hl; [done|]. apply Forall_cons in Hl as [Hc Hl].
  cbn [read_calls length fmap list_fmap concat]. rewrite <- (Z.add_0_r (zlen pre)) at 1. rewrite ld32le_behind by lia.
  rewrite <- app_assoc, ld32le_front by (rewrite ?zlen_b_wr32; lia).
  change (ld32le (b_wr32 c) 0) with (Ret (rd32 (b_wr32 c) 0)). rewrite rd32_b_wr32 by done. cbn [obind].
  specialize (IH (pre ++ b_wr32 c) Hl). rewrite zlen_app, zlen_b_wr32, <- app_assoc in IH. unfold fmap in *. by rewrite IH.
Qed.

Definition shown (c : Z) : Z := if c =? 0 then 32 else c.
Lemma read_names_ok n l pre post : (n <= length l)%nat ->
  read_names n (pre ++ l ++ post) (zlen pre) = Ret (shown <$> take n l).
Proof.
  revert pre l. induction n as [|n IH]; intros pre l Hl; [done|]. destruct l as [|c l]; cbn in Hl; [lia|].
  cbn [read_names take]. rewrite ld_app_r0. change (ld ((c :: l) ++ post) 0) with (Ret c). cbn [obind].
  specialize (IH (pre ++ [c]) l ltac:(lia)). rewrite zlen_app, <- app_assoc in IH. change (zlen [c]) with 1 in IH.
  cbn [app] in *. rewrite IH. done.
Qed.

(** The manifest the compiler meant. *)
Definition meant : sav_manifest :=
  Manifest true (syscalls img) (trim (shown <$> take (Z.to_nat (SAV_CAPS_BYTES - 1)) (names img))).

Lemma read_note_ok pre tail mf : zlen pre + zlen (build_note img) + zlen tail < 2 ^ 64 ->
  read_sav_note (pre ++ build_note img ++ tail) (zlen pre) (zlen (build_note img)) mf = Ret meant.
Proof using Hi.
  intros Hsz. destruct build_note_shape as [En El]. destruct desc_bounds as [Hd Hu].
  pose proof (zlen_nonneg (syscalls img)). pose proof (zlen_nonneg (names img)). pose proof (zlen_nonneg pre). pose proof (zlen_nonneg tail).
  destruct Hi as [_ _ _ _ _ _ _ Hcalls Hcount _ Hnlen]. unfold SAV_MAX_CALLS in Hcount.
  unfold read_sav_note. rewrite !zlen_app, El, (uwrap_small 64) by lia.
  rewrite (proj2 (Z.ltb_ge (zlen pre + (16 + up desc_len 4 + zlen tail)) _)), (proj2 (Z.ltb_ge (16 + up desc_len 4) 16)) by lia. cbn [orb].
  rewrite <- (Z.add_0_r (zlen pre)) at 1. rewrite !ld32le_behind, !ld_app_r by lia.
  set (body := concat (b_wr32 <$> syscalls img) ++ names img ++ zeros (up desc_len 4 - desc_len) ++ tail).
  assert (build_note img ++ tail = note_head ++ body) as Eb by (unfold body; by rewrite En, <- !app_assoc). rewrite Eb.
  assert (zlen note_head = 32) as Eh by reflexivity.
  rewrite !ld32le_front, !ld_app_l by lia.
  change (ld32le note_head 0) with (Ret 4). change (ld32le note_head 4) with (Ret (rd32 (b_wr32 (up desc_len 4)) 0)).
  change (ld32le note_head 8) with (Ret 1). rewrite rd32_b_wr32 by lia. cbn [obind].
  change (12 + clear (u32 (4 + 3)) 3) with 16. rewrite (proj2 (Z.ltb_ge (16 + up desc_len 4) (16 + up desc_len 4))) by lia.
  change (negb (1 =? SAV_NOTE_TYPE) || negb (4 =? 4)) with false. cbv iota.
  change (ld note_head 12) with (Ret 115). change (ld note_head 13) with (Ret 97). change (ld note_head 14) with (Ret 118).
  change (ld note_head 15) with (Ret 0). cbn [obind]. change (negb ((115 =? 115) && (97 =? 97) && (118 =? 118) && (0 =? 0))) with false. cbv iota.
  rewrite (proj2 (Z.ltb_ge (up desc_len 4) 16)) by lia. rewrite <- !Z.add_assoc, !ld32le_behind by lia. rewrite !ld32le_front by lia.
  change (16 + 4) with 20. change (16 + 8) with 24. change (16 + 12) with 28.
  change (ld32le note_head 16) with (Ret SAV_MAGIC). change (ld32le note_head 20) with (Ret 1).
  change (ld32le note_head 24) with (Ret (rd32 (b_wr32 (zlen (syscalls img))) 0)).
  change (ld32le note_head 28) with (Ret (rd32 (b_wr32 (zlen (names img))) 0)). rewrite !rd32_b_wr32 by lia. cbn [obind].
  change (negb (SAV_MAGIC =? SAV_MAGIC) || negb (1 =? 1)) with false. cbv iota.
  rewrite (proj2 (Z.ltb_ge (up desc_len 4) _)), (proj2 (Z.ltb_ge SAV_MAX_CALLS _)) by (unfold desc_len, SAV_MAX_CALLS in *; lia).
  change (16 + 16) with 32.
  assert (pre ++ note_head ++ body = (pre ++ note_head) ++ concat (b_wr32 <$> syscalls img) ++ names img ++ zeros (up desc_len 4 - desc_len) ++ tail) as ->
    by (unfold body; by rewrite <- !app_assoc).
  assert (zlen pre + 32 = zlen (pre ++ note_head)) as Ep by (rewrite zlen_app; lia).
  replace (Z.to_nat (zlen (syscalls img))) with (length (syscalls img)) by (unfold zlen; lia).
  rewrite Ep, read_calls_ok by done. cbn [obind].
  set (calls_ := concat (b_wr32 <$> syscalls img)). rewrite (app_assoc (pre ++ note_head)).
  replace (zlen (pre ++ note_head) + zlen (syscalls img) * 4) with (zlen ((pre ++ note_head) ++ calls_))
    by (rewrite (zlen_app (pre ++ note_head)); unfold calls_; rewrite zlen_words; lia).
  rewrite read_names_ok by (unfold zlen in *; lia). cbn [obind]. unfold meant. do 4 f_equal.
  destruct (Z.leb_spec (zlen (names img)) (SAV_CAPS_BYTES - 1)).
  - rewrite !take_ge by (unfold zlen in *; lia). done.
  - f_equal. lia.
Qed.

Definition text_off : Z := text_vaddr img - BASE_VA.
Definition text_end : Z := text_off + zlen (text img).
Definition note_off : Z := up text_end 4.
Definition seg1_size : Z := note_off + zlen (build_note img).
Definition data_off : Z := up seg1_size 4096.
Definition headers (sh_off : Z) : list Z :=
  ehdr (i_entry img) sh_off
  ++ phdr PT_LOAD (Z.lor PF_R PF_X) 0 BASE_VA seg1_size seg1_size 0x1000
  ++ phdr PT_LOAD (Z.lor PF_R PF_W) data_off (data_vaddr img) 0 (bss_size img) 0x1000
  ++ phdr PT_NOTE PF_R note_off (BASE_VA + note_off) (zlen (build_note img)) (zlen (build_note img)) 4.
(** The part of the file that is loaded. *)
Definition loaded_part (sh_off : Z) : list Z :=
  headers sh_off ++ zeros (text_off - 232) ++ text img ++ zeros (note_off - text_end) ++ build_note img.

Lemma layout_bounds :
  232 <= text_off < 2 ^ 37 /\ text_end <= note_off < text_end + 4 /\ 32 <= zlen (build_note img) < 2 ^ 22
  /\ seg1_size <= data_off < seg1_size + 4096 /\ text_end < 2 ^ 37 + 2 ^ 30.
Proof using Hi.
  destruct build_note_shape as [_ El]. destruct desc_bounds as [Hd Hu]. pose proof (zlen_nonneg (text img)). destruct Hi.
  unfold BASE_VA in *. assert (232 <= text_off < 2 ^ 37) as Ht by (unfold text_off, BASE_VA; lia).
  assert (text_end <= note_off < text_end + 4) as Hn by (unfold note_off; change 4 with (2 ^ 2); apply up_spec; unfold text_end; lia).
  split; [done|]. split; [done|]. split; [lia|]. split; [|unfold text_end; lia].
  unfold data_off. change 4096 with (2 ^ 12). apply up_spec; unfold seg1_size, text_end in *; lia.
Qed.

Lemma loaded_len sh_off : zlen (loaded_part sh_off) = seg1_size.
Proof using Hi.
  destruct layout_bounds as (Ht & Hn & Hb & _). unfold loaded_part. rewrite !zlen_app.
  change (zlen (headers sh_off)) with 232. rewrite !zlen_zeros by lia. unfold seg1_size, text_end in *. lia.
Qed.

Lemma write_elf_shape :
  exists sh_off tail, write_elf img = Some (loaded_part sh_off ++ tail) /\ 0 <= sh_off < 2 ^ 64
    /\ data_off - seg1_size <= zlen tail < 2 ^ 14 /\ bytes_ok tail.
Proof using Hi.
  destruct layout_bounds as (Ht & Hn & Hb & Hd & He). pose proof (zlen_nonneg (text img)).
  assert (u64 (text_vaddr img - BASE_VA) = text_off) as Eto by (unfold text_off in *; apply uwrap_small; lia).
  unfold write_elf. rewrite Eto. change (64 + 3 * 56) with 232. rewrite (proj2 (Z.ltb_ge text_off 232)) by lia.
  fold text_end. fold note_off. fold seg1_size. fold data_off.
  set (sh_off := up (data_off + zlen shstr) 8). fold (headers sh_off).
  assert (data_off + 40 <= sh_off < data_off + 48) as Hs.
  { unfold sh_off. change (zlen shstr) with 40. change 8 with (2 ^ 3). pose proof (up_spec (data_off + 40) 3). unfold seg1_size, text_end in *. lia. }
  unfold fill_to. change (zlen (headers sh_off)) with 232.
  set (f1 := (headers sh_off ++ zeros (text_off - 232)) ++ text img).
  assert (zlen f1 = text_end) as E1.
  { unfold f1. rewrite !zlen_app, zlen_zeros by lia. change (zlen (headers sh_off)) with 232. unfold text_end. lia. }
  rewrite E1. set (f2 := (f1 ++ zeros (note_off - text_end)) ++ build_note img).
  assert (f2 = loaded_part sh_off) as E2 by (unfold f2, f1, loaded_part; by rewrite <- !app_assoc).
  assert (zlen f2 = seg1_size) as L2 by (rewrite E2; apply loaded_len). rewrite L2.
  set (f3 := (f2 ++ zeros (data_off - seg1_size)) ++ shstr).
  assert (zlen f3 = data_off + 40) as L3 by (unfold f3; rewrite !zlen_app, zlen_zeros by lia; change (zlen shstr) with 40; lia).
  rewrite L3.
  assert (forall t u, (f3 ++ t) ++ u = loaded_part sh_off ++ zeros (data_off - seg1_size) ++ shstr ++ t ++ u) as E3
    by (intros t u; unfold f3; by rewrite E2, <- !app_assoc).
  rewrite E3. clear E3. exists sh_off. eexists. split; [reflexivity|].
  split; [unfold seg1_size, text_end in *; lia|]. split.
  - rewrite !zlen_app, !zlen_zeros by lia. change (zlen shstr) with 40. change (zlen (shdr _ _ _ _ _ _ _)) with 64. lia.
  - repeat (apply Forall_app; split); try apply zeros_bytes; try (unfold shdr; repeat (apply Forall_app; split); apply b_wr32_bytes || apply b_put64_bytes).
    all: apply (bool_decide_unpack _); vm_compute; exact I.
Qed.

Ltac of_bytes :=
  repeat (apply Forall_app; split); try apply b_wr32_bytes; try apply b_wr16_bytes; try apply b_put64_bytes; try apply zeros_bytes;
  try (apply (bool_decide_unpack _); vm_compute; exact I).
Lemma loaded_bytes sh_off : bytes_ok (loaded_part sh_off).
Proof using Hi.
  destruct build_note_shape as [En _].
  assert (bytes_ok (build_note img)) as Hb.
  { rewrite En. apply Forall_app. split; [unfold note_head; of_bytes|]. apply Forall_app. split; [apply words_bytes|].
    apply Forall_app. split; [apply Hi|apply zeros_bytes]. }
  assert (bytes_ok (headers sh_off)) as Hh by (unfold headers, ehdr, phdr; of_bytes).
  unfold loaded_part. apply Forall_app. split; [done|]. apply Forall_app. split; [apply zeros_bytes|].
  apply Forall_app. split; [apply Hi|]. apply Forall_app. split; [apply zeros_bytes|done].
Qed.
End image.

Lemma elem_existsb (c : Z) l : existsb (fun x => x =? c) l = true <-> c ∈ l.
Proof.
  rewrite existsb_exists. setoid_rewrite Z.eqb_eq. setoid_rewrite <- list_elem_of_In. split; [by intros (x & Hx & ->)|eauto].
Qed.

(** The fields the loader reads in a program header. *)
Lemma ld64le_behind a b i : 0 <= i -> ld64le (a ++ b) (zlen a + i) = ld64le b i.
Proof. intros Hi. unfold ld64le. rewrite <- Z.add_assoc. by rewrite !ld32le_behind by lia. Qed.

Lemma phdr_fields a c o ty fl off va fs ms al :
  zlen a = o -> 0 <= ty < 2 ^ 32 -> 0 <= fl < 2 ^ 32 -> Forall (fun v => 0 <= v < 2 ^ 64) [off; va; fs; ms] ->
  let file := a ++ phdr ty fl off va fs ms al ++ c in
  ld32le file o = Ret ty /\ ld32le file (o + 4) = Ret fl /\ ld64le file (o + 8) = Ret off /\ ld64le file (o + 16) = Ret va
  /\ ld64le file (o + 32) = Ret fs /\ ld64le file (o + 40) = Ret ms.
Proof.
  intros <- Hty Hfl Hv file. rewrite !Forall_cons in Hv. destruct Hv as (Hoff & Hva & Hfs & Hms & _).
  assert (zlen (phdr ty fl off va fs ms al) = 56) as Ep by reflexivity.
  rewrite <- (Z.add_0_r (zlen a)) at 1. unfold file. rewrite !ld32le_behind, !ld64le_behind by lia.
  rewrite !ld32le_front, !ld64le_front by lia.
  split_and!.
  - trans (Ret (rd32 (b_wr32 ty) 0)); [reflexivity|by rewrite rd32_b_wr32].
  - trans (Ret (rd32 (b_wr32 fl) 0)); [reflexivity|by rewrite rd32_b_wr32].
  - trans (Ret (rd64 (b_put64 off) 0)); [reflexivity|by rewrite rd64_b_put64].
  - trans (Ret (rd64 (b_put64 va) 0)); [reflexivity|by rewrite rd64_b_put64].
  - trans (Ret (rd64 (b_put64 fs) 0)); [reflexivity|by rewrite rd64_b_put64].
  - trans (Ret (rd64 (b_put64 ms) 0)); [reflexivity|by rewrite rd64_b_put64].
Qed.

Section round_trip.
Context {M : Type} `{SpaceLaws M} (img : Image) (Hi : image_ok img).

(** One segment of the table. *)
Lemma seg_loop_load n file a c fl off va fs ms al i loaded mf (m : M) :
  file = a ++ phdr 1 fl off va fs ms al ++ c ->
  zlen a = 64 + i * 56 -> bytes_ok file -> zlen file < 2 ^ 64 -> 0 <= fl < 2 ^ 32 -> sp_ok m ->
  0 <= off -> 0 <= fs -> off + fs <= zlen file -> fs <= ms -> 0 <= va -> va + ms + 4096 <= 2 ^ 39 -> (pages va ms <= room m)%nat ->
  exists m', sp_ok m' /\ (room m <= pages va ms + room m')%nat
    /\ (forall x, ld8 m' x = if (va <=? x) && (x <? va + fs) then Some (at_ file (off + (x - va)))
                            else if (first_page va <=? x) && (x <? end_page va ms) then Some 0 else ld8 m x)
    /\ seg_loop (S n) file 64 56 i loaded mf m = seg_loop n file 64 56 (i + 1) (loaded + 1) mf m'.
Proof.
  intros Efile Ea Hb Hsz Hfl Hok Ho Hf Hin Hfm Hva Hend Hroom.
  destruct (load_segment_ok file fl off va fs ms m) as (m' & E & Hok' & Hr & Hm'); [done..|].
  exists m'. split; [done|]. split; [done|]. split; [done|]. cbn [seg_loop].
  destruct (phdr_fields a c (64 + i * 56) 1 fl off va fs ms al Ea) as (E1 & E2 & E3 & E4 & E5 & E6); [lia|done|repeat constructor; lia|].
  rewrite <- Efile in E1, E2, E3, E4, E5, E6. rewrite E1, E2, E3, E4, E5, E6. cbn [obind].
  change (1 =? PT_NOTE) with false. change (negb (1 =? PT_LOAD)) with false. cbv iota. by rewrite E.
Qed.
Lemma seg_loop_note n file a c fl off va fs ms al i loaded mf mf' (m : M) :
  file = a ++ phdr 4 fl off va fs ms al ++ c ->
  zlen a = 64 + i * 56 -> 0 <= fl < 2 ^ 32 -> Forall (fun v => 0 <= v < 2 ^ 64) [off; va; fs; ms] -> read_sav_note file off fs mf = Ret mf' ->
  seg_loop (S n) file 64 56 i loaded mf m = seg_loop n file 64 56 (i + 1) loaded mf' m.
Proof.
  intros Efile Ea Hfl Hv Hn. cbn [seg_loop].
  destruct (phdr_fields a c (64 + i * 56) 4 fl off va fs ms al Ea) as (E1 & _ & E3 & _ & E5 & _); [lia|done|done|].
  rewrite <- Efile in E1, E3, E5. rewrite E1, E3, E5. cbn [obind]. change (4 =? PT_NOTE) with true. cbv iota. by rewrite Hn.
Qed.

(** The checks of the file's own header. *)
Lemma elf_load_header entry sh_off rest (m : M) r m' :
  let file := ehdr entry sh_off ++ rest in
  168 <= zlen rest -> 0 <= entry < 2 ^ 64 ->
  seg_loop 3 file 64 56 0 0 no_manifest m = Ret (Some (2, r), m') -> elf_load file m = Ret (Some (entry, r), m').
Proof.
  intros file Hl He Hs. assert (zlen (ehdr entry sh_off) = 64) as Eh by reflexivity.
  unfold elf_load, file. rewrite zlen_app, Eh, (proj2 (Z.ltb_ge (64 + zlen rest) 64)) by lia.
  rewrite !ld_app_l, !ld16le_front, !ld64le_front by lia.
  change (ld (ehdr entry sh_off) 0) with (Ret 0x7f). change (ld (ehdr entry sh_off) 1) with (Ret 69).
  change (ld (ehdr entry sh_off) 2) with (Ret 76). change (ld (ehdr entry sh_off) 3) with (Ret 70).
  change (ld (ehdr entry sh_off) 4) with (Ret 2). change (ld (ehdr entry sh_off) 5) with (Ret 1).
  change (ld16le (ehdr entry sh_off) 18) with (Ret 183). change (ld64le (ehdr entry sh_off) 32) with (Ret 64).
  change (ld16le (ehdr entry sh_off) 54) with (Ret 56). change (ld16le (ehdr entry sh_off) 56) with (Ret 3). cbn [obind].
  change (negb ((127 =? 0x7f) && (69 =? 69) && (76 =? 76) && (70 =? 70))) with false. cbn [Z.eqb negb orb]. cbv iota.
  change (u64 (64 + 3 * 56)) with 232. rewrite (proj2 (Z.ltb_ge (64 + zlen rest) 232)) by lia. change (Z.to_nat 3) with 3%nat.
  fold file. rewrite Hs. cbn [obind]. change (2 =? 0) with false. cbv iota.
  assert (ld64le (ehdr entry sh_off) 24 = Ret entry) as ->; [|done].
  trans (Ret (rd64 (b_put64 entry) 0)); [reflexivity|by rewrite rd64_b_put64].
Qed.

(** The kernel runs what the compiler wrote.  The file [write_elf] writes
    for any program that fits is accepted by [elf_load] wherever there is room
    for its pages: the program finds its code and data at the address it was
    compiled for and its globals zero, nothing outside the pages of the two
    segments has changed, it starts at its entry point, and the manifest the
    kernel enforces allows exactly the system calls the compiler listed. *)
Theorem sav_elf_round_trip (m : M) :
  sp_ok m -> (pages BASE_VA (seg1_size img) + pages (data_vaddr img) (bss_size img) <= room m)%nat ->
  exists file m', write_elf img = Some file
    /\ elf_load file m = Ret (Some (i_entry img, meant img), m')
    /\ (forall k, 0 <= k < zlen (text img) -> ld8 m' (text_vaddr img + k) = Some (at_ (text img) k))
    /\ (forall a, data_vaddr img <= a < data_vaddr img + bss_size img -> ld8 m' a = Some 0)
    /\ (forall a, ~ (BASE_VA <= a < end_page BASE_VA (seg1_size img)) ->
                  ~ (first_page (data_vaddr img) <= a < end_page (data_vaddr img) (bss_size img)) -> ld8 m' a = ld8 m a)
    /\ (forall nr, sav_allows (meant img) nr = true <-> u32 nr ∈ syscalls img).
Proof.
  intros Hok Hroom. destruct (layout_bounds img Hi) as (Ht & Hn & Hb & Hd & He). unfold text_end in *.
  destruct (write_elf_shape img Hi) as (sh_off & tail & Ew & Hsh & Htl & Htb).
  pose proof (loaded_len img Hi sh_off) as Ell. pose proof (loaded_bytes img Hi sh_off) as Elb.
  pose proof (zlen_nonneg tail). pose proof (zlen_nonneg (text img)).
  pose proof Hi as [_ Hts _ Hen Hbss Hdata Hapart _ _ _ _].
  set (file := loaded_part img sh_off ++ tail) in *.
  assert (zlen file = seg1_size img + zlen tail) as Ef by (unfold file; rewrite zlen_app; lia).
  assert (bytes_ok file) as Efb by (apply Forall_app; by split).
  set (body := zeros (text_off img - 232) ++ text img ++ zeros (note_off img - text_end img) ++ build_note img ++ tail).
  set (ph1 := phdr 1 5 0 BASE_VA (seg1_size img) (seg1_size img) 0x1000).
  set (ph2 := phdr 1 6 (data_off img) (data_vaddr img) 0 (bss_size img) 0x1000).
  set (ph3 := phdr 4 4 (note_off img) (BASE_VA + note_off img) (zlen (build_note img)) (zlen (build_note img)) 4).
  assert (file = ehdr (i_entry img) sh_off ++ ph1 ++ ph2 ++ ph3 ++ body) as E1.
  { unfold file, loaded_part, headers. rewrite <- !app_assoc. reflexivity. }
  assert (file = (ehdr (i_entry img) sh_off ++ ph1) ++ ph2 ++ ph3 ++ body) as E2 by (by rewrite E1, <- app_assoc).
  assert (file = (ehdr (i_entry img) sh_off ++ ph1 ++ ph2) ++ ph3 ++ body) as E3 by (by rewrite E1, <- !app_assoc).
  assert (BASE_VA = 0x400000) as EB by reflexivity. assert (first_page BASE_VA = BASE_VA) as EF by reflexivity.
  assert (text_vaddr img = BASE_VA + text_off img) as Etv by (unfold text_off; lia).
  assert (BASE_VA + seg1_size img <= end_page BASE_VA (seg1_size img) < BASE_VA + seg1_size img + 4096) as Hend1 by (unfold end_page; zdm).
  assert (first_page (data_vaddr img) <= data_vaddr img) as Hfp by (unfold first_page; zdm).
  assert (data_vaddr img + bss_size img <= end_page (data_vaddr img) (bss_size img)) as Hend2 by (unfold end_page; zdm).
  assert (end_page BASE_VA (seg1_size img) <= first_page (data_vaddr img)) as Hap by (unfold seg1_size in *; lia).
  assert (232 <= seg1_size img < 2 ^ 38) as Hs1 by (unfold seg1_size; lia).
  destruct (seg_loop_load 2 file (ehdr (i_entry img) sh_off) (ph2 ++ ph3 ++ body) 5 0 BASE_VA (seg1_size img) (seg1_size img) 0x1000
              0 0 no_manifest m E1) as (m1 & Hok1 & Hr1 & Hm1 & L1); [done|done|lia|lia|done|lia|lia|lia|lia|lia|lia|lia|].
  destruct (seg_loop_load 1 file (ehdr (i_entry img) sh_off ++ ph1) (ph3 ++ body) 6 (data_off img) (data_vaddr img) 0 (bss_size img) 0x1000
              (0 + 1) (0 + 1) no_manifest m1 E2) as (m2 & Hok2 & Hr2 & Hm2 & L2); [done|done|lia|lia|done|lia|lia|lia|lia|lia|lia|lia|].
  assert (read_sav_note file (note_off img) (zlen (build_note img)) no_manifest = Ret (meant img)) as Hnote.
  { set (pre := headers img sh_off ++ zeros (text_off img - 232) ++ text img ++ zeros (note_off img - text_end img)).
    assert (file = pre ++ build_note img ++ tail) as -> by (unfold file, loaded_part, pre; by rewrite <- !app_assoc).
    assert (zlen pre = note_off img) as <-.
    { unfold pre. rewrite !zlen_app, !zlen_zeros by (unfold text_end; lia). change (zlen (headers img sh_off)) with 232. unfold text_end. lia. }
    apply read_note_ok; [done|]. unfold pre. rewrite !zlen_app, !zlen_zeros by (unfold text_end; lia).
    change (zlen (headers img sh_off)) with 232. unfold text_end. lia. }
  pose proof (seg_loop_note 0 file (ehdr (i_entry img) sh_off ++ ph1 ++ ph2) body 4 (note_off img) (BASE_VA + note_off img)
    (zlen (build_note img)) (zlen (build_note img)) 4 (0 + 1 + 1) (0 + 1 + 1) no_manifest (meant img) m2 E3) as L3.
  exists file, m2. split; [done|]. split; [|split; [|split; [|split]]].
  - rewrite E1. apply elf_load_header; [rewrite !zlen_app; change (zlen ph1) with 56; change (zlen ph2) with 56; change (zlen ph3) with 56;
      pose proof (zlen_nonneg body); lia|done|].
    rewrite <- E1, L1, L2, L3; [done|done|lia|repeat constructor; unfold seg1_size in *; lia|done].
  - intros k Hk. rewrite Hm2, Hm1. unfold seg1_size in *. zsplit; try lia. f_equal.
    set (pre := headers img sh_off ++ zeros (text_off img - 232)).
    assert (file = pre ++ text img ++ zeros (note_off img - text_end img) ++ build_note img ++ tail) as ->
      by (unfold file, loaded_part, pre; by rewrite <- !app_assoc).
    assert (zlen pre = text_off img) as Ep by (unfold pre; rewrite zlen_app, zlen_zeros by lia; change (zlen (headers img sh_off)) with 232; lia).
    rewrite at_app_r by lia. rewrite at_app_l by lia. f_equal. lia.
  - intros a Ha. rewrite Hm2. zsplit; done || lia.
  - intros a Ha1 Ha2. rewrite Hm2, Hm1. rewrite EF. zsplit; done || lia.
  - intros nr. unfold sav_allows. cbn [meant present calls negb orb]. apply elem_existsb.
Qed.
End round_trip.

(** ** A space to load into *)
Record area := Area { ar_at : Z -> option Z; ar_left : nat }.
#[global] Instance area_space : Space area := {
  place va _ m :=
    match ar_left m with
    | O => (false, m)
    | S k => (true, Area (fun a => if a / 4096 =? va / 4096 then Some 0 else ar_at m a) k)
    end;
  st8 m a v :=
    match ar_at m a with
    | Some _ => Some (Area (fun b => if b =? a then Some v else ar_at m b) (ar_left m))
    | None => None
    end;
  ld8 m a := ar_at m a
}.
#[global] Instance area_laws : SpaceLaws area.
Proof.
  refine {| sp_ok _ := True; room m := ar_left m |}.
  - intros va x m _ _ _ Hr. cbn. destruct (ar_left m) as [|k] eqn:E; [lia|]. eexists. split; [done|]. split; [done|]. split; [cbn; lia|done].
  - intros m a v _ _ _ [w Hw]. cbn in *. rewrite Hw. eexists. done.
Defined.

Definition ex_image : Image :=
  Img [0x20; 0x00; 0x80; 0xd2; 0xc0; 0x03; 0x5f; 0xd6] 8 100 0x401000 0x401000 0x10000000 [64; 93] [str "console"; str "clock"].
Lemma ex_image_ok : image_ok ex_image.
Proof.
  assert (forall a b c, (a <=? b) && (b <? c) = true -> a <= b < c) as Hr by (intros a b c; rewrite andb_true_iff; lia).
  split; try (apply Hr; vm_compute; reflexivity).
  - apply (bool_decide_unpack _). vm_compute. exact I.
  - apply Z.ltb_lt. vm_compute. reflexivity.
  - apply Z.leb_le. vm_compute. reflexivity.
  - repeat constructor; lia.
  - apply Z.leb_le. vm_compute. reflexivity.
  - apply (bool_decide_unpack _). vm_compute. exact I.
  - apply Z.ltb_lt. vm_compute. reflexivity.
Qed.

Lemma sav_elf_round_trip_witness :
  let m := Area (fun _ => None) 8 in
  exists file m', write_elf ex_image = Some file
    /\ elf_load file m = Ret (Some (0x401000, Manifest true [64; 93] (str "console clock")), m')
    /\ ld8 m' 0x401006 = Some 0x5f /\ ld8 m' 0x10000000 = Some 0.
Proof.
  intros m. destruct (sav_elf_round_trip (M := area) ex_image ex_image_ok m) as (file & m' & E1 & E2 & E3 & E4 & _).
  - exact Logic.I.
  - apply (bool_decide_unpack _). vm_compute. exact Logic.I.
  - exists file, m'. split; [exact E1|]. split; [exact E2|]. split.
    + apply (E3 6). vm_compute. split; discriminate || reflexivity.
    + apply E4. vm_compute. split; discriminate || reflexivity.
Defined.
