(* ===== verification/Gzip.v ===== *)
(** * gzip: vgzip/vgzip.c

    [Crc] is the checksum, [Inflate] the decoder of RFC 1951 streams,
    [Deflate] the encoder (hash chains and the fixed codes), [Container] the
    gzip file around them, and [Tool] the program: its options, the names it
    makes and what it does to the files.  Every array of the C code is an
    object of its declared size: an index outside it, or a cell nobody has
    written, is a [Fault].  GzipRun has the theorems. *)
From S2P Require Import Prelude Bytes.

(** Storing into an object of known size. *)
Definition st (b : list Z) (i v : Z) : outcome (list Z) :=
  if (0 <=? i) && (i <? zlen b) then Ret (<[Z.to_nat i := v]> b) else Fault.

(** Reading a cell of an object that starts uninitialised. *)
Definition cell (g : gmap Z Z) (i : Z) : outcome Z :=
  match g !! i with Some v => Ret v | None => Fault end.

(** ** The checksum *)
Module Crc.

Definition crc_step (c : Z) : Z :=
  if Z.eqb (Z.land c 1) 1 then Z.lxor 0xedb88320 (Z.shiftr c 1) else Z.shiftr c 1.

Definition crc_entry (i : Z) : Z := Nat.iter 8 crc_step i.

Definition crc_init : list Z := (fun i => crc_entry (Z.of_nat i)) <$> seq 0 256.

(** [~x] on 32 bits. *)
Definition not32 (x : Z) : Z := Z.lxor x 0xffffffff.

Definition crc32 (crc : Z) (p : list Z) : Z :=
  not32 (fold_left (fun crc b =>
    Z.lxor (at_ crc_init (Z.land (Z.lxor crc b) 0xff)) (Z.shiftr crc 8)) p (not32 crc)).

End Crc.

(** ** The growable output buffer *)
Definition bput (b : list Z) (c : Z) : list Z := b ++ [u8 c].
Definition bputmem (b p : list Z) : list Z := b ++ p.

(** ** Decoding *)
Module Inflate.

(** [struct bitr]; [n] is the length of [br_d]. *)
Record bitr := { br_d : list Z; br_pos : Z; br_buf : Z; br_cnt : Z }.

Definition bitr_init (data : list Z) : bitr :=
  {| br_d := data; br_pos := 0; br_buf := 0; br_cnt := 0 |}.

(** The second half of getbit: the lowest bit of the buffer. *)
Definition take_bit (r : bitr) : Z * bitr :=
  (Z.land (br_buf r) 1,
   {| br_d := br_d r; br_pos := br_pos r; br_buf := Z.shiftr (br_buf r) 1; br_cnt := br_cnt r - 1 |}).

Definition getbit (r : bitr) : outcome (Z * bitr) :=
  if Z.eqb (br_cnt r) 0 then
    if br_pos r >=? zlen (br_d r) then Ret (-1, r)
    else
      let! c := ld (br_d r) (br_pos r) in
      Ret (take_bit {| br_d := br_d r; br_pos := br_pos r + 1; br_buf := c; br_cnt := 8 |})
  else Ret (take_bit r).

Fixpoint getbits_loop (k : nat) (r : bitr) (i v : Z) : outcome (Z * bitr) :=
  match k with
  | O => Ret (v, r)
  | S k =>
      let! (b, r) := getbit r in
      if b <? 0 then Ret (-1, r)
      else getbits_loop k r (i + 1) (Z.lor v (Z.shiftl b i))
  end.
Definition getbits (r : bitr) (n : Z) : outcome (Z * bitr) := getbits_loop (Z.to_nat n) r 0 0.

(** [struct huff]: the number of codes of each length, and the symbols in the
    order of their codes. *)
Record huff := { h_count : list Z; h_sym : gmap Z Z }.

Fixpoint count_loop (k : nat) (lens : list Z) (i : Z) (count : list Z) : outcome (list Z) :=
  match k with
  | O => Ret count
  | S k =>
      let! l := ld lens i in
      let! c := ld count l in
      let! count := st count l (u16 (c + 1)) in
      count_loop k lens (i + 1) count
  end.

Fixpoint offs_loop (k : nat) (count : list Z) (i : Z) (offs : gmap Z Z) : outcome (gmap Z Z) :=
  match k with
  | O => Ret offs
  | S k =>
      let! o := cell offs i in
      let! c := ld count i in
      offs_loop k count (i + 1) (<[i + 1 := u16 (o + c)]> offs)
  end.

Fixpoint sym_loop (k : nat) (lens : list Z) (i : Z) (offs sym : gmap Z Z) : outcome (gmap Z Z) :=
  match k with
  | O => Ret sym
  | S k =>
      let! l := ld lens i in
      if Z.eqb l 0 then sym_loop k lens (i + 1) offs sym
      else
        let! o := cell offs l in
        if o <? 288 then
          sym_loop k lens (i + 1) (<[l := u16 (o + 1)]> offs) (<[o := i]> sym)
        else Fault
  end.

Definition huff_build (lens : list Z) (n : Z) : outcome huff :=
  let! count := count_loop (Z.to_nat n) lens 0 (zeros 16) in
  let! count := st count 0 0 in
  let! offs := offs_loop 14 count 1 {[1 := 0]} in
  let! sym := sym_loop (Z.to_nat n) lens 0 offs ∅ in
  Ret {| h_count := count; h_sym := sym |}.

Fixpoint decode_loop (k : nat) (r : bitr) (h : huff) (len code first index : Z)
    : outcome (Z * bitr) :=
  match k with
  | O => Ret (-1, r)
  | S k =>
      let! (b, r) := getbit r in
      if b <? 0 then Ret (-1, r)
      else
        let code := Z.lor code b in
        let! count := ld (h_count h) len in
        if code - first <? count then
          let! s := cell (h_sym h) (index + (code - first)) in Ret (s, r)
        else
          decode_loop k r h (len + 1) (Z.shiftl code 1) (Z.shiftl (first + count) 1) (index + count)
  end.
Definition huff_decode (r : bitr) (h : huff) : outcome (Z * bitr) := decode_loop 15 r h 1 0 0 0.

Definition len_base : list Z :=
  [3;4;5;6;7;8;9;10;11;13;15;17;19;23;27;31;35;43;51;59;67;83;99;115;131;163;195;227;258].
Definition len_extra : list Z :=
  [0;0;0;0;0;0;0;0;1;1;1;1;2;2;2;2;3;3;3;3;4;4;4;4;5;5;5;5;0].
Definition dist_base : list Z :=
  [1;2;3;4;5;7;9;13;17;25;33;49;65;97;129;193;257;385;513;769;1025;1537;2049;3073;4097;6145;8193;
   12289;16385;24577].
Definition dist_extra : list Z :=
  [0;0;0;0;1;1;2;2;3;3;4;4;5;5;6;6;7;7;8;8;9;9;10;10;11;11;12;12;13;13].

(** [for (int i = 0; i < len; i++) bput(out, out->d[out->n - dist]);] *)
Fixpoint copy_back (k : nat) (dist : Z) (out : list Z) : outcome (list Z) :=
  match k with
  | O => Ret out
  | S k => let! c := ld out (zlen out - dist) in copy_back k dist (bput out c)
  end.

(** The body of the loop of inflate_block: go on, or the value returned. *)
Definition block_step (r : bitr) (lh dh : huff) (out : list Z) : outcome (option Z * bitr * list Z) :=
  let! (sym, r) := huff_decode r lh in
  if sym <? 0 then Ret (Some (-1), r, out)
  else if Z.eqb sym 256 then Ret (Some 0, r, out)
  else if sym <? 256 then Ret (None, r, bput out sym)
  else
    let sym := sym - 257 in
    if sym >=? 29 then Ret (Some (-1), r, out)
    else
      let! lb := ld len_base sym in
      let! le := ld len_extra sym in
      let! (lx, r) := getbits r le in
      let len := lb + lx in
      let! (dsym, r) := huff_decode r dh in
      if (dsym <? 0) || (dsym >=? 30) then Ret (Some (-1), r, out)
      else
        let! db := ld dist_base dsym in
        let! de := ld dist_extra dsym in
        let! (dx, r) := getbits r de in
        let dist := db + dx in
        if u64 dist >? zlen out then Ret (Some (-1), r, out)
        else let! out := copy_back (Z.to_nat len) dist out in Ret (None, r, out).

Fixpoint inflate_block (fuel : nat) (r : bitr) (lh dh : huff) (out : list Z)
    : outcome (Z * bitr * list Z) :=
  match fuel with
  | O => Diverge
  | S fuel =>
      let! (res, r, out) := block_step r lh dh out in
      match res with
      | Some rc => Ret (rc, r, out)
      | None => inflate_block fuel r lh dh out
      end
  end.

Definition inflate_stored (r : bitr) (out : list Z) : outcome (Z * bitr * list Z) :=
  let r := {| br_d := br_d r; br_pos := br_pos r; br_buf := br_buf r; br_cnt := 0 |} in
  if br_pos r + 4 >? zlen (br_d r) then Ret (-1, r, out)
  else
    let! b0 := ld (br_d r) (br_pos r) in
    let! b1 := ld (br_d r) (br_pos r + 1) in
    let len := Z.lor b0 (Z.shiftl b1 8) in
    let pos := br_pos r + 4 in
    if pos + len >? zlen (br_d r) then
      Ret (-1, {| br_d := br_d r; br_pos := pos; br_buf := br_buf r; br_cnt := 0 |}, out)
    else
      Ret (0, {| br_d := br_d r; br_pos := pos + len; br_buf := br_buf r; br_cnt := 0 |},
           bputmem out (slice (br_d r) pos len)).

Definition fixed_ll : list Z :=
  replicate 144 8 ++ replicate 112 9 ++ replicate 24 7 ++ replicate 8 8.
Definition fixed_dl : list Z := replicate 30 5.

Definition inflate_fixed (fuel : nat) (r : bitr) (out : list Z) : outcome (Z * bitr * list Z) :=
  let! lh := huff_build fixed_ll 288 in
  let! dh := huff_build fixed_dl 30 in
  inflate_block fuel r lh dh out.

Definition ord : list Z := [16;17;18;0;8;7;9;6;10;5;11;4;12;3;13;2;14;1;15].

Fixpoint cl_loop (k : nat) (i : Z) (r : bitr) (cl : list Z) : outcome (bitr * list Z) :=
  match k with
  | O => Ret (r, cl)
  | S k =>
      let! o := ld ord i in
      let! (v, r) := getbits r 3 in
      let! cl := st cl o (u8 v) in
      cl_loop k (i + 1) r cl
  end.

(** [while (rep-- && i < total) lens[i++] = v;] *)
Fixpoint rep_loop (rep : nat) (i total v : Z) (lens : list Z) : outcome (Z * list Z) :=
  match rep with
  | O => Ret (i, lens)
  | S rep =>
      if i <? total then
        let! lens := st lens i v in rep_loop rep (i + 1) total v lens
      else Ret (i, lens)
  end.

(** The lengths of both alphabets; [None] when the stream is refused. *)
Fixpoint lens_loop (fuel : nat) (i total : Z) (ch : huff) (r : bitr) (lens : list Z)
    : outcome (option (bitr * list Z)) :=
  match fuel with
  | O => Diverge
  | S fuel =>
      if i <? total then
        let! (s, r) := huff_decode r ch in
        if s <? 0 then Ret None
        else if s <? 16 then
          let! lens := st lens i (u8 s) in lens_loop fuel (i + 1) total ch r lens
        else if Z.eqb s 16 then
          let! (x, r) := getbits r 2 in
          let rep := x + 3 in
          if Z.eqb i 0 then Ret None
          else
            let! prev := ld lens (i - 1) in
            let! (i, lens) := rep_loop (Z.to_nat rep) i total prev lens in
            lens_loop fuel i total ch r lens
        else if Z.eqb s 17 then
          let! (x, r) := getbits r 3 in
          let! (i, lens) := rep_loop (Z.to_nat (x + 3)) i total 0 lens in
          lens_loop fuel i total ch r lens
        else
          let! (x, r) := getbits r 7 in
          let! (i, lens) := rep_loop (Z.to_nat (x + 11)) i total 0 lens in
          lens_loop fuel i total ch r lens
      else Ret (Some (r, lens))
  end.

Definition inflate_dynamic (fuel : nat) (r : bitr) (out : list Z) : outcome (Z * bitr * list Z) :=
  let! (a, r) := getbits r 5 in
  let hlit := a + 257 in
  let! (b, r) := getbits r 5 in
  let hdist := b + 1 in
  let! (c, r) := getbits r 4 in
  let hclen := c + 4 in
  let! (r, cl) := cl_loop (Z.to_nat hclen) 0 r (zeros 19) in
  let! ch := huff_build cl 19 in
  let! res := lens_loop fuel 0 (hlit + hdist) ch r (zeros (288 + 30)) in
  match res with
  | None => Ret (-1, r, out)
  | Some (r, lens) =>
      let! lh := huff_build lens hlit in
      let! dh := huff_build (drop (Z.to_nat hlit) lens) hdist in
      inflate_block fuel r lh dh out
  end.

(** One block: [Some rc] when inflate returns. *)
Definition inflate_step (fuel : nat) (r : bitr) (out : list Z) : outcome (option Z * bitr * list Z) :=
  let! (final, r) := getbit r in
  if final <? 0 then Ret (Some (-1), r, out)
  else
    let! (type, r) := getbits r 2 in
    if type <? 0 then Ret (Some (-1), r, out)
    else if type >? 2 then Ret (Some (-1), r, out)
    else
      let! (rc, r, out) :=
        if Z.eqb type 0 then inflate_stored r out
        else if Z.eqb type 1 then inflate_fixed fuel r out
        else inflate_dynamic fuel r out in
      if rc <? 0 then Ret (Some (-1), r, out)
      else if Z.eqb final 0 then Ret (None, r, out) else Ret (Some 0, r, out).

Fixpoint inflate_loop (fuel : nat) (fuel' : nat) (r : bitr) (out : list Z) : outcome (Z * list Z) :=
  match fuel' with
  | O => Diverge
  | S fuel' =>
      let! (res, r, out) := inflate_step fuel r out in
      match res with
      | Some rc => Ret (rc, out)
      | None => inflate_loop fuel fuel' r out
      end
  end.

Definition inflate (fuel : nat) (data out : list Z) : outcome (Z * list Z) :=
  inflate_loop fuel fuel (bitr_init data) out.

End Inflate.

(** ** Encoding *)
Module Deflate.

(** [struct bitw], with the buffer it appends to. *)
Record bitw := { bw_out : list Z; bw_buf : Z; bw_cnt : Z }.

Definition putbit (w : bitw) (bit : Z) : bitw :=
  let buf := Z.lor (bw_buf w) (Z.shiftl (Z.land bit 1) (bw_cnt w)) in
  if Z.eqb (bw_cnt w + 1) 8 then {| bw_out := bput (bw_out w) buf; bw_buf := 0; bw_cnt := 0 |}
  else {| bw_out := bw_out w; bw_buf := buf; bw_cnt := bw_cnt w + 1 |}.

(** [for (int i = 0; i < n; i++) putbit(w, (val >> i) & 1);] *)
Definition putbits (w : bitw) (val n : Z) : bitw :=
  fold_left (fun w i => putbit w (Z.land (Z.shiftr val (Z.of_nat i)) 1)) (seq 0 (Z.to_nat n)) w.

(** [for (int i = n - 1; i >= 0; i--) putbit(w, (val >> i) & 1);] *)
Definition putbits_rev (w : bitw) (val n : Z) : bitw :=
  fold_left (fun w i => putbit w (Z.land (Z.shiftr val (Z.of_nat i)) 1)) (rev (seq 0 (Z.to_nat n))) w.

Definition flush_bits (w : bitw) : bitw :=
  if Z.eqb (bw_cnt w) 0 then w
  else {| bw_out := bput (bw_out w) (bw_buf w); bw_buf := 0; bw_cnt := 0 |}.

Definition emit_lit (w : bitw) (lit : Z) : bitw :=
  if lit <? 144 then putbits_rev w (0x30 + lit) 8 else putbits_rev w (0x190 + (lit - 144)) 9.

(** The search from the top of a table: the symbol, the extra bits, their
    number. *)
Fixpoint top_sym (s : nat) (base extra : list Z) (v : Z) : option (Z * Z * Z) :=
  match s with
  | O => None
  | S s =>
      if v >=? nth s base 0 then Some (Z.of_nat s, v - nth s base 0, nth s extra 0)
      else top_sym s base extra v
  end.

Definition len_sym (len : Z) : Z * Z * Z :=
  match top_sym 29 Inflate.len_base Inflate.len_extra len with
  | Some (s, x, n) => (257 + s, x, n)
  | None => (257, 0, 0)
  end.

Definition dist_sym (dist : Z) : Z * Z * Z :=
  match top_sym 30 Inflate.dist_base Inflate.dist_extra dist with
  | Some r => r
  | None => (0, 0, 0)
  end.

Definition emit_len (w : bitw) (len : Z) : bitw :=
  let '(s, extra, nextra) := len_sym len in
  let w := if s <=? 279 then putbits_rev w (s - 256) 7 else putbits_rev w (0xc0 + (s - 280)) 8 in
  putbits w extra nextra.

Definition emit_dist (w : bitw) (dist : Z) : bitw :=
  let '(s, extra, nextra) := dist_sym dist in
  putbits (putbits_rev w s 5) extra nextra.

Definition HASHBITS : Z := 15.
Definition HASHSIZE : Z := Z.shiftl 1 HASHBITS.
Definition WSIZE : Z := 32768.

(** The two arrays of the hash chains: head is filled with -1, prev is not
    initialised. *)
Record chains := { c_head : gmap Z Z; c_prev : gmap Z Z }.

Definition head_at (c : chains) (h : Z) : Z := default (-1) (c_head c !! h).

Definition hash3 (inp : list Z) (i : Z) : outcome Z :=
  let! a := ld inp i in
  let! b := ld inp (i + 1) in
  let! c := ld inp (i + 2) in
  Ret (Z.land (Z.lxor (Z.lxor (Z.shiftl a 10) (Z.shiftl b 5)) c) (HASHSIZE - 1)).

(** [prev[p] = head[h]; head[h] = p;] *)
Definition insert_pos (c : chains) (h p : Z) : chains :=
  {| c_head := <[h := i32 p]> (c_head c); c_prev := <[p := head_at c h]> (c_prev c) |}.

(** [while (l < 258 && i + l < n && in[j + l] == in[i + l]) l++;] *)
Fixpoint match_len (k : nat) (inp : list Z) (i j l : Z) : outcome Z :=
  match k with
  | O => Ret l
  | S k =>
      if i + l <? zlen inp then
        let! a := ld inp (j + l) in
        let! b := ld inp (i + l) in
        if Z.eqb a b then match_len k inp i j (l + 1) else Ret l
      else Ret l
  end.

(** The walk along a chain, at most 128 steps: the best length and distance. *)
Fixpoint chain_loop (k : nat) (inp : list Z) (prev : gmap Z Z) (i j best_len best_dist : Z)
    : outcome (Z * Z) :=
  match k with
  | O => Ret (best_len, best_dist)
  | S k =>
      if j <? 0 then Ret (best_len, best_dist)
      else if u64 (i - j) <=? WSIZE then
        let! l := match_len 258 inp i j 0 in
        if l >? best_len then
          if l >=? 258 then Ret (l, i32 (i - j))
          else let! j' := cell prev j in chain_loop k inp prev i j' l (i32 (i - j))
        else let! j' := cell prev j in chain_loop k inp prev i j' best_len best_dist
      else let! j' := cell prev j in chain_loop k inp prev i j' best_len best_dist
  end.

(** The search at position [i], which also enters it in its chain. *)
Definition find_match (inp : list Z) (i : Z) (c : chains) : outcome (Z * Z * chains) :=
  if i + 3 <=? zlen inp then
    let! h := hash3 inp i in
    let! (best_len, best_dist) := chain_loop 128 inp (c_prev c) i (head_at c h) 0 0 in
    Ret (best_len, best_dist, insert_pos c h i)
  else Ret (0, 0, c).

(** The positions a match covers: [for (int k = 1; k < best_len; k++)]. *)
Fixpoint cover (k : nat) (inp : list Z) (p : Z) (c : chains) : outcome chains :=
  match k with
  | O => Ret c
  | S k =>
      if p + 3 <=? zlen inp then
        let! h := hash3 inp p in cover k inp (p + 1) (insert_pos c h p)
      else cover k inp (p + 1) c
  end.

Fixpoint deflate_loop (fuel : nat) (inp : list Z) (i : Z) (c : chains) (w : bitw) : outcome bitw :=
  match fuel with
  | O => Diverge
  | S fuel =>
      if i <? zlen inp then
        let! (best_len, best_dist, c) := find_match inp i c in
        if best_len >=? 3 then
          let w := emit_dist (emit_len w best_len) best_dist in
          let! c := cover (Z.to_nat (best_len - 1)) inp (i + 1) c in
          deflate_loop fuel inp (i + best_len) c w
        else
          let! b := ld inp i in
          deflate_loop fuel inp (i + 1) c (emit_lit w b)
      else Ret w
  end.

Definition deflate (fuel : nat) (inp out : list Z) : outcome (list Z) :=
  let w := putbits (putbit {| bw_out := out; bw_buf := 0; bw_cnt := 0 |} 1) 1 2 in
  let! w := deflate_loop fuel inp 0 {| c_head := ∅; c_prev := ∅ |} w in
  Ret (bw_out (flush_bits (putbits_rev w 0 7))).

End Deflate.

(** ** The container *)
Module Container.

Definition gz_compress (fuel : nat) (inp out : list Z) : outcome (list Z) :=
  let out := bputmem out [0x1f; 0x8b; 8; 0; 0; 0; 0; 0; 0; 3] in
  let! out := Deflate.deflate fuel inp out in
  let crc := Crc.crc32 0 inp in
  let n := zlen inp in
  Ret (bputmem out
    [u8 crc; u8 (Z.shiftr crc 8); u8 (Z.shiftr crc 16); u8 (Z.shiftr crc 24);
     u8 n; u8 (Z.shiftr n 8); u8 (Z.shiftr n 16); u8 (Z.shiftr n 24)]).

(** [while (p < n && in[p]) p++; p++;] *)
Fixpoint skip_name (k : nat) (inp : list Z) (p : Z) : outcome Z :=
  match k with
  | O => Diverge
  | S k =>
      if p <? zlen inp then
        let! c := ld inp p in
        if Z.eqb c 0 then Ret (p + 1) else skip_name k inp (p + 1)
      else Ret (p + 1)
  end.

(** The optional fields of the header: where the data starts, or [None]. *)
Definition gz_header (inp : list Z) : outcome (option Z) :=
  let n := zlen inp in
  if n <? 18 then Ret None
  else
    let! b0 := ld inp 0 in let! b1 := ld inp 1 in let! b2 := ld inp 2 in
    if negb (Z.eqb b0 0x1f && Z.eqb b1 0x8b && Z.eqb b2 8) then Ret None
    else
      let! flg := ld inp 3 in
      let p := 10 in
      let! x :=
        if Z.eqb (Z.land flg 4) 0 then Ret (Some p)
        else if p + 2 >? n then Ret None
        else
          let! x0 := ld inp p in let! x1 := ld inp (p + 1) in
          Ret (Some (p + (2 + Z.lor x0 (Z.shiftl x1 8)))) in
      match x with
      | None => Ret None
      | Some p =>
          let! p := if Z.eqb (Z.land flg 8) 0 then Ret p else skip_name (S (length inp)) inp p in
          let! p := if Z.eqb (Z.land flg 16) 0 then Ret p else skip_name (S (length inp)) inp p in
          let p := if Z.eqb (Z.land flg 2) 0 then p else p + 2 in
          if p >=? n then Ret None else Ret (Some p)
      end.

(** The return value and what was appended to the output. *)
Definition gz_decompress (fuel : nat) (inp out : list Z) : outcome (Z * list Z) :=
  let! p := gz_header inp in
  match p with
  | None => Ret (-1, out)
  | Some p =>
      let! (rc, out) := Inflate.inflate fuel (drop (Z.to_nat p) inp) out in
      if rc <? 0 then Ret (-1, out)
      else
        let crc := Crc.crc32 0 out in
        let! want := ld32le inp (zlen inp - 8) in
        if Z.eqb crc want then Ret (0, out) else Ret (-1, out)
  end.

End Container.

(** ** The program *)
Module Tool.

Record opts := { o_decompress : bool; o_tostdout : bool; o_keep : bool; o_files : list (list Z) }.

Definition set_decompress (o : opts) : opts :=
  {| o_decompress := true; o_tostdout := o_tostdout o; o_keep := o_keep o; o_files := o_files o |}.
Definition set_tostdout (o : opts) : opts :=
  {| o_decompress := o_decompress o; o_tostdout := true; o_keep := o_keep o; o_files := o_files o |}.
Definition set_keep (o : opts) : opts :=
  {| o_decompress := o_decompress o; o_tostdout := o_tostdout o; o_keep := true; o_files := o_files o |}.
(** [files[nf++] = argv[i];], where [files] has 256 entries. *)
Definition add_file (o : opts) (f : list Z) : outcome opts :=
  if zlen (o_files o) <? 256 then
    Ret {| o_decompress := o_decompress o; o_tostdout := o_tostdout o; o_keep := o_keep o;
           o_files := o_files o ++ [f] |}
  else Fault.

(** The part after the last slash. *)
Fixpoint base_name (s : list Z) : list Z :=
  match s with
  | [] => []
  | c :: s' => if existsb (Z.eqb 47) s then base_name s' else s
  end.

Definition initial (argv0 : list Z) : opts :=
  let me := base_name argv0 in
  {| o_decompress := bool_decide (me = str "gunzip") || bool_decide (me = str "zcat");
     o_tostdout := bool_decide (me = str "zcat"); o_keep := false; o_files := [] |}.

(** The letters of a combined option; [None]: an unknown one. *)
Fixpoint letters (fs : list Z) (o : opts) : option opts :=
  match fs with
  | [] => Some o
  | f :: fs =>
      if Z.eqb f 100 then letters fs (set_decompress o)
      else if Z.eqb f 99 then letters fs (set_tostdout o)
      else if Z.eqb f 107 then letters fs (set_keep o)
      else None
  end.

(** One argument.  After the combined options what starts with a dash has a
    second dash, or is the dash alone. *)
Definition parse_arg (a : list Z) (o : opts) : outcome (option opts) :=
  match a with
  | 45 :: c :: fs => if Z.eqb c 45 then Ret None else Ret (letters (c :: fs) o)
  | 45 :: [] => Ret (Some o)
  | _ => let! o := add_file o a in Ret (Some o)
  end.

Fixpoint parse_args (args : list (list Z)) (o : opts) : outcome (option opts) :=
  match args with
  | [] => Ret (Some o)
  | a :: args =>
      let! o := parse_arg a o in
      match o with Some o => parse_args args o | None => Ret None end
  end.

(** What snprintf leaves in [char outname[1024]]. *)
Definition snprintf1024 (s : list Z) : list Z := take 1023 s.

Definition out_name (decompress : bool) (f : list Z) : list Z :=
  if decompress then
    let l := zlen f in
    if (l >? 3) && bool_decide (slice f (l - 3) 3 = str ".gz") then snprintf1024 (take (Z.to_nat (l - 3)) f)
    else snprintf1024 (f ++ str ".out")
  else snprintf1024 (f ++ str ".gz").

(** The files, and what went to the standard output. *)
Record world := { w_fs : gmap (list Z) (list Z); w_stdout : list Z }.

Section tool.
(** Whether [fopen(name, "wb")] succeeds, and the fuel of the codecs. *)
Context (writable : list Z -> bool) (fuel : list Z -> nat).

(** [Some out], or [None] when the input is refused. *)
Definition convert (decompress : bool) (inp : list Z) : outcome (option (list Z)) :=
  if decompress then
    let! (rc, out) := Container.gz_decompress (fuel inp) inp [] in
    if rc <? 0 then Ret None else Ret (Some out)
  else let! out := Container.gz_compress (fuel inp) inp [] in Ret (Some out).

(** One file of the command line: its contribution to the exit status. *)
Definition one_file (o : opts) (f : list Z) (w : world) : outcome (Z * world) :=
  match w_fs w !! f with
  | None => Ret (1, w)
  | Some inp =>
      let! res := convert (o_decompress o) inp in
      match res with
      | None => Ret (1, w)
      | Some out =>
          if o_tostdout o then Ret (0, {| w_fs := w_fs w; w_stdout := w_stdout w ++ out |})
          else
            let outname := out_name (o_decompress o) f in
            if writable outname then
              let fs := <[outname := out]> (w_fs w) in
              Ret (0, {| w_fs := if o_keep o then fs else delete f fs; w_stdout := w_stdout w |})
            else Ret (1, w)
      end
  end.

Fixpoint all_files (o : opts) (fs : list (list Z)) (ret : Z) (w : world) : outcome (Z * world) :=
  match fs with
  | [] => Ret (ret, w)
  | f :: fs =>
      let! (r, w) := one_file o f w in
      all_files o fs (if Z.eqb r 0 then ret else 1) w
  end.

Definition main (argv0 : list Z) (args : list (list Z)) (stdin : list Z) (w : world)
    : outcome (Z * world) :=
  let! o := parse_args args (initial argv0) in
  match o with
  | None => Ret (1, w)
  | Some o =>
      match o_files o with
      | [] =>
          let! res := convert (o_decompress o) stdin in
          match res with
          | None => Ret (1, w)
          | Some out => Ret (0, {| w_fs := w_fs w; w_stdout := w_stdout w ++ out |})
          end
      | fs => all_files o fs 0 w
      end
  end.
End tool.
End Tool.
