(* ===== verification/GzipRun.v ===== *)
(** * What gzip keeps: theorems on vgzip/vgzip.c

    Both sides are related to streams of bits: [rbits] is what a reader has
    left, [wbits] what a writer has put.  [dec] decodes a symbol from a stream
    without the reader around it, so that the fixed codes are checked by
    computation, once for every symbol.  Then the search of the encoder, the
    round trips, and what the decoder does with input nobody encoded. *)
From S2P Require Import Prelude Bytes Gpt Gzip.
Import Gzip.Inflate Deflate Container Tool.

(** ** Streams of bits *)
Definition val_bits (n : nat) (v : Z) : list bool := (fun i => Z.testbit v (Z.of_nat i)) <$> seq 0 n.
Definition bits_of (l : list Z) : list bool := l ≫= val_bits 8.

Lemma val_bits_S n v : val_bits (S n) v = Z.testbit v 0 :: val_bits n (Z.shiftr v 1).
Proof.
  unfold val_bits. cbn [seq]. rewrite fmap_cons. f_equal. rewrite <- seq_shift.
  change (map S (seq 0 n)) with (S <$> seq 0 n). rewrite <- list_fmap_compose.
  apply list_fmap_ext. intros i x _. cbn. rewrite Z.shiftr_spec by lia. f_equal. lia.
Qed.
Lemma val_bits_snoc n v : val_bits (S n) v = val_bits n v ++ [Z.testbit v (Z.of_nat n)].
Proof. unfold val_bits. rewrite seq_S, fmap_app. done. Qed.
Lemma length_val_bits n v : length (val_bits n v) = n.
Proof. unfold val_bits. by rewrite length_fmap, length_seq. Qed.
Lemma val_bits_ext n v w :
  (forall i, 0 <= i < Z.of_nat n -> Z.testbit v i = Z.testbit w i) -> val_bits n v = val_bits n w.
Proof.
  intros H. apply list_fmap_ext. intros i x Hi. apply lookup_seq in Hi as [-> Hi]. apply H. lia.
Qed.
Lemma val_bits_inj n v w :
  0 <= v < 2 ^ Z.of_nat n -> 0 <= w < 2 ^ Z.of_nat n -> val_bits n v = val_bits n w -> v = w.
Proof.
  intros Hv Hw H. apply Z.bits_inj'. intros i Hi.
  destruct (decide (i < Z.of_nat n)).
  - apply (f_equal (lookup (Z.to_nat i))) in H. unfold val_bits in H.
    rewrite !list_lookup_fmap, !lookup_seq_lt in H by lia. cbn in H.
    rewrite Z2Nat.id in H by lia. by simplify_eq.
  - by rewrite !(range_bits (Z.of_nat n)) by (done || lia).
Qed.

Lemma bits_of_cons b l : bits_of (b :: l) = val_bits 8 b ++ bits_of l.
Proof. done. Qed.
Lemma bits_of_app a b : bits_of (a ++ b) = bits_of a ++ bits_of b.
Proof. apply bind_app. Qed.
Lemma length_bits_of l : length (bits_of l) = (8 * length l)%nat.
Proof.
  induction l as [|b l IH]; [done|]. rewrite bits_of_cons, length_app, IH, length_val_bits. cbn; lia.
Qed.
Lemma bits_of_inj a b : bytes_ok a -> bytes_ok b -> bits_of a = bits_of b -> a = b.
Proof.
  intros Ha. revert b. induction Ha as [|x a Hx Ha IH]; intros b Hb H; destruct Hb as [|y b Hy Hb].
  - done.
  - apply (f_equal length) in H. rewrite !length_bits_of in H. cbn in H. lia.
  - apply (f_equal length) in H. rewrite !length_bits_of in H. cbn in H. lia.
  - rewrite !bits_of_cons in H. apply app_inj_1 in H as [H1 H2]; [|by rewrite !length_val_bits].
    f_equal; [|by apply IH]. apply (val_bits_inj 8); done.
Qed.

(** ** The reader *)
Definition rbits (r : bitr) : list bool :=
  val_bits (Z.to_nat (br_cnt r)) (br_buf r) ++ bits_of (drop (Z.to_nat (br_pos r)) (br_d r)).
Definition rwf (r : bitr) : Prop := 0 <= br_pos r <= zlen (br_d r) /\ 0 <= br_cnt r <= 8.

(** The reader [r'] has [bs] left, of the same data. *)
Definition reads (d : list Z) (r' : bitr) (bs : list bool) : Prop :=
  rwf r' /\ rbits r' = bs /\ br_d r' = d.

Lemma land_1_bit v : Z.land v 1 = Z.b2z (Z.testbit v 0).
Proof. change 1 with (Z.ones 1). rewrite Z.land_ones by lia. by rewrite Z.bit0_mod. Qed.

Lemma take_bit_spec r :
  rwf r -> 0 < br_cnt r ->
  exists b bs, rbits r = b :: bs /\ fst (take_bit r) = Z.b2z b /\ reads (br_d r) (snd (take_bit r)) bs.
Proof.
  intros [Hp Hc] H0. unfold rbits, reads, rwf, take_bit; cbn.
  replace (Z.to_nat (br_cnt r)) with (S (Z.to_nat (br_cnt r - 1))) by lia.
  rewrite val_bits_S. exists (Z.testbit (br_buf r) 0). eexists.
  split; [done|]. split; [apply land_1_bit|]. done || (split; [lia|done]).
Qed.

Lemma getbit_spec r :
  rwf r ->
  match rbits r with
  | [] => getbit r = Ret (-1, r)
  | b :: bs => exists r', getbit r = Ret (Z.b2z b, r') /\ reads (br_d r) r' bs
  end.
Proof.
  intros Hr. unfold getbit. destruct (Z.eqb_spec (br_cnt r) 0) as [H0|H0].
  - unfold rbits. rewrite H0. cbn [Z.to_nat]. change (val_bits 0 (br_buf r)) with (@nil bool).
    destruct Hr as [Hp Hc]. rewrite Z.geb_leb.
    destruct (Z.leb_spec (zlen (br_d r)) (br_pos r)) as [Hl|Hl].
    + rewrite drop_ge by (unfold zlen in *; lia). done.
    + rewrite ld_ret by lia. cbn [obind app].
      assert (drop (Z.to_nat (br_pos r)) (br_d r)
              = at_ (br_d r) (br_pos r) :: drop (Z.to_nat (br_pos r + 1)) (br_d r)) as ->.
      { rewrite Z2Nat.inj_add by lia. change (Z.to_nat 1) with 1%nat. rewrite Nat.add_1_r.
        apply drop_S. unfold at_. apply list_lookup_lookup_total_lt || idtac.
        rewrite nth_lookup. destruct (_ !! _) eqn:E; [done|].
        apply lookup_ge_None in E. unfold zlen in Hl. lia. }
      rewrite bits_of_cons.
      set (r1 := {| br_d := br_d r; br_pos := br_pos r + 1; br_buf := at_ (br_d r) (br_pos r); br_cnt := 8 |}).
      destruct (take_bit_spec r1) as (b & bs & Hb & H1 & H2); [split; cbn; lia|cbn; lia|].
      change (rbits r1) with (val_bits 8 (at_ (br_d r) (br_pos r))
        ++ bits_of (drop (Z.to_nat (br_pos r + 1)) (br_d r))) in Hb. rewrite Hb.
      eexists. split; [|exact H2]. rewrite <- H1. by destruct (take_bit r1).
  - destruct (take_bit_spec r) as (b & bs & -> & H1 & H2); [done|destruct Hr; lia|].
    eexists. split; [|exact H2]. rewrite <- H1. by destruct (take_bit r).
Qed.

(** The value of a list of bits, lowest first. *)
Fixpoint bits_val (bs : list bool) : Z :=
  match bs with [] => 0 | b :: bs => Z.b2z b + 2 * bits_val bs end.

Lemma bits_val_range bs : 0 <= bits_val bs < 2 ^ Z.of_nat (length bs).
Proof.
  induction bs as [|b bs IH]; [done|]. cbn [bits_val length]. rewrite Nat2Z.inj_succ, Z.pow_succ_r by lia.
  destruct b; cbn [Z.b2z]; lia.
Qed.
Lemma bits_val_val n v : 0 <= v < 2 ^ Z.of_nat n -> bits_val (val_bits n v) = v.
Proof.
  revert v. induction n as [|n IH]; intros v Hv.
  { change (2 ^ Z.of_nat 0) with 1 in Hv. cbn. lia. }
  rewrite val_bits_S. cbn [bits_val]. rewrite Nat2Z.inj_succ, Z.pow_succ_r in Hv by lia.
  rewrite IH by (rewrite Z.shiftr_div_pow2 by lia; change (2 ^ 1) with 2; zdm).
  rewrite <- Z.bit0_mod || rewrite Z.bit0_mod. rewrite Z.shiftr_div_pow2 by lia. change (2 ^ 1) with 2. zdm.
Qed.

Lemma getbits_loop_spec k r i v :
  rwf r -> 0 <= i -> 0 <= v < 2 ^ i ->
  if decide (k <= length (rbits r))%nat then
    exists r', getbits_loop k r i v = Ret (v + bits_val (take k (rbits r)) * 2 ^ i, r')
      /\ reads (br_d r) r' (drop k (rbits r))
  else exists r', getbits_loop k r i v = Ret (-1, r') /\ reads (br_d r) r' [].
Proof.
  revert r i v. induction k as [|k IH]; intros r i v Hr Hi Hv; cbn [getbits_loop].
  { case_decide; [|lia]. exists r. cbn. by rewrite Z.add_0_r. }
  pose proof (getbit_spec r Hr) as H. destruct (rbits r) as [|b bs] eqn:E.
  { case_decide as Hd; cbn in Hd; [lia|]. rewrite H. cbn. eexists. split; [done|]. done. }
  destruct H as (r1 & -> & Hw & Hb & Hd1). cbn [obind].
  destruct (Z.ltb_spec (Z.b2z b) 0); [destruct b; cbn in *; lia|].
  assert (Z.lor v (Z.shiftl (Z.b2z b) i) = v + Z.b2z b * 2 ^ i) as -> by (by apply lor_shiftl_add).
  assert (2 ^ (i + 1) = 2 * 2 ^ i) as E2 by (rewrite Z.pow_add_r by lia; lia).
  specialize (IH r1 (i + 1) (v + Z.b2z b * 2 ^ i) Hw ltac:(lia)).
  rewrite Hb in IH. rewrite Hd1 in IH. cbn [length].
  do 2 case_decide; try lia.
  - destruct IH as (r' & -> & Hr'); [destruct b; cbn [Z.b2z]; lia|]. exists r'. split; [|done].
    cbn [take bits_val]. rewrite E2. f_equal. f_equal. lia.
  - apply IH. destruct b; cbn [Z.b2z]; lia.
Qed.

Lemma getbits_spec r n :
  rwf r -> 0 <= n ->
  if decide (Z.to_nat n <= length (rbits r))%nat then
    exists r', getbits r n = Ret (bits_val (take (Z.to_nat n) (rbits r)), r')
      /\ reads (br_d r) r' (drop (Z.to_nat n) (rbits r))
  else exists r', getbits r n = Ret (-1, r') /\ reads (br_d r) r' [].
Proof.
  intros Hr Hn. pose proof (getbits_loop_spec (Z.to_nat n) r 0 0 Hr) as H. unfold getbits.
  case_decide; destruct H as (r' & -> & H'); try lia; eexists; (split; [|exact H']); [|done].
  f_equal. f_equal. change (2 ^ 0) with 1. lia.
Qed.

(** The case of a number written by the other side. *)
Lemma getbits_val r n v rest :
  rwf r -> 0 <= n -> 0 <= v < 2 ^ n -> rbits r = val_bits (Z.to_nat n) v ++ rest ->
  exists r', getbits r n = Ret (v, r') /\ reads (br_d r) r' rest.
Proof.
  intros Hr Hn Hv Hb. pose proof (getbits_spec r n Hr Hn) as H. rewrite Hb, length_app, length_val_bits in H.
  case_decide; [|lia]. destruct H as (r' & -> & H').
  rewrite take_app_length' in * by (by rewrite length_val_bits).
  rewrite drop_app_length' in H' by (by rewrite length_val_bits).
  rewrite bits_val_val by (rewrite Z2Nat.id; done). eauto.
Qed.

(** ** The decoder of one symbol *)
Fixpoint dec (k : nat) (bs : list bool) (h : huff) (len code first index : Z) : outcome (Z * list bool) :=
  match k with
  | O => Ret (-1, bs)
  | S k =>
      match bs with
      | [] => Ret (-1, [])
      | b :: bs =>
          let code := Z.lor code (Z.b2z b) in
          let! count := ld (h_count h) len in
          if code - first <? count then
            let! s := cell (h_sym h) (index + (code - first)) in Ret (s, bs)
          else
            dec k bs h (len + 1) (Z.shiftl code 1) (Z.shiftl (first + count) 1) (index + count)
      end
  end.

Lemma decode_sim k r h len code first index :
  rwf r ->
  match dec k (rbits r) h len code first index with
  | Ret (s, bs) => exists r', decode_loop k r h len code first index = Ret (s, r') /\ reads (br_d r) r' bs
  | Fault => decode_loop k r h len code first index = Fault
  | Diverge => False
  end.
Proof.
  revert r len code first index. induction k as [|k IH]; intros r len code first index Hr; cbn [dec decode_loop].
  { exists r. done. }
  pose proof (getbit_spec r Hr) as H. destruct (rbits r) as [|b bs] eqn:E.
  { rewrite H. cbn. eexists. split; [done|]. done. }
  destruct H as (r1 & -> & Hw & Hb & Hd). cbn [obind].
  destruct (Z.ltb_spec (Z.b2z b) 0); [destruct b; cbn in *; lia|].
  destruct (ld (h_count h) len) eqn:El; cbn [obind]; [|done|].
  2: { unfold ld in El. repeat case_match; done. }
  destruct (Z.ltb_spec (Z.lor code (Z.b2z b) - first) a).
  - unfold cell. destruct (h_sym h !! _); cbn [obind]; [|done]. exists r1. done.
  - rewrite <- Hb, <- Hd. by apply IH.
Qed.

Lemma dec_app k bs h len code first index s bs' rest :
  dec k bs h len code first index = Ret (s, bs') -> 0 <= s ->
  dec k (bs ++ rest) h len code first index = Ret (s, bs' ++ rest).
Proof.
  revert bs len code first index. induction k as [|k IH]; intros bs len code first index; cbn [dec].
  { intros [= <- <-]. lia. }
  destruct bs as [|b bs]; [intros [= <- <-]; lia|]. cbn [app].
  destruct (ld (h_count h) len) eqn:El; cbn [obind]; try done.
  case_match; [|apply IH]. destruct (cell _ _); cbn [obind]; try done. by intros [= <- <-].
Qed.

Lemma huff_decode_code r h c s rest :
  rwf r -> dec 15 c h 1 0 0 0 = Ret (s, []) -> 0 <= s -> rbits r = c ++ rest ->
  exists r', huff_decode r h = Ret (s, r') /\ reads (br_d r) r' rest.
Proof.
  intros Hr Hc Hs Hb. pose proof (decode_sim 15 r h 1 0 0 0 Hr) as H.
  rewrite Hb, (dec_app _ _ _ _ _ _ _ _ _ rest Hc Hs) in H. exact H.
Qed.

(** ** The fixed codes *)
Definition built (o : outcome huff) : huff :=
  match o with Ret h => h | _ => {| h_count := []; h_sym := ∅ |} end.
Definition fixed_lh : huff := built (huff_build fixed_ll 288).
Definition fixed_dh : huff := built (huff_build fixed_dl 30).

Lemma built_ok o : match o with Ret _ => true | _ => false end = true -> o = Ret (built o).
Proof. by destruct o. Qed.
Lemma fixed_lh_built : huff_build fixed_ll 288 = Ret fixed_lh.
Proof. apply built_ok. vm_compute. reflexivity. Qed.
Lemma fixed_dh_built : huff_build fixed_dl 30 = Ret fixed_dh.
Proof. apply built_ok. vm_compute. reflexivity. Qed.

(** The bits the encoder puts for a symbol, a length and a distance. *)
Definition lit_bits (s : Z) : list bool :=
  if s <? 144 then rev (val_bits 8 (0x30 + s))
  else if s <? 256 then rev (val_bits 9 (0x190 + (s - 144)))
  else if s <=? 279 then rev (val_bits 7 (s - 256)) else rev (val_bits 8 (0xc0 + (s - 280))).
Definition len_bits (len : Z) : list bool :=
  let '(s, x, n) := len_sym len in lit_bits s ++ val_bits (Z.to_nat n) x.
Definition dist_bits (dist : Z) : list bool :=
  let '(s, x, n) := dist_sym dist in rev (val_bits 5 s) ++ val_bits (Z.to_nat n) x.

Definition code_ok (h : huff) (c : list bool) (s : Z) : bool :=
  match dec 15 c h 1 0 0 0 with Ret (v, []) => Z.eqb v s | _ => false end.

Lemma code_ok_dec h c s : code_ok h c s = true -> dec 15 c h 1 0 0 0 = Ret (s, []).
Proof.
  unfold code_ok. destruct (dec _ _ _ _ _ _ _) as [[v [|]]| |]; try done.
  destruct (Z.eqb_spec v s); [by subst|done].
Qed.

(** The integers [a], [a + 1], ..., [n] of them. *)
Fixpoint upto (a : Z) (n : nat) : list Z :=
  match n with O => [] | S n => a :: upto (a + 1) n end.
Lemma forallb_upto f a n x : forallb f (upto a n) = true -> a <= x < a + Z.of_nat n -> f x = true.
Proof.
  revert a. induction n as [|n IH]; intros a; cbn [upto forallb]; [lia|].
  rewrite andb_true_iff. intros [H1 H2] Hx. destruct (decide (x = a)); [by subst|].
  apply (IH (a + 1)); [done|lia].
Qed.

Lemma lit_code s : 0 <= s < 286 -> dec 15 (lit_bits s) fixed_lh 1 0 0 0 = Ret (s, []).
Proof.
  intros Hs. apply code_ok_dec. refine (forallb_upto (fun s => code_ok _ (lit_bits s) s) 0 286 s _ _); [|lia].
  vm_compute. reflexivity.
Qed.
Lemma dist_code s : 0 <= s < 30 -> dec 15 (rev (val_bits 5 s)) fixed_dh 1 0 0 0 = Ret (s, []).
Proof.
  intros Hs. apply code_ok_dec.
  refine (forallb_upto (fun s => code_ok _ (rev (val_bits 5 s)) s) 0 30 s _ _); [|lia].
  vm_compute. reflexivity.
Qed.

(** The symbol chosen for a length or a distance names it. *)
Definition sym_ok (base extra : list Z) (lo hi : Z) (r : Z * Z * Z) (off v : Z) : bool :=
  let '(s, x, n) := r in
  (off + lo <=? s) && (s <? off + hi) && (0 <=? x) && (x <? 2 ^ n) && (0 <=? n)
  && Z.eqb (at_ base (s - off) + x) v && Z.eqb (at_ extra (s - off)) n.

Lemma sym_ok_spec base extra lo hi s x n off v :
  sym_ok base extra lo hi (s, x, n) off v = true ->
  off + lo <= s < off + hi /\ 0 <= x < 2 ^ n /\ 0 <= n
  /\ at_ base (s - off) + x = v /\ at_ extra (s - off) = n.
Proof. unfold sym_ok. rewrite !andb_true_iff, !Z.leb_le, !Z.ltb_lt, !Z.eqb_eq. tauto. Qed.

Lemma len_sym_ok len : 3 <= len <= 258 -> sym_ok len_base len_extra 0 29 (len_sym len) 257 len = true.
Proof.
  intros. refine (forallb_upto (fun v => sym_ok _ _ _ _ (len_sym v) _ v) 3 256 len _ _); [|lia].
  vm_compute. reflexivity.
Qed.
Lemma dist_sym_ok dist : 1 <= dist <= 32768 -> sym_ok dist_base dist_extra 0 30 (dist_sym dist) 0 dist = true.
Proof.
  intros. refine (forallb_upto (fun v => sym_ok _ _ _ _ (dist_sym v) _ v) 1 (Z.to_nat 32768) dist _ _); [|lia].
  vm_compute. reflexivity.
Qed.

(** ** What the decoder makes of the encoder's bits

    [decodes n bs a b]: [n] rounds of inflate_block on the fixed codes take
    the bits [bs] and the output from [a] to [b]. *)
Definition decodes (n : nat) (bs : list bool) (a b : list Z) : Prop :=
  forall fuel r rest, rwf r -> rbits r = bs ++ rest ->
  exists r', reads (br_d r) r' rest
    /\ inflate_block (n + fuel) r fixed_lh fixed_dh a = inflate_block fuel r' fixed_lh fixed_dh b.

Lemma decodes_nil a : decodes 0 [] a a.
Proof. intros fuel r rest Hr Hb. by exists r. Qed.
Lemma decodes_app n m bs cs a b c :
  decodes n bs a b -> decodes m cs b c -> decodes (n + m) (bs ++ cs) a c.
Proof.
  intros H1 H2 fuel r rest Hr Hb. rewrite <- app_assoc in Hb.
  destruct (H1 (m + fuel)%nat r (cs ++ rest) Hr Hb) as (r1 & (Hw & Hb1 & Hd1) & E1).
  destruct (H2 fuel r1 rest Hw Hb1) as (r2 & H' & E2). exists r2. rewrite Hd1 in H'. split; [done|].
  by rewrite <- Nat.add_assoc, E1, E2.
Qed.

(** One round that goes on. *)
Lemma block_step_decodes bs a b :
  (forall r rest, rwf r -> rbits r = bs ++ rest ->
   exists r', reads (br_d r) r' rest /\ block_step r fixed_lh fixed_dh a = Ret (None, r', b)) ->
  decodes 1 bs a b.
Proof.
  intros H fuel r rest Hr Hb. destruct (H r rest Hr Hb) as (r' & Hr' & E). exists r'. split; [done|].
  change (1 + fuel)%nat with (S fuel). cbn [inflate_block]. by rewrite E.
Qed.

Lemma decodes_lit a c : is_byte c -> decodes 1 (lit_bits c) a (a ++ [c]).
Proof.
  unfold is_byte. intros Hc. apply block_step_decodes. intros r rest Hr Hb.
  destruct (huff_decode_code r fixed_lh (lit_bits c) c rest Hr) as (r' & E & Hr'); [apply lit_code; lia|lia|done|].
  exists r'. split; [done|]. unfold block_step. rewrite E. cbn [obind].
  zsplit. unfold bput. by rewrite uwrap_small by lia.
Qed.

Lemma decodes_match a b len dist :
  3 <= len <= 258 -> 1 <= dist <= 32768 -> dist <= zlen a ->
  copy_back (Z.to_nat len) dist a = Ret b ->
  decodes 1 (len_bits len ++ dist_bits dist) a b.
Proof.
  intros Hl Hd Hda Hc. apply block_step_decodes. intros r rest Hr Hb.
  pose proof (len_sym_ok len Hl) as Hs. pose proof (dist_sym_ok dist Hd) as Hs'.
  unfold len_bits, dist_bits in Hb.
  destruct (len_sym len) as [[s x] n]. destruct (dist_sym dist) as [[s' x'] n'].
  apply sym_ok_spec in Hs as (? & ? & ? & Hsl & Hsn). apply sym_ok_spec in Hs' as (? & ? & ? & Hdl & Hdn).
  rewrite Z.sub_0_r in *. rewrite <- !app_assoc in Hb.
  destruct (huff_decode_code r fixed_lh (lit_bits s) s (val_bits (Z.to_nat n) x ++ rev (val_bits 5 s') ++ val_bits (Z.to_nat n') x' ++ rest) Hr) as (r1 & E1 & Hw1 & Hb1 & Hd1);
    [apply lit_code; lia|lia|exact Hb|].
  destruct (getbits_val r1 n x (rev (val_bits 5 s') ++ val_bits (Z.to_nat n') x' ++ rest) Hw1) as (r2 & E2 & Hw2 & Hb2 & Hd2); [lia|lia|exact Hb1|].
  destruct (huff_decode_code r2 fixed_dh (rev (val_bits 5 s')) s' (val_bits (Z.to_nat n') x' ++ rest) Hw2) as (r3 & E3 & Hw3 & Hb3 & Hd3);
    [apply dist_code; lia|lia|exact Hb2|].
  destruct (getbits_val r3 n' x' rest Hw3) as (r4 & E4 & Hw4 & Hb4 & Hd4); [lia|lia|exact Hb3|].
  exists r4. split; [split; [done|split; [done|congruence]]|].
  unfold block_step. rewrite E1. cbn [obind]. rewrite Z.geb_leb.
  zsplit. rewrite !ld_ret by (change (zlen _) with 29; lia). cbn [obind]. rewrite Hsn, E2. cbn [obind].
  rewrite E3. cbn [obind]. rewrite Z.geb_leb. zsplit.
  rewrite !ld_ret by (change (zlen _) with 30; lia). cbn [obind]. rewrite Hdn, E4. cbn [obind].
  rewrite Hsl, Hdl, Z.gtb_ltb. rewrite uwrap_small by lia. zsplit. rewrite Hc. done.
Qed.

(** The end of the block. *)
Lemma decodes_end fuel r rest a :
  rwf r -> rbits r = lit_bits 256 ++ rest ->
  exists r', reads (br_d r) r' rest /\ inflate_block (S fuel) r fixed_lh fixed_dh a = Ret (0, r', a).
Proof.
  intros Hr Hb. destruct (huff_decode_code r fixed_lh (lit_bits 256) 256 rest Hr) as (r' & E & Hr');
    [apply lit_code; lia|lia|done|].
  exists r'. split; [done|]. cbn [inflate_block]. unfold block_step. rewrite E. done.
Qed.

(** ** The writer *)
Definition wbits (w : bitw) : list bool := bits_of (bw_out w) ++ val_bits (Z.to_nat (bw_cnt w)) (bw_buf w).
Definition wwf (w : bitw) : Prop :=
  bytes_ok (bw_out w) /\ 0 <= bw_cnt w < 8 /\ 0 <= bw_buf w < 2 ^ bw_cnt w.

(** [writes w w' bs]: [w'] is [w] with the bits [bs] put. *)
Definition writes (w w' : bitw) (bs : list bool) : Prop := wwf w' /\ wbits w' = wbits w ++ bs.

Lemma writes_nil w : wwf w -> writes w w [].
Proof. intros. split; [done|]. by rewrite app_nil_r. Qed.
Lemma writes_app w w1 w2 a b : writes w w1 a -> writes w1 w2 b -> writes w w2 (a ++ b).
Proof. intros [_ E1] [Hw E2]. split; [done|]. by rewrite E2, E1, app_assoc. Qed.

Lemma putbit_buf w b :
  wwf w ->
  let buf := Z.lor (bw_buf w) (Z.shiftl (Z.b2z b) (bw_cnt w)) in
  0 <= buf < 2 ^ (bw_cnt w + 1)
  /\ val_bits (Z.to_nat (bw_cnt w + 1)) buf = val_bits (Z.to_nat (bw_cnt w)) (bw_buf w) ++ [b].
Proof.
  intros (_ & Hc & Hb) buf. split.
  { subst buf. rewrite lor_shiftl_add, Z.pow_add_r by lia. change (2 ^ 1) with 2.
    destruct b; cbn [Z.b2z]; lia. }
  replace (Z.to_nat (bw_cnt w + 1)) with (S (Z.to_nat (bw_cnt w))) by lia. rewrite val_bits_snoc.
  subst buf. f_equal.
  - apply val_bits_ext. intros i Hi. rewrite Z.lor_spec, Z.shiftl_spec_low by lia. apply orb_false_r.
  - rewrite Z2Nat.id by lia. rewrite Z.lor_spec, (range_bits (bw_cnt w) (bw_buf w)) by (done || lia).
    rewrite Z.shiftl_spec, Z.sub_diag by lia. by destruct b.
Qed.

Lemma putbit_spec w b : wwf w -> writes w (putbit w (Z.b2z b)) [b].
Proof.
  intros Hw. pose proof (putbit_buf w b Hw) as [Hr Hv]. cbv zeta in Hr, Hv. destruct Hw as (Ho & Hc & Hb).
  unfold putbit. assert (Z.land (Z.b2z b) 1 = Z.b2z b) as -> by (by destruct b).
  set (buf := Z.lor _ _) in *. clearbody buf.
  destruct (Z.eqb_spec (bw_cnt w + 1) 8) as [E|E]; (split; [split; cbn; [|lia]|]).
  - apply Forall_app. split; [done|]. constructor; [apply u8_byte|done].
  - rewrite E in *. unfold wbits, bput. cbn [bw_out bw_buf bw_cnt].
    rewrite uwrap_small, bits_of_app, <- !app_assoc, <- Hv by done.
    by rewrite bits_of_cons, !app_nil_r.
  - done.
  - unfold wbits. cbn [bw_out bw_buf bw_cnt]. by rewrite <- app_assoc, <- Hv.
Qed.

Lemma put_fold_spec val is_ w :
  wwf w ->
  writes w (fold_left (fun w i => putbit w (Z.land (Z.shiftr val (Z.of_nat i)) 1)) is_ w)
    ((fun i => Z.testbit val (Z.of_nat i)) <$> is_).
Proof.
  revert w. induction is_ as [|i is_ IH]; intros w Hw; cbn [fold_left]; [by apply writes_nil|].
  rewrite land_1_bit, Z.shiftr_spec, Z.add_0_l by lia.
  pose proof (putbit_spec w (Z.testbit val (Z.of_nat i)) Hw) as H.
  change (_ <$> i :: is_) with ([Z.testbit val (Z.of_nat i)] ++ ((fun i => Z.testbit val (Z.of_nat i)) <$> is_)).
  eapply writes_app; [exact H|]. apply IH, H.
Qed.
Lemma putbits_spec w val n : wwf w -> writes w (putbits w val n) (val_bits (Z.to_nat n) val).
Proof. apply put_fold_spec. Qed.
Lemma putbits_rev_spec w val n : wwf w -> writes w (putbits_rev w val n) (rev (val_bits (Z.to_nat n) val)).
Proof.
  intros Hw. pose proof (put_fold_spec val (rev (seq 0 (Z.to_nat n))) w Hw) as H.
  unfold val_bits. change (fmap (M := list)) with (@map nat bool) in *. by rewrite map_rev in H.
Qed.

Lemma emit_lit_spec w c : wwf w -> is_byte c -> writes w (emit_lit w c) (lit_bits c).
Proof.
  unfold is_byte, emit_lit, lit_bits. intros Hw Hc.
  destruct (Z.ltb_spec c 144); [by apply putbits_rev_spec|].
  destruct (Z.ltb_spec c 256); [by apply putbits_rev_spec|lia].
Qed.
Lemma emit_len_spec w len : wwf w -> 3 <= len <= 258 -> writes w (emit_len w len) (len_bits len).
Proof.
  intros Hw Hl. unfold emit_len, len_bits. pose proof (len_sym_ok len Hl) as Hs.
  destruct (len_sym len) as [[s x] n]. apply sym_ok_spec in Hs as (? & _).
  assert (writes w (if s <=? 279 then putbits_rev w (s - 256) 7 else putbits_rev w (0xc0 + (s - 280)) 8)
    (lit_bits s)) as H1.
  { unfold lit_bits. destruct (Z.ltb_spec s 144); [lia|]. destruct (Z.ltb_spec s 256); [lia|].
    destruct (Z.leb_spec s 279); by apply putbits_rev_spec. }
  eapply writes_app; [exact H1|]. apply putbits_spec, H1.
Qed.
Lemma emit_dist_spec w dist : wwf w -> writes w (emit_dist w dist) (dist_bits dist).
Proof.
  intros Hw. unfold emit_dist, dist_bits. destruct (dist_sym dist) as [[s x] n].
  pose proof (putbits_rev_spec w s 5 Hw) as H1. eapply writes_app; [exact H1|]. apply putbits_spec, H1.
Qed.

(** Whole bytes at the end: what was put, and a padding. *)
Lemma flush_spec w :
  wwf w -> bytes_ok (bw_out (flush_bits w))
  /\ exists pad, bits_of (bw_out (flush_bits w)) = wbits w ++ pad.
Proof.
  intros (Ho & Hc & Hb). unfold flush_bits, wbits. destruct (Z.eqb_spec (bw_cnt w) 0) as [E|E].
  { split; [done|]. exists []. by rewrite E, !app_nil_r. }
  cbn. unfold bput. split; [apply Forall_app; split; [done|constructor; [apply u8_byte|done]]|].
  assert (bw_buf w < 2 ^ 8) by (pose proof (Z.pow_le_mono_r 2 (bw_cnt w) 8); lia).
  rewrite bits_of_app, bits_of_cons, app_nil_r, uwrap_small by lia.
  exists (drop (Z.to_nat (bw_cnt w)) (val_bits 8 (bw_buf w))). rewrite <- app_assoc. f_equal.
  rewrite <- (take_drop (Z.to_nat (bw_cnt w)) (val_bits 8 (bw_buf w))) at 1. f_equal.
  unfold val_bits. rewrite <- fmap_take. f_equal. rewrite take_seq. f_equal. lia.
Qed.

(** ** The search *)
Section search.
Context (inp : list Z) (Hinp : bytes_ok inp) (Hsmall : zlen inp < 2 ^ 31).

(** [len] bytes at [i] repeat those [dist] before, within the window. *)
Definition good_match (i len dist : Z) : Prop :=
  0 < len <= 258 /\ 1 <= dist <= WSIZE /\ dist <= i /\ i + len <= zlen inp
  /\ forall k, 0 <= k < len -> at_ inp (i - dist + k) = at_ inp (i + k).

(** Every position a chain leads to was entered before. *)
Definition chained (c : chains) (i v : Z) : Prop := -1 <= v < i /\ (0 <= v -> is_Some (c_prev c !! v)).
Definition chains_ok (c : chains) (i : Z) : Prop :=
  (forall h, chained c i (head_at c h)) /\ (forall j v, c_prev c !! j = Some v -> chained c j v).

Lemma match_len_spec k i j l :
  0 <= j < i -> 0 <= l -> i + l <= zlen inp ->
  (forall q, 0 <= q < l -> at_ inp (j + q) = at_ inp (i + q)) ->
  exists l', match_len k inp i j l = Ret l' /\ l <= l' <= l + Z.of_nat k /\ i + l' <= zlen inp
    /\ forall q, 0 <= q < l' -> at_ inp (j + q) = at_ inp (i + q).
Proof.
  revert l. induction k as [|k IH]; intros l Hj Hl Hn Hq; cbn [match_len].
  { exists l. split; [done|]. split; [lia|done]. }
  destruct (Z.ltb_spec (i + l) (zlen inp)).
  2: { exists l. split; [done|]. split; [lia|]. split; [lia|done]. }
  rewrite !ld_ret by lia. cbn [obind].
  destruct (Z.eqb_spec (at_ inp (j + l)) (at_ inp (i + l))) as [E|E].
  2: { exists l. split; [done|]. split; [lia|]. split; [lia|done]. }
  destruct (IH (l + 1)) as (l' & E' & ? & ? & ?); try lia.
  { intros q Hq'. destruct (decide (q = l)); [by subst|apply Hq; lia]. }
  exists l'. split; [done|]. split; [lia|done].
Qed.

Lemma swrap32_small z : - 2 ^ 31 <= z < 2 ^ 31 -> i32 z = z.
Proof.
  intros. unfold swrap. change (2 ^ (32 - 1)) with (2 ^ 31). rewrite Z.mod_small by lia. lia.
Qed.

Lemma chain_loop_spec k c i j bl bd :
  chains_ok c i -> chained c i j -> 0 <= i -> i <= zlen inp -> bl = 0 \/ good_match i bl bd ->
  exists bl' bd', chain_loop k inp (c_prev c) i j bl bd = Ret (bl', bd') /\ (bl' = 0 \/ good_match i bl' bd').
Proof using Hsmall.
  intros Hc. revert j bl bd. induction k as [|k IH]; intros j bl bd Hj Hi Hn Hb; cbn [chain_loop].
  { eauto. }
  destruct (Z.ltb_spec j 0); [eauto|]. destruct Hj as [Hj Hs].
  destruct Hs as [j' Ej']; [lia|]. unfold cell. rewrite Ej'. cbn [obind].
  assert (chained c i j') as Hj'. { destruct Hc as [_ Hc]. destruct (Hc j j' Ej'). split; [lia|done]. }
  rewrite uwrap_small by lia. destruct (Z.leb_spec (i - j) WSIZE); [|by apply IH].
  destruct (match_len_spec 258 i j 0) as (l & -> & Hl & Hil & Hq); try lia. cbn [obind].
  rewrite Z.gtb_ltb. destruct (Z.ltb_spec bl l); [|by apply IH].
  assert (0 <= bl) by (destruct Hb as [->|(?&_)]; lia).
  assert (good_match i l (i32 (i - j))) as Hg.
  { rewrite swrap32_small by lia. split; [lia|]. split; [lia|]. split; [lia|]. split; [done|].
    intros q Hq'. rewrite <- Hq by lia. f_equal. lia. }
  rewrite Z.geb_leb. destruct (Z.leb_spec 258 l); eauto.
Qed.

Lemma hash3_ret i : 0 <= i -> i + 3 <= zlen inp -> exists h, hash3 inp i = Ret h.
Proof. intros. unfold hash3. rewrite !ld_ret by lia. cbn. eauto. Qed.

Lemma chained_insert c h i j v : chained c i v -> i <= j -> chained (insert_pos c h j) j v.
Proof.
  intros [Hv Hs] Hij. split; [lia|]. intros H0. cbn.
  destruct (decide (v = j)) as [->|]; [rewrite lookup_insert_eq; eauto|].
  rewrite lookup_insert_ne by done. auto.
Qed.

Lemma insert_pos_ok c h i :
  chains_ok c i -> 0 <= i < zlen inp -> chains_ok (insert_pos c h i) (i + 1).
Proof using Hsmall.
  intros [Hh Hp] Hi. split.
  - intros h'. unfold head_at; cbn. rewrite swrap32_small by lia.
    destruct (decide (h = h')) as [->|Hne].
    + rewrite lookup_insert_eq. split; cbn; [lia|]. intros _. rewrite lookup_insert_eq. eauto.
    + rewrite lookup_insert_ne by done. pose proof (chained_insert c h i i _ (Hh h')) as [? ?]; [lia|].
      split; [unfold head_at in *; lia|done].
  - intros j v. cbn. destruct (decide (j = i)) as [->|Hne].
    + rewrite lookup_insert_eq. intros [= <-]. apply (chained_insert c h i i); [done|lia].
    + rewrite lookup_insert_ne by done. intros E. destruct (Hp j v E) as [Hv Hs]. split; [done|].
      intros H0. cbn. destruct (decide (v = i)) as [->|]; [rewrite lookup_insert_eq; eauto|].
      rewrite lookup_insert_ne by done. auto.
Qed.

Lemma chains_ok_empty : chains_ok {| c_head := ∅; c_prev := ∅ |} 0.
Proof.
  split; cbn.
  - intros h. unfold head_at; cbn. rewrite lookup_empty. split; cbn; lia.
  - intros j v. by rewrite lookup_empty.
Qed.
Lemma chains_ok_le c i j : chains_ok c i -> i <= j -> chains_ok c j.
Proof. intros [Hh Hp] Hij. split; [|done]. intros h. destruct (Hh h). split; [lia|done]. Qed.

Lemma find_match_spec i c :
  chains_ok c i -> 0 <= i < zlen inp ->
  exists bl bd c', find_match inp i c = Ret (bl, bd, c') /\ chains_ok c' (i + 1)
    /\ (bl = 0 \/ good_match i bl bd).
Proof using Hsmall.
  intros Hc Hi. unfold find_match. destruct (Z.leb_spec (i + 3) (zlen inp)).
  - destruct (hash3_ret i) as [h ->]; [lia|lia|]. cbn [obind].
    pose proof (proj1 Hc h) as Hh.
    destruct (chain_loop_spec 128 c i (head_at c h) 0 0 Hc Hh ltac:(lia) ltac:(lia) (or_introl eq_refl))
      as (bl & bd & -> & Hb).
    cbn [obind]. exists bl, bd, (insert_pos c h i). split; [done|]. split; [by apply insert_pos_ok|done].
  - exists 0, 0, c. split; [done|]. split; [apply (chains_ok_le c i); [done|lia]|auto].
Qed.

Lemma cover_spec k p c :
  chains_ok c p -> 0 <= p -> p + Z.of_nat k <= zlen inp ->
  exists c', cover k inp p c = Ret c' /\ chains_ok c' (p + Z.of_nat k).
Proof using Hsmall.
  revert p c. induction k as [|k IH]; intros p c Hc Hp Hn; cbn [cover].
  { exists c. split; [done|]. by rewrite Z.add_0_r. }
  replace (p + Z.of_nat (S k)) with (p + 1 + Z.of_nat k) by lia.
  destruct (Z.leb_spec (p + 3) (zlen inp)).
  - destruct (hash3_ret p) as [h ->]; [lia|lia|]. cbn [obind]. apply IH; [apply insert_pos_ok; [done|]|..]; lia.
  - apply IH; [apply (chains_ok_le c p); [done|]|..]; lia.
Qed.

(** ** The loop of the encoder *)
Lemma take_snoc i : 0 <= i < zlen inp -> take (Z.to_nat (i + 1)) inp = take (Z.to_nat i) inp ++ [at_ inp i].
Proof.
  intros Hi. replace (Z.to_nat (i + 1)) with (S (Z.to_nat i)) by lia. apply take_S_r.
  unfold at_. rewrite nth_lookup. destruct (_ !! _) eqn:E; [done|].
  apply lookup_ge_None in E. unfold zlen in Hi. lia.
Qed.
Lemma zlen_take i : 0 <= i <= zlen inp -> zlen (take (Z.to_nat i) inp) = i.
Proof. unfold zlen. intros. rewrite length_take. lia. Qed.
Lemma at_take i j : 0 <= j < i -> at_ (take (Z.to_nat i) inp) j = at_ inp j.
Proof. intros. unfold at_. rewrite !nth_lookup, lookup_take_lt by lia. done. Qed.

Lemma copy_back_spec len i dist :
  1 <= dist <= i -> i + Z.of_nat len <= zlen inp ->
  (forall k, 0 <= k < Z.of_nat len -> at_ inp (i - dist + k) = at_ inp (i + k)) ->
  copy_back len dist (take (Z.to_nat i) inp) = Ret (take (Z.to_nat (i + Z.of_nat len)) inp).
Proof using Hinp.
  revert i. induction len as [|len IH]; intros i Hd Hn Hk; cbn [copy_back].
  { by rewrite Z.add_0_r. }
  rewrite zlen_take by lia. rewrite ld_ret by (rewrite zlen_take; lia). cbn [obind].
  rewrite at_take by lia. pose proof (Hk 0 ltac:(lia)) as H0. rewrite !Z.add_0_r in H0.
  rewrite H0. unfold bput. rewrite uwrap_small by (apply at_byte, Hinp).
  rewrite <- take_snoc by lia. rewrite IH; [do 3 f_equal; lia|lia|lia|].
  intros k Hk'. replace (i + 1 - dist + k) with (i - dist + (k + 1)) by lia. rewrite Hk by lia. f_equal. lia.
Qed.

Lemma deflate_loop_spec fuel i c w :
  chains_ok c i -> 0 <= i <= zlen inp -> wwf w -> zlen inp - i < Z.of_nat fuel ->
  exists w' bs n, deflate_loop fuel inp i c w = Ret w' /\ writes w w' bs
    /\ decodes n bs (take (Z.to_nat i) inp) inp /\ (n <= length bs)%nat.
Proof using Hinp Hsmall.
  revert i c w. induction fuel as [|fuel IH]; intros i c w Hc Hi Hw Hf; cbn [deflate_loop]; [lia|].
  destruct (Z.ltb_spec i (zlen inp)) as [Hlt|Hge].
  2: { exists w, [], 0%nat. split; [done|]. split; [by apply writes_nil|]. split; [|cbn; lia].
       rewrite take_ge by (unfold zlen in Hge; lia). apply decodes_nil. }
  destruct (find_match_spec i c Hc) as (bl & bd & c1 & -> & Hc1 & Hb); [lia|]. cbn [obind].
  rewrite Z.geb_leb. destruct (Z.leb_spec 3 bl) as [H3|H3].
  - destruct Hb as [->|(Hl & Hd & Hdi & Hil & Hq)]; [lia|].
    destruct (cover_spec (Z.to_nat (bl - 1)) (i + 1) c1 Hc1) as (c2 & -> & Hc2); [lia|lia|]. cbn [obind].
    replace (i + 1 + Z.of_nat (Z.to_nat (bl - 1))) with (i + bl) in Hc2 by lia.
    pose proof (emit_len_spec w bl Hw ltac:(lia)) as H1.
    pose proof (emit_dist_spec _ bd (proj1 H1)) as H2. pose proof (writes_app _ _ _ _ _ H1 H2) as H12.
    destruct (IH (i + bl) c2 _ Hc2 ltac:(lia) (proj1 H2) ltac:(lia)) as (w' & bs & n & E & Hw' & Hdec & Hn).
    exists w', ((len_bits bl ++ dist_bits bd) ++ bs), (1 + n)%nat.
    split; [done|]. split; [by eapply writes_app|]. split.
    + eapply decodes_app; [|exact Hdec]. apply decodes_match; [lia|unfold WSIZE in *; lia|rewrite zlen_take; lia|].
      rewrite <- (Z2Nat.id bl) at 2 by lia. apply copy_back_spec; [lia|lia|]. intros k Hk. apply Hq. lia.
    + rewrite !length_app. unfold len_bits. destruct (len_sym bl) as [[s x] m]. rewrite length_app.
      assert (1 <= length (lit_bits s))%nat; [|lia].
      unfold lit_bits. repeat case_match; rewrite length_rev, length_val_bits; lia.
  - rewrite ld_ret by lia. cbn [obind].
    pose proof (emit_lit_spec w (at_ inp i) Hw (at_byte _ _ Hinp)) as H1.
    destruct (IH (i + 1) c1 _ Hc1 ltac:(lia) (proj1 H1) ltac:(lia)) as (w' & bs & n & E & Hw' & Hdec & Hn).
    exists w', (lit_bits (at_ inp i) ++ bs), (1 + n)%nat.
    split; [done|]. split; [by eapply writes_app|]. split.
    + eapply decodes_app; [|exact Hdec]. rewrite take_snoc by lia. apply decodes_lit, at_byte, Hinp.
    + rewrite length_app. unfold lit_bits. repeat case_match; rewrite length_rev, length_val_bits; lia.
Qed.
End search.

(** ** What deflate makes, and inflate of it *)
Lemma deflate_spec fuel inp out :
  bytes_ok inp -> zlen inp < 2 ^ 31 -> zlen inp < Z.of_nat fuel -> bytes_ok out ->
  exists d bs n pad, deflate fuel inp out = Ret (out ++ d) /\ bytes_ok d
    /\ bits_of d = [true; true; false] ++ bs ++ lit_bits 256 ++ pad
    /\ decodes n bs [] inp /\ (n <= length bs)%nat.
Proof.
  intros Hb Hs Hf Ho. unfold deflate. set (w0 := {| bw_out := out; bw_buf := 0; bw_cnt := 0 |}).
  assert (wwf w0) as Hw0 by (split; [done|]; cbn; lia).
  pose proof (putbit_spec w0 true Hw0) as H1. pose proof (putbits_spec _ 1 2 (proj1 H1)) as H2.
  pose proof (writes_app _ _ _ _ _ H1 H2) as H12.
  destruct (deflate_loop_spec inp Hb Hs fuel 0 {| c_head := ∅; c_prev := ∅ |}
      (putbits (putbit w0 (Z.b2z true)) 1 2)) as (w' & bs & n & E & H3 & Hd & Hn);
    [apply chains_ok_empty|pose proof (zlen_nonneg inp); lia|exact (proj1 H2)|lia|].
  change (Z.b2z true) with 1 in E. rewrite E. cbn [obind].
  pose proof (putbits_rev_spec w' 0 7 (proj1 H3)) as H4.
  pose proof (writes_app _ _ _ _ _ H12 (writes_app _ _ _ _ _ H3 H4)) as [Hw Hwb].
  destruct (flush_spec _ Hw) as (Hf1 & pad & Hf2). rewrite Hwb in Hf2.
  set (res := bw_out _) in *. clearbody res.
  unfold wbits in Hf2. cbn [bw_out bw_cnt bw_buf w0] in Hf2. change (val_bits (Z.to_nat 0) 0) with (@nil bool) in Hf2.
  rewrite app_nil_r, <- !app_assoc in Hf2.
  rewrite <- (take_drop (length out) res), bits_of_app in Hf2.
  assert (length (take (length out) res) = length out) as El.
  { apply (f_equal length) in Hf2. rewrite <- bits_of_app, take_drop, !length_app, !length_bits_of in Hf2.
    rewrite length_take. cbn [length] in Hf2. lia. }
  apply app_inj_1 in Hf2 as [Hx Hy]; [|rewrite !length_bits_of; lia].
  apply bits_of_inj in Hx; [|by apply Forall_take|done].
  exists (drop (length out) res), bs, n, pad. split; [|split; [by apply Forall_drop|split; [exact Hy|done]]].
  by rewrite <- Hx, take_drop at 1.
Qed.

Lemma inflate_fixed_stream fuel d bs n pad x :
  bits_of d = [true; true; false] ++ bs ++ lit_bits 256 ++ pad ->
  decodes n bs [] x -> (n < fuel)%nat -> inflate fuel d [] = Ret (0, x).
Proof.
  intros Hd Hdec Hf. destruct fuel as [|fuel]; [lia|]. unfold inflate. cbn [inflate_loop].
  assert (rwf (bitr_init d)) as Hr0 by (split; cbn; pose proof (zlen_nonneg d); lia).
  assert (rbits (bitr_init d) = bits_of d) as Hb0.
  { unfold rbits. cbn [bitr_init br_cnt br_buf br_pos br_d]. change (Z.to_nat 0) with 0%nat. by rewrite drop_0. }
  rewrite Hd in Hb0. pose proof (getbit_spec _ Hr0) as H1. rewrite Hb0 in H1. cbn [app] in H1.
  destruct H1 as (r1 & E1 & Hw1 & Hb1 & Hd1).
  destruct (getbits_val r1 2 1 (bs ++ lit_bits 256 ++ pad) Hw1) as (r2 & E2 & Hw2 & Hb2 & Hd2); [lia|lia|done|].
  destruct (Hdec (S (fuel - n)) r2 _ Hw2 Hb2) as (r3 & (Hw3 & Hb3 & _) & E3).
  destruct (decodes_end (fuel - n) r3 pad x Hw3 Hb3) as (r4 & _ & E4).
  unfold inflate_step. rewrite E1. cbn [obind Z.b2z Z.ltb Z.compare]. rewrite E2.
  cbn [obind Z.gtb Z.ltb Z.eqb Z.compare Pos.compare Pos.compare_cont Pos.eqb].
  unfold inflate_fixed. rewrite fixed_lh_built, fixed_dh_built. cbn [obind].
  replace (S fuel) with (n + S (fuel - n))%nat by lia. rewrite E3, E4. done.
Qed.

(** ** The checksum *)
Lemma crc_init_range i : 0 <= at_ Crc.crc_init i < 2 ^ 32.
Proof.
  unfold at_. rewrite nth_lookup. destruct (Crc.crc_init !! Z.to_nat i) as [v|] eqn:E; cbn; [|lia].
  assert (Forall (fun v => 0 <= v < 2 ^ 32) Crc.crc_init) as H
    by (apply (bool_decide_unpack _); vm_compute; exact I).
  rewrite Forall_lookup in H. by apply (H _ _ E).
Qed.
Lemma gz_crc32_range crc p : 0 <= crc < 2 ^ 32 -> 0 <= Crc.crc32 crc p < 2 ^ 32.
Proof.
  intros Hc. unfold Crc.crc32, Crc.not32. apply (lxor_range 32); [lia| |lia].
  assert (0 <= Z.lxor crc 0xffffffff < 2 ^ 32) as H by (apply lxor_range; lia).
  revert H. generalize (Z.lxor crc 0xffffffff). induction p as [|b p IH]; intros c H; cbn [fold_left]; [done|].
  apply IH. apply lxor_range; [lia|apply crc_init_range|]. rewrite Z.shiftr_div_pow2 by lia. zdm.
Qed.

(** The checksum is the one of the partition tables. *)
Lemma crc32_vpart p : Crc.crc32 0 p = Gpt.Crc.crc32 p.
Proof.
  unfold Crc.crc32, Gpt.Crc.crc32, Gpt.Crc.crc_byte, Crc.not32.
  assert (Crc.crc_init = Gpt.Crc.tab) as -> by (vm_compute; reflexivity).
  rewrite Z.lxor_0_l. reflexivity.
Qed.

(** ** Round trip *)
Lemma gz_header_plain d :
  zlen d >= 8 -> gz_header ([0x1f; 0x8b; 8; 0; 0; 0; 0; 0; 0; 3] ++ d) = Ret (Some 10).
Proof.
  intros Hd. unfold gz_header. rewrite zlen_app. change (zlen [_; _; _; _; _; _; _; _; _; _]) with 10.
  destruct (Z.ltb_spec (10 + zlen d) 18); [lia|].
  change (ld (_ ++ d) 0) with (Ret 31). change (ld (_ ++ d) 1) with (Ret 139).
  change (ld (_ ++ d) 2) with (Ret 8). change (ld (_ ++ d) 3) with (Ret 0).
  cbn [obind Z.eqb Pos.eqb andb negb]. rewrite !Z.land_0_l. cbn [obind Z.eqb]. rewrite Z.geb_leb. destruct (Z.leb_spec (10 + zlen d) 10); [lia|done].
Qed.

Lemma gz_round fuel fuel' x :
  bytes_ok x -> zlen x < 2 ^ 31 -> zlen x < Z.of_nat fuel ->
  exists z, gz_compress fuel x [] = Ret z /\ bytes_ok z
    /\ ((8 * length z <= fuel')%nat -> gz_decompress fuel' z [] = Ret (0, x)).
Proof.
  intros Hx Hs Hf. unfold gz_compress, bputmem. cbn [app].
  set (hdr := [0x1f; 0x8b; 8; 0; 0; 0; 0; 0; 0; 3]).
  assert (bytes_ok hdr) as Hh by cbytes.
  destruct (deflate_spec fuel x hdr Hx Hs Hf Hh) as (d & bs & n & pad & -> & Hd & Hbits & Hdec & Hn). cbn [obind].
  change [u8 ?a; u8 ?b; u8 ?c; u8 ?e; u8 ?f; u8 ?g; u8 ?h; u8 ?i] with (b_wr32 (Crc.crc32 0 x) ++ b_wr32 (zlen x)).
  set (tail := b_wr32 (Crc.crc32 0 x) ++ b_wr32 (zlen x)).
  assert (bytes_ok tail) as Ht by (apply Forall_app; split; apply b_wr32_bytes).
  assert (zlen tail = 8) as Hlt by done.
  exists ((hdr ++ d) ++ tail). split; [done|].
  split; [apply Forall_app; split; [apply Forall_app|]; done|]. intros Hf'.
  unfold gz_decompress. rewrite <- app_assoc, gz_header_plain.
  2: { rewrite zlen_app, Hlt. pose proof (zlen_nonneg d). lia. }
  cbn [obind]. change (Z.to_nat 10) with (length hdr). rewrite drop_app_length.
  rewrite (inflate_fixed_stream fuel' (d ++ tail) bs n (pad ++ bits_of tail) x); [|rewrite bits_of_app, Hbits, <- !app_assoc; done|done|].
  2: { apply (f_equal length) in Hbits. rewrite length_bits_of, !length_app in Hbits.
       rewrite !length_app in Hf'. cbn [length] in Hbits, Hf'. lia. }
  cbn [obind Z.ltb Z.compare].
  pose proof (gz_crc32_range 0 x ltac:(lia)) as Hr.
  rewrite app_assoc, zlen_app, Hlt. rewrite ld32le_ret by (pose proof (zlen_nonneg (hdr ++ d)); rewrite ?zlen_app, ?Hlt in *; lia).
  cbn [obind].
  rewrite (rd32_ext _ (b_wr32 (Crc.crc32 0 x)) _ 0).
  2: { intros i Hi. pose proof (zlen_nonneg (hdr ++ d)). rewrite at_app_r by lia.
       replace (zlen (hdr ++ d) + 8 - 8 + i - zlen (hdr ++ d)) with (0 + i) by lia. apply at_app_l.
       change (zlen (b_wr32 _)) with 4. lia. }
  rewrite rd32_b_wr32 by done. by rewrite Z.eqb_refl.
Qed.

(** ** The program *)
Lemma parse_file a o :
  a <> [] -> hd 0 a <> 45 -> zlen (o_files o) < 256 ->
  parse_arg a o = Ret (Some {| o_decompress := o_decompress o; o_tostdout := o_tostdout o;
                               o_keep := o_keep o; o_files := o_files o ++ [a] |}).
Proof.
  intros Hne Hd Hl. destruct a as [|c a]; [done|]. cbn in Hd. unfold parse_arg, add_file.
  destruct (Z.ltb_spec (zlen (o_files o)) 256); [|lia]. cbn [obind].
  destruct c as [|p|p]; try done. repeat (destruct p as [p|p|]; try done).
Qed.

Lemma out_name_gz f :
  zlen f <= 1020 -> out_name false f = f ++ str ".gz" /\ (f <> [] -> out_name true (f ++ str ".gz") = f).
Proof.
  intros Hf. assert (zlen (str ".gz") = 3) as E3 by done. unfold out_name, snprintf1024. split.
  - apply take_ge. rewrite length_app. unfold zlen in *. lia.
  - intros Hne. rewrite zlen_app, E3, Z.gtb_ltb.
    assert (0 < zlen f) by (destruct f; [done|rewrite zlen_cons; pose proof (zlen_nonneg f); lia]).
    destruct (Z.ltb_spec 3 (zlen f + 3)); [|lia].
    replace (zlen f + 3 - 3) with (zlen f) by lia. rewrite slice_app_r by lia. rewrite Z.sub_diag.
    rewrite bool_decide_true by done. cbn [andb].
    unfold zlen at 1. rewrite Nat2Z.id, take_app_length. apply take_ge. unfold zlen in *. lia.
Qed.

(** C25: gzip on a file writes name.gz and removes the file, and gunzip of that
    name writes back the same bytes under the same name and removes name.gz:
    the files are what they were, for any contents up to 2 GiB and any name
    that fits the buffer. *)
Theorem gzip_gunzip_restores writable fuel f x fs out stdin :
  (forall inp, (8 * length inp < fuel inp)%nat) ->
  writable f = true -> writable (f ++ str ".gz") = true ->
  f <> [] -> hd 0 f <> 45 -> zlen f <= 1020 ->
  bytes_ok x -> zlen x < 2 ^ 31 ->
  fs !! f = Some x -> fs !! (f ++ str ".gz") = None ->
  exists z,
    main writable fuel (str "gzip") [f] stdin {| w_fs := fs; w_stdout := out |}
    = Ret (0, {| w_fs := <[f ++ str ".gz" := z]> (delete f fs); w_stdout := out |})
    /\ main writable fuel (str "gunzip") [f ++ str ".gz"] stdin
         {| w_fs := <[f ++ str ".gz" := z]> (delete f fs); w_stdout := out |}
       = Ret (0, {| w_fs := fs; w_stdout := out |}).
Proof.
  intros Hfuel Hwf Hwz Hne Hd Hl Hx Hs Hf Hz.
  assert (f <> f ++ str ".gz") as Hne'.
  { intros E. apply (f_equal length) in E. rewrite length_app in E. change (length (str ".gz")) with 3%nat in E. lia. }
  pose proof (Hfuel x) as Hfx.
  destruct (gz_round (fuel x) (fuel x) x Hx Hs) as (z & Ez & Hzb & _); [unfold zlen; lia|].
  destruct (gz_round (fuel x) (fuel z) x Hx Hs) as (z' & Ez' & _ & Hround); [unfold zlen; lia|].
  assert (z' = z) as -> by congruence. exists z. split.
  - unfold main. cbn [parse_args]. rewrite parse_file by done. cbn [obind].
    cbn [o_files initial app all_files]. unfold one_file. cbn [w_fs]. rewrite Hf. unfold convert.
    cbn [o_decompress initial]. replace (bool_decide _ || bool_decide _) with false by (vm_compute; reflexivity).
    rewrite Ez. cbn [obind o_tostdout initial]. replace (bool_decide _) with false by (vm_compute; reflexivity).
    rewrite (proj1 (out_name_gz f Hl)), Hwz. cbn [o_keep initial obind w_stdout].
    rewrite delete_insert_ne by done. done.
  - unfold main. cbn [parse_args]. rewrite parse_file; [|by destruct f|by destruct f|done]. cbn [obind].
    cbn [o_files initial app all_files]. unfold one_file. cbn [w_fs]. rewrite lookup_insert_eq. unfold convert.
    cbn [o_decompress initial]. replace (bool_decide _ || bool_decide _) with true by (vm_compute; reflexivity).
    rewrite Hround by (pose proof (Hfuel z); lia). cbn [obind o_tostdout initial Z.ltb Z.compare].
    replace (bool_decide _) with false by (vm_compute; reflexivity).
    rewrite (proj2 (out_name_gz f Hl)), Hwf by done. cbn [o_keep initial obind w_stdout].
    rewrite delete_insert_ne, delete_insert_id, insert_delete_id; try done.
    by rewrite lookup_delete_ne.
Qed.

Lemma gzip_gunzip_restores_witness :
  let fs : gmap (list Z) (list Z) := {[ str "notes" := str "abcabcabcabcabc"; str "x" := [] ]} in
  exists z,
    main (fun _ => true) (fun inp => S (8 * length inp)) (str "gzip") [str "notes"] [] {| w_fs := fs; w_stdout := [] |}
    = Ret (0, {| w_fs := <[str "notes" ++ str ".gz" := z]> (delete (str "notes") fs); w_stdout := [] |})
    /\ main (fun _ => true) (fun inp => S (8 * length inp)) (str "gunzip") [str "notes" ++ str ".gz"] []
         {| w_fs := <[str "notes" ++ str ".gz" := z]> (delete (str "notes") fs); w_stdout := [] |}
       = Ret (0, {| w_fs := fs; w_stdout := [] |}).
Proof.
  intros fs. apply (gzip_gunzip_restores (fun _ => true) (fun inp => S (8 * length inp)) (str "notes") (str "abcabcabcabcabc") fs [] []).
  - intros inp. lia.
  - reflexivity.
  - reflexivity.
  - discriminate.
  - discriminate.
  - apply Z.leb_le. reflexivity.
  - cbytes.
  - apply Z.ltb_lt. reflexivity.
  - reflexivity.
  - reflexivity.
Defined.

(** What the options do besides: [-f], [-n] and [-q], which a later test
    accepts, are refused as letters of a combined option; and the names of more
    than 256 files are written past the array. *)
Lemma force_refused o : parse_arg (str "-f") o = Ret None /\ parse_arg (str "-q") o = Ret None.
Proof. done. Qed.
Lemma too_many_files o a : zlen (o_files o) >= 256 -> a <> [] -> hd 0 a <> 45 -> parse_arg a o = Fault.
Proof.
  intros Hl Hne Hd. destruct a as [|c a]; [done|]. cbn in Hd. unfold parse_arg, add_file.
  destruct (Z.ltb_spec (zlen (o_files o)) 256); [lia|]. cbn [obind].
  destruct c as [|p|p]; try done. repeat (destruct p as [p|p|]; try done).
Qed.

(** A path of exactly 1023 characters is its own output: the file is
    overwritten with the result and then removed. *)
Lemma long_name_lost writable fuel f x o fs out w :
  zlen f = 1023 -> fs !! f = Some x -> writable f = true ->
  o_decompress o = false -> o_tostdout o = false -> o_keep o = false ->
  one_file writable fuel o f {| w_fs := fs; w_stdout := out |} = Ret (0, w) ->
  w_fs w = delete f fs.
Proof.
  intros Hl Hf Hw Hd Ho Hk. unfold one_file. cbn [w_fs]. rewrite Hf, Hd, Ho, Hk. intros H. run H.
  assert (out_name false f = f) as E1.
  { unfold out_name, snprintf1024. apply take_app_length'. unfold zlen in Hl. lia. }
  rewrite E1, Hw in H. destruct r; [|done]. injection H as <-. cbn. apply delete_insert_eq.
Qed.
