(* ===== verification/GzipSafe.v ===== *)
(** * gunzip on input nobody encoded

    Tables built from any lengths a block may carry hold a symbol for every
    code they accept; the decoder of a block then neither faults nor runs on;
    the whole decoder terminates.  And where it does write outside its tables:
    a header of a dynamic block that the input cuts short. *)
From S2P Require Import Prelude Bytes Gzip GzipRun.
Import Gzip.Inflate Gzip.Container.

(** ** Counting code lengths *)
Fixpoint occ (lens : list Z) (i : nat) (l : Z) : Z :=
  match i with
  | O => 0
  | S i => occ lens i l + (if Z.eqb (at_ lens (Z.of_nat i)) l then 1 else 0)
  end.

(** The sum of [f] over 1, ..., n. *)
Fixpoint psum (f : Z -> Z) (n : nat) : Z :=
  match n with O => 0 | S n => psum f n + f (Z.of_nat (S n)) end.

Lemma occ_range lens i l : 0 <= occ lens i l <= Z.of_nat i.
Proof. induction i; cbn [occ]; [lia|]. destruct (Z.eqb_spec (at_ lens (Z.of_nat i)) l); lia. Qed.
Lemma occ_le lens i n l : (i <= n)%nat -> occ lens i l <= occ lens n l.
Proof.
  induction 1 as [|n Hn IH]; [done|]. cbn [occ]. destruct (Z.eqb_spec (at_ lens (Z.of_nat n)) l); lia.
Qed.
Lemma psum_ext f g n : (forall l, 1 <= l <= Z.of_nat n -> f l = g l) -> psum f n = psum g n.
Proof. induction n as [|n IH]; intros H; cbn [psum]; [done|]. rewrite IH, H; try lia. intros; apply H; lia. Qed.
Lemma psum_mono f m n :
  (forall l, 1 <= l -> 0 <= f l) -> (m <= n)%nat -> psum f m <= psum f n.
Proof. intros Hf. induction 1 as [|n Hn IH]; [done|]. cbn [psum]. specialize (Hf (Z.of_nat (S n))). lia. Qed.
Lemma psum_add f g n : psum (fun l => f l + g l) n = psum f n + psum g n.
Proof. induction n as [|n IH]; cbn [psum]; [done|]. rewrite IH. lia. Qed.
Lemma psum_indicator x n : 0 <= psum (fun l => if Z.eqb x l then 1 else 0) n <= 1
  /\ (Z.of_nat n < x -> psum (fun l => if Z.eqb x l then 1 else 0) n = 0).
Proof.
  induction n as [|n [IH1 IH2]]; cbn [psum]; [lia|].
  destruct (Z.eqb_spec x (Z.of_nat (S n))); [rewrite IH2 by lia; lia|lia].
Qed.
Lemma psum_occ lens i n : psum (occ lens i) n <= Z.of_nat i.
Proof.
  induction i as [|i IH].
  - induction n as [|n IHn]; cbn [psum occ] in *; lia.
  - change (occ lens (S i)) with (fun l => occ lens i l + (if Z.eqb (at_ lens (Z.of_nat i)) l then 1 else 0)).
    rewrite psum_add. pose proof (psum_indicator (at_ lens (Z.of_nat i)) n). lia.
Qed.

(** ** Tables *)

(** The indices up to the number of codes hold symbols below [n]. *)
Definition huff_ok (h : huff) (n : Z) : Prop :=
  zlen (h_count h) = 16
  /\ (forall l, 1 <= l -> 0 <= at_ (h_count h) l)
  /\ (forall k, 0 <= k < psum (at_ (h_count h)) 15 -> exists s, h_sym h !! k = Some s /\ 0 <= s < n).

Lemma st_ret b i v : 0 <= i < zlen b -> st b i v = Ret (<[Z.to_nat i := v]> b).
Proof. intros. unfold st. destruct (Z.leb_spec 0 i), (Z.ltb_spec i (zlen b)); done || lia. Qed.
Lemma zlen_st b i (v : Z) : zlen (<[i := v]> b) = zlen b.
Proof. unfold zlen. by rewrite length_insert. Qed.
Lemma at_st b i j v :
  0 <= i < zlen b -> 0 <= j -> at_ (<[Z.to_nat i := v]> b) j = if Z.eqb i j then v else at_ b j.
Proof.
  intros Hi Hj. unfold at_, zlen in *. rewrite !nth_lookup. destruct (Z.eqb_spec i j) as [->|Hne].
  - rewrite list_lookup_insert_eq by lia. done.
  - rewrite list_lookup_insert_ne by lia. done.
Qed.

Section build.
Context (lens : list Z) (n : nat).
Context (Hn : Z.of_nat n <= 288) (Hlen : Z.of_nat n <= zlen lens).
Context (Hl : forall i, 0 <= i < Z.of_nat n -> 0 <= at_ lens i <= 15).

Lemma count_loop_spec k i count :
  (i + k = n)%nat -> zlen count = 16 -> (forall l, 0 <= l <= 15 -> at_ count l = occ lens i l) ->
  exists count', count_loop k lens (Z.of_nat i) count = Ret count' /\ zlen count' = 16
    /\ forall l, 0 <= l <= 15 -> at_ count' l = occ lens n l.
Proof using Hn Hlen Hl.
  revert i count. induction k as [|k IH]; intros i count Hik Hc Hocc; cbn [count_loop].
  { exists count. replace n with i by lia. done. }
  pose proof (Hl (Z.of_nat i) ltac:(lia)) as Hi. pose proof (occ_range lens i (at_ lens (Z.of_nat i))).
  rewrite ld_ret by lia. cbn [obind]. rewrite ld_ret by lia. cbn [obind]. rewrite st_ret by lia. cbn [obind].
  rewrite Hocc, uwrap_small by lia. replace (Z.of_nat i + 1) with (Z.of_nat (S i)) by lia.
  apply IH; [lia|by rewrite zlen_st|]. intros l Hl'. rewrite at_st by lia. cbn [occ].
  destruct (Z.eqb_spec (at_ lens (Z.of_nat i)) l) as [->|]; rewrite ?Hocc by lia; lia.
Qed.

Lemma offs_loop_spec k i count (offs : gmap Z Z) :
  (i + k = 15)%nat -> (1 <= i)%nat -> zlen count = 16 ->
  (forall l, 1 <= l <= 15 -> at_ count l = occ lens n l) ->
  (forall l, 1 <= l <= Z.of_nat i -> offs !! l = Some (psum (occ lens n) (Z.to_nat (l - 1)))) ->
  exists offs', offs_loop k count (Z.of_nat i) offs = Ret offs'
    /\ forall l, 1 <= l <= 15 -> offs' !! l = Some (psum (occ lens n) (Z.to_nat (l - 1))).
Proof using Hn.
  revert i offs. induction k as [|k IH]; intros i offs Hik Hi Hc Hocc Ho; cbn [offs_loop].
  { exists offs. replace 15 with (Z.of_nat i) by lia. done. }
  unfold cell. rewrite Ho by lia. cbn [obind]. rewrite ld_ret by lia. cbn [obind].
  replace (Z.of_nat i + 1) with (Z.of_nat (S i)) by lia. apply IH; try done; [lia|lia|].
  intros l Hl'. rewrite Hocc by lia.
  assert (psum (occ lens n) (Z.to_nat (Z.of_nat i - 1)) + occ lens n (Z.of_nat i) = psum (occ lens n) i) as E.
  { destruct i as [|i]; [lia|]. replace (Z.to_nat (Z.of_nat (S i) - 1)) with i by lia. done. }
  rewrite E. destruct (decide (l = Z.of_nat (S i))) as [->|].
  - rewrite lookup_insert_eq. f_equal. replace (Z.to_nat (Z.of_nat (S i) - 1)) with i by lia.
    apply uwrap_small. pose proof (psum_occ lens n i).
    pose proof (psum_mono (occ lens n) 0 i). cbn [psum] in *.
    pose proof (fun l (H : 1 <= l) => proj1 (occ_range lens n l)). split; [|lia].
    apply H0; [done|lia].
  - rewrite lookup_insert_ne by lia. apply Ho. lia.
Qed.

(** Where the codes of length [l] start. *)
Definition start (l : Z) : Z := psum (occ lens n) (Z.to_nat (l - 1)).

Lemma start_next l : 1 <= l -> start (l + 1) = start l + occ lens n l.
Proof.
  intros. unfold start. replace (Z.to_nat (l + 1 - 1)) with (S (Z.to_nat (l - 1))) by lia.
  cbn [psum]. do 2 f_equal. lia.
Qed.
Lemma start_range l : 1 <= l <= 16 -> 0 <= start l <= psum (occ lens n) 15.
Proof.
  intros. assert (forall l, 1 <= l -> 0 <= occ lens n l) as H0 by (intros; apply occ_range).
  split; [apply (psum_mono _ 0); [done|lia]|]. apply psum_mono; [done|lia].
Qed.

Definition filled (i : nat) (offs sym : gmap Z Z) : Prop :=
  (forall l, 1 <= l <= 15 -> offs !! l = Some (start l + occ lens i l))
  /\ (forall l k, 1 <= l <= 15 -> start l <= k < start l + occ lens i l ->
      exists s, sym !! k = Some s /\ 0 <= s < Z.of_nat n).

Lemma sym_loop_spec k i (offs sym : gmap Z Z) :
  (i + k = n)%nat -> filled i offs sym ->
  exists offs' sym', sym_loop k lens (Z.of_nat i) offs sym = Ret sym' /\ filled n offs' sym'.
Proof using Hn Hlen Hl.
  revert i offs sym. induction k as [|k IH]; intros i offs sym Hik [Ho Hs]; cbn [sym_loop].
  { exists offs, sym. replace n with i at 2 by lia. split; [done|]. by replace n with i by lia. }
  pose proof (Hl (Z.of_nat i) ltac:(lia)) as Hi. rewrite ld_ret by lia. cbn [obind].
  replace (Z.of_nat i + 1) with (Z.of_nat (S i)) by lia.
  set (l0 := at_ lens (Z.of_nat i)) in *.
  assert (forall l, occ lens (S i) l = occ lens i l + if Z.eqb l0 l then 1 else 0) as Eo by done.
  destruct (Z.eqb_spec l0 0) as [E0|E0].
  { apply IH; [lia|]. split.
    - intros l Hl'. rewrite Eo, Ho by done. f_equal. destruct (Z.eqb_spec l0 l); lia.
    - intros l q Hl' Hq. apply (Hs l); [done|]. rewrite Eo in Hq. destruct (Z.eqb_spec l0 l); lia. }
  unfold cell. rewrite Ho by lia. cbn [obind].
  pose proof (start_range (l0 + 1) ltac:(lia)) as Hr. rewrite start_next in Hr by lia.
  pose proof (start_range l0 ltac:(lia)). pose proof (psum_occ lens n 15).
  pose proof (occ_range lens i l0).
  assert (occ lens i l0 + 1 <= occ lens n l0) as Hlt.
  { pose proof (occ_le lens (S i) n l0 ltac:(lia)) as H'. rewrite Eo, Z.eqb_refl in H'. lia. }
  destruct (Z.ltb_spec (start l0 + occ lens i l0) 288); [|lia].
  apply IH; [lia|]. split.
  - intros l Hl'. rewrite Eo. destruct (Z.eqb_spec l0 l) as [<-|].
    + rewrite lookup_insert_eq. f_equal. rewrite uwrap_small by lia. lia.
    + rewrite lookup_insert_ne by done. rewrite Ho by done. f_equal. lia.
  - intros l q Hl' Hq. destruct (decide (q = start l0 + occ lens i l0)) as [->|Hne].
    + rewrite lookup_insert_eq. exists (Z.of_nat i). split; [done|lia].
    + rewrite lookup_insert_ne by done. apply (Hs l q Hl'). rewrite Eo in Hq.
      destruct (Z.eqb_spec l0 l) as [<-|]; lia.
Qed.

(** Every index below the total belongs to one length. *)
Lemma index_split m k : 0 <= k < psum (occ lens n) m ->
  exists l, 1 <= l <= Z.of_nat m /\ start l <= k < start l + occ lens n l.
Proof.
  induction m as [|m IH]; intros Hk; cbn [psum] in Hk; [lia|].
  destruct (decide (k < psum (occ lens n) m)) as [H|H].
  - destruct IH as (l & ? & ?); [lia|]. exists l. split; [lia|done].
  - exists (Z.of_nat (S m)). split; [lia|].
    assert (start (Z.of_nat (S m)) = psum (occ lens n) m) as -> by (unfold start; f_equal; lia). lia.
Qed.

Lemma huff_build_ok : exists h, huff_build lens (Z.of_nat n) = Ret h /\ huff_ok h (Z.of_nat n).
Proof using Hn Hlen Hl.
  unfold huff_build. rewrite Nat2Z.id.
  destruct (count_loop_spec n 0 (zeros 16)) as (c & E & Hc & Hocc); [done|done|intros; apply at_zeros|].
  change (Z.of_nat 0) with 0 in E. rewrite E. cbn [obind]. rewrite st_ret by lia. cbn [obind].
  set (count := <[Z.to_nat 0 := 0]> c).
  assert (forall l, 1 <= l <= 15 -> at_ count l = occ lens n l) as Hcount.
  { intros l Hl'. subst count. rewrite at_st by lia. destruct (Z.eqb_spec 0 l); [lia|]. apply Hocc. lia. }
  assert (zlen count = 16) as Hcl by (subst count; by rewrite zlen_st).
  destruct (offs_loop_spec 14 1 count {[1 := 0]}) as (offs & E2 & Hoffs); [lia|lia|done|done| |].
  { intros l Hl'. replace l with 1 by lia. by rewrite lookup_singleton_eq. }
  change (Z.of_nat 1) with 1 in E2. rewrite E2. cbn [obind].
  destruct (sym_loop_spec n 0 offs ∅) as (offs' & sym & E3 & _ & Hsym); [done| |].
  { split; [|intros l k _ Hk; cbn [occ] in Hk; lia]. intros l Hl'. cbn [occ]. rewrite Z.add_0_r. by apply Hoffs. }
  change (Z.of_nat 0) with 0 in E3. rewrite E3. cbn [obind]. eexists. split; [done|].
  split; [done|]. cbn [h_count h_sym]. split.
  - intros l Hl'. destruct (decide (l <= 15)); [rewrite Hcount by lia; apply occ_range|].
    unfold at_. rewrite nth_overflow; [lia|]. unfold zlen in Hcl. lia.
  - intros k Hk. rewrite (psum_ext _ (occ lens n)) in Hk by (intros; apply Hcount; lia).
    destruct (index_split 15 k Hk) as (l & Hl' & Hk'). by apply (Hsym l).
Qed.
End build.

(** ** Outcomes with a postcondition

    [post F P o]: [o] does not run out of fuel, what it returns satisfies [P],
    and it may fault only if [F]. *)
Definition post {A} (F : Prop) (P : A -> Prop) (o : outcome A) : Prop :=
  match o with Ret a => P a | Fault => F | Diverge => False end.

Lemma post_bind {A B} F (P : A -> Prop) (Q : B -> Prop) (m : outcome A) k :
  post F P m -> (forall a, P a -> post F Q (k a)) -> post F Q (obind m k).
Proof. destruct m; cbn; auto. Qed.
Lemma post_any {A} F (P : A -> Prop) m : post False P m -> post F P m.
Proof. by destruct m. Qed.
Lemma post_mono {A} F (P Q : A -> Prop) m : post F P m -> (forall a, P a -> Q a) -> post F Q m.
Proof. destruct m; cbn; auto. Qed.
Lemma post_ld F b i : F \/ 0 <= i < zlen b -> post F (fun v => v = at_ b i /\ 0 <= i < zlen b) (ld b i).
Proof.
  intros H. destruct (decide (0 <= i < zlen b)) as [Hi|Hi]; [by rewrite ld_ret|].
  rewrite ld_fault by done. destruct H; done.
Qed.
Lemma post_st F b i v : F \/ 0 <= i < zlen b -> post F (fun b' => zlen b' = zlen b) (st b i v).
Proof.
  intros H. unfold st. destruct (Z.leb_spec 0 i), (Z.ltb_spec i (zlen b)); cbn; try apply zlen_st.
  all: destruct H; [done|lia].
Qed.

(** The readers after [r]: the same data, no more bits. *)
Definition after (r r' : bitr) : Prop :=
  rwf r' /\ br_d r' = br_d r /\ (length (rbits r') <= length (rbits r))%nat.
Definition left_bits (r : bitr) : nat := length (rbits r).

Lemma after_refl r : rwf r -> after r r.
Proof. done. Qed.
Lemma after_trans r r1 r2 : after r r1 -> after r1 r2 -> after r r2.
Proof. intros (_ & ? & ?) (? & ? & ?). split; [done|]. split; [congruence|lia]. Qed.

Lemma getbit_post r : rwf r -> post False (fun '(b, r') => after r r' /\ -1 <= b <= 1
  /\ (0 <= b -> (left_bits r' < left_bits r)%nat)) (getbit r).
Proof.
  intros Hr. pose proof (getbit_spec r Hr) as H. unfold after, left_bits. destruct (rbits r) as [|b bs] eqn:E.
  - rewrite H. cbn. rewrite E. split; [done|lia].
  - destruct H as (r' & -> & ? & Hb & ?). cbn. rewrite Hb. cbn.
    split; [split; [done|split; [done|lia]]|]. destruct b; cbn; lia.
Qed.
Lemma getbits_post r n : rwf r -> 0 <= n ->
  post False (fun '(v, r') => after r r' /\ -1 <= v < 2 ^ n /\ (n = 0 -> v = 0)) (getbits r n).
Proof.
  intros Hr Hn. pose proof (getbits_spec r n Hr Hn) as H. assert (0 < 2 ^ n) by lia.
  case_decide as Hd; destruct H as (r' & -> & ? & Hb & ?); cbn; unfold after; rewrite Hb.
  - pose proof (bits_val_range (take (Z.to_nat n) (rbits r))) as Hv. rewrite length_take_le in Hv by done.
    rewrite Z2Nat.id in Hv by done. rewrite length_drop. split; [split; [done|split; [done|lia]]|].
    split; [lia|]. intros ->. done.
  - split; [split; [done|split; [done|cbn; lia]]|]. split; [lia|]. intros ->. cbn in Hd. lia.
Qed.

Lemma dec_post F h n k bs len code first index :
  F \/ (huff_ok h n /\ 0 <= n /\ first <= code 
      /\ index = psum (at_ (h_count h)) (Z.to_nat (len - 1))) ->
  len + Z.of_nat k = 16 -> 1 <= len -> Z.even code = true ->
  post F (fun '(s, bs') => (length bs' <= length bs)%nat /\ (0 <= s -> (length bs' < length bs)%nat)
    /\ (huff_ok h n -> ~ F -> s < n)) (dec k bs h len code first index).
Proof.
  revert bs len code first index. induction k as [|k IH]; intros bs len code first index Hh Hlen Hl He; cbn [dec].
  { cbn. split; [lia|]. split; [lia|]. intros ? ?. destruct Hh as [|(_ & ? & _)]; [done|lia]. }
  destruct bs as [|b bs].
  { cbn. split; [lia|]. split; [lia|]. intros ? ?. destruct Hh as [|(_ & ? & _)]; [done|lia]. }
  assert (Z.lor code (Z.b2z b) = code + Z.b2z b) as Eb.
  { apply Z.even_spec in He as [m ->]. rewrite Z.lor_comm.
    replace (2 * m) with (Z.shiftl m 1) by (rewrite Z.shiftl_mul_pow2 by lia; lia).
    rewrite lor_shiftl_add; [rewrite Z.shiftl_mul_pow2 by lia; lia|lia|destruct b; cbn; lia]. }
  rewrite Eb. assert (0 <= Z.b2z b <= 1) by (destruct b; cbn; lia).
  eapply post_bind.
  { apply (post_ld F). destruct Hh as [|((H16 & _) & _)]; [by left|right; lia]. }
  intros c (-> & Hrange). cbn beta.
  destruct (Z.ltb_spec (code + Z.b2z b - first) (at_ (h_count h) len)) as [Hlt|Hge].
  - eapply (post_bind F (fun s => huff_ok h n -> ~ F -> s < n)).
    + unfold cell. destruct Hh as [HF|((H16 & Hpos & Hsym) & Hn & Hfc & ->)].
      { destruct (h_sym h !! _); cbn; tauto. }
      assert (psum (at_ (h_count h)) (Z.to_nat len)
              = psum (at_ (h_count h)) (Z.to_nat (len - 1)) + at_ (h_count h) len) as Ep.
      { replace (Z.to_nat len) with (S (Z.to_nat (len - 1))) by lia. cbn [psum]. do 2 f_equal. lia. }
      pose proof (psum_mono _ (Z.to_nat len) 15 Hpos ltac:(lia)).
      pose proof (psum_mono _ 0 (Z.to_nat (len - 1)) Hpos ltac:(lia)) as Hp0. cbn [psum] in Hp0.
      destruct (Hsym (psum (at_ (h_count h)) (Z.to_nat (len - 1)) + (code + Z.b2z b - first))) as (s & -> & Hs); [lia|].
      cbn. lia.
    + intros s Hs. cbn. split; [lia|]. split; [lia|done].
  - eapply post_mono; [apply IH; try lia|].
    + destruct Hh as [|(Hok & Hn & Hfc & ->)]; [by left|right]. pose proof (proj1 (proj2 Hok) len Hl).
      split; [done|]. split; [done|]. rewrite !Z.shiftl_mul_pow2 by lia. change (2 ^ 1) with 2. split; [lia|].
      replace (Z.to_nat (len + 1 - 1)) with (S (Z.to_nat (len - 1))) by lia. cbn [psum]. do 2 f_equal. lia.
    + rewrite Z.shiftl_mul_pow2 by lia. rewrite Z.even_mul. apply orb_true_r.
    + intros [s bs'] (? & ? & ?). cbn [length]. split; [lia|]. split; [lia|done].
Qed.

Lemma huff_decode_post F h n r :
  rwf r -> F \/ (huff_ok h n /\ 0 <= n) ->
  post F (fun '(s, r') => after r r' /\ (0 <= s -> (left_bits r' < left_bits r)%nat)
    /\ (huff_ok h n -> ~ F -> s < n)) (huff_decode r h).
Proof.
  intros Hr Hh. pose proof (decode_sim 15 r h 1 0 0 0 Hr) as Hs.
  assert (post F (fun '(s, bs') => (length bs' <= length (rbits r))%nat
    /\ (0 <= s -> (length bs' < length (rbits r))%nat) /\ (huff_ok h n -> ~ F -> s < n))
    (dec 15 (rbits r) h 1 0 0 0)) as Hd.
  { apply dec_post; [|lia|lia|done]. destruct Hh as [|[]]; [by left|right].
    split; [done|]. split; [done|]. split; [lia|done]. }
  unfold huff_decode, after, left_bits. destruct (dec 15 (rbits r) h 1 0 0 0) as [[s bs]| |]; cbn in Hd.
  - destruct Hs as (r' & -> & ? & Hb & ?). cbn. rewrite Hb. destruct Hd as (? & ? & ?).
    split; [done|]. split; done.
  - by rewrite Hs.
  - done.
Qed.

(** ** Blocks *)
Lemma copy_back_post F k dist out :
  1 <= dist <= zlen out -> post F (fun out' => out `prefix_of` out') (copy_back k dist out).
Proof.
  revert out. induction k as [|k IH]; intros out Hd; cbn [copy_back]; [cbn; done|].
  rewrite ld_ret by lia. cbn [obind]. eapply post_mono; [apply IH|].
  - unfold bput. rewrite zlen_app. change (zlen [_]) with 1. lia.
  - intros out' H. transitivity (bput out (at_ out (zlen out - dist))); [apply prefix_app_r; done|done].
Qed.

Lemma extra_ok s : 0 <= s < 30 ->
  (1 <= at_ dist_base s /\ 0 <= at_ dist_extra s <= 13 /\ at_ dist_base s < 2 ^ 15)
  /\ (at_ dist_extra s = 0 \/ 2 <= at_ dist_base s).
Proof.
  intros Hs. pose proof (forallb_upto (fun s => (1 <=? at_ dist_base s) && (0 <=? at_ dist_extra s)
    && (at_ dist_extra s <=? 13) && (at_ dist_base s <? 2 ^ 15)
    && ((at_ dist_extra s =? 0) || (2 <=? at_ dist_base s))) 0 30 s) as H.
  rewrite !andb_true_iff, orb_true_iff, !Z.leb_le, !Z.ltb_lt, Z.eqb_eq in H.
  destruct H as ((((? & ?) & ?) & ?) & ?); [vm_compute; reflexivity|lia|]. tauto.
Qed.
Lemma len_extra_ok s : 0 <= s < 29 -> 0 <= at_ len_extra s.
Proof.
  intros Hs. pose proof (forallb_upto (fun s => 0 <=? at_ len_extra s) 0 29 s) as H. rewrite Z.leb_le in H.
  apply H; [vm_compute; reflexivity|lia].
Qed.

Definition step_post (r : bitr) (out : list Z) : option Z * bitr * list Z -> Prop :=
  fun '(res, r', out') => after r r' /\ out `prefix_of` out'
    /\ match res with None => (left_bits r' < left_bits r)%nat | Some rc => rc = 0 \/ rc = -1 end.

Lemma block_step_post F lh dh nl nd r out :
  rwf r -> F \/ (huff_ok lh nl /\ 0 <= nl /\ huff_ok dh nd /\ 0 <= nd) ->
  post F (step_post r out) (block_step r lh dh out).
Proof.
  intros Hr Hh. unfold block_step.
  eapply post_bind; [apply (huff_decode_post F lh nl r Hr); tauto|]. intros [sym r1] (H1 & Hlt & _).
  pose proof (proj1 H1) as Hr1.
  assert (forall out' rc, out `prefix_of` out' -> rc = 0 \/ rc = -1 -> step_post r out (Some rc, r1, out'))
    as Hstop by (intros; split; [done|split; done]).
  destruct (Z.ltb_spec sym 0); [apply Hstop; auto|]. specialize (Hlt ltac:(done)).
  destruct (Z.eqb_spec sym 256); [apply Hstop; auto|].
  destruct (Z.ltb_spec sym 256).
  { cbn. split; [done|]. split; [by apply prefix_app_r|done]. }
  rewrite Z.geb_leb. destruct (Z.leb_spec 29 (sym - 257)); [apply Hstop; auto|].
  rewrite !ld_ret by (change (zlen _) with 29; lia). cbn [obind].
  pose proof (len_extra_ok (sym - 257) ltac:(lia)).
  eapply post_bind; [apply post_any, getbits_post; done|]. intros [lx r2] (Ha3 & Hlx & _).
  pose proof (proj1 Ha3) as Hr2. assert (after r r2) as H13 by (by eapply after_trans).
  eapply post_bind; [apply (huff_decode_post F dh nd r2 Hr2); tauto|]. intros [dsym r3] (Ha4 & _ & _).
  pose proof (proj1 Ha4) as Hr3. assert (after r r3) as H14 by (by eapply after_trans).
  rewrite Z.geb_leb. destruct (Z.ltb_spec dsym 0), (Z.leb_spec 30 dsym); cbn [orb]; try (split; [done|split; auto]).
  rewrite !ld_ret by (change (zlen _) with 30; lia). cbn [obind].
  destruct (extra_ok dsym ltac:(lia)) as [(? & ? & ?) Hdz].
  eapply post_bind; [apply post_any, getbits_post; [done|lia]|]. intros [dx r4] (Ha5 & Hdx & Hdx0).
  assert (after r r4) as H15 by (by eapply after_trans).
  assert (2 ^ at_ dist_extra dsym <= 2 ^ 13) by (apply Z.pow_le_mono_r; lia).
  assert (1 <= at_ dist_base dsym + dx < 2 ^ 16) by lia.
  rewrite uwrap_small, Z.gtb_ltb by lia. destruct (Z.ltb_spec (zlen out) (at_ dist_base dsym + dx)).
  { split; [done|split; auto]. }
  eapply post_bind; [apply copy_back_post; lia|]. intros out' Hp. cbn. split; [done|]. split; [done|].
  unfold left_bits in *. destruct Ha3 as (_ & _ & ?), Ha4 as (_ & _ & ?), Ha5 as (_ & _ & ?). lia.
Qed.

Definition rc_ok (rc : Z) : Prop := rc = 0 \/ rc = -1.

Lemma inflate_block_post F lh dh nl nd fuel r out :
  rwf r -> (left_bits r < fuel)%nat -> F \/ (huff_ok lh nl /\ 0 <= nl /\ huff_ok dh nd /\ 0 <= nd) ->
  post F (fun '(rc, r', out') => after r r' /\ out `prefix_of` out' /\ rc_ok rc)
    (inflate_block fuel r lh dh out).
Proof.
  intros Hr Hf Hh. revert r out Hr Hf. induction fuel as [|fuel IH]; intros r out Hr Hf; cbn [inflate_block]; [lia|].
  eapply post_bind; [by eapply block_step_post|]. intros [[res r1] out1] (H1 & Hp & Hres).
  destruct res as [rc|]; [done|].
  eapply post_mono; [apply IH; [apply H1|lia]|]. intros [[rc r2] out2] (H2 & Hp2 & Hrc).
  split; [by eapply after_trans|]. split; [by transitivity out1|done].
Qed.

(** C26: a block of compressed data cannot make the decoder leave its tables or
    its output: for tables built from any code lengths up to 15, incomplete or
    claiming more codes than there are, any bits and any output so far,
    inflate_block returns 0 or -1 within as many rounds as there are bits, and
    only appends to the output. *)
Theorem inflate_block_safe llens dlens (nl nd : nat) :
  Z.of_nat nl <= 288 -> Z.of_nat nd <= 288 -> Z.of_nat nl <= zlen llens -> Z.of_nat nd <= zlen dlens ->
  (forall i, 0 <= i < Z.of_nat nl -> 0 <= at_ llens i <= 15) ->
  (forall i, 0 <= i < Z.of_nat nd -> 0 <= at_ dlens i <= 15) ->
  exists lh dh, huff_build llens (Z.of_nat nl) = Ret lh /\ huff_build dlens (Z.of_nat nd) = Ret dh
    /\ forall r out fuel, rwf r -> (length (rbits r) < fuel)%nat ->
       exists rc r' out', inflate_block fuel r lh dh out = Ret (rc, r', out')
         /\ (rc = 0 \/ rc = -1) /\ out `prefix_of` out'.
Proof.
  intros Hnl Hnd Hzl Hzd Hl Hd.
  destruct (huff_build_ok llens nl Hnl Hzl Hl) as (lh & El & Hlok).
  destruct (huff_build_ok dlens nd Hnd Hzd Hd) as (dh & Ed & Hdok).
  exists lh, dh. split; [done|]. split; [done|]. intros r out fuel Hr Hf.
  assert (False \/ (huff_ok lh (Z.of_nat nl) /\ 0 <= Z.of_nat nl /\ huff_ok dh (Z.of_nat nd) /\ 0 <= Z.of_nat nd))
    as Hok by (right; split; [done|split; [lia|split; [done|lia]]]).
  pose proof (inflate_block_post False lh dh _ _ fuel r out Hr Hf Hok) as H.
  destruct (inflate_block fuel r lh dh out) as [[[rc r'] out']| |]; [|done..].
  destruct H as (_ & Hp & Hrc). eauto 6.
Qed.

Lemma inflate_block_safe_witness :
  exists lh dh, huff_build [1; 1; 1; 2] (Z.of_nat 4) = Ret lh /\ huff_build [1] (Z.of_nat 1) = Ret dh
    /\ forall r out fuel, rwf r -> (length (rbits r) < fuel)%nat ->
       exists rc r' out', inflate_block fuel r lh dh out = Ret (rc, r', out')
         /\ (rc = 0 \/ rc = -1) /\ out `prefix_of` out'.
Proof.
  apply (inflate_block_safe [1; 1; 1; 2] [1] 4 1).
  - apply Z.leb_le. reflexivity.
  - apply Z.leb_le. reflexivity.
  - apply Z.leb_le. reflexivity.
  - apply Z.leb_le. reflexivity.
  - intros i Hi. assert (i = 0 \/ i = 1 \/ i = 2 \/ i = 3) as [->|[->|[->| ->]]] by lia; cbv; split; discriminate.
  - intros i Hi. assert (i = 0) as -> by lia. cbv; split; discriminate.
Defined.

(** ** Termination on any input *)
Abbreviation returns := (post True (fun _ => True)).

Lemma returns_bind {A B} (m : outcome A) (k : A -> outcome B) :
  returns m -> (forall a, returns (k a)) -> returns (obind m k).
Proof. destruct m; cbn; auto. Qed.
Lemma returns_ld b i : returns (ld b i).
Proof. unfold ld. repeat case_match; done. Qed.
Lemma returns_st b i v : returns (st b i v).
Proof. unfold st. case_match; done. Qed.
Lemma returns_cell g i : returns (cell g i).
Proof. unfold cell. case_match; done. Qed.
Lemma returns_ret {A} (a : A) : returns (Ret a).
Proof. done. Qed.
Create HintDb returns.
#[local] Hint Resolve returns_ret returns_bind returns_ld returns_st returns_cell : returns.

Lemma returns_count k lens i count : returns (count_loop k lens i count).
Proof. revert i count. induction k; intros; cbn [count_loop]; [done|]. auto 10 with returns. Qed.
Lemma returns_offs k count i offs : returns (offs_loop k count i offs).
Proof. revert i offs. induction k; intros; cbn [offs_loop]; [done|]. auto 10 with returns. Qed.
Lemma returns_sym k lens i offs sym : returns (sym_loop k lens i offs sym).
Proof.
  revert i offs sym. induction k; intros; cbn [sym_loop]; [done|].
  apply returns_bind; [apply returns_ld|]. intros l. destruct (l =? 0); [done|].
  apply returns_bind; [apply returns_cell|]. intros o. by destruct (o <? 288).
Qed.
Lemma returns_build lens n : returns (huff_build lens n).
Proof.
  unfold huff_build. apply returns_bind; [apply returns_count|]. intros c.
  apply returns_bind; [apply returns_st|]. intros c'. apply returns_bind; [apply returns_offs|]. intros o.
  apply returns_bind; [apply returns_sym|done].
Qed.
Lemma returns_rep k i total v lens : returns (rep_loop k i total v lens).
Proof.
  revert i lens. induction k; intros; cbn [rep_loop]; [done|]. destruct (i <? total); [|done].
  apply returns_bind; [apply returns_st|done].
Qed.

Lemma cl_loop_post k i r cl : rwf r -> post True (fun '(r', _) => after r r') (cl_loop k i r cl).
Proof.
  revert i r cl. induction k as [|k IH]; intros i r cl Hr; cbn [cl_loop]; [done|].
  eapply post_bind; [apply returns_ld|]. intros o _.
  eapply post_bind; [apply post_any, getbits_post; [done|lia]|]. intros [v r1] (H1 & _).
  eapply post_bind; [apply returns_st|]. intros cl' _.
  eapply post_mono; [apply IH, H1|]. intros [r2 cl2] H2. by eapply after_trans.
Qed.

Lemma lens_loop_post fuel i total ch r lens :
  rwf r -> (left_bits r < fuel)%nat ->
  post True (fun res => match res with Some (r', _) => after r r' | None => True end)
    (lens_loop fuel i total ch r lens).
Proof.
  revert i r lens. induction fuel as [|fuel IH]; intros i r lens Hr Hf; cbn [lens_loop]; [lia|].
  destruct (i <? total); [|done].
  eapply post_bind; [apply (huff_decode_post True ch 0 r Hr); by left|]. intros [s r1] (H1 & Hlt & _).
  destruct (Z.ltb_spec s 0); [done|]. specialize (Hlt ltac:(done)).
  assert (forall r2 i lens, after r1 r2 -> post True (fun res => match res with Some (r', _) => after r r' | None => True end)
    (lens_loop fuel i total ch r2 lens)) as Hgo.
  { intros r2 i' lens' H2. eapply post_mono; [apply IH; [apply H2|]|].
    - destruct H2 as (_ & _ & ?). unfold left_bits in *. lia.
    - intros [[r3 l3]|]; [|done]. intros H3. eapply after_trans; [exact H1|]. by eapply after_trans. }
  assert (forall v n d, 0 <= n -> post True (fun res => match res with Some (r', _) => after r r' | None => True end)
    (let! (x, r) := getbits r1 n in
     let! (i, lens) := rep_loop (Z.to_nat (x + d)) i total v lens in lens_loop fuel i total ch r lens)) as Hrep.
  { intros v n d Hn. eapply post_bind; [apply post_any, getbits_post; [apply H1|done]|]. intros [x r2] (H2 & _).
    eapply post_bind; [apply returns_rep|]. intros [i' l'] _. by apply Hgo. }
  destruct (s <? 16).
  { eapply post_bind; [apply returns_st|]. intros l' _. apply Hgo, after_refl, H1. }
  destruct (s =? 16); [|destruct (s =? 17); by apply Hrep].
  eapply post_bind; [apply post_any, getbits_post; [apply H1|lia]|]. intros [x r2] (H2 & _).
  destruct (i =? 0); [done|]. eapply post_bind; [apply returns_ld|]. intros prev _.
  eapply post_bind; [apply returns_rep|]. intros [i' l'] _. by apply Hgo.
Qed.

Definition block_post (r : bitr) : Z * bitr * list Z -> Prop := fun '(_, r', _) => after r r'.

Lemma inflate_stored_post r out : bytes_ok (br_d r) -> rwf r -> post True (block_post r) (inflate_stored r out).
Proof.
  intros Hb [Hpos Hc]. unfold inflate_stored. cbn [br_pos br_d br_buf].
  assert (forall p c, br_pos r <= p <= zlen (br_d r) ->
    after r {| br_d := br_d r; br_pos := p; br_buf := c; br_cnt := 0 |}) as Haft.
  { intros p c Hp. split; [split; cbn; lia|]. split; [done|]. unfold rbits. cbn [br_cnt br_buf br_pos br_d].
    rewrite !length_app, !length_bits_of, !length_drop, !length_val_bits. cbn. lia. }
  rewrite !Z.gtb_ltb.
  destruct (Z.ltb_spec (zlen (br_d r)) (br_pos r + 4)); [apply Haft; lia|].
  rewrite !ld_ret by lia. cbn [obind].
  pose proof (at_byte _ (br_pos r) Hb) as Hb0. pose proof (at_byte _ (br_pos r + 1) Hb) as Hb1.
  unfold is_byte in *. rewrite lor_shiftl_add by lia. rewrite Z.gtb_ltb.
  destruct (Z.ltb_spec (zlen (br_d r)) (br_pos r + 4 + (at_ (br_d r) (br_pos r) + at_ (br_d r) (br_pos r + 1) * 2 ^ 8)));
    apply Haft; lia.
Qed.

Lemma inflate_fixed_post fuel r out :
  rwf r -> (left_bits r < fuel)%nat -> post True (block_post r) (inflate_fixed fuel r out).
Proof.
  intros Hr Hf. unfold inflate_fixed.
  eapply post_bind; [apply returns_build|]. intros lh _. eapply post_bind; [apply returns_build|]. intros dh _.
  eapply post_mono; [apply (inflate_block_post True lh dh 0 0 fuel r out Hr Hf); by left|].
  intros [[rc r'] out'] (H & _). exact H.
Qed.

Lemma inflate_dynamic_post fuel r out :
  rwf r -> (left_bits r < fuel)%nat -> post True (block_post r) (inflate_dynamic fuel r out).
Proof.
  intros Hr Hf. unfold inflate_dynamic.
  eapply post_bind; [apply post_any, getbits_post; [done|lia]|]. intros [a r1] (H1 & _).
  eapply post_bind; [apply post_any, getbits_post; [apply H1|lia]|]. intros [b r2] (H2 & _).
  eapply post_bind; [apply post_any, getbits_post; [apply H2|lia]|]. intros [c r3] (H3 & _).
  eapply post_bind; [apply cl_loop_post, H3|]. intros [r4 cl] H4.
  assert (after r r4) as H04 by (do 3 (eapply after_trans; [eassumption|]); done).
  eapply post_bind; [apply returns_build|]. intros ch _.
  eapply post_bind; [apply (lens_loop_post fuel); [apply H4|]|].
  { destruct H04 as (_ & _ & ?). unfold left_bits in *. lia. }
  intros [[r5 lens]|] H5; [|exact H04]. assert (after r r5) as H05 by (by eapply after_trans).
  eapply post_bind; [apply returns_build|]. intros lh _. eapply post_bind; [apply returns_build|]. intros dh _.
  eapply post_mono; [apply (inflate_block_post True lh dh 0 0 fuel r5); [apply H5| |by left]|].
  { destruct H05 as (_ & _ & ?). unfold left_bits in *. lia. }
  intros [[rc r'] out'] (H & _). by eapply after_trans.
Qed.

Lemma inflate_step_post fuel r out :
  bytes_ok (br_d r) -> rwf r -> (left_bits r < fuel)%nat ->
  post True (fun '(res, r', _) => after r r' /\ (res = None -> (left_bits r' < left_bits r)%nat))
    (inflate_step fuel r out).
Proof.
  intros Hb Hr Hf. unfold inflate_step.
  eapply post_bind; [apply post_any, getbit_post, Hr|]. intros [final r1] (H1 & _ & Hlt).
  destruct (Z.ltb_spec final 0); [done|]. specialize (Hlt ltac:(done)).
  eapply post_bind; [apply post_any, getbits_post; [apply H1|lia]|]. intros [type r2] (H2 & _).
  assert (after r r2) as H02 by (by eapply after_trans).
  destruct (type <? 0); [done|]. destruct (type >? 2); [done|].
  assert (left_bits r2 < left_bits r)%nat as Hlt2 by (destruct H2 as (_ & _ & ?); unfold left_bits in *; lia).
  assert (rwf r2) as Hr2 by apply H2. assert (br_d r2 = br_d r) as Hd2 by apply H02.
  eapply (post_bind True (block_post r2)).
  { destruct (type =? 0); [apply inflate_stored_post; [by rewrite Hd2|done]|].
    destruct (type =? 1); [apply inflate_fixed_post; [done|lia]|apply inflate_dynamic_post; [done|lia]]. }
  intros [[rc r3] out3] H3. cbn in H3. assert (after r r3) as H03 by (by eapply after_trans).
  assert (left_bits r3 < left_bits r)%nat by (destruct H3 as (_ & _ & ?); unfold left_bits in *; lia).
  destruct (rc <? 0); [done|]. by destruct (final =? 0).
Qed.

Lemma inflate_loop_returns fuel fuel' r out :
  bytes_ok (br_d r) -> rwf r -> (left_bits r < fuel)%nat -> (left_bits r < fuel')%nat ->
  returns (inflate_loop fuel fuel' r out).
Proof.
  intros Hb. revert r out Hb. induction fuel' as [|fuel' IH]; intros r out Hb Hr Hf Hf'; cbn [inflate_loop]; [lia|].
  eapply post_bind; [by apply inflate_step_post|]. intros [[res r1] out1] (H1 & Hlt).
  destruct res as [rc|]; [done|]. specialize (Hlt eq_refl). destruct H1 as (? & Hd & ?).
  apply IH; [by rewrite Hd|done|lia|lia].
Qed.

Lemma skip_name_post k inp p :
  0 <= p -> (0 < k)%nat -> zlen inp - p < Z.of_nat k -> post True (fun q => 0 <= q) (skip_name k inp p).
Proof.
  revert p. induction k as [|k IH]; intros p Hp H0 Hk; cbn [skip_name]; [lia|].
  destruct (Z.ltb_spec p (zlen inp)); [|cbn; lia].
  eapply post_bind; [apply returns_ld|]. intros c _. destruct (c =? 0); [cbn; lia|]. apply IH; lia.
Qed.

Lemma gz_header_returns inp : bytes_ok inp -> returns (gz_header inp).
Proof.
  intros Hb. unfold gz_header. destruct (zlen inp <? 18); [done|].
  do 3 (apply returns_bind; [apply returns_ld|]; intros ?). destruct (negb _); [done|].
  apply returns_bind; [apply returns_ld|]. intros flg.
  eapply (post_bind True (fun x => match x with Some p => 0 <= p | None => True end)).
  { destruct (Z.land flg 4 =? 0); [done|]. destruct (_ >? _); [done|].
    eapply post_bind; [apply (post_ld True); by left|]. intros x0 [-> _].
    eapply post_bind; [apply (post_ld True); by left|]. intros x1 [-> _]. cbn.
    pose proof (at_byte inp 10 Hb). pose proof (at_byte inp (10 + 1) Hb). unfold is_byte in *.
    rewrite lor_shiftl_add by lia. cbn in *. lia. }
  intros [p|] Hp; [|done].
  assert (forall flg p, 0 <= p -> post True (fun q => 0 <= q)
    (if flg =? 0 then Ret p else skip_name (S (length inp)) inp p)) as Hskip.
  { intros f q Hq. destruct (f =? 0); [done|]. apply skip_name_post; unfold zlen; lia. }
  eapply post_bind; [by apply Hskip|]. intros p1 Hp1.
  eapply post_bind; [by apply Hskip|]. intros p2 Hp2. by case_match.
Qed.


(** A member that claims to hold a stored block, a name and a comment. *)
Definition sample : list Z :=
  [0x1f; 0x8b; 8; 0x1c; 0; 0; 0; 0; 0; 3; 1; 0; 7; 97; 0; 98; 0; 1; 1; 0; 0; 0; 42; 0; 0; 0; 0; 1; 0; 0; 0].


(** ** A header that the input cuts short *)
Lemma count_loop_fault k lens i count :
  zlen count = 16 -> (exists j, i <= j < i + Z.of_nat k /\ at_ lens j >= 16) ->
  0 <= i -> i + Z.of_nat k <= zlen lens ->
  count_loop k lens i count = Fault.
Proof.
  revert i count. induction k as [|k IH]; intros i count Hc (j & Hj & H16) Hi Hk; [lia|]. cbn [count_loop].
  rewrite ld_ret by lia. cbn [obind].
  destruct (decide (0 <= at_ lens i < 16)) as [Hs|Hs].
  - rewrite ld_ret by lia. cbn [obind]. rewrite st_ret by lia. cbn [obind].
    apply IH; [by rewrite zlen_st| |lia|lia]. exists j. split; [|done].
    destruct (decide (j = i)) as [->|]; lia.
  - by rewrite ld_fault by lia.
Qed.

Lemma huff_build_fault lens n j :
  0 <= j < n -> n <= zlen lens -> at_ lens j >= 16 -> huff_build lens n = Fault.
Proof.
  intros Hj Hn H16. unfold huff_build. rewrite count_loop_fault; [done|done|exists j; lia|lia|lia].
Qed.

(** Reading at the end of the data. *)
Lemma getbits_end r n : rwf r -> 0 < n -> rbits r = [] -> exists r', getbits r n = Ret (-1, r') /\ reads (br_d r) r' [].
Proof.
  intros Hr Hn He. pose proof (getbits_spec r n Hr ltac:(lia)) as H. rewrite He in H.
  case_decide as Hd; [cbn in Hd; lia|done].
Qed.

Lemma ord_range i : 0 <= i < 19 -> 0 <= at_ ord i < 19.
Proof.
  intros Hi. pose proof (forallb_upto (fun i => (0 <=? at_ ord i) && (at_ ord i <? 19)) 0 19 i) as H.
  rewrite !andb_true_iff, Z.leb_le, Z.ltb_lt in H. apply H; [vm_compute; reflexivity|lia].
Qed.

Lemma cl_loop_S k i r cl :
  cl_loop (S k) i r cl
  = let! o := ld ord i in let! (v, r) := getbits r 3 in let! cl := st cl o (u8 v) in cl_loop k (i + 1) r cl.
Proof. done. Qed.

(** The last code length is 255. *)
Lemma cl_loop_short k i r cl :
  0 <= i -> i + Z.of_nat (S k) <= 19 -> zlen cl = 19 -> rwf r -> (length (rbits r) < 3 * S k)%nat ->
  exists r' cl', cl_loop (S k) i r cl = Ret (r', cl') /\ zlen cl' = 19
    /\ at_ cl' (at_ ord (i + Z.of_nat k)) = 255.
Proof.
  revert i r cl. induction k as [|k IH]; intros i r cl Hi Hk Hc Hr Hl.
  all: rewrite cl_loop_S, ld_ret by (change (zlen ord) with 19; lia); cbn [obind].
  all: pose proof (ord_range i ltac:(lia)) as Ho.
  all: pose proof (getbits_spec r 3 Hr ltac:(lia)) as H; change (Z.to_nat 3) with 3%nat in H.
  - case_decide; [lia|]. destruct H as (r1 & -> & _). cbn [obind]. rewrite st_ret by lia. cbn [obind].
    eexists _, _. split; [done|]. rewrite zlen_st. split; [done|].
    rewrite Z.add_0_r, at_st, Z.eqb_refl by lia. done.
  - assert (exists v r1, getbits r 3 = Ret (v, r1) /\ rwf r1 /\ (length (rbits r1) < 3 * S k)%nat) as (v & r1 & -> & Hr1 & Hl1).
    { case_decide; destruct H as (r1 & -> & ? & Hb & _); eexists _, r1; (split; [done|]); (split; [done|]);
        rewrite Hb, ?length_drop; cbn; lia. }
    cbn [obind]. rewrite st_ret by lia. cbn [obind].
    replace (i + Z.of_nat (S k)) with (i + 1 + Z.of_nat k) by lia.
    apply IH; try done; try lia. by rewrite zlen_st.
Qed.

(** A read of at most what is there, or the end. *)
Lemma getbits_cases r n :
  rwf r -> 0 < n ->
  exists v r', getbits r n = Ret (v, r') /\ rwf r' /\
    ((Z.to_nat n <= length (rbits r))%nat /\ v = bits_val (take (Z.to_nat n) (rbits r)) /\ rbits r' = drop (Z.to_nat n) (rbits r)
     \/ (length (rbits r) < Z.to_nat n)%nat /\ v = -1 /\ rbits r' = []).
Proof.
  intros Hr Hn. pose proof (getbits_spec r n Hr ltac:(lia)) as H.
  case_decide; destruct H as (r' & -> & ? & Hb & _); eexists _, r'; (split; [done|]); (split; [done|]); [left|right].
  - done.
  - split; [lia|done].
Qed.

Lemma inflate_dynamic_short fuel r out :
  rwf r ->
  (length (rbits r) < 14 + 3 * (4 + Z.to_nat (bits_val (take 4 (drop 10 (rbits r))))))%nat ->
  inflate_dynamic fuel r out = Fault.
Proof.
  intros Hr Hl. unfold inflate_dynamic.
  destruct (getbits_cases r 5 Hr ltac:(lia)) as (a & r1 & -> & Hr1 & H1). cbn [obind].
  destruct (getbits_cases r1 5 Hr1 ltac:(lia)) as (b & r2 & -> & Hr2 & H2). cbn [obind].
  destruct (getbits_cases r2 4 Hr2 ltac:(lia)) as (c & r3 & -> & Hr3 & H3). cbn [obind].
  assert (exists k, Z.to_nat (c + 4) = S k /\ (length (rbits r3) < 3 * S k)%nat /\ (S k <= 19)%nat) as (k & -> & Hk & Hk19).
  { change (Z.to_nat 5) with 5%nat in *. change (Z.to_nat 4) with 4%nat in *.
    destruct H3 as [(Hn & -> & ->)|(Hn & -> & ->)].
    2: { exists 2%nat. cbn. lia. }
    destruct H2 as [(? & _ & E2)|(? & _ & E2)]; [|rewrite E2 in Hn; cbn in Hn; lia].
    destruct H1 as [(? & _ & E1)|(? & _ & E1)]; [|rewrite E2, E1 in Hn; cbn in Hn; lia].
    rewrite E2, E1 in Hn |- *. rewrite !drop_drop in *. cbn [Nat.add] in *.
    pose proof (bits_val_range (take 4 (drop 10 (rbits r)))) as Hv. rewrite length_take_le in Hv by done.
    change (2 ^ Z.of_nat 4) with 16 in Hv. rewrite length_drop in *.
    exists (3 + Z.to_nat (bits_val (take 4 (drop 10 (rbits r)))))%nat. lia. }
  destruct (cl_loop_short k 0 r3 (zeros 19)) as (r4 & cl & -> & Hcl & H255); [lia|lia|done|done|done|].
  cbn [obind]. pose proof (ord_range (0 + Z.of_nat k) ltac:(lia)).
  by rewrite (huff_build_fault cl 19 (at_ ord (0 + Z.of_nat k))) by lia.
Qed.

(** A file cut short inside the table of a dynamic block makes gunzip write
    outside its table of counts: when fewer bits follow than the header says
    there are code lengths, the missing ones are taken for 255, which indexes
    an array of sixteen. *)
Theorem gunzip_short_header_faults fuel inp out p final bs :
  (0 < fuel)%nat -> gz_header inp = Ret (Some p) ->
  bits_of (drop (Z.to_nat p) inp) = final :: false :: true :: bs ->
  (length bs < 14 + 3 * (4 + Z.to_nat (bits_val (take 4 (drop 10 bs)))))%nat ->
  gz_decompress fuel inp out = Fault.
Proof.
  intros Hf Hp Hb Hl. destruct fuel as [|fuel]; [lia|]. unfold gz_decompress. rewrite Hp. cbn [obind].
  set (d := drop (Z.to_nat p) inp) in *. unfold inflate. cbn [inflate_loop].
  assert (rwf (bitr_init d)) as Hr0 by (split; cbn; pose proof (zlen_nonneg d); lia).
  assert (rbits (bitr_init d) = bits_of d) as Hb0.
  { unfold rbits. cbn [bitr_init br_cnt br_buf br_pos br_d]. change (Z.to_nat 0) with 0%nat. by rewrite drop_0. }
  pose proof (getbit_spec _ Hr0) as H1. rewrite Hb0, Hb in H1. destruct H1 as (r1 & E1 & Hw1 & Hb1 & _).
  destruct (getbits_val r1 2 2 bs Hw1) as (r2 & E2 & Hw2 & Hb2 & _); [lia|lia|done|].
  unfold inflate_step. rewrite E1. cbn [obind]. destruct (Z.ltb_spec (Z.b2z final) 0); [destruct final; cbn in *; lia|].
  rewrite E2. cbn [obind Z.gtb Z.ltb Z.eqb Z.compare Pos.compare Pos.compare_cont Pos.eqb].
  assert (inflate_dynamic (S fuel) r2 out = Fault) as ->; [|done].
  by apply inflate_dynamic_short; [|rewrite Hb2].
Qed.

(** Eighteen bytes: the header, and a block that promises nineteen lengths. *)
Definition short_file : list Z :=
  [0x1f; 0x8b; 8; 0; 0; 0; 0; 0; 0; 3; 5; 224; 1; 0; 0; 0; 0; 0].

Lemma gunzip_short_header_faults_witness : gz_decompress 200 short_file [] = Fault.
Proof.
  apply (gunzip_short_header_faults 200 short_file [] 10 true (drop 3 (bits_of (drop 10 short_file)))).
  - lia.
  - reflexivity.
  - vm_compute. reflexivity.
  - apply Nat.ltb_lt. vm_compute. reflexivity.
Defined.

(** The two alphabets may claim 288 and 32 lengths, the array holds 318: a
    stream of zero lengths runs past its end. *)
Definition long_lengths : list Z :=
  Deflate.bw_out (Deflate.flush_bits
    (fold_left (fun w '(v, n) => Deflate.putbits w v n)
      [(1, 1); (2, 2); (31, 5); (31, 5); (0, 4); (0, 3); (0, 3); (1, 3); (1, 3);
       (1, 1); (127, 7); (1, 1); (127, 7); (1, 1); (33, 7); (0, 8); (0, 8)]
      {| Deflate.bw_out := []; Deflate.bw_buf := 0; Deflate.bw_cnt := 0 |})).

Lemma long_lengths_fault : inflate 200 long_lengths [] = Fault.
Proof. vm_compute. reflexivity. Qed.
