(* ===== verification/Fdt.v ===== *)
(** * The device tree: stam/fdt.c, vboot/fdtgen.h and the kernel's readers

    [Reader] is stam/fdt.c over the bytes of the blob: a pointer into it is an
    offset, and a read outside it is a [Fault].  Offsets of nodes are C ints
    and the arithmetic on them 32-bit, as in the code.  [Gen] is the writer of
    vboot/fdtgen.h, which keeps the structure block and the table of names in
    one buffer.  [Handover] is stam/handover_dtb.c, and [Drivers] what the
    interrupt controller, the other processors, the PCI bridge and the console
    look up.  FdtRun has the theorems. *)
From S2P Require Import Prelude Bytes.

(** ** C strings in a buffer *)

(** [strlen(b + o)]; the fuel is the number of bytes there are. *)
Fixpoint strlen_loop (k : nat) (b : list Z) (o n : Z) : outcome Z :=
  match k with
  | O => Diverge
  | S k =>
      let! c := ld b (o + n) in
      if Z.eqb c 0 then Ret n else strlen_loop k b o (n + 1)
  end.
Definition strlen (b : list Z) (o : Z) : outcome Z := strlen_loop (S (length b)) b o 0.

(** [!strcmp(b + o, s)] for a string [s]. *)
Fixpoint streq (b : list Z) (o : Z) (s : list Z) : outcome bool :=
  let! c := ld b o in
  match s with
  | [] => Ret (Z.eqb c 0)
  | x :: s => if Z.eqb c x then streq b (o + 1) s else Ret false
  end.

Module Reader.

Definition FDT_MAGIC : Z := 0xd00dfeed.
Definition FDT_BEGIN_NODE : Z := 1.
Definition FDT_END_NODE : Z := 2.
Definition FDT_PROP : Z := 3.
Definition FDT_NOP : Z := 4.
Definition FDT_END : Z := 9.
Definition FDT_NONE : Z := -1.

Definition align4 (n : Z) : Z := Z.land (u32 (n + 3)) 0xfffffffc.

(** [fdt_t], with the blob its pointers lead into. *)
Record fdt := {
  f_blob : list Z; f_strukt : Z; f_strukt_size : Z; f_strings : Z; f_total : Z;
  f_addr_cells : Z; f_size_cells : Z
}.

Definition be32 (f : fdt) (p : Z) : outcome Z := ld32be (f_blob f) p.

(** The loop of fdt_root; its counter is 32 bits wide. *)
Fixpoint root_loop (fuel : nat) (f : fdt) (off : Z) : outcome Z :=
  match fuel with
  | O => Diverge
  | S fuel =>
      if u32 (off + 4) <=? f_strukt_size f then
        let! tok := be32 f (f_strukt f + off) in
        if Z.eqb tok FDT_BEGIN_NODE then Ret (i32 off)
        else if Z.eqb tok FDT_END then Ret FDT_NONE
        else root_loop fuel f (u32 (off + 4))
      else Ret FDT_NONE
  end.
Definition fdt_root (fuel : nat) (f : fdt) : outcome Z := root_loop fuel f 0.

(** The offset of the next token, and the token if it was read. *)
Definition step (f : fdt) (off : Z) : outcome (Z * option Z) :=
  if u32 (off + 4) >? f_strukt_size f then Ret (FDT_NONE, None)
  else
    let! tok := be32 f (f_strukt f + off) in
    if Z.eqb tok FDT_BEGIN_NODE then
      let! n := strlen (f_blob f) (f_strukt f + off + 4) in
      Ret (i32 (u32 (off + 4 + align4 (u32 (u32 n + 1)))), Some tok)
    else if Z.eqb tok FDT_PROP then
      if u32 (off + 12) >? f_strukt_size f then Ret (FDT_NONE, Some tok)
      else
        let! len := be32 f (f_strukt f + off + 4) in
        Ret (i32 (u32 (off + 12 + align4 len)), Some tok)
    else if Z.eqb tok FDT_END_NODE || Z.eqb tok FDT_NOP then Ret (i32 (u32 (off + 4)), Some tok)
    else Ret (FDT_NONE, Some tok).

(** The loop of fdt_next_node: the node found and the depth.  A token that was
    not read is an uninitialised variable. *)
Fixpoint next_loop (fuel : nat) (f : fdt) (p depth : Z) : outcome (Z * Z) :=
  match fuel with
  | O => Diverge
  | S fuel =>
      if Z.eqb p FDT_NONE then Ret (FDT_NONE, depth)
      else
        let! (nxt, t) := step f (u32 p) in
        match t with
        | None => Fault
        | Some t =>
            if Z.eqb t FDT_BEGIN_NODE then Ret (p, depth + 1)
            else
              let depth' := if Z.eqb t FDT_END_NODE then depth - 1 else depth in
              if Z.eqb t FDT_END_NODE && (depth' <? 0) then Ret (FDT_NONE, depth')
              else if Z.eqb t FDT_END || Z.eqb nxt FDT_NONE then Ret (FDT_NONE, depth')
              else next_loop fuel f nxt depth'
        end
  end.
Definition fdt_next_node (fuel : nat) (f : fdt) (off depth : Z) : outcome (Z * Z) :=
  let! (p, _) := step f (u32 off) in
  next_loop fuel f p depth.

(** Where the name is; the empty string of [FDT_NONE] is [None]. *)
Definition fdt_node_name (f : fdt) (off : Z) : option Z :=
  if Z.eqb off FDT_NONE then None else Some (f_strukt f + off + 4).

Fixpoint getprop_loop (fuel : nat) (f : fdt) (p : Z) (name : list Z) : outcome (option (Z * Z)) :=
  match fuel with
  | O => Diverge
  | S fuel =>
      if negb (Z.eqb p FDT_NONE) && (i32 (p + 4) <=? i32 (f_strukt_size f)) then
        let! t := be32 f (f_strukt f + p) in
        if Z.eqb t FDT_NOP then getprop_loop fuel f (i32 (p + 4)) name
        else if negb (Z.eqb t FDT_PROP) then Ret None
        else
          let! plen := be32 f (f_strukt f + p + 4) in
          let! noff := be32 f (f_strukt f + p + 8) in
          let! same := streq (f_blob f) (f_strings f + noff) name in
          if same : bool then Ret (Some (f_strukt f + p + 12, plen))
          else getprop_loop fuel f (i32 (u32 (p + 12 + align4 plen))) name
      else Ret None
  end.
(** The address of the value and its length, or a null pointer. *)
Definition fdt_getprop (fuel : nat) (f : fdt) (off : Z) (name : list Z) : outcome (option (Z * Z)) :=
  if Z.eqb off FDT_NONE then Ret None
  else
    let! (p, _) := step f (u32 off) in
    getprop_loop fuel f p name.

Fixpoint compat_loop (fuel : nat) (f : fdt) (p len i : Z) (compat : list Z) : outcome bool :=
  match fuel with
  | O => Diverge
  | S fuel =>
      if i <? len then
        let! same := streq (f_blob f) (p + i) compat in
        if same : bool then Ret true
        else
          let! n := strlen (f_blob f) (p + i) in
          compat_loop fuel f p len (u32 (i + (u32 n + 1))) compat
      else Ret false
  end.
Definition fdt_is_compatible (fuel : nat) (f : fdt) (off : Z) (compat : list Z) : outcome bool :=
  let! v := fdt_getprop fuel f off (str "compatible") in
  match v with
  | None => Ret false
  | Some (p, len) => compat_loop fuel f p len 0 compat
  end.

(** [for (int n = fdt_root(f); n != FDT_NONE; n = fdt_next_node(f, n, &depth))]
    with a body that goes on with a state or leaves with a result. *)
Fixpoint node_loop {S R} (fuel : nat) (k : nat) (f : fdt) (body : Z -> Z -> S -> outcome (R + S))
    (n depth : Z) (s : S) : outcome (R + S) :=
  match k with
  | O => Diverge
  | Datatypes.S k =>
      if Z.eqb n FDT_NONE then Ret (inr s)
      else
        let! r := body n depth s in
        match r with
        | inl x => Ret (inl x)
        | inr s =>
            let! (n', depth') := fdt_next_node fuel f n depth in
            node_loop fuel k f body n' depth' s
        end
  end.
Definition each_node {S R} (fuel : nat) (f : fdt) (body : Z -> Z -> S -> outcome (R + S)) (s : S)
    : outcome (R + S) :=
  let! n := fdt_root fuel f in node_loop fuel fuel f body n 0 s.

Definition fdt_find_compatible (fuel : nat) (f : fdt) (compat : list Z) : outcome Z :=
  let! r := each_node fuel f (fun n _ (_ : unit) =>
    let! c := fdt_is_compatible fuel f n compat in
    Ret (if c : bool then inl n else inr tt)) tt in
  match r with inl n => Ret n | inr _ => Ret FDT_NONE end.

(** The part of a path before the next slash, and the rest from it. *)
Fixpoint segment (s : list Z) : list Z * list Z :=
  match s with
  | [] => ([], [])
  | c :: s' => if Z.eqb c 47 then ([], s) else let '(a, b) := segment s' in (c :: a, b)
  end.

(** [strncmp(b + o, s, n) == 0] for a string [s] of [n] characters or more. *)
Fixpoint strneq (b : list Z) (o : Z) (s : list Z) : outcome bool :=
  match s with
  | [] => Ret true
  | x :: s =>
      let! c := ld b o in
      if Z.eqb c x then strneq b (o + 1) s else Ret false
  end.

(** The characters before the '@' or the end. *)
Fixpoint bare_loop (k : nat) (b : list Z) (o n : Z) : outcome Z :=
  match k with
  | O => Diverge
  | S k =>
      let! c := ld b (o + n) in
      if Z.eqb c 0 || Z.eqb c 64 then Ret n else bare_loop k b o (n + 1)
  end.

(** One node of the search: the segment sought and the depth wanted. *)
Definition path_step (f : fdt) (n depth : Z) (st : list Z * Z) : outcome (Z + list Z * Z) :=
  let '(seg, want) := st in
  if negb (Z.eqb depth want) then Ret (inr (seg, want))
  else
    let nm := f_strukt f + n + 4 in
    let '(name, e) := segment seg in
    let sl := zlen name in
    let! nl := strlen (f_blob f) nm in
    let! bare := bare_loop (S (length (f_blob f))) (f_blob f) nm 0 in
    let! same :=
      if Z.eqb sl nl || Z.eqb sl bare then strneq (f_blob f) nm name else Ret false in
    if same : bool then
      match e with
      | [] => Ret (inl n)
      | _ :: rest => Ret (inr (rest, want + 1))
      end
    else Ret (inr (seg, want)).

Definition fdt_find_path (fuel : nat) (f : fdt) (path : list Z) : outcome Z :=
  match path with
  | 47 :: [] => fdt_root fuel f
  | 47 :: seg =>
      let! r := each_node fuel f (path_step f) (seg, 1) in
      match r with inl n => Ret n | inr _ => Ret FDT_NONE end
  | _ => Ret FDT_NONE
  end.

Fixpoint cells_loop (k : nat) (f : fdt) (p i v : Z) : outcome Z :=
  match k with
  | O => Ret v
  | S k =>
      let! w := be32 f (p + u32 (i * 4)) in
      cells_loop k f p (i + 1) (Z.lor (u64 (Z.shiftl v 32)) w)
  end.
Definition fdt_cells (f : fdt) (p cells : Z) : outcome Z := cells_loop (Z.to_nat cells) f p 0 0.

(** [None]: -1; the address and the size otherwise. *)
Definition fdt_reg (fuel : nat) (f : fdt) (off : Z) : outcome (option (Z * Z)) :=
  let! v := fdt_getprop fuel f off (str "reg") in
  match v with
  | None => Ret None
  | Some (p, len) =>
      if len <? u32 (u32 (f_addr_cells f + f_size_cells f) * 4) then Ret None
      else
        let! addr := fdt_cells f p (f_addr_cells f) in
        let! size := fdt_cells f (p + u32 (f_addr_cells f * 4)) (f_size_cells f) in
        Ret (Some (addr, size))
  end.

(** A 32-bit property of the root, or its default. *)
Definition root_cells (fuel : nat) (f : fdt) (root : Z) (name : list Z) (dflt : Z) : outcome Z :=
  let! v := fdt_getprop fuel f root name in
  match v with
  | Some (p, len) => if Z.eqb len 4 then be32 f p else Ret dflt
  | None => Ret dflt
  end.

(** [None]: -1.  A null pointer is [None] too. *)
Definition fdt_init (fuel : nat) (dtb : option (list Z)) : outcome (option fdt) :=
  match dtb with
  | None => Ret None
  | Some h =>
      let! magic := ld32be h 0 in
      if negb (Z.eqb magic FDT_MAGIC) then Ret None
      else
        let! total := ld32be h 4 in
        let! so := ld32be h 8 in
        let! st := ld32be h 12 in
        let! ss := ld32be h 36 in
        let f0 := {| f_blob := h; f_strukt := so; f_strukt_size := ss; f_strings := st;
                     f_total := total; f_addr_cells := 2; f_size_cells := 1 |} in
        let! root := fdt_root fuel f0 in
        if Z.eqb root FDT_NONE then Ret (Some f0)
        else
          let! ac := root_cells fuel f0 root (str "#address-cells") 2 in
          let! sc := root_cells fuel f0 root (str "#size-cells") 1 in
          Ret (Some {| f_blob := h; f_strukt := so; f_strukt_size := ss; f_strings := st;
                       f_total := total; f_addr_cells := ac; f_size_cells := sc |})
  end.

End Reader.

(** ** The writer *)
Module Gen.

Definition FDTGEN_HDR : Z := 64.

Record fdtgen := {
  g_buf : list Z; g_cap : Z; g_stroff : Z; g_stcap : Z; g_off : Z; g_overflow : bool
}.

Definition set_overflow (g : fdtgen) : fdtgen :=
  {| g_buf := g_buf g; g_cap := g_cap g; g_stroff := g_stroff g; g_stcap := g_stcap g;
     g_off := g_off g; g_overflow := true |}.

(** Storing bytes in the buffer. *)
Definition store (b : list Z) (o : Z) (v : list Z) : outcome (list Z) :=
  if (0 <=? o) && (o + zlen v <=? zlen b) then Ret (splice b o v) else Fault.

Definition fg_init (cap : Z) : fdtgen :=
  {| g_buf := zeros cap; g_cap := cap; g_stroff := 0; g_stcap := cap / 4; g_off := 0; g_overflow := false |}.

Definition fg_struct (g : fdtgen) : Z := FDTGEN_HDR.
Definition fg_strings (g : fdtgen) : Z := g_cap g - g_stcap g.

(** [v] at the end of the structure block, which grows by [n]. *)
Definition append (g : fdtgen) (v : list Z) (n : Z) : outcome fdtgen :=
  let! b := store (g_buf g) (fg_struct g + g_off g) v in
  Ret {| g_buf := b; g_cap := g_cap g; g_stroff := g_stroff g; g_stcap := g_stcap g;
         g_off := u32 (g_off g + n); g_overflow := g_overflow g |}.

Definition fg_put32 (g : fdtgen) (v : Z) : outcome fdtgen :=
  if u32 (FDTGEN_HDR + g_off g + 4) >? u32 (g_cap g - g_stcap g) then Ret (set_overflow g)
  else append g (b_put32 v) 4.

Definition fg_putbytes (g : fdtgen) (src : list Z) : outcome fdtgen :=
  let n := zlen src in
  let pad := Z.land (u32 (4 - Z.land n 3)) 3 in
  if u32 (FDTGEN_HDR + g_off g + n + pad) >? u32 (g_cap g - g_stcap g) then Ret (set_overflow g)
  else append g src (n + pad).

(** The search among the names stored: [inl i] when it is there at [i]. *)
Fixpoint intern_loop (fuel : nat) (g : fdtgen) (i : Z) (name : list Z) : outcome (Z + unit) :=
  match fuel with
  | O => Diverge
  | S fuel =>
      if i <? g_stroff g then
        let! same := streq (g_buf g) (fg_strings g + i) name in
        if same : bool then Ret (inl i)
        else
          let! n := strlen (g_buf g) (fg_strings g + i) in
          intern_loop fuel g (u32 (i + (n + 1))) name
      else Ret (inr tt)
  end.

Definition fg_intern (g : fdtgen) (name : list Z) : outcome (Z * fdtgen) :=
  let! r := intern_loop (S (length (g_buf g))) g 0 name in
  match r with
  | inl i => Ret (i, g)
  | inr _ =>
      let n := zlen name + 1 in
      if u32 (g_stroff g + n) >? g_stcap g then Ret (0, set_overflow g)
      else
        let! b := store (g_buf g) (fg_strings g + g_stroff g) (name ++ [0]) in
        Ret (g_stroff g,
             {| g_buf := b; g_cap := g_cap g; g_stroff := u32 (g_stroff g + n); g_stcap := g_stcap g;
                g_off := g_off g; g_overflow := g_overflow g |})
  end.

Definition fg_node (g : fdtgen) (name : list Z) : outcome fdtgen :=
  let! g := fg_put32 g Reader.FDT_BEGIN_NODE in fg_putbytes g (name ++ [0]).
Definition fg_end_node (g : fdtgen) : outcome fdtgen := fg_put32 g Reader.FDT_END_NODE.

Definition fg_prop (g : fdtgen) (name val : list Z) : outcome fdtgen :=
  let! (noff, g) := fg_intern g name in
  let! g := fg_put32 g Reader.FDT_PROP in
  let! g := fg_put32 g (zlen val) in
  let! g := fg_put32 g noff in
  if Z.eqb (zlen val) 0 then Ret g else fg_putbytes g val.

(** The values of fg_prop_str, fg_prop_u32, fg_prop_u64 and fg_prop_reg. *)
Definition v_str (s : list Z) : list Z := s ++ [0].
Definition v_u32 (v : Z) : list Z := b_put32 v.
Definition v_u64 (v : Z) : list Z := b_put32 (Z.shiftr v 32) ++ b_put32 v.
Definition v_reg (addr size : Z) : list Z := v_u64 addr ++ v_u64 size.

(** A caller's sequence of calls. *)
Inductive call := Node (name : list Z) | Prop_ (name val : list Z) | End_.

Definition do_call (g : fdtgen) (c : call) : outcome fdtgen :=
  match c with
  | Node name => fg_node g name
  | Prop_ name val => fg_prop g name val
  | End_ => fg_end_node g
  end.
Fixpoint do_calls (g : fdtgen) (cs : list call) : outcome fdtgen :=
  match cs with
  | [] => Ret g
  | c :: cs => let! g := do_call g c in do_calls g cs
  end.

(** [for (unsigned i = 0; i < n; i++) to[i] = from[i];] within the buffer. *)
Fixpoint move_loop (k : nat) (b : list Z) (to from : Z) : outcome (list Z) :=
  match k with
  | O => Ret b
  | S k =>
      let! c := ld b from in
      let! b := store b to [c] in
      move_loop k b (to + 1) (from + 1)
  end.

(** The words of the header. *)
Definition header (total struct_off strings_off stroff struct_size : Z) : list Z :=
  b_put32 Reader.FDT_MAGIC ++ b_put32 total ++ b_put32 struct_off ++ b_put32 strings_off
  ++ b_put32 40 ++ b_put32 17 ++ b_put32 16 ++ b_put32 0 ++ b_put32 stroff ++ b_put32 struct_size.

(** The size of the blob, or 0; and the buffer. *)
Definition fg_finish (g : fdtgen) : outcome (Z * list Z) :=
  let! g := fg_put32 g Reader.FDT_END in
  if g_overflow g then Ret (0, g_buf g)
  else
    let struct_off := FDTGEN_HDR in
    let struct_size := g_off g in
    let strings_off := struct_off + struct_size in
    let! b := move_loop (Z.to_nat (g_stroff g)) (g_buf g) strings_off (fg_strings g) in
    let! b := store b (strings_off + g_stroff g) (zeros (g_cap g - (strings_off + g_stroff g))) in
    let total := u32 (strings_off + g_stroff g) in
    let! b := store b 0 (header total struct_off strings_off (g_stroff g) struct_size) in
    Ret (total, b).

End Gen.

(** ** What the kernel takes from the tree it is handed *)
Module Handover.
Import Reader.

(** The fields of [boot_info_t] that are set here.  A string is its address in
    the blob, or one given by the shim. *)
Inductive text := Default | InBlob (p : Z) | Given (s : list Z).
Record boot_info := {
  bi_model : text; bi_cmdline : text; bi_initrd_start : Z; bi_initrd_end : Z;
  bi_ram_base : Z; bi_ram_size : Z; bi_cpus : Z; bi_free_base : Z; bi_free_size : Z
}.

(** What another shim set before: the command line, the initrd, the free
    region. *)
Record overrides := {
  ov_cmdline : option (list Z); ov_initrd_start : Z; ov_initrd_end : Z; ov_free_base : Z; ov_free_size : Z
}.

Definition handover_set_cmdline (o : overrides) (s : option (list Z)) : overrides :=
  match s with
  | Some (c :: s) =>
      {| ov_cmdline := Some (c :: s); ov_initrd_start := ov_initrd_start o; ov_initrd_end := ov_initrd_end o;
         ov_free_base := ov_free_base o; ov_free_size := ov_free_size o |}
  | _ => o
  end.
Definition handover_set_initrd (o : overrides) (s e : Z) : overrides :=
  {| ov_cmdline := ov_cmdline o; ov_initrd_start := s; ov_initrd_end := e;
     ov_free_base := ov_free_base o; ov_free_size := ov_free_size o |}.
Definition handover_set_free_region (o : overrides) (base size : Z) : overrides :=
  {| ov_cmdline := ov_cmdline o; ov_initrd_start := ov_initrd_start o; ov_initrd_end := ov_initrd_end o;
     ov_free_base := base; ov_free_size := size |}.

(** A 32- or 64-bit property of /chosen. *)
Definition chosen_word (fuel : nat) (f : fdt) (chosen : Z) (name : list Z) (dflt : Z) : outcome Z :=
  let! v := fdt_getprop fuel f chosen name in
  match v with
  | Some (p, len) => if Z.eqb len 4 || Z.eqb len 8 then fdt_cells f p (len / 4) else Ret dflt
  | None => Ret dflt
  end.

(** A property that is a string of some length. *)
Definition text_prop (fuel : nat) (f : fdt) (node : Z) (name : list Z) (dflt : text) : outcome text :=
  let! v := fdt_getprop fuel f node name in
  match v with
  | Some (p, len) => Ret (if Z.eqb len 0 then dflt else InBlob p)
  | None => Ret dflt
  end.

(** [dt && !strcmp(dt, kind)] for the node's device_type. *)
Definition is_device (fuel : nat) (f : fdt) (n : Z) (kind : list Z) : outcome bool :=
  let! v := fdt_getprop fuel f n (str "device_type") in
  match v with Some (p, _) => streq (f_blob f) p kind | None => Ret false end.

(** The first bank of memory: [None] when no node is one. *)
Definition find_memory (fuel : nat) (f : fdt) : outcome (option Z) :=
  let! r := each_node fuel f (fun n _ (_ : unit) =>
    let! m := is_device fuel f n (str "memory") in
    Ret (if m : bool then inl n else inr tt)) tt in
  Ret (match r with inl n => Some n | inr _ => None end).

Definition count_cpus (fuel : nat) (f : fdt) (cpus : Z) : outcome Z :=
  let! r := each_node fuel f (fun n _ k =>
    let! c := is_device fuel f n (str "cpu") in
    Ret (inr (if c : bool then k + 1 else k))) cpus in
  Ret (match r with inl k => k | inr k => k end).

(** [None]: -1.  The tree is kept, and the boot_info filled in. *)
Definition handover_dtb (fuel : nat) (o : overrides) (dtb : option (list Z)) (bi : boot_info)
    : outcome (option (fdt * boot_info)) :=
  let! t := fdt_init fuel dtb in
  match t with
  | None => Ret None
  | Some f =>
      let! root := fdt_root fuel f in
      let! model := text_prop fuel f root (str "model") Default in
      let! chosen := fdt_find_path fuel f (str "/chosen") in
      let! (cmdline, is0, ie0) :=
        if Z.eqb chosen FDT_NONE then Ret (bi_cmdline bi, bi_initrd_start bi, bi_initrd_end bi)
        else
          let! c := text_prop fuel f chosen (str "bootargs") (bi_cmdline bi) in
          let c := match ov_cmdline o with Some s => Given s | None => c end in
          let! is0 := chosen_word fuel f chosen (str "linux,initrd-start") (bi_initrd_start bi) in
          let! ie0 := chosen_word fuel f chosen (str "linux,initrd-end") (bi_initrd_end bi) in
          Ret (c, is0, ie0) in
      let! mem := find_memory fuel f in
      let! reg := match mem with Some n => fdt_reg fuel f n | None => Ret None end in
      let! cpus := count_cpus fuel f (bi_cpus bi) in
      let over := ov_initrd_end o >? ov_initrd_start o in
      Ret (Some (f,
        {| bi_model := model; bi_cmdline := cmdline;
           bi_initrd_start := if over then ov_initrd_start o else is0;
           bi_initrd_end := if over then ov_initrd_end o else ie0;
           bi_ram_base := match reg with Some (a, _) => a | None => bi_ram_base bi end;
           bi_ram_size := match reg with Some (_, s) => s | None => bi_ram_size bi end;
           bi_cpus := cpus; bi_free_base := ov_free_base o; bi_free_size := ov_free_size o |}))
  end.

End Handover.

(** ** What the drivers look up *)
Module Drivers.
Import Reader.

(** stam/gic.c *)
Definition reg_index (fuel : nat) (f : fdt) (node idx : Z) : outcome (option Z) :=
  let! v := fdt_getprop fuel f node (str "reg") in
  match v with
  | None => Ret None
  | Some (p, len) =>
      let stride := u32 (u32 (f_addr_cells f + f_size_cells f) * 4) in
      if u32 ((idx + 1) * stride) >? len then Ret None
      else let! a := fdt_cells f (p + u32 (idx * stride)) (f_addr_cells f) in Ret (Some a)
  end.

(** The controller found: the distributor, and the redistributor or the
    interface of the processor. *)
Inductive gic := GicV3 (dist redist : Z) | GicV2 (dist cpu : Z).

Definition two_regs (fuel : nat) (f : fdt) (node : Z) : outcome (option (Z * Z)) :=
  let! a := reg_index fuel f node 0 in
  match a with
  | None => Ret None
  | Some a =>
      let! b := reg_index fuel f node 1 in
      Ret (match b with None => None | Some b => Some (a, b) end)
  end.

(** The first of several names some node is compatible with. *)
Fixpoint find_first (fuel : nat) (f : fdt) (names : list (list Z)) : outcome Z :=
  match names with
  | [] => Ret FDT_NONE
  | c :: names =>
      let! n := fdt_find_compatible fuel f c in
      if Z.eqb n FDT_NONE then find_first fuel f names else Ret n
  end.

Definition gic_init (fuel : nat) (f : fdt) : outcome (option gic) :=
  let! node := fdt_find_compatible fuel f (str "arm,gic-v3") in
  if negb (Z.eqb node FDT_NONE) then
    let! r := two_regs fuel f node in
    Ret (match r with Some (a, b) => Some (GicV3 a b) | None => None end)
  else
    let! node := find_first fuel f [str "arm,gic-400"; str "arm,cortex-a15-gic"] in
    if Z.eqb node FDT_NONE then Ret None
    else
      let! r := two_regs fuel f node in
      Ret (match r with Some (a, b) => Some (GicV2 a b) | None => None end).

Definition irq_number (type num : Z) : Z :=
  i32 (if Z.eqb type 1 then u32 (num + 16) else u32 (num + 32)).

Definition gic_timer_irq (fuel : nat) (f : fdt) : outcome Z :=
  let! node := find_first fuel f [str "arm,armv8-timer"; str "arm,armv7-timer"] in
  if Z.eqb node FDT_NONE then Ret (-1)
  else
    let! v := fdt_getprop fuel f node (str "interrupts") in
    match v with
    | None => Ret (-1)
    | Some (p, len) =>
        if len <? 24 then Ret (-1)
        else
          let! type := fdt_cells f (p + 12) 1 in
          let! num := fdt_cells f (p + 16) 1 in
          Ret (irq_number (u32 type) (u32 num))
    end.

(** stam/smp.c: the affinities of the children of /cpus, at most [max]. *)
Fixpoint aff_loop (fuel k : nat) (f : fdt) (off depth base : Z) (max : Z) (out : list Z) : outcome (list Z) :=
  match k with
  | O => Diverge
  | S k =>
      let! (off, depth) := fdt_next_node fuel f off depth in
      if Z.eqb off FDT_NONE || negb (zlen out <? max) then Ret out
      else
        let base := if base <? 0 then depth else base in
        if depth <? base then Ret out
        else if negb (Z.eqb depth base) then aff_loop fuel k f off depth base max out
        else
          let! v := fdt_getprop fuel f off (str "reg") in
          match v with
          | Some (p, len) =>
              if Z.eqb len 0 then aff_loop fuel k f off depth base max out
              else
                let! a := fdt_cells f p (if len / 4 >? 2 then 2 else len / 4) in
                aff_loop fuel k f off depth base max (out ++ [a])
          | None => aff_loop fuel k f off depth base max out
          end
  end.
Definition cpu_affinities (fuel : nat) (f : fdt) (max : Z) : outcome (list Z) :=
  let! cpus := fdt_find_path fuel f (str "/cpus") in
  if Z.eqb cpus FDT_NONE then Ret [] else aff_loop fuel fuel f cpus 0 (-1) max [].

(** stam/pci.c: the 32-bit window of the bridge, its base and its end. *)
Fixpoint window_loop (fuel : nat) (f : fdt) (r len per at_ : Z) : outcome (option (Z * Z)) :=
  match fuel with
  | O => Diverge
  | S fuel =>
      if u32 (at_ + per) <=? len then
        let! hi := fdt_cells f (r + at_) 1 in
        let space := Z.land (Z.shiftr (u32 hi) 24) 3 in
        let! child := fdt_cells f (r + at_ + 4) 2 in
        let! size := fdt_cells f (r + at_ + 4 + u32 (f_addr_cells f * 4)) 2 in
        if negb (Z.eqb space 2) then window_loop fuel f r len per (u32 (at_ + per))
        else Ret (Some (child, u64 (child + size)))
      else Ret None
  end.
Definition bridge_window (fuel : nat) (f : fdt) (node : Z) : outcome (option (Z * Z)) :=
  let! v := fdt_getprop fuel f node (str "ranges") in
  match v with
  | None => Ret None
  | Some (r, len) => window_loop fuel f r len (u32 (u32 (3 + f_addr_cells f + 2) * 4)) 0
  end.

(** [None]: no bridge; the physical address of the configuration space and the
    window otherwise. *)
Definition pci_init (fuel : nat) (f : fdt) : outcome (option (Z * option (Z * Z))) :=
  let! node := fdt_find_compatible fuel f (str "pci-host-ecam-generic") in
  if Z.eqb node FDT_NONE then Ret None
  else
    let! v := fdt_getprop fuel f node (str "reg") in
    match v with
    | None => Ret None
    | Some (reg, len) =>
        if len <? 8 then Ret None
        else
          let! ecam := fdt_cells f reg (f_addr_cells f) in
          let! w := bridge_window fuel f node in
          Ret (Some (ecam, w))
    end.

(** stam/console.c *)
Inductive uart_kind := UART_PL011 | UART_8250 | UART_GENI.
Record uart := { u_node : Z; u_base : Z; u_kind : uart_kind; u_shift : Z; u_width : Z }.

(** The characters copied to [path[128]]. *)
Fixpoint copy_path (k : nat) (f : fdt) (sp len i : Z) : outcome (list Z) :=
  match k with
  | O => Ret []
  | S k =>
      if i <? len - 1 then
        let! c := ld (f_blob f) (sp + i) in
        if Z.eqb c 0 || Z.eqb c 58 then Ret []
        else let! s := copy_path k f sp len (i + 1) in Ret (c :: s)
      else Ret []
  end.

Definition stdout_node (fuel : nat) (f : fdt) : outcome Z :=
  let! chosen := fdt_find_path fuel f (str "/chosen") in
  if Z.eqb chosen FDT_NONE then Ret FDT_NONE
  else
    let! v := fdt_getprop fuel f chosen (str "stdout-path") in
    match v with
    | None => Ret FDT_NONE
    | Some (sp, len) =>
        if Z.eqb len 0 then Ret FDT_NONE
        else
          let! path := copy_path 127 f sp len 0 in
          match path with
          | 47 :: _ => fdt_find_path fuel f path
          | _ => Ret FDT_NONE
          end
    end.

Definition cell_prop (fuel : nat) (f : fdt) (node : Z) (name : list Z) (dflt : Z) : outcome Z :=
  let! v := fdt_getprop fuel f node name in
  match v with
  | Some (p, len) => if Z.eqb len 4 then let! w := fdt_cells f p 1 in Ret (u32 w) else Ret dflt
  | None => Ret dflt
  end.

Definition console_init (fuel : nat) (f : fdt) : outcome (option uart) :=
  let! node := stdout_node fuel f in
  let! node :=
    if Z.eqb node FDT_NONE then
      find_first fuel f [str "arm,pl011"; str "ns16550a"; str "ns16550"; str "qcom,geni-debug-uart";
                         str "qcom,geni-uart"]
    else Ret node in
  if Z.eqb node FDT_NONE then Ret None
  else
    let! r := fdt_reg fuel f node in
    match r with
    | None => Ret None
    | Some (addr, _) =>
        let! shift := cell_prop fuel f node (str "reg-shift") 0 in
        let! width := cell_prop fuel f node (str "reg-io-width") 1 in
        let! pl := fdt_is_compatible fuel f node (str "arm,pl011") in
        if pl : bool then
          Ret (Some {| u_node := node; u_base := addr; u_kind := UART_PL011; u_shift := 0; u_width := 4 |})
        else
          let! g1 := fdt_is_compatible fuel f node (str "qcom,geni-debug-uart") in
          let! g2 := if g1 : bool then Ret true else fdt_is_compatible fuel f node (str "qcom,geni-uart") in
          if g2 : bool then
            Ret (Some {| u_node := node; u_base := addr; u_kind := UART_GENI; u_shift := 0; u_width := 4 |})
          else
            Ret (Some {| u_node := node; u_base := addr; u_kind := UART_8250; u_shift := shift;
                         u_width := width |})
    end.

Definition console_irq (fuel : nat) (f : fdt) (console_node : Z) : outcome Z :=
  if Z.eqb console_node FDT_NONE then Ret (-1)
  else
    let! v := fdt_getprop fuel f console_node (str "interrupts") in
    match v with
    | None => Ret (-1)
    | Some (p, len) =>
        if len <? 12 then Ret (-1)
        else
          let! type := fdt_cells f p 1 in
          let! num := fdt_cells f (p + 4) 1 in
          Ret (irq_number (u32 type) (u32 num))
    end.

End Drivers.
