(* ===== verification/FdtGen.v ===== *)
(** * What fdtgen.h leaves in the buffer

    A buffer is described by the bytes of its structure block and of its table
    of names; [calls_bytes] says that a block is the encoding of a sequence of
    calls, [gwf] that the writer is inside its buffer.  Every operation keeps
    [gwf] whether it overflows or not; [fg_finish_spec] is the blob. *)
From S2P Require Import Prelude Bytes Fdt.
Import Fdt.Reader Fdt.Gen.

(** ** Strings and words in a buffer *)

(** [b] holds [v] at [p]. *)
Definition holds (b : list Z) (p : Z) (v : list Z) : Prop := exists A B, b = A ++ v ++ B /\ zlen A = p.

Lemma holds_ld b p v i : holds b p v -> 0 <= i < zlen v -> ld b (p + i) = Ret (at_ v i).
Proof.
  intros (A & B & -> & <-) Hi. rewrite ld_app_r, ld_app_l, ld_ret by lia. done.
Qed.
Lemma holds_app b p v w : holds b p (v ++ w) <-> holds b p v /\ holds b (p + zlen v) w.
Proof.
  split.
  - intros (A & B & -> & <-). split; [exists A, (w ++ B)|exists (A ++ v), B]; by rewrite ?zlen_app, <- ?app_assoc.
  - intros [(A & B & E & <-) (A' & B' & E' & Hz)].
    exists A, B'. split; [|done].
    assert (A' = A ++ v) as ->.
    { rewrite app_assoc in E. rewrite E' in E. apply app_inj_1 in E as [-> _]; [done|].
      unfold zlen in Hz. rewrite length_app. lia. }
    by rewrite E', <- !app_assoc.
Qed.
Lemma holds_cons b p x v : holds b p (x :: v) <-> holds b p [x] /\ holds b (p + 1) v.
Proof. apply (holds_app b p [x] v). Qed.
Lemma holds_range b p v : holds b p v -> 0 <= p /\ p + zlen v <= zlen b.
Proof. intros (A & B & -> & <-). rewrite !zlen_app. pose proof (zlen_nonneg A). pose proof (zlen_nonneg B). lia. Qed.

Lemma holds_ld0 b p c v : holds b p (c :: v) -> ld b p = Ret c.
Proof.
  intros Hh. pose proof (holds_ld _ _ _ 0 Hh) as H. rewrite Z.add_0_r in H. rewrite H; [done|].
  rewrite zlen_cons. pose proof (zlen_nonneg v). lia.
Qed.

Lemma strlen_loop_at k b p n s :
  c_string s -> holds b (p + n) (s ++ [0]) -> (length s < k)%nat -> strlen_loop k b p n = Ret (n + zlen s).
Proof.
  intros Hs. revert k n.
  induction Hs as [|c s Hc Hs IH]; intros k n Hh Hk; (destruct k as [|k]; [cbn in Hk; lia|]); cbn [strlen_loop].
  all: rewrite (holds_ld0 _ _ _ _ Hh); cbn [obind].
  - cbn. by rewrite Z.add_0_r.
  - destruct (Z.eqb_spec c 0); [lia|]. cbn [app] in Hh. apply holds_cons in Hh as [_ Hh].
    rewrite IH; [f_equal; rewrite zlen_cons; lia| |cbn in Hk; lia]. by rewrite Z.add_assoc.
Qed.
Lemma strlen_at b p s : c_string s -> holds b p (s ++ [0]) -> strlen b p = Ret (zlen s).
Proof.
  intros Hs Hh. unfold strlen. rewrite (strlen_loop_at _ _ _ _ s); [done|done|by rewrite Z.add_0_r|].
  apply holds_range in Hh as [? H]. rewrite zlen_app in H. unfold zlen in H. cbn in H. lia.
Qed.

Lemma streq_at b p s t : c_string s -> c_string t -> holds b p (s ++ [0]) -> streq b p t = Ret (bool_decide (s = t)).
Proof.
  intros Hs Ht. revert p s Hs. induction Ht as [|x t Hx Ht IH]; intros p s Hs Hh; cbn [streq].
  all: destruct Hs as [|c s Hc Hs]; cbn [app] in Hh; rewrite (holds_ld0 _ _ _ _ Hh); cbn [obind].
  - done.
  - destruct (Z.eqb_spec c 0); [lia|]. done.
  - destruct (Z.eqb_spec 0 x); [lia|]. done.
  - apply holds_cons in Hh as [_ Hh]. destruct (Z.eqb_spec c x) as [->|Hne].
    + rewrite (IH _ s Hs Hh). f_equal. apply bool_decide_ext. split; [by intros ->|by intros [= ->]].
    + rewrite bool_decide_false; [done|congruence].
Qed.

Lemma get32_b_put32 v : 0 <= v < 2 ^ 32 -> get32 (b_put32 v) 0 = v.
Proof.
  intros. rewrite get32_sum by apply b_put32_bytes.
  change (at_ (b_put32 v) 0) with (u8 (Z.shiftr v 24)).
  change (at_ (b_put32 v) (0 + 1)) with (u8 (Z.shiftr v 16)).
  change (at_ (b_put32 v) (0 + 2)) with (u8 (Z.shiftr v 8)).
  change (at_ (b_put32 v) (0 + 3)) with (u8 v).
  rewrite !Z.shiftr_div_pow2 by lia. unfold uwrap. zdm.
Qed.
Lemma ld32be_at b p v : 0 <= v < 2 ^ 32 -> holds b p (b_put32 v) -> ld32be b p = Ret v.
Proof.
  intros Hv Hh. pose proof (get32_b_put32 v Hv) as E. unfold get32 in E.
  pose proof (fun i => holds_ld _ _ _ i Hh) as H. change (zlen (b_put32 v)) with 4 in H.
  unfold ld32be. pose proof (H 0) as H0. rewrite Z.add_0_r in H0. rewrite H0, !H by lia. cbn [obind].
  f_equal. exact E.
Qed.

(** Rounding up to a multiple of four. *)
Definition up4 (n : Z) : Z := (n + 3) / 4 * 4.
Lemma up4_range n : n <= up4 n < n + 4.
Proof. unfold up4. zdm. Qed.
Lemma align4_up4 n : 0 <= n < 2 ^ 31 -> align4 n = up4 n.
Proof.
  intros Hn. unfold align4, up4. rewrite uwrap_small by lia.
  change 0xfffffffc with (Z.shiftl (Z.ones 30) 2). change 4 with (2 ^ 2).
  assert ((n + 3) / 2 ^ 2 = ((n + 3) / 2 ^ 2) mod 2 ^ 30) as -> by (symmetry; apply Z.mod_small; zdm).
  rewrite <- (Z.shiftl_mul_pow2 (_ mod _)), <- Z.land_ones, <- Z.shiftr_div_pow2 by lia.
  apply Z.bits_inj'. intros i Hi. rewrite Z.land_spec. destruct (decide (i < 2)).
  - rewrite !Z.shiftl_spec_low by lia. apply andb_false_r.
  - rewrite !Z.shiftl_spec_high, Z.land_spec, Z.shiftr_spec by lia. do 2 f_equal. lia.
Qed.
Lemma pad_up4 n : 0 <= n -> Z.land (u32 (4 - Z.land n 3)) 3 = up4 n - n.
Proof.
  intros Hn. change 3 with (Z.ones 2). rewrite !Z.land_ones by lia. change (2 ^ 2) with 4.
  rewrite uwrap_small by zdm. unfold up4. zdm.
Qed.

(** ** The bytes of a sequence of calls *)

(** The table of names holds [n] at [noff]. *)
Definition interned (st : list Z) (noff : Z) (n : list Z) : Prop := holds st noff (n ++ [0]).

Definition call_size (c : call) : Z :=
  match c with
  | Node n => 4 + up4 (zlen n + 1)
  | Prop_ n v => 12 + up4 (zlen v)
  | End_ => 4
  end.

Definition call_bytes (st : list Z) (c : call) (bs : list Z) : Prop :=
  zlen bs = call_size c /\
  match c with
  | Node n => exists pad, bs = b_put32 FDT_BEGIN_NODE ++ (n ++ [0]) ++ pad
  | Prop_ n v => exists noff pad, interned st noff n /\ 0 <= noff < 2 ^ 31
      /\ bs = b_put32 FDT_PROP ++ b_put32 (zlen v) ++ b_put32 noff ++ v ++ pad
  | End_ => bs = b_put32 FDT_END_NODE
  end.

Inductive calls_bytes (st : list Z) : list call -> list Z -> Prop :=
  | cb_nil : calls_bytes st [] []
  | cb_cons c cs bs rest : call_bytes st c bs -> calls_bytes st cs rest -> calls_bytes st (c :: cs) (bs ++ rest).

Definition calls_size (cs : list call) : Z := foldr (fun c n => call_size c + n) 0 cs.

Lemma call_size_pos c : 4 <= call_size c.
Proof.
  destruct c; cbn; [pose proof (up4_range (zlen name + 1))|pose proof (up4_range (zlen val))|]; try lia.
  all: pose proof (zlen_nonneg name); try pose proof (zlen_nonneg val); lia.
Qed.
Lemma calls_size_app a b : calls_size (a ++ b) = calls_size a + calls_size b.
Proof. unfold calls_size. induction a; cbn; lia. Qed.
Lemma calls_size_nonneg cs : 0 <= calls_size cs.
Proof. unfold calls_size. induction cs as [|c cs IH]; cbn; [lia|]. pose proof (call_size_pos c). lia. Qed.
Lemma calls_bytes_size st cs bs : calls_bytes st cs bs -> zlen bs = calls_size cs.
Proof. induction 1 as [|c cs bs rest [H _] _ IH]; [done|]. rewrite zlen_app, H, IH. done. Qed.

Lemma interned_mono st x noff n : interned st noff n -> interned (st ++ x) noff n.
Proof. intros (A & B & -> & <-). exists A, (B ++ x). by rewrite <- !app_assoc. Qed.
Lemma call_bytes_mono st x c bs : call_bytes st c bs -> call_bytes (st ++ x) c bs.
Proof.
  intros [Hl H]. split; [done|]. destruct c; try done. destruct H as (noff & pad & ? & ? & ?).
  exists noff, pad. split; [by apply interned_mono|done].
Qed.
Lemma calls_bytes_mono st x cs bs : calls_bytes st cs bs -> calls_bytes (st ++ x) cs bs.
Proof. induction 1; constructor; [by apply call_bytes_mono|done]. Qed.
Lemma calls_bytes_snoc st cs bs c b :
  calls_bytes st cs bs -> call_bytes st c b -> calls_bytes st (cs ++ [c]) (bs ++ b).
Proof.
  induction 1 as [|c' cs b' rest H1 H2 IH]; intros Hc.
  - rewrite <- (app_nil_r b). by apply (cb_cons st c [] b []); [|constructor].
  - cbn [app]. rewrite <- app_assoc. constructor; auto.
Qed.
Lemma calls_bytes_split st pre post bs :
  calls_bytes st (pre ++ post) bs ->
  exists b1 b2, bs = b1 ++ b2 /\ calls_bytes st pre b1 /\ calls_bytes st post b2.
Proof.
  revert bs. induction pre as [|c pre IH]; intros bs H; cbn [app] in H.
  { exists [], bs. split; [done|]. split; [constructor|done]. }
  inversion H as [|c' cs' b rest Hb Hr E1 E2]; subst. destruct (IH _ Hr) as (b1 & b2 & -> & H1 & H2).
  exists (b ++ b1), b2. rewrite app_assoc. split; [done|]. split; [by constructor|done].
Qed.

(** ** The state of the writer *)
Definition gS (g : fdtgen) : list Z := slice (g_buf g) 64 (g_off g).
Definition gst (g : fdtgen) : list Z := slice (g_buf g) (fg_strings g) (g_stroff g).

(** The table is a sequence of strings. *)
Definition table (st : list Z) (names : list (list Z)) : Prop :=
  st = names ≫= (fun n => n ++ [0]) /\ Forall c_string names.

Record gwf (cap : Z) (g : fdtgen) : Prop := {
  gw_cap : g_cap g = cap; gw_len : zlen (g_buf g) = cap; gw_stcap : g_stcap g = cap / 4;
  gw_off : 0 <= g_off g; gw_fit : 64 + g_off g <= cap - cap / 4;
  gw_stroff : 0 <= g_stroff g <= cap / 4;
  gw_names : exists names, table (gst g) names
}.

Section writer.
Context (cap : Z) (Hcap : 128 <= cap < 2 ^ 30).

Lemma zlen_gS g : gwf cap g -> zlen (gS g) = g_off g.
Proof using Hcap. intros []. unfold gS. apply zlen_slice; lia. Qed.
Lemma zlen_gst g : gwf cap g -> zlen (gst g) = g_stroff g.
Proof using Hcap. intros []. unfold gst, fg_strings. apply zlen_slice; zdm. Qed.

Lemma store_ret b o v : 0 <= o -> o + zlen v <= zlen b -> store b o v = Ret (splice b o v).
Proof.
  intros. unfold store. destruct (Z.leb_spec 0 o), (Z.leb_spec (o + zlen v) (zlen b)); done || lia.
Qed.

Lemma slice_splice_end b s k v n :
  0 <= s -> 0 <= k -> zlen v <= n -> s + k + n <= zlen b ->
  slice (splice b (s + k) v) s (k + n) = slice b s k ++ v ++ slice b (s + k + zlen v) (n - zlen v).
Proof.
  intros Hs Hk Hv Hn. pose proof (zlen_nonneg v).
  assert (zlen (splice b (s + k) v) = zlen b) as Hl by (apply zlen_splice; lia).
  assert (zlen (slice (splice b (s + k) v) s (k + n)) = k + n) as E1 by (apply zlen_slice; lia).
  assert (zlen (slice b s k) = k) as E2 by (apply zlen_slice; lia).
  assert (zlen (slice b (s + k + zlen v) (n - zlen v)) = n - zlen v) as E3 by (apply zlen_slice; lia).
  apply buf_ext; [rewrite E1, !zlen_app, E2, E3; lia|]. rewrite E1. intros i Hi. rewrite at_slice by lia.
  destruct (decide (i < k)); [|destruct (decide (i < k + zlen v))].
  - rewrite at_app_l, at_slice, at_splice_out by lia. done.
  - rewrite at_app_r, at_app_l, at_splice_in by lia. f_equal. lia.
  - rewrite !at_app_r, at_slice, at_splice_out by lia. f_equal. lia.
Qed.

Lemma holds_slice b o n p v : 0 <= o -> 0 <= n -> o + n <= zlen b -> holds (slice b o n) p v -> holds b (o + p) v.
Proof.
  intros Ho Hn Hb (A & B & E & <-).
  exists (take (Z.to_nat o) b ++ A), (B ++ drop (Z.to_nat o + Z.to_nat n) b). split.
  - rewrite <- app_assoc, (app_assoc v), (app_assoc A), <- E. unfold slice.
    rewrite <- drop_drop, take_drop, take_drop. done.
  - rewrite zlen_app. f_equal. unfold zlen. rewrite length_take. unfold zlen in Hb. lia.
Qed.

Lemma append_spec g v n :
  gwf cap g -> zlen v <= n -> 64 + g_off g + n <= cap - cap / 4 ->
  exists g' pad, append g v n = Ret g' /\ gwf cap g' /\ g_overflow g' = g_overflow g
    /\ gst g' = gst g /\ gS g' = gS g ++ v ++ pad /\ zlen pad = n - zlen v.
Proof using Hcap.
  intros Hg Hv Hn. pose proof Hg as []. pose proof (zlen_nonneg v). unfold append, fg_struct, FDTGEN_HDR.
  assert (0 <= cap / 4 <= cap) by zdm.
  rewrite store_ret by lia. cbn [obind]. rewrite uwrap_small by lia.
  set (g' := {| g_buf := _ |}). exists g', (slice (g_buf g) (64 + g_off g + zlen v) (n - zlen v)).
  assert (zlen (g_buf g') = cap) as Hl by (cbn; rewrite zlen_splice; lia).
  assert (gst g' = gst g) as Est.
  { unfold gst, fg_strings; cbn. apply (slice_splice_ne _ _ _ _ _ cap); lia. }
  split; [done|]. split; [|split; [done|split; [done|split]]].
  - split; cbn; try done; try lia. by rewrite Est.
  - unfold gS; cbn. apply slice_splice_end; lia.
  - apply zlen_slice; lia.
Qed.

Lemma overflow_wf g : gwf cap g -> gwf cap (set_overflow g).
Proof. intros []. by split. Qed.

Lemma fg_put32_spec g v :
  gwf cap g -> exists g', fg_put32 g v = Ret g' /\ gwf cap g' /\
    (g_overflow g' = false -> g_overflow g = false /\ gst g' = gst g /\ gS g' = gS g ++ b_put32 v).
Proof using Hcap.
  intros Hg. pose proof Hg as []. unfold fg_put32, FDTGEN_HDR. rewrite gw_cap0, gw_stcap0.
  assert (0 <= cap / 4 <= cap) by zdm. rewrite !uwrap_small, Z.gtb_ltb by lia.
  destruct (Z.ltb_spec (cap - cap / 4) (64 + g_off g + 4)).
  { eexists. split; [done|]. split; [by apply overflow_wf|done]. }
  destruct (append_spec g (b_put32 v) 4 Hg) as (g' & pad & E & Hg' & Ho & Hst & HS & Hp); [done|lia|].
  exists g'. split; [done|]. split; [done|]. intros Hf. split; [congruence|]. split; [done|].
  rewrite HS. change (zlen (b_put32 v)) with 4 in Hp. destruct pad; [by rewrite app_nil_r|].
  rewrite zlen_cons in Hp. pose proof (zlen_nonneg pad). lia.
Qed.

Lemma fg_putbytes_spec g src :
  gwf cap g -> zlen src < 2 ^ 30 -> exists g', fg_putbytes g src = Ret g' /\ gwf cap g' /\
    (g_overflow g' = false -> g_overflow g = false /\ gst g' = gst g
     /\ exists pad, gS g' = gS g ++ src ++ pad /\ zlen pad = up4 (zlen src) - zlen src).
Proof using Hcap.
  intros Hg Hs. pose proof Hg as []. unfold fg_putbytes, FDTGEN_HDR. rewrite gw_cap0, gw_stcap0.
  pose proof (zlen_nonneg src). rewrite pad_up4 by done. pose proof (up4_range (zlen src)).
  assert (0 <= cap / 4 <= cap) by zdm. rewrite !uwrap_small, Z.gtb_ltb by lia.
  destruct (Z.ltb_spec (cap - cap / 4) (64 + g_off g + zlen src + (up4 (zlen src) - zlen src))).
  { eexists. split; [done|]. split; [by apply overflow_wf|done]. }
  destruct (append_spec g src (zlen src + (up4 (zlen src) - zlen src)) Hg)
    as (g' & pad & E & Hg' & Ho & Hst & HS & Hp); [lia|lia|].
  exists g'. split; [done|]. split; [done|]. intros Hf. split; [congruence|]. split; [done|].
  exists pad. split; [done|]. lia.
Qed.

(** ** The table of names *)
Lemma intern_loop_spec fuel g name pre post :
  gwf cap g -> c_string name -> table (gst g) (pre ++ post) -> (length post < fuel)%nat ->
  exists r, intern_loop fuel g (zlen (pre ≫= (fun n => n ++ [0]))) name = Ret r /\
    match r with inl i => interned (gst g) i name /\ 0 <= i < 2 ^ 31 | inr _ => True end.
Proof using Hcap.
  intros Hg Hn. revert pre fuel. induction post as [|c post IH]; intros pre fuel [Ht Hcs] Hf;
    (destruct fuel as [|fuel]; [cbn in Hf; lia|]); cbn [intern_loop].
  all: pose proof (zlen_gst g Hg) as Hl; rewrite Ht, bind_app, zlen_app in Hl; pose proof Hg as [].
  { cbn in Hl. destruct (Z.ltb_spec (zlen (pre ≫= (fun n => n ++ [0]))) (g_stroff g)); [change (zlen []) with 0 in Hl; lia|].
    by exists (inr tt). }
  set (o := zlen (pre ≫= _)) in *.
  assert (holds (gst g) o (c ++ [0])) as Hh.
  { rewrite Ht, bind_app. exists (pre ≫= (fun n => n ++ [0])), (post ≫= (fun n => n ++ [0])). done. }
  assert (c_string c) as Hc. { apply Forall_app in Hcs as [_ Hcs]. by inversion Hcs. }
  pose proof (holds_range _ _ _ Hh) as [Ho Hr]. rewrite zlen_gst in Hr by done. rewrite zlen_app in Hr. change (zlen [0]) with 1 in Hr.
  pose proof (zlen_nonneg c). assert (0 <= cap / 4 <= cap) by zdm.
  destruct (Z.ltb_spec o (g_stroff g)); [|lia].
  assert (holds (g_buf g) (fg_strings g + o) (c ++ [0])) as Hb.
  { apply (holds_slice _ _ (g_stroff g)); [unfold fg_strings; lia|lia|unfold fg_strings; lia|exact Hh]. }
  rewrite (streq_at _ _ c) by done. cbn [obind]. destruct (decide (c = name)) as [->|Hne].
  - rewrite bool_decide_true by done. eexists. split; [done|]. split; [done|lia].
  - rewrite bool_decide_false by done. rewrite (strlen_at _ _ c) by done. cbn [obind].
    rewrite uwrap_small by lia. replace (o + (zlen c + 1)) with (zlen ((pre ++ [c]) ≫= (fun n => n ++ [0]))).
    2: { rewrite bind_app, zlen_app. fold o. cbn. rewrite app_nil_r, zlen_app. done. }
    apply IH; [|cbn in Hf; lia]. rewrite <- app_assoc. done.
Qed.

Lemma names_length (names : list (list Z)) : (length names <= length (names ≫= (fun n => n ++ [0%Z])))%nat.
Proof. induction names as [|n names IH]; cbn; [lia|]. rewrite !length_app. cbn. lia. Qed.

Lemma fg_intern_spec g name :
  gwf cap g -> c_string name -> zlen name < 2 ^ 30 ->
  exists noff g', fg_intern g name = Ret (noff, g') /\ gwf cap g' /\ 0 <= noff < 2 ^ 31 /\
    (g_overflow g' = false -> g_overflow g = false /\ gS g' = gS g
     /\ (exists x, gst g' = gst g ++ x) /\ interned (gst g') noff name).
Proof using Hcap.
  intros Hg Hn Hl. pose proof Hg as [? ? ? ? ? ? [names Ht]]. unfold fg_intern.
  assert (length names <= length (gst g))%nat as Hnl.
  { destruct Ht as [-> _]. apply names_length. }
  assert (zlen (gst g) <= zlen (g_buf g)) by (rewrite zlen_gst by done; zdm).
  destruct (intern_loop_spec (S (length (g_buf g))) g name [] names) as (r & E & Hr);
    [done|done|done|unfold zlen in *; lia|].
  change (zlen ([] ≫= _)) with 0 in E. rewrite E. cbn [obind]. destruct r as [i|[]].
  { destruct Hr as [Hi ?]. exists i, g. split; [done|]. split; [done|]. split; [done|]. intros Hf.
    split; [done|]. split; [done|]. split; [exists []; by rewrite app_nil_r|done]. }
  pose proof (zlen_nonneg name). assert (0 <= cap / 4 <= cap) by zdm.
  rewrite uwrap_small, Z.gtb_ltb by lia.
  destruct (Z.ltb_spec (g_stcap g) (g_stroff g + (zlen name + 1))).
  { exists 0, (set_overflow g). split; [done|]. split; [by apply overflow_wf|]. split; [lia|done]. }
  assert (zlen (name ++ [0]) = zlen name + 1) as En by (by rewrite zlen_app).
  rewrite store_ret by (unfold fg_strings; lia). cbn [obind].
  set (g' := {| g_buf := _ |}). exists (g_stroff g), g'. split; [done|].
  assert (zlen (g_buf g') = cap) as Hlb by (cbn; rewrite zlen_splice; unfold fg_strings; lia).
  assert (gst g' = gst g ++ (name ++ [0])) as Est.
  { unfold gst, fg_strings; cbn.
    rewrite slice_splice_end by lia. rewrite En, Z.sub_diag. change (slice _ _ 0) with (@nil Z). by rewrite app_nil_r. }
  split; [|split; [lia|]].
  - split; cbn; try done; try lia. exists (names ++ [name]). rewrite Est. destruct Ht as [-> Hf]. split.
    + rewrite bind_app. cbn. by rewrite app_nil_r.
    + apply Forall_app. split; [done|]. by constructor.
  - intros Hf. split; [done|]. split; [|split; [by exists (name ++ [0])|]].
    + unfold gS; cbn. apply (slice_splice_ne _ _ _ _ _ cap); unfold fg_strings; lia.
    + rewrite Est. exists (gst g), []. rewrite app_nil_r. split; [done|by apply zlen_gst].
Qed.

(** ** Calls *)
Definition call_ok (c : call) : Prop :=
  match c with
  | Node n => c_string n /\ zlen n < 2 ^ 29
  | Prop_ n v => c_string n /\ zlen n < 2 ^ 29 /\ zlen v < 2 ^ 29
  | End_ => True
  end.

(** What a step adds to the two blocks, if it did not overflow. *)
Definition adds (g g' : fdtgen) (P : list Z -> list Z -> Prop) : Prop :=
  gwf cap g' /\ (g_overflow g' = false -> g_overflow g = false
    /\ exists x bs, gst g' = gst g ++ x /\ gS g' = gS g ++ bs /\ P (gst g') bs).

Lemma fg_prop_spec g name val :
  gwf cap g -> call_ok (Prop_ name val) ->
  exists g', fg_prop g name val = Ret g' /\ adds g g' (fun st bs => call_bytes st (Prop_ name val) bs).
Proof using Hcap.
  intros Hg (Hn & Hln & Hlv). unfold fg_prop.
  destruct (fg_intern_spec g name Hg Hn ltac:(lia)) as (noff & g1 & -> & H1 & Hnoff & P1). cbn [obind].
  destruct (fg_put32_spec g1 FDT_PROP H1) as (g2 & -> & H2 & P2). cbn [obind].
  destruct (fg_put32_spec g2 (zlen val) H2) as (g3 & -> & H3 & P3). cbn [obind].
  destruct (fg_put32_spec g3 noff H3) as (g4 & -> & H4 & P4). cbn [obind].
  assert (exists g5, (if zlen val =? 0 then Ret g4 else fg_putbytes g4 val) = Ret g5 /\ gwf cap g5 /\
    (g_overflow g5 = false -> g_overflow g4 = false /\ gst g5 = gst g4
     /\ exists pad, gS g5 = gS g4 ++ val ++ pad /\ zlen pad = up4 (zlen val) - zlen val)) as (g5 & -> & H5 & P5).
  { destruct (Z.eqb_spec (zlen val) 0) as [E|]; [|by apply fg_putbytes_spec; [|lia]].
    exists g4. split; [done|]. split; [done|]. intros Hf. split; [done|]. split; [done|].
    exists []. rewrite E. destruct val; [|rewrite zlen_cons in E; pose proof (zlen_nonneg val); lia].
    by rewrite !app_nil_r. }
  exists g5. split; [done|]. split; [done|]. intros Hf.
  destruct (P5 Hf) as (F4 & St5 & pad & S5 & Hp). destruct (P4 F4) as (F3 & St4 & S4).
  destruct (P3 F3) as (F2 & St3 & S3). destruct (P2 F2) as (F1 & St2 & S2).
  destruct (P1 F1) as (F0 & S1 & [x St1] & Hin). split; [done|].
  assert (gst g5 = gst g1) as E5 by congruence. rewrite E5.
  exists x, (b_put32 FDT_PROP ++ b_put32 (zlen val) ++ b_put32 noff ++ val ++ pad).
  split; [done|]. split; [by rewrite S5, S4, S3, S2, S1, <- !app_assoc|]. split.
  - rewrite !zlen_app, Hp. change (zlen (b_put32 _)) with 4. cbn. lia.
  - exists noff, pad. done.
Qed.

Lemma do_call_spec g c :
  gwf cap g -> call_ok c -> exists g', do_call g c = Ret g' /\ adds g g' (fun st bs => call_bytes st c bs).
Proof using Hcap.
  intros Hg Hc. destruct c as [n|n v|]; cbn [do_call].
  - destruct Hc as [Hn Hl]. unfold fg_node.
    destruct (fg_put32_spec g FDT_BEGIN_NODE Hg) as (g1 & -> & H1 & P1). cbn [obind].
    destruct (fg_putbytes_spec g1 (n ++ [0]) H1) as (g2 & -> & H2 & P2).
    { rewrite zlen_app. change (zlen [0]) with 1. lia. }
    exists g2. split; [done|]. split; [done|]. intros Hf.
    destruct (P2 Hf) as (F1 & St2 & pad & S2 & Hp). destruct (P1 F1) as (F0 & St1 & S1). split; [done|].
    exists [], (b_put32 FDT_BEGIN_NODE ++ (n ++ [0]) ++ pad). rewrite app_nil_r. split; [congruence|].
    split; [by rewrite S2, S1, <- !app_assoc|]. split; [|by exists pad].
    rewrite !zlen_app in *. change (zlen (b_put32 _)) with 4. change (zlen [0]) with 1 in *. cbn. lia.
  - by apply fg_prop_spec.
  - destruct (fg_put32_spec g FDT_END_NODE Hg) as (g1 & E & H1 & P1).
    exists g1. split; [exact E|]. split; [done|]. intros Hf. destruct (P1 Hf) as (F0 & St1 & S1). split; [done|].
    exists [], (b_put32 FDT_END_NODE). rewrite app_nil_r. done.
Qed.

Lemma do_calls_spec g cs :
  gwf cap g -> Forall call_ok cs ->
  exists g', do_calls g cs = Ret g' /\ adds g g' (fun st bs => calls_bytes st cs bs).
Proof using Hcap.
  intros Hg Hcs. revert g Hg. induction Hcs as [|c cs Hc Hcs IH]; intros g Hg; cbn [do_calls].
  - exists g. split; [done|]. split; [done|]. intros Hf. split; [done|]. exists [], [].
    rewrite !app_nil_r. split; [done|]. split; [done|constructor].
  - destruct (do_call_spec g c Hg Hc) as (g1 & -> & H1 & P1). cbn [obind].
    destruct (IH g1 H1) as (g2 & -> & H2 & P2). exists g2. split; [done|]. split; [done|]. intros Hf.
    destruct (P2 Hf) as (F1 & x2 & b2 & St2 & S2 & B2). destruct (P1 F1) as (F0 & x1 & b1 & St1 & S1 & B1).
    split; [done|]. exists (x1 ++ x2), (b1 ++ b2). split; [by rewrite St2, St1, app_assoc|].
    split; [by rewrite S2, S1, app_assoc|]. constructor; [|done]. rewrite St2. by apply call_bytes_mono.
Qed.

Lemma init_wf : gwf cap (fg_init cap).
Proof using Hcap.
  split; cbn; try done; try (rewrite zlen_zeros; lia); try zdm. exists [].
  split; [|done]. done.
Qed.

(** ** The finished blob *)
Lemma move_loop_spec k b to from :
  0 <= to <= from -> from + Z.of_nat k <= zlen b ->
  exists b', move_loop k b to from = Ret b' /\ zlen b' = zlen b
    /\ forall i, 0 <= i -> at_ b' i = if decide (to <= i < to + Z.of_nat k) then at_ b (i - to + from) else at_ b i.
Proof.
  revert b to from. induction k as [|k IH]; intros b to from Ht Hk; cbn [move_loop].
  { exists b. split; [done|]. split; [done|]. intros i Hi. case_decide; [lia|done]. }
  rewrite ld_ret by lia. cbn [obind]. assert (zlen [at_ b from] = 1) as E1 by done.
  rewrite store_ret by lia. cbn [obind].
  assert (zlen (splice b to [at_ b from]) = zlen b) as El by (apply zlen_splice; lia).
  destruct (IH (splice b to [at_ b from]) (to + 1) (from + 1)) as (b' & -> & Hl & Hat); [lia|lia|].
  exists b'. split; [done|]. split; [lia|]. intros i Hi. rewrite Hat by done.
  repeat case_decide; try lia.
  - rewrite at_splice_out by lia. f_equal; lia.
  - replace i with to by lia. rewrite at_splice_in, Z.sub_diag by lia. cbn. f_equal; lia.
  - by rewrite at_splice_out by lia.
Qed.

Lemma holds_at b p v :
  0 <= p -> p + zlen v <= zlen b -> (forall i, 0 <= i < zlen v -> at_ b (p + i) = at_ v i) -> holds b p v.
Proof.
  intros Hp Hl H. exists (take (Z.to_nat p) b), (drop (Z.to_nat p + length v) b). split.
  - rewrite <- (take_drop (Z.to_nat p) b) at 1. f_equal. rewrite <- drop_drop.
    rewrite <- (take_drop (length v) (drop (Z.to_nat p) b)) at 1. f_equal.
    assert (take (length v) (drop (Z.to_nat p) b) = slice b p (zlen v)) as ->.
    { unfold slice, zlen. by rewrite Nat2Z.id. }
    pose proof (zlen_nonneg v). apply buf_ext; [rewrite zlen_slice; lia|]. rewrite zlen_slice by lia.
    intros i Hi. rewrite at_slice by lia. by apply H.
  - unfold zlen in *. rewrite length_take. lia.
Qed.

Lemma zlen_fdt_header a b c d e : zlen (header a b c d e) = 40.
Proof. done. Qed.

Lemma fg_finish_spec g :
  gwf cap g ->
  exists total blob, fg_finish g = Ret (total, blob) /\ zlen blob = cap /\
    (total <> 0 -> g_overflow g = false /\
      let so := 64 + zlen (gS g) + 4 in
      holds blob 0 (header total 64 so (zlen (gst g)) (zlen (gS g) + 4))
      /\ holds blob 64 (gS g ++ b_put32 FDT_END) /\ holds blob so (gst g) /\ 0 <= total < 2 ^ 31).
Proof using Hcap.
  intros Hg. unfold fg_finish. destruct (fg_put32_spec g FDT_END Hg) as (g1 & -> & H1 & P1). cbn [obind].
  destruct (g_overflow g1) eqn:Ef.
  { exists 0, (g_buf g1). split; [done|]. split; [apply H1|done]. }
  destruct (P1 eq_refl) as (F0 & St1 & S1). pose proof H1 as []. unfold FDTGEN_HDR.
  assert (0 <= cap / 4 /\ cap - cap / 4 + cap / 4 = cap) by zdm.
  assert (fg_strings g1 = cap - cap / 4) as Efs by (unfold fg_strings; lia).
  destruct (move_loop_spec (Z.to_nat (g_stroff g1)) (g_buf g1) (64 + g_off g1) (fg_strings g1))
    as (b & -> & Hl & Hat); [lia|lia|]. cbn [obind].
  set (so := 64 + g_off g1) in *. set (st := g_stroff g1) in *.
  assert (zlen (zeros (cap - (so + st))) = cap - (so + st)) as Ez by (apply zlen_zeros; lia).
  rewrite gw_cap0, store_ret by lia. cbn [obind].
  set (b2 := splice b (so + st) _).
  assert (zlen b2 = cap) as Hl2 by (subst b2; rewrite zlen_splice; lia).
  rewrite (uwrap_small 32 (so + st)) by lia.
  rewrite store_ret by (rewrite ?zlen_fdt_header; lia). cbn [obind].
  set (b3 := splice b2 0 _).
  assert (zlen b3 = cap) as Hl3 by (subst b3; rewrite zlen_splice; rewrite ?zlen_fdt_header; lia).
  exists (so + st), b3. split; [done|]. split; [done|]. intros _. split; [done|].
  pose proof (zlen_gS g1 H1) as ES. pose proof (zlen_gst g1 H1) as Est. rewrite S1, zlen_app in ES.
  change (zlen (b_put32 _)) with 4 in ES. rewrite St1 in Est.
  assert (64 + zlen (gS g) + 4 = so) as -> by lia. cbv zeta. rewrite Est. fold st.
  replace (zlen (gS g) + 4) with (g_off g1) by lia.
  assert (forall i, 40 <= i < so + st -> at_ b3 i = at_ b i) as H3.
  { intros i Hi. subst b3 b2. rewrite at_splice_out by (rewrite ?zlen_fdt_header, ?zlen_splice; lia).
    rewrite at_splice_out by lia. done. }
  split; [|split; [|split; [|lia]]].
  - apply holds_at; [lia|rewrite zlen_fdt_header; lia|]. intros i Hi. rewrite zlen_fdt_header in Hi.
    subst b3. rewrite at_splice_in by (rewrite ?zlen_fdt_header; lia). f_equal; lia.
  - rewrite <- S1. apply holds_at; [lia|rewrite zlen_gS by done; lia|]. rewrite zlen_gS by done. intros i Hi.
    rewrite H3, Hat by lia. case_decide; [lia|]. unfold gS. by rewrite at_slice by lia.
  - apply holds_at; [lia|lia|]. intros i Hi. rewrite H3, Hat by lia. case_decide; [|lia].
    rewrite <- St1. unfold gst. rewrite at_slice by lia. f_equal. lia.
Qed.
End writer.
