(* ===== verification/FdtRun.v ===== *)
(** * What the kernel finds in a tree fdtgen.h wrote

    A reader [views] a sequence of calls when its blob has their encoding and
    their names; the offsets and depths of the nodes are then a function of the
    calls, [all_nodes], and so is what a lookup answers.  [node_loop_spec] is
    the walk every search is made of. *)
From S2P Require Import Prelude Bytes Fdt FdtGen.
Import Fdt.Reader Fdt.Gen.

Record views (f : fdt) (cs : list call) : Prop := {
  v_block : exists S, calls_bytes (slice (f_blob f) (f_strings f) (zlen (f_blob f) - f_strings f)) cs S
    /\ holds (f_blob f) (f_strukt f) (S ++ b_put32 FDT_END) /\ f_strukt_size f = zlen S + 4;
  v_strings : 0 <= f_strings f <= zlen (f_blob f);
  v_small : zlen (f_blob f) < 2 ^ 30;
  v_ok : Forall call_ok cs
}.

(** ** The nodes of a sequence of calls

    A node is its offset, its depth and the calls from it on. *)
Fixpoint next_nodes (off d : Z) (cs : list call) : list (Z * Z * list call) :=
  match cs with
  | [] => []
  | Node n :: r => (off, d + 1, cs) :: next_nodes (off + call_size (Node n)) (d + 1) r
  | Prop_ n v :: r => next_nodes (off + call_size (Prop_ n v)) d r
  | End_ :: r => if d - 1 <? 0 then [] else next_nodes (off + 4) (d - 1) r
  end.
Definition all_nodes (cs : list call) : list (Z * Z * list call) :=
  match cs with
  | Node n :: r => (0, 0, cs) :: next_nodes (call_size (Node n)) 0 r
  | _ => []
  end.

(** The properties at the start of some calls, and the one of a name. *)
Fixpoint props_of (cs : list call) : list (list Z * list Z) :=
  match cs with Prop_ n v :: r => (n, v) :: props_of r | _ => [] end.
Fixpoint find_prop (ps : list (list Z * list Z)) (name : list Z) : option (list Z) :=
  match ps with
  | [] => None
  | (n, v) :: ps => if decide (n = name) then Some v else find_prop ps name
  end.

(** The calls [suf] are those from offset [o] on. *)
Definition is_at (cs : list call) (o : Z) (suf : list call) : Prop :=
  exists pre, cs = pre ++ suf /\ calls_size pre = o.

Lemma is_at_next cs o c suf : is_at cs o (c :: suf) -> is_at cs (o + call_size c) suf.
Proof.
  intros (pre & -> & <-). exists (pre ++ [c]). rewrite <- app_assoc. split; [done|].
  rewrite calls_size_app. cbn. lia.
Qed.

Definition call_code (c : call) : Z :=
  match c with Node _ => FDT_BEGIN_NODE | Prop_ _ _ => FDT_PROP | End_ => FDT_END_NODE end.

Section view.
Context (f : fdt) (cs : list call) (Hv : views f cs).

Lemma is_at_range o suf : is_at cs o suf -> 0 <= o /\ o + calls_size suf + 4 = f_strukt_size f
  /\ f_strukt_size f < 2 ^ 30 /\ 0 <= f_strukt f.
Proof using Hv.
  intros (pre & -> & <-). destruct Hv as [(S & HS & Hh & Hz) _ ? _].
  pose proof (calls_bytes_size _ _ _ HS) as E. rewrite calls_size_app in E.
  pose proof (calls_size_nonneg pre). apply holds_range in Hh. rewrite zlen_app in Hh.
  change (zlen (b_put32 _)) with 4 in Hh. lia.
Qed.

(** The call at an offset, in the blob. *)
Lemma call_at o c suf : is_at cs o (c :: suf) ->
  call_ok c /\ exists bs, holds (f_blob f) (f_strukt f + o) bs
    /\ call_bytes (slice (f_blob f) (f_strings f) (zlen (f_blob f) - f_strings f)) c bs.
Proof using Hv.
  intros (pre & E & <-). destruct Hv as [(S & HS & Hh & Hz) _ _ Hok]. rewrite E in HS, Hok. split.
  { apply Forall_app in Hok as [_ Hok]. by inversion Hok. }
  apply calls_bytes_split in HS as (b1 & b2 & -> & H1 & H2).
  inversion H2 as [|c' cs' bs rest Hb Hr E1 E2]; subst. exists bs. split; [|done].
  rewrite <- (calls_bytes_size _ _ _ H1). rewrite <- !app_assoc in Hh.
  apply holds_app in Hh as [_ Hh]. by apply holds_app in Hh as [Hh _].
Qed.
Lemma end_at o : is_at cs o [] -> be32 f (f_strukt f + o) = Ret FDT_END.
Proof using Hv.
  intros (pre & E & <-). destruct Hv as [(S & HS & Hh & Hz) _ _ _]. rewrite app_nil_r in E. subst pre.
  apply holds_app in Hh as [_ Hh]. rewrite (calls_bytes_size _ _ _ HS) in Hh.
  by apply (ld32be_at _ _ FDT_END).
Qed.

Lemma code_at o c suf : is_at cs o (c :: suf) -> be32 f (f_strukt f + o) = Ret (call_code c).
Proof using Hv.
  intros H. destruct (call_at o c suf H) as (_ & bs & Hh & _ & Hb).
  apply ld32be_at; [destruct c; cbn; unfold FDT_BEGIN_NODE, FDT_PROP, FDT_END_NODE; lia|].
  destruct c; cbn [call_code].
  - destruct Hb as [pad ->]. by apply holds_app in Hh as [Hh _].
  - destruct Hb as (noff & pad & _ & _ & ->). by apply holds_app in Hh as [Hh _].
  - by rewrite Hb in Hh.
Qed.

(** The name of a node and the fields of a property. *)
Lemma node_at o n suf : is_at cs o (Node n :: suf) ->
  c_string n /\ zlen n < 2 ^ 29 /\ holds (f_blob f) (f_strukt f + o + 4) (n ++ [0]).
Proof using Hv.
  intros H. destruct (call_at o _ suf H) as ((Hn & Hl) & bs & Hh & _ & pad & ->).
  split; [done|]. split; [done|]. apply holds_app in Hh as [_ Hh]. by apply holds_app in Hh as [Hh _].
Qed.
Lemma prop_at o n v suf : is_at cs o (Prop_ n v :: suf) ->
  c_string n /\ zlen v < 2 ^ 29 /\ holds (f_blob f) (f_strukt f + o + 12) v
  /\ be32 f (f_strukt f + o + 4) = Ret (zlen v)
  /\ exists noff, be32 f (f_strukt f + o + 8) = Ret noff /\ holds (f_blob f) (f_strings f + noff) (n ++ [0]).
Proof using Hv.
  intros H. destruct (call_at o _ suf H) as ((Hn & _ & Hl) & bs & Hh & _ & noff & pad & Hi & Hno & ->).
  pose proof (zlen_nonneg v).
  split; [done|]. split; [done|].
  apply holds_app in Hh as [_ Hh]. apply holds_app in Hh as [Hh1 Hh]. apply holds_app in Hh as [Hh2 Hh].
  apply holds_app in Hh as [Hh3 _]. change (zlen (b_put32 _)) with 4 in *.
  rewrite <- !Z.add_assoc in *. split; [done|]. split; [apply ld32be_at; [lia|done]|].
  exists noff. split; [apply ld32be_at; [lia|done]|]. destruct Hv as [_ ? _ _].
  eapply holds_slice; [..|exact Hi]; lia.
Qed.

Lemma i32_small z : 0 <= z < 2 ^ 31 -> i32 z = z.
Proof. intros. unfold swrap. change (2 ^ (32 - 1)) with (2 ^ 31). rewrite Z.mod_small by lia. lia. Qed.

(** ** Steps *)
Lemma step_call o c suf : is_at cs o (c :: suf) -> step f o = Ret (o + call_size c, Some (call_code c)).
Proof using Hv.
  intros H. pose proof (is_at_range _ _ H) as (Ho & Hs & Hz & Hst). cbn [calls_size foldr] in Hs.
  pose proof (call_size_pos c). fold (calls_size suf) in Hs. pose proof (calls_size_nonneg suf).
  unfold step. rewrite (uwrap_small 32 (o + 4)), Z.gtb_ltb by lia.
  destruct (Z.ltb_spec (f_strukt_size f) (o + 4)); [lia|].
  rewrite (code_at _ _ _ H). cbn [obind]. destruct c as [n|n v|]; cbn [call_code call_size] in *.
  - destruct (node_at _ _ _ H) as (Hn & Hl & Hh). rewrite (strlen_at _ _ n) by done.
    cbn [obind Z.eqb FDT_BEGIN_NODE Pos.eqb]. pose proof (zlen_nonneg n). pose proof (up4_range (zlen n + 1)).
    rewrite (uwrap_small 32 (zlen n)), (uwrap_small 32 (zlen n + 1)) by lia.
    rewrite align4_up4, uwrap_small, i32_small by lia. do 2 f_equal. lia.
  - destruct (prop_at _ _ _ _ H) as (Hn & Hl & _ & Hlen & _). cbn [Z.eqb FDT_BEGIN_NODE FDT_PROP Pos.eqb].
    pose proof (zlen_nonneg v). pose proof (up4_range (zlen v)).
    rewrite (uwrap_small 32 (o + 12)), Z.gtb_ltb by lia.
    destruct (Z.ltb_spec (f_strukt_size f) (o + 12)); [lia|]. rewrite Hlen. cbn [obind].
    rewrite align4_up4, uwrap_small, i32_small by lia. do 2 f_equal. lia.
  - cbn [Z.eqb FDT_BEGIN_NODE FDT_PROP FDT_END_NODE Pos.eqb orb].
    by rewrite i32_small by lia.
Qed.
Lemma step_end o : is_at cs o [] -> step f o = Ret (FDT_NONE, Some FDT_END).
Proof using Hv.
  intros H. pose proof (is_at_range _ _ H) as (Ho & Hs & Hz & Hst). cbn in Hs.
  unfold step. rewrite (uwrap_small 32 (o + 4)), Z.gtb_ltb by lia.
  destruct (Z.ltb_spec (f_strukt_size f) (o + 4)); [lia|]. by rewrite (end_at _ H).
Qed.

Lemma next_node_loop_spec fuel o d suf :
  is_at cs o suf -> (length suf < fuel)%nat ->
  exists d', next_loop fuel f o d = Ret (match next_nodes o d suf with [] => (FDT_NONE, d') | (o1, d1, _) :: _ => (o1, d1) end).
Proof using Hv.
  revert o d suf. induction fuel as [|fuel IH]; intros o d suf H Hf; [lia|]. cbn [next_loop].
  pose proof (is_at_range _ _ H) as (Ho & Hs & Hz & Hst). pose proof (calls_size_nonneg suf).
  destruct (Z.eqb_spec o FDT_NONE) as [Ho'|_]; [unfold FDT_NONE in *; lia|]. rewrite uwrap_small by lia.
  destruct suf as [|c suf].
  { rewrite (step_end _ H). cbn. eauto. }
  rewrite (step_call _ _ _ H). cbn [obind]. pose proof (call_size_pos c).
  pose proof (IH (o + call_size c)) as IH'. cbn [length] in Hf.
  destruct c as [n|n v|]; cbn [call_code next_nodes].
  - exists 0. done.
  - cbn [Z.eqb FDT_BEGIN_NODE FDT_PROP FDT_END_NODE FDT_END Pos.eqb andb orb].
    destruct (Z.eqb_spec (o + call_size (Prop_ n v)) FDT_NONE); [unfold FDT_NONE in *; lia|].
    apply IH'; [by apply is_at_next|lia].
  - cbn [Z.eqb FDT_BEGIN_NODE FDT_PROP FDT_END_NODE FDT_END Pos.eqb andb orb].
    destruct (Z.ltb_spec (d - 1) 0); [by exists (d - 1)|].
    destruct (Z.eqb_spec (o + call_size End_) FDT_NONE); [unfold FDT_NONE in *; cbn in *; lia|].
    apply IH'; [by apply is_at_next|lia].
Qed.

Lemma is_at_length o suf : is_at cs o suf -> (length suf <= length cs)%nat.
Proof. intros (pre & -> & _). rewrite length_app. lia. Qed.

Lemma fdt_next_node_spec fuel o d n suf :
  is_at cs o (Node n :: suf) -> (length cs < fuel)%nat ->
  exists d', fdt_next_node fuel f o d
  = Ret (match next_nodes (o + call_size (Node n)) d suf with [] => (FDT_NONE, d') | (o1, d1, _) :: _ => (o1, d1) end).
Proof using Hv.
  intros H Hf. unfold fdt_next_node. pose proof (is_at_range _ _ H) as (Ho & Hs & Hz & Hst).
  pose proof (calls_size_nonneg (Node n :: suf)). rewrite uwrap_small by lia.
  rewrite (step_call _ _ _ H). cbn [obind]. pose proof (is_at_length _ _ H) as Hl. cbn [length] in Hl.
  apply next_node_loop_spec; [by apply is_at_next|lia].
Qed.

(** What follows the first of the next nodes is the nodes next to it. *)
Lemma next_nodes_cons o d suf o1 d1 s1 l :
  is_at cs o suf -> next_nodes o d suf = (o1, d1, s1) :: l ->
  exists n r, s1 = Node n :: r /\ is_at cs o1 s1 /\ l = next_nodes (o1 + call_size (Node n)) d1 r
    /\ (length s1 <= length suf)%nat.
Proof.
  revert o d. induction suf as [|c suf IH]; intros o d H E; cbn [next_nodes] in E; [done|].
  pose proof (is_at_next _ _ _ _ H) as Hn. destruct c as [n|n v|].
  - injection E as <- <- <- <-. eauto 6.
  - apply (IH _ _ Hn) in E as (n1 & r & ? & ? & ? & ?). exists n1, r. cbn [length]. eauto with lia.
  - destruct (Z.ltb_spec (d - 1) 0); [done|].
    apply (IH _ _ Hn) in E as (n1 & r & ? & ? & ? & ?). exists n1, r. cbn [length]. eauto with lia.
Qed.

(** ** The walk *)
Fixpoint fold_nodes {S R} (g : Z -> Z -> list call -> S -> R + S) (l : list (Z * Z * list call)) (s : S) : R + S :=
  match l with
  | [] => inr s
  | (o, d, suf) :: l => match g o d suf s with inl x => inl x | inr s => fold_nodes g l s end
  end.

(** [I] holds of the states the loop goes through. *)
Lemma node_loop_spec {S R} (I : S -> Prop) fuel k (body : Z -> Z -> S -> outcome (R + S)) g o d n r s :
  (forall o d n r s, is_at cs o (Node n :: r) -> I s ->
     body o d s = Ret (g o d (Node n :: r) s) /\ match g o d (Node n :: r) s with inr s' => I s' | inl _ => True end) ->
  I s -> is_at cs o (Node n :: r) -> (length cs < fuel)%nat -> (length (Node n :: r) < k)%nat ->
  node_loop fuel k f body o d s
  = Ret (fold_nodes g ((o, d, Node n :: r) :: next_nodes (o + call_size (Node n)) d r) s).
Proof using Hv.
  intros Hg. revert o d n r s. induction k as [|k IH]; intros o d n r s HI H Hf Hk; [lia|]. cbn [node_loop].
  pose proof (is_at_range _ _ H) as (Ho & _).
  destruct (Z.eqb_spec o FDT_NONE) as [Ho'|_]; [unfold FDT_NONE in *; lia|].
  destruct (Hg o d n r s H HI) as [-> HI']. cbn [obind fold_nodes].
  destruct (g o d (Node n :: r) s) as [x|s']; [done|].
  destruct (fdt_next_node_spec fuel o d n r H Hf) as (d' & ->). cbn [obind].
  destruct (next_nodes (o + call_size (Node n)) d r) as [|[[o1 d1] s1] l] eqn:E.
  - destruct k as [|k]; [cbn in Hk; lia|]. done.
  - apply next_nodes_cons in E as (n1 & r1 & -> & H1 & -> & Hl); [|by apply is_at_next].
    apply IH; [done|done|done|]. cbn [length] in *. lia.
Qed.

Lemma fdt_root_spec fuel n r : cs = Node n :: r -> (0 < fuel)%nat -> fdt_root fuel f = Ret 0.
Proof using Hv.
  intros E Hf. destruct fuel as [|fuel]; [lia|]. unfold fdt_root. cbn [root_loop].
  assert (is_at cs 0 (Node n :: r)) as H by (exists []; by rewrite E).
  pose proof (is_at_range _ _ H) as (_ & Hs & Hz & _).
  pose proof (calls_size_nonneg r). pose proof (call_size_pos (Node n)). unfold calls_size in *. cbn [foldr] in Hs.
  change (u32 (0 + 4)) with 4. destruct (Z.leb_spec 4 (f_strukt_size f)); [|lia].
  by rewrite (code_at _ _ _ H).
Qed.

Lemma each_node_inv {S R} (I : S -> Prop) fuel (body : Z -> Z -> S -> outcome (R + S)) g s :
  (forall o d n r s, is_at cs o (Node n :: r) -> I s ->
     body o d s = Ret (g o d (Node n :: r) s) /\ match g o d (Node n :: r) s with inr s' => I s' | inl _ => True end) ->
  I s -> (exists n r, cs = Node n :: r) -> (length cs < fuel)%nat ->
  each_node fuel f body s = Ret (fold_nodes g (all_nodes cs) s).
Proof using Hv.
  intros Hg HI (n & r & E) Hf. unfold each_node. rewrite (fdt_root_spec fuel n r E) by lia. cbn [obind].
  rewrite (node_loop_spec I fuel fuel body g 0 0 n r s Hg).
  - unfold all_nodes. rewrite E. done.
  - done.
  - exists []. by rewrite E.
  - done.
  - by rewrite <- E.
Qed.
Lemma each_node_spec {S R} fuel (body : Z -> Z -> S -> outcome (R + S)) g s :
  (forall o d n r s, is_at cs o (Node n :: r) -> body o d s = Ret (g o d (Node n :: r) s)) ->
  (exists n r, cs = Node n :: r) -> (length cs < fuel)%nat ->
  each_node fuel f body s = Ret (fold_nodes g (all_nodes cs) s).
Proof using Hv.
  intros Hg Hr Hf. apply (each_node_inv (fun _ => True)); [|done|done|done].
  intros o d n r s' H _. split; [by apply Hg|]. by case_match.
Qed.

(** ** Lookups *)
Lemma getprop_loop_spec fuel o suf name :
  is_at cs o suf -> (length suf < fuel)%nat -> c_string name ->
  match find_prop (props_of suf) name with
  | Some v => exists p, getprop_loop fuel f o name = Ret (Some (p, zlen v)) /\ holds (f_blob f) p v /\ zlen v < 2 ^ 29
  | None => getprop_loop fuel f o name = Ret None
  end.
Proof using Hv.
  intros H Hf Hn. revert o suf H Hf. induction fuel as [|fuel IH]; intros o suf H Hf; [lia|]. cbn [getprop_loop].
  pose proof (is_at_range _ _ H) as (Ho & Hs & Hz & Hst). pose proof (calls_size_nonneg suf).
  destruct (Z.eqb_spec o FDT_NONE) as [Ho'|_]; [unfold FDT_NONE in *; lia|]. cbn [negb andb].
  rewrite !i32_small by lia. destruct (Z.leb_spec (o + 4) (f_strukt_size f)); [|lia].
  destruct suf as [|c suf]; [by rewrite (end_at _ H)|].
  rewrite (code_at _ _ _ H). cbn [obind]. destruct c as [n|n v|]; cbn [call_code props_of find_prop].
  - done.
  - destruct (prop_at _ _ _ _ H) as (Hns & Hl & Hh & Hlen & noff & Hno & Hnm).
    cbn [Z.eqb FDT_NOP FDT_PROP Pos.eqb negb]. rewrite Hlen. cbn [obind]. rewrite Hno. cbn [obind].
    rewrite (streq_at _ _ n) by done. cbn [obind]. destruct (decide (n = name)) as [->|Hne].
    + rewrite bool_decide_true by done. eauto.
    + rewrite bool_decide_false by done. pose proof (is_at_next _ _ _ _ H) as H'.
      pose proof (is_at_range _ _ H') as (_ & Hs' & _). pose proof (calls_size_nonneg suf).
      pose proof (zlen_nonneg v). pose proof (up4_range (zlen v)). cbn [call_size] in *.
      rewrite align4_up4, uwrap_small, i32_small by lia.
      replace (o + 12 + up4 (zlen v)) with (o + (12 + up4 (zlen v))) by lia. apply IH; [done|cbn in Hf; lia].
  - done.
Qed.

Lemma fdt_getprop_spec fuel o n suf name :
  is_at cs o (Node n :: suf) -> (length cs < fuel)%nat -> c_string name ->
  match find_prop (props_of suf) name with
  | Some v => exists p, fdt_getprop fuel f o name = Ret (Some (p, zlen v)) /\ holds (f_blob f) p v /\ zlen v < 2 ^ 29
  | None => fdt_getprop fuel f o name = Ret None
  end.
Proof using Hv.
  intros H Hf Hn. unfold fdt_getprop. pose proof (is_at_range _ _ H) as (Ho & Hs & Hz & Hst).
  pose proof (calls_size_nonneg (Node n :: suf)). pose proof (is_at_length _ _ H) as Hl. cbn [length] in Hl.
  destruct (Z.eqb_spec o FDT_NONE) as [Ho'|_]; [unfold FDT_NONE in *; lia|].
  rewrite uwrap_small by lia. rewrite (step_call _ _ _ H). cbn [obind].
  apply getprop_loop_spec; [by apply is_at_next|lia|done].
Qed.
End view.

(** ** Opening a finished blob *)
Lemma holds_slice_all b p v : holds b p v -> exists B, slice b p (zlen b - p) = v ++ B.
Proof.
  intros (A & B & -> & <-). exists B. rewrite slice_app_r, Z.sub_diag by lia. unfold slice.
  change (Z.to_nat 0) with 0%nat. rewrite drop_0. apply take_ge. rewrite zlen_app. unfold zlen. lia.
Qed.

Lemma get32_at b p v : holds b p v -> zlen v = 4 -> ld32be b p = Ret (get32 v 0).
Proof.
  intros Hh Hl. unfold ld32be. pose proof (fun i => holds_ld _ _ _ i Hh) as H.
  pose proof (H 0) as H0. rewrite Z.add_0_r in H0. rewrite H0, !H by lia. done.
Qed.

(** A 32-bit property of the root, or its default. *)
Definition cells_of (ps : list (list Z * list Z)) (name : list Z) (dflt : Z) : Z :=
  match find_prop ps name with Some v => if Z.eqb (zlen v) 4 then get32 v 0 else dflt | None => dflt end.

Lemma root_cells_spec f cs fuel n r name dflt :
  views f cs -> cs = Node n :: r -> (length cs < fuel)%nat -> c_string name ->
  root_cells fuel f 0 name dflt = Ret (cells_of (props_of r) name dflt).
Proof.
  intros Hv E Hf Hn. unfold root_cells, cells_of.
  pose proof (fdt_getprop_spec f cs Hv fuel 0 n r name) as H.
  destruct (find_prop (props_of r) name) as [v|].
  - destruct H as (p & -> & Hh & _); [exists []; by rewrite E|done|done|]. cbn [obind].
    destruct (Z.eqb_spec (zlen v) 4); [|done]. by apply get32_at.
  - by rewrite H by (done || (exists []; by rewrite E)).
Qed.

(** The reader's record for the blob of a finished tree. *)
Definition opened (total : Z) (blob : list Z) (cs : list call) (ac sc : Z) : fdt :=
  {| f_blob := blob; f_strukt := 64; f_strukt_size := calls_size cs + 4; f_strings := 64 + calls_size cs + 4;
     f_total := total; f_addr_cells := ac; f_size_cells := sc |}.

Lemma c_string_dec_true s : bool_decide (c_string s) = true -> c_string s.
Proof. apply bool_decide_eq_true. Qed.
Ltac cstring := apply c_string_dec_true; vm_compute; reflexivity.

Lemma fdt_init_spec cap cs fuel :
  128 <= cap < 2 ^ 30 -> Forall call_ok cs -> (length cs < fuel)%nat ->
  forall n r, cs = Node n :: r ->
  exists g total blob, do_calls (fg_init cap) cs = Ret g /\ fg_finish g = Ret (total, blob) /\
    (total <> 0 ->
     let f := opened total blob cs (cells_of (props_of r) (str "#address-cells") 2)
                (cells_of (props_of r) (str "#size-cells") 1) in
     fdt_init fuel (Some blob) = Ret (Some f) /\ views f cs).
Proof.
  intros Hcap Hcs Hf n r Ecs.
  destruct (do_calls_spec cap Hcap (fg_init cap) cs (init_wf cap Hcap) Hcs) as (g & Eg & Hg & P).
  destruct (fg_finish_spec cap Hcap g Hg) as (total & blob & Ef & Hl & Q).
  exists g, total, blob. split; [done|]. split; [done|]. intros Ht. cbv zeta.
  destruct (Q Ht) as (Ho & Hh & Hs & Hst & Htot). clear Q. destruct (P Ho) as (_ & x & bs & Ex & Eb & Hb).
  assert (gS g = bs) as ES. { rewrite Eb. done. } rewrite ES in *.
  pose proof (calls_bytes_size _ _ _ Hb) as Esz. rewrite Esz in *.
  destruct (holds_slice_all _ _ _ Hst) as [B EB].
  pose proof (holds_range _ _ _ Hs) as [_ Hr1]. rewrite zlen_app, Esz in Hr1. change (zlen (b_put32 _)) with 4 in Hr1.
  pose proof (holds_range _ _ _ Hst) as [_ Hr2]. pose proof (zlen_nonneg (gst g)). pose proof (calls_size_nonneg cs).
  assert (forall ac sc, views (opened total blob cs ac sc) cs) as Hviews.
  { intros ac sc. split; cbn; [|lia|lia|done]. exists bs. rewrite Hl in EB. rewrite Hl, EB. split; [by apply calls_bytes_mono|].
    split; [done|lia]. }
  split; [|by apply Hviews]. unfold fdt_init. unfold header in Hh.
  repeat match type of Hh with
  | holds _ _ (_ ++ _) => let H1 := fresh "Hw" in apply holds_app in Hh as [H1 Hh]; change (zlen (b_put32 _)) with 4 in Hh
  end. cbn [Z.add Pos.add Pos.succ Pos.add_carry] in *.
  rewrite (ld32be_at _ _ FDT_MAGIC) by done. cbn [obind Z.eqb Pos.eqb FDT_MAGIC negb].
  rewrite (ld32be_at _ 4 total), (ld32be_at _ 8 64), (ld32be_at _ 12 (64 + calls_size cs + 4)),
    (ld32be_at _ 36 (calls_size cs + 4)) by (done || lia).
  cbn [obind]. fold (opened total blob cs 2 1).
  rewrite (fdt_root_spec _ cs (Hviews 2 1) fuel n r Ecs) by lia. cbn [obind Z.eqb FDT_NONE].
  rewrite !(root_cells_spec _ cs fuel n r) by (try done; cstring). done.
Qed.

Lemma all_nodes_at cs o d suf :
  (o, d, suf) ∈ all_nodes cs -> is_at cs o suf /\ exists n r, suf = Node n :: r.
Proof.
  destruct cs as [|[n|n v|] r]; cbn [all_nodes]; intros H; try by apply elem_of_nil in H.
  apply elem_of_cons in H as [[= -> -> ->]|H]; [split; [by exists []|eauto]|].
  assert (is_at (Node n :: r) (call_size (Node n)) r) as Hat by (exists [Node n]; split; [done|cbn; lia]).
  revert H Hat. generalize (call_size (Node n)) 0. generalize (Node n :: r) as cs. clear n. intros cs.
  induction r as [|c r IH]; intros o0 d0 H Hat; cbn [next_nodes] in H; [by apply elem_of_nil in H|].
  pose proof (is_at_next _ _ _ _ Hat) as Hat'. destruct c as [n|n v|].
  - apply elem_of_cons in H as [[= -> -> ->]|H]; [eauto|by eapply IH].
  - by eapply IH.
  - destruct (d0 - 1 <? 0); [by apply elem_of_nil in H|by eapply IH].
Qed.

(** The offsets and depths of a walk. *)
Definition places (l : list (Z * Z * list call)) : list (Z * Z) := (fun '(o, d, _) => (o, d)) <$> l.

Lemma fold_places (l : list (Z * Z * list call)) acc :
  fold_nodes (R := False) (fun o d _ acc => inr (acc ++ [(o, d)])) l acc = inr (acc ++ places l).
Proof.
  revert acc. induction l as [|[[o d] s] l IH]; intros acc; cbn; [by rewrite app_nil_r|].
  rewrite IH. by rewrite <- app_assoc.
Qed.


