(* ===== verification/FdtFind.v ===== *)
(** * Searches of a tree, as searches of its nodes

    A node is seen as its depth, its name and its properties ([node_of]); the
    loops of fdt.c that stop at the first node with some quality are
    [List.find] over those, and what a driver reads at the node found is a
    function of its properties. *)
From S2P Require Import Prelude Bytes Fdt FdtGen FdtRun.
Import Fdt.Reader Fdt.Gen Fdt.Handover Fdt.Drivers.

Record node := { n_depth : Z; n_name : list Z; n_props : list (list Z * list Z) }.

Definition name_of (suf : list call) : list Z := match suf with Node n :: _ => n | _ => [] end.
Definition node_of (x : Z * Z * list call) : node :=
  let '(_, d, suf) := x in {| n_depth := d; n_name := name_of suf; n_props := props_of (tail suf) |}.
Definition nodes_of (cs : list call) : list node := node_of <$> all_nodes cs.

Lemma find_fmap {A B} (h : A -> B) P l : List.find P (h <$> l) = h <$> List.find (fun x => P (h x)) l.
Proof. induction l as [|x l IH]; cbn; [done|]. by destruct (P (h x)). Qed.
Lemma find_app {A} (P : A -> bool) l k :
  List.find P (l ++ k) = match List.find P l with Some x => Some x | None => List.find P k end.
Proof. induction l as [|x l IH]; cbn; [done|]. by destruct (P x). Qed.
Lemma find_none {A} (P : A -> bool) l : Forall (fun x => P x = false) l -> List.find P l = None.
Proof. induction 1 as [|x l H _ IH]; cbn; [done|]. by rewrite H. Qed.

(** ** Values *)

(** The strings of a list of strings. *)
Fixpoint split0 (acc v : list Z) : list (list Z) :=
  match v with
  | [] => []
  | c :: v => if Z.eqb c 0 then acc :: split0 [] v else split0 (acc ++ [c]) v
  end.
Definition strings_of (v : list Z) : list (list Z) := split0 [] v.

Lemma split0_string acc s v : c_string s -> split0 acc (s ++ 0 :: v) = (acc ++ s) :: strings_of v.
Proof.
  intros Hs. revert acc. induction Hs as [|c s Hc Hs IH]; intros acc; cbn [app split0].
  - by rewrite app_nil_r.
  - destruct (Z.eqb_spec c 0); [lia|]. rewrite IH, <- app_assoc. done.
Qed.
Lemma strings_of_table v l : table v l -> strings_of v = l.
Proof.
  intros [-> Hl]. induction Hl as [|s l Hs Hl IH]; [done|].
  cbn [mbind list_bind]. rewrite <- app_assoc. cbn [app]. unfold strings_of. rewrite (split0_string [] s) by done.
  by rewrite IH.
Qed.

Definition compat_list (ps : list (list Z * list Z)) : list (list Z) :=
  match find_prop ps (str "compatible") with Some v => strings_of v | None => [] end.
Definition has_compat (c : list Z) (n : node) : bool := bool_decide (c ∈ compat_list (n_props n)).
Definition compat_wf (n : node) : Prop :=
  match find_prop (n_props n) (str "compatible") with Some v => exists l, table v l | None => True end.

(** The names a path segment matches: the whole, or what is before the '@'. *)
Fixpoint bare_of (s : list Z) : list Z :=
  match s with [] => [] | c :: s => if Z.eqb c 64 then [] else c :: bare_of s end.
Definition matches (seg : list Z) (n : node) : bool :=
  Z.eqb (n_depth n) 1 && (bool_decide (seg = n_name n) || bool_decide (seg = bare_of (n_name n))).

Lemma bare_prefix s : bare_of s `prefix_of` s.
Proof.
  induction s as [|c s IH]; cbn; [done|]. destruct (c =? 64); [apply prefix_nil|by apply prefix_cons].
Qed.
Lemma bare_loop_at k b p n s :
  c_string s -> holds b (p + n) (s ++ [0]) -> (length s < k)%nat -> bare_loop k b p n = Ret (n + zlen (bare_of s)).
Proof.
  intros Hs. revert k n.
  induction Hs as [|c s Hc Hs IH]; intros k n Hh Hk; (destruct k as [|k]; [cbn in Hk; lia|]); cbn [bare_loop].
  all: rewrite (holds_ld0 _ _ _ _ Hh); cbn [obind bare_of].
  - cbn. by rewrite Z.add_0_r.
  - destruct (Z.eqb_spec c 0); [lia|]. cbn [orb]. destruct (Z.eqb_spec c 64).
    { by rewrite zlen_nil, Z.add_0_r. }
    cbn [app] in Hh. apply holds_cons in Hh as [_ Hh].
    rewrite IH; [f_equal; rewrite zlen_cons; lia| |cbn in Hk; lia]. by rewrite Z.add_assoc.
Qed.
Lemma strneq_at b p s t :
  c_string s -> c_string t -> holds b p (s ++ [0]) -> strneq b p t = Ret (bool_decide (t `prefix_of` s)).
Proof.
  intros Hs Ht. revert p s Hs. induction Ht as [|x t Hx Ht IH]; intros p s Hs Hh; cbn [strneq].
  { rewrite bool_decide_true; [done|apply prefix_nil]. }
  destruct Hs as [|c s Hc Hs]; cbn [app] in Hh; rewrite (holds_ld0 _ _ _ _ Hh); cbn [obind].
  - destruct (Z.eqb_spec 0 x); [lia|]. rewrite bool_decide_false; [done|]. by intros H%prefix_nil_not.
  - apply holds_cons in Hh as [_ Hh]. destruct (Z.eqb_spec c x) as [->|Hne].
    + rewrite (IH _ s Hs Hh). f_equal. apply bool_decide_ext. split; [apply prefix_cons|apply prefix_cons_inv_2].
    + rewrite bool_decide_false; [done|]. intros H%prefix_cons_inv_1. congruence.
Qed.

(** ** Words *)
Section view.
Context (f : fdt) (cs : list call) (Hv : views f cs) (fuel : nat) (Hf : (length cs < fuel)%nat).

Lemma cells_1 p w v : 0 <= w < 2 ^ 32 -> holds (f_blob f) p (b_put32 w ++ v) -> fdt_cells f p 1 = Ret w.
Proof.
  intros Hw Hh. apply holds_app in Hh as [Hh _]. unfold fdt_cells. change (Z.to_nat 1) with 1%nat. cbn [cells_loop].
  change (u32 (0 * 4)) with 0. rewrite Z.add_0_r. unfold be32. rewrite (ld32be_at _ _ w) by done. done.
Qed.
Lemma cells_2 p x v : 0 <= x < 2 ^ 64 -> holds (f_blob f) p (v_u64 x ++ v) -> fdt_cells f p 2 = Ret x.
Proof.
  clear Hv Hf. intros Hx Hh. apply holds_app in Hh as [Hh _]. unfold v_u64 in Hh. apply holds_app in Hh as [H1 H2].
  change (zlen (b_put32 _)) with 4 in H2. unfold fdt_cells. change (Z.to_nat 2) with 2%nat. cbn [cells_loop].
  change (u32 (0 * 4)) with 0. change (u32 ((0 + 1) * 4)) with 4. rewrite Z.add_0_r. unfold be32.
  assert (0 <= Z.shiftr x 32 < 2 ^ 32) as Hs by (rewrite Z.shiftr_div_pow2 by lia; zdm).
  rewrite (ld32be_at _ _ (Z.shiftr x 32)) by done. cbn [obind].
  assert (b_put32 x = b_put32 (x mod 2 ^ 32)) as E.
  { unfold b_put32, uwrap. rewrite !Z.shiftr_div_pow2 by lia. repeat (f_equal; [zdm|]). f_equal. zdm. }
  rewrite E in H2. rewrite (ld32be_at _ _ (x mod 2 ^ 32)) by (done || zdm). cbn [obind].
  change (u64 (Z.shiftl 0 32)) with 0. rewrite Z.lor_0_l. f_equal.
  rewrite uwrap_small by (rewrite Z.shiftl_mul_pow2, Z.shiftr_div_pow2 by lia; zdm).
  rewrite Z.lor_comm, lor_shiftl_add by (lia || zdm). rewrite Z.shiftr_div_pow2 by lia. zdm.
Qed.

(** ** The first node with a quality *)
Lemma fold_find (P : node -> bool) l :
  fold_nodes (R := Z) (fun o d suf (_ : unit) => if P (node_of (o, d, suf)) then inl o else inr tt) l tt
  = match List.find (fun x => P (node_of x)) l with Some (o, _, _) => inl o | None => inr tt end.
Proof.
  induction l as [|[[o d] s] l IH]; cbn [fold_nodes List.find]; [done|]. by destruct (P (node_of (o, d, s))).
Qed.

(** [found_at o nd]: the node at [o] is [nd]. *)
Definition found_at (o : Z) (nd : node) : Prop :=
  exists n suf, is_at cs o (Node n :: suf) /\ n_name nd = n /\ n_props nd = props_of suf.

Lemma first_node (P : node -> bool) :
  match List.find P (nodes_of cs) with
  | Some nd => exists o, fold_nodes (R := Z) (fun o d suf (_ : unit) => if P (node_of (o, d, suf)) then inl o else inr tt)
                 (all_nodes cs) tt = inl o /\ found_at o nd
  | None => fold_nodes (R := Z) (fun o d suf (_ : unit) => if P (node_of (o, d, suf)) then inl o else inr tt)
                 (all_nodes cs) tt = inr tt
  end.
Proof.
  rewrite fold_find. unfold nodes_of. rewrite find_fmap.
  destruct (List.find _ (all_nodes cs)) as [[[o d] suf]|] eqn:E; cbn; [|done].
  exists o. split; [done|]. apply List.find_some in E as [Hin _]. apply list_elem_of_In in Hin.
  apply all_nodes_at in Hin as [Hat (n & r & ->)]. exists n, r. done.
Qed.

Lemma prop_found o nd name :
  found_at o nd -> c_string name ->
  match find_prop (n_props nd) name with
  | Some v => exists p, fdt_getprop fuel f o name = Ret (Some (p, zlen v)) /\ holds (f_blob f) p v /\ zlen v < 2 ^ 29
  | None => fdt_getprop fuel f o name = Ret None
  end.
Proof using Hv Hf. intros (n & suf & Hat & _ & ->) Hn. by apply (fdt_getprop_spec f cs Hv fuel o n suf). Qed.

Lemma found_range o nd : found_at o nd -> 0 <= o.
Proof using Hv. intros (n & suf & Hat & _). apply (is_at_range f cs Hv _ _ Hat). Qed.
Lemma found_not_none o nd : found_at o nd -> Z.eqb o FDT_NONE = false.
Proof using Hv Hf fuel. intros H. apply found_range in H. unfold FDT_NONE. by apply Z.eqb_neq; lia. Qed.

(** ** Compatibility *)
Lemma compat_loop_at k p v l done_ c :
  holds (f_blob f) p v -> zlen v < 2 ^ 29 -> c_string c ->
  v = (done_ ≫= (fun s => s ++ [0])) ++ (l ≫= (fun s => s ++ [0])) -> Forall c_string l -> (length l < k)%nat ->
  compat_loop k f p (zlen v) (zlen (done_ ≫= (fun s => s ++ [0]))) c = Ret (bool_decide (c ∈ l)).
Proof using Hv Hf fuel.
  intros Hh Hz Hc. revert done_ k. induction l as [|s l IH]; intros done_ k E Hl Hk;
    (destruct k as [|k]; [cbn in Hk; lia|]); cbn [compat_loop].
  { cbn in E. rewrite app_nil_r in E. rewrite <- E, Z.ltb_irrefl. by rewrite bool_decide_false by apply not_elem_of_nil. }
  inversion Hl as [|s' l' Hs Hl']; subst s' l'. set (o := zlen (done_ ≫= _)).
  assert (zlen v = o + (zlen s + 1 + zlen (l ≫= (fun s => s ++ [0])))) as Elen.
  { rewrite E, zlen_app. cbn. by rewrite !zlen_app. }
  pose proof (zlen_nonneg s). pose proof (zlen_nonneg (l ≫= (fun s => s ++ [0]))).
  pose proof (zlen_nonneg (done_ ≫= (fun s => s ++ [0]))). fold o in H1.
  destruct (Z.ltb_spec o (zlen v)); [|lia].
  assert (holds (f_blob f) (p + o) (s ++ [0])) as Hs0.
  { rewrite E in Hh. apply holds_app in Hh as [_ Hh]. cbn in Hh. by apply holds_app in Hh as [Hh _]. }
  rewrite (streq_at _ _ s) by done. cbn [obind]. destruct (decide (s = c)) as [->|Hne].
  { rewrite !bool_decide_true; [done|by left|done]. }
  rewrite bool_decide_false by done. rewrite (strlen_at _ _ s) by done. cbn [obind].
  rewrite (uwrap_small 32 (zlen s)), uwrap_small by lia. replace (o + (zlen s + 1)) with (zlen ((done_ ++ [s]) ≫= (fun s => s ++ [0]))).
  2: { rewrite bind_app, zlen_app. cbn. rewrite app_nil_r, zlen_app. done. }
  rewrite IH; [|by rewrite bind_app, <- app_assoc; cbn; rewrite app_nil_r|done|cbn in Hk; lia].
  f_equal. apply bool_decide_ext. rewrite elem_of_cons.
  split; [by right|]. intros [E'|]; [by destruct Hne|done].
Qed.

Lemma is_compatible_found o nd c :
  found_at o nd -> compat_wf nd -> c_string c -> (forall v, find_prop (n_props nd) (str "compatible") = Some v -> (length v < fuel)%nat) ->
  fdt_is_compatible fuel f o c = Ret (has_compat c nd).
Proof using Hv Hf.
  intros Hat Hwf Hc Hlen. unfold fdt_is_compatible, has_compat, compat_list, compat_wf in *.
  pose proof (prop_found o nd (str "compatible") Hat ltac:(cstring)) as H.
  destruct (find_prop (n_props nd) (str "compatible")) as [v|]; [|by rewrite H; rewrite bool_decide_false by apply not_elem_of_nil].
  destruct H as (p & -> & Hh & Hz). destruct Hwf as [l Hl]. cbn [obind]. rewrite (strings_of_table v l Hl).
  destruct Hl as [E Hl]. specialize (Hlen v eq_refl).
  assert (length l < fuel)%nat as Hlf. { pose proof (names_length l). rewrite <- E in H. lia. }
  exact (compat_loop_at fuel p v l [] c Hh Hz Hc E Hl Hlf).
Qed.

(** Properties of a name, wherever they are. *)
Definition every (name : list Z) (P : list Z -> Prop) (cs : list call) : Prop :=
  Forall (fun c => match c with Prop_ n v => n = name -> P v | _ => True end) cs.

Lemma find_prop_in suf name v : find_prop (props_of suf) name = Some v -> Prop_ name v ∈ suf.
Proof.
  induction suf as [|c suf IH]; cbn; [done|]. destruct c as [n|n w|]; try done. cbn.
  destruct (decide (n = name)) as [->|]; [intros [= ->]; by left|]. intros H. right. auto.
Qed.
Lemma every_found name P o nd v :
  every name P cs -> found_at o nd -> find_prop (n_props nd) name = Some v -> P v.
Proof.
  intros He (n & suf & (pre & E & _) & _ & ->) H. apply find_prop_in in H. unfold every in He.
  rewrite Forall_forall in He. apply (He (Prop_ name v)); [|done]. rewrite E. apply elem_of_app. right. by right.
Qed.

Definition compat_value (v : list Z) : Prop := (exists l, table v l) /\ (length v < fuel)%nat.

Section compat.
Context (Hroot : exists n r, cs = Node n :: r) (Hcompat : every (str "compatible") compat_value cs).

Lemma is_compatible_at o nd c :
  found_at o nd -> c_string c -> fdt_is_compatible fuel f o c = Ret (has_compat c nd).
Proof using Hv Hf Hcompat.
  intros Hat Hc. apply is_compatible_found; [done| |done|].
  - unfold compat_wf. destruct (find_prop _ _) as [v|] eqn:E; [|done].
    by apply (every_found _ _ o nd v Hcompat Hat E).
  - intros v E. by apply (every_found _ _ o nd v Hcompat Hat E).
Qed.

Lemma at_found o d n r : is_at cs o (Node n :: r) -> found_at o (node_of (o, d, Node n :: r)).
Proof. intros H. by exists n, r. Qed.

(** A loop that leaves at the first node with a quality. *)
Lemma search_spec (P : node -> bool) (body : Z -> Z -> unit -> outcome (Z + unit)) :
  (forall o d n r s, is_at cs o (Node n :: r) ->
     body o d s = Ret (if P (node_of (o, d, Node n :: r)) then inl o else inr tt)) ->
  match List.find P (nodes_of cs) with
  | Some nd => exists o, each_node fuel f body tt = Ret (inl o) /\ found_at o nd
  | None => each_node fuel f body tt = Ret (inr tt)
  end.
Proof using Hv Hf Hroot.
  intros Hb. rewrite (each_node_spec f cs Hv fuel body
    (fun o d suf _ => if P (node_of (o, d, suf)) then inl o else inr tt)) by done.
  pose proof (first_node P) as H. destruct (List.find P (nodes_of cs)) as [nd|].
  - destruct H as (o & -> & H). eauto.
  - by rewrite H.
Qed.

Lemma find_compatible_spec c :
  c_string c ->
  match List.find (has_compat c) (nodes_of cs) with
  | Some nd => exists o, fdt_find_compatible fuel f c = Ret o /\ found_at o nd
  | None => fdt_find_compatible fuel f c = Ret FDT_NONE
  end.
Proof using Hv Hf Hroot Hcompat.
  intros Hc. unfold fdt_find_compatible.
  pose proof (search_spec (has_compat c) (fun n _ _ => let! x := fdt_is_compatible fuel f n c in
    Ret (if x : bool then inl n else inr tt))) as H.
  destruct (List.find _ _) as [nd|].
  - destruct H as (o & -> & ?); [|cbn; eauto]. intros o d n r s Hat.
    by rewrite (is_compatible_at o _ c (at_found o d n r Hat) Hc).
  - rewrite H; [done|]. intros o d n r s Hat.
    by rewrite (is_compatible_at o _ c (at_found o d n r Hat) Hc).
Qed.

Lemma find_first_spec names :
  Forall c_string names ->
  match List.find (fun c => match List.find (has_compat c) (nodes_of cs) with Some _ => true | None => false end) names with
  | Some c => exists o nd, find_first fuel f names = Ret o /\ List.find (has_compat c) (nodes_of cs) = Some nd /\ found_at o nd
  | None => find_first fuel f names = Ret FDT_NONE
  end.
Proof using Hv Hf Hroot Hcompat.
  induction 1 as [|c names Hc Hn IH]; cbn [find_first List.find]; [done|].
  pose proof (find_compatible_spec c Hc) as H. destruct (List.find (has_compat c) (nodes_of cs)) as [nd|] eqn:E.
  - destruct H as (o & -> & Ho). cbn [obind]. rewrite (found_not_none o nd Ho). eauto.
  - rewrite H. cbn [obind]. exact IH.
Qed.

(** ** Paths of one segment *)
Lemma segment_plain s : Forall (fun c => c <> 47) s -> segment s = (s, []).
Proof.
  induction 1 as [|c s Hc Hs IH]; cbn; [done|]. destruct (Z.eqb_spec c 47); [done|]. by rewrite IH.
Qed.

Lemma path_step_spec o d n r seg :
  is_at cs o (Node n :: r) -> c_string seg -> Forall (fun c => c <> 47) seg ->
  path_step f o d (seg, 1) = Ret (if matches seg (node_of (o, d, Node n :: r)) then inl o else inr (seg, 1)).
Proof using Hv Hf fuel.
  intros Hat Hs Hp. unfold path_step, matches. cbn [n_depth n_name node_of name_of].
  destruct (Z.eqb_spec d 1); cbn [negb andb]; [|done].
  destruct (node_at f cs Hv _ _ _ Hat) as (Hn & _ & Hh). rewrite (segment_plain seg Hp).
  rewrite (strlen_at _ _ n) by done. cbn [obind].
  assert (length n < S (length (f_blob f)))%nat as Hlen.
  { apply holds_range in Hh as [? Hh]. rewrite zlen_app in Hh. unfold zlen in Hh. cbn in Hh. lia. }
  rewrite (bare_loop_at _ _ _ 0 n) by (done || by rewrite Z.add_0_r).
  cbn [obind]. rewrite Z.add_0_l, (strneq_at _ _ n seg) by done.
  assert ((if (zlen seg =? zlen n) || (zlen seg =? zlen (bare_of n)) then Ret (bool_decide (seg `prefix_of` n)) else Ret false)
    = Ret (bool_decide (seg = n) || bool_decide (seg = bare_of n))) as ->.
  { assert (forall w, w `prefix_of` n -> zlen seg = zlen w -> seg `prefix_of` n -> seg = w) as Heq.
    { intros w [x ->] Hz [y E]. unfold zlen in Hz. apply (f_equal (take (length w))) in E.
      rewrite take_app_length in E. rewrite (take_app_le seg) in E by lia. rewrite take_ge in E by lia. done. }
    pose proof (bare_prefix n) as Hb.
    destruct (Z.eqb_spec (zlen seg) (zlen n)) as [E1|E1]; cbn [orb].
    - destruct (decide (seg `prefix_of` n)) as [Hpre|Hpre].
      + pose proof (Heq n (reflexivity n) E1 Hpre) as ->. rewrite !bool_decide_true by done. done.
      + rewrite !bool_decide_false; try done; intros ->; by apply Hpre.
    - rewrite (bool_decide_false (seg = n)) by (intros ->; done). cbn [orb].
      destruct (Z.eqb_spec (zlen seg) (zlen (bare_of n))) as [E2|E2].
      + f_equal. apply bool_decide_ext. split; [by apply Heq|by intros ->].
      + rewrite bool_decide_false; [done|]. intros ->. done. }
  cbn [obind]. by destruct (_ || _).
Qed.

Lemma find_path_spec seg :
  seg <> [] -> c_string seg -> Forall (fun c => c <> 47) seg ->
  match List.find (matches seg) (nodes_of cs) with
  | Some nd => exists o, fdt_find_path fuel f (47 :: seg) = Ret o /\ found_at o nd
  | None => fdt_find_path fuel f (47 :: seg) = Ret FDT_NONE
  end.
Proof using Hv Hf Hroot.
  intros Hne Hs Hp. unfold fdt_find_path. destruct seg as [|c seg']; [done|]. set (seg := c :: seg') in *.
  rewrite (each_node_inv f cs Hv (fun st => st = (seg, 1)) fuel (path_step f)
    (fun o d suf st => if matches seg (node_of (o, d, suf)) then inl o else inr st)); [|..|done|done|done].
  2: { intros o d n r s Hat ->. split; [by apply path_step_spec|]. by destruct (matches _ _). }
  cbn [obind]. pose proof (first_node (matches seg)) as H.
  assert (forall l, match fold_nodes (R := Z) (fun o d suf (st : list Z * Z) => if matches seg (node_of (o, d, suf)) then inl o else inr st) l (seg, 1)
    with inl n => Ret n | inr _ => Ret FDT_NONE end
    = match fold_nodes (R := Z) (fun o d suf (_ : unit) => if matches seg (node_of (o, d, suf)) then inl o else inr tt) l tt
    with inl n => Ret n | inr _ => Ret FDT_NONE end) as E.
  { induction l as [|[[o d] suf] l IH]; cbn [fold_nodes]; [done|]. by destruct (matches _ _). }
  rewrite E. destruct (List.find _ _) as [nd|].
  - destruct H as (o & -> & H). eauto.
  - by rewrite H.
Qed.

(** ** Devices *)
Definition text_value (v : list Z) : Prop := exists s, c_string s /\ v = s ++ [0].
Definition device_is (kind : list Z) (nd : node) : bool :=
  bool_decide (find_prop (n_props nd) (str "device_type") = Some (kind ++ [0])).

Context (Hdevice : every (str "device_type") text_value cs).

Lemma is_device_spec o nd kind : found_at o nd -> c_string kind -> is_device fuel f o kind = Ret (device_is kind nd).
Proof using Hv Hf Hdevice.
  intros Hat Hk. unfold is_device, device_is. pose proof (prop_found o nd (str "device_type") Hat ltac:(cstring)) as H.
  pose proof (fun v => every_found _ _ o nd v Hdevice Hat) as He.
  destruct (find_prop (n_props nd) (str "device_type")) as [v|].
  - destruct H as (p & -> & Hh & _). cbn [obind]. destruct (He v eq_refl) as (s & Hs & ->).
    rewrite (streq_at _ _ s) by done. f_equal. apply bool_decide_ext. split; [by intros ->|].
    intros [= E]. by apply app_inj_2 in E as [-> _].
  - rewrite H. cbn. by rewrite bool_decide_false.
Qed.

Lemma find_memory_spec :
  match List.find (device_is (str "memory")) (nodes_of cs) with
  | Some nd => exists o, find_memory fuel f = Ret (Some o) /\ found_at o nd
  | None => find_memory fuel f = Ret None
  end.
Proof using Hv Hf Hroot Hdevice.
  unfold find_memory.
  pose proof (search_spec (device_is (str "memory")) (fun n _ _ => let! m := is_device fuel f n (str "memory") in
    Ret (if m : bool then inl n else inr tt))) as H.
  destruct (List.find _ _) as [nd|].
  - destruct H as (o & -> & ?); [|cbn; eauto]. intros o d n r s Hat.
    by rewrite (is_device_spec o _ _ (at_found o d n r Hat)) by cstring.
  - rewrite H; [done|]. intros o d n r s Hat.
    by rewrite (is_device_spec o _ _ (at_found o d n r Hat)) by cstring.
Qed.

Lemma count_cpus_spec k :
  count_cpus fuel f k = Ret (k + zlen (List.filter (device_is (str "cpu")) (nodes_of cs))).
Proof using Hv Hf Hroot Hdevice.
  unfold count_cpus.
  rewrite (each_node_spec f cs Hv fuel _
    (fun o d suf k => inr (if device_is (str "cpu") (node_of (o, d, suf)) then k + 1 else k))); [|..|done|done].
  2: { intros o d n r s Hat. by rewrite (is_device_spec o _ _ (at_found o d n r Hat)) by cstring. }
  cbn [obind]. f_equal. unfold nodes_of. revert k.
  induction (all_nodes cs) as [|[[o d] suf] l IH]; intros k; cbn [fold_nodes fmap list_fmap List.filter].
  { change (zlen []) with 0. lia. }
  rewrite IH. destruct (device_is _ _); [rewrite zlen_cons|]; lia.
Qed.
End compat.

(** ** Registers *)
Section regs.
Context (Hac : f_addr_cells f = 2) (Hsc : f_size_cells f = 2).

Lemma fdt_reg_found o nd a s :
  found_at o nd -> find_prop (n_props nd) (str "reg") = Some (v_reg a s) -> 0 <= a < 2 ^ 64 -> 0 <= s < 2 ^ 64 ->
  fdt_reg fuel f o = Ret (Some (a, s)).
Proof using Hv Hf Hac Hsc.
  intros Hat Hp Ha Hs. unfold fdt_reg. pose proof (prop_found o nd (str "reg") Hat ltac:(cstring)) as H.
  rewrite Hp in H. destruct H as (p & -> & Hh & _). cbn [obind]. rewrite Hac, Hsc.
  change (zlen (v_reg a s)) with 16. change (16 <? _) with false. cbn [negb]. unfold v_reg in Hh.
  rewrite (cells_2 p a (v_u64 s)) by done. cbn [obind]. change (u32 (2 * 4)) with 8.
  apply holds_app in Hh as [_ Hh]. change (zlen (v_u64 a)) with 8 in Hh.
  by rewrite (cells_2 (p + 8) s []) by (rewrite ?app_nil_r; done).
Qed.

(** Two ranges: their addresses. *)
Lemma two_regs_found o nd a x b y :
  found_at o nd -> find_prop (n_props nd) (str "reg") = Some (v_u64 a ++ x ++ v_u64 b ++ y) ->
  zlen x = 8 -> zlen y = 8 -> 0 <= a < 2 ^ 64 -> 0 <= b < 2 ^ 64 ->
  two_regs fuel f o = Ret (Some (a, b)).
Proof using Hv Hf Hac Hsc.
  intros Hat Hp Hx Hy Ha Hb. unfold two_regs, reg_index.
  pose proof (prop_found o nd (str "reg") Hat ltac:(cstring)) as H.
  rewrite Hp in H. destruct H as (p & -> & Hh & _). cbn [obind]. rewrite Hac, Hsc.
  assert (zlen (v_u64 a ++ x ++ v_u64 b ++ y) = 32) as ->.
  { rewrite !zlen_app, Hx, Hy. done. }
  change (u32 (u32 (2 + 2) * 4)) with 16. change (u32 ((0 + 1) * 16) >? 32) with false.
  change (u32 ((1 + 1) * 16) >? 32) with false. change (u32 (0 * 16)) with 0. change (u32 (1 * 16)) with 16.
  rewrite Z.add_0_r, (cells_2 p a (x ++ v_u64 b ++ y)) by done. cbn [obind].
  apply holds_app in Hh as [_ Hh]. apply holds_app in Hh as [_ Hh]. change (zlen (v_u64 a)) with 8 in Hh.
  rewrite Hx, <- Z.add_assoc in Hh. by rewrite (cells_2 (p + 16) b y).
Qed.

(** The 32-bit words of a property. *)
Lemma words_found o nd name a w b :
  found_at o nd -> c_string name -> find_prop (n_props nd) name = Some (a ++ b_put32 w ++ b) -> 0 <= w < 2 ^ 32 ->
  exists p, fdt_getprop fuel f o name = Ret (Some (p, zlen (a ++ b_put32 w ++ b))) /\ fdt_cells f (p + zlen a) 1 = Ret w.
Proof using Hv Hf.
  intros Hat Hn Hp Hw. pose proof (prop_found o nd name Hat Hn) as H. rewrite Hp in H.
  destruct H as (p & -> & Hh & _). exists p. split; [done|]. apply holds_app in Hh as [_ Hh]. by apply (cells_1 _ w b).
Qed.
End regs.
End view.

(** ** What the lookups get wrong *)

(** The bridge's window is read wrongly: an entry of [ranges] is a child
    address of three cells, a parent address of two and a size of two, and the
    size is read where the parent address is.  The window of a bridge whose
    memory is where the processor sees it ends at twice its base. *)
Theorem bridge_window_misreads f cs fuel o nd hi child parent size more :
  views f cs -> (length cs < fuel)%nat -> f_addr_cells f = 2 -> found_at cs o nd ->
  find_prop (n_props nd) (str "ranges") = Some (b_put32 hi ++ v_u64 child ++ v_u64 parent ++ v_u64 size ++ more) ->
  0 <= hi < 2 ^ 32 -> Z.land (Z.shiftr hi 24) 3 = 2 ->
  0 <= child < 2 ^ 64 -> 0 <= parent < 2 ^ 64 ->
  bridge_window fuel f o = Ret (Some (child, u64 (child + parent))).
Proof.
  intros Hv Hf Hac Hat Hp Hhi Hsp Hc Hpa. unfold bridge_window.
  pose proof (prop_found f cs Hv fuel Hf o nd (str "ranges") Hat ltac:(cstring)) as H. rewrite Hp in H.
  destruct H as (p & -> & Hh & Hz). cbn [obind]. rewrite Hac. change (u32 (u32 (3 + 2 + 2) * 4)) with 28.
  pose proof (zlen_nonneg more). rewrite !zlen_app in Hz |- *. change (zlen (b_put32 hi)) with 4 in *.
  change (zlen (v_u64 child)) with 8 in *. change (zlen (v_u64 parent)) with 8 in *. change (zlen (v_u64 size)) with 8 in *.
  destruct fuel as [|fuel]; [lia|]. cbn [window_loop]. change (u32 (0 + 28)) with 28.
  destruct (Z.leb_spec 28 (4 + (8 + (8 + (8 + zlen more))))); [|lia]. rewrite Z.add_0_r, (cells_1 f p hi _ Hhi Hh). cbn [obind].
  apply holds_app in Hh as [_ Hh]. change (zlen (b_put32 hi)) with 4 in Hh.
  rewrite (cells_2 f (p + 4) child _ Hc Hh). cbn [obind]. apply holds_app in Hh as [_ Hh]. change (zlen (v_u64 child)) with 8 in Hh.
  rewrite Hac. change (u32 (2 * 4)) with 8.
  rewrite (cells_2 f (p + 4 + 8) parent _ Hpa Hh). cbn [obind]. rewrite (uwrap_small 32 hi), Hsp by done. done.
Qed.

(** The window of a bridge: 0x2eff0000 bytes at 0x10000000, as QEMU has it. *)
Definition bridge_calls : list call :=
  [Node []; Prop_ (str "#address-cells") (v_u32 2);
   Prop_ (str "ranges") (b_put32 0x2000000 ++ v_u64 0x10000000 ++ v_u64 0x10000000 ++ v_u64 0x2eff0000 ++ []); End_].
Definition bridge_fdt : fdt := 
  match (let! g := do_calls (fg_init 400) bridge_calls in let! (_, b) := fg_finish g in fdt_init 5 (Some b)) with
  | Ret (Some f) => f
  | _ => opened 0 [] [] 0 0
  end.

Lemma bridge_views : views bridge_fdt bridge_calls /\ f_addr_cells bridge_fdt = 2.
Proof.
  assert (Forall call_ok bridge_calls) as Hok.
  { repeat first [apply Forall_nil; exact I | apply Forall_cons; split]; unfold call_ok; try exact I; split_and!;
      first [cstring | apply Z.ltb_lt; vm_compute; reflexivity]. }
  destruct (fdt_init_spec 400 bridge_calls 5 ltac:(lia) Hok ltac:(cbn; lia) [] (tail bridge_calls) eq_refl)
    as (g & total & blob & Eg & Ef & H).
  assert (total <> 0) as Ht.
  { assert ((let! g := do_calls (fg_init 400) bridge_calls in let! (t, _) := fg_finish g in Ret (Z.eqb t 0)) = Ret false) as E
      by (vm_compute; reflexivity).
    rewrite Eg in E. cbn [obind] in E. rewrite Ef in E. cbn [obind] in E. intros ->. discriminate. }
  destruct (H Ht) as [Ei Hv]. unfold bridge_fdt. rewrite Eg. cbn [obind]. rewrite Ef. cbn [obind]. rewrite Ei.
  split; [exact Hv|reflexivity].
Qed.

Lemma bridge_window_misreads_witness :
  bridge_window 5 bridge_fdt 0 = Ret (Some (0x10000000, 0x20000000)).
Proof.
  pose proof bridge_views as [Hv Hac].
  apply (bridge_window_misreads bridge_fdt bridge_calls 5 0 (node_of (0, 0, bridge_calls)) 0x2000000 0x10000000 0x10000000
    0x2eff0000 [] Hv ltac:(cbn; lia) Hac).
  - apply (at_found bridge_calls 0 0). exists []. split; reflexivity.
  - reflexivity.
  - lia.
  - reflexivity.
  - lia.
  - lia.
Defined.

(** A path whose first segment is one node and whose second is a child of
    another: the search does not notice that it left the first. *)
Example find_path_other_parent :
  let cs := [Node []; Node (str "a"); End_; Node (str "b"); Node (str "x"); End_; End_; End_] in
  (let! g := do_calls (fg_init 400) cs in let! (_, b) := fg_finish g in
   let! f := fdt_init 10 (Some b) in
   match f with
   | Some f => let! n := fdt_find_path 10 f (str "/a/x") in let! n' := fdt_find_path 10 f (str "/b/x") in Ret (Some (n, n'))
   | None => Ret None
   end) = Ret (Some (28, 28)).
Proof. vm_compute. reflexivity. Qed.

(** A property whose length is -11: the search for a name comes back to the
    property for ever. *)
Lemma getprop_endless fuel f o p name :
  (let! r := step f (u32 o) in Ret (fst r)) = Ret p -> o <> FDT_NONE -> 0 <= p -> p + 4 <= f_strukt_size f < 2 ^ 31 ->
  be32 f (f_strukt f + p) = Ret FDT_PROP -> be32 f (f_strukt f + p + 4) = Ret (2 ^ 32 - 12) ->
  (exists noff, be32 f (f_strukt f + p + 8) = Ret noff /\ streq (f_blob f) (f_strings f + noff) name = Ret false) ->
  fdt_getprop fuel f o name = Diverge.
Proof.
  intros Hs Ho Hp Hsz H0 H4 (noff & H8 & Hn). unfold fdt_getprop. destruct (Z.eqb_spec o FDT_NONE); [done|].
  destruct (step f (u32 o)) as [[q t]| |]; [|done|done]. cbn [obind fst] in *. injection Hs as ->.
  assert (forall z, 0 <= z < 2 ^ 31 -> i32 z = z) as Hi by apply i32_small.
  induction fuel as [|fuel IH]; cbn [getprop_loop]; [done|]. unfold FDT_NONE. destruct (Z.eqb_spec p (-1)); [lia|].
  rewrite (Hi (p + 4)), (Hi (f_strukt_size f)) by lia. destruct (Z.leb_spec (p + 4) (f_strukt_size f)); [|lia]. cbn [negb andb].
  rewrite H0. cbn [obind]. change (Z.eqb FDT_PROP FDT_NOP) with false. change (negb (Z.eqb FDT_PROP FDT_PROP)) with false.
  cbn match. rewrite H4. cbn [obind]. rewrite H8. cbn [obind]. rewrite Hn. cbn [obind].
  replace (i32 (u32 (p + 12 + align4 (2 ^ 32 - 12)))) with p; [exact IH|].
  change (align4 (2 ^ 32 - 12)) with (2 ^ 32 - 12). unfold uwrap. replace (p + 12 + (2 ^ 32 - 12)) with (p + 1 * 2 ^ 32) by lia.
  rewrite Z.mod_add, Z.mod_small by lia. rewrite Hi; lia.
Qed.
