(* ===== verification/Vboot.v ===== *)
(** * The loader's device tree: vboot/vboot.c

    vboot reads the tables ACPI left in memory and, on a machine whose firmware
    has no device tree, writes one with fdtgen.h for the kernel.  [Acpi] are
    the readers, over physical memory as a function from addresses to bytes;
    [Tree] is vb_install_dtb: what it gathered and the calls it makes.
    The memory map and the configuration tables are what UEFI returned; offsets
    into a table are below its length and do not reach the width of a UINT32
    (a table of 4 GiB less a few bytes, whose walk would wrap, is left out).
    VbootRun has what the kernel makes of the tree. *)
From S2P Require Import Prelude Bytes Fdt.
Import Fdt.Gen.

Module Acpi.
Section acpi.
(** Physical memory, and the pointer to the ACPI root ([vb_find_cfg]). *)
Context (ram : Z -> Z) (acpi20 : option Z).

Definition vb_le32 (p : Z) : Z :=
  Z.lor (Z.lor (Z.lor (ram p) (Z.shiftl (ram (p + 1)) 8)) (Z.shiftl (ram (p + 2)) 16)) (Z.shiftl (ram (p + 3)) 24).

(** [for (int i = 0; i < 8; i++) v |= (UINT64)p[i] << (8 * i);] *)
Definition vb_le64 (p : Z) : Z :=
  fold_left (fun v i => Z.lor v (Z.shiftl (ram (p + Z.of_nat i)) (8 * Z.of_nat i))) (seq 0 8) 0.

Definition sig_at (p : Z) (sig : list Z) : bool :=
  (ram p =? at_ sig 0) && (ram (p + 1) =? at_ sig 1) && (ram (p + 2) =? at_ sig 2) && (ram (p + 3) =? at_ sig 3).

(** The entries of the XSDT from offset [o]; the fuel is their number. *)
Fixpoint table_loop (k : nat) (x len o : Z) (sig : list Z) : option Z :=
  match k with
  | O => None
  | S k =>
      if o + 8 <=? len then
        let t := vb_le64 (x + o) in
        if Z.eqb t 0 then table_loop k x len (o + 8) sig
        else if sig_at t sig then Some t
        else table_loop k x len (o + 8) sig
      else None
  end.

Definition vb_acpi_table (sig : list Z) : option Z :=
  match acpi20 with
  | None => None
  | Some rsdp =>
      let xsdt := vb_le64 (rsdp + 24) in
      if Z.eqb xsdt 0 then None
      else
        let len := vb_le32 (xsdt + 4) in
        if len <? 36 then None else table_loop (Z.to_nat (len / 8)) xsdt len 36 sig
  end.

Record madt := { m_dist : Z; m_cpuif : Z; m_ncpu : Z; m_gicver : Z; m_redist : Z }.

(** One entry of the MADT at [p], of a type and a length. *)
Definition madt_entry (p type elen : Z) (m : madt) : madt :=
  if Z.eqb type 0x0b && (elen >=? 40) then
    if Z.eqb (Z.land (vb_le32 (p + 12)) 1) 0 then m
    else {| m_dist := m_dist m;
            m_cpuif := if Z.eqb (m_cpuif m) 0 then vb_le64 (p + 32) else m_cpuif m;
            m_ncpu := u32 (m_ncpu m + 1); m_gicver := m_gicver m; m_redist := m_redist m |}
  else if Z.eqb type 0x0c && (elen >=? 24) then
    {| m_dist := vb_le64 (p + 8); m_cpuif := m_cpuif m; m_ncpu := m_ncpu m;
       m_gicver := ram (p + 20); m_redist := m_redist m |}
  else if Z.eqb type 0x0e && (elen >=? 16) then
    {| m_dist := m_dist m; m_cpuif := m_cpuif m; m_ncpu := m_ncpu m; m_gicver := m_gicver m;
       m_redist := if Z.eqb (m_redist m) 0 then vb_le64 (p + 4) else m_redist m |}
  else if Z.eqb type 0 && (elen >=? 8) then
    if Z.eqb (Z.land (vb_le32 (p + 4)) 1) 0 then m
    else {| m_dist := m_dist m; m_cpuif := m_cpuif m; m_ncpu := u32 (m_ncpu m + 1);
            m_gicver := m_gicver m; m_redist := m_redist m |}
  else m.

Fixpoint madt_loop (k : nat) (t len o : Z) (m : madt) : madt :=
  match k with
  | O => m
  | S k =>
      if o + 2 <=? len then
        let type := ram (t + o) in
        let elen := ram (t + o + 1) in
        if (elen <? 2) || (o + elen >? len) then m
        else madt_loop k t len (o + elen) (madt_entry (t + o) type elen m)
      else m
  end.

(** [None]: the function returns 0. *)
Definition vb_madt : option madt :=
  match vb_acpi_table (str "APIC") with
  | None => None
  | Some t =>
      let len := vb_le32 (t + 4) in
      let m := madt_loop (Z.to_nat len) t len 44
                 {| m_dist := 0; m_cpuif := 0; m_ncpu := 0; m_gicver := 0; m_redist := 0 |} in
      if m_ncpu m >? 0 then Some m else None
  end.

Fixpoint ppi_loop (offs : list Z) (t : Z) : option (list Z) :=
  match offs with
  | [] => Some []
  | off :: offs =>
      let gsiv := vb_le32 (t + off) in
      if (gsiv <? 16) || (gsiv >? 31) then None
      else match ppi_loop offs t with Some l => Some (gsiv - 16 :: l) | None => None end
  end.
Definition vb_gtdt_timer_ppi : option (list Z) :=
  match vb_acpi_table (str "GTDT") with
  | None => None
  | Some t => if vb_le32 (t + 4) <? 80 then None else ppi_loop [48; 56; 64; 72] t
  end.

(** The base of the configuration space and the first and last bus. *)
Definition vb_mcfg : option (Z * Z * Z) :=
  match vb_acpi_table (str "MCFG") with
  | None => None
  | Some t =>
      let len := vb_le32 (t + 4) in
      if len <? 44 + 16 then None
      else if negb (Z.eqb ((len - 44) / 16) 1) then None
      else
        let a := t + 44 in
        let ecam := Z.lor (vb_le32 a) (Z.shiftl (vb_le32 (a + 4)) 32) in
        if Z.eqb ecam 0 then None else Some (ecam, ram (a + 10), ram (a + 11))
  end.

(** The base of the serial port, whether it is a PL011, its interrupt. *)
Definition vb_spcr : option (Z * bool * Z) :=
  match vb_acpi_table (str "SPCR") with
  | None => None
  | Some tab =>
      let iface := ram (tab + 36) in
      let space := ram (tab + 40) in
      let addr := vb_le64 (tab + 44) in
      let gsi := vb_le32 (tab + 54) in
      if negb (Z.eqb space 0) || Z.eqb addr 0 then None else Some (addr, Z.eqb iface 3, gsi)
  end.

(** Whether PSCI is there, and is called with hvc. *)
Definition vb_psci : option bool :=
  match vb_acpi_table (str "FACP") with
  | None => None
  | Some fadt =>
      let len := vb_le32 (fadt + 4) in
      if len <? 131 then None
      else
        let flags := Z.lor (ram (fadt + 129)) (Z.shiftl (ram (fadt + 130)) 8) in
        if Z.eqb (Z.land flags 1) 0 then None else Some (negb (Z.eqb (Z.land flags 2) 0))
  end.
End acpi.

(** The memory map: [size] bytes of descriptors, [dsize] each; fields are read
    at their offsets.  The pair is the lowest and the highest address. *)
Definition mm_step (mmap : list Z) (o : Z) (lh : Z * Z) : Z * Z :=
  let '(l, h) := lh in
  let type := rd32 mmap o in
  let start := rd64 mmap (o + 8) in
  let pages := rd64 mmap (o + 24) in
  if negb (existsb (Z.eqb type) [1; 2; 3; 4; 7]) then (l, h)
  else
    (if start <? l then start else l,
     let e := u64 (start + u64 (pages * 4096)) in if e >? h then e else h).

Fixpoint mm_loop (k : nat) (mmap : list Z) (size dsize o : Z) (lh : Z * Z) : Z * Z :=
  match k with
  | O => lh
  | S k => if o + dsize <=? size then mm_loop k mmap size dsize (o + dsize) (mm_step mmap o lh) else lh
  end.

(** [None]: the function returns 0.  The map is what UEFI returned, or
    nothing when it failed. *)
Definition vb_ram_extent (mmap : option (list Z)) (dsize : Z) : option (Z * Z) :=
  match mmap with
  | None => None
  | Some mmap =>
      if Z.eqb dsize 0 then None
      else
        let '(l, h) := mm_loop (length mmap) mmap (zlen mmap) dsize 0 (2 ^ 64 - 1, 0) in
        if Z.eqb l (2 ^ 64 - 1) || (h <=? l) then None else Some (l, h)
  end.

End Acpi.

(** ** The tree *)
Module Tree.

Definition VB_PH_GIC : Z := 1.
Definition VB_PH_CLK : Z := 2.

(** The digits of [v], the lowest first: [while (v) { ...; v >>= 4; }]. *)
Fixpoint hex_loop (k : nat) (v : Z) : list Z :=
  match k with
  | O => []
  | S k =>
      if Z.eqb v 0 then []
      else
        let d := Z.land v 15 in
        (if d <? 10 then 48 + d else 97 + d - 10) :: hex_loop k (Z.shiftr v 4)
  end.
Definition hex_of (v : Z) : list Z := rev (if Z.eqb v 0 then [48] else hex_loop 16 v).

(** [prefix] and an address, as in "serial@9000000". *)
Definition at_addr (prefix : string) (v : Z) : list Z := str prefix ++ hex_of v.

Definition hex_digit (d : Z) : Z := at_ (str "0123456789abcdef") d.
Definition cpu_name (c : Z) : list Z :=
  str "cpu@" ++ (if c >=? 16 then [hex_digit (Z.shiftr c 4)] else []) ++ [hex_digit (Z.land c 15)].

(** What vb_install_dtb gathered. *)
Record found := {
  fo_lo : Z; fo_hi : Z; fo_rsdp : option Z;
  fo_uart : option (Z * bool * Z); fo_psci : option bool;
  fo_mcfg : option (Z * Z * Z); fo_madt : option Acpi.madt; fo_ppi : option (list Z)
}.

Definition prop_u32 (n : string) (v : Z) : call := Prop_ (str n) (v_u32 v).
Definition prop_str (n : string) (s : list Z) : call := Prop_ (str n) (v_str s).

Definition is_pl011 (m : found) : bool := match fo_uart m with Some (_, b, _) => b | None => false end.
Definition psci_ok (m : found) : bool := match fo_psci m with Some _ => true | None => false end.

Definition root_calls : list call :=
  [Node []; prop_u32 "#address-cells" 2; prop_u32 "#size-cells" 2;
   prop_str "model" (str "VerkOS machine described by vboot"); prop_str "compatible" (str "verkos,synthetic");
   prop_u32 "interrupt-parent" VB_PH_GIC].

Definition chosen_calls (m : found) : list call :=
  [Node (str "chosen")]
  ++ (match fo_rsdp m with Some r => [Prop_ (str "verkos,acpi-rsdp") (v_u64 r)] | None => [] end)
  ++ (match fo_uart m with Some (uart, _, _) => [prop_str "stdout-path" (47 :: at_addr "serial@" uart)] | None => [] end)
  ++ [End_].

Definition memory_calls (m : found) : list call :=
  [Node (str "memory@0"); prop_str "device_type" (str "memory");
   Prop_ (str "reg") (v_reg (fo_lo m) (u64 (fo_hi m - fo_lo m))); End_].

Definition psci_calls (m : found) : list call :=
  match fo_psci m with
  | None => []
  | Some hvc =>
      [Node (str "psci"); prop_str "compatible" (str "arm,psci-0.2");
       prop_str "method" (if hvc : bool then str "hvc" else str "smc"); End_]
  end.

Definition clock_calls (m : found) : list call :=
  if is_pl011 m then
    [Node (str "apb-pclk"); prop_str "compatible" (str "fixed-clock"); prop_u32 "#clock-cells" 0;
     prop_u32 "clock-frequency" 24000000; prop_str "clock-output-names" (str "clk24mhz");
     prop_u32 "phandle" VB_PH_CLK; End_]
  else [].

Definition pci_calls (m : found) : list call :=
  match fo_mcfg m with
  | None => []
  | Some (ecam, bus_lo, bus_hi) =>
      [Node (str "pci"); prop_str "compatible" (str "pci-host-ecam-generic"); prop_str "device_type" (str "pci");
       prop_u32 "#address-cells" 3; prop_u32 "#size-cells" 2;
       Prop_ (str "reg") (v_reg ecam (u64 (Z.shiftl (u32 (bus_hi - bus_lo + 1)) 20)));
       Prop_ (str "bus-range") (b_put32 bus_lo ++ b_put32 bus_hi); End_]
  end.

Definition cpu_calls (m : found) (c : Z) : list call :=
  [Node (cpu_name c); prop_str "device_type" (str "cpu"); prop_str "compatible" (str "arm,armv8");
   prop_u32 "reg" c]
  ++ (if psci_ok m then [prop_str "enable-method" (str "psci")] else []) ++ [End_].

Definition cpus_calls (m : found) : list call :=
  match fo_madt m with
  | None => []
  | Some t =>
      if Z.eqb (Acpi.m_ncpu t) 0 then []
      else
        [Node (str "cpus"); prop_u32 "#address-cells" 1; prop_u32 "#size-cells" 0]
        ++ (seq 0 (Z.to_nat (Z.min (Acpi.m_ncpu t) 256)) ≫= (fun c => cpu_calls m (Z.of_nat c)))
        ++ [End_]
  end.

Definition v2_ok (t : Acpi.madt) : bool :=
  negb (Z.eqb (Acpi.m_dist t) 0) && negb (Z.eqb (Acpi.m_cpuif t) 0) && (Acpi.m_gicver t <=? 2).
Definition v3_ok (t : Acpi.madt) : bool :=
  negb (Z.eqb (Acpi.m_dist t) 0) && negb (Z.eqb (Acpi.m_redist t) 0) && (Acpi.m_gicver t >=? 3).

Definition intc_calls (t : Acpi.madt) : list call :=
  let gicd := Acpi.m_dist t in
  let second := if v3_ok t then Acpi.m_redist t else Acpi.m_cpuif t in
  let first_size := if v3_ok t then 0x10000 else 0x1000 in
  let second_size := if v3_ok t then 0x20000 else 0x2000 in
  [Node (at_addr "intc@" gicd);
   prop_str "compatible" (if v3_ok t then str "arm,gic-v3" else str "arm,cortex-a15-gic");
   prop_u32 "#interrupt-cells" 3; Prop_ (str "interrupt-controller") []; prop_u32 "phandle" VB_PH_GIC;
   Prop_ (str "reg") (v_u64 gicd ++ b_put32 0 ++ b_put32 first_size ++ v_u64 second ++ b_put32 0 ++ b_put32 second_size);
   End_].

Definition timer_calls (m : found) (t : Acpi.madt) : list call :=
  match fo_ppi m with
  | None => []
  | Some ppi =>
      let ncpu := Acpi.m_ncpu t in
      let mask := if ncpu >=? 8 then 0xff else Z.shiftl 1 (if Z.eqb ncpu 0 then 1 else ncpu) - 1 in
      let cell3 := Z.lor (Z.shiftl mask 8) 0x04 in
      [Node (str "timer"); prop_str "compatible" (str "arm,armv8-timer");
       Prop_ (str "interrupts") (ppi ≫= (fun p => b_put32 1 ++ b_put32 p ++ b_put32 cell3)); End_]
  end.

Definition gic_calls (m : found) : list call :=
  match fo_madt m with
  | None => []
  | Some t => if v2_ok t || v3_ok t then intc_calls t ++ timer_calls m t else []
  end.

Definition serial_calls (m : found) : list call :=
  match fo_uart m with
  | None => []
  | Some (uart, pl011, gsi) =>
      [Node (at_addr "serial@" uart);
       Prop_ (str "compatible")
         (if pl011 : bool then str "arm,pl011" ++ 0 :: str "arm,primecell" ++ [0] else v_str (str "ns16550a"));
       Prop_ (str "reg") (v_reg uart 0x1000)]
      ++ (if pl011 : bool then
            [Prop_ (str "clocks") (b_put32 VB_PH_CLK ++ b_put32 VB_PH_CLK);
             Prop_ (str "clock-names") (str "uartclk" ++ 0 :: str "apb_pclk" ++ [0])]
          else [])
      ++ (if gsi >=? 32 then [Prop_ (str "interrupts") (b_put32 0 ++ b_put32 (gsi - 32) ++ b_put32 4)] else [])
      ++ [End_]
  end.

(** Every call of vb_install_dtb, in order. *)
Definition vb_calls (m : found) : list call :=
  root_calls ++ chosen_calls m ++ memory_calls m ++ psci_calls m ++ clock_calls m ++ pci_calls m
  ++ cpus_calls m ++ gic_calls m ++ serial_calls m ++ [End_].

Definition dtb_area : Z := 16 * 1024.

Inductive installed := Refused | Already | Installed (blob : list Z).

(** What vboot gathers; the timer is asked for after the controller. *)
Definition gather (ram : Z -> Z) (acpi20 : option Z) (mmap : option (list Z)) (dsize : Z) : option found :=
  match Acpi.vb_ram_extent mmap dsize with
  | None => None
  | Some (lo, hi) =>
      Some {| fo_lo := lo; fo_hi := hi; fo_rsdp := acpi20;
              fo_uart := Acpi.vb_spcr ram acpi20; fo_psci := Acpi.vb_psci ram acpi20;
              fo_mcfg := Acpi.vb_mcfg ram acpi20; fo_madt := Acpi.vb_madt ram acpi20;
              fo_ppi := Acpi.vb_gtdt_timer_ppi ram acpi20 |}
  end.

(** [has_dtb]: the firmware has a tree of its own; [install]: whether
    InstallConfigurationTable succeeds. *)
Definition vb_install_dtb (ram : Z -> Z) (acpi20 : option Z) (has_dtb : bool) (mmap : option (list Z)) (dsize : Z)
    (install : bool) : outcome installed :=
  if has_dtb then Ret Already
  else
    match gather ram acpi20 mmap dsize with
    | None => Ret Refused
    | Some m =>
        let! g := do_calls (fg_init dtb_area) (vb_calls m) in
        let! (total, blob) := fg_finish g in
        if Z.eqb total 0 then Ret Refused
        else if install then Ret (Installed blob) else Ret Refused
    end.

End Tree.
