(* ===== verification/VbootRun.v ===== *)
(** * What the kernel makes of the tree vboot wrote

    The nodes of vboot's tree are listed group by group ([adds]); each lookup
    of the kernel's drivers is then a search in that list, and what it reads is
    the property vboot stored: the theorem joins vb_install_dtb to
    handover_dtb, gic_init, gic_timer_irq, pci_init, console_init and
    console_irq. *)
From S2P Require Import Prelude Bytes Fdt FdtGen FdtRun FdtFind Vboot.
Import Fdt.Reader Fdt.Gen Fdt.Handover Fdt.Drivers Vboot.Tree.

(** ** Listing the nodes of a group of calls *)
Definition adds (d : Z) (G : list call) (ns : list node) : Prop :=
  forall off rest, exists off', node_of <$> next_nodes off d (G ++ rest) = ns ++ (node_of <$> next_nodes off' d rest).

Lemma adds_nil d : adds d [] [].
Proof. intros off rest. by exists off. Qed.
Lemma adds_app d G1 n1 G2 n2 : adds d G1 n1 -> adds d G2 n2 -> adds d (G1 ++ G2) (n1 ++ n2).
Proof.
  intros H1 H2 off rest. rewrite <- app_assoc. destruct (H1 off (G2 ++ rest)) as (o1 & ->).
  destruct (H2 o1 rest) as (o2 & ->). exists o2. by rewrite <- app_assoc.
Qed.

Definition props (ps : list (list Z * list Z)) : list call := (fun '(n, v) => Prop_ n v) <$> ps.

Lemma props_of_props ps cs : props_of cs = [] -> props_of (props ps ++ cs) = ps.
Proof. intros H. induction ps as [|[n v] ps IH]; cbn; [done|]. f_equal. exact IH. Qed.
Lemma next_nodes_props off d ps cs : exists off', next_nodes off d (props ps ++ cs) = next_nodes off' d cs.
Proof.
  revert off. induction ps as [|[n v] ps IH]; intros off; cbn; [by exists off|]. apply IH.
Qed.

(** A node with its properties, and the nodes inside it. *)
Lemma adds_node d n ps G ns :
  0 <= d -> adds (d + 1) G ns -> (forall rest, props_of (G ++ End_ :: rest) = []) ->
  adds d (Node n :: props ps ++ G ++ [End_]) ({| n_depth := d + 1; n_name := n; n_props := ps |} :: ns).
Proof.
  intros Hd HG Hp off rest. cbn [app next_nodes fmap list_fmap node_of name_of tail].
  rewrite <- !app_assoc. rewrite (props_of_props ps) by apply Hp.
  destruct (next_nodes_props (off + call_size (Node n)) (d + 1) ps (G ++ [End_] ++ rest)) as (o1 & ->).
  destruct (HG o1 ([End_] ++ rest)) as (o2 & E). change (fmap (M := list)) with (@map (Z * Z * list call) node) in *.
  rewrite E. cbn [app next_nodes]. destruct (Z.ltb_spec (d + 1 - 1) 0); [lia|].
  exists (o2 + 4). replace (d + 1 - 1) with d by lia. done.
Qed.

(** The groups that are one node. *)
Definition leaf_node (d : Z) (G : list call) : node :=
  {| n_depth := d; n_name := name_of G; n_props := props_of (tail G) |}.
Definition is_leaf (G : list call) : Prop := exists n ps, G = Node n :: props ps ++ [End_].

Lemma adds_leaf d G : 0 <= d -> is_leaf G -> adds d G [leaf_node (d + 1) G].
Proof.
  intros Hd (n & ps & ->). unfold leaf_node. cbn [name_of tail].
  rewrite (props_of_props ps) by done. apply (adds_node d n ps [] []); [done|apply adds_nil|done].
Qed.

Definition is_leafb (G : list call) : bool :=
  match G with
  | Node _ :: G => match drop (length (props_of G)) G with [End_] => true | _ => false end
  | _ => false
  end.
Lemma props_prefix G : G = props (props_of G) ++ drop (length (props_of G)) G.
Proof. induction G as [|[n|n v|] G IH]; cbn; try done. f_equal. exact IH. Qed.
Lemma is_leafb_leaf G : is_leafb G = true -> is_leaf G.
Proof.
  destruct G as [|[n| |] G]; cbn [is_leafb]; try done. intros H. exists n, (props_of G).
  f_equal. rewrite (props_prefix G) at 1. f_equal.
  destruct (drop (length (props_of G)) G) as [|[| |] [|]]; done.
Qed.

(** ** The nodes of vboot's tree *)
Section nodes.
Context (m : found).

Definition cpus_here : option (Z * list nat) :=
  match fo_madt m with
  | Some t => if Z.eqb (Acpi.m_ncpu t) 0 then None else Some (Acpi.m_ncpu t, seq 0 (Z.to_nat (Z.min (Acpi.m_ncpu t) 256)))
  | None => None
  end.
Definition gic_here : option Acpi.madt :=
  match fo_madt m with Some t => if v2_ok t || v3_ok t then Some t else None | None => None end.

Definition opt {A} (o : option A) (G : A -> list call) : list node :=
  match o with Some a => [leaf_node 1 (G a)] | None => [] end.

Definition root_node : node := leaf_node 0 root_calls.
Definition cpu_nodes : list node :=
  match cpus_here with
  | Some (_, l) => {| n_depth := 1; n_name := str "cpus"; n_props := [(str "#address-cells", v_u32 1); (str "#size-cells", v_u32 0)] |}
                   :: ((fun c => leaf_node 2 (cpu_calls m (Z.of_nat c))) <$> l)
  | None => []
  end.
Definition timer_here : option (Acpi.madt * list Z) :=
  match gic_here with Some t => match fo_ppi m with Some p => Some (t, p) | None => None end | None => None end.
Definition vb_nodes : list node :=
  root_node :: leaf_node 1 (chosen_calls m) :: leaf_node 1 (memory_calls m)
  :: opt (fo_psci m) (fun _ => psci_calls m) ++ opt (if is_pl011 m then Some tt else None) (fun _ => clock_calls m)
  ++ opt (fo_mcfg m) (fun _ => pci_calls m) ++ cpu_nodes ++ opt gic_here intc_calls
  ++ opt timer_here (fun tp => timer_calls m (fst tp)) ++ opt (fo_uart m) (fun _ => serial_calls m).

Lemma adds_chosen : adds 0 (chosen_calls m) [leaf_node 1 (chosen_calls m)].
Proof.
  apply (adds_leaf 0); [done|]. apply is_leafb_leaf. unfold chosen_calls.
  destruct (fo_rsdp m), (fo_uart m) as [[[u b] g]|]; reflexivity.
Qed.
Lemma adds_memory : adds 0 (memory_calls m) [leaf_node 1 (memory_calls m)].
Proof. apply (adds_leaf 0); [done|]. apply is_leafb_leaf. reflexivity. Qed.
Lemma adds_psci : adds 0 (psci_calls m) (opt (fo_psci m) (fun _ => psci_calls m)).
Proof.
  unfold psci_calls, opt. destruct (fo_psci m) as [h|]; [|apply adds_nil].
  apply (adds_leaf 0); [done|]. apply is_leafb_leaf. reflexivity.
Qed.
Lemma adds_clock : adds 0 (clock_calls m) (opt (if is_pl011 m then Some tt else None) (fun _ => clock_calls m)).
Proof.
  unfold clock_calls, opt. destruct (is_pl011 m); [|apply adds_nil].
  apply (adds_leaf 0); [done|]. apply is_leafb_leaf. reflexivity.
Qed.
Lemma adds_pci : adds 0 (pci_calls m) (opt (fo_mcfg m) (fun _ => pci_calls m)).
Proof.
  unfold pci_calls, opt. destruct (fo_mcfg m) as [[[e a] b]|]; [|apply adds_nil].
  apply (adds_leaf 0); [done|]. apply is_leafb_leaf. reflexivity.
Qed.
Lemma adds_serial : adds 0 (serial_calls m) (opt (fo_uart m) (fun _ => serial_calls m)).
Proof.
  unfold serial_calls, opt. destruct (fo_uart m) as [[[u p] g]|]; [|apply adds_nil].
  apply (adds_leaf 0); [done|]. apply is_leafb_leaf. destruct p; destruct (g >=? 32); reflexivity.
Qed.
Lemma adds_cpu c : adds 1 (cpu_calls m c) [leaf_node 2 (cpu_calls m c)].
Proof. apply (adds_leaf 1); [done|]. apply is_leafb_leaf. unfold cpu_calls. destruct (psci_ok m); reflexivity. Qed.
Lemma adds_cpus : adds 0 (cpus_calls m) cpu_nodes.
Proof.
  unfold cpus_calls, cpu_nodes, cpus_here. destruct (fo_madt m) as [t|]; [|apply adds_nil].
  destruct (Acpi.m_ncpu t =? 0); [apply adds_nil|].
  apply (adds_node 0 (str "cpus") [(str "#address-cells", v_u32 1); (str "#size-cells", v_u32 0)]); [done| |].
  - induction (seq 0 _) as [|c l IH]; [apply adds_nil|]. cbn [mbind list_bind fmap list_fmap].
    apply (adds_app 1 _ [_]); [apply adds_cpu|exact IH].
  - intros rest. destruct (seq 0 _); done.
Qed.
Lemma adds_gic : adds 0 (gic_calls m) (opt gic_here intc_calls ++ opt timer_here (fun tp => timer_calls m (fst tp))).
Proof.
  unfold gic_calls, timer_here, gic_here, opt. destruct (fo_madt m) as [t|]; [|apply adds_nil].
  destruct (v2_ok t || v3_ok t); [|apply adds_nil]. apply adds_app.
  - apply (adds_leaf 0); [done|]. apply is_leafb_leaf. unfold intc_calls. destruct (v3_ok t); reflexivity.
  - unfold timer_calls. cbn [fst]. destruct (fo_ppi m) as [p|]; [|apply adds_nil].
    apply (adds_leaf 0); [done|]. apply is_leafb_leaf. reflexivity.
Qed.

Lemma vb_nodes_spec : nodes_of (vb_calls m) = vb_nodes.
Proof.
  pose proof (adds_app 0 _ _ _ _ adds_chosen (adds_app 0 _ _ _ _ adds_memory (adds_app 0 _ _ _ _ adds_psci
    (adds_app 0 _ _ _ _ adds_clock (adds_app 0 _ _ _ _ adds_pci (adds_app 0 _ _ _ _ adds_cpus
    (adds_app 0 _ _ _ _ adds_gic adds_serial))))))) as H.
  unfold nodes_of, vb_calls, root_calls, all_nodes. cbn [app].
  destruct (next_nodes_props (call_size (Node [])) 0
    [(str "#address-cells", v_u32 2); (str "#size-cells", v_u32 2);
     (str "model", v_str (str "VerkOS machine described by vboot")); (str "compatible", v_str (str "verkos,synthetic"));
     (str "interrupt-parent", v_u32 VB_PH_GIC)]
    (chosen_calls m ++ memory_calls m ++ psci_calls m ++ clock_calls m ++ pci_calls m
     ++ cpus_calls m ++ gic_calls m ++ serial_calls m ++ [End_])) as (o1 & E).
  cbn [props fmap list_fmap app] in E. rewrite fmap_cons. unfold prop_u32, prop_str. rewrite E.
  destruct (H o1 [End_]) as (o2 & E2). rewrite <- !app_assoc in E2.
  change (fmap (M := list)) with (@map (Z * Z * list call) node) in *. rewrite E2.
  cbn [next_nodes map]. rewrite app_nil_r. reflexivity.
Qed.
End nodes.

(** ** Facts vboot may gather *)
Definition word64 (x : Z) : Prop := 0 <= x < 2 ^ 64.
Definition word32 (x : Z) : Prop := 0 <= x < 2 ^ 32.

Record found_ok (m : found) : Prop := {
  ok_ram : 0 <= fo_lo m < fo_hi m /\ fo_hi m < 2 ^ 64;
  ok_uart : forall u p g, fo_uart m = Some (u, p, g) -> word64 u /\ word32 g;
  ok_mcfg : forall e a b, fo_mcfg m = Some (e, a, b) -> word64 e;
  ok_madt : forall t, fo_madt m = Some t ->
    word64 (Acpi.m_dist t) /\ word64 (Acpi.m_cpuif t) /\ word64 (Acpi.m_redist t) /\ 0 < Acpi.m_ncpu t;
  ok_ppi : forall l, fo_ppi m = Some l -> length l = 4%nat /\ Forall (fun x => 0 <= x < 16) l
}.

(** Names made of an address are strings without a slash or a colon. *)
Definition plain (s : list Z) : Prop := Forall (fun c => 58 < c < 128 \/ 47 < c < 58 \/ c = 45) s.

Lemma plain_string s : plain s -> c_string s.
Proof. intros H. eapply Forall_impl; [exact H|]. cbn. intros c. lia. Qed.
Lemma hex_digit_plain d : 0 <= d < 16 -> 58 < (if d <? 10 then 48 + d else 97 + d - 10) < 128 \/ 47 < (if d <? 10 then 48 + d else 97 + d - 10) < 58.
Proof. intros. destruct (Z.ltb_spec d 10); lia. Qed.
Lemma hex_loop_plain k v : plain (hex_loop k v) /\ (length (hex_loop k v) <= k)%nat.
Proof.
  revert v. induction k as [|k IH]; intros v; cbn [hex_loop]; [split; [constructor|cbn; lia]|].
  destruct (v =? 0); [split; [constructor|cbn; lia]|]. destruct (IH (Z.shiftr v 4)) as [H1 H2]. split.
  - constructor; [|done]. assert (0 <= Z.land v 15 < 16) by (apply (land_range 4); lia).
    pose proof (hex_digit_plain (Z.land v 15)). lia.
  - cbn; lia.
Qed.
Lemma hex_of_plain v : plain (hex_of v) /\ (length (hex_of v) <= 16)%nat.
Proof.
  unfold hex_of. rewrite length_rev. destruct (v =? 0); [split; [|cbn; lia]; cbn; constructor; [lia|constructor]|].
  destruct (hex_loop_plain 16 v) as [H ?]. split; [|done]. unfold plain. by apply Forall_rev.
Qed.
Lemma at_addr_plain p v : plain (str p) -> plain (at_addr p v) /\ (length (at_addr p v) <= length (str p) + 16)%nat.
Proof.
  intros Hp. destruct (hex_of_plain v) as [H1 H2]. unfold at_addr. split; [by apply Forall_app|]. rewrite length_app. lia.
Qed.

#[global] Instance plain_dec s : Decision (plain s).
Proof. apply Forall_dec. intros c. apply _. Defined.
Ltac plain := apply (bool_decide_unpack _); vm_compute; exact I.

Lemma cpu_name_string c : 0 <= c < 256 -> c_string (cpu_name c) /\ (length (cpu_name c) <= 6)%nat.
Proof.
  intros Hc.
  assert (forallb (fun c => bool_decide (c_string (cpu_name (Z.of_nat c))) && (length (cpu_name (Z.of_nat c)) <=? 6)%nat)
    (seq 0 256) = true) as H by (vm_compute; reflexivity).
  rewrite forallb_forall in H. specialize (H (Z.to_nat c)). rewrite in_seq, andb_true_iff, bool_decide_eq_true in H.
  rewrite Z2Nat.id, Nat.leb_le in H by lia. apply H. lia.
Qed.

(** What every call of vboot keeps. *)
Definition vb_good (c : call) : Prop :=
  call_ok c /\ match c with
  | Prop_ n v => (n = str "compatible" -> (exists l, table v l) /\ (length v < 64)%nat)
                 /\ (n = str "device_type" -> exists s, c_string s /\ v = s ++ [0])
  | _ => True
  end.

Lemma good_node n : c_string n -> (length n < 64)%nat -> vb_good (Node n).
Proof. intros. split; [split; [done|unfold zlen; lia]|done]. Qed.
Lemma good_other (n : string) v :
  bool_decide (str n = str "compatible") = false -> bool_decide (str n = str "device_type") = false ->
  bool_decide (c_string (str n)) && (length (str n) <? 64)%nat = true -> zlen v < 2 ^ 29 -> vb_good (Prop_ (str n) v).
Proof.
  rewrite andb_true_iff, bool_decide_eq_true, Nat.ltb_lt. intros H1%bool_decide_eq_false_1 H2%bool_decide_eq_false_1 [H3 H4] Hv.
  split; [split; [done|split; [unfold zlen; lia|done]]|]. done.
Qed.
Lemma good_text n s :
  n = str "compatible" \/ n = str "device_type" -> c_string s -> (length s < 60)%nat -> vb_good (Prop_ n (v_str s)).
Proof.
  intros Hn Hs Hl. assert (c_string n /\ (length n < 64)%nat) as [? ?].
  { destruct Hn as [-> | ->]; (split; [cstring|apply Nat.ltb_lt; vm_compute; reflexivity]). }
  split; [split; [done|split]|split].
  - unfold zlen; lia.
  - unfold v_str. rewrite zlen_app. unfold zlen. cbn. lia.
  - intros _. split; [exists [s]; split; [cbn; by rewrite app_nil_r|by repeat constructor]|].
    unfold v_str. rewrite length_app. cbn. lia.
  - intros _. by exists s.
Qed.
Lemma good_end : vb_good End_.
Proof. done. Qed.

(** [goods] proves [Forall vb_good] of a list of calls. *)
Ltac good1 :=
  lazymatch goal with
  | |- vb_good End_ => apply good_end
  | |- vb_good (Node (str _)) => apply good_node; [cstring|apply Nat.ltb_lt; reflexivity]
  | |- vb_good (Node _) => apply good_node
  | |- vb_good (Prop_ (str "compatible") (v_str _)) => apply good_text; [by left|cstring|apply Nat.ltb_lt; vm_compute; reflexivity]
  | |- vb_good (Prop_ (str "device_type") (v_str _)) => apply good_text; [by right|cstring|apply Nat.ltb_lt; vm_compute; reflexivity]
  | |- vb_good (Prop_ (str ?n) (v_str (_ :: _))) => apply (good_other n); [reflexivity|reflexivity|reflexivity|]
  | |- vb_good (Prop_ (str ?n) _) => apply (good_other n); [reflexivity|reflexivity|reflexivity|
      apply Z.ltb_lt; reflexivity]
  end.
Ltac goods := repeat first [apply Forall_cons; split | apply Forall_nil; exact I | apply Forall_app; split];
  unfold prop_u32, prop_str; try good1.

Section good.
Context (m : found) (Hm : found_ok m).

Lemma at_addr_string p v : plain (str p) -> c_string (at_addr p v) /\ (length (at_addr p v) <= length (str p) + 16)%nat.
Proof. intros H. destruct (at_addr_plain p v H). split; [by apply plain_string|done]. Qed.

Lemma good_chosen : Forall vb_good (chosen_calls m).
Proof.
  unfold chosen_calls. destruct (fo_rsdp m) as [r|], (fo_uart m) as [[[u b] g]|]; cbn [app]; goods.
  all: unfold v_str; rewrite zlen_app, zlen_cons; destruct (at_addr_string "serial@" u ltac:(plain)) as [_ H];
    change (length (str "serial@")) with 7%nat in H; change (zlen [0]) with 1; unfold zlen; lia.
Qed.
Lemma good_cpus : Forall vb_good (cpus_calls m).
Proof.
  unfold cpus_calls. destruct (fo_madt m) as [t|]; [|constructor]. destruct (Acpi.m_ncpu t =? 0); [constructor|].
  goods. apply Forall_bind, Forall_forall. intros c Hc%elem_of_seq.
  destruct (cpu_name_string (Z.of_nat c)) as [? ?]; [lia|].
  unfold cpu_calls. destruct (psci_ok m); goods; done || lia.
Qed.
Lemma good_gic : Forall vb_good (gic_calls m).
Proof using Hm.
  unfold gic_calls. destruct (fo_madt m) as [t|]; [|constructor]. destruct (v2_ok t || v3_ok t); [|constructor].
  apply Forall_app. split.
  - destruct (at_addr_string "intc@" (Acpi.m_dist t) ltac:(plain)) as [? H].
    change (length (str "intc@")) with 5%nat in H. unfold intc_calls. destruct (v3_ok t); goods; done || lia.
  - unfold timer_calls. destruct (fo_ppi m) as [l|] eqn:E; [|constructor]. destruct (ok_ppi m Hm l E) as [Hl _].
    destruct l as [|a [|b [|c [|d [|]]]]]; try done. goods.
Qed.
Lemma good_serial : Forall vb_good (serial_calls m).
Proof.
  unfold serial_calls. destruct (fo_uart m) as [[[u p] g]|]; [|constructor].
  destruct (at_addr_string "serial@" u ltac:(plain)) as [? H]. change (length (str "serial@")) with 7%nat in H.
  destruct p, (g >=? 32); cbn [app]; goods; try done; try lia.
  all: split; [split; [cstring|split; apply Z.ltb_lt; vm_compute; reflexivity]|split; [|intros E; vm_compute in E; done]].
  all: intros _; split; [exists [str "arm,pl011"; str "arm,primecell"]; split; [reflexivity|]|apply Nat.ltb_lt; vm_compute; reflexivity].
  all: repeat constructor; cstring || idtac.
Qed.
End good.

Lemma vb_calls_good m : found_ok m -> Forall vb_good (vb_calls m).
Proof.
  intros Hm. unfold vb_calls. rewrite !Forall_app. split_and!.
  - unfold root_calls. apply Forall_cons. split; [apply good_node; [constructor|cbn; lia]|]. goods.
  - apply good_chosen.
  - unfold memory_calls. goods.
  - unfold psci_calls. destruct (fo_psci m) as [h|]; [|constructor]. destruct h; goods.
  - unfold clock_calls. destruct (is_pl011 m); [|constructor]. goods.
  - unfold pci_calls. destruct (fo_mcfg m) as [[[e a] b]|]; [|constructor]. goods.
  - apply good_cpus.
  - by apply good_gic.
  - apply good_serial.
  - goods.
Qed.

(** ** Searching the nodes *)
Lemma find_opt {A} P (o : option A) G :
  (forall a, o = Some a -> P (leaf_node 1 (G a)) = false) -> List.find P (opt o G) = None.
Proof. intros H. unfold opt. destruct o as [a|]; cbn; [|done]. by rewrite H. Qed.
Lemma find_opt_hit {A} P (o : option A) G :
  (forall a, o = Some a -> P (leaf_node 1 (G a)) = true) -> List.find P (opt o G) = (fun a => leaf_node 1 (G a)) <$> o.
Proof. intros H. unfold opt. destruct o as [a|]; cbn; [|done]. by rewrite H. Qed.

Section kernel.
Context (m : found) (Hm : found_ok m).

(** What a predicate says of each group. *)
Record on_groups (P : node -> bool) (root chosen memory psci clock pci cpus intc timer serial : bool) : Prop := {
  og_root : P root_node = root;
  og_chosen : P (leaf_node 1 (chosen_calls m)) = chosen;
  og_memory : P (leaf_node 1 (memory_calls m)) = memory;
  og_psci : forall h, fo_psci m = Some h -> P (leaf_node 1 (psci_calls m)) = psci;
  og_clock : is_pl011 m = true -> P (leaf_node 1 (clock_calls m)) = clock;
  og_pci : forall x, fo_mcfg m = Some x -> P (leaf_node 1 (pci_calls m)) = pci;
  og_cpus : P {| n_depth := 1; n_name := str "cpus"; n_props := [(str "#address-cells", v_u32 1); (str "#size-cells", v_u32 0)] |} = false;
  og_cpu : forall c, P (leaf_node 2 (cpu_calls m c)) = cpus;
  og_intc : forall t, gic_here m = Some t -> P (leaf_node 1 (intc_calls t)) = intc;
  og_timer : forall x, timer_here m = Some x -> P (leaf_node 1 (timer_calls m (fst x))) = timer;
  og_serial : forall x, fo_uart m = Some x -> P (leaf_node 1 (serial_calls m)) = serial
}.

Lemma find_cpus P : P {| n_depth := 1; n_name := str "cpus"; n_props := [(str "#address-cells", v_u32 1); (str "#size-cells", v_u32 0)] |} = false ->
  (forall c, P (leaf_node 2 (cpu_calls m c)) = false) -> List.find P (cpu_nodes m) = None.
Proof.
  intros H1 H2. unfold cpu_nodes. destruct (cpus_here m) as [[n l]|]; [|done]. cbn [List.find]. rewrite H1.
  apply find_none. apply Forall_fmap, Forall_forall. intros c _. apply H2.
Qed.

(** A search that can only end in one group. *)
Lemma find_vb P root chosen memory psci clock pci intc timer serial :
  on_groups P root chosen memory psci clock pci false intc timer serial ->
  List.find P (vb_nodes m)
  = if root then Some root_node else if chosen then Some (leaf_node 1 (chosen_calls m))
    else if memory then Some (leaf_node 1 (memory_calls m))
    else
      let pick {A} (b : bool) (o : option A) (G : A -> list call) k :=
        match (if b then (fun a => leaf_node 1 (G a)) <$> o else None) with Some x => Some x | None => k end in
      pick psci (fo_psci m) (fun _ => psci_calls m)
      (pick clock (if is_pl011 m then Some tt else None) (fun _ => clock_calls m)
      (pick pci (fo_mcfg m) (fun _ => pci_calls m)
      (pick intc (gic_here m) intc_calls
      (pick timer (timer_here m) (fun tp => timer_calls m (fst tp))
      (pick serial (fo_uart m) (fun _ => serial_calls m) None))))).
Proof.
  intros []. unfold vb_nodes. cbn [List.find]. rewrite og_root0, og_chosen0, og_memory0.
  destruct root; [done|]. destruct chosen; [done|]. destruct memory; [done|].
  rewrite !find_app, (find_cpus P og_cpus0 og_cpu0). cbv zeta.
  assert (forall A (b : bool) (o : option A) G, (forall a, o = Some a -> P (leaf_node 1 (G a)) = b) ->
    List.find P (opt o G) = if b then (fun a => leaf_node 1 (G a)) <$> o else None) as Hpick.
  { intros A b o G H. destruct b; [by apply find_opt_hit|by apply find_opt]. }
  rewrite (Hpick _ psci) by eauto. rewrite (Hpick _ clock) by (destruct (is_pl011 m); [auto|done]).
  rewrite (Hpick _ pci) by eauto. rewrite (Hpick _ intc) by eauto. rewrite (Hpick _ timer) by eauto.
  rewrite (Hpick _ serial) by eauto.
  repeat (match goal with |- match ?x with _ => _ end = match ?x with _ => _ end => destruct x; [done|] end).
  match goal with |- ?x = _ => by destruct x end.
Qed.
End kernel.

(** [groups] computes a predicate on each group, by cases on what is there. *)
Ltac groups :=
  split;
  [ reflexivity
  | unfold chosen_calls; destruct (fo_rsdp _), (fo_uart _) as [[[? ?] ?]|]; reflexivity
  | reflexivity
  | intros h E; unfold psci_calls; rewrite E; reflexivity
  | intros E; unfold clock_calls; rewrite E; reflexivity
  | intros [[? ?] ?] E; unfold pci_calls; rewrite E; reflexivity
  | reflexivity
  | intros c; unfold cpu_calls; destruct (psci_ok _); reflexivity
  | intros t E; unfold intc_calls; try rewrite E; destruct (v3_ok t); reflexivity
  | intros [t l] E; cbn [fst]; unfold timer_here in E;
    destruct (gic_here _) as [t'|]; [|discriminate]; unfold timer_calls; destruct (fo_ppi _); [|discriminate]; reflexivity
  | intros [[u p] g] E; unfold serial_calls, is_pl011; rewrite E; destruct p, (g >=? 32); reflexivity ].

Definition gic_v3 (m : found) : bool := match gic_here m with Some t => v3_ok t | None => false end.
Definition ns16550 (m : found) : bool := match fo_uart m with Some (_, p, _) => negb p | None => false end.

Section searches.
Context (m : found).

Lemma og_memory_kind : on_groups m (device_is (str "memory")) false false true false false false false false false false.
Proof. groups. Qed.
Lemma og_chosen_path : on_groups m (matches (str "chosen")) false true false false false false false false false false.
Proof. groups. Qed.
Lemma og_gic_v3 : on_groups m (has_compat (str "arm,gic-v3")) false false false false false false false (gic_v3 m) false false.
Proof. unfold gic_v3. groups. Qed.
Lemma og_gic_400 : on_groups m (has_compat (str "arm,gic-400")) false false false false false false false false false false.
Proof. groups. Qed.
Lemma og_gic_v2 : on_groups m (has_compat (str "arm,cortex-a15-gic")) false false false false false false false (negb (gic_v3 m)) false false.
Proof. unfold gic_v3. groups. Qed.
Lemma og_timer_v8 : on_groups m (has_compat (str "arm,armv8-timer")) false false false false false false false false true false.
Proof. groups. Qed.
Lemma og_timer_v7 : on_groups m (has_compat (str "arm,armv7-timer")) false false false false false false false false false false.
Proof. groups. Qed.
Lemma og_bridge : on_groups m (has_compat (str "pci-host-ecam-generic")) false false false false false true false false false false.
Proof. groups. Qed.
Lemma og_pl011 : on_groups m (has_compat (str "arm,pl011")) false false false false false false false false false (is_pl011 m).
Proof. groups. Qed.
Lemma og_uart c : c ∈ [str "ns16550"; str "qcom,geni-debug-uart"; str "qcom,geni-uart"] ->
  on_groups m (has_compat c) false false false false false false false false false false.
Proof. rewrite !elem_of_cons, elem_of_nil. intros [->|[->|[->|[]]]]; groups. Qed.
Lemma og_16550 : on_groups m (has_compat (str "ns16550a")) false false false false false false false false false (ns16550 m).
Proof. unfold ns16550. groups. Qed.

(** The console's path names its node. *)
Lemma og_stdout u p g : fo_uart m = Some (u, p, g) ->
  on_groups m (matches (at_addr "serial@" u)) false false false false false false false false false true.
Proof.
  intros Eu. split.
  - reflexivity.
  - unfold chosen_calls. rewrite Eu. destruct (fo_rsdp m); reflexivity.
  - reflexivity.
  - intros h E. unfold psci_calls. rewrite E. reflexivity.
  - intros E. unfold clock_calls. rewrite E. reflexivity.
  - intros [[? ?] ?] E. unfold pci_calls. rewrite E. reflexivity.
  - reflexivity.
  - intros c. unfold cpu_calls. destruct (psci_ok m); reflexivity.
  - intros t _. unfold intc_calls. destruct (v3_ok t); reflexivity.
  - intros [t l] E. cbn [fst]. unfold timer_here in E. destruct (gic_here m); [|discriminate].
    unfold timer_calls. destruct (fo_ppi m); [|discriminate]. reflexivity.
  - intros x _. unfold serial_calls. rewrite Eu. unfold matches.
    cbn [app leaf_node name_of n_name n_depth]. by rewrite bool_decide_true.
Qed.

(** The processors are the only nodes of their kind. *)
Lemma filter_opt {A} P (o : option A) G :
  (forall a, o = Some a -> P (leaf_node 1 (G a)) = false) -> List.filter P (opt o G) = [].
Proof. intros H. unfold opt. destruct o as [a|]; cbn; [|done]. by rewrite H. Qed.

Lemma og_cpu_kind : on_groups m (device_is (str "cpu")) false false false false false false true false false false.
Proof. groups. Qed.

Lemma count_cpu_nodes :
  zlen (List.filter (device_is (str "cpu")) (vb_nodes m))
  = match cpus_here m with Some (n, _) => Z.max 0 (Z.min n 256) | None => 0 end.
Proof.
  destruct og_cpu_kind. unfold vb_nodes. cbn [List.filter]. rewrite og_root0, og_chosen0, og_memory0.
  rewrite !List.filter_app, (filter_opt _ (fo_psci m)), (filter_opt _ (fo_mcfg m)), (filter_opt _ (gic_here m)),
    (filter_opt _ (timer_here m)), (filter_opt _ (fo_uart m)), (filter_opt _ (if is_pl011 m then _ else _)) by
    first [exact og_psci0 | exact og_pci0 | exact og_intc0 | exact og_timer0 | exact og_serial0
          | intros ? E; destruct (is_pl011 m); [by apply og_clock0|discriminate]].
  cbn [app]. rewrite app_nil_r. unfold cpu_nodes, cpus_here. destruct (fo_madt m) as [t|]; [|done].
  destruct (Acpi.m_ncpu t =? 0); [done|]. cbn [List.filter]. rewrite og_cpus0.
  assert (forall l : list nat, List.filter (device_is (str "cpu")) ((fun c => leaf_node 2 (cpu_calls m (Z.of_nat c))) <$> l)
    = (fun c => leaf_node 2 (cpu_calls m (Z.of_nat c))) <$> l) as ->.
  { induction l as [|c l IH]; cbn [fmap list_fmap List.filter]; [done|]. rewrite og_cpu0. by rewrite IH. }
  unfold zlen. rewrite length_fmap, length_seq. lia.
Qed.
End searches.

(** ** What the kernel reads *)

(** The characters copied from the console's path. *)
Lemma copy_path_at f p s k i :
  Forall (fun c => 0 < c /\ c <> 58) s -> holds (f_blob f) (p + i) (s ++ [0]) -> (length s < k)%nat ->
  copy_path k f p (i + zlen s + 1) i = Ret s.
Proof.
  intros Hs. revert k i. induction Hs as [|c s [Hc1 Hc2] Hs IH]; intros k i Hh Hk;
    (destruct k as [|k]; [cbn in Hk; lia|]); cbn [copy_path].
  { change (zlen []) with 0. destruct (Z.ltb_spec i (i + 0 + 1 - 1)); [lia|done]. }
  rewrite zlen_cons. pose proof (zlen_nonneg s). destruct (Z.ltb_spec i (i + (1 + zlen s) + 1 - 1)); [|lia].
  cbn [app] in Hh. rewrite (holds_ld0 _ _ _ _ Hh). cbn [obind].
  destruct (Z.eqb_spec c 0); [lia|]. destruct (Z.eqb_spec c 58); [lia|]. cbn [orb].
  apply holds_cons in Hh as [_ Hh]. rewrite <- Z.add_assoc in Hh.
  replace (i + (1 + zlen s) + 1) with (i + 1 + zlen s + 1) by lia. rewrite IH by (done || cbn in Hk; lia). done.
Qed.

Section kernel_reads.
Context (m : found) (Hm : found_ok m) (f : fdt) (Hv : views f (vb_calls m))
  (Hac : f_addr_cells f = 2) (Hsc : f_size_cells f = 2)
  (fuel : nat) (Hf : (length (vb_calls m) < fuel)%nat) (Hf64 : (64 <= fuel)%nat).

Lemma vb_root : exists n r, vb_calls m = Node n :: r.
Proof. unfold vb_calls, root_calls. cbn [app]. eauto. Qed.
Lemma vb_compat : every (str "compatible") (compat_value fuel) (vb_calls m).
Proof using Hm Hf Hf64.
  unfold every, compat_value. eapply Forall_impl; [exact (vb_calls_good m Hm)|]. intros [n|n v|] [_ H]; try done.
  intros E. destruct H as [H _]. destruct (H E). split; [done|lia].
Qed.
Lemma vb_device : every (str "device_type") text_value (vb_calls m).
Proof using Hm.
  unfold every, text_value. eapply Forall_impl; [exact (vb_calls_good m Hm)|]. intros [n|n v|] [_ H]; try done.
  intros E. by apply H.
Qed.

(** The searches, over the nodes listed. *)
Lemma vb_compatible c : c_string c ->
  match List.find (has_compat c) (vb_nodes m) with
  | Some nd => exists o, fdt_find_compatible fuel f c = Ret o /\ found_at (vb_calls m) o nd
  | None => fdt_find_compatible fuel f c = Ret FDT_NONE
  end.
Proof using Hv Hf Hm Hf64.
  intros Hc. rewrite <- vb_nodes_spec. exact (find_compatible_spec f _ Hv fuel Hf vb_root vb_compat c Hc).
Qed.
Lemma vb_path seg : seg <> [] -> plain seg ->
  match List.find (matches seg) (vb_nodes m) with
  | Some nd => exists o, fdt_find_path fuel f (47 :: seg) = Ret o /\ found_at (vb_calls m) o nd
  | None => fdt_find_path fuel f (47 :: seg) = Ret FDT_NONE
  end.
Proof using Hf Hf64 Hv f fuel m.
  intros Hne Hp. rewrite <- vb_nodes_spec. apply (find_path_spec f _ Hv fuel Hf vb_root seg Hne).
  - by apply plain_string.
  - eapply Forall_impl; [exact Hp|]. cbn. lia.
Qed.

Lemma vb_chosen : exists o, fdt_find_path fuel f (str "/chosen") = Ret o
  /\ found_at (vb_calls m) o (leaf_node 1 (chosen_calls m)).
Proof using Hf Hf64 Hv f fuel m.
  pose proof (vb_path (str "chosen") ltac:(done) ltac:(plain)) as H.
  rewrite (find_vb m _ _ _ _ _ _ _ _ _ _ (og_chosen_path m)) in H. exact H.
Qed.

(** *** Memory and processors *)
Lemma vb_memory : exists o, find_memory fuel f = Ret (Some o)
  /\ fdt_reg fuel f o = Ret (Some (fo_lo m, fo_hi m - fo_lo m)).
Proof using Hac Hf Hf64 Hm Hsc Hv f fuel m.
  pose proof (find_memory_spec f _ Hv fuel Hf vb_root vb_device) as H. rewrite vb_nodes_spec in H.
  rewrite (find_vb m _ _ _ _ _ _ _ _ _ _ (og_memory_kind m)) in H. destruct H as (o & E & Hat).
  exists o. split; [exact E|]. destruct (ok_ram m Hm) as [? ?].
  apply (fdt_reg_found f _ Hv fuel Hf Hac Hsc o _ _ _ Hat); [|lia|lia].
  transitivity (Some (v_reg (fo_lo m) (u64 (fo_hi m - fo_lo m)))); [reflexivity|].
  by rewrite uwrap_small by lia.
Qed.

(** *** The interrupt controller *)
Definition kernel_gic : option gic :=
  match gic_here m with
  | Some t => Some (if v3_ok t then GicV3 (Acpi.m_dist t) (Acpi.m_redist t) else GicV2 (Acpi.m_dist t) (Acpi.m_cpuif t))
  | None => None
  end.

Lemma vb_two_regs o t : gic_here m = Some t -> found_at (vb_calls m) o (leaf_node 1 (intc_calls t)) ->
  two_regs fuel f o = Ret (Some (Acpi.m_dist t, if v3_ok t then Acpi.m_redist t else Acpi.m_cpuif t)).
Proof using Hv Hf Hm Hac Hsc.
  intros Et Hat. unfold gic_here in Et. destruct (fo_madt m) as [t'|] eqn:Em; [|discriminate].
  destruct (v2_ok t' || v3_ok t'); [|discriminate]. injection Et as ->. destruct (ok_madt m Hm t Em) as (H1 & H2 & H3 & _).
  apply (two_regs_found f _ Hv fuel Hf Hac Hsc o _ _ (b_put32 0 ++ b_put32 (if v3_ok t then 0x10000 else 0x1000)) _
    (b_put32 0 ++ b_put32 (if v3_ok t then 0x20000 else 0x2000)) Hat).
  - unfold intc_calls, leaf_node. cbn [tail n_props props_of find_prop]. rewrite <- !app_assoc. reflexivity.
  - by destruct (v3_ok t).
  - by destruct (v3_ok t).
  - done.
  - by destruct (v3_ok t).
Qed.

Lemma vb_gic : gic_init fuel f = Ret kernel_gic.
Proof using Hv Hf Hm Hac Hsc Hf64.
  unfold gic_init, kernel_gic. pose proof (vb_compatible (str "arm,gic-v3") ltac:(cstring)) as H3.
  pose proof (vb_compatible (str "arm,gic-400") ltac:(cstring)) as H4.
  pose proof (vb_compatible (str "arm,cortex-a15-gic") ltac:(cstring)) as H2.
  rewrite (find_vb m _ _ _ _ _ _ _ _ _ _ (og_gic_v3 m)) in H3.
  rewrite (find_vb m _ _ _ _ _ _ _ _ _ _ (og_gic_400 m)) in H4.
  rewrite (find_vb m _ _ _ _ _ _ _ _ _ _ (og_gic_v2 m)) in H2. cbn [negb] in *. unfold gic_v3 in *.
  destruct (gic_here m) as [t|] eqn:Et; cbn [negb fmap option_fmap option_map] in *.
  - destruct (v3_ok t) eqn:E3; cbn [negb] in *.
    + destruct H3 as (o & -> & Hat). cbn [obind]. rewrite (found_not_none f _ Hv fuel Hf o _ Hat). cbn [negb].
      rewrite (vb_two_regs o t Et Hat), E3. done.
    + rewrite H3. cbn [obind]. rewrite Z.eqb_refl. cbn [negb find_first]. rewrite H4. cbn [obind]. rewrite Z.eqb_refl.
      destruct H2 as (o & -> & Hat). cbn [obind]. rewrite !(found_not_none f _ Hv fuel Hf o _ Hat). cbn [obind].
      rewrite (found_not_none f _ Hv fuel Hf o _ Hat), (vb_two_regs o t Et Hat), E3. done.
  - rewrite H3. cbn [obind]. rewrite Z.eqb_refl. cbn [negb find_first]. rewrite H4. cbn [obind]. rewrite Z.eqb_refl.
    rewrite H2. done.
Qed.

(** *** The timer *)
Definition kernel_timer : Z :=
  match timer_here m with Some (_, l) => default 0 (l !! 1%nat) + 16 | None => -1 end.

Lemma vb_timer : gic_timer_irq fuel f = Ret kernel_timer.
Proof using Hv Hf Hm Hf64.
  unfold gic_timer_irq, kernel_timer. pose proof (vb_compatible (str "arm,armv8-timer") ltac:(cstring)) as H8.
  pose proof (vb_compatible (str "arm,armv7-timer") ltac:(cstring)) as H7.
  rewrite (find_vb m _ _ _ _ _ _ _ _ _ _ (og_timer_v8 m)) in H8.
  rewrite (find_vb m _ _ _ _ _ _ _ _ _ _ (og_timer_v7 m)) in H7. cbn [find_first].
  destruct (timer_here m) as [[t l]|] eqn:Et; cbn [fmap option_fmap option_map fst] in *.
  2: { rewrite H8. cbn [obind]. rewrite Z.eqb_refl, H7. done. }
  destruct H8 as (o & -> & Hat). cbn [obind]. rewrite !(found_not_none f _ Hv fuel Hf o _ Hat). cbn [obind].
  rewrite (found_not_none f _ Hv fuel Hf o _ Hat).
  assert (fo_ppi m = Some l) as El.
  { unfold timer_here in Et. destruct (gic_here m); [|discriminate]. destruct (fo_ppi m); [|discriminate].
    by injection Et as _ ->. }
  destruct (ok_ppi m Hm l El) as [Hl Hr]. destruct l as [|a [|b [|c [|d [|]]]]]; try done.
  inversion_clear Hr as [|? ? Ha Hr']. inversion_clear Hr' as [|? ? Hb Hr]. clear Hr.
  unfold timer_calls in Hat. rewrite El in Hat. set (cell3 := Z.lor _ _) in Hat.
  set (q := fun p => b_put32 1 ++ b_put32 p ++ b_put32 cell3) in Hat.
  destruct (words_found f _ Hv fuel Hf o _ (str "interrupts") (q a) 1 (b_put32 b ++ b_put32 cell3 ++ q c ++ q d) Hat)
    as (p & E1 & W1); [cstring|reflexivity|lia|].
  destruct (words_found f _ Hv fuel Hf o _ (str "interrupts") (q a ++ b_put32 1) b (b_put32 cell3 ++ q c ++ q d) Hat)
    as (p' & E2 & W2); [cstring|reflexivity|lia|].
  assert (p' = p) as -> by (rewrite E1 in E2; by injection E2).
  rewrite E1. cbn [obind]. change (zlen _ <? 24) with false. cbn match.
  change (zlen (q a)) with 12 in W1. change (zlen (q a ++ b_put32 1)) with 16 in W2. rewrite W1, W2. cbn [obind].
  unfold irq_number. rewrite (uwrap_small 32 1), (uwrap_small 32 b) by lia. cbn [Z.eqb Pos.eqb].
  rewrite uwrap_small by lia. by rewrite i32_small by lia.
Qed.

(** *** The bridge *)
Lemma vb_bridge : pci_init fuel f = Ret ((fun x => (fst (fst x), None)) <$> fo_mcfg m).
Proof using Hv Hf Hm Hf64 Hac Hsc.
  unfold pci_init. pose proof (vb_compatible (str "pci-host-ecam-generic") ltac:(cstring)) as H.
  rewrite (find_vb m _ _ _ _ _ _ _ _ _ _ (og_bridge m)) in H.
  destruct (fo_mcfg m) as [[[e lo] hi]|] eqn:E; cbn [fmap option_fmap option_map fst] in *.
  2: { rewrite H. done. }
  destruct H as (o & -> & Hat). cbn [obind]. rewrite (found_not_none f _ Hv fuel Hf o _ Hat).
  unfold pci_calls in Hat. rewrite E in Hat. set (size := u64 (Z.shiftl _ 20)) in Hat.
  pose proof (prop_found f _ Hv fuel Hf o _ (str "reg") Hat ltac:(cstring)) as H.
  change (find_prop _ _) with (Some (v_reg e size)) in H. destruct H as (p & -> & Hh & _). cbn [obind].
  change (zlen _ <? 8) with false. cbn match. rewrite Hac, (cells_2 f p e (v_u64 size)) by (try done; by eapply ok_mcfg).
  cbn [obind]. unfold bridge_window.
  pose proof (prop_found f _ Hv fuel Hf o _ (str "ranges") Hat ltac:(cstring)) as H.
  change (find_prop _ _) with (@None (list Z)) in H. rewrite H. done.
Qed.

(** *** The console *)
Lemma serial_name u p g : fo_uart m = Some (u, p, g) -> name_of (serial_calls m) = at_addr "serial@" u.
Proof using. intros E. unfold serial_calls. by rewrite E. Qed.

Lemma vb_stdout :
  match fo_uart m with
  | Some _ => exists o, stdout_node fuel f = Ret o /\ found_at (vb_calls m) o (leaf_node 1 (serial_calls m))
  | None => stdout_node fuel f = Ret FDT_NONE
  end.
Proof using Hf Hf64 Hm Hv f fuel m.
  unfold stdout_node. destruct vb_chosen as (o & -> & Hat). cbn [obind]. rewrite (found_not_none f _ Hv fuel Hf o _ Hat).
  pose proof (prop_found f _ Hv fuel Hf o _ (str "stdout-path") Hat ltac:(cstring)) as H.
  unfold chosen_calls in H. destruct (fo_uart m) as [[[u p] g]|] eqn:Eu.
  2: { destruct (fo_rsdp m); change (find_prop _ _) with (@None (list Z)) in H; by rewrite H. }
  assert (exists q, fdt_getprop fuel f o (str "stdout-path") = Ret (Some (q, zlen (v_str (47 :: at_addr "serial@" u))))
    /\ holds (f_blob f) q (v_str (47 :: at_addr "serial@" u))) as (q & -> & Hh).
  { destruct (fo_rsdp m); change (find_prop _ _) with (Some (v_str (47 :: at_addr "serial@" u))) in H;
      destruct H as (q & ? & ? & _); eauto. }
  clear H. cbn [obind]. destruct (at_addr_plain "serial@" u ltac:(plain)) as [Hp Hl].
  change (length (str "serial@")) with 7%nat in Hl. unfold v_str in *. rewrite zlen_app. change (zlen [0]) with 1.
  pose proof (zlen_nonneg (at_addr "serial@" u)). destruct (Z.eqb_spec (zlen (47 :: at_addr "serial@" u) + 1) 0);
    [rewrite zlen_cons in *; lia|].
  replace (zlen (47 :: at_addr "serial@" u) + 1) with (0 + zlen (47 :: at_addr "serial@" u) + 1) by lia.
  rewrite (copy_path_at f q (47 :: at_addr "serial@" u)); [| |by rewrite Z.add_0_r|cbn [length]; lia].
  2: { constructor; [lia|]. eapply Forall_impl; [exact Hp|]. cbn. lia. }
  cbn [obind]. pose proof (vb_path (at_addr "serial@" u) ltac:(by unfold at_addr) Hp) as H'.
  rewrite (find_vb m _ _ _ _ _ _ _ _ _ _ (og_stdout m u p g Eu)), Eu in H'.
  cbn [fmap option_fmap option_map] in H'. exact H'.
Qed.

Lemma serial_reads o u p g : fo_uart m = Some (u, p, g) -> found_at (vb_calls m) o (leaf_node 1 (serial_calls m)) ->
  fdt_reg fuel f o = Ret (Some (u, 0x1000))
  /\ (forall name, c_string name -> name = str "reg-shift" \/ name = str "reg-io-width" -> fdt_getprop fuel f o name = Ret None)
  /\ fdt_is_compatible fuel f o (str "arm,pl011") = Ret p
  /\ fdt_is_compatible fuel f o (str "qcom,geni-debug-uart") = Ret false
  /\ fdt_is_compatible fuel f o (str "qcom,geni-uart") = Ret false
  /\ console_irq fuel f o = Ret (if g >=? 32 then i32 g else -1).
Proof using Hv Hf Hm Hf64 Hac Hsc.
  intros E Hat. destruct (ok_uart m Hm u p g E) as [Hu Hg]. unfold word64, word32 in *.
  unfold serial_calls in Hat. rewrite E in Hat. split_and!.
  - apply (fdt_reg_found f _ Hv fuel Hf Hac Hsc o _ _ _ Hat); [|done|lia]. destruct p, (g >=? 32); reflexivity.
  - intros name Hn H. pose proof (prop_found f _ Hv fuel Hf o _ name Hat Hn) as H'.
    destruct H as [-> | ->]; destruct p, (g >=? 32); exact H'.
  - rewrite (is_compatible_at f _ Hv fuel Hf vb_compat o _ _ Hat) by cstring. destruct p, (g >=? 32); reflexivity.
  - rewrite (is_compatible_at f _ Hv fuel Hf vb_compat o _ _ Hat) by cstring. destruct p, (g >=? 32); reflexivity.
  - rewrite (is_compatible_at f _ Hv fuel Hf vb_compat o _ _ Hat) by cstring. destruct p, (g >=? 32); reflexivity.
  - unfold console_irq. rewrite (found_not_none f _ Hv fuel Hf o _ Hat). destruct (Z.geb_spec g 32) as [H32|H32].
    + assert (find_prop (n_props (leaf_node 1 (serial_calls m))) (str "interrupts")
        = Some (b_put32 0 ++ b_put32 (g - 32) ++ b_put32 4)) as Ep.
      { unfold serial_calls. rewrite E. destruct (Z.geb_spec g 32); [|lia]. by destruct p. }
      unfold serial_calls in Ep. rewrite E in Ep. destruct (Z.geb_spec g 32) in Ep; [|lia].
      destruct (words_found f _ Hv fuel Hf o _ (str "interrupts") [] 0 (b_put32 (g - 32) ++ b_put32 4) Hat)
        as (q & E1 & W1); [cstring|exact Ep|lia|].
      destruct (words_found f _ Hv fuel Hf o _ (str "interrupts") (b_put32 0) (g - 32) (b_put32 4) Hat)
        as (q' & E2 & W2); [cstring|exact Ep|lia|].
      assert (q' = q) as -> by (rewrite E1 in E2; by injection E2).
      rewrite E1. cbn [obind app]. change (zlen _ <? 12) with false. cbn match.
      change (zlen []) with 0 in W1. change (zlen (b_put32 0)) with 4 in W2. rewrite Z.add_0_r in W1.
      rewrite W1, W2. cbn [obind]. unfold irq_number. rewrite (uwrap_small 32 0), (uwrap_small 32 (g - 32)) by lia.
      cbn [Z.eqb]. replace (g - 32 + 32) with g by lia. by rewrite uwrap_small by lia.
    + pose proof (prop_found f _ Hv fuel Hf o _ (str "interrupts") Hat ltac:(cstring)) as H'.
      destruct p; change (find_prop _ _) with (@None (list Z)) in H'; by rewrite H'.
Qed.

(** The console, and the interrupt asked for it. *)
Definition console_read : Prop :=
  match fo_uart m with
  | Some (u, p, g) => exists o,
      console_init fuel f = Ret (Some {| u_node := o; u_base := u; u_kind := if p then UART_PL011 else UART_8250;
                                         u_shift := 0; u_width := if p then 4 else 1 |})
      /\ console_irq fuel f o = Ret (if g >=? 32 then i32 g else -1)
  | None => console_init fuel f = Ret None
  end.

Lemma vb_console : console_read.
Proof using Hv Hf Hm Hf64 Hac Hsc.
  unfold console_read, console_init. pose proof vb_stdout as H. destruct (fo_uart m) as [[[u p] g]|] eqn:E.
  - destruct H as (o & -> & Hat). destruct (serial_reads o u p g E Hat) as (Hr & Hn & Hp & Hg1 & Hg2 & Hi). exists o.
    split; [|done]. cbn [obind]. rewrite (found_not_none f _ Hv fuel Hf o _ Hat). cbn [obind].
    rewrite (found_not_none f _ Hv fuel Hf o _ Hat), Hr. cbn [obind]. unfold cell_prop. rewrite !Hn by (cstring || auto).
    cbn [obind]. rewrite Hp. destruct p; [done|]. cbn [obind]. rewrite Hg1. cbn [obind]. by rewrite Hg2.
  - rewrite H. cbn [obind]. rewrite Z.eqb_refl. cbn [find_first].
    assert (forall c, c_string c -> List.find (has_compat c) (vb_nodes m) = None -> fdt_find_compatible fuel f c = Ret FDT_NONE) as Hno.
    { intros c Hc Ef. pose proof (vb_compatible c Hc) as H'. by rewrite Ef in H'. }
    assert (forall c b, on_groups m (has_compat c) false false false false false false false false false b ->
      List.find (has_compat c) (vb_nodes m) = None) as Hf0.
    { intros c b Hg. rewrite (find_vb m _ _ _ _ _ _ _ _ _ _ Hg), E. by destruct b. }
    assert (forall n, n ∈ [str "ns16550"; str "qcom,geni-debug-uart"; str "qcom,geni-uart"] ->
      List.find (has_compat n) (vb_nodes m) = None) as Hu by (intros n Hn; exact (Hf0 _ _ (og_uart m n Hn))).
    rewrite (Hno (str "arm,pl011")); [|cstring|exact (Hf0 _ _ (og_pl011 m))]. cbn [obind]. rewrite Z.eqb_refl.
    rewrite (Hno (str "ns16550a")); [|cstring|exact (Hf0 _ _ (og_16550 m))]. cbn [obind]. rewrite Z.eqb_refl.
    rewrite (Hno (str "ns16550")); [|cstring|apply Hu; rewrite !elem_of_cons; auto]. cbn [obind]. rewrite Z.eqb_refl.
    rewrite (Hno (str "qcom,geni-debug-uart")); [|cstring|apply Hu; rewrite !elem_of_cons; auto]. cbn [obind]. rewrite Z.eqb_refl.
    rewrite (Hno (str "qcom,geni-uart")); [|cstring|apply Hu; rewrite !elem_of_cons; auto]. done.
Qed.

(** *** The handover *)
Lemma vb_handover o bi :
  exists p, holds (f_blob f) p (v_str (str "VerkOS machine described by vboot"))
  /\ (fdt_init fuel (Some (f_blob f)) = Ret (Some f) ->
      handover_dtb fuel o (Some (f_blob f)) bi = Ret (Some (f,
        let over := ov_initrd_end o >? ov_initrd_start o in
        {| bi_model := InBlob p;
           bi_cmdline := match ov_cmdline o with Some s => Given s | None => bi_cmdline bi end;
           bi_initrd_start := if over then ov_initrd_start o else bi_initrd_start bi;
           bi_initrd_end := if over then ov_initrd_end o else bi_initrd_end bi;
           bi_ram_base := fo_lo m; bi_ram_size := fo_hi m - fo_lo m;
           bi_cpus := bi_cpus bi + match cpus_here m with Some (n, _) => Z.max 0 (Z.min n 256) | None => 0 end;
           bi_free_base := ov_free_base o; bi_free_size := ov_free_size o |}))).
Proof using Hv Hf Hm Hf64 Hac Hsc.
  destruct vb_root as (n & r & Er).
  assert (found_at (vb_calls m) 0 root_node) as Hroot.
  { unfold found_at. exists [], (tail (vb_calls m)). split; [by exists []|]. split; reflexivity. }
  pose proof (prop_found f _ Hv fuel Hf 0 _ (str "model") Hroot ltac:(cstring)) as Hmodel.
  change (find_prop _ _) with (Some (v_str (str "VerkOS machine described by vboot"))) in Hmodel.
  destruct Hmodel as (p & Ep & Hh & _). exists p. split; [done|]. intros Ei. unfold handover_dtb. rewrite Ei. cbn [obind].
  rewrite (fdt_root_spec f _ Hv fuel n r Er) by lia. cbn [obind]. unfold text_prop at 1. rewrite Ep. cbn [obind].
  change (zlen _ =? 0) with false. cbn match. destruct vb_chosen as (oc & -> & Hc). cbn [obind].
  rewrite (found_not_none f _ Hv fuel Hf oc _ Hc).
  assert (forall name, name ∈ [str "bootargs"; str "linux,initrd-start"; str "linux,initrd-end"] ->
    fdt_getprop fuel f oc name = Ret None) as Hnone.
  { intros name Hn. assert (c_string name) as Hs.
    { rewrite !elem_of_cons, elem_of_nil in Hn. destruct Hn as [->|[->|[->|[]]]]; cstring. }
    pose proof (prop_found f _ Hv fuel Hf oc _ name Hc Hs) as H. unfold chosen_calls in H.
    rewrite !elem_of_cons, elem_of_nil in Hn.
    destruct Hn as [->|[->|[->|[]]]]; destruct (fo_rsdp m), (fo_uart m) as [[[? ?] ?]|]; exact H. }
  unfold text_prop, chosen_word. rewrite !Hnone by (rewrite !elem_of_cons; auto). cbn [obind].
  destruct vb_memory as (om & -> & Hr). cbn [obind]. rewrite Hr. cbn [obind].
  rewrite (count_cpus_spec f _ Hv fuel Hf vb_root vb_device), vb_nodes_spec, count_cpu_nodes. done.
Qed.
End kernel_reads.

(** ** What vboot gathers *)
Section gathered.
Context (ram : Z -> Z) (Hram : forall p, 0 <= ram p < 256) (acpi20 : option Z).

Lemma le32_range p : 0 <= Acpi.vb_le32 ram p < 2 ^ 32.
Proof using Hram.
  unfold Acpi.vb_le32. assert (forall k q, 0 <= k <= 24 -> 0 <= Z.shiftl (ram q) k < 2 ^ 32) as H.
  { intros k q Hk. rewrite Z.shiftl_mul_pow2 by lia. pose proof (Hram q).
    assert (2 ^ k <= 2 ^ 24) by (apply Z.pow_le_mono_r; lia). assert (0 < 2 ^ k) by (apply Z.pow_pos_nonneg; lia). nia. }
  pose proof (Hram p). repeat apply (lor_range 32); try lia; apply H; lia.
Qed.
Lemma le64_range p : word64 (Acpi.vb_le64 ram p).
Proof using Hram.
  unfold Acpi.vb_le64, word64.
  assert (forall l v, Forall (fun i => i < 8)%nat l -> 0 <= v < 2 ^ 64 ->
    0 <= fold_left (fun v i => Z.lor v (Z.shiftl (ram (p + Z.of_nat i)) (8 * Z.of_nat i))) l v < 2 ^ 64) as H.
  { intros l v Hl. revert v. induction Hl as [|i l Hi Hl IH]; intros v Hv; cbn [fold_left]; [done|]. apply IH.
    apply (lor_range 64); [lia|done|]. rewrite Z.shiftl_mul_pow2 by lia. pose proof (Hram (p + Z.of_nat i)).
    assert (2 ^ (8 * Z.of_nat i) <= 2 ^ 56) by (apply Z.pow_le_mono_r; lia).
    assert (0 < 2 ^ (8 * Z.of_nat i)) by (apply Z.pow_pos_nonneg; lia). nia. }
  apply H; [|lia]. apply Forall_forall. intros i Hi%elem_of_seq. lia.
Qed.

Definition madt_ok (t : Acpi.madt) : Prop :=
  word64 (Acpi.m_dist t) /\ word64 (Acpi.m_cpuif t) /\ word64 (Acpi.m_redist t).

Lemma madt_loop_ok k t len o m : madt_ok m -> madt_ok (Acpi.madt_loop ram k t len o m).
Proof using Hram.
  revert o m. induction k as [|k IH]; intros o m Hm; cbn [Acpi.madt_loop]; [done|].
  destruct (o + 2 <=? len); [|done]. destruct (_ || _); [done|]. apply IH. destruct Hm as (H1 & H2 & H3).
  unfold Acpi.madt_entry, madt_ok. repeat case_match; cbn; split_and!; done || apply le64_range.
Qed.
Lemma vb_madt_ok t : Acpi.vb_madt ram acpi20 = Some t -> madt_ok t /\ 0 < Acpi.m_ncpu t.
Proof using Hram.
  unfold Acpi.vb_madt. destruct (Acpi.vb_acpi_table _ _ _) as [p|]; [|done]. cbv zeta.
  destruct (Z.gtb_spec (Acpi.m_ncpu (Acpi.madt_loop ram (Z.to_nat (Acpi.vb_le32 ram (p + 4))) p (Acpi.vb_le32 ram (p + 4)) 44
    {| Acpi.m_dist := 0; Acpi.m_cpuif := 0; Acpi.m_ncpu := 0; Acpi.m_gicver := 0; Acpi.m_redist := 0 |})) 0) as [H|]; [|done].
  intros [= <-]. split; [|lia]. apply madt_loop_ok. unfold madt_ok, word64. cbn. lia.
Qed.

Lemma ppi_loop_ok offs t l : Acpi.ppi_loop ram offs t = Some l -> length l = length offs /\ Forall (fun x => 0 <= x < 16) l.
Proof using.
  revert l. induction offs as [|o offs IH]; intros l; cbn [Acpi.ppi_loop]; [by intros [= <-]|].
  destruct (_ || _) eqn:E; [done|]. destruct (Acpi.ppi_loop _ _ _) as [l'|]; [|done]. intros [= <-].
  destruct (IH l' eq_refl) as [H1 H2]. apply orb_false_iff in E as [E1 E2]. cbn. split; [by rewrite H1|].
  constructor; [lia|done].
Qed.

Lemma extent_ok mmap dsize lo hi :
  match mmap with Some b => bytes_ok b | None => True end ->
  Acpi.vb_ram_extent mmap dsize = Some (lo, hi) -> 0 <= lo < hi /\ hi < 2 ^ 64.
Proof using.
  unfold Acpi.vb_ram_extent. destruct mmap as [b|]; [|done]. intros Hb. destruct (dsize =? 0); [done|].
  assert (forall k size o lh, 0 <= fst lh < 2 ^ 64 /\ 0 <= snd lh < 2 ^ 64 ->
    let r := Acpi.mm_loop k b size dsize o lh in 0 <= fst r < 2 ^ 64 /\ 0 <= snd r < 2 ^ 64) as H.
  { induction k as [|k IH]; intros size o lh Hl; cbn [Acpi.mm_loop]; [done|]. destruct (o + dsize <=? size); [|done].
    apply IH. destruct lh as [l h]. cbn [fst snd] in *. unfold Acpi.mm_step. destruct (negb _); [done|].
    pose proof (rd64_range b Hb (o + 8)). pose proof (uwrap_range 64 (rd64 b (o + 8) + u64 (rd64 b (o + 24) * 4096))).
    cbn [fst snd]. repeat case_match; lia. }
  specialize (H (length b) (zlen b) 0 (2 ^ 64 - 1, 0) ltac:(cbn; lia)). cbv zeta in H.
  destruct (Acpi.mm_loop _ _ _ _ _ _) as [l h]. cbn [fst snd] in H. destruct (_ || _) eqn:E; [done|].
  intros [= <- <-]. apply orb_false_iff in E as [E1 E2]. lia.
Qed.

Lemma gather_ok mmap dsize m :
  match mmap with Some b => bytes_ok b | None => True end ->
  gather ram acpi20 mmap dsize = Some m -> found_ok m.
Proof using Hram.
  intros Hb. unfold gather. destruct (Acpi.vb_ram_extent mmap dsize) as [[lo hi]|] eqn:E; [|done]. intros [= <-].
  split; cbn.
  - by apply (extent_ok mmap dsize).
  - intros u p g. unfold Acpi.vb_spcr. destruct (Acpi.vb_acpi_table _ _ _) as [t|]; [|done]. cbv zeta.
    destruct (_ || _); [done|]. intros [= <- _ <-]. split; [apply le64_range|apply le32_range].
  - intros e a b. unfold Acpi.vb_mcfg. destruct (Acpi.vb_acpi_table _ _ _) as [t|]; [|done]. cbv zeta.
    destruct (_ <? 44 + 16); [done|]. destruct (negb _); [done|]. destruct (_ =? 0); [done|]. intros [= <- _ _]. unfold word64.
    pose proof (le32_range (t + 44)). pose proof (le32_range (t + 44 + 4)). rewrite lor_shiftl_add by lia. lia.
  - intros t Ht. destruct (vb_madt_ok t Ht) as [(? & ? & ?) ?]. done.
  - intros l. unfold Acpi.vb_gtdt_timer_ppi. destruct (Acpi.vb_acpi_table _ _ _) as [t|]; [|done].
    destruct (_ <? 80); [done|]. apply ppi_loop_ok.
Qed.
End gathered.

(** What the kernel has read of a machine vboot described. *)
Record kernel_reads (m : found) (blob : list Z) (fuel : nat) (o : overrides) (bi : boot_info) (f : fdt) (p : Z) : Prop := {
  kr_handover : handover_dtb fuel o (Some blob) bi = Ret (Some (f,
    let over := ov_initrd_end o >? ov_initrd_start o in
    {| bi_model := InBlob p;
       bi_cmdline := match ov_cmdline o with Some s => Given s | None => bi_cmdline bi end;
       bi_initrd_start := if over then ov_initrd_start o else bi_initrd_start bi;
       bi_initrd_end := if over then ov_initrd_end o else bi_initrd_end bi;
       bi_ram_base := fo_lo m; bi_ram_size := fo_hi m - fo_lo m;
       bi_cpus := bi_cpus bi + match cpus_here m with Some (n, _) => Z.max 0 (Z.min n 256) | None => 0 end;
       bi_free_base := ov_free_base o; bi_free_size := ov_free_size o |}));
  kr_model : holds blob p (v_str (str "VerkOS machine described by vboot"));
  kr_gic : gic_init fuel f = Ret (kernel_gic m);
  kr_timer : gic_timer_irq fuel f = Ret (kernel_timer m);
  kr_bridge : pci_init fuel f = Ret ((fun x => (fst (fst x), None)) <$> fo_mcfg m);
  kr_console : console_read m f fuel
}.

Lemma vb_opened m fuel : found_ok m -> (length (vb_calls m) < fuel)%nat -> (64 <= fuel)%nat ->
  exists g total blob, do_calls (fg_init dtb_area) (vb_calls m) = Ret g /\ fg_finish g = Ret (total, blob) /\
    (total <> 0 -> forall o bi, exists f p, kernel_reads m blob fuel o bi f p).
Proof.
  intros Hm Hf Hf64.
  assert (Forall call_ok (vb_calls m)) as Hok.
  { eapply Forall_impl; [exact (vb_calls_good m Hm)|]. by intros c [H _]. }
  destruct (fdt_init_spec dtb_area (vb_calls m) fuel ltac:(unfold dtb_area; lia) Hok Hf [] (tail (vb_calls m)) eq_refl)
    as (g & total & blob & Eg & Ef & H).
  exists g, total, blob. split; [done|]. split; [done|]. intros Ht o bi. destruct (H Ht) as [Ei Hv]. clear H.
  set (f := opened _ _ _ _ _) in Ei, Hv. assert (f_addr_cells f = 2) as Hac by reflexivity.
  assert (f_size_cells f = 2) as Hsc by reflexivity.
  destruct (vb_handover m Hm f Hv Hac Hsc fuel Hf Hf64 o bi) as (p & Hp & Hh). exists f, p. split.
  - exact (Hh Ei).
  - exact Hp.
  - by apply vb_gic.
  - by apply vb_timer.
  - by apply vb_bridge.
  - by apply vb_console.
Qed.

(** The tree did not fit in vboot's area. *)
Definition too_big (m : found) : Prop :=
  exists g blob, do_calls (fg_init dtb_area) (vb_calls m) = Ret g /\ fg_finish g = Ret (0, blob).

(** C31: the tree vboot writes for a machine described by ACPI is what the
    kernel reads.  vboot always ends, inside its 16 KiB; when it installs a
    tree, the kernel accepts it and takes from it exactly what the tables
    said: the memory from its lowest to its highest address, up to 256
    processors, the controller's two addresses at its version, the second
    timer's interrupt, the configuration space of the bridge, and the console
    at its address, of its kind and with its interrupt. *)
Theorem vboot_tree_kernel ram acpi20 has_dtb mmap dsize install fuel o bi :
  (forall p, 0 <= ram p < 256) -> match mmap with Some b => bytes_ok b | None => True end ->
  (forall m, gather ram acpi20 mmap dsize = Some m -> length (vb_calls m) < fuel)%nat -> (64 <= fuel)%nat ->
  exists r, vb_install_dtb ram acpi20 has_dtb mmap dsize install = Ret r /\
    match r with
    | Already => has_dtb = true
    | Refused => gather ram acpi20 mmap dsize = None \/ install = false \/ exists m, gather ram acpi20 mmap dsize = Some m /\ too_big m
    | Installed blob => exists m f p, gather ram acpi20 mmap dsize = Some m /\ kernel_reads m blob fuel o bi f p
    end.
Proof.
  intros Hram Hmm Hf Hf64. unfold vb_install_dtb. destruct has_dtb; [exists Already; split; reflexivity|].
  destruct (gather ram acpi20 mmap dsize) as [m|] eqn:Eg; [|exists Refused; split; [reflexivity|by left]].
  pose proof (gather_ok ram Hram acpi20 mmap dsize m Hmm Eg) as Hm.
  destruct (vb_opened m fuel Hm (Hf m eq_refl) Hf64) as (g & total & blob & E1 & E2 & H).
  rewrite E1. cbn [obind]. rewrite E2. cbn [obind]. destruct (Z.eqb_spec total 0) as [->|Ht].
  { exists Refused. split; [reflexivity|]. right. right. exists m. split; [reflexivity|]. exists g, blob. exact (conj E1 E2). }
  destruct install; [|exists Refused; split; [reflexivity|]; right; by left].
  exists (Installed blob). split; [reflexivity|]. destruct (H Ht o bi) as (f & p & Hk). eauto.
Qed.

(** A machine: its tables in the first pages of memory, one bank of memory,
    two processors, a PL011. *)
Definition at_table (p : Z) (v : list Z) (rest : Z -> Z) : Z -> Z :=
  fun a => if (p <=? a) && (a <? p + zlen v) then at_ v (a - p) else rest a.
Definition le4 (v : Z) : list Z := le_split 4 v.
Definition le8 (v : Z) : list Z := le_split 8 v.
Definition acpi_table (sig : string) (body : list Z) : list Z :=
  str sig ++ le4 (zlen body + 36) ++ zeros 28 ++ body.
Definition sample_madt : list Z :=
  acpi_table "APIC" (zeros 8
    ++ [0x0b; 40] ++ zeros 10 ++ le4 1 ++ zeros 16 ++ le8 0x8010000
    ++ [0x0b; 40] ++ zeros 10 ++ le4 1 ++ zeros 16 ++ le8 0x8010000
    ++ [0x0c; 24] ++ zeros 6 ++ le8 0x8000000 ++ zeros 4 ++ [2; 0; 0; 0]).
Definition sample_gtdt : list Z :=
  acpi_table "GTDT" (zeros 12 ++ le4 29 ++ zeros 4 ++ le4 30 ++ zeros 4 ++ le4 27 ++ zeros 4 ++ le4 26 ++ zeros 4).
Definition sample_spcr : list Z :=
  acpi_table "SPCR" ([3; 0; 0; 0] ++ zeros 4 ++ le8 0x9000000 ++ zeros 2 ++ le4 33 ++ zeros 22).
Definition sample_mcfg : list Z := acpi_table "MCFG" (zeros 8 ++ le8 0x4010000000 ++ zeros 2 ++ [0; 255] ++ zeros 4).
Definition sample_xsdt : list Z :=
  acpi_table "XSDT" (le8 0x1000 ++ le8 0x2000 ++ le8 0x3000 ++ le8 0x4000).
Definition sample_ram : Z -> Z :=
  at_table 0x100 (zeros 24 ++ le8 0x200) (at_table 0x200 sample_xsdt (at_table 0x1000 sample_madt
    (at_table 0x2000 sample_gtdt (at_table 0x3000 sample_spcr (at_table 0x4000 sample_mcfg (fun _ => 0)))))).
Definition sample_mmap : list Z := le4 7 ++ zeros 4 ++ le8 0x40000000 ++ zeros 8 ++ le8 0x10000 ++ zeros 16.

Lemma at_table_bytes p v rest :
  bytes_ok v -> (forall a, 0 <= rest a < 256) -> forall a, 0 <= at_table p v rest a < 256.
Proof. intros Hv Hr a. unfold at_table. destruct (_ && _); [by apply at_byte|apply Hr]. Qed.
Lemma sample_bytes a : 0 <= sample_ram a < 256.
Proof.
  revert a. unfold sample_ram. repeat apply at_table_bytes; try lia.
  all: apply (bool_decide_unpack _); vm_compute; exact I.
Qed.
Lemma sample_installs :
  match vb_install_dtb sample_ram (Some 0x100) false (Some sample_mmap) 48 true with Ret (Installed _) => true | _ => false end = true.
Proof. vm_compute. reflexivity. Qed.
Lemma sample_calls :
  match gather sample_ram (Some 0x100) (Some sample_mmap) 48 with Some m => (length (vb_calls m) <? 100)%nat | None => false end = true.
Proof. vm_compute. reflexivity. Qed.

Lemma vboot_tree_kernel_witness :
  let o := {| ov_cmdline := None; ov_initrd_start := 0; ov_initrd_end := 0; ov_free_base := 0; ov_free_size := 0 |} in
  let bi := {| bi_model := Default; bi_cmdline := Default; bi_initrd_start := 0; bi_initrd_end := 0;
               bi_ram_base := 0; bi_ram_size := 0; bi_cpus := 0; bi_free_base := 0; bi_free_size := 0 |} in
  exists blob m f p, vb_install_dtb sample_ram (Some 0x100) false (Some sample_mmap) 48 true = Ret (Installed blob)
    /\ gather sample_ram (Some 0x100) (Some sample_mmap) 48 = Some m /\ kernel_reads m blob 100 o bi f p.
Proof.
  intros o bi.
  destruct (vboot_tree_kernel sample_ram (Some 0x100) false (Some sample_mmap) 48 true 100 o bi) as (r & E & H).
  - exact sample_bytes.
  - apply (bool_decide_unpack _). vm_compute. exact I.
  - intros m Em. pose proof sample_calls as Hc. rewrite Em in Hc. by apply Nat.ltb_lt.
  - lia.
  - pose proof sample_installs as Hi. rewrite E in Hi. destruct r as [| |blob]; [discriminate|discriminate|].
    destruct H as (m & f & p & Em & Hk). exists blob, m, f, p. exact (conj E (conj Em Hk)).
Defined.

(** A tree that is kept has its structure inside the area. *)
Lemma kept_fits cap cs g total blob :
  128 <= cap < 2 ^ 30 -> Forall call_ok cs -> do_calls (fg_init cap) cs = Ret g -> fg_finish g = Ret (total, blob) ->
  cap < 64 + calls_size cs -> total = 0.
Proof.
  intros Hcap Hcs Eg Ef Hs.
  destruct (do_calls_spec cap Hcap (fg_init cap) cs (init_wf cap Hcap) Hcs) as (g' & Eg' & Hg & P).
  assert (g' = g) as -> by (rewrite Eg in Eg'; by injection Eg'). clear Eg'.
  destruct (fg_finish_spec cap Hcap g Hg) as (total' & blob' & Ef' & Hl & Q).
  rewrite Ef in Ef'. injection Ef' as <- <-. destruct (Z.eqb_spec total 0) as [|Ht]; [done|]. exfalso.
  destruct (Q Ht) as (Ho & _ & Hh & _). destruct (P Ho) as (_ & x & bs & _ & Eb & Hb).
  apply holds_range in Hh as [_ Hr]. rewrite Hl, zlen_app, Eb in Hr. pose proof (calls_bytes_size _ _ _ Hb).
  change (gS (fg_init cap)) with (@nil Z) in Hr. cbn [app] in Hr. pose proof (zlen_nonneg (b_put32 FDT_END)). lia.
Qed.

(** With 256 processors, which it means to list, vboot refuses its own tree. *)
Example many_processors_refused :
  let t := {| Acpi.m_dist := 0x8000000; Acpi.m_cpuif := 0x8010000; Acpi.m_ncpu := 256; Acpi.m_gicver := 2; Acpi.m_redist := 0 |} in
  let m := {| fo_lo := 0x40000000; fo_hi := 0x80000000; fo_rsdp := None; fo_uart := None; fo_psci := None;
              fo_mcfg := None; fo_madt := Some t; fo_ppi := None |} in
  too_big m.
Proof.
  intros t m. assert (found_ok m) as Hm.
  { split; [cbn; lia|discriminate|discriminate|intros t' [= <-]; cbn; unfold word64; lia|discriminate]. }
  assert (Forall call_ok (vb_calls m)) as Hok.
  { eapply Forall_impl; [exact (vb_calls_good m Hm)|]. by intros c [H _]. }
  destruct (vb_opened m (S (length (vb_calls m) + 64)) Hm ltac:(lia) ltac:(lia)) as (g & total & blob & Eg & Ef & _).
  exists g, blob. split; [exact Eg|]. rewrite Ef. f_equal. f_equal.
  apply (kept_fits dtb_area (vb_calls m) g total blob); [unfold dtb_area; lia|exact Hok|exact Eg|exact Ef|].
  apply Z.ltb_lt. vm_compute. reflexivity.
Qed.
