(* ===== verification/Syscall.v ===== *)
(** * System calls

    [stam/syscall.c]: the dispatcher and every call, over the open files of
    [File], the threads of [Sched], the signals of [Signal] and the program's
    memory behind [UserMem].  The address spaces fork and exec make are behind
    the class [Spaces], the network behind [Sockets].

    A call that has to wait inside file.c or thread_wait says [Asleep]; what it
    does once the thread is chosen again is [resume]. *)
From stdpp Require Import strings.
From S2P Require Import Prelude Bytes Mem Pmm Sav Vm Sched User Signal Disk Cpio Fat File Elf.
Import Elf.Load.
Open Scope Z_scope.

Definition SYS_WAIT4 : Z := 260.
Definition SYS_EXECVE : Z := 221.
Definition SYS_CLONE : Z := 220.
Definition SYS_READ : Z := 63.
Definition SYS_WRITE : Z := 64.
Definition SYS_EXIT : Z := 93.
Definition SYS_GETPID : Z := 172.
Definition SYS_KILL : Z := 129.
Definition SYS_SETPGID : Z := 154.
Definition SYS_GETPGID : Z := 155.
Definition SYS_IOCTL : Z := 29.
Definition SYS_GETDENTS64 : Z := 61.
Definition SYS_MKDIRAT : Z := 34.
Definition SYS_UNLINKAT : Z := 35.
Definition SYS_RT_SIGACTION : Z := 134.
Definition SYS_RT_SIGRETURN : Z := 139.
Definition TIOCGPGRP : Z := 0x540F.
Definition TIOCSPGRP : Z := 0x5410.
Definition SYS_CLOSE : Z := 57.
Definition SYS_PIPE2 : Z := 59.
Definition SYS_DUP : Z := 23.
Definition SYS_DUP3 : Z := 24.
Definition SYS_OPENAT : Z := 56.
Definition SYS_SOCKET : Z := 198.
Definition SYS_BIND : Z := 200.
Definition SYS_SENDTO : Z := 206.
Definition SYS_RECVFROM : Z := 207.
Definition SYS_CONNECT : Z := 203.
Definition SYS_LISTEN : Z := 201.
Definition SYS_ACCEPT : Z := 202.
Definition SYS_ACCEPT4 : Z := 242.
Definition AF_INET : Z := 2.
Definition SOCK_DGRAM : Z := 2.
Definition SOCK_STREAM : Z := 1.
Definition O_WRONLY : Z := 1.
Definition O_CREAT : Z := 64.
Definition O_APPEND : Z := 1024.
Definition WNOHANG : Z := 1.
Definition SOCKADDR_LEN : Z := 16.
Definition MAX_ARGS : nat := 16.
Definition ARG_BYTES : Z := 512.
Definition STACK_VA : Z := 0x7f00100000.

(** A negative error number, as the caller sees it. *)
Definition err (e : Z) : Z := u64 (- e).

(** What syscall.c asks of net.c and tcp.c; waits are inside the calls, and
    [net_wait] lets time pass. *)
Class Sockets (K : Type) := {
  net_present : K -> bool;
  net_my_ip : K -> Z;
  udp_bind : K -> Z -> Z -> Z * K;
  udp_port : K -> Z -> Z;
  udp_recvfrom : K -> Z -> Z -> option (list Z * Z * Z) * K;
  udp_sendto : K -> Z -> Z -> Z -> list Z -> Z * K;
  net_poll : K -> K;
  net_wait : K -> Z -> K;
  timer_ticks : K -> Z;
  timer_hz : K -> Z;
  tcp_bind : K -> Z -> Z -> Z * K;
  tcp_connect : K -> Z -> Z -> Z -> Z * K;
  tcp_listen : K -> Z -> Z * K;
  tcp_accept : K -> Z -> Z -> option Z * K;
  tcp_peer_ip : K -> Z -> Z;
  tcp_peer_port : K -> Z -> Z
}.

(** What it asks of vm.c: spaces by the addresses of their tables, 0 for
    failure; [page_st]: bytes stored through the kernel's own view of a page. *)
Class Spaces (M : Type) := {
  current_table : M -> Z;
  switch_table : Z -> M -> M;
  new_space : M -> Z * M;
  copy_space : Z -> M -> Z * M;
  free_space : Z -> M -> M;
  take_page : M -> Z * M;
  map_page : Z -> Z -> M -> bool * M;
  cow_fault : Z -> M -> bool * M;
  page_st : Z -> list Z -> M -> M
}.

#[global] Instance vm_spaces : Spaces vm := {
  current_table := mmu_current_user_table_kva;
  switch_table t s := mmu_set_current_user_table_kva s t;
  new_space := vm_new_space;
  copy_space src s := vm_copy_space s src;
  free_space t s := vm_free_space s t;
  take_page := alloc;
  map_page va p s := map_user_page s va p false;
  cow_fault va s := vm_cow_fault s va;
  page_st a l s := set_pm s (set_mem (pm s)
    (fst (fold_left (fun '(m, a) v => (put_byte m a v, a + 1)) l (mem (pm s), a))))
}.

(** ** The state *)
Section syscall.
Context {D : Type} `{BlockDevLaws D} {K : Type} `{Channels K} `{Sockets K}.
Context {M : Type} `{UserMem M} `{Spaces M} `{Space M}.
(** [pipes], [ret_to_user], the stack left by a failed look at the disk. *)
Context (pipes_at ret_to_user : Z) (junk : list Z).

Abbreviation world := (@world D K).
(** [k_fg]: the foreground process group of console.c. *)
Record kernel := Kernel { k_w : world; k_m : M; k_fg : Z }.
Definition set_w (w : world) (k : kernel) : kernel := Kernel w (k_m k) (k_fg k).
Definition set_m (m : M) (k : kernel) : kernel := Kernel (k_w k) m (k_fg k).
Definition set_fg (g : Z) (k : kernel) : kernel := Kernel (k_w k) (k_m k) g.
Definition on_sched (f : sched -> sched) (k : kernel) : kernel :=
  set_w (with_scheduler (f (scheduler (k_w k))) (k_w k)) k.
Definition on_chan {A} (f : K -> A * K) (k : kernel) : A * kernel :=
  let '(a, c) := f (channels (k_w k)) in (a, set_w (with_channels c (k_w k)) k).

(** [thread_current()], which is dereferenced. *)
Definition thread_current (me : nat) (k : kernel) : outcome nat :=
  match current (scheduler (k_w k)) me with Some c => Ret c | None => Fault end.
Definition thread_at (k : kernel) (c : nat) : thread := th (scheduler (k_w k)) c.

(** [vm_user_ok], keeping the memory it may have changed. *)
Definition ok (va len : Z) (w : bool) (k : kernel) : bool * kernel :=
  let '(b, m) := user_ok va len w (k_m k) in (b, set_m m k).
Definition user_bytes (k : kernel) (a len : Z) : list Z := uloads (k_m k) a (Z.to_nat len).
Definition put_user (a : Z) (l : list Z) (k : kernel) : kernel := set_m (ustores (k_m k) a l) k.

(** What a call comes to. *)
Inductive waiting :=
  | WRead (f : option nat) (buf len : Z)
  | WWrite (f : option nat) (buf len n : Z)
  | WWait4 (b c : Z).
Inductive sysret := Sys (v : Z) | Asleep (w : waiting) | Exited.

Abbreviation call_result := (outcome (sysret * kernel)).
Definition done (v : Z) (k : kernel) : call_result := Ret (Sys v, k).

(** ** Descriptors *)
Definition fd_slot (t : thread) (fd : Z) : option nat := nth (Z.to_nat fd) (t_fd t) None.

Definition fd_get (me : nat) (fd : Z) (k : kernel) : outcome (option nat) :=
  if Z.of_nat NFD <=? fd then Ret None
  else let! c := thread_current me k in Ret (fd_slot (thread_at k c) fd).

Definition put_fd (c : nat) (fd : Z) (f : option nat) (k : kernel) : kernel :=
  on_sched (upd c (fun t => set_fd (<[Z.to_nat fd := f]> (t_fd t)) t)) k.

Fixpoint free_fd (l : list (option nat)) (i : Z) (n : nat) : Z :=
  match n with
  | O => -1
  | S n => match nth (Z.to_nat i) l None with None => i | Some _ => free_fd l (i + 1) n end
  end.

(** [-1] and nothing done when the table is full; storing a null pointer
    leaves the slot free. *)
Definition fd_alloc (me : nat) (f : option nat) (k : kernel) : outcome (Z * kernel) :=
  let! c := thread_current me k in
  let i := free_fd (t_fd (thread_at k c)) 0 NFD in
  Ret (if i <? 0 then (-1, k) else (i, put_fd c i f k)).

Definition close (f : option nat) (k : kernel) : kernel :=
  match f with Some i => set_w (file_close pipes_at i (k_w k)) k | None => k end.
Definition reference (f : option nat) (k : kernel) : kernel :=
  match f with Some i => set_w (file_ref i (k_w k)) k | None => k end.

(** A new object given a descriptor, or let go of; [-24] is [-EMFILE]. *)
Definition give_fd (me : nat) (f : option nat) (k : kernel) : call_result :=
  let! (fd, k) := fd_alloc me f k in
  if fd <? 0 then done (err 24) (close f k) else done fd k.

(** *** Reading and writing *)
Definition read_go (me : nat) (sp : Z) (f : option nat) (buf len : Z) (k : kernel) : call_result :=
  let! (r, w) := file_read pipes_at me sp f len (k_w k) in
  let k := set_w w k in
  match r with
  | Done v b => done (u64 v) (put_user buf b k)
  | Block _ => Ret (Asleep (WRead f buf len), k)
  end.

Definition sys_read (me : nat) (sp fd buf len : Z) (k : kernel) : call_result :=
  let! f := fd_get me fd k in
  match f with
  | None => done (err 9) k
  | Some _ =>
      if len =? 0 then done 0 k else
      let '(b, k) := ok buf len true k in
      if negb b then done EFAULT64 k else read_go me sp f buf len k
  end.

Definition write_go (me : nat) (sp : Z) (f : option nat) (buf len n : Z) (k : kernel) : call_result :=
  let! (r, w) := file_write pipes_at me sp f (user_bytes k buf len) n (k_w k) in
  let k := set_w w k in
  match r with
  | Done v _ => done (u64 v) k
  | Block n => Ret (Asleep (WWrite f buf len n), k)
  end.

Definition sys_write (me : nat) (sp fd buf len : Z) (k : kernel) : call_result :=
  let! f := fd_get me fd k in
  match f with
  | None => done (err 9) k
  | Some _ =>
      let '(b, k) := ok buf len false k in
      if negb b then done EFAULT64 k else write_go me sp f buf len 0 k
  end.

(** [vm_user_strlen]: a page is asked about when the scan reaches it; [fuel]
    is [max]. *)
Fixpoint strlen_go (fuel : nat) (va i : Z) (m : M) : option Z * M :=
  match fuel with
  | O => (None, m)
  | S fuel =>
      let '(b, m) := if (i =? 0) || ((va + i) mod 4096 =? 0) then user_ok (clear (va + i) 4095) 1 false m else (true, m) in
      if negb b then (None, m) else
      if uld m (va + i) =? 0 then (Some i, m) else strlen_go fuel va (i + 1) m
  end.
Definition vm_user_strlen (va max : Z) (m : M) : option Z * M :=
  if USER_LIMIT <=? va then (None, m) else strlen_go (Z.to_nat max) va 0 m.

(** A string of at most [max] characters out of the program's memory. *)
Definition user_string (va max : Z) (k : kernel) : option (list Z) * kernel :=
  let '(n, m) := vm_user_strlen va max (k_m k) in
  (match n with Some n => Some (uloads m va (Z.to_nat n)) | None => None end, set_m m k).

(** ** Sockets *)
Inductive addr_read := AddrOk (ip port : Z) | AddrBad | AddrFault.

Definition sockaddr_read (va len : Z) (k : kernel) : addr_read * kernel :=
  if len <? SOCKADDR_LEN then (AddrBad, k) else
  let '(b, k) := ok va SOCKADDR_LEN false k in
  if negb b then (AddrFault, k) else
  let p i := uld (k_m k) (va + i) in
  let family := u16 (Z.lor (p 0) (Z.shiftl (p 1) 8)) in
  if negb (family =? AF_INET) then (AddrBad, k) else
  (AddrOk (Z.lor (Z.lor (Z.lor (Z.shiftl (p 4) 24) (Z.shiftl (p 5) 16)) (Z.shiftl (p 6) 8)) (p 7))
          (u16 (Z.lor (Z.shiftl (p 2) 8) (p 3))), k).

Definition sockaddr_bytes (ip port : Z) : list Z := [AF_INET; 0] ++ b_put16 port ++ b_put32 ip ++ zeros 8.
Definition sockaddr_write (va ip port : Z) (k : kernel) : kernel := put_user va (sockaddr_bytes ip port) k.
(** [if (addr) { sockaddr_write(...); if (alen_ptr) *alen_ptr = 16; }] *)
Definition tell_addr (addr alen_ptr ip port : Z) (k : kernel) : kernel :=
  if addr =? 0 then k else
  let k := sockaddr_write addr ip port k in
  if alen_ptr =? 0 then k else put_user alen_ptr (le_split 4 SOCKADDR_LEN) k.
(** The checks of the same two pointers. *)
Definition addr_ok (addr alen_ptr : Z) (k : kernel) : bool * kernel :=
  if addr =? 0 then (true, k) else
  let '(b, k) := ok addr SOCKADDR_LEN true k in
  if negb b then (false, k) else
  if alen_ptr =? 0 then (true, k) else ok alen_ptr 4 true k.

Definition sock_of (f : option nat) (k : kernel) : option Z :=
  match f with Some i => file_udp_sock i (k_w k) | None => None end.
Definition conn_of (f : option nat) (k : kernel) : option Z :=
  match f with Some i => file_tcp_conn i (k_w k) | None => None end.

Definition sys_socket (me : nat) (domain type : Z) (k : kernel) : call_result :=
  if negb (domain =? AF_INET) then done (err 97) k else
  if negb (net_present (channels (k_w k))) then done (err 97) k else
  let kind := Z.land (u32 type) 0xf in
  if negb (kind =? SOCK_DGRAM) && negb (kind =? SOCK_STREAM) then done (err 93) k else
  let '(e, f, w) := if kind =? SOCK_STREAM then file_tcp (k_w k) else file_udp (k_w k) in
  let k := set_w w k in
  if e <? 0 then done (u64 e) k else give_fd me f k.

Definition sys_bind (me : nat) (fd addr len : Z) (k : kernel) : call_result :=
  let! f := fd_get me fd k in
  let s := sock_of f k in
  let c := conn_of f k in
  match s, c with
  | None, None => done (err 88) k
  | _, _ =>
      let '(a, k) := sockaddr_read addr len k in
      match a with
      | AddrFault => done EFAULT64 k
      | AddrBad => done (err 22) k
      | AddrOk ip port =>
          if negb (ip =? 0) && negb (ip =? net_my_ip (channels (k_w k))) then done (err 99) k else
          match c, s with
          | Some c, _ => let '(r, k) := on_chan (fun ch => tcp_bind ch c port) k in done (u64 r) k
          | None, Some s =>
              let '(r, k) := on_chan (fun ch => udp_bind ch s port) k in
              done (if r =? 0 then 0 else err 98) k
          | None, None => done (err 88) k
          end
      end
  end.

Definition sys_connect (me : nat) (fd addr len : Z) (k : kernel) : call_result :=
  let! f := fd_get me fd k in
  match conn_of f k with
  | None => done (err 88) k
  | Some c =>
      let '(a, k) := sockaddr_read addr len k in
      match a with
      | AddrFault => done EFAULT64 k
      | AddrBad => done (err 22) k
      | AddrOk ip port => let '(r, k) := on_chan (fun ch => tcp_connect ch c ip port) k in done (u64 r) k
      end
  end.

Definition sys_listen (me : nat) (fd backlog : Z) (k : kernel) : call_result :=
  let! f := fd_get me fd k in
  match conn_of f k with
  | None => done (err 88) k
  | Some c => let '(r, k) := on_chan (fun ch => tcp_listen ch c) k in done (u64 r) k
  end.

Definition sys_accept (me : nat) (fd addr alen_ptr : Z) (k : kernel) : call_result :=
  let! f := fd_get me fd k in
  match conn_of f k with
  | None => done (err 88) k
  | Some l =>
      let '(b, k) := addr_ok addr alen_ptr k in
      if negb b then done EFAULT64 k else
      let '(c, k) := on_chan (fun ch => tcp_accept ch l (u64 (timer_hz ch * 10))) k in
      match c with
      | None => done (err 11) k
      | Some c =>
          let '(e, f, w) := file_tcp_adopt (Some c) (k_w k) in
          let k := set_w w k in
          if e <? 0 then done (u64 e) k else
          let! (nfd, k) := fd_alloc me f k in
          if nfd <? 0 then done (err 24) (close f k) else
          let ch := channels (k_w k) in
          done nfd (tell_addr addr alen_ptr (tcp_peer_ip ch c) (tcp_peer_port ch c) k)
      end
  end.

Definition sys_sendto (me : nat) (fd buf len addr alen : Z) (k : kernel) : call_result :=
  let! f := fd_get me fd k in
  match sock_of f k with
  | None => done (err 88) k
  | Some s =>
      let '(b, k) := ok buf len false k in
      if negb b then done EFAULT64 k else
      let '(a, k) := sockaddr_read addr alen k in
      match a with
      | AddrFault => done EFAULT64 k
      | AddrBad => done (err 22) k
      | AddrOk ip port =>
          let '(r, k) := on_chan (fun ch => udp_sendto ch s ip port (user_bytes k buf (u32 len))) k in
          done (if r =? 0 then len else err 101) k
      end
  end.

(** The loop of [sys_recvfrom]; a round is a poll and a look. *)
Fixpoint recv_loop (fuel : nat) (s buf len addr alen_ptr deadline : Z) (k : kernel) : call_result :=
  match fuel with
  | O => Diverge
  | S fuel =>
      let k := set_w (with_channels (net_poll (channels (k_w k))) (k_w k)) k in
      let '(r, k) := on_chan (fun ch => udp_recvfrom ch s (u32 len)) k in
      match r with
      | Some (data, from_ip, from_port) =>
          let k := put_user buf data k in
          done (zlen data) (tell_addr addr alen_ptr from_ip from_port k)
      | None =>
          if deadline <=? timer_ticks (channels (k_w k)) then done (err 11) k else
          recv_loop fuel s buf len addr alen_ptr deadline
            (set_w (with_channels (net_wait (channels (k_w k)) 1) (k_w k)) k)
      end
  end.

Definition sys_recvfrom (fuel : nat) (me : nat) (fd buf len addr alen_ptr : Z) (k : kernel) : call_result :=
  let! f := fd_get me fd k in
  match sock_of f k with
  | None => done (err 88) k
  | Some s =>
      let '(b, k) := ok buf len true k in
      if negb b then done EFAULT64 k else
      let '(b, k) := addr_ok addr alen_ptr k in
      if negb b then done EFAULT64 k else
      let '(bound, k) :=
        if udp_port (channels (k_w k)) s =? 0 then
          let '(r, k) := on_chan (fun ch => udp_bind ch s 0) k in (r =? 0, k)
        else (true, k) in
      if negb bound then done (err 98) k else
      let ch := channels (k_w k) in
      recv_loop fuel s buf len addr alen_ptr (u64 (timer_ticks ch + u64 (timer_hz ch * 5))) k
  end.

(** ** fork *)
Definition do_fork (me : nat) (f : regs) (k : kernel) : call_result :=
  let '(space, m) := copy_space (current_table (k_m k)) (k_m k) in
  let k := set_m m k in
  if space =? 0 then done (err 12) k else
  let! c := thread_current me k in
  let fds := t_fd (thread_at k c) in
  let '(child, s) := thread_fork ret_to_user me (regs_words f) space (scheduler (k_w k)) in
  let k := set_w (with_scheduler s (k_w k)) k in
  match child with
  | None => done (err 11) k
  | Some i => done (u64 (t_id (thread_at k i))) (fold_left (fun k f => reference f k) fds k)
  end.

(** ** exec *)

(** The entries of [argv] from [argc] on: an error, or the strings. *)
Fixpoint args_loop (fuel : nat) (argv argc used : Z) (acc : list (list Z)) (k : kernel) : (Z + list (list Z)) * kernel :=
  let slot := u64 (argv + 8 * argc) in
  let '(b, k) := ok slot 8 false k in
  if negb b then (inl EFAULT64, k) else
  let s := uld64 (k_m k) slot in
  match fuel with
  | O => (if s =? 0 then inr acc else inl (err 7), k)
  | S fuel =>
      if s =? 0 then (inr acc, k) else
      match user_string s ARG_BYTES k with
      | (None, k) => (inl EFAULT64, k)
      | (Some l, k) =>
          if used + zlen l + 1 >? ARG_BYTES then (inl (err 7), k) else
          args_loop fuel argv (argc + 1) (used + zlen l + 1) (acc ++ [l]) k
      end
  end.
Definition exec_args (name : list Z) (argv : Z) (k : kernel) : (Z + list (list Z)) * kernel :=
  let '(r, k) := if argv =? 0 then (inr [], k) else args_loop MAX_ARGS argv 0 0 [] k in
  (match r with inr [] => inr [name] | _ => r end, k).

Definition on_pages {A} (f : pmm -> A * pmm) (k : kernel) : A * kernel :=
  let s := scheduler (k_w k) in
  let '(a, p) := f (pages_ s) in (a, on_sched (with_pages p) k).

(** The staging pages given back. *)
Definition drop_disk (disk : Z * Z) (k : kernel) : kernel :=
  if fst disk =? 0 then k else
  snd (on_pages (fun p => (tt, free_stack p (fst disk) (Z.to_nat (snd disk)))) k).

(** The bytes of the program, and where it was staged: (0, 0) for one in the
    archive. *)
Definition exec_image (name : list Z) (k : kernel) : outcome ((Z + list Z * (Z * Z)) * kernel) :=
  let w := k_w k in
  let! found :=
    if zlen (archive w) =? 0 then Ret Reader.NotFound
    else Reader.cpio_find (S (length (archive w))) (archive w ++ [0]) (zlen (archive w)) name in
  match found with
  | Reader.Found addr len => Ret (inr (slice (archive w) addr len, (0, 0)), k)
  | Reader.NotFound =>
      match volume w with
      | None => Ret (inl (err 2), k)
      | Some g =>
          let! r := fat_open g junk (device w) name in
          match r with
          | None => Ret (inl (err 2), k)
          | Some ff =>
              if ff_is_dir ff || (ff_size ff =? 0) then Ret (inl (err 2), k) else
              let n := (ff_size ff + PAGE_SIZE - 1) / PAGE_SIZE in
              let '(p, k) := on_pages (alloc_pages n) k in
              if p =? 0 then Ret (inl (err 12), k) else
              let '(got, b) := fat_read g (device w) ff 0 (ff_size ff) in
              if negb (got =? ff_size ff) then Ret (inl (err 5), drop_disk (p, n) k)
              else Ret (inr (b, (p, n)), k)
          end
      end
  end.

(** The new stack: where the strings and the pointers go, and the words. *)
Definition str_off (args : list (list Z)) : Z :=
  clear (PAGE_SIZE - zlen (args ≫= (fun s => s ++ [0]))) 15.
Definition sp_off (args : list (list Z)) : Z := str_off args - clear (8 * (zlen args + 3) + 15) 15.
Fixpoint arg_pointers (at_ : Z) (args : list (list Z)) : list Z :=
  match args with
  | [] => []
  | s :: args => at_ :: arg_pointers (at_ + zlen s + 1) args
  end.
Definition stack_words (args : list (list Z)) : list Z :=
  zlen args :: arg_pointers (STACK_VA + str_off args) args ++ [0; 0].

Definition set_thread_space (c : nat) (v : Z) (k : kernel) : kernel := on_sched (upd c (set_space v)) k.

Definition do_execve (me : nat) (path argv : Z) (f : regs) (k : kernel) : outcome (Z * regs * kernel) :=
  let fail e (k : kernel) : outcome (Z * regs * kernel) := Ret (e, f, k) in
  if (zlen (archive (k_w k)) =? 0) && bool_decide (volume (k_w k) = None) then fail (err 2) k else
  match user_string path 63 k with
  | (None, k) => fail EFAULT64 k
  | (Some name, k) =>
      match exec_args name argv k with
      | (inl e, k) => fail e k
      | (inr args, k) =>
          let! (r, k) := exec_image name k in
          match r with
          | inl e => fail e k
          | inr (img, disk) =>
              let! c := thread_current me k in
              let '(space, m) := new_space (k_m k) in
              let k := set_m m k in
              if space =? 0 then fail (err 12) (drop_disk disk k) else
              let saved := current_table (k_m k) in
              let saved_space := t_space (thread_at k c) in
              let k := set_thread_space c space (set_m (switch_table space (k_m k)) k) in
              let back e k := fail e (drop_disk disk (set_thread_space c saved_space (set_m (switch_table saved (k_m k)) k))) in
              let! (r, m) := elf_load img (k_m k) in
              let k := set_m m k in
              match r with
              | None => back (err 8) k
              | Some (entry, manifest) =>
                  let '(stack, m) := take_page (k_m k) in
                  let '(mapped, m) := if stack =? 0 then (false, m) else map_page STACK_VA stack m in
                  let k := set_m m k in
                  if negb mapped then back (err 12) k else
                  let k := set_thread_space c space (drop_disk disk k) in
                  let k := on_sched (upd c (set_sav manifest)) k in
                  let m := page_st (stack + str_off args) (args ≫= (fun s => s ++ [0])) (k_m k) in
                  let m := page_st (stack + sp_off args) (stack_words args ≫= le_split 8) m in
                  let k := on_sched (upd c sig_exec_reset) (set_m m k) in
                  Ret (0, Regs (replicate 30 0) (lr f) entry 0 (u64 (STACK_VA + sp_off args)), k)
              end
          end
      end
  end.

(** ** exit and wait *)

(** [thread_exit]: the descriptors one by one, between the two sections under
    the lock. *)
Fixpoint close_all (c : nat) (i : Z) (n : nat) (k : kernel) : kernel :=
  match n with
  | O => k
  | S n =>
      let k := close (fd_slot (thread_at k c) i) k in
      close_all c (i + 1) n (put_fd c i None k)
  end.

Definition thread_exit (me : nat) (sp status : Z) (k : kernel) : outcome kernel :=
  let! c := thread_current me k in
  let '(space, s) := exit_mark me status (scheduler (k_w k)) in
  let k := set_w (with_scheduler s (k_w k)) k in
  let k := close_all c 0 NFD k in
  let k := if space =? 0 then k else set_m (free_space space (k_m k)) k in
  Ret (on_sched (schedule me sp) (on_sched (exit_wake me) k)).

(** What [SYS_WAIT4] does with the answer of [thread_wait] or [thread_reap]. *)
Definition wait_answer (b c id st : Z) (k : kernel) : call_result :=
  let nohang := negb (Z.land c WNOHANG =? 0) in
  if (id =? 0) && nohang then done 0 k else
  if id <? 0 then done (err 10) k else
  if b =? 0 then done (u64 id) k else
  let '(fine, k) := ok b 4 true k in
  if negb fine then done EFAULT64 k else
  done (u64 id) (put_user b (le_split 4 (Z.shiftl (Z.land st 0xff) 8)) k).

Definition wait_go (me : nat) (sp b c : Z) (k : kernel) : call_result :=
  if negb (Z.land c WNOHANG =? 0) then
    let '(id, st, s) := thread_reap me (scheduler (k_w k)) in
    wait_answer b c id st (set_w (with_scheduler s (k_w k)) k)
  else
    let '(r, s) := thread_wait me sp (scheduler (k_w k)) in
    let k := set_w (with_scheduler s (k_w k)) k in
    match r with
    | WaitDone id st => wait_answer b c id st k
    | WaitAgain => Ret (Asleep (WWait4 b c), k)
    end.

Definition sys_wait4 (me : nat) (sp b c : Z) (k : kernel) : call_result :=
  let '(fine, k) := if b =? 0 then (true, k) else ok b 4 true k in
  if negb fine then done EFAULT64 k else wait_go me sp b c k.

(** ** The rest of the dispatcher *)
Definition sys_ioctl (me : nat) (a b c : Z) (k : kernel) : call_result :=
  let! f := fd_get me a k in
  match f with
  | None => done (err 9) k
  | Some _ =>
      if b =? TIOCSPGRP then
        let '(fine, k) := ok c 4 false k in
        if negb fine then done EFAULT64 k else
        done 0 (set_fg (i32 (le_combine (user_bytes k c 4))) k)
      else if b =? TIOCGPGRP then
        let '(fine, k) := ok c 4 true k in
        if negb fine then done EFAULT64 k else
        done 0 (put_user c (le_split 4 (u32 (k_fg k))) k)
      else done (err 25) k
  end.

Definition sys_close (me : nat) (a : Z) (k : kernel) : call_result :=
  if Z.of_nat NFD <=? a then done (err 9) k else
  let! c := thread_current me k in
  match fd_slot (thread_at k c) a with
  | None => done (err 9) k
  | f => done 0 (put_fd c a None (close f k))
  end.

Definition sys_dup (me : nat) (a : Z) (k : kernel) : call_result :=
  let! f := fd_get me a k in
  match f with
  | None => done (err 9) k
  | Some _ => give_fd me f (reference f k)
  end.

Definition sys_dup3 (me : nat) (a b : Z) (k : kernel) : call_result :=
  let! f := fd_get me a k in
  match f with
  | None => done (err 9) k
  | Some _ =>
      if Z.of_nat NFD <=? b then done (err 9) k else
      if a =? b then done (err 22) k else
      let k := reference f k in
      let! c := thread_current me k in
      let k := close (fd_slot (thread_at k c) b) k in
      done b (put_fd c b f k)
  end.

Definition open_flags (c : Z) : open_mode :=
  if negb (Z.land c O_APPEND =? 0) then OPEN_APPEND
  else if negb (Z.land c (Z.lor O_WRONLY O_CREAT) =? 0) then OPEN_WRITE else OPEN_READ.

Definition sys_openat (me : nat) (b c : Z) (k : kernel) : call_result :=
  match user_string b 63 k with
  | (None, k) => done EFAULT64 k
  | (Some name, k) =>
      let! (rc, f, w) := file_open junk name (open_flags c) (k_w k) in
      let k := set_w w k in
      if rc <? 0 then done (u64 rc) k else give_fd me f k
  end.

Definition sys_pipe2 (me : nat) (a : Z) (k : kernel) : call_result :=
  let '(fine, k) := ok a 8 true k in
  if negb fine then done EFAULT64 k else
  let '(p, w) := file_pipe (k_w k) in
  let k := set_w w k in
  match p with
  | None => done (err 24) k
  | Some (r, w) =>
      let! (rf, k) := fd_alloc me (Some r) k in
      let! (wf, k) := if 0 <=? rf then fd_alloc me (Some w) k else Ret (-1, k) in
      if (rf <? 0) || (wf <? 0) then
        let! c := thread_current me k in
        let k := if 0 <=? rf then put_fd c rf None k else k in
        done (err 24) (close (Some w) (close (Some r) k))
      else done 0 (put_user a (le_split 4 rf ++ le_split 4 wf) k)
  end.

Definition sys_getdents (me : nat) (a b c : Z) (k : kernel) : call_result :=
  let '(fine, k) := ok b c true k in
  if negb fine then done EFAULT64 k else
  let! f := fd_get me (u64 (i32 a)) k in
  match f with
  | None => done (err 9) k
  | Some _ =>
      let! (r, buf, w) := file_getdents junk f c (k_w k) in
      done (u64 r) (put_user b buf (set_w w k))
  end.

Definition sys_path (nr a b : Z) (k : kernel) : call_result :=
  if negb (i32 a =? -100) then done (err 22) k else
  match user_string b 127 k with
  | (None, k) => done EFAULT64 k
  | (Some path, k) =>
      match volume (k_w k) with
      | None => done (err 30) k
      | Some g =>
          let! (fine, d) := if nr =? SYS_MKDIRAT then fat_mkdir g junk (device (k_w k)) path
                            else fat_unlink g junk (device (k_w k)) path in
          let d := if fine : bool then fat_sync g d else d in
          done (if fine then 0 else err 2) (set_w (with_device d (k_w k)) k)
      end
  end.

(** Calls whose answer may change the frame. *)
Definition with_frame (f : regs) (r : call_result) : outcome (sysret * regs * kernel) :=
  let! (v, k) := r in Ret (v, f, k).

Definition do_syscall (fuel me : nat) (sp nr a b c : Z) (f : regs) (k : kernel) : outcome (sysret * regs * kernel) :=
  let x i := nth i (rx f) 0 in
  if nr =? SYS_READ then with_frame f (sys_read me sp a b c k)
  else if nr =? SYS_SOCKET then with_frame f (sys_socket me a b k)
  else if nr =? SYS_BIND then with_frame f (sys_bind me a b c k)
  else if nr =? SYS_CONNECT then with_frame f (sys_connect me a b c k)
  else if nr =? SYS_LISTEN then with_frame f (sys_listen me a b k)
  else if nr =? SYS_ACCEPT4 then
    with_frame f (if negb (x 3%nat =? 0) then done (err 22) k else sys_accept me a b c k)
  else if nr =? SYS_ACCEPT then with_frame f (sys_accept me a b c k)
  else if nr =? SYS_SENDTO then with_frame f (sys_sendto me a b c (x 4%nat) (x 5%nat) k)
  else if nr =? SYS_RECVFROM then with_frame f (sys_recvfrom fuel me a b c (x 4%nat) (x 5%nat) k)
  else if nr =? SYS_CLONE then with_frame f (do_fork me f k)
  else if nr =? SYS_EXECVE then let! (v, f, k) := do_execve me a b f k in Ret (Sys v, f, k)
  else if nr =? SYS_WRITE then with_frame f (sys_write me sp a b c k)
  else if nr =? SYS_GETPID then
    with_frame f (let! t := thread_current me k in done (u64 (t_id (thread_at k t))) k)
  else if nr =? SYS_KILL then
    let '(n, s) := thread_signal (i32 a) (i32 b) (scheduler (k_w k)) in
    with_frame f (done (if n =? 0 then err 3 else 0) (set_w (with_scheduler s (k_w k)) k))
  else if nr =? SYS_SETPGID then
    let '(r, s) := thread_setpgid me (i32 a) (i32 b) (scheduler (k_w k)) in
    with_frame f (done (u64 r) (set_w (with_scheduler s (k_w k)) k))
  else if nr =? SYS_GETPGID then
    with_frame f (done (u64 (thread_pgid_of me (i32 a) (scheduler (k_w k)))) k)
  else if nr =? SYS_IOCTL then with_frame f (sys_ioctl me a b c k)
  else if nr =? SYS_CLOSE then with_frame f (sys_close me a k)
  else if nr =? SYS_DUP then with_frame f (sys_dup me a k)
  else if nr =? SYS_DUP3 then with_frame f (sys_dup3 me a b k)
  else if nr =? SYS_OPENAT then with_frame f (sys_openat me b c k)
  else if nr =? SYS_PIPE2 then with_frame f (sys_pipe2 me a k)
  else if nr =? SYS_WAIT4 then with_frame f (sys_wait4 me sp b c k)
  else if nr =? SYS_RT_SIGACTION then
    let! t := thread_current me k in
    let '(r, th', m) := sig_action (i32 a) b c 0 (thread_at k t) (k_m k) in
    with_frame f (done (u64 r) (on_sched (upd t (fun _ => th')) (set_m m k)))
  else if nr =? SYS_GETDENTS64 then with_frame f (sys_getdents me a b c k)
  else if (nr =? SYS_MKDIRAT) || (nr =? SYS_UNLINKAT) then with_frame f (sys_path nr a b k)
  else if nr =? SYS_RT_SIGRETURN then
    let! t := thread_current me k in
    let '(r, th', f, m) := sig_return (thread_at k t) f (k_m k) in
    Ret (Sys r, f, on_sched (upd t (fun _ => th')) (set_m m k))
  else if nr =? SYS_EXIT then let! k := thread_exit me sp (i32 a) k in Ret (Exited, f, k)
  else with_frame f (done (err 38) k).

(** What a call that slept does when its thread is chosen again. *)
Definition resume (me : nat) (sp : Z) (wt : waiting) (k : kernel) : call_result :=
  match wt with
  | WRead f buf len => read_go me sp f buf len k
  | WWrite f buf len n => write_go me sp f buf len n k
  | WWait4 b c => wait_go me sp b c k
  end.

(** ** The trap *)
Inductive trap := Back (f : regs) | Waits (w : waiting) (f : regs) | Dead.

(** The way back to the program: [v] in x0, then a signal if one is pending. *)
Definition after_call (me : nat) (sp : Z) (v : Z) (f : regs) (k : kernel) : outcome (trap * kernel) :=
  let f := Regs (<[0%nat := v]> (rx f)) (lr f) (elr f) (spsr f) (sp_el0 f) in
  let! c := thread_current me k in
  let sig := thread_signalled (thread_at k c) in
  if sig =? 0 then Ret (Back f, k) else
  let '(r, t, f, m) := sig_deliver sig (thread_at k c) f (k_m k) in
  let k := on_sched (upd c (fun _ => t)) (set_m m k) in
  if negb (r =? 0) then Ret (Back f, k) else
  let! k := thread_exit me sp (128 + sig) k in Ret (Dead, k).

Definition after (me : nat) (sp : Z) (r : outcome (sysret * regs * kernel)) : outcome (trap * kernel) :=
  let! (v, f, k) := r in
  match v with
  | Sys v => after_call me sp v f k
  | Asleep w => Ret (Waits w f, k)
  | Exited => Ret (Dead, k)
  end.

Definition handle_user_sync (fuel me : nat) (sp esr far : Z) (f : regs) (k : kernel) : outcome (trap * kernel) :=
  let x i := nth i (rx f) 0 in
  if Z.shiftr esr 26 =? 0x15 then
    let nr := x 8%nat in
    let refused :=
      match current (scheduler (k_w k)) me with
      | Some c => present (t_sav (thread_at k c)) && negb (sav_allows (t_sav (thread_at k c)) nr)
      | None => false
      end in
    if refused then
      let! k := thread_exit me sp (128 + 31) k in Ret (Dead, k)
    else after me sp (do_syscall fuel me sp nr (x 0%nat) (x 1%nat) (x 2%nat) f k)
  else
    let '(fixed, k) :=
      if (Z.shiftr esr 26 =? 0x24) && Z.testbit esr 6 then
        let '(b, m) := cow_fault far (k_m k) in (b, set_m m k)
      else (false, k) in
    if fixed : bool then Ret (Back f, k) else
    let! k := thread_exit me sp (-1) k in Ret (Dead, k).

(** The wait over: the same way back. *)
Definition continue (me : nat) (sp : Z) (w : waiting) (f : regs) (k : kernel) : outcome (trap * kernel) :=
  after me sp (with_frame f (resume me sp w k)).

Definition syscall_open_stdio (me : nat) (k : kernel) : outcome kernel :=
  let! c := thread_current me k in
  Ret (fold_left (fun k i =>
    match fd_slot (thread_at k c) i with
    | Some _ => k
    | None => let '(f, w) := file_console (k_w k) in put_fd c i f (set_w w k)
    end) [0; 1; 2] k).
End syscall.
