(* ===== verification/SyscallMem.v ===== *)
(** * No call writes where the program may not

    Every address a call is given is the program's word; [confined] says that
    the bytes the program may not write are as they were.  A call that sleeps
    keeps the promise when it goes on. *)
From stdpp Require Import strings.
From S2P Require Import Prelude Bytes Mem Pmm Sav Vm Sched SchedRun User Signal Disk Cpio Fat FatTable File FileRun Elf Syscall.
Open Scope Z_scope.

(** What a read delivers fits the buffer it was given. *)
Class ChannelLaws (K : Type) `{Channels K} `{Sockets K} := {
  line_fits k len n b k' : 0 <= len -> console_read_line k len = (n, b, k') -> zlen b <= len;
  recv_fits k c len n b k' : 0 <= len -> tcp_recv k c len = (n, b, k') -> zlen b <= len;
  dgram_fits k s max d ip port k' : 0 <= max -> udp_recvfrom k s max = (Some (d, ip, port), k') -> zlen d <= max
}.

Section confined.
Context {M : Type} `{UserLaws M}.

Record confined (m m' : M) : Prop := {
  cf_may w a : may m w a -> may m' w a;
  cf_same a : ~ may m' true a -> uld m' a = uld m a
}.
#[global] Instance confined_pre : PreOrder confined.
Proof.
  split; [by intros m; split|]. intros a b c [A1 A2] [B1 B2]. split; [auto|].
  intros x Hx. rewrite B2 by done. apply A2. intros Hm. apply Hx. auto.
Qed.

Lemma user_ok_confined va len w m b m' :
  user_ok va len w m = (b, m') -> confined m m' /\ (b = true -> may_range m' w va len).
Proof.
  intros E. split.
  - split; [intros w' a; by apply (user_ok_keeps va len w m b m' a)|]. intros a _.
    by apply (user_ok_keeps va len w m b m' a).
  - intros ->. intros a Ha. by apply (user_ok_sound va len w m m').
Qed.

Lemma ust_confined m a v : may m true a -> confined m (ust m a v).
Proof.
  intros Ha. split; [intros w b; by rewrite may_ust|]. intros b Hb. rewrite may_ust in Hb.
  apply uld_ust_ne; [done|]. intros ->. done.
Qed.
Lemma ustores_confined m a l : may_range m true a (zlen l) -> confined m (ustores m a l).
Proof.
  revert m a. induction l as [|v l IH]; intros m a Hm; cbn [ustores]; [done|]. rewrite zlen_cons in Hm.
  pose proof (zlen_nonneg l) as Hz. transitivity (ust m a v).
  - apply ust_confined, Hm. lia.
  - apply IH. intros b Hb. rewrite may_ust. apply Hm. lia.
Qed.
Lemma ust64_confined m a v : may_range m true a 8 -> confined m (ust64 m a v).
Proof. intros Hm. apply ustores_confined. by rewrite zlen_le_split. Qed.
Lemma ust64s_confined m a l : may_range m true a (8 * zlen l) -> confined m (ust64s m a l).
Proof.
  revert m a. induction l as [|v l IH]; intros m a Hm; cbn [ust64s]; [done|]. rewrite zlen_cons in Hm.
  pose proof (zlen_nonneg l) as Hz. transitivity (ust64 m a v).
  - apply ust64_confined. intros b Hb. apply Hm. lia.
  - apply IH. intros b Hb. unfold ust64. rewrite may_ustores. apply Hm. lia.
Qed.
Lemma may_range_confined m m' w a n : confined m m' -> may_range m w a n -> may_range m' w a n.
Proof. intros Hc Hm b Hb. apply (cf_may _ _ Hc). auto. Qed.
Lemma may_range_le m w a n k : k <= n -> may_range m w a n -> may_range m w a k.
Proof. intros Hk Hm b Hb. apply Hm. lia. Qed.

Lemma strlen_go_confined fuel va i m r m' : strlen_go fuel va i m = (r, m') -> confined m m'.
Proof.
  revert i m. induction fuel as [|fuel IH]; intros i m; cbn [strlen_go]; [by intros [= <- <-]|].
  destruct (if _ || _ then _ else _) as [b m1] eqn:E.
  assert (confined m m1) as Hc.
  { destruct (_ || _); [by apply (user_ok_confined _ _ _ _ _ _ E)|by injection E as <- <-]. }
  destruct (negb b); [by intros [= <- <-]|]. destruct (uld m1 (va + i) =? 0); [by intros [= <- <-]|].
  intros E2. etransitivity; [exact Hc|by eapply IH].
Qed.
End confined.

(** ** What a read delivers *)
Section reads.
Context {D : Type} `{BlockDevLaws D} {K : Type} `{ChannelLaws K}.
Context (pipes_at : Z) (junk : list Z).
Abbreviation world := (@world D K).

Lemma copy_out_fits src pos total n : zlen (copy_out src pos total n) <= Z.of_nat n.
Proof.
  revert pos. induction n as [|n IH]; intros pos; cbn [copy_out]; [done|]. destruct (pos <? total); [|rewrite zlen_nil; lia].
  rewrite zlen_cons. specialize (IH (pos + 1)). lia.
Qed.
Lemma pipe_take_fits p n : zlen (fst (pipe_take p n)) <= Z.of_nat n.
Proof.
  revert p. induction n as [|n IH]; intros p; cbn [pipe_take]; [done|]. destruct (0 <? pipe_bytes p); [|cbn; rewrite zlen_nil; lia].
  specialize (IH (with_tail ((p_tail p + 1) mod PIPE_SIZE) p)). destruct (pipe_take _ n) as [l p']. cbn [fst] in *.
  rewrite zlen_cons. lia.
Qed.
Lemma read_loop_fits (g : geom) fuel (d : D) c within don len dst :
  zlen dst = don -> 0 <= don <= len -> zlen (snd (read_loop g fuel d c within don len dst)) <= len.
Proof.
  revert c within don dst. induction fuel as [|fuel IH]; intros c within don dst Hz Hd; cbn [read_loop].
  all: destruct ((don <? len) && _) eqn:E; [|cbn; lia]; try (cbn; lia).
  destruct (rd_sec g d _) as [b|] eqn:Eb; [|cbn; lia]. apply andb_true_iff in E as [E _]. apply Z.ltb_lt in E.
  pose proof (Z.mod_pos_bound within 512 ltac:(lia)) as Hm.
  set (n := Z.min _ _). assert (zlen (slice b (within mod 512) n) = n) as Hs.
  { destruct (rd_sector_ok g _ _ _ Eb) as [Hlb _]. unfold SECTOR in Hlb. apply zlen_slice; lia. }
  destruct (if _ : bool then _ else _) as [within' c']. apply IH; [rewrite zlen_app; lia|lia].
Qed.
Lemma fat_read_fits (g : geom) (d : D) f off len : 0 <= off -> 0 <= len -> zlen (snd (fat_read g d f off len)) <= len.
Proof.
  intros Ho Hl. unfold fat_read. destruct (ff_is_dir f); [exact Hl|].
  destruct (Z.leb_spec (ff_size f) off); [exact Hl|].
  pose proof (Z.mod_le (off + len) (2 ^ 64) ltac:(lia) ltac:(lia)) as Hw. fold (uwrap 64 (off + len)) in Hw.
  destruct (Z.ltb_spec (ff_size f) (u64 (off + len))).
  - etransitivity; [apply read_loop_fits; [done|lia]|lia].
  - apply read_loop_fits; [done|lia].
Qed.

Lemma pipe_read_fits me sp j len (w : world) v b w' :
  0 <= len -> pipe_read pipes_at me sp j len w = (Done v b, w') -> zlen b <= len.
Proof.
  intros Hl. unfold pipe_read. destruct (pipe_bytes _ =? 0).
  - destruct (_ <=? 0); [intros [= _ <- _]; exact Hl|discriminate].
  - pose proof (pipe_take_fits (pipe_at w j) (Z.to_nat len)) as Hp. destruct (pipe_take _ _) as [l p].
    intros [= _ <- _]. cbn [fst] in Hp. lia.
Qed.

Lemma file_read_fits me sp f len (w : world) v b w' :
  0 <= len -> (forall i, 0 <= f_pos (file_at w i)) ->
  file_read pipes_at me sp f len w = Ret (Done v b, w') -> zlen b <= len.
Proof.
  intros Hl Hp. unfold file_read. destruct f as [i|]; [|intros [= _ <- _]; exact Hl].
  pose proof (fun src pos total => copy_out_fits src pos total (Z.to_nat len)) as Hc.
  rewrite Z2Nat.id in Hc by done.
  destruct (f_kind (file_at w i)); try by intros [= _ <- _].
  1: { destruct (console_read_line _ _) as [[n x] c] eqn:E. intros [= _ <- _]. by apply line_fits in E. }
  6: { destruct (f_conn _); [|discriminate]. destruct (tcp_recv _ _ _) as [[n x] c] eqn:E. intros [= _ <- _].
       pose proof (recv_fits _ _ _ _ _ _ (proj1 (uwrap_range 32 len ltac:(lia))) E) as Hb. pose proof (Z.mod_le len (2 ^ 32) Hl ltac:(done)). unfold uwrap in Hb. lia. }
  all: destruct (len =? 0); [intros [= _ <- _]; exact Hl|].
  - destruct (f_pipe _); [|discriminate]. intros [= E]. by eapply pipe_read_fits.
  - intros [= _ <- _]. apply Hc.
  - destruct (f_mem _); [|discriminate]. intros [= _ <- _]. apply Hc.
  - destruct (volume w) as [g|]; [|intros [= _ <- _]; exact Hl].
    pose proof (fat_read_fits g (device w) (f_fat (file_at w i)) _ len (Hp i) Hl) as Hf.
    destruct (fat_read _ _ _ _ _) as [n x]. intros [= _ <- _]. exact Hf.
  - destruct (f_pipe _); [|discriminate]. intros [= E]. by eapply pipe_read_fits.
Qed.

Lemma dirent_bytes_length pos name dir : zlen (dirent_bytes pos name dir) = dirent_len name.
Proof.
  unfold dirent_bytes. pose proof (zlen_nonneg name).
  assert (19 + zlen name + 1 <= dirent_len name) as Hr.
  { unfold dirent_len. rewrite <- Z.ldiff_land. change 7 with (Z.ones 3) at 2.
    rewrite Z.ldiff_ones_r, Z.shiftr_div_pow2, Z.shiftl_mul_pow2 by lia. change (2 ^ 3) with 8. zdm. }
  rewrite !zlen_app, !zlen_zeros, zlen_le_split by lia. unfold zlen at 1 2 4. cbn [length]. lia.
Qed.

Lemma getdents_loop_fits g i len fuel : forall (w : world) buf c b w',
  0 <= len -> zlen buf <= len -> getdents_loop fuel g junk i len buf w = Ret (c, b, w') -> zlen b <= len.
Proof.
  induction fuel as [|fuel IH]; intros w buf c b w' Hl Hb E; [discriminate|]. cbn [getdents_loop] in E.
  destruct (fat_dirent _ _ _ _ _) as [[[[name sz] dir]|]| |]; cbn [obind] in E; try discriminate; [|by simplify_eq].
  destruct (Z.ltb_spec len (zlen buf + dirent_len name)) as [|Hfit].
  - destruct (zlen buf =? 0); simplify_eq; [exact Hl|done].
  - eapply IH; [exact Hl| |exact E]. rewrite zlen_app, dirent_bytes_length. lia.
Qed.
Lemma file_getdents_fits fd len (w : world) c b w' :
  0 <= len -> file_getdents junk fd len w = Ret (c, b, w') -> zlen b <= len.
Proof.
  intros Hl. unfold file_getdents. destruct fd as [i|]; [|intros [= _ <- _]; exact Hl].
  destruct (negb _); [intros [= _ <- _]; exact Hl|]. destruct (volume w); [|intros [= _ <- _]; exact Hl].
  by apply getdents_loop_fits.
Qed.
End reads.

(** ** Calls *)
Section calls.
Context {D : Type} `{BlockDevLaws D} {K : Type} `{ChannelLaws K}.
Context {M : Type} `{UserLaws M} `{Spaces M} `{Space M}.
Context (pipes_at ret_to_user : Z) (junk : list Z).
Abbreviation world := (@world D K).
Abbreviation kernel := (@kernel D K M).
Abbreviation call_result := (outcome (sysret * kernel)).

(** A wait for something to read has a buffer to put it in. *)
Definition pending_fits (m : M) (w : waiting) : Prop :=
  match w with WRead _ buf len => 0 <= len /\ may_range m true buf len | _ => True end.
Definition left_to_do (m : M) (v : sysret) : Prop :=
  match v with Asleep w => pending_fits m w | _ => True end.
(** The memory was [m] when the trap was taken. *)
Definition kept (m : M) (r : call_result) : Prop :=
  forall v k', r = Ret (v, k') -> confined m (k_m k') /\ left_to_do (k_m k') v.
(** The files' positions are unsigned. *)
Definition positions (k : kernel) : Prop := forall i, 0 <= f_pos (file_at (k_w k) i).

Lemma kept_done m v (k : kernel) : confined m (k_m k) -> kept m (done v k).
Proof. by intros Hc v' k' [= <- <-]. Qed.
Lemma kept_bind {A} m (o : outcome A) (f : A -> call_result) :
  (forall x, o = Ret x -> kept m (f x)) -> kept m (let! x := o in f x).
Proof. intros Hf. destruct o as [x| |]; [by apply Hf|done..]. Qed.

Lemma ok_kept va len w (k : kernel) b k' :
  ok va len w k = (b, k') ->
  confined (k_m k) (k_m k') /\ k_w k' = k_w k /\ (b = true -> may_range (k_m k') w va len).
Proof.
  unfold ok. destruct (user_ok va len w (k_m k)) as [b1 m] eqn:E. intros [= <- <-]. cbn [k_m set_m k_w].
  by destruct (user_ok_confined _ _ _ _ _ _ E).
Qed.
Lemma put_user_confined m a l (k : kernel) :
  confined m (k_m k) -> may_range (k_m k) true a (zlen l) -> confined m (k_m (put_user a l k)).
Proof. intros C Hm. etransitivity; [exact C|by apply ustores_confined]. Qed.
Lemma on_chan_mem {A} (f : K -> A * K) (k k' : kernel) a : on_chan f k = (a, k') -> k_m k' = k_m k.
Proof. unfold on_chan. destruct (f _). by intros [= _ <-]. Qed.
Lemma close_mem f (k : kernel) : k_m (close pipes_at f k) = k_m k.
Proof. by destruct f. Qed.
Lemma reference_mem f (k : kernel) : k_m (reference f k) = k_m k.
Proof. by destruct f. Qed.
Lemma fd_alloc_mem me f (k k' : kernel) i : fd_alloc me f k = Ret (i, k') -> k_m k' = k_m k.
Proof.
  unfold fd_alloc. destruct (thread_current me k); cbn [obind]; [|done..]. destruct (_ <? 0); by intros [= _ <-].
Qed.
Lemma user_string_confined va max (k k' : kernel) s :
  user_string va max k = (s, k') -> confined (k_m k) (k_m k') /\ k_w k' = k_w k.
Proof.
  unfold user_string, vm_user_strlen. destruct (USER_LIMIT <=? va); [by intros [= _ <-]|].
  destruct (strlen_go _ _ _ _) as [r m] eqn:E. intros [= _ <-]. by apply strlen_go_confined in E.
Qed.

Lemma sockaddr_read_confined va len (k k' : kernel) a :
  sockaddr_read va len k = (a, k') -> confined (k_m k) (k_m k').
Proof.
  unfold sockaddr_read. destruct (len <? _); [by intros [= _ <-]|]. destruct (ok _ _ _ _) as [b k1] eqn:E.
  apply ok_kept in E as (Hc & _). destruct (negb b); [by intros [= _ <-]|]. destruct (negb _); by intros [= _ <-].
Qed.
Lemma sockaddr_length ip port : zlen (sockaddr_bytes ip port) = SOCKADDR_LEN.
Proof. reflexivity. Qed.

Definition addr_may (m : M) (addr alen_ptr : Z) : Prop :=
  addr <> 0 -> may_range m true addr SOCKADDR_LEN /\ (alen_ptr <> 0 -> may_range m true alen_ptr 4).
Lemma addr_may_confined m m' addr alen_ptr : confined m m' -> addr_may m addr alen_ptr -> addr_may m' addr alen_ptr.
Proof. intros Hc Ha Hn. destruct (Ha Hn) as [A1 A2]. split; [|intros Hp]; eapply may_range_confined; eauto. Qed.
Lemma addr_ok_confined addr alen_ptr (k k' : kernel) b :
  addr_ok addr alen_ptr k = (b, k') ->
  confined (k_m k) (k_m k') /\ k_w k' = k_w k /\ (b = true -> addr_may (k_m k') addr alen_ptr).
Proof.
  unfold addr_ok, addr_may. destruct (Z.eqb_spec addr 0); [by intros [= <- <-]|].
  destruct (ok addr _ _ _) as [b1 k1] eqn:E1. apply ok_kept in E1 as (C1 & W1 & A1).
  destruct b1; cbn [negb]; [|by intros [= <- <-]]. destruct (Z.eqb_spec alen_ptr 0).
  - intros [= <- <-]. split; [done|]. split; [done|]. intros _ _. split; [by apply A1|done].
  - intros E2. apply ok_kept in E2 as (C2 & W2 & A2). split; [by etransitivity|]. split; [congruence|].
    intros Hb _. split; [|auto]. eapply may_range_confined; eauto.
Qed.
Lemma tell_addr_confined m addr alen_ptr ip port (k : kernel) :
  confined m (k_m k) -> addr_may (k_m k) addr alen_ptr -> confined m (k_m (tell_addr addr alen_ptr ip port k)).
Proof.
  intros C Ha. etransitivity; [exact C|]. clear m C. unfold tell_addr, sockaddr_write. destruct (Z.eqb_spec addr 0) as [|Hn]; [done|].
  destruct (Ha Hn) as [A1 A2].
  assert (confined (k_m k) (k_m (put_user addr (sockaddr_bytes ip port) k))) as C1.
  { apply put_user_confined; [done|]. by rewrite sockaddr_length. }
  destruct (Z.eqb_spec alen_ptr 0); [done|]. apply put_user_confined; [done|].
  rewrite zlen_le_split. eapply may_range_confined; eauto.
Qed.

(** *** A call, statement by statement *)
#[local] Ltac learn :=
  match goal with
  | E : ok _ _ _ _ = (?b, _) |- _ =>
      let C := fresh "C" in let W := fresh "W" in let A := fresh "A" in
      apply ok_kept in E as (C & W & A); destruct b; cbn [negb]; [specialize (A eq_refl)|clear A]
  | E : addr_ok _ _ _ = (?b, _) |- _ =>
      let C := fresh "C" in let W := fresh "W" in let A := fresh "A" in
      apply addr_ok_confined in E as (C & W & A); destruct b; cbn [negb]; [specialize (A eq_refl)|clear A]
  | E : user_string _ _ _ = _ |- _ => let C := fresh "C" in apply user_string_confined in E as [C _]
  | E : sockaddr_read _ _ _ = _ |- _ => apply sockaddr_read_confined in E
  | E : on_chan _ _ = _ |- _ => apply on_chan_mem in E
  | E : fd_alloc _ _ _ = Ret _ |- _ => apply fd_alloc_mem in E
  end.
#[local] Ltac chain :=
  cbn [k_m set_w set_m set_fg on_sched] in *;
  rewrite ?close_mem, ?reference_mem in *; cbn [k_m set_w set_m set_fg on_sched] in *;
  repeat match goal with E : k_m ?k = _ |- _ => rewrite E in * ; clear E end;
  repeat match goal with
  | |- confined ?a ?a => reflexivity
  | C : confined ?a ?b |- confined ?a ?b => exact C
  | C : confined ?a ?b |- confined _ ?b => transitivity a; [|exact C]
  end.
#[local] Ltac look :=
  match goal with
  | |- kept _ (done _ _) => apply kept_done
  | |- kept _ (obind _ _) => apply kept_bind; intros ? ?
  | |- kept _ (let '(_, _) := ?x in _) => destruct x eqn:?
  | |- kept _ (if ?x then _ else _) => destruct x eqn:?
  | |- kept _ (match ?x with _ => _ end) => destruct x eqn:?
  end.
#[local] Ltac walk := repeat first [learn|progress look]; try solve [chain].

Lemma give_fd_kept m me f (k : kernel) : confined m (k_m k) -> kept m (give_fd pipes_at me f k).
Proof. intros C. unfold give_fd. walk. Qed.

Lemma read_go_kept m me sp f buf len (k : kernel) :
  confined m (k_m k) -> positions k -> pending_fits (k_m k) (WRead f buf len) -> kept m (read_go pipes_at me sp f buf len k).
Proof.
  intros C Hp [Hl Hm]. unfold read_go. look. destruct x as [[v b|n] w].
  - apply kept_done, put_user_confined; [exact C|]. eapply may_range_le; [|exact Hm].
    eapply file_read_fits; [exact Hl|exact Hp|eassumption].
  - by intros v' k' [= <- <-].
Qed.
Lemma write_go_kept m me sp f buf len n (k : kernel) : confined m (k_m k) -> kept m (write_go pipes_at me sp f buf len n k).
Proof. intros C. unfold write_go. look. destruct x as [[v b|n'] w]; [walk|]. by intros v' k' [= <- <-]. Qed.
Lemma wait_answer_kept m b c id st (k : kernel) : confined m (k_m k) -> kept m (wait_answer b c id st k).
Proof.
  intros C. unfold wait_answer. walk. apply put_user_confined; [chain|]. by rewrite zlen_le_split.
Qed.
Lemma wait_go_kept m me sp b c (k : kernel) : confined m (k_m k) -> kept m (wait_go me sp b c k).
Proof.
  intros C. unfold wait_go. look.
  - destruct (thread_reap _ _) as [[id st] s]. by apply wait_answer_kept.
  - destruct (thread_wait _ _ _) as [[id st|] s]; [by apply wait_answer_kept|]. by intros v' k' [= <- <-].
Qed.

Lemma sys_read_kept me sp fd buf len (k : kernel) :
  0 <= len -> positions k -> kept (k_m k) (sys_read pipes_at me sp fd buf len k).
Proof.
  intros Hl Hp. unfold sys_read. walk. apply read_go_kept; [chain| |by split].
  intros i. rewrite W. apply Hp.
Qed.
Lemma sys_write_kept me sp fd buf len (k : kernel) : kept (k_m k) (sys_write pipes_at me sp fd buf len k).
Proof. unfold sys_write. walk. apply write_go_kept. chain. Qed.
Lemma sys_wait4_kept me sp b c (k : kernel) : kept (k_m k) (sys_wait4 me sp b c k).
Proof. unfold sys_wait4. destruct (if b =? 0 then _ else _) as [fine k1] eqn:E. destruct (b =? 0).
  - injection E as <- <-. by apply wait_go_kept.
  - walk. apply wait_go_kept. chain.
Qed.
Lemma sys_socket_kept me d t (k : kernel) : kept (k_m k) (sys_socket pipes_at me d t k).
Proof. unfold sys_socket. walk. apply give_fd_kept. chain. Qed.
Lemma sys_bind_kept me fd a len (k : kernel) : kept (k_m k) (sys_bind me fd a len k).
Proof. unfold sys_bind. walk. Qed.
Lemma sys_connect_kept me fd a len (k : kernel) : kept (k_m k) (sys_connect me fd a len k).
Proof. unfold sys_connect. walk. Qed.
Lemma sys_listen_kept me fd b (k : kernel) : kept (k_m k) (sys_listen me fd b k).
Proof. unfold sys_listen. walk. Qed.
Lemma sys_sendto_kept me fd buf len a al (k : kernel) : kept (k_m k) (sys_sendto me fd buf len a al k).
Proof. unfold sys_sendto. walk. Qed.

Lemma sys_accept_kept me fd a al (k : kernel) : kept (k_m k) (sys_accept pipes_at me fd a al k).
Proof.
  unfold sys_accept. walk. apply tell_addr_confined; [chain|]. chain. done.
Qed.
Lemma recv_loop_kept fuel m s buf len addr alen_ptr deadline (k : kernel) :
  0 <= len -> confined m (k_m k) -> may_range (k_m k) true buf len -> addr_may (k_m k) addr alen_ptr ->
  kept m (recv_loop fuel s buf len addr alen_ptr deadline k).
Proof.
  intros Hl. revert k. induction fuel as [|fuel IH]; intros k C Hb Ha; [done|]. cbn [recv_loop].
  unfold on_chan. cbn [k_w set_w channels with_channels]. destruct (udp_recvfrom _ _ _) as [[[[data ip] port]|] ch] eqn:E.
  - apply dgram_fits in E; [|apply uwrap_range; lia]. pose proof (Z.mod_le len (2 ^ 32) Hl ltac:(done)) as Hw.
    assert (zlen data <= len) as Hd by (unfold uwrap in E; lia).
    assert (may_range (k_m k) true buf (zlen data)) as Hb' by (by eapply may_range_le).
    apply kept_done, tell_addr_confined; [by apply put_user_confined|].
    eapply addr_may_confined; [|exact Ha]. by apply ustores_confined.
  - destruct (_ <=? _); [by apply kept_done|]. by apply IH.
Qed.
Lemma bound_mem z (k1 k2 : kernel) b :
  (if udp_port (channels (k_w k1)) z =? 0
   then let '(r, k) := on_chan (fun ch => udp_bind ch z 0) k1 in (r =? 0, k) else (true, k1)) = (b, k2) -> k_m k2 = k_m k1.
Proof.
  destruct (_ =? 0); [|by intros [= _ <-]]. destruct (on_chan _ _) as [r k] eqn:E. intros [= _ <-].
  by eapply on_chan_mem.
Qed.
Lemma sys_recvfrom_kept fuel me fd buf len addr alen_ptr (k : kernel) :
  0 <= len -> kept (k_m k) (sys_recvfrom fuel me fd buf len addr alen_ptr k).
Proof.
  intros Hl. unfold sys_recvfrom. walk; match goal with E : _ = (_, ?k2) |- _ => apply bound_mem in E end; [chain|].
  apply recv_loop_kept; chain; try done. by eapply may_range_confined.
Qed.
Lemma sys_ioctl_kept me a b c (k : kernel) : kept (k_m k) (sys_ioctl me a b c k).
Proof. unfold sys_ioctl. walk. apply put_user_confined; [chain|]. by rewrite zlen_le_split. Qed.
Lemma sys_close_kept me a (k : kernel) : kept (k_m k) (sys_close pipes_at me a k).
Proof. unfold sys_close, put_fd. walk. Qed.
Lemma sys_dup_kept me a (k : kernel) : kept (k_m k) (sys_dup pipes_at me a k).
Proof. unfold sys_dup. walk. apply give_fd_kept. chain. Qed.
Lemma sys_dup3_kept me a b (k : kernel) : kept (k_m k) (sys_dup3 pipes_at me a b k).
Proof. unfold sys_dup3, put_fd. walk. Qed.
Lemma sys_openat_kept me b c (k : kernel) : kept (k_m k) (sys_openat pipes_at junk me b c k).
Proof. unfold sys_openat. walk. apply give_fd_kept. chain. Qed.
Lemma second_fd_mem me f (b : bool) (k1 k2 : kernel) fd :
  (if b then fd_alloc me f k1 else Ret (-1, k1)) = Ret (fd, k2) -> k_m k2 = k_m k1.
Proof. destruct b; [apply fd_alloc_mem|by intros [= _ <-]]. Qed.
Lemma sys_pipe2_kept me a (k : kernel) : kept (k_m k) (sys_pipe2 pipes_at me a k).
Proof.
  unfold sys_pipe2, put_fd. walk; match goal with E : _ = Ret (_, _) |- _ => apply second_fd_mem in E end.
  - rewrite !close_mem. destruct (_ <=? _); chain.
  - apply put_user_confined; [chain|]. rewrite zlen_app, !zlen_le_split. chain. exact A.
Qed.
Lemma sys_getdents_kept me a b c (k : kernel) : 0 <= c -> kept (k_m k) (sys_getdents junk me a b c k).
Proof.
  intros Hc. unfold sys_getdents. walk. apply put_user_confined; [chain|]. eapply may_range_le; [|exact A].
  by eapply file_getdents_fits.
Qed.
Lemma sys_path_kept nr a b (k : kernel) : kept (k_m k) (sys_path junk nr a b k).
Proof. unfold sys_path. walk. Qed.

Lemma sig_action_memory sig h r mask t (m : M) v t' m' : sig_action sig h r mask t m = (v, t', m') -> confined m m'.
Proof.
  unfold sig_action. destruct (_ || _); [by intros [= _ _ <-]|]. destruct (_ =? _); [by intros [= _ _ <-]|].
  destruct (1 <? h); [|by intros [= _ _ <-]]. destruct (user_ok h _ _ _) as [b1 m1] eqn:E1.
  apply user_ok_confined in E1 as [C1 _]. destruct (negb b1); [by intros [= _ _ <-]|].
  destruct (r =? 0); [by intros [= _ _ <-]|]. destruct (user_ok r _ _ _) as [b2 m2] eqn:E2.
  apply user_ok_confined in E2 as [C2 _]. assert (confined m m2) by (by etransitivity).
  destruct (negb b2); by intros [= _ _ <-].
Qed.
Lemma sig_return_memory t f (m : M) v t' f' m' : sig_return t f m = (v, t', f', m') -> confined m m'.
Proof.
  unfold sig_return. destruct (user_ok _ _ _ m) as [b1 m1] eqn:E1. apply user_ok_confined in E1 as [C1 _].
  destruct (negb b1); [by intros [= _ _ _ <-]|]. destruct (negb _); [by intros [= _ _ _ <-]|].
  destruct (user_ok _ _ _ m1) as [b2 m2] eqn:E2. apply user_ok_confined in E2 as [C2 _].
  assert (confined m m2) by (by etransitivity). destruct (negb b2); by intros [= _ _ _ <-].
Qed.
Lemma uld64s_length (m : M) a n : length (uld64s m a n) = n.
Proof. revert a. induction n; intros a; cbn; auto. Qed.
Lemma sig_return_frame t f (m : M) v t' f' m' :
  length (rx f) = 30%nat -> sig_return t f m = (v, t', f', m') -> length (rx f') = 30%nat.
Proof.
  intros Hf. unfold sig_return. destruct (user_ok _ _ _ m) as [b1 m1]. destruct (negb b1); [by intros [= _ _ <- _]|].
  destruct (negb _); [by intros [= _ _ <- _]|]. destruct (user_ok _ _ _ m1) as [b2 m2].
  destruct (negb b2); intros [= _ _ <- _]; [done|]. unfold regs_of. change (length (take 30 (uld64s m1 (sp_el0 f + 16) 34)) = 30%nat). by rewrite length_take, uld64s_length.
Qed.
Lemma sig_deliver_memory sig t f (m : M) v t' f' m' :
  length (rx f) = 30%nat -> sig_deliver sig t f m = (v, t', f', m') -> confined m m'.
Proof.
  intros Hx. unfold sig_deliver. destruct (_ =? 1); [by intros [= _ _ _ <-]|]. destruct (_ =? 0); [by intros [= _ _ _ <-]|].
  set (sp := Z.ldiff _ _). clearbody sp. destruct (user_ok _ _ _ m) as [b1 m1] eqn:E1.
  apply user_ok_confined in E1 as [C1 A1]. destruct b1; cbn [negb]; [|by intros [= _ _ _ <-]]. specialize (A1 eq_refl).
  intros [= _ _ _ <-]. etransitivity; [exact C1|].
  assert (forall a n, sp <= a -> a + n <= sp + SIGFRAME -> may_range m1 true a n) as R.
  { intros a n Ha Hn b Hb. apply A1. lia. }
  transitivity (ust64 (ust64 m1 sp SIGFRAME_MAGIC) (sp + 8) (t_blocked t)).
  - transitivity (ust64 m1 sp SIGFRAME_MAGIC); apply ust64_confined; [|unfold ust64; rewrite may_range_stores]; apply R; unfold SIGFRAME; lia.
  - apply ust64s_confined. unfold ust64. rewrite !may_range_stores.
    assert (zlen (regs_words f) = 34) as -> by (unfold zlen, regs_words; rewrite length_app, Hx; done). apply R; unfold SIGFRAME; lia.
Qed.

(** *** The dispatcher and the trap *)
Definition kept_frame (m : M) (r : outcome (sysret * regs * kernel)) : Prop :=
  forall v f k', r = Ret (v, f, k') -> confined m (k_m k') /\ left_to_do (k_m k') v /\ length (rx f) = 30%nat.
Lemma with_frame_kept m f (r : call_result) : length (rx f) = 30%nat -> kept m r -> kept_frame m (with_frame f r).
Proof.
  intros Hf Hr v f' k' E. unfold with_frame in E. destruct r as [[v1 k1]| |]; [|done..].
  injection E as <- <- <-. destruct (Hr v1 k1 eq_refl). by split_and!.
Qed.

Definition replaces_memory (nr : Z) : bool := (nr =? SYS_CLONE) || (nr =? SYS_EXECVE) || (nr =? SYS_EXIT).

Lemma do_syscall_kept fuel me sp nr a b c f (k : kernel) :
  length (rx f) = 30%nat -> (forall i, 0 <= nth i (rx f) 0) -> 0 <= c -> positions k ->
  replaces_memory nr = false ->
  kept_frame (k_m k) (do_syscall pipes_at ret_to_user junk fuel me sp nr a b c f k).
Proof.
  intros Hf Hx Hc Hp Hn. unfold replaces_memory in Hn. apply orb_false_iff in Hn as [[Hn1 Hn2]%orb_false_iff Hn3].
  unfold do_syscall. rewrite Hn1, Hn2, Hn3.
  repeat match goal with |- kept_frame _ (if ?b then _ else _) => destruct b end.
  all: try (apply with_frame_kept; [exact Hf|]).
  all: try first
    [ by apply sys_read_kept | apply sys_write_kept | apply sys_wait4_kept | apply sys_socket_kept | apply sys_bind_kept
    | apply sys_connect_kept | apply sys_listen_kept | apply sys_accept_kept | apply sys_sendto_kept
    | by apply sys_recvfrom_kept | apply sys_ioctl_kept | apply sys_close_kept | apply sys_dup_kept | apply sys_dup3_kept
    | apply sys_openat_kept | apply sys_pipe2_kept | by apply sys_getdents_kept | apply sys_path_kept | by apply kept_done ].
  - destruct (negb _); [by apply kept_done|apply sys_accept_kept].
  - walk.
  - destruct (thread_setpgid _ _ _ _) as [r s]. apply with_frame_kept; [exact Hf|by apply kept_done].
  - destruct (thread_current me k) as [t| |]; [|done..]. cbn [obind].
    destruct (sig_action _ _ _ _ _ _) as [[r th'] m] eqn:E. apply sig_action_memory in E.
    apply with_frame_kept; [exact Hf|by apply kept_done].
  - destruct (thread_current me k) as [t| |]; [|done..]. cbn [obind].
    destruct (sig_return _ _ _) as [[[r th'] f1] m] eqn:E. intros v f2 k' [= <- <- <-].
    pose proof (sig_return_memory _ _ _ _ _ _ _ E). split_and!; [done|done|]. by eapply sig_return_frame.
Qed.

Lemma after_call_kept m me sp v f (k : kernel) r k' :
  length (rx f) = 30%nat -> confined m (k_m k) -> after_call pipes_at me sp v f k = Ret (r, k') -> r <> Dead ->
  confined m (k_m k').
Proof.
  intros Hf C. unfold after_call. destruct (thread_current me k) as [c| |]; [|done..]. cbn [obind].
  destruct (_ =? 0); [by intros [= <- <-]|]. destruct (sig_deliver _ _ _ _) as [[[d t] f1] m1] eqn:E.
  apply sig_deliver_memory in E; [|cbn; by rewrite length_insert].
  destruct (negb (d =? 0)).
  - intros [= <- <-] _. by transitivity (k_m k).
  - destruct (thread_exit _ _ _ _ _); [|done..]. by intros [= <- <-].
Qed.

Lemma after_call_back me sp v f (k : kernel) r k' :
  after_call pipes_at me sp v f k = Ret (r, k') -> match r with Waits _ _ => False | _ => True end.
Proof.
  unfold after_call. destruct (thread_current me k) as [c| |]; [|done..]. cbn [obind].
  destruct (_ =? 0); [by intros [= <- <-]|]. destruct (sig_deliver _ _ _ _) as [[[d t] f1] m1].
  destruct (negb (d =? 0)); [by intros [= <- <-]|]. destruct (thread_exit _ _ _ _ _); [|done..]. by intros [= <- <-].
Qed.

(** A trap whose program goes on: what was not writable is as it was, and a
    wait that is left has its buffer. *)
Definition trap_confined (m : M) (r : trap) (k' : kernel) : Prop :=
  confined m (k_m k') /\ match r with Waits w f => pending_fits (k_m k') w /\ length (rx f) = 30%nat | _ => True end.

Lemma after_kept m me sp r (o : outcome (sysret * regs * kernel)) k' :
  kept_frame m o -> after pipes_at me sp o = Ret (r, k') -> r <> Dead -> trap_confined m r k'.
Proof.
  intros Hk E Hr. unfold after in E. destruct o as [[[v f] k1]| |]; [|done..]. cbn [obind] in E.
  destruct (Hk v f k1 eq_refl) as (C & L & Hf). destruct v as [v|w|].
  - split; [by eapply after_call_kept|]. apply after_call_back in E. by destruct r.
  - by injection E as <- <-.
  - by injection E as <- <-.
Qed.

(** A call from the trap on, over every sleep; while it slept others ran, who
    leave this program's memory as it is. *)
Inductive served (fuel me : nat) (sp : Z) : kernel -> trap -> kernel -> Prop :=
  | sv_trap esr far f k r k' :
      regs_ok f -> positions k -> Z.shiftr esr 26 = 0x15 -> replaces_memory (nth 8 (rx f) 0) = false ->
      handle_user_sync pipes_at ret_to_user junk fuel me sp esr far f k = Ret (r, k') -> served fuel me sp k r k'
  | sv_woken k w f k1 k2 r k' :
      served fuel me sp k (Waits w f) k1 -> confined (k_m k1) (k_m k2) -> positions k2 ->
      continue pipes_at me sp w f k2 = Ret (r, k') -> served fuel me sp k r k'.

Lemma resume_kept me sp w (k : kernel) :
  positions k -> pending_fits (k_m k) w -> kept (k_m k) (resume pipes_at me sp w k).
Proof.
  intros Hp Hw. destruct w as [f buf len|f buf len n|b c]; cbn [resume].
  - by apply read_go_kept.
  - by apply write_go_kept.
  - by apply wait_go_kept.
Qed.
Lemma regs_ok_nth f i : regs_ok f -> 0 <= nth i (rx f) 0.
Proof.
  intros [Hx Hr]. unfold regs_words in Hr. apply Forall_app in Hr as [Hr _].
  rewrite nth_lookup. destruct (rx f !! i) as [v|] eqn:E; cbn; [|done]. eapply Forall_lookup_1 in Hr; [|exact E]. apply Hr.
Qed.

(** C5: a system call writes only where the program itself may write.  For
    every call but the three that replace or give up the memory, from the trap
    to the return and over every wait in between: a byte the program may not
    write is as it was, whatever addresses and lengths the program passed, and
    no byte the program could use is taken away.  This covers the signal frame
    that may be pushed on the way out. *)
Theorem syscall_confined fuel me sp (k : kernel) r k' :
  served fuel me sp k r k' -> r <> Dead -> trap_confined (k_m k) r k'.
Proof.
  induction 1 as [esr far f k r k' Hf Hp Hesr Hnr E|k w f k1 k2 r k' _ IH C12 Hp E]; intros Hr.
  - unfold handle_user_sync in E. rewrite Hesr in E. change (21 =? 21) with true in E. cbv iota in E.
    destruct (match current _ _ with Some c => _ | None => false end).
    { destruct (thread_exit _ _ _ _ _); [|done..]. injection E as <- <-. done. }
    eapply after_kept; [|exact E|exact Hr].
    apply do_syscall_kept; [apply Hf|intros i; by apply regs_ok_nth|by apply regs_ok_nth|exact Hp|exact Hnr].
  - destruct (IH ltac:(done)) as [C01 [Hw Hx]]. unfold continue in E.
    assert (pending_fits (k_m k2) w) as Hw2.
    { destruct w; [|done..]. destruct Hw. split; [done|]. by eapply may_range_confined. }
    destruct (after_kept (k_m k2) me sp r _ k' (with_frame_kept _ _ _ Hx (resume_kept me sp w k2 Hp Hw2)) E Hr) as [C2 L].
    split; [|exact L]. transitivity (k_m k2); [|exact C2]. by transitivity (k_m k1).
Qed.
End calls.

(** ** A concrete machine

    No network, one flat space, and two programs with a console and a pipe. *)
#[global] Instance no_sockets : Sockets unit := {|
  net_present _ := false; net_my_ip _ := 0; udp_bind k _ _ := (-1, k); udp_port _ _ := 0;
  udp_recvfrom k _ _ := (None, k); udp_sendto k _ _ _ _ := (-1, k); net_poll k := k; net_wait k _ := k;
  timer_ticks _ := 0; timer_hz _ := 100; tcp_bind k _ _ := (-1, k); tcp_connect k _ _ _ := (-1, k);
  tcp_listen k _ := (-1, k); tcp_accept k _ _ := (None, k); tcp_peer_ip _ _ := 0; tcp_peer_port _ _ := 0
|}.
#[global] Instance no_channel_laws : ChannelLaws unit.
Proof.
  split.
  - intros k len n b k' Hl [= _ <- _]. exact Hl.
  - intros k c len n b k' Hl [= _ <- _]. exact Hl.
  - done.
Qed.
#[global] Instance flat_spaces : Spaces flat := {
  current_table _ := 1; switch_table _ m := m; new_space m := (1, m); copy_space _ m := (1, m); free_space _ m := m;
  take_page m := (0, m); map_page _ _ m := (true, m); cow_fault _ m := (false, m); page_st _ _ m := m
}.
#[global] Instance flat_space : Space flat := {
  place _ _ m := (true, m); st8 m a v := if fl_wlo m <=? a then Some (ust m a v) else None; ld8 m a := Some (uld m a)
}.

Abbreviation machine := (@kernel ramdisk unit flat).
Definition call_regs (nr a b c : Z) : regs :=
  Regs ([a; b; c] ++ replicate 5 0 ++ [nr] ++ replicate 21 0) 0 0x400000 0 0x500000.
Definition trap_on (nr a b c : Z) (k : machine) : outcome (trap * machine) :=
  handle_user_sync 0 0 [] 10 0 0 (Z.shiftl 0x15 26) 0 (call_regs nr a b c) k.
Lemma trap_on_sync nr a b c k :
  trap_on nr a b c k = handle_user_sync 0 0 [] 10 0 0 (Z.shiftl 0x15 26) 0 (call_regs nr a b c) k.
Proof. reflexivity. Qed.
Definition the_state {A} (o : outcome (A * machine)) (k : machine) : machine := match o with Ret (_, k) => k | _ => k end.
Definition runs {A} (o : outcome (A * machine)) (P : A -> machine -> Prop) : Prop :=
  match o with Ret (a, k) => P a k | _ => False end.
Lemma by_run {A} (o : outcome (A * machine)) (P : A -> machine -> Prop) :
  runs o P -> exists a k, o = Ret (a, k) /\ P a k.
Proof. destruct o as [[a k]| |]; [eauto|done..]. Qed.
Definition machine0 : machine := Kernel (world0 two_programs) (Flat ∅ 0x400000 0x600000 0x500000) 0.
(** The first program has opened a pipe. *)
Definition piped_machine : machine := the_state (trap_on SYS_PIPE2 0x500000 0 0 machine0) machine0.
(** Somebody writes to it. *)
Definition feed (k : machine) : machine :=
  match file_write (D := ramdisk) (K := unit) 0 0 0 (Some 1%nat) (str "data") 0 (k_w k) with
  | Ret (_, w) => set_w w k | _ => k
  end.
Definition read_wait : waiting := WRead (Some 0%nat) 0x500010 4.
Abbreviation read_regs := (call_regs SYS_READ 0 0x500010 4).
Definition positive_files (k : machine) : bool := forallb (fun f => 0 <=? f_pos f) (files (k_w k)).
Lemma feed_mem k : k_m (feed k) = k_m k.
Proof. unfold feed. by destruct (file_write _ _ _ _ _ _ _) as [[? ?]| |]. Qed.

Lemma positions_files k : positive_files k = true -> positions k.
Proof.
  unfold positive_files.
  intros Hf i. unfold file_at. rewrite nth_lookup. destruct (files (k_w k) !! i) as [f|] eqn:E; cbn; [|done].
  rewrite forallb_forall in Hf. apply Z.leb_le, Hf, list_elem_of_In. by eapply list_elem_of_lookup_2.
Qed.

Definition has_read (a : trap) (k : machine) : Prop :=
  a = Back (call_regs SYS_READ 4 0x500010 4) /\ fl_wlo (k_m k) = 0x500000 /\ uloads (k_m k) 0x500010 4 = str "data".
Definition then_fed (a : trap) (k : machine) : Prop :=
  a = Waits read_wait read_regs /\ positive_files (feed k) = true
  /\ runs (continue 0 0 0 read_wait read_regs (feed k)) has_read.
Lemma read_demo : runs (trap_on SYS_READ 0 0x500010 4 piped_machine) then_fed.
Proof. vm_compute. repeat split. Qed.

(** It reads the pipe while it is empty; the other end is written; the read
    goes on, and the program's text is what it was. *)
Lemma syscall_confined_witness :
  exists k1 f k2, trap_on SYS_READ 0 0x500010 4 piped_machine = Ret (Waits read_wait read_regs, k1)
    /\ continue 0 0 0 read_wait read_regs (feed k1) = Ret (Back f, k2)
    /\ uloads (k_m k2) 0x500010 4 = str "data"
    /\ uld (k_m k2) 0x400100 = uld (k_m piped_machine) 0x400100.
Proof.
  destruct (by_run _ _ read_demo) as (a & k1 & E1 & -> & Hp & E2).
  apply by_run in E2 as (a & k2 & E2 & -> & Hw & Hd).
  exists k1, (call_regs SYS_READ 4 0x500010 4), k2. split; [exact E1|]. split; [exact E2|]. split; [exact Hd|].
  rewrite trap_on_sync in E1.
  refine (cf_same _ _ (proj1 (syscall_confined 0 0 [] 10 0 0 piped_machine (Back _) k2 _ _)) 0x400100 _).
  - refine (sv_woken 0 0 [] 10 0 0 _ _ _ k1 (feed k1) _ _ _ _ _ E2).
    + refine (sv_trap 0 0 [] 10 0 0 (Z.shiftl 0x15 26) 0 read_regs _ _ _ _ _ _ _ E1).
      * split; [reflexivity|]. unfold reg_ok. apply (bool_decide_unpack _). vm_compute. exact Logic.I.
      * apply positions_files. vm_compute. reflexivity.
      * reflexivity.
      * reflexivity.
    + rewrite feed_mem. reflexivity.
    + by apply positions_files.
  - discriminate.
  - change (~ (Z.max (fl_lo (k_m k2)) (fl_wlo (k_m k2)) <= 0x400100 < fl_hi (k_m k2))). rewrite Hw. clear. lia.
Defined.
