(* ===== verification/SyscallFds.v ===== *)
(** * Descriptors and the objects they name

    Whatever the programs call, in any order and on any processor, an object
    of the pool of file.c is free exactly when no descriptor of any thread
    names it, and otherwise counts the descriptors that do; a process that has
    exited holds none.  [tidy] is the invariant, over the scheduler's own; the
    files of the system calls meet the files of [FileRun] here. *)
From stdpp Require Import strings.
From S2P Require Import Prelude Bytes Mem Pmm Sav Vm Sched SchedRun User Signal Disk Cpio Fat File FileRun Elf Syscall SyscallMem.
Import Elf.Load.
Open Scope Z_scope.

Lemma ret_inj {A} (a b : A) : Ret a = Ret b -> a = b.
Proof. by intros [= ->]. Qed.

(** ** What the threads hold *)
Definition fds (t : thread) : list nat := omap id (t_fd t).
Definition open_fds (s : sched) : list nat := threads s ≫= fds.
Definition gone (t : thread) : Prop := t_state t = FREE \/ t_state t = ZOMBIE.

Lemma open_fds_ext s s' : t_fd <$> threads s' = t_fd <$> threads s -> open_fds s' = open_fds s.
Proof.
  unfold open_fds. intros E. assert (forall l, l ≫= fds = (t_fd <$> l) ≫= omap id) as F.
  { intros l. induction l as [|t l IH]; [done|]. cbn. by rewrite IH. }
  by rewrite !F, E.
Qed.
Lemma t_fd_ext s s' :
  length (threads s') = length (threads s) -> (forall i, t_fd (th s' i) = t_fd (th s i)) ->
  t_fd <$> threads s' = t_fd <$> threads s.
Proof.
  intros Hl Ht. apply list_eq_same_length with (n := length (threads s)); [by rewrite length_fmap|by rewrite length_fmap|].
  intros i x y Hi. rewrite !list_lookup_fmap. specialize (Ht i). unfold th in Ht. rewrite !nth_lookup in Ht.
  destruct (threads s' !! i), (threads s !! i); cbn; try done. intros [= <-] [= <-]. exact Ht.
Qed.

(** One thread's table changes. *)
Lemma open_fds_upd s c f :
  (c < length (threads s))%nat ->
  exists rest, open_fds s ≡ₚ fds (th s c) ++ rest /\ open_fds (upd c f s) ≡ₚ fds (f (th s c)) ++ rest.
Proof.
  intros Hc. unfold open_fds, upd, th. cbn. destruct (lookup_lt_is_Some_2 _ _ Hc) as [t Ht].
  rewrite nth_lookup, Ht. cbn. exists ((take c (threads s) ++ drop (S c) (threads s)) ≫= fds).
  assert (alter f c (threads s) = take c (threads s) ++ f t :: drop (S c) (threads s)) as ->.
  { rewrite <- (take_drop_middle _ _ _ Ht) at 1. assert (length (take c (threads s)) = c) as Hlt by (rewrite length_take; lia).
    rewrite alter_app_r_alt by lia. by rewrite Hlt, Nat.sub_diag. }
  rewrite <- (take_drop_middle _ _ _ Ht) at 1. rewrite !bind_app, !bind_cons. split; solve_Permutation.
Qed.

Lemma omap_insert (l : list (option nat)) i o f :
  l !! i = Some o -> exists r, omap id l ≡ₚ hold o r /\ omap id (<[i := f]> l) ≡ₚ hold f r.
Proof.
  intros Hi. exists (omap id (take i l) ++ omap id (drop (S i) l)).
  rewrite insert_take_drop by (by eapply lookup_lt_Some). rewrite <- (take_drop_middle _ _ _ Hi) at 1.
  rewrite !omap_app. split; [destruct o|destruct f]; cbn; solve_Permutation.
Qed.

(** ** The scheduler's side *)
(** [who] is the thread, if any, in the middle of its exit: marked, and still
    on its processor with descriptors to close. *)
Record tidy_at (who : option nat) (s : sched) : Prop := {
  ts_inv : inv s;
  ts_busy c i : current s c = Some i -> Some i <> who -> t_state (th s i) = RUNNING;
  ts_len i : (i < length (threads s))%nat -> length (t_fd (th s i)) = NFD;
  ts_gone i : Some i <> who -> gone (th s i) \/ (n_threads s <= i)%nat -> fds (th s i) = [];
  ts_started : started s = true
}.
Abbreviation tidy_sched := (tidy_at None).
(** A step that moves no descriptor. *)
Record quiet_at (who : option nat) (s s' : sched) : Prop := {
  q_tidy : tidy_at who s'; q_fds : t_fd <$> threads s' = t_fd <$> threads s
}.
Abbreviation quiet := (quiet_at None).

Lemma th_beyond s i : (length (threads s) <= i)%nat -> th s i = zero_thread.
Proof. intros Hi. unfold th. rewrite nth_lookup. by rewrite lookup_ge_None_2. Qed.
Lemma tidy_bound who s : tidy_at who s -> (n_threads s <= length (threads s))%nat.
Proof. intros [Hi _ _ _ _]. rewrite (iv_len _ _ Hi). apply Hi. Qed.
Lemma tidy_current who s me c : tidy_at who s -> current s me = Some c -> (c < n_threads s)%nat.
Proof. intros [Hi _ _ _ _]. apply (iv_cur _ _ Hi). Qed.

(** From one point to another, thread by thread. *)
Lemma quiet_pointwise who s s' :
  tidy_at who s -> inv s' -> length (threads s') = length (threads s) -> n_threads s' = n_threads s ->
  started s' = started s ->
  (forall i, t_fd (th s' i) = t_fd (th s i)) ->
  (forall i, gone (th s' i) -> gone (th s i)) ->
  (forall c i, current s' c = Some i -> Some i <> who -> t_state (th s' i) = RUNNING) -> quiet_at who s s'.
Proof.
  intros [Hi Hb Hl Hg Hs] Hi' Hlen Hn Hst Hfd Hgone Hbusy. split; [|by apply t_fd_ext]. split; [done|done| | |congruence].
  - intros i. rewrite Hlen, Hfd. apply Hl.
  - intros i Hw Hx. unfold fds. rewrite Hfd. apply Hg; [done|]. rewrite Hn in Hx. destruct Hx; auto.
Qed.

Lemma quiet_fd who s s' i : quiet_at who s s' -> t_fd (th s' i) = t_fd (th s i).
Proof.
  intros [_ E]. unfold th. rewrite !nth_lookup. apply (f_equal (fun l => l !! i)) in E. rewrite !list_lookup_fmap in E.
  destruct (threads s' !! i), (threads s !! i); cbn in *; congruence.
Qed.
Lemma quiet_refl who s : tidy_at who s -> quiet_at who s s.
Proof. by split. Qed.
Lemma quiet_trans who a b c : quiet_at who a b -> quiet_at who b c -> quiet_at who a c.
Proof. intros [_ E1] [T E2]. split; [done|congruence]. Qed.

Lemma quiet_on_all who p f s :
  tidy_at who s -> (forall t, t_fd (f t) = t_fd t) ->
  (forall t, p t = true -> t_home (f t) = t_home t
     /\ (t_state (f t) = t_state t \/ (t_state t = BLOCKED /\ t_state (f t) = RUNNABLE))) ->
  quiet_at who s (on_all p f s).
Proof.
  intros Ht Hfd Hf. pose proof Ht as [Hi Hb _ _ _].
  assert (forall i, (th (on_all p f s) i = th s i \/ (p (th s i) = true /\ th (on_all p f s) i = f (th s i)))) as Hth.
  { intros i. destruct (decide (i < length (threads s))%nat) as [Hl|Hl].
    - rewrite th_on_all by done. destruct (_ <? _)%nat; [|by left]. cbn [andb]. destruct (p (th s i)) eqn:E; auto.
    - left. rewrite !th_beyond; [done|lia|rewrite length_on_all; lia]. }
  apply quiet_pointwise; [done|by apply inv_on_all|apply length_on_all|done|done| | |].
  - intros i. destruct (Hth i) as [->|[_ ->]]; [done|apply Hfd].
  - intros i. destruct (Hth i) as [->|[Hp ->]]; [done|]. destruct (Hf _ Hp) as [_ [E|[_ E]]]; unfold gone; rewrite E; [done|].
    intros [?|?]; discriminate.
  - intros c i Hc Hw. change (current (on_all p f s) c) with (current s c) in Hc. apply Hb in Hc; [|done].
    destruct (Hth i) as [->|[Hp ->]]; [done|]. destruct (Hf _ Hp) as [_ [E|[E _]]]; congruence.
Qed.

(** A change of one thread that leaves its state, its home and its table. *)
Lemma quiet_upd who i f s :
  tidy_at who s -> (forall t, t_home (f t) = t_home t /\ t_state (f t) = t_state t /\ t_fd (f t) = t_fd t) -> quiet_at who s (upd i f s).
Proof.
  intros Ht Hf. pose proof Ht as [Hi Hb _ _ _].
  assert (forall j, t_state (th (upd i f s) j) = t_state (th s j) /\ t_fd (th (upd i f s) j) = t_fd (th s j)) as Hth.
  { intros j. split; rewrite (th_keep (fun t => _ t)); try done; apply Hf. }
  apply quiet_pointwise; [done|apply inv_upd_same; [done|intros t; by destruct (Hf t) as (? & ? & _)]|apply length_upd|done|done| | |].
  - intros j. apply Hth.
  - intros j. unfold gone. by rewrite (proj1 (Hth j)).
  - intros c j Hc Hw. change (current (upd i f s) c) with (current s c) in Hc. rewrite (proj1 (Hth j)). by eapply Hb.
Qed.
Lemma quiet_pages who p s : tidy_at who s -> quiet_at who s (with_pages p s).
Proof.
  intros Ht. apply quiet_pointwise; try done.
  - by destruct (ts_inv _ _ Ht); split.
  - intros c i Hc. by apply (ts_busy _ _ Ht c).
Qed.
Lemma working_pages p s me c : working (with_pages p s) me c <-> working s me c.
Proof. split; intros [? ? ?]; by split. Qed.

Lemma schedule_started me sp s : started (schedule_locked me sp s) = started s.
Proof.
  assert (forall prev next s1, started (switch_to me prev next sp s1) = started s1) as Hsw.
  { intros prev next s1. unfold switch_to.
    repeat match goal with |- context [if ?b then _ else _] => lazymatch b with context [if _ then _ else _] => fail | _ => destruct b end end; done. }
  unfold schedule_locked. cbv zeta. destruct (current _ _); [|done]. destruct (next_runnable _ _ _).
  - destruct (Nat.eqb _ _); [done|rewrite Hsw; done].
  - destruct (is_state _ _); [done|]. destruct (idle _); [|done]. destruct (Nat.eqb _ _); [done|rewrite Hsw; done].
Qed.

(** Leaving the processor: for a wait, for the next thread's turn, or for good. *)
Lemma quiet_schedule me sp s prev :
  inv_at (Some me) s -> current s me = Some prev ->
  (forall c i, current s c = Some i -> c <> me -> t_state (th s i) = RUNNING) ->
  (forall i, (i < length (threads s))%nat -> length (t_fd (th s i)) = NFD) ->
  (forall i, gone (th s i) \/ (n_threads s <= i)%nat -> fds (th s i) = []) -> started s = true ->
  quiet s (schedule_locked me sp s).
Proof.
  intros Hi Hc Hb Hl Hg Hst. pose proof (schedule_inv me sp s prev Hi Hc) as Hinv'.
  destruct (schedule_cases me sp s prev Hi Hc) as [Hi1 Hcase]. set (s1 := expire s) in *.
  assert (forall i, t_fd (th s1 i) = t_fd (th s i) /\ (t_state (th s1 i) = t_state (th s i)
            \/ (t_state (th s i) = BLOCKED /\ t_state (th s1 i) = RUNNABLE))) as H1.
  { intros i. destruct (decide (i < length (threads s))%nat) as [Hil|Hil].
    - unfold s1, expire. rewrite th_on_all by done. destruct (_ <? _)%nat; cbn [andb]; [|auto].
      destruct (is_state BLOCKED (th s i)) eqn:E; cbn [andb]; [|auto]. apply is_state_true in E. destruct (_ && _); cbn; auto.
    - rewrite !th_beyond; [auto|lia|unfold s1, expire; rewrite length_on_all; lia]. }
  assert (length (threads s1) = length (threads s)) as Hl1 by apply length_on_all.
  assert (forall c, current s1 c = current s c) as Hcur1 by done.
  assert (n_threads s1 = n_threads s) as Hn1 by done.
  assert (started (schedule_locked me sp s) = true) as Hst' by (by rewrite schedule_started). clearbody s1.
  assert (forall c i, current s1 c = Some i -> c <> me -> t_state (th s1 i) = RUNNING) as Hb1.
  { intros c i. rewrite Hcur1. intros Hci Hne. specialize (Hb c i Hci Hne). destruct (proj2 (H1 i)) as [E|[E _]]; congruence. }
  assert (forall s2, inv s2 -> length (threads s2) = length (threads s1) -> n_threads s2 = n_threads s1 ->
    (forall i, t_fd (th s2 i) = t_fd (th s1 i)) -> (forall i, gone (th s2 i) -> gone (th s1 i)) ->
    (forall c i, current s2 c = Some i -> t_state (th s2 i) = RUNNING) -> started s2 = true -> quiet s s2) as Hend.
  { intros s2 Hi2 Hl2 Hn2 Hfd2 Hg2 Hb2 Hst2. split.
    - split; [done|intros c i Hci _; by eapply Hb2| | |done].
      + intros i. rewrite Hl2, Hl1, Hfd2, (proj1 (H1 i)). apply Hl.
      + intros i _ Hx. unfold fds. rewrite Hfd2, (proj1 (H1 i)). apply Hg. destruct Hx as [Hx|Hx]; [|right; lia].
        apply Hg2 in Hx. left. unfold gone in *. destruct (proj2 (H1 i)) as [E|[E1 E2]]; [by rewrite <- E|].
        rewrite E2 in Hx. by destruct Hx.
    - apply t_fd_ext; [congruence|]. intros i. by rewrite Hfd2, (proj1 (H1 i)). }
  pose proof (iv_len _ _ Hi1) as Hlen. pose proof (iv_n _ _ Hi1) as Hmax.
  assert (current s1 me = Some prev) as Hc1 by (by rewrite Hcur1).
  pose proof (iv_cur _ _ Hi1 me prev Hc1) as Hp. pose proof (current_lt _ _ _ Hc1) as Hme.
  destruct (next_runnable me (Some prev) s1) as [next|].
  - destruct Hcase as (Hne & Hn & _ & E). rewrite E in *.
    destruct (switch_to_switched me prev next sp s1) as [St Id Cu _ N [L1 _] _ _]; try done; [lia..|].
    apply Hend; try done.
    + intros i. pose proof (Id i) as Hid. unfold ident in Hid. congruence.
    + intros i. unfold gone. rewrite St. case_bool_decide; [intros [?|?]; discriminate|].
      destruct (_ && _); [intros [?|?]; discriminate|done].
    + intros c i. rewrite Cu, St. case_bool_decide as Ec; [intros [= <-]; by rewrite bool_decide_true|].
      intros Hci. rewrite (Hb1 c i Hci Ec). case_bool_decide; [done|].
      destruct (bool_decide (i = prev)) eqn:Ep; [|done]. apply bool_decide_eq_true in Ep. subst i.
      destruct Ec. by eapply (iv_excl _ _ Hi1).
  - destruct Hcase as [Hr E]. rewrite E in *. apply Hend; try done.
    intros c i Hci. destruct (decide (c = me)) as [->|]; [|by eapply Hb1]. assert (i = prev) as -> by congruence. done.
Qed.

Lemma quiet_block me sp c f s :
  tidy_sched s -> working s me c ->
  (forall t, t_home (f t) = t_home t /\ t_fd (f t) = t_fd t) -> quiet s (block me sp f s).
Proof.
  intros Ht Hw Hf. pose proof Ht as [Hi Hb Hl Hg Hst]. pose proof Hw as [Hc Hr _]. rewrite (working_block s me c) by done.
  set (g := fun t => set_state BLOCKED (f t)).
  destruct (inv_mark s me c g Hi Hw) as [Hm _]; [intros t; apply Hf|].
  assert (forall i, t_fd (th (upd c g s) i) = t_fd (th s i)) as Hfd.
  { intros i. apply (th_keep t_fd). intros t. apply Hf. }
  assert (forall i, gone (th (upd c g s) i) -> gone (th s i)) as Hgo.
  { intros i. unfold gone. rewrite th_upd. case_bool_decide; [|done]. cbn. by intros [?|?]. }
  assert (quiet (upd c g s) (schedule_locked me sp (upd c g s))) as Hq.
  { apply (quiet_schedule me sp _ c); [by apply Hm|exact Hc| | | |exact Hst].
    - intros k i Hk Hne. change (current (upd c g s) k) with (current s k) in Hk.
      rewrite th_upd_ne; [by eapply Hb|]. intros ->. apply Hne. by eapply (iv_excl _ _ Hi).
    - intros i. rewrite length_upd, Hfd. apply Hl.
    - intros i Hx. unfold fds. rewrite Hfd. apply Hg; [done|]. destruct Hx; auto. }
  destruct Hq as [T E]. split; [exact T|]. rewrite E. apply t_fd_ext; [apply length_upd|exact Hfd].
Qed.

Lemma quiet_schedule_now me sp c s : tidy_sched s -> current s me = Some c -> quiet s (schedule me sp s).
Proof.
  intros Ht Hc. unfold schedule. destruct (started s); [|by apply quiet_refl]. destruct Ht as [Hi Hb Hl Hg Hst].
  apply (quiet_schedule me sp s c); [by apply inv_weaken|done| |done|intros i; by apply Hg|done]. intros k i Hk _. by eapply Hb.
Qed.

Lemma quiet_wake_pipe who object s : tidy_at who s -> quiet_at who s (thread_wake_pipe object s).
Proof.
  intros Ht. apply quiet_on_all; [done|done|]. intros t. rewrite !andb_true_iff, is_state_true. cbn. tauto.
Qed.
Lemma quiet_wake_console s : tidy_sched s -> quiet s (thread_wake_console s).
Proof.
  intros Ht. apply quiet_on_all; [done|done|]. intros t. rewrite !andb_true_iff, is_state_true. cbn. tauto.
Qed.
Lemma quiet_signal pid sig s : tidy_sched s -> quiet s (thread_signal pid sig s).2.
Proof.
  intros Ht. apply quiet_on_all; [done| |].
  - intros t. cbv zeta. by destruct (is_state BLOCKED _).
  - intros t _. cbv zeta. destruct (is_state BLOCKED _) eqn:E; [apply is_state_true in E; cbn in *; auto|cbn; auto].
Qed.
Lemma quiet_setpgid me pid g s : tidy_sched s -> quiet s (thread_setpgid me pid g s).2.
Proof. intros Ht. unfold thread_setpgid. destruct (named me pid s); [by apply quiet_upd|by apply quiet_refl]. Qed.

Lemma working_on_all p f s me c :
  working s me c -> (forall t, p t = true -> t_state t = BLOCKED \/ t_state (f t) = t_state t) -> working (on_all p f s) me c.
Proof.
  intros [Hc Hr Hi] Hp. split; [done| |done]. destruct (decide (c < length (threads s))%nat) as [Hl|Hl].
  - rewrite th_on_all by done. destruct (_ <? _)%nat; [|done]. cbn [andb]. destruct (p (th s c)) eqn:E; [|done].
    destruct (Hp _ E); congruence.
  - rewrite th_beyond in Hr by lia. discriminate.
Qed.
Lemma working_wake object s me c : working s me c -> working (thread_wake_pipe object s) me c.
Proof. intros W. apply working_on_all; [done|]. intros t. rewrite !andb_true_iff, is_state_true. tauto. Qed.
Lemma working_signal pid sig s me c : working s me c -> working (thread_signal pid sig s).2 me c.
Proof.
  intros W. apply working_on_all; [done|]. intros t _. cbv zeta. destruct (is_state BLOCKED _) eqn:E; [|by right].
  apply is_state_true in E. by left.
Qed.
Lemma working_upd i f s me c : working s me c -> (forall t, t_state (f t) = t_state t) -> working (upd i f s) me c.
Proof. intros [Hc Hr Hi] Hf. split; [done| |done]. by rewrite (th_keep t_state). Qed.
Lemma working_release i s me c : working s me c -> t_state (th s i) = ZOMBIE -> working (release_slot i s) me c.
Proof.
  intros [Hc Hr Hi] Hz. destruct (release_spec i s) as [Rl Rc [Rn _] Rs Ro].
  split; [by unfold current, cpu_of; rewrite Rc|rewrite Ro; congruence|by unfold cpu_of; rewrite Rc].
Qed.

Lemma release_fd i s j : t_fd (th (release_slot i s) j) = t_fd (th s j).
Proof.
  unfold release_slot. rewrite (th_keep t_fd) by done. destruct (negb _); [|done]. by rewrite (th_keep t_fd).
Qed.
Lemma quiet_release i s :
  tidy_sched s -> (i < n_threads s)%nat -> t_state (th s i) = ZOMBIE -> quiet s (release_slot i s).
Proof.
  intros Ht Hi Hz. pose proof (tidy_bound _ _ Ht) as Hbd. destruct (release_spec i s) as [Rl Rc [Rn _] Rs Ro].
  assert (parked s i) as Hp by (intros c Hc; apply (ts_busy _ _ Ht) in Hc; [congruence|done]).
  assert (forall j, t_state (th (release_slot i s) j) = t_state (th s j) \/ j = i) as Hst.
  { intros j. destruct (decide (j = i)) as [->|Hne]; [auto|]. left. by rewrite Ro. }
  apply quiet_pointwise; [done|by apply release_inv; [apply Ht|..]|done|done| | | |].
  - unfold release_slot. by destruct (negb _).
  - apply release_fd.
  - intros j. unfold gone. destruct (Hst j) as [->| ->]; [done|rewrite Hz; auto].
  - intros c j Hc. unfold current, cpu_of in Hc. rewrite Rc in Hc. change (current s c = Some j) in Hc.
    destruct (Hst j) as [->| ->]; [by apply (ts_busy _ _ Ht c)|by destruct (Hp c)].
Qed.
Lemma quiet_reap me s : tidy_sched s -> quiet s (thread_reap me s).2.
Proof.
  intros Ht. unfold thread_reap. pose proof (scan_spec (threads s) (my_id s me) false 0 (n_threads s)) as Hs.
  destruct (scan _ _ _ _ _) as [i|b]; [|by apply quiet_refl]. destruct Hs as (Hi & Hz & _). apply quiet_release; [done|lia|done].
Qed.
Lemma quiet_wait me sp c s : tidy_sched s -> working s me c -> quiet s (thread_wait me sp s).2.
Proof.
  intros Ht Hw. unfold thread_wait. pose proof (scan_spec (threads s) (my_id s me) false 0 (n_threads s)) as Hs.
  destruct (scan _ _ _ _ _) as [i|[]]; [|rewrite (wk_cur _ _ _ Hw); cbn [snd]|by apply quiet_refl].
  - destruct Hs as (Hi & Hz & _). apply quiet_release; [done|lia|done].
  - rewrite <- (working_block s me c sp (set_wait_reason WAIT_CHILD)) by done. by apply (quiet_block me sp c).
Qed.

Lemma tidy_put who c i f s :
  tidy_at who s -> (c < n_threads s)%nat -> (Some c <> who -> ~ gone (th s c)) ->
  tidy_at who (upd c (fun t => set_fd (<[i := f]> (t_fd t)) t) s).
Proof.
  intros [Hi Hb Hl Hg Hsd] Hc Hn. set (g := fun t => set_fd _ t).
  assert (forall j, t_state (th (upd c g s) j) = t_state (th s j)) as Hst by (intros j; by apply (th_keep t_state)).
  split.
  - by apply inv_upd_same.
  - intros k j Hk Hw. rewrite Hst. by eapply Hb.
  - intros j. rewrite length_upd. intros Hj. rewrite th_upd. case_bool_decide as E; [|by apply Hl].
    destruct E as [-> E]. cbn. rewrite length_insert. by apply Hl.
  - intros j Hw. unfold gone. rewrite Hst. intros Hx. destruct (decide (j = c)) as [->|Hne].
    + destruct Hx as [Hx|Hx]; [by destruct (Hn Hw)|change (n_threads (upd c g s)) with (n_threads s) in Hx; lia].
    + rewrite th_upd_ne by done. by apply Hg.
  - exact Hsd.
Qed.

(** *** Fork *)
Lemma alloc_slot_fd s i s1 j : alloc_slot s = Some (i, s1) -> t_fd (th s1 j) = t_fd (th s j).
Proof.
  unfold alloc_slot. destruct (first_free _ _ _); [by intros [= _ <-]|]. destruct (_ <? _)%nat; [|done].
  intros [= _ <-]. apply (th_keep t_fd). done.
Qed.
Lemma taken_working s i s' me c :
  tidy_sched s -> working s me c -> taken i s s' -> c <> i /\ working s' me c.
Proof.
  intros Ht [Hc Hr Hid] [Tl Tc Tn Ti Tf Tw To].
  assert (c <> i) as Hne.
  { intros ->. specialize (Tf (tidy_current _ _ _ _ Ht Hc)). congruence. }
  split; [done|]. split; [|by rewrite To|]; unfold current, cpu_of; by rewrite Tc.
Qed.
(** The rest of the table, whatever became of the slot. *)
Lemma tidy_taken s i s' :
  tidy_sched s -> taken i s s' -> inv s' -> started s' = started s -> length (t_fd (th s' i)) = NFD ->
  (gone (th s' i) -> fds (th s' i) = []) -> tidy_sched s'.
Proof.
  intros [Hi Hb Hl Hg Hst] [Tl Tc Tn Ti Tf Tw To] Hi' Hst' Hlen Hgi.
  assert (forall c, current s' c = current s c) as Hcur by (intros c; unfold current, cpu_of; by rewrite Tc).
  split; [done|..|congruence].
  - intros c j. rewrite Hcur. intros Hj _. pose proof (iv_cur _ _ Hi c j Hj) as Hjn. specialize (Hb c j Hj ltac:(done)).
    rewrite To; [done|]. intros ->. rewrite Tf in Hb; done.
  - intros j. rewrite Tl. destruct (decide (j = i)) as [->|]; [done|rewrite To by done; apply Hl].
  - intros j _ Hj. destruct (decide (j = i)) as [->|]; [destruct Hj; [auto|lia]|].
    rewrite To in * by done. apply Hg; [done|]. destruct Hj; [auto|right; lia].
Qed.
Lemma slot_empty s i s' : tidy_sched s -> taken i s s' -> fds (th s i) = [] /\ (i < length (threads s))%nat.
Proof.
  intros Ht T. split.
  - apply (ts_gone _ _ Ht); [done|]. destruct (decide (i < n_threads s)%nat) as [Hlt|]; [left; left; by apply (tk_free _ _ _ T)|right; lia].
  - rewrite <- (tk_len _ _ _ T). eapply taken_lt; [|exact T]. apply (ts_inv _ _ Ht).
Qed.

Lemma open_taken s i s' :
  tidy_sched s -> taken i s s' -> open_fds s' ≡ₚ fds (th s' i) ++ open_fds s.
Proof.
  intros Ht T. destruct (slot_empty _ _ _ Ht T) as [He Hil].
  assert (open_fds s' = open_fds (upd i (fun _ => th s' i) s)) as ->.
  { apply open_fds_ext, t_fd_ext; [rewrite length_upd; apply T|]. intros j. destruct (decide (j = i)) as [->|].
    - by rewrite th_upd_eq.
    - rewrite th_upd_ne by done. by rewrite (tk_other _ _ _ T). }
  destruct (open_fds_upd s i (fun _ => th s' i) Hil) as (rest & E1 & E2). by rewrite E2, E1, He.
Qed.

Lemma fork_started ru me frame space s o s' : thread_fork ru me frame space s = (o, s') -> started s' = started s.
Proof.
  unfold thread_fork. destruct (alloc_slot s) as [[k s1]|] eqn:Ea; [|by intros [= _ <-]].
  assert (started s1 = started s) as <-.
  { revert Ea. unfold alloc_slot. destruct (first_free _ _ _); [by intros [= _ <-]|]. destruct (_ <? _)%nat; [|done]. by intros [= _ <-]. }
  destruct (alloc_pages _ _) as [stack p]. destruct (stack =? 0); [by intros [= _ <-]|].
  destruct (current _ me); by intros [= _ <-].
Qed.
Lemma fork_tidy ru me frame space s o s' c :
  tidy_sched s -> working s me c -> 0 < zlen frame -> thread_fork ru me frame space s = (o, s') ->
  tidy_sched s' /\ working s' me c
  /\ open_fds s' ≡ₚ (if o is Some _ then fds (th s c) else []) ++ open_fds s.
Proof.
  intros Ht Hw Hfr E. pose proof (fork_inv ru me frame space s (ts_inv _ _ Ht) Hfr) as Hi'. rewrite E in Hi'. cbn in Hi'.
  pose proof (thread_fork_spec ru me frame space s o s' (iv_len _ _ (ts_inv _ _ Ht)) (iv_n _ _ (ts_inv _ _ Ht))
    (fun c0 Hc0 => inv_current s me c0 (ts_inv _ _ Ht) Hc0) Hfr E) as Hs. destruct o as [i|].
  - destruct Hs as (T & _ & Hch & Hr & _). destruct (taken_working _ _ _ _ _ Ht Hw T) as [Hne Hw'].
    destruct (slot_empty _ _ _ Ht T) as [He Hil].
    pose proof (proj1 (co_same _ _ _ _ Hch c (wk_cur _ _ _ Hw))) as Hfd.
    split; [|split; [done|]].
    + eapply tidy_taken; [done|done|done|by eapply fork_started| |].
      * rewrite Hfd. apply (ts_len _ _ Ht). pose proof (tidy_current _ _ _ _ Ht (wk_cur _ _ _ Hw)). pose proof (tidy_bound _ _ Ht). lia.
      * intros [Hx|Hx]; congruence.
    + rewrite (open_taken s i s') by done. unfold fds. by rewrite Hfd.
  - cbn [app]. destruct Hs as (_ & [->|(i & T & Hf)]); [done|]. destruct (taken_working _ _ _ _ _ Ht Hw T) as [Hne Hw'].
    destruct (slot_empty _ _ _ Ht T) as [He Hil].
    assert (t_fd (th s' i) = t_fd (th s i)) as Hfd.
    { revert E. unfold thread_fork. destruct (alloc_slot s) as [[k s1]|] eqn:Ea; [|by intros [= <-]].
      pose proof (alloc_slot_fd _ _ _ i Ea) as Hs1.
      destruct (alloc_pages _ _) as [stack p]. destruct (stack =? 0); [|done]. intros [= <-]. by rewrite (th_keep t_fd). }
    split; [|split; [done|]].
    + eapply tidy_taken; [done|done|done|by eapply fork_started| |].
      * rewrite Hfd. by apply (ts_len _ _ Ht).
      * intros _. unfold fds. by rewrite Hfd.
    + erewrite open_fds_ext; [done|]. apply t_fd_ext; [apply T|]. intros j.
      destruct (decide (j = i)) as [->|]; [done|]. by rewrite (tk_other _ _ _ T).
Qed.

(** *** Creation, a processor's start, and the boot *)
Lemma no_fds t : t_fd t = replicate NFD None -> length (t_fd t) = NFD /\ fds t = [].
Proof. unfold fds. by intros ->. Qed.
(** A slot taken whose thread holds nothing. *)
Lemma tidy_bare s i s' :
  tidy_sched s -> taken i s s' -> inv s' -> started s' = started s -> length (t_fd (th s' i)) = NFD -> fds (th s' i) = [] ->
  tidy_sched s' /\ open_fds s' ≡ₚ open_fds s.
Proof. intros Ht T Hi Hst Hl He. split; [by eapply tidy_taken|]. rewrite (open_taken s i s') by done. by rewrite He. Qed.

Lemma alloc_started s i s1 : alloc_slot s = Some (i, s1) -> started s1 = started s.
Proof. unfold alloc_slot. destruct (first_free _ _ _); [by intros [= _ <-]|]. destruct (_ <? _)%nat; [|done]. by intros [= _ <-]. Qed.
Lemma create_started ep me name fn arg s o s' : thread_create ep me name fn arg s = (o, s') -> started s' = started s.
Proof.
  unfold thread_create. destruct (alloc_slot s) as [[k s1]|] eqn:Ea; [|by intros [= _ <-]]. rewrite <- (alloc_started _ _ _ Ea).
  destruct (alloc_pages _ _) as [stack p]. destruct (stack =? 0); by intros [= _ <-].
Qed.
Lemma create_fd ep me name fn arg s o s' j :
  thread_create ep me name fn arg s = (o, s') -> t_fd (th s' j) = t_fd (th s j) \/ t_fd (th s' j) = replicate NFD None.
Proof.
  unfold thread_create. destruct (alloc_slot s) as [[k s1]|] eqn:Ea; [|intros [= _ <-]; by left].
  rewrite <- (alloc_slot_fd _ _ _ j Ea). destruct (alloc_pages _ _) as [stack p].
  destruct (stack =? 0); intros [= _ <-]; [left; by rewrite (th_keep t_fd)|].
  rewrite !(th_keep t_fd), with_pages_th by done. rewrite (th_keep t_fd) by done. unfold slot_init.
  match goal with |- context [with_next_id ?v ?x] => change (th (with_next_id v x) j) with (th x j) end.
  rewrite th_upd. case_bool_decide; [by right|by left].
Qed.
Lemma create_tidy ep me name fn arg s :
  tidy_sched s -> let s' := (thread_create ep me name fn arg s).2 in tidy_sched s' /\ open_fds s' ≡ₚ open_fds s.
Proof.
  intros Ht. pose proof (create_inv ep me name fn arg s (ts_inv _ _ Ht)) as Hi'.
  destruct (thread_create ep me name fn arg s) as [o s'] eqn:E. cbn in *. pose proof (create_started _ _ _ _ _ _ _ _ E) as Hst.
  pose proof (thread_create_spec ep me name fn arg s o s' (iv_len _ _ (ts_inv _ _ Ht)) (iv_n _ _ (ts_inv _ _ Ht))
    (fun c0 Hc0 => inv_current s me c0 (ts_inv _ _ Ht) Hc0) E) as Hs. destruct o as [i|].
  - destruct Hs as (T & _ & Hnb & _). destruct (no_fds _ (nb_fd _ _ _ _ Hnb)). by apply (tidy_bare s i).
  - destruct Hs as (_ & [->|(i & T & _)]); [done|]. destruct (slot_empty _ _ _ Ht T) as [He Hil].
    assert (t_fd (th s' i) = t_fd (th s i)) as Hfd.
    { revert E. unfold thread_create. destruct (alloc_slot s) as [[k s1]|] eqn:Ea; [|by intros [= <-]].
      pose proof (alloc_slot_fd _ _ _ i Ea) as Hs1.
      destruct (alloc_pages _ _) as [stack p]. destruct (stack =? 0); [|done]. intros [= <-]. by rewrite (th_keep t_fd). }
    apply (tidy_bare s i); unfold fds; rewrite ?Hfd; try done. by apply (ts_len _ _ Ht).
Qed.

Lemma cpu_init_tidy me name s :
  tidy_sched s -> current s me = None -> (me < length (cpus s))%nat ->
  let s' := sched_cpu_init me name s in tidy_sched s' /\ open_fds s' ≡ₚ open_fds s.
Proof.
  intros Ht Hnone Hme. pose proof (cpu_init_inv me name s (ts_inv _ _ Ht) Hnone Hme) as Hi'. cbv zeta. revert Hi'. unfold sched_cpu_init.
  destruct (alloc_slot s) as [[i s1]|] eqn:Ea; [|done]. pose proof Ht as [Hinv Hb Hl Hg Hst].
  destruct (alloc_slot_spec _ _ _ (iv_len _ _ Hinv) (iv_n _ _ Hinv) Ea) as (T & Hf & Hid & _).
  destruct (slot_init_spec me i name 0 s s1 (iv_len _ _ Hinv) T Hid) as (T2 & _ & Hnb & _); [congruence|].
  destruct (no_fds _ (nb_fd _ _ _ _ Hnb)) as [L2 E2].
  assert (started (slot_init me i name 0 s1) = started s) as S2 by (by rewrite <- (alloc_started _ _ _ Ea)).
  set (s2 := slot_init me i name 0 s1) in *. clearbody s2.
  set (s3 := upd i (set_state RUNNING) (upd i (set_home (Z.of_nat me)) (upd i (set_parent (-1)) s2))).
  assert (taken i s s3) as T3 by (unfold s3; eauto using taken_upd).
  assert (t_fd (th s3 i) = t_fd (th s2 i)) as F3 by (unfold s3; by rewrite !(th_keep t_fd)).
  assert (t_state (th s3 i) = RUNNING) as R3.
  { unfold s3. rewrite th_upd_eq; [done|]. rewrite !length_upd. exact (taken_lt _ _ _ (iv_len _ _ Hinv) T2). }
  assert (started s3 = true) as S3 by (by rewrite <- Hst, <- S2).
  clearbody s3. set (s4 := upd_cpu me _ _). intros Hi'.
  assert (forall c, current s4 c = if bool_decide (c = me) then Some i else current s c) as Hcur.
  { intros c. pose proof (tk_cpus _ _ _ T3) as Hc. unfold current, s4. rewrite !cpu_upd by (rewrite ?length_upd_cpu, ?Hc; done).
    unfold cpu_of. rewrite Hc. rewrite (bool_decide_true (me = me)) by done. case_bool_decide; done. }
  assert (forall j, th s4 j = th s3 j) as Hth by done.
  split.
  - split; [exact Hi'|..].
    + intros c j. rewrite Hcur, Hth. case_bool_decide as E; [by intros [= <-]|]. intros Hj Hx.
      assert (j <> i) as Hne. { intros ->. pose proof (tk_free _ _ _ T3 (iv_cur _ _ Hinv c i Hj)). specialize (Hb c i Hj Hx). congruence. }
      rewrite (tk_other _ _ _ T3) by done. by apply (Hb c).
    + intros j. change (length (threads s4)) with (length (threads s3)). rewrite Hth, (tk_len _ _ _ T3).
      destruct (decide (j = i)) as [->|]; [congruence|]. rewrite (tk_other _ _ _ T3) by done. apply Hl.
    + intros j _. rewrite Hth. change (n_threads s4) with (n_threads s3). intros Hx. destruct (decide (j = i)) as [->|].
      * unfold fds in *. by rewrite F3.
      * rewrite (tk_other _ _ _ T3) in * by done. apply Hg; [done|]. pose proof (tk_n _ _ _ T3). destruct Hx; [by left|right; lia].
    + exact S3.
  - change (open_fds s4) with (open_fds s3). rewrite (open_taken s i s3) by done. unfold fds in *. by rewrite F3, E2.
Qed.

Lemma open_none s : (forall j, fds (th s j) = []) -> open_fds s = [].
Proof.
  unfold open_fds, th. generalize (threads s). intros l Hl. induction l as [|t l IH]; [done|].
  cbn. rewrite (Hl 0%nat : fds t = []). apply IH. intros j. apply (Hl (S j)).
Qed.
Lemma boot_tidy ep p fn :
  idle (cpu_of (boot ep p fn) 0) <> None -> tidy_sched (boot ep p fn) /\ open_fds (boot ep p fn) = [].
Proof.
  intros Hid. destruct (boot_ok ep p fn Hid) as (Hinv & _ & _).
  destruct (boot_shape ep p fn Hid) as (i & s1 & E & T & Hi0 & Hall & Hr & _). revert E T.
  set (s0 := sched_init 0 "boot" (SchedRun.cold p)). intros E T.
  assert (forall j, th s0 j = zero_thread \/ j = 0%nat) as Hz.
  { intros j. destruct (decide (j = 0%nat)) as [|Hne]; [by right|left]. unfold th.
    change (threads s0) with (th s0 0 :: replicate (MAX_THREADS - 1) zero_thread). destruct j as [|j]; [done|]. cbn [nth].
    rewrite nth_lookup. destruct (replicate _ zero_thread !! j) as [t|] eqn:Ej; [|done]. by apply lookup_replicate in Ej as [-> _]. }
  assert (started (boot ep p fn) = true /\ forall j, t_fd (th (boot ep p fn) j) = replicate NFD None) as [S1 Hnone].
  { unfold boot, sched_cpu_idle. fold s0. destruct (thread_create ep 0 "idle-0" fn 0 s0) as [o s'] eqn:Ec.
    assert (started s' = true /\ forall j, t_fd (th s' j) = replicate NFD None) as [S2 F2].
    { split; [by rewrite (create_started _ _ _ _ _ _ _ _ Ec)|]. intros j.
      destruct (create_fd _ _ _ _ _ _ _ _ j Ec) as [->|]; [by destruct (Hz j) as [-> | ->]|done]. }
    destruct o as [i'|]; [|done]. split; [exact S2|]. intros j.
    change (t_fd (th (upd i' (set_home (Z.of_nat 0)) s') j) = replicate NFD None). by rewrite (th_keep t_fd). }
  assert (forall j, fds (th (boot ep p fn) j) = []) as He by (intros j; by apply no_fds, Hnone).
  split; [split|by apply open_none].
  - exact Hinv.
  - intros c j Hc _. pose proof (iv_cur _ _ Hinv c j Hc) as Hj. rewrite E in Hj.
    assert (t_state (th (boot ep p fn) j) <> ZOMBIE) as Hnz.
    { rewrite E. change (t_state (th (upd i (set_home 0) s1) j) <> ZOMBIE). rewrite (th_keep t_state) by done.
      destruct (Hall j Hj) as [-> | ->]; [|by rewrite Hr]. by rewrite (tk_other _ _ _ T) by done. }
    destruct (iv_live _ _ Hinv c j Hc) as [?|[?|(? & _)]]; [done..|by destruct Hnz|done].
  - intros j _. by rewrite Hnone.
  - intros j _ _. apply He.
  - exact S1.
Qed.

(** ** What the calls of file.c do to the scheduler *)
Section files.
Context {D : Type} `{BlockDevLaws D} {K : Type} `{Channels K} (pipes_at : Z).
Abbreviation world := (@world D K).

Lemma file_alloc_sched kind p (w : world) i w' : file_alloc kind p w = Some (i, w') -> scheduler w' = scheduler w.
Proof. unfold file_alloc. destruct (first_of _ _ _); [|done]. by intros [= _ <-]. Qed.
(** A call that makes an object says by its code whether it did. *)
Definition made (w : world) (c : Z) (o : option nat) (w' : world) : Prop := scheduler w' = scheduler w /\ (c < 0 -> o = None).
Lemma open_as_made kind g (w : world) c o w' : open_as kind g w = (c, o, w') -> made w c o w'.
Proof.
  unfold open_as, made. destruct (file_alloc _ _ _) as [[i w1]|] eqn:E; [|by intros [= <- <- <-]].
  intros [= <- <- <-]. apply file_alloc_sched in E. split; [exact E|lia].
Qed.
Lemma mem_open_made name mode (w : world) c o w' : mem_open name mode w = (c, o, w') -> made w c o w'.
Proof.
  unfold mem_open. destruct (match first_of _ _ 0 with Some m => _ | None => _ end); [|by intros [= <- <- <-]].
  intros E. by apply open_as_made in E.
Qed.
Lemma file_open_made junk name mode (w : world) c o w' : file_open junk name mode w = Ret (c, o, w') -> made w c o w'.
Proof.
  unfold file_open. destruct (match volume w with None => _ | Some g => _ end) as [[disk d]| |]; cbn [obind]; [|done..].
  assert (forall c o w', read_open (Reader.skip_slash name) disk (with_device d w) = Ret (c, o, w') -> made w c o w') as Hr.
  { clear. intros c o w'. unfold read_open. destruct (first_of _ _ 0); [intros [= E]; by apply open_as_made in E|].
    destruct (if zlen _ =? 0 then _ else _) as [[]| |]; cbn [obind]; [| |done..].
    - intros [= E]. by apply open_as_made in E.
    - destruct disk; intros [= E]; try (by apply open_as_made in E); by subst. }
  destruct disk as [|[] ff|ff|e]; try (case_bool_decide; [intros E; by apply Hr in E|intros [= E]; by apply mem_open_made in E]).
  - intros [= E]. by apply open_as_made in E.
  - by intros [= _ <- <-].
Qed.
Lemma file_console_sched (w : world) o w' : file_console w = (o, w') -> scheduler w' = scheduler w.
Proof.
  unfold file_console. destruct (console_file w); [by intros [= _ <-]|]. destruct (file_alloc _ _ _) as [[i w1]|] eqn:E; [|by intros [= _ <-]].
  intros [= _ <-]. by apply file_alloc_sched in E.
Qed.
Lemma file_pipe_sched (w : world) o w' : file_pipe w = (o, w') -> scheduler w' = scheduler w.
Proof.
  unfold file_pipe. destruct (first_of _ _ _) as [j|]; [|by intros [= _ <-]].
  destruct (file_alloc FILE_PIPE_R _ _) as [[r w2]|] eqn:E1; [|by intros [= _ <-]]. apply file_alloc_sched in E1.
  destruct (file_alloc FILE_PIPE_W _ _) as [[wr w3]|] eqn:E2; intros [= _ <-]; [apply file_alloc_sched in E2; exact (eq_trans E2 E1)|exact E1].
Qed.
Lemma file_udp_made (w : world) c o w' : file_udp w = (c, o, w') -> made w c o w'.
Proof.
  unfold file_udp, made. destruct (udp_open _) as [[s|] k]; [|by intros [= <- <- <-]].
  destruct (file_alloc _ _ _) as [[i w1]|] eqn:E; intros [= <- <- <-]; [|done]. apply file_alloc_sched in E. split; [exact E|lia].
Qed.
Lemma file_tcp_adopt_made s (w : world) c o w' : file_tcp_adopt s w = (c, o, w') -> made w c o w'.
Proof.
  unfold file_tcp_adopt, made. destruct s as [s|]; [|by intros [= <- <- <-]].
  destruct (file_alloc _ _ _) as [[i w1]|] eqn:E; intros [= <- <- <-]; [|done]. apply file_alloc_sched in E. split; [exact E|lia].
Qed.
Lemma file_tcp_made (w : world) c o w' : file_tcp w = (c, o, w') -> made w c o w'.
Proof.
  unfold file_tcp. destruct (tcp_open _) as [[s|] k]; [|by intros [= <- <- <-]]. intros E. by apply file_tcp_adopt_made in E.
Qed.
Lemma getdents_sched junk fd len (w : world) c b w' : file_getdents junk fd len w = Ret (c, b, w') -> scheduler w' = scheduler w.
Proof.
  unfold file_getdents. destruct fd as [i|]; [|by intros [= _ _ <-]]. destruct (negb _); [by intros [= _ _ <-]|].
  destruct (volume w) as [g|]; [|by intros [= _ _ <-]]. generalize (S (Z.to_nat (len / 24))) as fuel. intros fuel.
  generalize (@nil Z) as buf. revert w. induction fuel as [|fuel IH]; intros w buf; cbn [getdents_loop]; [done|].
  destruct (fat_dirent _ _ _ _ _) as [[[[name sz] dir]|]| |]; cbn [obind]; [|by intros [= _ _ <-]|done..].
  destruct (len <? _); [destruct (zlen buf =? 0); by intros [= _ _ <-]|]. intros E. by apply IH in E.
Qed.

(** Closing may wake the holders of the other end. *)
Lemma file_close_sched i (w : world) :
  scheduler (file_close pipes_at i w) = scheduler w
  \/ exists j, scheduler (file_close pipes_at i w) = thread_wake_pipe (pipe_obj pipes_at j) (scheduler w).
Proof.
  unfold file_close. destruct (0 <? _); [by left|]. cbv zeta. set (f := file_at w i). clearbody f.
  set (w1 := put_file i _ w). set (w2 := if bool_decide (console_file w1 = Some i) then with_console None w1 else w1). assert (scheduler w2 = scheduler w) as E2 by (unfold w2; by case_bool_decide).
  clearbody w2.
  set (w3 := match f_pipe f with Some j => _ | None => w2 end).
  assert (scheduler w3 = scheduler w \/ exists j, scheduler w3 = thread_wake_pipe (pipe_obj pipes_at j) (scheduler w)) as E3.
  { unfold w3. destruct (f_pipe f) as [j|]; [right; exists j; by rewrite <- E2|by left]. }
  clearbody w3.
  match goal with |- scheduler ?x = _ \/ _ => assert (scheduler x = scheduler w3) as -> end; [|done].
  destruct (if bool_decide (f_kind f = FILE_UDP) then _ else _), (if bool_decide (f_kind f = FILE_TCP) then _ else _), (_ && _);
    cbn; try done; by destruct (volume w3).
Qed.
(** Reading and writing may wake them, or put the caller to sleep. *)
Lemma file_read_sched me sp f len (w : world) r w' :
  file_read pipes_at me sp f len w = Ret (r, w') ->
  scheduler w' = scheduler w
  \/ (exists j, scheduler w' = thread_wake_pipe (pipe_obj pipes_at j) (scheduler w))
  \/ (exists n j, r = Block n /\ scheduler w' = thread_block_on_pipe me sp (pipe_obj pipes_at j) (scheduler w)).
Proof.
  unfold file_read. destruct f as [i|]; [|intros [= _ <-]; by left].
  assert (forall j, pipe_read pipes_at me sp j len w = (r, w') -> scheduler w' = scheduler w
    \/ (exists j, scheduler w' = thread_wake_pipe (pipe_obj pipes_at j) (scheduler w))
    \/ (exists n j, r = Block n /\ scheduler w' = thread_block_on_pipe me sp (pipe_obj pipes_at j) (scheduler w))) as Hp.
  { intros j. unfold pipe_read. destruct (_ =? 0); [destruct (_ <=? 0)|destruct (pipe_take _ _)]; intros [= <- <-]; eauto 8. }
  destruct (f_kind (file_at w i)); try (intros [= _ <-]; by left).
  1: { destruct (console_read_line _ _) as [[n x] c]. intros [= _ <-]. by left. }
  6: { destruct (f_conn _); [|done]. destruct (tcp_recv _ _ _) as [[n x] c]. intros [= _ <-]. by left. }
  all: destruct (len =? 0); [intros [= _ <-]; by left|].
  - destruct (f_pipe _); [|done]. intros [= E]. eauto.
  - intros [= _ <-]. by left.
  - destruct (f_mem _); [|done]. intros [= _ <-]. by left.
  - destruct (match volume w with Some g => _ | None => _ end) as [n x]. intros [= _ <-]. by left.
  - destruct (f_pipe _); [|done]. intros [= E]. eauto.
Qed.
Lemma file_write_sched me sp f buf n (w : world) r w' :
  file_write pipes_at me sp f buf n w = Ret (r, w') ->
  scheduler w' = scheduler w
  \/ (exists j, scheduler w' = thread_wake_pipe (pipe_obj pipes_at j) (scheduler w))
  \/ (exists n j, r = Block n /\ scheduler w' = thread_block_on_pipe me sp (pipe_obj pipes_at j) (scheduler w)).
Proof.
  unfold file_write. destruct f as [i|]; [|intros [= _ <-]; by left].
  assert (forall j, pipe_write pipes_at me sp j buf n w = (r, w') -> scheduler w' = scheduler w
    \/ (exists j, scheduler w' = thread_wake_pipe (pipe_obj pipes_at j) (scheduler w))
    \/ (exists n j, r = Block n /\ scheduler w' = thread_block_on_pipe me sp (pipe_obj pipes_at j) (scheduler w))) as Hp.
  { intros j. unfold pipe_write. destruct (pipe_put _ _ _) as [[[] n'] p]; intros [= <- <-]; eauto 8. }
  destruct (f_kind (file_at w i)); try (intros [= _ <-]; by left).
  - destruct (f_pipe _); [|done]. intros [= E]. eauto.
  - destruct (f_mem _); [|done]. destruct (mem_put _ _ _). intros [= _ <-]. by left.
  - destruct (negb _); [intros [= _ <-]; by left|]. destruct (match volume w with Some g => _ | None => _ end) as [[x ff] d].
    intros [= _ <-]. by left.
  - destruct (f_pipe _); [|done]. intros [= E]. eauto.
  - destruct (f_conn _); [|done]. destruct (tcp_send _ _ _) as [x c]. intros [= _ <-]. by left.
Qed.
End files.

(** ** The kernel *)
Section kernel.
Context {D : Type} `{BlockDevLaws D} {K : Type} `{Channels K} `{Sockets K}.
Context {M : Type} `{UserMem M} `{Spaces M} `{Space M}.
Context (pipes_at ret_to_user : Z) (junk : list Z).
Abbreviation world := (@world D K).
Abbreviation kernel := (@kernel D K M).
Abbreviation call_result := (outcome (sysret * kernel)).

Definition sch (k : kernel) : sched := scheduler (k_w k).
(** [e]: what the call in progress holds besides. *)
Definition pool (e : list nat) (k : kernel) : Prop := well (e ++ open_fds (sch k)) (k_w k).
Definition tidy (k : kernel) : Prop := tidy_sched (sch k) /\ pool [] k.
(** In the middle of a call of thread [c]. *)
Record ready (me c : nat) (e : list nat) (k : kernel) : Prop := {
  rd_s : tidy_sched (sch k); rd_w : working (sch k) me c; rd_p : pool e k
}.
(** Its end, or its wait. *)
Definition sound (me c : nat) (r : call_result) : Prop :=
  forall v k', r = Ret (v, k') -> tidy k' /\ match v with Sys _ => working (sch k') me c | _ => True end.

Lemma well_perm h h' (w : world) : h ≡ₚ h' -> well h w -> well h' w.
Proof.
  intros E [? ? Hh ? Hf ?]. split; try done.
  - intros i. rewrite <- E. apply Hh.
  - intros i f Hi. destruct (Hf i f Hi). by split; rewrite <- ?(holders_perm _ _ _ E).
Qed.
Lemma pool_ext e (k k' : kernel) :
  files (k_w k') = files (k_w k) -> pipes (k_w k') = pipes (k_w k) -> console_file (k_w k') = console_file (k_w k) ->
  open_fds (sch k') = open_fds (sch k) -> pool e k -> pool e k'.
Proof. unfold pool, well. by intros -> -> -> ->. Qed.

Lemma sound_done me c v (k : kernel) : ready me c [] k -> sound me c (done v k).
Proof. intros [T W P] v' k' [= <- <-]. by split. Qed.
Lemma sound_obind {A} me c (o : outcome A) (f : A -> call_result) :
  (forall x, o = Ret x -> sound me c (f x)) -> sound me c (let! x := o in f x).
Proof. intros Hf. destruct o as [x| |]; [by apply Hf|done..]. Qed.

(** A quiet step of the scheduler, the pool as it was. *)
Lemma ready_quiet me c e (k k' : kernel) :
  ready me c e k -> quiet (sch k) (sch k') -> working (sch k') me c ->
  files (k_w k') = files (k_w k) -> pipes (k_w k') = pipes (k_w k) -> console_file (k_w k') = console_file (k_w k) ->
  ready me c e k'.
Proof.
  intros [T W P] [T' E'] W' E1 E2 E3. split; [done..|]. eapply pool_ext; eauto. by apply open_fds_ext.
Qed.
(** Nothing of it changed. *)
Lemma ready_same me c e (k k' : kernel) :
  ready me c e k -> sch k' = sch k -> files (k_w k') = files (k_w k) -> pipes (k_w k') = pipes (k_w k) ->
  console_file (k_w k') = console_file (k_w k) -> ready me c e k'.
Proof.
  intros R E0 E1 E2 E3. eapply ready_quiet; eauto; rewrite E0; [by apply quiet_refl, R|apply R].
Qed.

Lemma ready_current me c e (k : kernel) : ready me c e k -> thread_current me k = Ret c.
Proof. intros [_ W _]. unfold thread_current, sch in *. by rewrite (wk_cur _ _ _ W). Qed.
Lemma ready_lt me c e (k : kernel) : ready me c e k -> (c < length (threads (sch k)))%nat.
Proof.
  intros [T W _]. pose proof (tidy_current _ _ _ _ T (wk_cur _ _ _ W)). pose proof (tidy_bound _ _ T). lia.
Qed.
Lemma ready_fd_len me c e (k : kernel) : ready me c e k -> length (t_fd (th (sch k) c)) = NFD.
Proof. intros R. apply (ts_len _ _ (rd_s _ _ _ _ R)). by eapply ready_lt. Qed.

Lemma slot_held (k : kernel) c fd i : (c < length (threads (sch k)))%nat -> fd_slot (thread_at k c) fd = Some i -> i ∈ open_fds (sch k).
Proof.
  intros Hc Hf. destruct (open_fds_upd (sch k) c id Hc) as (rest & E & _). rewrite E. apply elem_of_app. left.
  unfold fds. apply list_elem_of_omap. exists (Some i). split; [|done]. unfold fd_slot in Hf. rewrite nth_lookup in Hf.
  change (thread_at k c) with (th (sch k) c) in Hf.
  destruct (t_fd (th (sch k) c) !! _) as [o|] eqn:E2; cbn in Hf; [subst; by eapply list_elem_of_lookup_2|done].
Qed.
Lemma fd_get_held me c e fd (k : kernel) i : ready me c e k -> fd_get me fd k = Ret (Some i) -> i ∈ open_fds (sch k).
Proof.
  intros R. unfold fd_get. destruct (_ <=? _); [done|]. rewrite (ready_current _ _ _ _ R). cbn [obind]. intros [= E].
  eapply slot_held; [by eapply ready_lt|exact E].
Qed.

(** *** Descriptors *)
Lemma swap_fd (k : kernel) c fd f :
  (c < length (threads (sch k)))%nat -> (Z.to_nat fd < length (t_fd (th (sch k) c)))%nat ->
  exists rest, open_fds (sch k) ≡ₚ hold (fd_slot (thread_at k c) fd) rest
    /\ open_fds (sch (put_fd c fd f k)) ≡ₚ hold f rest.
Proof.
  intros Hc Hfd. unfold put_fd. destruct (open_fds_upd (sch k) c (fun t => set_fd (<[Z.to_nat fd := f]> (t_fd t)) t) Hc) as (rest & E1 & E2).
  destruct (lookup_lt_is_Some_2 _ _ Hfd) as [o Ho]. destruct (omap_insert _ _ _ f Ho) as (r & F1 & F2).
  exists (r ++ rest). assert (fd_slot (thread_at k c) fd = o) as -> by (unfold fd_slot; by rewrite nth_lookup, (Ho : t_fd (thread_at k c) !! _ = _)).
  split.
  - rewrite E1. unfold fds at 1. rewrite F1. by destruct o.
  - change (sch (on_sched _ k)) with (upd c (fun t => set_fd (<[Z.to_nat fd := f]> (t_fd t)) t) (sch k)).
    rewrite E2. unfold fds at 1. cbn [t_fd set_fd]. rewrite F2. by destruct f.
Qed.
Lemma ready_put me c e fd f (k : kernel) :
  tidy_sched (sch k) -> working (sch k) me c -> pool e (put_fd c fd f k) -> ready me c e (put_fd c fd f k).
Proof.
  intros T W P. split; [|split; [apply W| |apply W]|exact P].
  - apply tidy_put; [done|by eapply tidy_current, (wk_cur _ _ _ W)|]. intros _ Hg. pose proof (wk_run _ _ _ W) as Hr. unfold sch, gone in *. destruct Hg; congruence.
  - rewrite <- (wk_run _ _ _ W). by apply (th_keep t_state).
Qed.
(** A free descriptor taken. *)
Lemma take_fd me c e fd f (k : kernel) :
  ready me c (hold f e) k -> (Z.to_nat fd < NFD)%nat -> fd_slot (thread_at k c) fd = None -> ready me c e (put_fd c fd f k).
Proof.
  intros R Hfd Hs. pose proof R as [T W P]. apply ready_put; [done..|].
  destruct (swap_fd k c fd f) as (rest & E1 & E2); [by eapply ready_lt|by erewrite ready_fd_len|].
  rewrite Hs in E1. cbn [hold] in E1. eapply well_perm; [|exact P]. rewrite E2, E1. destruct f; cbn; solve_Permutation.
Qed.

Lemma free_fd_spec l i n :
  let j := free_fd l i n in j = -1 \/ (i <= j < i + Z.of_nat n /\ nth (Z.to_nat j) l None = None).
Proof.
  revert i. induction n as [|n IH]; intros i; cbn [free_fd]; [by left|].
  destruct (nth (Z.to_nat i) l None) eqn:E; [|right; split; [lia|done]].
  destruct (IH (i + 1)) as [?|[? ?]]; [by left|right; split; [lia|done]].
Qed.
Lemma fd_alloc_ready me c e f (k k' : kernel) i :
  ready me c (hold f e) k -> fd_alloc me f k = Ret (i, k') ->
  if i <? 0 then k' = k else ready me c e k' /\ 0 <= i < Z.of_nat NFD /\ fd_slot (thread_at k c) i = None /\ k' = put_fd c i f k.
Proof.
  intros R. unfold fd_alloc. rewrite (ready_current _ _ _ _ R). cbn [obind].
  destruct (free_fd_spec (t_fd (thread_at k c)) 0 NFD) as [E|[E1 E2]]; [rewrite E; by intros [= <- <-]|].
  set (j := free_fd _ _ _) in *. destruct (Z.ltb_spec j 0) as [|_]; [lia|]. intros [= <- <-].
  destruct (Z.ltb_spec j 0); [lia|]. split; [|done]. apply take_fd; [done|lia|done].
Qed.

(** Letting go of an object held aside, or naming one again. *)
Lemma close_sched f (k : kernel) me c :
  tidy_sched (sch k) -> working (sch k) me c -> quiet (sch k) (sch (close pipes_at f k)) /\ working (sch (close pipes_at f k)) me c.
Proof.
  intros T W. destruct f as [i|]; [|split; [by apply quiet_refl|done]]. unfold sch. cbn [close k_w set_w].
  destruct (file_close_sched pipes_at i (k_w k)) as [-> | [j ->]]; [split; [by apply quiet_refl|done]|].
  split; [by apply quiet_wake_pipe|by apply working_wake].
Qed.
Lemma close_well f e (k : kernel) : well (hold f e) (k_w k) -> well e (k_w (close pipes_at f k)).
Proof. destruct f as [i|]; [|done]. intros Hw. by apply (file_close_well pipes_at (i :: e)). Qed.
Lemma close_ready me c f e (k : kernel) : ready me c (hold f e) k -> ready me c e (close pipes_at f k).
Proof.
  intros [T W P]. destruct (close_sched f k me c T W) as [Q W']. split; [apply Q|exact W'|].
  unfold pool. rewrite (open_fds_ext (sch k)) by apply Q. apply close_well. by destruct f.
Qed.
(** What is at a descriptor closed and something put there. *)
Lemma replace_fd me c e fd f (k : kernel) :
  ready me c (hold f e) k -> (Z.to_nat fd < NFD)%nat ->
  ready me c e (put_fd c fd f (close pipes_at (fd_slot (thread_at k c) fd) k)).
Proof.
  intros R Hfd. pose proof R as [T W P]. set (old := fd_slot _ _). set (k2 := close pipes_at old k).
  destruct (close_sched old k me c T W) as [Q W2]. fold k2 in Q, W2. apply ready_put; [apply Q|exact W2|].
  assert (t_fd (th (sch k2) c) = t_fd (th (sch k) c)) as Et by (by eapply quiet_fd).
  destruct (swap_fd k2 c fd f) as (rest & E1 & E2).
  { pose proof (tidy_current _ _ _ _ (q_tidy _ _ _ Q) (wk_cur _ _ _ W2)). pose proof (tidy_bound _ _ (q_tidy _ _ _ Q)). lia. }
  { rewrite Et. by erewrite ready_fd_len. }
  assert (fd_slot (thread_at k2 c) fd = old) as Eo by (unfold fd_slot; by rewrite (Et : t_fd (thread_at k2 c) = _)).
  rewrite Eo, (open_fds_ext (sch k)) in E1 by apply Q. unfold pool.
  assert (well (hold f e ++ rest) (k_w k2)) as Hw.
  { apply close_well. eapply well_perm; [|exact P]. rewrite E1. destruct old; cbn; solve_Permutation. }
  eapply well_perm; [|exact Hw]. rewrite E2. destruct f; cbn; solve_Permutation.
Qed.
Lemma reference_ready me c e f (k : kernel) :
  ready me c e k -> (forall i, f = Some i -> i ∈ e ++ open_fds (sch k)) -> ready me c (hold f e) (reference f k).
Proof.
  intros [T W P] Hf. destruct f as [i|]; [|by split]. cbn [reference hold]. split; [exact T|exact W|].
  apply (file_ref_well _ _ i P). by apply Hf.
Qed.
Lemma give_fd_sound me c f (k : kernel) : ready me c (hold f []) k -> sound me c (give_fd pipes_at me f k).
Proof.
  intros R. unfold give_fd. apply sound_obind. intros [fd k1] E. pose proof (fd_alloc_ready me c [] f k k1 fd R E) as Hr.
  destruct (fd <? 0).
  - subst k1. apply sound_done. by apply close_ready.
  - apply sound_done. apply Hr.
Qed.

(** A call of file.c that makes an object, or none. *)
Lemma made_ready me c e o (k : kernel) (w' : world) :
  ready me c e k -> well (hold o (e ++ open_fds (sch k))) w' -> scheduler w' = sch k -> ready me c (hold o e) (set_w w' k).
Proof.
  intros [T W P] Hw Es. unfold sch in *. split; unfold sch; cbn [k_w set_w]; [by rewrite Es|by rewrite Es|].
  unfold pool, sch. cbn [k_w set_w]. rewrite Es. by destruct o.
Qed.
Lemma ready_ok me c e va len w (k k' : kernel) b : ready me c e k -> ok va len w k = (b, k') -> ready me c e k'.
Proof. intros R. unfold ok. destruct (user_ok _ _ _ _). intros [= _ <-]. by apply (ready_same me c e k). Qed.
Lemma ready_string me c e va max (k k' : kernel) r : ready me c e k -> user_string va max k = (r, k') -> ready me c e k'.
Proof. intros R. unfold user_string. destruct (vm_user_strlen _ _ _). intros [= _ <-]. by apply (ready_same me c e k). Qed.
Lemma ready_put_user me c e a l (k : kernel) : ready me c e k -> ready me c e (put_user a l k).
Proof. intros R. by apply (ready_same me c e k). Qed.
Lemma ready_chan {A} me c e (f : K -> A * K) (k k' : kernel) r : ready me c e k -> on_chan f k = (r, k') -> ready me c e k'.
Proof. intros R. unfold on_chan. destruct (f _). intros [= _ <-]. by apply (ready_same me c e k). Qed.
Lemma ready_sockaddr me c e va len (k k' : kernel) r : ready me c e k -> sockaddr_read va len k = (r, k') -> ready me c e k'.
Proof.
  intros R. unfold sockaddr_read. destruct (len <? _); [by intros [= _ <-]|]. destruct (ok _ _ _ _) as [b k1] eqn:E.
  apply (ready_ok me c e) in E; [|done]. destruct (negb b); [by intros [= _ <-]|]. destruct (negb _); by intros [= _ <-].
Qed.
Lemma ready_addr me c e a p (k k' : kernel) r : ready me c e k -> addr_ok a p k = (r, k') -> ready me c e k'.
Proof.
  intros R. unfold addr_ok. destruct (a =? 0); [by intros [= _ <-]|]. destruct (ok _ _ _ _) as [b k1] eqn:E.
  apply (ready_ok me c e) in E; [|done]. destruct (negb b); [by intros [= _ <-]|]. destruct (p =? 0); [by intros [= _ <-]|].
  by apply ready_ok.
Qed.
Lemma ready_tell me c e a p ip port (k : kernel) : ready me c e k -> ready me c e (tell_addr a p ip port k).
Proof.
  intros R. unfold tell_addr, sockaddr_write. destruct (a =? 0); [done|]. destruct (p =? 0); by repeat apply ready_put_user.
Qed.

(** *** Reading and writing *)
Lemma unheld h (w : world) i : well h w -> ~ i ∈ h -> f_kind (file_at w i) = FILE_FREE.
Proof.
  intros Hw Hi. unfold file_at. rewrite nth_lookup. destruct (files w !! i) as [f|] eqn:E; [|done].
  destruct (decide (f_kind f = FILE_FREE)) as [|Hk]; [done|]. destruct Hi. apply holders_in.
  by apply (fo_refs _ _ _ _ (tb_file _ _ _ _ Hw i f E)).
Qed.
Lemma read_well h (w : world) me sp f len r w' : well h w -> file_read pipes_at me sp f len w = Ret (r, w') -> well h w'.
Proof.
  intros Hw E. destruct f as [i|]; [|by injection E as <- <-]. destruct (decide (i ∈ h)) as [Hi|Hi].
  - by apply (file_read_well pipes_at h w me sp i len r w' Hw Hi E).
  - cbn [file_read] in E. rewrite (unheld _ _ _ Hw Hi) in E. by injection E as <- <-.
Qed.
Lemma write_well h (w : world) me sp f buf n r w' : well h w -> file_write pipes_at me sp f buf n w = Ret (r, w') -> well h w'.
Proof.
  intros Hw E. destruct f as [i|]; [|by injection E as <- <-]. destruct (decide (i ∈ h)) as [Hi|Hi].
  - by apply (file_write_well pipes_at h w me sp i buf n r w' Hw Hi E).
  - cbn [file_write] in E. rewrite (unheld _ _ _ Hw Hi) in E. by injection E as <- <-.
Qed.

(** What a read or a write comes to, as far as the scheduler goes. *)
Lemma io_sound me c sp (k : kernel) (w' : world) (r : io) (v : sysret) (k' : kernel) :
  ready me c [] k -> well (open_fds (sch k)) w' ->
  scheduler w' = sch k
  \/ (exists j, scheduler w' = thread_wake_pipe (pipe_obj pipes_at j) (sch k))
  \/ (exists n j, r = Block n /\ scheduler w' = thread_block_on_pipe me sp (pipe_obj pipes_at j) (sch k)) ->
  (forall x b, r = Done x b -> exists z, v = Sys z) -> (forall n, r = Block n -> exists wt, v = Asleep wt) ->
  k_w k' = w' -> tidy k' /\ match v with Sys _ => working (sch k') me c | _ => True end.
Proof.
  intros [T W P] Hw Hs HD HB Ek.
  assert (quiet (sch k) (sch k') /\ match v with Sys _ => working (sch k') me c | _ => True end) as [Q W'].
  { unfold sch at 2 3. rewrite Ek. destruct Hs as [-> | [[j ->]|(n & j & Hr & ->)]].
    - split; [by apply quiet_refl|]. by destruct v.
    - split; [by apply quiet_wake_pipe|]. destruct v; [by apply working_wake|done..].
    - split; [|by destruct (HB n Hr) as [wt ->]]. unfold thread_block_on_pipe. by apply (quiet_block me sp c). }
  split; [|exact W']. split; [apply Q|]. unfold pool. rewrite (open_fds_ext (sch k)) by apply Q. by rewrite Ek.
Qed.
Lemma read_go_sound me c sp f buf len (k : kernel) : ready me c [] k -> sound me c (read_go pipes_at me sp f buf len k).
Proof.
  intros R v k' E. unfold read_go in E. destruct (file_read _ _ _ _ _ _) as [[r w]| |] eqn:Er; cbn [obind] in E; [|done..].
  apply (io_sound me c sp k w r); [done| |by eapply file_read_sched| | |].
  - eapply read_well; [apply R|exact Er].
  - intros x b ->. injection E as <- <-. eauto.
  - intros n ->. injection E as <- <-. eauto.
  - destruct r; by injection E as <- <-.
Qed.
Lemma write_go_sound me c sp f buf len n (k : kernel) : ready me c [] k -> sound me c (write_go pipes_at me sp f buf len n k).
Proof.
  intros R v k' E. unfold write_go in E. destruct (file_write _ _ _ _ _ _ _) as [[r w]| |] eqn:Er; cbn [obind] in E; [|done..].
  apply (io_sound me c sp k w r); [done| |by eapply file_write_sched| | |].
  - eapply write_well; [apply R|exact Er].
  - intros x b ->. injection E as <- <-. eauto.
  - intros n' ->. injection E as <- <-. eauto.
  - destruct r; by injection E as <- <-.
Qed.

(** *** A call, statement by statement *)
#[local] Ltac learn R :=
  match goal with
  | E : ok _ _ _ _ = _ |- _ => apply (ready_ok _ _ _ _ _ _ _ _ _ R) in E; clear R; rename E into R
  | E : user_string _ _ _ = _ |- _ => apply (ready_string _ _ _ _ _ _ _ _ R) in E; clear R; rename E into R
  | E : sockaddr_read _ _ _ = _ |- _ => apply (ready_sockaddr _ _ _ _ _ _ _ _ R) in E; clear R; rename E into R
  | E : addr_ok _ _ _ = _ |- _ => apply (ready_addr _ _ _ _ _ _ _ _ R) in E; clear R; rename E into R
  | E : on_chan _ _ = _ |- _ => apply (ready_chan _ _ _ _ _ _ _ R) in E; clear R; rename E into R
  end.
#[local] Ltac look :=
  match goal with
  | |- sound _ _ (obind _ _) => apply sound_obind; intros ? ?
  | |- sound _ _ (let '(_, _) := ?x in _) => destruct x eqn:?
  | |- sound _ _ (if ?x then _ else _) => destruct x eqn:?
  | |- sound _ _ (match ?x with _ => _ end) => destruct x eqn:?
  end.
#[local] Ltac walk R := repeat first [learn R|look]; try (by apply sound_done); try (by apply sound_done, (ready_same _ _ _ _ _ R)).

Lemma sys_read_sound me c sp fd buf len (k : kernel) : ready me c [] k -> sound me c (sys_read pipes_at me sp fd buf len k).
Proof. intros R. unfold sys_read. walk R. by apply read_go_sound. Qed.
Lemma sys_write_sound me c sp fd buf len (k : kernel) : ready me c [] k -> sound me c (sys_write pipes_at me sp fd buf len k).
Proof. intros R. unfold sys_write. walk R. by apply write_go_sound. Qed.
Lemma sys_bind_sound me c fd a len (k : kernel) : ready me c [] k -> sound me c (sys_bind me fd a len k).
Proof. intros R. unfold sys_bind. walk R. Qed.
Lemma sys_connect_sound me c fd a len (k : kernel) : ready me c [] k -> sound me c (sys_connect me fd a len k).
Proof. intros R. unfold sys_connect. walk R. Qed.
Lemma sys_listen_sound me c fd b (k : kernel) : ready me c [] k -> sound me c (sys_listen me fd b k).
Proof. intros R. unfold sys_listen. walk R. Qed.
Lemma sys_sendto_sound me c fd buf len a al (k : kernel) : ready me c [] k -> sound me c (sys_sendto me fd buf len a al k).
Proof. intros R. unfold sys_sendto. walk R. Qed.
Lemma sys_ioctl_sound me c a b d (k : kernel) : ready me c [] k -> sound me c (sys_ioctl me a b d k).
Proof.
  intros R. unfold sys_ioctl. walk R.
Qed.
Lemma recv_loop_sound me c fuel s buf len a al dl (k : kernel) : ready me c [] k -> sound me c (recv_loop fuel s buf len a al dl k).
Proof.
  revert k. induction fuel as [|fuel IH]; intros k R; cbn [recv_loop]; [done|].
  apply (ready_same _ _ _ _ (set_w (with_channels (net_poll (channels (k_w k))) (k_w k)) k)) in R; [|done..].
  destruct (on_chan _ _) as [r k1] eqn:E. learn R. destruct r as [[[data ip] port]|].
  - by apply sound_done, ready_tell, ready_put_user.
  - destruct (_ <=? _); [by apply sound_done|]. apply IH. by apply (ready_same _ _ _ _ _ R).
Qed.
Lemma sys_recvfrom_sound me c fuel fd buf len a al (k : kernel) : ready me c [] k -> sound me c (sys_recvfrom fuel me fd buf len a al k).
Proof.
  intros R. unfold sys_recvfrom. repeat first [learn R|look]; try (by apply sound_done).
  all: match goal with E : (if _ then _ else _) = (_, ?k2) |- _ =>
    assert (ready me c [] k2) as R2 by (revert E; destruct (_ =? 0); [|by intros [= _ <-]];
      destruct (on_chan _ _) as [r0 k3] eqn:E3; learn R; by intros [= _ <-]) end.
  - by apply sound_done.
  - by apply recv_loop_sound.
Qed.

Lemma sys_socket_sound me c d t (k : kernel) : ready me c [] k -> sound me c (sys_socket pipes_at me d t k).
Proof.
  intros R. unfold sys_socket. destruct (negb _); [by apply sound_done|]. destruct (negb _); [by apply sound_done|].
  destruct (_ && _); [by apply sound_done|]. destruct (if _ =? SOCK_STREAM then _ else _) as [[e f] w] eqn:E.
  assert (ready me c (hold f []) (set_w w k) /\ (e < 0 -> f = None)) as [R1 He].
  { destruct (_ =? SOCK_STREAM).
    - apply file_tcp_made in E as Hm. destruct Hm. split; [|done]. apply made_ready; [done|by eapply file_tcp_well; [apply R|]|done].
    - apply file_udp_made in E as Hm. destruct Hm. split; [|done]. apply made_ready; [done|by eapply file_udp_well; [apply R|]|done]. }
  destruct (Z.ltb_spec e 0) as [Hl|]; [|by apply give_fd_sound]. rewrite (He Hl) in R1. by apply sound_done.
Qed.
Lemma sys_accept_sound me c fd a p (k : kernel) : ready me c [] k -> sound me c (sys_accept pipes_at me fd a p k).
Proof.
  intros R. unfold sys_accept. look. destruct (conn_of _ _) as [l|]; [|by apply sound_done].
  destruct (addr_ok _ _ _) as [b k1] eqn:E1. learn R. destruct (negb b); [by apply sound_done|].
  destruct (on_chan _ _) as [cn k2] eqn:E2. learn R. destruct cn as [cn|]; [|by apply sound_done].
  destruct (file_tcp_adopt _ _) as [[e f] w] eqn:E. apply file_tcp_adopt_made in E as Hm. destruct Hm as [Hs He].
  assert (ready me c (hold f []) (set_w w k2)) as R1 by (apply made_ready; [done|by eapply file_tcp_adopt_well; [apply R|]|done]).
  destruct (Z.ltb_spec e 0) as [Hl|]. { rewrite (He Hl) in R1. by apply sound_done. }
  apply sound_obind. intros [nfd k3] E3. pose proof (fd_alloc_ready me c [] f _ k3 nfd R1 E3) as Hr. destruct (nfd <? 0).
  - subst k3. apply sound_done. by apply close_ready.
  - apply sound_done, ready_tell, Hr.
Qed.
Lemma sys_openat_sound me c b d (k : kernel) : ready me c [] k -> sound me c (sys_openat pipes_at junk me b d k).
Proof.
  intros R. unfold sys_openat. destruct (user_string _ _ _) as [[name|] k1] eqn:E1; learn R; [|by apply sound_done].
  apply sound_obind. intros [[rc f] w] E.
  assert (ready me c (hold f []) (set_w w k1) /\ (rc < 0 -> f = None)) as [R1 Hf].
  { apply file_open_made in E as Hm. destruct Hm as [Hs Hf]. split; [|done]. apply made_ready; [done|by eapply file_open_well; [apply R|]|done]. }
  destruct (Z.ltb_spec rc 0) as [Hl|]; [|by apply give_fd_sound]. rewrite (Hf Hl) in R1. by apply sound_done.
Qed.
Lemma sys_close_sound me c a (k : kernel) : 0 <= a -> ready me c [] k -> sound me c (sys_close pipes_at me a k).
Proof.
  intros Ha R. unfold sys_close. destruct (Z.leb_spec (Z.of_nat NFD) a) as [|Hfd]; [by apply sound_done|].
  apply sound_obind. intros x Ex. rewrite (ready_current _ _ _ _ R) in Ex. injection Ex as <-.
  pose proof (replace_fd me c [] a None k R ltac:(lia)) as R2. destruct (fd_slot _ _) as [i|] eqn:Es; [|by apply sound_done].
  apply sound_done. exact R2.
Qed.
Lemma sys_dup_sound me c a (k : kernel) : ready me c [] k -> sound me c (sys_dup pipes_at me a k).
Proof.
  intros R. unfold sys_dup. apply sound_obind. intros [i|] Ef; [|by apply sound_done]. apply give_fd_sound.
  apply reference_ready; [done|]. intros j [= <-]. by eapply fd_get_held.
Qed.
Lemma sys_dup3_sound me c a b (k : kernel) : 0 <= b -> ready me c [] k -> sound me c (sys_dup3 pipes_at me a b k).
Proof.
  intros Hb R. unfold sys_dup3. apply sound_obind. intros [i|] Ef; [|by apply sound_done].
  destruct (Z.leb_spec (Z.of_nat NFD) b) as [|Hfd]; [by apply sound_done|]. destruct (a =? b); [by apply sound_done|].
  assert (ready me c (hold (Some i) []) (reference (Some i) k)) as R1.
  { apply reference_ready; [done|]. intros j [= <-]. by eapply fd_get_held. }
  apply sound_obind. intros x Ex. rewrite (ready_current _ _ _ _ R1) in Ex. injection Ex as <-.
  apply sound_done. apply replace_fd; [exact R1|lia].
Qed.
Lemma sys_getdents_sound me c a b d (k : kernel) : ready me c [] k -> sound me c (sys_getdents junk me a b d k).
Proof.
  intros R. unfold sys_getdents. destruct (ok _ _ _ _) as [fine k1] eqn:E. learn R. destruct (negb fine); [by apply sound_done|].
  apply sound_obind. intros [i|] Ef; [|by apply sound_done]. apply sound_obind. intros [[r buf] w] Er.
  apply sound_done, ready_put_user. apply (made_ready me c [] None); [done| |by eapply getdents_sched].
  eapply file_getdents_well; [apply R| |exact Er]. by eapply fd_get_held.
Qed.
Lemma sys_path_sound me c nr a b (k : kernel) : ready me c [] k -> sound me c (sys_path junk nr a b k).
Proof. intros R. unfold sys_path. walk R. Qed.

(** *** Two descriptors at once *)
Lemma ready_perm me c e e' (k : kernel) : e ≡ₚ e' -> ready me c e k -> ready me c e' k.
Proof. intros E [T W P]. split; [done..|]. eapply well_perm; [|exact P]. by rewrite E. Qed.
(** A descriptor taken back. *)
Lemma drop_fd me c e fd i (k : kernel) :
  ready me c e k -> (Z.to_nat fd < NFD)%nat -> fd_slot (thread_at k c) fd = Some i -> ready me c (i :: e) (put_fd c fd None k).
Proof.
  intros R Hfd Hs. pose proof R as [T W P]. apply ready_put; [done..|].
  destruct (swap_fd k c fd None) as (rest & E1 & E2); [by eapply ready_lt|by erewrite ready_fd_len|].
  rewrite Hs in E1. cbn [hold] in E1. eapply well_perm; [|exact P]. rewrite E2, E1. cbn. solve_Permutation.
Qed.
Lemma fd_slot_put me c e fd f (k : kernel) :
  ready me c e k -> (Z.to_nat fd < NFD)%nat -> fd_slot (thread_at (put_fd c fd f k) c) fd = f.
Proof.
  intros R Hfd. unfold fd_slot, thread_at, put_fd. cbn [k_w on_sched set_w scheduler with_scheduler].
  rewrite th_upd_eq by (by eapply ready_lt). cbn [t_fd set_fd]. rewrite nth_lookup, list_lookup_insert_eq; [done|].
  by rewrite (ready_fd_len _ _ _ _ R : length (t_fd (th (scheduler (k_w k)) c)) = NFD).
Qed.
Lemma sys_pipe2_sound me c a (k : kernel) : ready me c [] k -> sound me c (sys_pipe2 pipes_at me a k).
Proof.
  intros R. unfold sys_pipe2. destruct (ok _ _ _ _) as [fine k1] eqn:E. learn R. destruct (negb fine); [by apply sound_done|].
  destruct (file_pipe (k_w k1)) as [o w] eqn:Ep. pose proof (file_pipe_sched _ _ _ Ep) as Hs.
  destruct (file_pipe_well _ _ _ _ (rd_p _ _ _ _ R) Ep) as [Hw _].
  destruct o as [[r wr]|]; [|by apply sound_done, (made_ready me c [] None)].
  assert (ready me c [r; wr] (set_w w k1)) as R1.
  { apply (ready_perm _ _ [wr; r]); [solve_Permutation|]. destruct R as [T W P].
    split; unfold sch in *; cbn [k_w set_w]; [by rewrite Hs|by rewrite Hs|]. unfold pool, sch. cbn [k_w set_w]. by rewrite Hs. }
  apply sound_obind. intros [rf k2] E2. pose proof (fd_alloc_ready me c [wr] (Some r) _ k2 rf R1 E2) as Hr.
  destruct (Z.ltb_spec rf 0) as [Hlt|Hge].
  - subst k2. rewrite (proj2 (Z.leb_gt 0 rf)) by lia. cbn [obind orb].
    apply sound_obind. intros x _. apply sound_done. apply (close_ready me c (Some wr)), (close_ready me c (Some r)). exact R1.
  - rewrite (proj2 (Z.leb_le 0 rf)) by lia. destruct Hr as (R2 & Hb & Hfree & ->).
    assert (Z.to_nat rf < NFD)%nat as Hrf by lia.
    apply sound_obind. intros [wf k3] E3. pose proof (fd_alloc_ready me c [] (Some wr) _ k3 wf R2 E3) as Hr.
    cbn [orb]. destruct (wf <? 0).
    + subst k3. apply sound_obind. intros x Ex. rewrite (ready_current _ _ _ _ R2) in Ex. injection Ex as <-. apply sound_done.
      apply (close_ready me c (Some wr)), (close_ready me c (Some r)).
      apply drop_fd; [exact R2|exact Hrf|by eapply fd_slot_put].
    + apply sound_done, ready_put_user, Hr.
Qed.

(** *** Waiting for a child *)
Lemma wait_answer_sound me c b d id st (k : kernel) : ready me c [] k -> sound me c (wait_answer b d id st k).
Proof. intros R. unfold wait_answer. walk R. Qed.
Lemma working_reap s me c : working s me c -> working (thread_reap me s).2 me c.
Proof.
  intros W. unfold thread_reap. pose proof (scan_spec (threads s) (my_id s me) false 0 (n_threads s)) as Hs.
  destruct (scan _ _ _ _ _) as [i|b]; [|done]. destruct Hs as (_ & Hz & _). by apply working_release.
Qed.
Lemma wait_go_sound me c sp b d (k : kernel) : ready me c [] k -> sound me c (wait_go me sp b d k).
Proof.
  intros R. unfold wait_go. destruct (negb _).
  - pose proof (quiet_reap me (sch k) (rd_s _ _ _ _ R)) as Q. pose proof (working_reap (sch k) me c (rd_w _ _ _ _ R)) as W.
    unfold sch in Q, W. destruct (thread_reap me _) as [[id st] s]. apply wait_answer_sound. by eapply (ready_quiet me c [] k).
  - pose proof (quiet_wait me sp c (sch k) (rd_s _ _ _ _ R) (rd_w _ _ _ _ R)) as Q. unfold sch in Q.
    assert (match (thread_wait me sp (scheduler (k_w k))).1 with WaitDone _ _ => working (thread_wait me sp (scheduler (k_w k))).2 me c | _ => True end) as W.
    { unfold thread_wait. pose proof (scan_spec (threads (sch k)) (my_id (sch k) me) false 0 (n_threads (sch k))) as Hs. unfold sch in Hs.
      destruct (scan _ _ _ _ _) as [i|[]]; [destruct Hs as (_ & Hz & _); cbn [fst snd]; apply working_release; [apply R|exact Hz]|by destruct (current _ _)|apply R]. }
    destruct (thread_wait me sp _) as [[id st|] s]; cbn [fst snd] in Q, W.
    + apply wait_answer_sound. by eapply (ready_quiet me c [] k).
    + intros v k' [= <- <-]. split; [|done]. split; [apply Q|]. unfold pool, sch. cbn [k_w set_w].
      rewrite (open_fds_ext (sch k)) by apply Q. apply R.
Qed.
Lemma sys_wait4_sound me c sp b d (k : kernel) : ready me c [] k -> sound me c (sys_wait4 me sp b d k).
Proof.
  intros R. unfold sys_wait4. destruct (b =? 0); [cbn [negb]; by apply wait_go_sound|].
  destruct (ok _ _ _ _) as [fine k1] eqn:E. learn R. destruct (negb fine); [by apply sound_done|by apply wait_go_sound].
Qed.

(** *** Fork *)
Lemma fold_refs l h (k : kernel) :
  well h (k_w k) -> (forall i, Some i ∈ l -> i ∈ h) ->
  let k' := fold_left (fun k f => reference f k) l k in well (omap id l ++ h) (k_w k') /\ sch k' = sch k.
Proof.
  revert h k. induction l as [|[i|] l IH]; intros h k Hw Hin; [done| |].
  - cbn [fold_left]. destruct (IH (i :: h) (reference (Some i) k)) as [Hw' Hs].
    + apply (file_ref_well h (k_w k) i Hw). apply Hin. by left.
    + intros j Hj. right. apply Hin. by right.
    + split; [|by rewrite Hs]. eapply well_perm; [|exact Hw']. cbn. solve_Permutation.
  - cbn [fold_left reference]. apply IH; [done|]. intros j Hj. apply Hin. by right.
Qed.
Lemma ready_memory me c e m (k : kernel) : ready me c e k -> ready me c e (set_m m k).
Proof. intros R. by apply (ready_same _ _ _ _ _ R). Qed.
Lemma do_fork_sound me c f (k : kernel) : ready me c [] k -> sound me c (do_fork ret_to_user me f k).
Proof.
  intros R. unfold do_fork. destruct (copy_space _ _) as [space m]. apply (ready_memory _ _ _ m) in R. set (k1 := set_m m k) in *. clearbody k1. clear k.
  destruct (space =? 0); [by apply sound_done|]. apply sound_obind. intros x Ex.
  rewrite (ready_current _ _ _ _ R) in Ex. injection Ex as <-.
  destruct (thread_fork _ _ _ _ _) as [o s] eqn:E.
  assert (0 < zlen (regs_words f)) as Hz by (unfold regs_words, zlen; rewrite length_app; cbn [length]; lia).
  destruct (fork_tidy _ _ _ _ _ _ _ c (rd_s _ _ _ _ R) (rd_w _ _ _ _ R) Hz E) as (T & W & P). destruct o as [i|].
  - destruct (fold_refs (t_fd (thread_at k1 c)) (open_fds (sch k1)) (set_w (with_scheduler s (k_w k1)) k1)) as [Hw Hs].
    { apply R. }
    { intros j Hj. destruct (open_fds_upd (sch k1) c id (ready_lt _ _ _ _ R)) as (rest & E1 & _). rewrite E1.
      apply elem_of_app. left. apply list_elem_of_omap. by exists (Some j). }
    assert (forall k' : kernel, sch k' = s -> well (omap id (t_fd (thread_at k1 c)) ++ open_fds (sch k1)) (k_w k') -> ready me c [] k') as Hk.
    { intros k' Es Hw'. split; rewrite ?Es; [exact T|exact W|]. unfold pool. rewrite Es. eapply well_perm; [|exact Hw']. by rewrite P. }
    apply sound_done, Hk; [exact Hs|exact Hw].
  - apply sound_done. split; [exact T|exact W|]. unfold pool. eapply well_perm; [|apply R]. cbn [app]. symmetry. exact P.
Qed.

(** *** Exec *)
(** Steps that touch neither the pool nor who holds what. *)
Definition calm (k k' : kernel) : Prop := forall me c e, ready me c e k -> ready me c e k'.
#[local] Instance calm_pre : PreOrder calm.
Proof. split; [by intros k me c e|]. intros x y z A B me c e R. apply B, A, R. Qed.
Lemma calm_memory m (k : kernel) : calm k (set_m m k).
Proof. intros me c e. apply ready_memory. Qed.
Lemma calm_upd i f (k : kernel) :
  (forall t, t_home (f t) = t_home t /\ t_state (f t) = t_state t /\ t_fd (f t) = t_fd t) -> calm k (on_sched (upd i f) k).
Proof.
  intros Hf me c e R. eapply (ready_quiet _ _ _ _ _ R); try done.
  - apply quiet_upd; [apply R|exact Hf].
  - apply working_upd; [apply R|]. intros t. apply Hf.
Qed.
Lemma calm_space c v (k : kernel) : calm k (set_thread_space c v k).
Proof. by apply calm_upd. Qed.
Lemma calm_pages {A} (f : pmm -> A * pmm) (k k' : kernel) a : on_pages f k = (a, k') -> calm k k'.
Proof.
  unfold on_pages. destruct (f _) as [x p]. intros [= _ <-] me c e R. eapply (ready_quiet _ _ _ _ _ R); try done.
  - apply quiet_pages, R.
  - apply working_pages, R.
Qed.
Lemma calm_drop disk (k : kernel) : calm k (drop_disk disk k).
Proof. unfold drop_disk. destruct (_ =? 0); [done|]. destruct (on_pages _ k) as [a k'] eqn:E. by apply calm_pages in E. Qed.
Lemma calm_ok va len w (k k' : kernel) b : ok va len w k = (b, k') -> calm k k'.
Proof. intros E me c e R. by apply (ready_ok _ _ _ _ _ _ _ _ _ R) in E. Qed.
Lemma calm_string va max (k k' : kernel) r : user_string va max k = (r, k') -> calm k k'.
Proof. intros E me c e R. by apply (ready_string _ _ _ _ _ _ _ _ R) in E. Qed.
Lemma args_loop_calm fuel argv argc used acc (k k' : kernel) r : args_loop fuel argv argc used acc k = (r, k') -> calm k k'.
Proof.
  revert argc used acc k. induction fuel as [|fuel IH]; intros argc used acc k; cbn [args_loop].
  all: destruct (ok _ _ _ _) as [b k1] eqn:E1; apply calm_ok in E1; destruct (negb b); [by intros [= _ <-]|].
  - destruct (_ =? 0); by intros [= _ <-].
  - destruct (_ =? 0); [by intros [= _ <-]|]. destruct (user_string _ _ _) as [[l|] k2] eqn:E2; apply calm_string in E2.
    + destruct (_ >? _); [intros [= _ <-]; by etransitivity|]. intros E3. apply IH in E3. do 2 (etransitivity; [eassumption|]). done.
    + intros [= _ <-]. by etransitivity.
Qed.
Lemma exec_args_calm name argv (k k' : kernel) r : exec_args name argv k = (r, k') -> calm k k'.
Proof.
  unfold exec_args. destruct (argv =? 0); [by intros [= _ <-]|]. destruct (args_loop _ _ _ _ _ _) as [r1 k1] eqn:E.
  intros [= _ <-]. by apply args_loop_calm in E.
Qed.
Lemma exec_image_calm name (k k' : kernel) r : exec_image junk name k = Ret (r, k') -> calm k k'.
Proof.
  unfold exec_image. destruct (if zlen _ =? 0 then _ else _) as [[addr len|]| |]; cbn [obind]; [by intros [= _ <-]| |done..].
  destruct (volume (k_w k)) as [g|]; [|by intros [= _ <-]]. destruct (fat_open _ _ _ _) as [[ff|]| |]; cbn [obind]; [|by intros [= _ <-]|done..].
  destruct (_ || _); [by intros [= _ <-]|]. destruct (on_pages _ _) as [p k1] eqn:E. apply calm_pages in E.
  destruct (p =? 0); [by intros [= _ <-]|]. destruct (fat_read _ _ _ _ _) as [got b].
  destruct (negb _); intros [= _ <-]; [|done]. etransitivity; [exact E|apply calm_drop].
Qed.

Lemma do_execve_calm me path argv f (k : kernel) v f' k' : do_execve junk me path argv f k = Ret (v, f', k') -> calm k k'.
Proof.
  unfold do_execve. destruct (_ && _); [by intros [= _ _ <-]|].
  destruct (user_string _ _ _) as [[name|] k1] eqn:E1; apply calm_string in E1; [|by intros [= _ _ <-]].
  destruct (exec_args _ _ _) as [[e|args] k2] eqn:E2; apply exec_args_calm in E2; [intros [= _ _ <-]; by etransitivity|].
  assert (calm k k2) as C2 by (by etransitivity). clear E1 E2 k1.
  destruct (exec_image _ _ _) as [[[e|[img disk]] k3]| |] eqn:E3; cbn [obind]; [| |done..]; apply exec_image_calm in E3;
    assert (calm k k3) as C3 by (by etransitivity); clear C2 E3 k2; [by intros [= _ _ <-]|].
  destruct (thread_current me k3) as [c| |]; cbn [obind]; [|done..].
  destruct (new_space _) as [space m1]. destruct (space =? 0).
  { intros [= _ _ <-]. etransitivity; [exact C3|]. etransitivity; [apply calm_memory|apply calm_drop]. }
  cbv zeta. set (k4 := set_thread_space c space _).
  assert (calm k k4) as C4.
  { etransitivity; [exact C3|]. etransitivity; [apply (calm_memory m1)|]. etransitivity; [apply calm_memory|apply calm_space]. }
  assert (forall (e : Z) (k5 : kernel) t sp, calm k k5 ->
    Ret (e, f, drop_disk disk (set_thread_space c sp (set_m (switch_table t (k_m k5)) k5))) = Ret (v, f', k') -> calm k k') as Hback.
  { intros e k5 t sp C5 [= _ _ <-]. etransitivity; [exact C5|]. etransitivity; [apply calm_memory|].
    etransitivity; [apply calm_space|apply calm_drop]. }
  destruct (elf_load _ _) as [[[[entry manifest]|] m2]| |]; cbn [obind]; [| |done..].
  2: { apply Hback. etransitivity; [exact C4|apply calm_memory]. }
  destruct (take_page _) as [stack m3]. destruct (if stack =? 0 then _ else _) as [mapped m4].
  destruct (negb mapped). { apply Hback. etransitivity; [exact C4|]. etransitivity; [apply (calm_memory m2)|apply calm_memory]. }
  intros [= _ _ <-]. etransitivity; [exact C4|]. etransitivity; [apply (calm_memory m2)|]. etransitivity; [apply (calm_memory m4)|].
  etransitivity; [apply calm_drop|]. etransitivity; [apply calm_space|]. etransitivity; [by apply (calm_upd c (set_sav manifest))|].
  etransitivity; [apply calm_memory|]. by apply calm_upd.
Qed.

(** *** Exit *)
(** Between the two sections of [thread_exit], with [n] descriptors to go. *)
Record leaving (me c : nat) (n : nat) (k : kernel) : Prop := {
  lv_s : tidy_at (Some c) (sch k); lv_c : current (sch k) me = Some c; lv_z : t_state (th (sch k) c) = ZOMBIE;
  lv_p : pool [] k; lv_n i : 0 <= i < Z.of_nat NFD - Z.of_nat n -> fd_slot (thread_at k c) i = None
}.
Lemma leaving_close me c n (k : kernel) :
  (n < NFD)%nat -> leaving me c (S n) k ->
  let i := Z.of_nat NFD - Z.of_nat (S n) in
  leaving me c n (put_fd c i None (close pipes_at (fd_slot (thread_at k c) i) k)).
Proof.
  intros Hn [T C Z P N] i. set (old := fd_slot _ _). set (k2 := close pipes_at old k).
  assert (quiet_at (Some c) (sch k) (sch k2) /\ current (sch k2) me = Some c /\ t_state (th (sch k2) c) = ZOMBIE) as (Q & C2 & Z2).
  { unfold k2. destruct old as [j|]; [|split; [by apply quiet_refl|done]]. unfold sch. cbn [close k_w set_w].
    destruct (file_close_sched pipes_at j (k_w k)) as [-> | [p ->]]; [split; [by apply quiet_refl|done]|].
    split; [by apply quiet_wake_pipe|]. split; [exact C|].
    assert (c < length (threads (sch k)))%nat as Hc by (pose proof (tidy_current _ _ _ _ T C); pose proof (tidy_bound _ _ T); lia).
    unfold thread_wake_pipe. rewrite th_on_all by exact Hc. destruct (_ <? _)%nat; [|exact Z]. cbn [andb].
    unfold is_state. fold (sch k). rewrite Z. cbn. exact Z. }
  pose proof (tidy_current _ _ _ _ (q_tidy _ _ _ Q) C2) as Hcn. pose proof (tidy_bound _ _ (q_tidy _ _ _ Q)) as Hbd.
  assert (t_fd (th (sch k2) c) = t_fd (th (sch k) c)) as Et by (by eapply quiet_fd).
  assert (length (t_fd (th (sch k2) c)) = NFD) as Hlen by (apply (ts_len _ _ (q_tidy _ _ _ Q)); lia).
  split.
  - apply tidy_put; [apply Q|exact Hcn|]. intros Hx. by destruct Hx.
  - exact C2.
  - rewrite <- Z2. by apply (th_keep t_state).
  - destruct (swap_fd k2 c i None) as (rest & E1 & E2); [lia|lia|].
    assert (fd_slot (thread_at k2 c) i = old) as Eo by (unfold fd_slot; by rewrite (Et : t_fd (thread_at k2 c) = _)).
    rewrite Eo, (open_fds_ext (sch k)) in E1 by apply Q. unfold pool. cbn [app hold] in *. eapply well_perm; [symmetry; exact E2|].
    apply close_well. eapply well_perm; [|exact P]. cbn [app]. by rewrite E1.
  - intros j Hj. unfold fd_slot, thread_at, put_fd. cbn [k_w on_sched set_w scheduler with_scheduler]. fold (sch k2).
    rewrite th_upd_eq by lia. cbn [t_fd set_fd]. rewrite nth_lookup. destruct (decide (j = i)) as [->|Hne].
    + rewrite list_lookup_insert_eq by lia. done.
    + rewrite list_lookup_insert_ne by lia. rewrite Et, <- nth_lookup. apply N. lia.
Qed.
Lemma close_all_leaving me c n (k : kernel) :
  (n <= NFD)%nat -> leaving me c n k -> leaving me c 0 (close_all pipes_at c (Z.of_nat NFD - Z.of_nat n) n k).
Proof.
  revert k. induction n as [|n IH]; intros k Hn L; cbn [close_all]; [done|].
  replace (Z.of_nat NFD - Z.of_nat (S n) + 1) with (Z.of_nat NFD - Z.of_nat n) by lia. apply IH; [lia|]. apply leaving_close; [lia|exact L].
Qed.

Lemma exit_mark_leaving me c st (k : kernel) :
  ready me c [] k -> let s := (exit_mark me st (sch k)).2 in
  leaving me c NFD (set_w (with_scheduler s (k_w k)) k).
Proof.
  intros [T W P]. pose proof W as [C Hr Hid]. unfold exit_mark. rewrite C. cbn [snd].
  set (g := fun t => set_space 0 _). pose proof T as [Hi Hb Hl Hg Hs].
  destruct (inv_mark (sch k) me c g Hi W) as [_ Hz]; [done|].
  pose proof (tidy_current _ _ _ _ T C) as Hcn. pose proof (tidy_bound _ _ T) as Hbd.
  assert (forall i, t_fd (th (upd c g (sch k)) i) = t_fd (th (sch k) i)) as Hfd by (intros i; by apply (th_keep t_fd)).
  split; unfold sch; cbn [k_w set_w scheduler with_scheduler]; fold (sch k).
  - split; [by apply Hz| | | |exact Hs].
    + intros k0 i Hk Hne. rewrite th_upd_ne by congruence. by eapply Hb.
    + intros i. rewrite length_upd, Hfd. apply Hl.
    + intros i Hne Hx. rewrite th_upd_ne in * by congruence. by apply Hg.
  - exact C.
  - by rewrite th_upd_eq by lia.
  - unfold pool, sch. cbn [k_w set_w scheduler with_scheduler]. fold (sch k).
    rewrite (open_fds_ext (sch k)); [exact P|]. apply t_fd_ext; [apply length_upd|exact Hfd].
  - intros i Hi0. lia.
Qed.

Lemma slots_none (l : list (option nat)) : (forall i, (i < length l)%nat -> nth i l None = None) -> omap id l = [].
Proof.
  induction l as [|o l IH]; intros Hl; [done|]. pose proof (Hl 0%nat ltac:(cbn; lia)) as Hz. cbn in Hz. subst o. cbn.
  apply IH. intros i Hi. apply (Hl (S i)). cbn. lia.
Qed.
Lemma leaving_tidy me c sp (k : kernel) :
  leaving me c 0 k -> tidy (on_sched (schedule me sp) (on_sched (exit_wake me) k)).
Proof.
  intros [T C Z P N]. set (s1 := exit_wake me (sch k)).
  assert (quiet_at (Some c) (sch k) s1 /\ current s1 me = Some c /\ t_state (th s1 c) = ZOMBIE) as (Q & C1 & Z1).
  { unfold s1, exit_wake. rewrite C. pose proof (tidy_current _ _ _ _ T C). pose proof (tidy_bound _ _ T).
    split; [|split; [exact C|]].
    - apply quiet_on_all; [done|done|]. intros t. rewrite !andb_true_iff, is_state_true. cbn. tauto.
    - rewrite th_on_all by lia. destruct (_ <? _)%nat; [|done]. cbn [andb]. unfold is_state. rewrite Z. cbn.
      by rewrite andb_false_r. }
  pose proof Q as [[Hi Hb Hl Hg Hs] Ef].
  assert (fds (th s1 c) = []) as Hnone.
  { unfold fds. apply slots_none. rewrite (Hl c); [|pose proof (tidy_current _ _ _ _ (q_tidy _ _ _ Q) C1); pose proof (tidy_bound _ _ (q_tidy _ _ _ Q)); lia].
    intros i Hin. specialize (N (Z.of_nat i) ltac:(lia)). unfold fd_slot in N. rewrite Nat2Z.id in N.
    rewrite (quiet_fd _ _ _ c Q). exact N. }
  assert (quiet s1 (schedule me sp s1)) as [T2 E2].
  { unfold schedule. rewrite Hs. apply (quiet_schedule me sp s1 c); [by apply inv_weaken|exact C1| |exact Hl| |exact Hs].
    - intros k0 i Hk Hne. apply (Hb k0); [exact Hk|]. intros [= ->]. apply Hne. by eapply (iv_excl _ _ Hi).
    - intros i Hx. destruct (decide (i = c)) as [->|Hne]; [exact Hnone|]. apply Hg; [congruence|exact Hx]. }
  split; [exact T2|]. apply (pool_ext [] k); [done..| |exact P]. change (open_fds (schedule me sp s1) = open_fds (sch k)).
  transitivity (open_fds s1); by apply open_fds_ext.
Qed.
Lemma leaving_memory me c n m (k : kernel) : leaving me c n k -> leaving me c n (set_m m k).
Proof. intros [T C Z P N]. by split. Qed.
Lemma thread_exit_tidy me c sp st (k k' : kernel) : ready me c [] k -> thread_exit pipes_at me sp st k = Ret k' -> tidy k'.
Proof.
  intros R. unfold thread_exit. rewrite (ready_current _ _ _ _ R). cbn [obind].
  pose proof (exit_mark_leaving me c st k R) as L. unfold sch in L. destruct (exit_mark me st _) as [space s]. cbn [snd] in L.
  apply (close_all_leaving me c NFD) in L; [|done]. rewrite Z.sub_diag in L.
  intros <-%ret_inj. apply (leaving_tidy me c).
  destruct (space =? 0); [exact L|by apply leaving_memory].
Qed.

(** *** The trap *)
Definition trap_tidy (me c : nat) (r : trap) (k' : kernel) : Prop :=
  tidy k' /\ match r with Back _ => working (sch k') me c | _ => True end.

Lemma calm_thread t t' c (k : kernel) :
  thread_at k c = t -> t_home t' = t_home t -> t_state t' = t_state t -> t_fd t' = t_fd t -> calm k (on_sched (upd c (fun _ => t')) k).
Proof.
  intros Et E1 E2 E3 me c0 e R. assert (forall (A : Type) (g : thread -> A), g t' = g t -> forall j, g (th (upd c (fun _ => t') (sch k)) j) = g (th (sch k) j)) as Hk.
  { intros A g Hg j. rewrite th_upd. case_bool_decide as E; [|done]. destruct E as [-> _]. rewrite Hg, <- Et. done. }
  pose proof R as [T W P]. pose proof T as [Hi Hb Hl Hg Hs].
  assert (quiet (sch k) (upd c (fun _ => t') (sch k))) as Q.
  { apply quiet_pointwise; [done| |apply length_upd|done|done|by apply (Hk _ t_fd)| |].
    - eapply inv_benign; [exact Hi|apply length_upd|done|split; [done|apply Hi]|done|..].
      + intros i Hin. rewrite (Hk _ t_state E2). intros Hr. by split.
      + intros k0 i _. rewrite (Hk _ t_home E1), (Hk _ t_state E2). auto.
      + intros k0 i j _ _ _ _ Hx. rewrite (Hk _ t_home E1), (Hk _ t_state E2). auto.
    - intros i. unfold gone. by rewrite (Hk _ t_state E2).
    - intros k0 i Hc _. rewrite (Hk _ t_state E2). by eapply Hb. }
  eapply (ready_quiet _ _ _ _ _ R); [exact Q| |done..].
  destruct W as [C Hr Hid]. split; [exact C| |exact Hid].
  change (t_state (th (upd c (fun _ => t') (sch k)) c0) = RUNNING). by rewrite (Hk _ t_state E2 c0).
Qed.
Lemma sig_action_thread sig h r m t (mm : M) v t' m' : sig_action sig h r m t mm = (v, t', m') ->
  t_home t' = t_home t /\ t_state t' = t_state t /\ t_fd t' = t_fd t.
Proof.
  unfold sig_action. destruct (_ || _); [by intros [= _ <- _]|]. destruct (_ =? _); [by intros [= _ <- _]|].
  destruct (1 <? h); [|by intros [= _ <- _]]. destruct (user_ok h _ _ _) as [b1 m1]. destruct (negb b1); [by intros [= _ <- _]|].
  destruct (r =? 0); [by intros [= _ <- _]|]. destruct (user_ok r _ _ _) as [b2 m2]. destruct (negb b2); by intros [= _ <- _].
Qed.
Lemma sig_return_thread t f (m : M) v t' f' m' : sig_return t f m = (v, t', f', m') ->
  t_home t' = t_home t /\ t_state t' = t_state t /\ t_fd t' = t_fd t.
Proof.
  unfold sig_return. destruct (user_ok _ _ _ m) as [b1 m1]. destruct (negb b1); [by intros [= _ <- _ _]|].
  destruct (negb _); [by intros [= _ <- _ _]|]. destruct (user_ok _ _ _ m1) as [b2 m2]. destruct (negb b2); by intros [= _ <- _ _].
Qed.
Lemma sig_deliver_thread sig t f (m : M) v t' f' m' : sig_deliver sig t f m = (v, t', f', m') ->
  t_home t' = t_home t /\ t_state t' = t_state t /\ t_fd t' = t_fd t.
Proof.
  unfold sig_deliver. destruct (_ =? 1); [by intros [= _ <- _ _]|]. destruct (_ =? 0); [by intros [= _ <- _ _]|].
  destruct (user_ok _ _ _ m) as [b1 m1]. destruct (negb b1); by intros [= _ <- _ _].
Qed.

Definition frame_sound (me c : nat) (r : outcome (sysret * regs * kernel)) : Prop :=
  forall v f k', r = Ret (v, f, k') -> tidy k' /\ match v with Sys _ => working (sch k') me c | _ => True end.
Lemma with_frame_sound me c f r : sound me c r -> frame_sound me c (with_frame f r).
Proof.
  intros Hr v f' k' E. unfold with_frame in E. destruct r as [[v1 k1]| |]; cbn [obind] in E; [|done..].
  injection E as <- <- <-. by apply (Hr v1 k1).
Qed.
Lemma ready_tidy me c (k : kernel) : ready me c [] k -> tidy k /\ working (sch k) me c.
Proof. by intros [T W P]. Qed.
Lemma do_syscall_sound fuel me c sp nr a b d f (k : kernel) :
  ready me c [] k -> 0 <= a -> 0 <= b ->
  frame_sound me c (do_syscall pipes_at ret_to_user junk fuel me sp nr a b d f k).
Proof.
  intros R Ha Hb. unfold do_syscall.
  repeat match goal with |- frame_sound _ _ (if ?b then _ else _) => destruct b end.
  all: try (apply with_frame_sound; first
    [ by apply sys_read_sound | by apply sys_write_sound | by apply sys_wait4_sound | by apply sys_socket_sound | by apply sys_bind_sound
    | by apply sys_connect_sound | by apply sys_listen_sound | by apply sys_accept_sound | by apply sys_sendto_sound
    | by apply sys_recvfrom_sound | by apply sys_ioctl_sound | by apply sys_close_sound | by apply sys_dup_sound | by apply sys_dup3_sound
    | by apply sys_openat_sound | by apply sys_pipe2_sound | by apply sys_getdents_sound | by apply sys_path_sound | by apply do_fork_sound
    | by apply sound_done ]).
  - apply with_frame_sound. destruct (negb _); [by apply sound_done|by apply sys_accept_sound].
  - intros v f' k' E. destruct (do_execve _ _ _ _ _ _) as [[[x f1] k1]| |] eqn:E1; cbn [obind] in E; [|done..].
    injection E as <- <- <-. apply ready_tidy. eapply do_execve_calm; eauto.
  - apply with_frame_sound. walk R.
  - destruct (thread_signal _ _ _) as [n s] eqn:E. apply with_frame_sound, sound_done.
    eapply (ready_quiet _ _ _ _ _ R); try done.
    + change s with (n, s).2. rewrite <- E. apply quiet_signal, R.
    + change (working (n, s).2 me c). rewrite <- E. apply working_signal, R.
  - destruct (thread_setpgid _ _ _ _) as [n s] eqn:E. apply with_frame_sound, sound_done.
    eapply (ready_quiet _ _ _ _ _ R); try done.
    + change s with (n, s).2. rewrite <- E. apply quiet_setpgid, R.
    + change (working (n, s).2 me c). rewrite <- E. unfold thread_setpgid. destruct (named _ _ _); [|apply R]. by apply working_upd; [apply R|].
  - rewrite (ready_current _ _ _ _ R). cbn [obind]. destruct (sig_action _ _ _ _ _ _) as [[r t'] m] eqn:E.
    apply sig_action_thread in E as (E1 & E2 & E3). apply with_frame_sound, sound_done.
    apply (calm_thread (thread_at (set_m m k) c)); [done..|]. by apply ready_memory.
  - rewrite (ready_current _ _ _ _ R). cbn [obind]. destruct (sig_return _ _ _) as [[[r t'] f1] m] eqn:E.
    apply sig_return_thread in E as (E1 & E2 & E3). intros v f2 k' [= <- <- <-]. apply ready_tidy.
    apply (calm_thread (thread_at (set_m m k) c)); [done..|]. by apply ready_memory.
  - intros v f' k' E. destruct (thread_exit _ _ _ _ _) as [k1| |] eqn:E1; cbn [obind] in E; [|done..].
    injection E as <- <- <-. split; [|done]. by eapply thread_exit_tidy.
Qed.

Definition trap_sound (me c : nat) (o : outcome (trap * kernel)) : Prop :=
  forall r k', o = Ret (r, k') -> trap_tidy me c r k'.
Lemma ready_of (k : kernel) me c : tidy k -> working (sch k) me c -> ready me c [] k.
Proof. by intros [T P] W. Qed.
Lemma dead_sound me c sp st (k : kernel) :
  ready me c [] k -> trap_sound me c (let! k := thread_exit pipes_at me sp st k in Ret (Dead, k)).
Proof.
  intros R r k' E. destruct (thread_exit _ _ _ _ _) as [k1| |] eqn:E1; cbn [obind] in E; [|done..].
  injection E as <- <-. split; [|done]. by eapply thread_exit_tidy.
Qed.
Lemma back_sound me c f (k : kernel) : ready me c [] k -> trap_sound me c (Ret (Back f, k)).
Proof. intros R r k' [= <- <-]. by destruct (ready_tidy _ _ _ R). Qed.
Lemma after_call_sound me c sp v f (k : kernel) : ready me c [] k -> trap_sound me c (after_call pipes_at me sp v f k).
Proof.
  intros R. unfold after_call. rewrite (ready_current _ _ _ _ R). cbn [obind].
  destruct (_ =? 0); [by apply back_sound|]. destruct (sig_deliver _ _ _ _) as [[[d t] f1] m] eqn:E.
  apply sig_deliver_thread in E as (E1 & E2 & E3).
  assert (ready me c [] (on_sched (upd c (fun _ => t)) (set_m m k))) as R1
    by (apply (calm_thread (thread_at (set_m m k) c)); [done..|]; by apply ready_memory).
  destruct (negb _); [by apply back_sound|by apply dead_sound].
Qed.
Lemma after_sound me c sp o : frame_sound me c o -> trap_sound me c (after pipes_at me sp o).
Proof.
  intros Ho r k' E. unfold after in E. destruct o as [[[v f] k1]| |]; cbn [obind] in E; [|done..].
  destruct (Ho v f k1 eq_refl) as [T W]. destruct v as [v|w|].
  - exact (after_call_sound me c sp v f k1 (ready_of _ _ _ T W) r k' E).
  - by injection E as <- <-.
  - by injection E as <- <-.
Qed.
Lemma handle_user_sync_sound fuel me c sp esr far f (k : kernel) :
  ready me c [] k -> regs_ok f -> trap_sound me c (handle_user_sync pipes_at ret_to_user junk fuel me sp esr far f k).
Proof.
  intros R Hf. unfold handle_user_sync. destruct (_ =? 21).
  - destruct (match current _ _ with Some c => _ | None => false end); [by apply dead_sound|].
    apply after_sound, do_syscall_sound; [done|by apply regs_ok_nth..].
  - destruct (_ && _).
    + destruct (cow_fault far (k_m k)) as [b m]. destruct b; [by apply back_sound, ready_memory|by apply dead_sound, ready_memory].
    + by apply dead_sound.
Qed.
Lemma resume_sound me c sp w (k : kernel) : ready me c [] k -> sound me c (resume pipes_at me sp w k).
Proof.
  intros R. destruct w as [f buf len|f buf len n|b d]; cbn [resume];
    [by apply read_go_sound|by apply write_go_sound|by apply wait_go_sound].
Qed.
Lemma continue_sound me c sp w f (k : kernel) : ready me c [] k -> trap_sound me c (continue pipes_at me sp w f k).
Proof. intros R. by apply after_sound, with_frame_sound, resume_sound. Qed.

(** *** The machine's runs *)
Lemma ready_console me c fd (k : kernel) :
  ready me c [] k -> (Z.to_nat fd < NFD)%nat -> fd_slot (thread_at k c) fd = None ->
  ready me c [] (let '(f, w) := file_console (k_w k) in put_fd c fd f (set_w w k)).
Proof.
  intros R Hfd Hs. destruct (file_console (k_w k)) as [o w] eqn:E. pose proof (file_console_sched _ _ _ E) as Es.
  assert (ready me c (hold o []) (set_w w k)) as R1 by (apply made_ready; [done|by eapply file_console_well; [apply R|]|done]).
  apply take_fd; [exact R1|done|]. rewrite <- Hs. unfold fd_slot, thread_at. cbn [k_w set_w]. by rewrite Es.
Qed.
Lemma open_stdio_ready me c (k k' : kernel) : ready me c [] k -> syscall_open_stdio me k = Ret k' -> ready me c [] k'.
Proof.
  intros R. unfold syscall_open_stdio. rewrite (ready_current _ _ _ _ R). cbn [obind]. intros <-%ret_inj.
  assert (Forall (fun i => (Z.to_nat i < NFD)%nat) [0; 1; 2]) as Hl by (unfold NFD; repeat constructor; lia).
  revert k R Hl. generalize [0; 1; 2]. intros l. induction l as [|i l IH]; intros k R Hl; [done|]. inversion_clear Hl.
  cbn [fold_left]. apply IH; [|done]. destruct (fd_slot _ i) eqn:Es; [done|]. by apply ready_console.
Qed.

(** What the scheduler does besides the calls: [main] and the kernel's own
    threads create threads, wait for them and collect them; a processor comes
    up; the timer preempts; the console's interrupt wakes and signals. *)
Inductive sched_move (ep : Z) : sched -> sched -> Prop :=
  | sm_tick n s : ticks s <= n -> sched_move ep s (with_ticks n s)
  | sm_create me name fn arg s : sched_move ep s (thread_create ep me name fn arg s).2
  | sm_cpu_init me name s : current s me = None -> (me < length (cpus s))%nat -> sched_move ep s (sched_cpu_init me name s)
  | sm_schedule me sp c s : current s me = Some c -> sched_move ep s (schedule me sp s)
  | sm_console s : sched_move ep s (thread_wake_console s)
  | sm_signal pid sig s : sched_move ep s (thread_signal pid sig s).2
  | sm_reap me s : sched_move ep s (thread_reap me s).2
  | sm_wait me sp c s : working s me c -> sched_move ep s (thread_wait me sp s).2.

Lemma quiet_moves s s' : quiet s s' -> tidy_sched s' /\ open_fds s' ≡ₚ open_fds s.
Proof. intros [T E]. split; [done|]. by rewrite (open_fds_ext s s'). Qed.
Lemma sched_move_tidy ep s s' : tidy_sched s -> sched_move ep s s' -> tidy_sched s' /\ open_fds s' ≡ₚ open_fds s.
Proof.
  intros T Hm. revert T. destruct Hm as [n s1 Hn|me name fn arg s1|me name s1 Hc Hl|me sp c s1 Hc|s1|pid sig s1|me s1|me sp c s1 W]; intros T.
  - apply quiet_moves, quiet_pointwise; try done; [|apply T].
    eapply (step_inv ep); [apply T|]. by constructor.
  - by apply create_tidy.
  - by apply cpu_init_tidy.
  - by eapply quiet_moves, quiet_schedule_now.
  - by apply quiet_moves, quiet_wake_console.
  - by apply quiet_moves, quiet_signal.
  - by apply quiet_moves, quiet_reap.
  - by eapply quiet_moves, quiet_wait.
Qed.

(** One thing the machine does: a program traps; a call that slept goes on; a
    kernel thread exits, or opens the first three descriptors of a program; the
    scheduler moves; or memory, devices and disks change and neither the
    threads nor the pool. *)
Inductive machine_step (ep : Z) : kernel -> kernel -> Prop :=
  | ms_trap fuel me c sp esr far f (k : kernel) r k' :
      working (sch k) me c -> regs_ok f ->
      handle_user_sync pipes_at ret_to_user junk fuel me sp esr far f k = Ret (r, k') -> machine_step ep k k'
  | ms_woken me c sp wt f (k : kernel) r k' :
      working (sch k) me c -> continue pipes_at me sp wt f k = Ret (r, k') -> machine_step ep k k'
  | ms_exit me c sp st (k k' : kernel) :
      working (sch k) me c -> thread_exit pipes_at me sp st k = Ret k' -> machine_step ep k k'
  | ms_stdio me c (k k' : kernel) :
      working (sch k) me c -> syscall_open_stdio me k = Ret k' -> machine_step ep k k'
  | ms_sched s' (k : kernel) :
      sched_move ep (sch k) s' -> machine_step ep k (on_sched (fun _ => s') k)
  | ms_rest (k k' : kernel) :
      sch k' = sch k -> files (k_w k') = files (k_w k) -> pipes (k_w k') = pipes (k_w k) ->
      console_file (k_w k') = console_file (k_w k) -> machine_step ep k k'.

Lemma machine_step_tidy ep (k k' : kernel) : machine_step ep k k' -> tidy k -> tidy k'.
Proof.
  intros Hs. destruct Hs as [fuel me c sp esr far f k r k' W Hf E|me c sp wt f k r k' W E|me c sp st k k' W E|me c k k' W E|s' k Hm|k k' E0 E1 E2 E3]; intros T.
  - by apply (handle_user_sync_sound fuel me c sp esr far f k (ready_of _ _ _ T W) Hf r k' E).
  - by apply (continue_sound me c sp wt f k (ready_of _ _ _ T W) r k' E).
  - by apply (thread_exit_tidy me c sp st k k' (ready_of _ _ _ T W) E).
  - by apply (ready_tidy me c), (open_stdio_ready me c k k' (ready_of _ _ _ T W) E).
  - destruct T as [T P]. destruct (sched_move_tidy ep _ _ T Hm) as [T' E]. split; [exact T'|].
    unfold pool in *. eapply well_perm; [|exact P]. cbn. by rewrite E.
  - destruct T as [T P]. split; [by rewrite E0|]. eapply pool_ext; try done. by rewrite E0.
Qed.

(** Some descriptor of some thread is object [i]. *)
Definition named_by (k : kernel) (i : nat) : Prop := exists t fd, fd_slot (thread_at k t) fd = Some i.
Lemma named_open (k : kernel) i : named_by k i <-> i ∈ open_fds (sch k).
Proof.
  split.
  - intros (t & fd & E). apply (slot_held k t fd); [|done]. destruct (decide (t < length (threads (sch k)))%nat) as [|Hn]; [done|].
    unfold fd_slot, thread_at in E. fold (sch k) in E. rewrite th_beyond in E by lia.
    change (t_fd zero_thread) with (replicate NFD (@None nat)) in E. rewrite nth_lookup in E. destruct (replicate NFD None !! Z.to_nat fd) eqn:El; [|done].
    apply lookup_replicate in El as [-> _]. done.
  - unfold open_fds. intros (t & Hi & Ht)%list_elem_of_bind. apply list_elem_of_lookup in Ht as [j Hj].
    unfold fds in Hi. apply list_elem_of_omap in Hi as (o & Ho & Hoi). apply list_elem_of_lookup in Ho as [n Hn].
    exists j, (Z.of_nat n). assert (th (sch k) j = t) as Et by (unfold th; by rewrite nth_lookup, Hj).
    unfold fd_slot, thread_at. fold (sch k). rewrite Et, Nat2Z.id, nth_lookup, Hn. exact Hoi.
Qed.

End kernel.

(** ** A run *)
Definition booted_machine : machine := Kernel (world0 boot16) (Flat ∅ 0x400000 0x600000 0x500000) 0.
Abbreviation mstep := (machine_step (D := ramdisk) (K := unit) (M := flat) 0 0 [] 0).
Definition on_boot (s : sched) : machine := Kernel (world0 s) (Flat ∅ 0x400000 0x600000 0x500000) 0.
Lemma move_step s s' : sched_move 0 s s' -> mstep (on_boot s) (on_boot s').
Proof. intros Hm. exact (ms_sched 0 0 [] 0 s' (on_boot s) Hm). Qed.
Lemma machine0_reached : rtc mstep booted_machine machine0.
Proof.
  change booted_machine with (on_boot boot16). change machine0 with (on_boot two_programs). unfold two_programs.
  eapply rtc_l; [apply move_step, (sm_create 0 0 "reader" 0 0)|].
  eapply rtc_l; [apply move_step, (sm_create 0 0 "writer" 0 0)|].
  eapply rtc_l; [apply move_step, (sm_schedule 0 0 0 0); vm_compute; reflexivity|].
  apply rtc_once, move_step, (sm_schedule 0 0 0 1). vm_compute. reflexivity.
Qed.

Definition first_works (k : machine) : Prop :=
  current (sch k) 0 = Some 2%nat /\ t_state (th (sch k) 2) = RUNNING /\ idle (cpu_of (sch k) 0) = Some 1%nat.
Definition has_left (a : trap) (k : machine) : Prop :=
  a = Dead /\ t_state (thread_at k 2) = ZOMBIE /\ f_kind (file_at (k_w k) 0) = FILE_FREE.
Definition has_both (a : trap) (k : machine) : Prop :=
  first_works k /\ open_fds (sch k) = [0; 1; 0]%nat /\ f_pipe (file_at (k_w k) 0) = Some 0%nat
  /\ runs (trap_on SYS_EXIT 3 0 0 k) has_left.
Definition has_pipe (a : trap) (k : machine) : Prop := first_works k /\ runs (trap_on SYS_DUP 0 0 0 k) has_both.
Lemma fds_demo : first_works machine0 /\ runs (trap_on SYS_PIPE2 0x500000 0 0 machine0) has_pipe.
Proof. vm_compute. repeat split. Qed.

Lemma booted_sched : sch booted_machine = boot16.
Proof. unfold sch, booted_machine, world0. cbn [k_w scheduler]. reflexivity. Qed.
Lemma booted_cold : FileRun.cold (k_w booted_machine).
Proof. exact (world0_cold boot16). Qed.
Lemma works_working k : first_works k -> working (sch k) 0 2.
Proof. intros (? & ? & Hi). split; [done..|]. by rewrite Hi. Qed.
Lemma trap_step nr a b c k r k' :
  first_works k -> Forall (fun x => 0 <= x < 2 ^ 64) [nr; a; b; c] -> trap_on nr a b c k = Ret (r, k') -> mstep k k'.
Proof.
  intros Hw Hn E. rewrite trap_on_sync in E. refine (ms_trap 0 0 [] 0 _ _ _ _ _ _ _ _ _ _ (works_working _ Hw) _ E).
  inversion_clear Hn as [|? ? N1 Hn1]. inversion_clear Hn1 as [|? ? N2 Hn2]. inversion_clear Hn2 as [|? ? N3 Hn3]. inversion_clear Hn3 as [|? ? N4 _].
  split; [done|]. unfold regs_words, call_regs, reg_ok. cbn. repeat constructor; lia.
Qed.

