(* ===== verification/SavTypes.v ===== *)
(** * The sav compiler's types, capabilities and tree

    [sav/src/sav.h] and [sav/src/types.c].  A [Type *] is the type it points
    to; a pointer to a function or a global is its place in the unit's list.
    The parser's positions are kept where the code generator uses them. *)
From stdpp Require Import strings.
From S2P Require Import Prelude.
Open Scope Z_scope.

(** ** Tokens *)
Inductive tokkind :=
  | T_EOF | T_IDENT | T_INT | T_STR | T_CHAR
  | T_LPAREN | T_RPAREN | T_LBRACE | T_RBRACE | T_LBRACK | T_RBRACK
  | T_COMMA | T_SEMI | T_COLON | T_DOT | T_DOTDOT | T_ARROW
  | T_PLUS | T_MINUS | T_STAR | T_SLASH | T_PERCENT
  | T_AMP | T_PIPE | T_CARET | T_TILDE | T_BANG
  | T_SHL | T_SHR
  | T_LT | T_LE | T_GT | T_GE | T_EQEQ | T_NE
  | T_ANDAND | T_OROR
  | T_ASSIGN | T_PLUSEQ | T_MINUSEQ | T_AT
  | T_FN | T_ENTRY | T_STRUCT | T_CONST | T_VAR | T_LET | T_IF | T_ELSE | T_WHILE
  | T_FOR | T_IN | T_RETURN | T_BREAK | T_CONTINUE | T_NEEDS | T_GIVES
  | T_ASSERT | T_AS | T_DEV | T_TRUE | T_FALSE | T_SIZE | T_USE | T_ENUM | T_MATCH.

Definition tok_list : list tokkind :=
  [T_EOF; T_IDENT; T_INT; T_STR; T_CHAR; T_LPAREN; T_RPAREN; T_LBRACE; T_RBRACE; T_LBRACK; T_RBRACK;
   T_COMMA; T_SEMI; T_COLON; T_DOT; T_DOTDOT; T_ARROW; T_PLUS; T_MINUS; T_STAR; T_SLASH; T_PERCENT;
   T_AMP; T_PIPE; T_CARET; T_TILDE; T_BANG; T_SHL; T_SHR; T_LT; T_LE; T_GT; T_GE; T_EQEQ; T_NE;
   T_ANDAND; T_OROR; T_ASSIGN; T_PLUSEQ; T_MINUSEQ; T_AT;
   T_FN; T_ENTRY; T_STRUCT; T_CONST; T_VAR; T_LET; T_IF; T_ELSE; T_WHILE; T_FOR; T_IN; T_RETURN;
   T_BREAK; T_CONTINUE; T_NEEDS; T_GIVES; T_ASSERT; T_AS; T_DEV; T_TRUE; T_FALSE; T_SIZE; T_USE; T_ENUM; T_MATCH].
(** The enumeration's numbers. *)
Definition tok_code (k : tokkind) : nat :=
  match k with
  | T_EOF => 0 | T_IDENT => 1 | T_INT => 2 | T_STR => 3 | T_CHAR => 4
  | T_LPAREN => 5 | T_RPAREN => 6 | T_LBRACE => 7 | T_RBRACE => 8 | T_LBRACK => 9 | T_RBRACK => 10
  | T_COMMA => 11 | T_SEMI => 12 | T_COLON => 13 | T_DOT => 14 | T_DOTDOT => 15 | T_ARROW => 16
  | T_PLUS => 17 | T_MINUS => 18 | T_STAR => 19 | T_SLASH => 20 | T_PERCENT => 21
  | T_AMP => 22 | T_PIPE => 23 | T_CARET => 24 | T_TILDE => 25 | T_BANG => 26
  | T_SHL => 27 | T_SHR => 28
  | T_LT => 29 | T_LE => 30 | T_GT => 31 | T_GE => 32 | T_EQEQ => 33 | T_NE => 34
  | T_ANDAND => 35 | T_OROR => 36
  | T_ASSIGN => 37 | T_PLUSEQ => 38 | T_MINUSEQ => 39 | T_AT => 40
  | T_FN => 41 | T_ENTRY => 42 | T_STRUCT => 43 | T_CONST => 44 | T_VAR => 45 | T_LET => 46 | T_IF => 47 | T_ELSE => 48
  | T_WHILE => 49 | T_FOR => 50 | T_IN => 51 | T_RETURN => 52 | T_BREAK => 53 | T_CONTINUE => 54 | T_NEEDS => 55
  | T_GIVES => 56 | T_ASSERT => 57 | T_AS => 58 | T_DEV => 59 | T_TRUE => 60 | T_FALSE => 61 | T_SIZE => 62
  | T_USE => 63 | T_ENUM => 64 | T_MATCH => 65
  end%nat.
Lemma tok_code_list k : tok_list !! tok_code k = Some k.
Proof. by destruct k. Qed.
#[global] Instance tokkind_eq_dec : EqDecision tokkind.
Proof.
  intros a b. destruct (decide (tok_code a = tok_code b)) as [E|E]; [left|right; congruence].
  pose proof (tok_code_list a) as Ha. rewrite E, tok_code_list in Ha. by injection Ha.
Defined.
Definition is_op (a b : tokkind) : bool := (tok_code a =? tok_code b)%nat.
Lemma is_op_true a b : is_op a b = true <-> a = b.
Proof.
  unfold is_op. rewrite Nat.eqb_eq. split; [|by intros ->]. intros E.
  pose proof (tok_code_list a) as Ha. rewrite E, tok_code_list in Ha. by injection Ha.
Qed.

(** ** Types

    A field is its name, its type and its offset; a variant its name and
    fields, its place in the list being its index. *)
Inductive width := W8 | W16 | W32 | W64.
(** The [bits] of an integer: those of the eight types the parser names. *)
Definition wbits (w : width) : Z := match w with W8 => 8 | W16 => 16 | W32 => 32 | W64 => 64 end.
Coercion wbits : width >-> Z.
Inductive ty :=
  | TyVoid
  | TyBool
  | TyInt (bits : width) (is_signed : bool)
  | TyPtr (elem : ty) (is_dev : bool)
  | TySlice (elem : ty)
  | TyArray (elem : ty) (nelem : Z)
  | TyStruct (name : string) (fields : list (string * ty * Z)) (size align : Z)
  | TyEnum (name : string) (variants : list (string * list (string * ty * Z))) (size : Z)
  | TyCap (cap_id : nat).
Abbreviation field := (string * ty * Z)%type.
Abbreviation variant := (string * list field)%type.
Definition fd_name (f : field) : string := f.1.1.
Definition fd_type (f : field) : ty := f.1.2.
Definition fd_off (f : field) : Z := f.2.

(** [t->size] and [t->align], as the makers of a type set them. *)
Fixpoint ty_size (t : ty) : Z :=
  match t with
  | TyVoid => 0
  | TyBool => 1
  | TyInt bits _ => bits / 8
  | TyPtr _ _ => 8
  | TySlice _ => 16
  | TyArray e n => i32 (ty_size e * n)
  | TyStruct _ _ size _ => size
  | TyEnum _ _ size => size
  | TyCap _ => 8
  end.
Fixpoint ty_align (t : ty) : Z :=
  match t with
  | TyVoid | TyBool => 1
  | TyInt bits _ => bits / 8
  | TyPtr _ _ | TySlice _ | TyCap _ => 8
  | TyArray e _ => ty_align e
  | TyStruct _ _ _ align => align
  | TyEnum _ _ _ => 8
  end.

Definition ty_is_int (t : ty) : bool := match t with TyInt _ _ => true | _ => false end.
Definition int_bits (t : ty) : Z := match t with TyInt b _ => b | _ => 0 end.

Fixpoint ty_same (a b : ty) : bool :=
  match a, b with
  | TyVoid, TyVoid | TyBool, TyBool => true
  | TyInt n s, TyInt n' s' => ((n : Z) =? n') && Bool.eqb s s'
  | TyPtr e d, TyPtr e' d' => Bool.eqb d d' && ty_same e e'
  | TySlice e, TySlice e' => ty_same e e'
  | TyArray e n, TyArray e' n' => (n =? n') && ty_same e e'
  | TyStruct s _ _ _, TyStruct s' _ _ _ => (s =? s')%string
  | TyEnum s _ _, TyEnum s' _ _ => (s =? s')%string
  | TyCap i, TyCap i' => (i =? i')%nat
  | _, _ => false
  end.

Abbreviation I64 := (TyInt W64 true).
Abbreviation U8 := (TyInt W8 false).

(** ** Capabilities *)
Record cap_method := CapMethod { m_name : string; m_sysno : Z; m_sig : list Ascii.ascii; m_ret : Ascii.ascii; m_fixed : Z }.
Record cap_def := CapDef { d_name : string; d_methods : list cap_method }.
(** The letters of a method's shape. *)
Definition ch_s : Ascii.ascii := Ascii.ascii_of_nat 115.
Definition ch_i : Ascii.ascii := Ascii.ascii_of_nat 105.

Definition cap_defs : list cap_def := [
  CapDef "Console" [CapMethod "write" 64 [ch_s] ch_i 1; CapMethod "error" 64 [ch_s] ch_i 2; CapMethod "read" 63 [ch_s] ch_i 0];
  CapDef "Args" [CapMethod "count" 0 [] ch_i (-1); CapMethod "get" 0 [ch_i] ch_s (-1)];
  CapDef "Files" [CapMethod "open" 56 [ch_s; ch_i] ch_i (-1); CapMethod "read" 63 [ch_i; ch_s] ch_i (-1);
                  CapMethod "write" 64 [ch_i; ch_s] ch_i (-1); CapMethod "close" 57 [ch_i] ch_i (-1)];
  CapDef "Proc" [CapMethod "pid" 172 [] ch_i (-1)]
].
Definition no_cap : cap_def := CapDef "" [].
Definition cap_of (i : nat) : cap_def := nth i cap_defs no_cap.
Fixpoint cap_index (name : string) (l : list cap_def) (i : nat) : option nat :=
  match l with
  | [] => None
  | d :: l => if (d_name d =? name)%string then Some i else cap_index name l (S i)
  end.
Definition cap_by_name (name : string) : option nat := cap_index name cap_defs 0.

(** ** Symbols *)
Inductive symkind := SYM_LOCAL | SYM_PARAM | SYM_GLOBAL | SYM_CONST | SYM_RESULT.
(** [y_at]: for a global, its place in the unit's list. *)
Record sym := Sym { y_kind : symkind; y_name : string; y_type : ty; y_offset : Z; y_cval : Z; y_reg : Z; y_at : nat }.

(** ** Expressions

    [expr]: the line, the type, whether it is an lvalue, and the rest by kind.
    A type that is not filled in yet is [TyVoid].  [a += b] is in the parser
    an assignment whose right side is a sum over the very node [a]: it is
    [E_UPDATE] here, so that the node stays one; the sum's own type is in it. *)
Inductive ekind (X : Type) :=
  | E_INT (ival : Z)
  | E_BOOL (ival : Z)
  | E_STR (str : list Z)
  | E_SIZE
  | E_VAR (name : string) (s : option sym)
  | E_CALL (name : string) (args : list X) (fn : option nat) (temp_off : Z)
  | E_METHOD (a : X) (name : string) (args : list X) (m : option cap_method)
  | E_UNARY (op : tokkind) (a : X)
  | E_BINARY (op : tokkind) (a b : X)
  | E_INDEX (a b : X)
  | E_FIELD (a : X) (name : string) (f : option field)
  | E_CAST (a : X)
  | E_ASSIGN (a b : X)
  | E_UPDATE (op : tokkind) (a b : X) (sum_type : ty)
  | E_SLICE (a b : X) (c : option X)
  | E_ADDR (a : X)
  | E_DEREF (op : tokkind) (a : X)
  | E_LEN (a : X)
  | E_VARIANT (name : string) (args : list X) (v : option (nat * variant)) (temp_off : Z).
Arguments E_INT {X}. Arguments E_BOOL {X}. Arguments E_STR {X}. Arguments E_SIZE {X}. Arguments E_VAR {X}.
Arguments E_CALL {X}. Arguments E_METHOD {X}. Arguments E_UNARY {X}. Arguments E_BINARY {X}. Arguments E_INDEX {X}.
Arguments E_FIELD {X}. Arguments E_CAST {X}. Arguments E_ASSIGN {X}. Arguments E_UPDATE {X}. Arguments E_SLICE {X}.
Arguments E_ADDR {X}. Arguments E_DEREF {X}. Arguments E_LEN {X}. Arguments E_VARIANT {X}.

Inductive expr := Ex (line : Z) (type : ty) (is_lvalue : bool) (kind : ekind expr).
Definition e_line (e : expr) : Z := let '(Ex l _ _ _) := e in l.
Definition e_type (e : expr) : ty := let '(Ex _ t _ _) := e in t.
Definition e_lv (e : expr) : bool := let '(Ex _ _ v _) := e in v.
Definition e_kind (e : expr) : ekind expr := let '(Ex _ _ _ k) := e in k.
Definition with_type (t : ty) (e : expr) : expr := let '(Ex l _ v k) := e in Ex l t v k.

(** ** Statements *)
Inductive stmt :=
  | S_BLOCK (stmts : list stmt)
  | S_LET (name : string) (type : option ty) (init : option expr) (s : option sym) (is_var : bool)
  | S_EXPR (e : expr)
  | S_IF (cond : expr) (then_s : stmt) (else_s : option stmt)
  | S_WHILE (cond : expr) (body : stmt)
  | S_FOR (name : string) (lo hi : expr) (s : option sym) (body : stmt)
  | S_RETURN (e : option expr)
  | S_BREAK
  | S_CONTINUE
  | S_ASSERT (cond : expr) (text : list Z) (line : Z)
  | S_MATCH (e : expr) (arms : list arm) (subject_off : Z)
with arm := Arm (name : string) (is_else : bool) (v : option (nat * variant)) (binds : list string) (syms : list sym) (body : stmt).

(** ** Functions and units *)
Record contract := Contract { k_expr : expr; k_line : Z; k_text : list Z }.
Record func := Fn {
  f_name : string; f_file : list Z; f_params : list sym; f_ret : ty; f_ret_name : option string;
  f_req : list contract; f_ens : list contract; f_body : stmt; f_entry : bool;
  f_frame : Z; f_sret : Z; f_result : Z
}.
Record unit_ := Unit { u_fns : list func; u_globals : list sym; u_structs : list ty; u_entry : option nat }.

Definition is_aggregate (t : ty) : bool :=
  match t with TyStruct _ _ _ _ | TyArray _ _ | TyEnum _ _ _ => true | _ => false end.

(** [int] arithmetic that must not overflow. *)
Definition in_int (v : Z) : bool := (- 2 ^ 31 <=? v) && (v <? 2 ^ 31).
Definition in_i64 (v : Z) : bool := (- 2 ^ 63 <=? v) && (v <? 2 ^ 63).

(** ** State and refusals, for the passes *)
Definition stm (S E A : Type) : Type := S -> outcome (E + A * S).
Definition sret {S E A} (a : A) : stm S E A := fun s => Ret (inr (a, s)).
Definition die {S E A} (d : E) : stm S E A := fun _ => Ret (inl d).
Definition sfault {S E A} : stm S E A := fun _ => Fault.
Definition sdiverge {S E A} : stm S E A := fun _ => Diverge.
Definition sbind {S E A B} (m : stm S E A) (f : A -> stm S E B) : stm S E B := fun s =>
  let! r := m s in match r with inl d => Ret (inl d) | inr (a, s) => f a s end.
Definition sget {S E} : stm S E S := fun s => Ret (inr (s, s)).
Definition smod {S E} (f : S -> S) : stm S E () := fun s => Ret (inr ((), f s)).
Definition of_outcome {S E A} (o : outcome A) : stm S E A := fun s => let! a := o in Ret (inr (a, s)).
Definition when {S E} (b : bool) (d : E) : stm S E () := if b then die d else sret ().
Declare Scope stm_scope.
Delimit Scope stm_scope with stm.
Notation "'do!' x ':=' m 'in' k" := (sbind m (fun x => k))
  (at level 10, x pattern, m at level 100, k at level 200, format "'[v' 'do!'  x  ':='  m  'in' '/' k ']'") : stm_scope.
#[global] Open Scope stm_scope.

Lemma sbind_inv {S E A B} (m : stm S E A) (f : A -> stm S E B) s b s' :
  sbind m f s = Ret (inr (b, s')) -> exists a s1, m s = Ret (inr (a, s1)) /\ f a s1 = Ret (inr (b, s')).
Proof. unfold sbind. destruct (m s) as [[d|[a s1]]| |]; cbn; intros E0; try done. eauto. Qed.
Lemma when_inv {S E} b (d : E) (s : S) x s' : when b d s = Ret (inr (x, s')) -> b = false /\ s' = s.
Proof. unfold when, die, sret. destruct b; [done|]. by intros [= _ ->]. Qed.
Lemma of_outcome_inv {S E A} (o : outcome A) (s : S) a s' :
  (of_outcome o : stm S E A) s = Ret (inr (a, s')) -> o = Ret a /\ s' = s.
Proof. unfold of_outcome. destruct o; cbn; [|done..]. by intros [= -> ->]. Qed.

(** [stm_run H] takes apart the steps of a run [H] that was not refused. *)
Ltac stm_run H :=
  repeat match type of H with
  | sbind _ _ _ = Ret (inr _) =>
      let a := fresh "v" in let s := fresh "s" in let E := fresh "E" in
      apply sbind_inv in H; destruct H as (a & s & E & H)
  | sret _ _ = Ret (inr _) => injection H as <- <-
  end.
