(* ===== verification/SavLex.v ===== *)
(** * The sav lexer

    [sav/src/lex.c].  A text is its bytes, without the NUL put after them: at
    the end the code reads that NUL, and past it a [Fault].  What is said when
    the lexer refuses is a constructor of [ldiag]; lines and columns are kept
    because later messages quote the source by them. *)
From stdpp Require Import strings.
From S2P Require Import Prelude SavTypes.
Open Scope Z_scope.

Inductive ldiag := CommentOpen | BadEscape | NoHexDigits | StringOpen | NotOneCharacter | NotACharacter.
Record token := Tok { t_kind : tokkind; t_line : Z; t_col : Z; t_text : list Z; t_ival : Z }.
(** Where the lexer is: [lx->p], [lx->line], [lx->col]. *)
Record cursor := Cur { c_p : list Z; c_line : Z; c_col : Z }.
Abbreviation lex := (stm cursor ldiag).

(** [*lx->p]. *)
Definition ch (c : cursor) : Z := match c_p c with b :: _ => b | [] => 0 end.
Definition adv1 (c : cursor) : cursor :=
  match c_p c with
  | b :: p => if b =? 10 then Cur p (c_line c + 1) 1 else Cur p (c_line c) (c_col c + 1)
  | [] => c
  end.
Fixpoint adv (n : nat) (c : cursor) : cursor := match n with O => c | S n => adv n (adv1 c) end.
Fixpoint starts (s p : list Z) : bool :=
  match s, p with
  | [], _ => true
  | a :: s, b :: p => (a =? b) && starts s p
  | _ :: _, [] => false
  end.
(** [at(lx, s)]. *)
Definition at_str (s : string) (c : cursor) : bool := starts (str s) (c_p c).

(** ** Characters *)
Definition is_space (b : Z) : bool := existsb (Z.eqb b) [32; 9; 13; 10].
Definition is_digit (b : Z) : bool := (48 <=? b) && (b <=? 57).
Definition is_alpha (b : Z) : bool := ((65 <=? b) && (b <=? 90)) || ((97 <=? b) && (b <=? 122)).
Definition is_name (b : Z) : bool := is_alpha b || is_digit b || (b =? 95).
Definition is_xdigit (b : Z) : bool := is_digit b || ((65 <=? b) && (b <=? 70)) || ((97 <=? b) && (b <=? 102)).
Definition xdigit (b : Z) : Z := if is_digit b then b - 48 else (if b <=? 70 then b + 32 else b) - 97 + 10.

(** ** Spaces and comments *)
(** Forward while [f] holds of what is ahead; one step a byte. *)
Fixpoint while_ (n : nat) (f : cursor -> bool) (c : cursor) : cursor :=
  match n with O => c | S n => if f c then while_ n f (adv1 c) else c end.
Definition skip_while (f : cursor -> bool) (c : cursor) : cursor := while_ (length (c_p c)) f c.
Fixpoint skip_space (fuel : nat) : lex () :=
  match fuel with O => sdiverge | S fuel =>
    do! _ := smod (skip_while (fun c => is_space (ch c))) in
    do! c := sget in
    if at_str "//" c then
      do! _ := smod (skip_while (fun c => negb (ch c =? 0) && negb (ch c =? 10))) in skip_space fuel
    else if at_str "/*" c then
      do! _ := smod (fun c => skip_while (fun c => negb (ch c =? 0) && negb (at_str "*/" c)) (adv 2 c)) in
      do! c := sget in
      do! _ := when (ch c =? 0) CommentOpen in
      do! _ := smod (adv 2) in skip_space fuel
    else sret ()
  end.

(** ** Names and numbers *)
Definition keywords : list (string * tokkind) := [
  ("fn", T_FN); ("entry", T_ENTRY); ("struct", T_STRUCT); ("const", T_CONST);
  ("var", T_VAR); ("let", T_LET); ("if", T_IF); ("else", T_ELSE);
  ("while", T_WHILE); ("for", T_FOR); ("in", T_IN); ("return", T_RETURN);
  ("break", T_BREAK); ("continue", T_CONTINUE); ("needs", T_NEEDS);
  ("gives", T_GIVES); ("assert", T_ASSERT); ("as", T_AS); ("dev", T_DEV);
  ("true", T_TRUE); ("false", T_FALSE); ("size", T_SIZE);
  ("use", T_USE); ("enum", T_ENUM); ("match", T_MATCH)
]%string.
(** A name's bytes as the string the rest of the compiler compares. *)
Definition name_of (l : list Z) : string := String.string_of_list_ascii ((fun b => Ascii.ascii_of_N (Z.to_N b)) <$> l).
Fixpoint keyword (name : string) (l : list (string * tokkind)) : tokkind :=
  match l with
  | [] => T_IDENT
  | (w, k) :: l => if (name =? w)%string then k else keyword name l
  end.
(** The bytes from [a] up to [b], a later cursor of the same text. *)
Definition between (a b : cursor) : list Z := take (length (c_p a) - length (c_p b)) (c_p a).
(** [v = v * base + digit], which must not overflow. *)
Fixpoint number (base v : Z) (digits : list Z) : outcome Z :=
  match digits with
  | [] => Ret v
  | b :: digits =>
      if b =? 95 then number base v digits
      else let v := v * base + xdigit b in
           if (v <? 2 ^ 63) then number base v digits else Fault
  end.

(** ** Strings and characters *)
Definition esc_char : lex Z :=
  do! _ := smod adv1 in
  do! c := sget in
  match c_p c with
  | [] => die BadEscape
  | b :: _ =>
      do! _ := smod adv1 in
      if b =? 110 then sret 10 else if b =? 116 then sret 9 else if b =? 114 then sret 13 else if b =? 48 then sret 0
      else if (b =? 92) || (b =? 34) || (b =? 39) then sret b
      else die BadEscape
  end.
(** One character, an escape or not. *)
Definition one_char : lex Z :=
  do! c := sget in
  if ch c =? 92 then esc_char
  else match c_p c with [] => sfault | b :: _ => do! _ := smod adv1 in sret b end.
Fixpoint str_loop (fuel : nat) (acc : list Z) : lex (list Z) :=
  match fuel with O => sdiverge | S fuel =>
    do! c := sget in
    if (ch c =? 0) || (ch c =? 34) then sret (rev acc)
    else do! b := one_char in str_loop fuel (b :: acc)
  end.

(** ** Operators *)
Definition ops : list (string * tokkind) := [
  ("<<", T_SHL); (">>", T_SHR); ("<=", T_LE); (">=", T_GE);
  ("==", T_EQEQ); ("!=", T_NE); ("&&", T_ANDAND); ("||", T_OROR);
  ("->", T_ARROW); ("..", T_DOTDOT); ("+=", T_PLUSEQ); ("-=", T_MINUSEQ);
  ("(", T_LPAREN); (")", T_RPAREN); ("{", T_LBRACE); ("}", T_RBRACE);
  ("[", T_LBRACK); ("]", T_RBRACK); (",", T_COMMA); (";", T_SEMI);
  (":", T_COLON); (".", T_DOT); ("+", T_PLUS); ("-", T_MINUS);
  ("*", T_STAR); ("/", T_SLASH); ("%", T_PERCENT); ("&", T_AMP);
  ("|", T_PIPE); ("^", T_CARET); ("~", T_TILDE); ("!", T_BANG);
  ("@", T_AT);
  ("<", T_LT); (">", T_GT); ("=", T_ASSIGN)
]%string.
Fixpoint operator (c : cursor) (l : list (string * tokkind)) : option (string * tokkind) :=
  match l with
  | [] => None
  | (s, k) :: l => if at_str s c then Some (s, k) else operator c l
  end.

(** ** A token *)
Definition scan : lex token :=
  do! c := sget in
  do! _ := skip_space (S (length (c_p c))) in
  do! c := sget in
  let tok k text v := Tok k (c_line c) (c_col c) text v in
  if ch c =? 0 then sret (tok T_EOF [] 0) else
  if is_alpha (ch c) || (ch c =? 95) then
    do! _ := smod (skip_while (fun c => is_name (ch c))) in
    do! e := sget in
    let text := between c e in sret (tok (keyword (name_of text) keywords) text 0)
  else if is_digit (ch c) then
    if at_str "0x" c || at_str "0X" c then
      do! _ := smod (adv 2) in
      do! h := sget in
      do! _ := when (negb (is_xdigit (ch h))) NoHexDigits in
      do! _ := smod (skip_while (fun c => is_xdigit (ch c) || (ch c =? 95))) in
      do! e := sget in
      do! v := of_outcome (number 16 0 (between h e)) in sret (tok T_INT [] v)
    else
      do! _ := smod (skip_while (fun c => is_digit (ch c) || (ch c =? 95))) in
      do! e := sget in
      do! v := of_outcome (number 10 0 (between c e)) in sret (tok T_INT [] v)
  else if ch c =? 34 then
    do! _ := smod adv1 in
    do! text := str_loop (length (c_p c)) [] in
    do! e := sget in
    do! _ := when (negb (ch e =? 34)) StringOpen in
    do! _ := smod adv1 in sret (tok T_STR text 0)
  else if ch c =? 39 then
    do! _ := smod adv1 in
    do! v := one_char in
    do! e := sget in
    do! _ := when (negb (ch e =? 39)) NotOneCharacter in
    do! _ := smod adv1 in sret (tok T_INT [] v)
  else
    match operator c ops with
    | Some (s, k) => do! _ := smod (adv (String.length s)) in sret (tok k [] 0)
    | None => die NotACharacter
    end.

(** ** The lexer *)
Record lexer := Lexer { lx_at : cursor; lx_tok : token; lx_ahead : option token }.
Definition lex_init (text : list Z) : outcome (ldiag + lexer) :=
  let! r := scan (Cur text 1 1) in
  match r with inl d => Ret (inl d) | inr (t, c) => Ret (inr (Lexer c t None)) end.
Definition lex_next (l : lexer) : outcome (ldiag + lexer) :=
  match lx_ahead l with
  | Some t => Ret (inr (Lexer (lx_at l) t None))
  | None => let! r := scan (lx_at l) in match r with inl d => Ret (inl d) | inr (t, c) => Ret (inr (Lexer c t None)) end
  end.
Definition lex_peek (l : lexer) : outcome (ldiag + token * lexer) :=
  match lx_ahead l with
  | Some t => Ret (inr (t, l))
  | None => let! r := scan (lx_at l) in match r with inl d => Ret (inl d) | inr (t, c) => Ret (inr (t, Lexer c (lx_tok l) (Some t))) end
  end.
