(* ===== verification/SavLexRun.v ===== *)
(** * What the sav lexer makes of a text

    It ends on every text, and a text that is written token by token is read
    back as those tokens. *)
From stdpp Require Import strings.
From S2P Require Import Prelude SavTypes SavLex.
Open Scope Z_scope.

(** The tokens the parser takes, one [lex_next] after the other. *)
Fixpoint tokens (fuel : nat) (c : cursor) : outcome (ldiag + list token) :=
  match fuel with O => Diverge | S fuel =>
    let! r := scan c in
    match r with
    | inl d => Ret (inl d)
    | inr (t, c) =>
        if is_op (t_kind t) T_EOF then Ret (inr [t]) else
        let! r := tokens fuel c in
        match r with inl d => Ret (inl d) | inr l => Ret (inr (t :: l)) end
    end
  end.

(** ** Forward *)
Definition len (c : cursor) : nat := length (c_p c).
Lemma len_adv1 c : len (adv1 c) = pred (len c).
Proof. unfold len, adv1. destruct (c_p c) as [|b p] eqn:E; [by rewrite E|]. by destruct (b =? 10). Qed.
Lemma p_adv1 c : c_p (adv1 c) = tl (c_p c).
Proof. unfold adv1. destruct (c_p c) as [|b p] eqn:E; [by rewrite E|]. by destruct (b =? 10). Qed.
Lemma len_adv n c : len (adv n c) = (len c - n)%nat.
Proof. revert c. induction n as [|n IH]; intros c; cbn [adv]; [lia|]. rewrite IH, len_adv1. lia. Qed.
Lemma p_adv n c : c_p (adv n c) = drop n (c_p c).
Proof. revert c. induction n as [|n IH]; intros c; cbn [adv]; [done|]. rewrite IH, p_adv1. by destruct (c_p c), n. Qed.
Lemma len_while n f c : (len (while_ n f c) <= len c)%nat.
Proof. revert c. induction n as [|n IH]; intros c; cbn [while_]; [lia|]. destruct (f c); [|lia]. specialize (IH (adv1 c)). rewrite len_adv1 in IH. lia. Qed.
Lemma len_skip f c : (len (skip_while f c) <= len c)%nat.
Proof. apply len_while. Qed.
(** When the first byte is taken. *)
Lemma len_skip_lt f c : f c = true -> c_p c <> [] -> (len (skip_while f c) < len c)%nat.
Proof.
  unfold skip_while. intros Hf Hp. destruct (length (c_p c)) as [|n] eqn:E; [by destruct (c_p c)|]. cbn [while_]. rewrite Hf.
  pose proof (len_while n f (adv1 c)). rewrite len_adv1 in *. unfold len in *. lia.
Qed.
Lemma ch_ne c : ch c <> 0 -> c_p c <> [].
Proof. unfold ch. by destruct (c_p c). Qed.

(** ** It ends *)
(** A step that does not diverge, and comes out with no more than [n] bytes
    ahead. *)
Definition within {A} (n : nat) (o : outcome (ldiag + A * cursor)) : Prop :=
  match o with Ret (inr (_, c)) => (len c <= n)%nat | Diverge => False | _ => True end.
Lemma within_bind {A B} n n' (m : lex A) (f : A -> lex B) c :
  within n (m c) -> (forall a c', (len c' <= n)%nat -> within n' (f a c')) -> within n' (sbind m f c).
Proof. unfold sbind. intros Hm Hf. destruct (m c) as [[d|[a c']]| |]; cbn in *; try done. by apply Hf. Qed.
Lemma within_mod n f c : (len (f c) <= n)%nat -> within n (smod f c).
Proof. done. Qed.
Lemma within_get {B} n (f : cursor -> lex B) c : within n (f c c) -> within n (sbind sget f c).
Proof. done. Qed.
Lemma within_when n b d c : (len c <= n)%nat -> within n (when b d c).
Proof. by destruct b. Qed.
Lemma within_outcome {A} n (o : outcome A) c : o <> Diverge -> (len c <= n)%nat -> within n (of_outcome o c).
Proof. by destruct o. Qed.
Lemma within_more {A} n n' (o : outcome (ldiag + A * cursor)) : within n o -> (n <= n')%nat -> within n' o.
Proof. destruct o as [[d|[a c]]| |]; cbn; try done. intros. lia. Qed.

Lemma at_slash s c : at_str (String (Ascii.ascii_of_nat 47) s) c = true -> (0 < len c)%nat /\ ch c = 47.
Proof.
  unfold at_str, len, ch. change (str _) with (47 :: str s). destruct (c_p c) as [|b p]; [done|].
  cbn [starts length]. intros [Hb _]%andb_prop. split; lia.
Qed.
Lemma within_space fuel c : (len c < fuel)%nat -> within (len c) (skip_space fuel c).
Proof.
  revert c. induction fuel as [|fuel IH]; intros c Hf; [lia|]. cbn [skip_space].
  eapply within_bind; [apply within_mod, len_skip|]. intros _ c1 H1. apply within_get. destruct (at_str "//" c1) eqn:E1.
  - apply at_slash in E1 as [Hl Hc]. eapply (within_bind (pred (len c1))).
    { apply within_mod. apply Nat.lt_le_pred, len_skip_lt; [by rewrite Hc|]. intros E. unfold len in Hl. by rewrite E in Hl; cbn in Hl; lia. }
    intros _ c2 H2. eapply within_more; [apply IH; lia|lia].
  - destruct (at_str "/*" c1) eqn:E2; [|done]. apply at_slash in E2 as [Hl _].
    eapply (within_bind (len c1 - 2)); [apply within_mod; etrans; [apply len_skip|rewrite len_adv; lia]|]. intros _ c2 H2. apply within_get.
    eapply (within_bind (len c1 - 2)); [by apply within_when|]. intros _ c3 H3.
    eapply (within_bind (len c1 - 2)); [apply within_mod; rewrite len_adv; lia|]. intros _ c4 H4.
    eapply within_more; [apply IH; lia|lia].
Qed.
Lemma number_ends base v l : number base v l <> Diverge.
Proof. revert v. induction l as [|b l IH]; intros v; cbn; [done|]. destruct (b =? 95); [done|]. by destruct (_ <? _). Qed.
Lemma within_esc c : within (pred (len c)) (esc_char c).
Proof.
  unfold esc_char. eapply within_bind; [apply (within_mod (pred (len c))); by rewrite len_adv1|]. intros _ c1 H1. apply within_get.
  destruct (c_p c1) as [|b p]; [done|]. eapply within_bind; [apply (within_mod (pred (len c))); rewrite len_adv1; lia|]. intros _ c2 H2.
  repeat (match goal with |- within _ ((if ?b then _ else _) _) => destruct b end); first [exact H2|exact I].
Qed.
Lemma within_one c : within (pred (len c)) (one_char c).
Proof.
  unfold one_char. apply within_get. destruct (ch c =? 92); [apply within_esc|]. destruct (c_p c); [done|].
  eapply within_bind; [apply (within_mod (pred (len c))); by rewrite len_adv1|]. intros _ c2 H2. done.
Qed.
Lemma within_str fuel acc c : (len c < fuel)%nat -> within (len c) (str_loop fuel acc c).
Proof.
  revert acc c. induction fuel as [|fuel IH]; intros acc c Hf; [lia|]. cbn [str_loop]. apply within_get.
  destruct (_ || _) eqn:E; [apply Nat.le_refl|]. apply orb_false_elim in E as [E _].
  assert (0 < len c)%nat by (unfold len, ch in *; destruct (c_p c); [done|cbn; lia]).
  eapply within_bind; [apply within_one|]. intros b c1 H1. eapply within_more; [apply IH; lia|lia].
Qed.
Lemma operator_shorter c l s k : operator c l = Some (s, k) -> (0 < String.length s)%nat \/ (s, k) ∈ l.
Proof.
  induction l as [|[s' k'] l IH]; cbn [operator]; [done|]. destruct (at_str s' c).
  - intros [= <- <-]. right. by left.
  - intros E. destruct (IH E); [by left|right; by right].
Qed.
Lemma operator_long c s k : operator c ops = Some (s, k) -> (0 < String.length s)%nat.
Proof.
  intros E. destruct (operator_shorter _ _ _ _ E) as [?|Hin]; [done|].
  assert (Forall (fun r => (0 < String.length r.1)%nat) ops) as Ho by (repeat constructor).
  rewrite Forall_forall in Ho. exact (Ho _ Hin).
Qed.

(** A token, or nothing but the end; what is taken was ahead. *)
Definition taken (n : nat) (o : outcome (ldiag + token * cursor)) : Prop :=
  match o with Ret (inr (t, c)) => t_kind t = T_EOF \/ (len c < n)%nat | Diverge => False | _ => True end.
Lemma taken_within n o : within (pred n) o -> (0 < n)%nat -> taken n o.
Proof. destruct o as [[d|[t c]]| |]; cbn; try done. intros. right. lia. Qed.
Lemma taken_bind {A} n n' (m : lex A) (f : A -> lex token) c :
  within n (m c) -> (forall a c', (len c' <= n)%nat -> taken n' (f a c')) -> taken n' (sbind m f c).
Proof. unfold sbind. intros Hm Hf. destruct (m c) as [[d|[a c']]| |]; cbn in *; try done. by apply Hf. Qed.

Lemma skip_name f c : f c = true -> (0 < len c)%nat -> (len (skip_while f c) <= pred (len c))%nat.
Proof. intros Hf Hl. apply Nat.lt_le_pred, len_skip_lt; [done|]. intros E. unfold len in Hl. rewrite E in Hl. cbn in Hl. lia. Qed.
Lemma taken_get n (f : cursor -> lex token) c : taken n (f c c) -> taken n (sbind sget f c).
Proof. done. Qed.
Lemma scan_takes c : taken (len c) (scan c).
Proof.
  unfold scan. apply taken_get. eapply (taken_bind (len c)); [apply within_space; unfold len; lia|].
  intros _ c1 H1. apply taken_get. cbv zeta. destruct (ch c1 =? 0) eqn:E0; [by left|].
  assert (0 < len c1)%nat as Hp by (unfold len, ch in *; destruct (c_p c1); [done|cbn; lia]).
  assert (forall (o : outcome (ldiag + token * cursor)), within (pred (len c1)) o -> taken (len c) o) as Hw.
  { intros o Ho. apply taken_within; [|lia]. eapply within_more; [exact Ho|lia]. }
  set (n := pred (len c1)) in *. clear E0.
  assert (forall A B (m : lex A) (f : A -> lex B) c, within n (m c) -> (forall a c', (len c' <= n)%nat -> within n (f a c')) -> within n (sbind m f c)) as Hb
    by (intros; by eapply within_bind).
  apply Hw. destruct (_ || _) eqn:En.
  { apply Hb; [apply within_mod, skip_name; [|done]; unfold is_name; apply orb_prop in En as [->| ->]; [done|by rewrite orb_true_r]|].
    intros _ c2 H2. by apply within_get. }
  destruct (is_digit (ch c1)) eqn:Ed.
  { destruct (at_str "0x" c1 || at_str "0X" c1).
    - apply Hb; [apply within_mod; rewrite len_adv; lia|]. intros _ c2 H2. apply within_get.
      apply Hb; [by apply within_when|]. intros _ c3 H3. apply Hb; [apply within_mod; etrans; [apply len_skip|done]|]. intros _ c4 H4.
      apply within_get. apply Hb; [by apply within_outcome; [apply number_ends|]|]. by intros v c5 H5.
    - apply Hb; [apply within_mod, skip_name; [by rewrite Ed|done]|]. intros _ c2 H2.
      apply within_get. apply Hb; [by apply within_outcome; [apply number_ends|]|]. by intros v c5 H5. }
  destruct (ch c1 =? 34).
  { apply Hb; [by apply within_mod; rewrite len_adv1|]. intros _ c2 H2.
    apply Hb; [eapply within_more; [apply within_str; unfold len in *; lia|done]|]. intros tx c3 H3. apply within_get.
    apply Hb; [by apply within_when|]. intros _ c4 H4. apply Hb; [apply within_mod; rewrite len_adv1; lia|]. by intros ? c5 H5. }
  destruct (ch c1 =? 39).
  { apply Hb; [by apply within_mod; rewrite len_adv1|]. intros _ c2 H2.
    apply Hb; [eapply within_more; [apply within_one|lia]|]. intros v c3 H3. apply within_get.
    apply Hb; [by apply within_when|]. intros _ c4 H4. apply Hb; [apply within_mod; rewrite len_adv1; lia|]. by intros ? c5 H5. }
  destruct (operator c1 ops) as [[s k]|] eqn:Eo; [|done]. apply operator_long in Eo.
  apply Hb; [apply within_mod; rewrite len_adv; lia|]. by intros ? c2 H2.
Qed.

(** C40: lexing ends: on any text, the tokens the parser takes one after the
    other come to the end of the file, a refusal or a fault -- as many rounds
    as the text has bytes, and one more, are enough -- and no comment, string or
    name makes the lexer go round for ever. *)
Theorem lexer_terminates fuel c : (length (c_p c) < fuel)%nat -> tokens fuel c <> Diverge.
Proof.
  fold (len c). revert c. induction fuel as [|fuel IH]; intros c Hf; [lia|]. cbn [tokens].
  pose proof (scan_takes c) as Hs. unfold taken in Hs. destruct (scan c) as [[d|[t c']]| |]; try done. cbn [obind].
  destruct (is_op (t_kind t) T_EOF) eqn:Et; [done|]. destruct Hs as [Hk|Hl]; [by apply is_op_true in Hk; rewrite Hk in Et|].
  specialize (IH c' ltac:(lia)). destruct (tokens fuel c') as [[d|l]| |]; done.
Qed.
Lemma lexer_terminates_witness : tokens 10 (Cur (str "/* a // b") 1 1) <> Diverge.
Proof. apply lexer_terminates. cbn. lia. Defined.

(** ** Reading back *)
(** What is written: a word, the digits of a number, a string, an operator. *)
Inductive lexeme := LWord (name : list Z) | LInt (digits : list Z) | LStr (text : list Z) | LOp (s : string).
Definition value (digits : list Z) : Z := fold_left (fun v b => v * 10 + (b - 48)) digits 0.
Definition esc (b : Z) : list Z :=
  if b =? 10 then [92; 110] else if b =? 9 then [92; 116] else if b =? 13 then [92; 114] else if b =? 0 then [92; 48]
  else if (b =? 92) || (b =? 34) then [92; b] else [b].
Definition write (x : lexeme) : list Z :=
  match x with
  | LWord name => name
  | LInt digits => digits
  | LStr text => 34 :: concat (esc <$> text) ++ [34]
  | LOp s => str s
  end.
Fixpoint op_kind (s : string) (l : list (string * tokkind)) : option tokkind :=
  match l with [] => None | (w, k) :: l => if (s =? w)%string then Some k else op_kind s l end.
Definition written (x : lexeme) : Prop :=
  match x with
  | LWord name => match name with b :: _ => is_alpha b || (b =? 95) = true | [] => False end /\ Forall (fun b => is_name b = true) name
  | LInt digits => digits <> [] /\ Forall (fun b => is_digit b = true) digits /\ value digits < 2 ^ 63
  | LStr text => bytes_ok text
  | LOp s => op_kind s ops <> None
  end.
(** Its kind, its text and its value. *)
Definition meaning (x : lexeme) : tokkind * list Z * Z :=
  match x with
  | LWord name => (keyword (name_of name) keywords, name, 0)
  | LInt digits => (T_INT, [], value digits)
  | LStr text => (T_STR, text, 0)
  | LOp s => (default T_EOF (op_kind s ops), [], 0)
  end.
Definition reads (t : token) : tokkind * list Z * Z := (t_kind t, t_text t, t_ival t).
(** With a space behind each. *)
Definition write_all (l : list lexeme) : list Z := concat ((fun x => write x ++ [32]) <$> l).

Lemma skip_chars (f : Z -> bool) a b c : c_p c = a ++ b -> Forall (fun x => f x = true) a -> f (hd 0 b) = false ->
  c_p (skip_while (fun c => f (ch c)) c) = b.
Proof.
  intros Hc Ha Hb. unfold skip_while. rewrite Hc, length_app. clear -Hc Ha Hb. revert c Hc.
  assert (forall n c, c_p c = b -> c_p (while_ n (fun c => f (ch c)) c) = b) as Hstop.
  { intros n c Hc. destruct n; [done|]. cbn [while_]. replace (ch c) with (hd 0 b) by (unfold ch; rewrite Hc; by destruct b). by rewrite Hb. }
  induction Ha as [|x a Hx Ha IH]; intros c Hc; [by apply Hstop|]. cbn [length Nat.add while_ app] in *.
  replace (ch c) with x by (unfold ch; by rewrite Hc). rewrite Hx. apply IH. by rewrite p_adv1, Hc.
Qed.
Lemma between_app a b c e : c_p c = a ++ b -> c_p e = b -> between c e = a.
Proof. intros Hc He. unfold between. rewrite Hc, He, length_app. replace (length a + length b - length b)%nat with (length a) by lia. apply take_app_length. Qed.

(** Spaces, then what is no space and no comment. *)
Lemma skip_space_to a b c fuel : c_p c = a ++ b -> Forall (fun x => is_space x = true) a -> is_space (hd 0 b) = false ->
  starts [47; 47] b = false -> starts [47; 42] b = false ->
  exists c', skip_space (S fuel) c = Ret (inr ((), c')) /\ c_p c' = b.
Proof.
  intros Hc Ha Hb H1 H2. pose proof (skip_chars is_space a b c Hc Ha Hb) as Hs. cbn [skip_space].
  unfold sbind at 1, smod. cbn [obind]. exists (skip_while (fun c => is_space (ch c)) c). split; [|done].
  unfold sbind, sget. cbn [obind]. unfold at_str. rewrite Hs.
  change (str "//") with [47; 47]. change (str "/*") with [47; 42]. by rewrite H1, H2.
Qed.
Lemma number_value v ds : Forall (fun b => is_digit b = true) ds -> 0 <= v -> fold_left (fun v b => v * 10 + (b - 48)) ds v < 2 ^ 63 ->
  number 10 v ds = Ret (fold_left (fun v b => v * 10 + (b - 48)) ds v).
Proof.
  assert (forall ds v, Forall (fun b => is_digit b = true) ds -> 0 <= v -> v <= fold_left (fun v b => v * 10 + (b - 48)) ds v) as Hge.
  { clear. induction ds as [|b ds IH]; intros v Hd Hv; cbn; [lia|]. apply Forall_cons in Hd as [Hb Hd]. unfold is_digit in Hb.
    etrans; [|apply IH; [done|lia]]. lia. }
  revert v. induction ds as [|b ds IH]; intros v Hd Hv Hlt; [done|]. cbn [number fold_left] in *.
  apply Forall_cons in Hd as [Hb Hd]. assert (48 <= b <= 57) as Hr by (unfold is_digit in Hb; lia).
  destruct (Z.eqb_spec b 95); [lia|]. unfold xdigit. rewrite Hb. pose proof (Hge ds (v * 10 + (b - 48)) Hd ltac:(lia)).
  destruct (Z.ltb_spec (v * 10 + (b - 48)) (2 ^ 63)); [|lia]. apply IH; [done|lia|done].
Qed.
Lemma one_char_reads b tail c : is_byte b -> c_p c = esc b ++ tail ->
  exists c1, c_p c1 = tail /\ (ch c =? 0) || (ch c =? 34) = false /\ one_char c = Ret (inr (b, c1)).
Proof.
  intros Hb Hc. unfold one_char, esc_char, sbind, sget, smod, ch. cbn [obind].
  assert (forall e, c_p c = 92 :: e :: tail -> c_p (adv1 c) = e :: tail /\ c_p (adv1 (adv1 c)) = tail) as H2.
  { intros e He. rewrite !p_adv1, He. done. }
  unfold esc in Hc. destruct (Z.eqb_spec b 10) as [->|N1]; [|destruct (Z.eqb_spec b 9) as [->|N2]; [|destruct (Z.eqb_spec b 13) as [->|N3];
    [|destruct (Z.eqb_spec b 0) as [->|N4]; [|destruct ((b =? 92) || (b =? 34)) eqn:E]]]]; cbn [app] in Hc.
  1-5: destruct (H2 _ Hc) as [E1 E2]; exists (adv1 (adv1 c)); rewrite Hc; cbn; rewrite E1.
  1-4: by split_and!.
  - assert (b = 92 \/ b = 34) as [-> | ->] by lia; by split_and!.
  - exists (adv1 c). rewrite p_adv1, Hc. apply orb_false_elim in E as [N5 N6]. split_and!; [done|rewrite N6; lia|]. by rewrite N5.
Qed.
Lemma str_loop_reads l fuel acc rest c : bytes_ok l -> (length l < fuel)%nat -> c_p c = concat (esc <$> l) ++ 34 :: rest ->
  exists c', str_loop fuel acc c = Ret (inr (rev acc ++ l, c')) /\ c_p c' = 34 :: rest.
Proof.
  revert fuel acc c. induction l as [|b l IH]; intros fuel acc c Hb Hf Hc; (destruct fuel as [|fuel]; [cbn in Hf; lia|]); cbn [str_loop].
  { exists c. cbn in Hc. unfold sbind, sget, ch. cbn [obind]. rewrite Hc. cbn. by rewrite app_nil_r. }
  apply Forall_cons in Hb as [Hb Hl]. cbn [length] in Hf. rewrite fmap_cons in Hc. cbn [concat] in Hc. rewrite <- app_assoc in Hc.
  destruct (one_char_reads b _ c Hb Hc) as (c1 & E1 & E2 & E3).
  destruct (IH fuel (b :: acc) c1 Hl ltac:(lia) E1) as (c' & E4 & E5). exists c'. split; [|done].
  unfold sbind at 1, sget. cbn [obind]. rewrite E2. unfold sbind. rewrite E3. cbn [obind]. rewrite E4. cbn [rev]. by rewrite <- app_assoc.
Qed.
(** Before a space no operator is the beginning of another, or of a comment. *)
Lemma operator_reads s k rest l n : op_kind s ops = Some k ->
  let c := Cur (str s ++ 32 :: rest) l n in
  operator c ops = Some (s, k) /\ (ch c =? 0) = false /\ is_alpha (ch c) || (ch c =? 95) = false /\ is_digit (ch c) = false
  /\ (ch c =? 34) = false /\ (ch c =? 39) = false /\ is_space (ch c) = false
  /\ starts [47; 47] (c_p c) = false /\ starts [47; 42] (c_p c) = false /\ c_p (adv (String.length s) c) = 32 :: rest.
Proof.
  unfold ops at 1. cbn [op_kind].
  repeat match goal with |- (if (s =? ?w)%string then _ else _) = _ -> _ => destruct (String.eqb_spec s w) as [->|_];
    [intros [= <-]; cbv zeta; rewrite p_adv; split_and!; vm_compute; reflexivity|] end.
  done.
Qed.
Lemma name_head b l : is_name b = true -> (b =? 0) = false /\ is_space b = false /\ starts [47; 47] (b :: l) = false /\ starts [47; 42] (b :: l) = false.
Proof.
  intros Hb. assert (b <> 0 /\ b <> 32 /\ b <> 9 /\ b <> 13 /\ b <> 10 /\ b <> 47) as Hn.
  { split_and!; by intros ->. }
  unfold is_space. cbn [starts existsb]. rewrite (proj2 (Z.eqb_neq 47 b)) by lia. split_and!; [lia| |done|done].
  rewrite !(fun n => proj2 (Z.eqb_neq b n)) by lia. done.
Qed.
Lemma digit_name b : is_digit b = true -> is_name b = true /\ is_alpha b || (b =? 95) = false.
Proof. unfold is_name, is_alpha, is_digit. intros Hb. rewrite Hb, orb_true_r. split; [done|]. lia. Qed.
(** The first byte of what is written begins no space and no comment. *)
Lemma write_head x rest : written x -> let p := write x ++ 32 :: rest in
  is_space (hd 0 p) = false /\ starts [47; 47] p = false /\ starts [47; 42] p = false /\ (hd 0 p =? 0) = false.
Proof.
  destruct x as [[|b name]|[|b digits]|text|s]; cbn [write written]; cbv zeta.
  - by intros [? _].
  - intros [_ [Hb _]%Forall_cons]. cbn [app hd]. destruct (name_head b (name ++ 32 :: rest) Hb) as (? & ? & ? & ?). done.
  - by intros [? _].
  - intros (_ & [Hb _]%Forall_cons & _). cbn [app hd].
    destruct (name_head b (digits ++ 32 :: rest) (proj1 (digit_name b Hb))) as (? & ? & ? & ?). done.
  - done.
  - destruct (op_kind s ops) as [k|] eqn:Ek; [|done]. intros _.
    destruct (operator_reads s k rest 0 0 Ek) as (_ & H0 & _ & _ & _ & _ & H1 & H2 & H3 & _). cbn [c_p ch] in *.
    by destruct (str s ++ 32 :: rest).
Qed.
(** A string with its quotes. *)
Lemma concat_esc_len l : (length l <= length (concat (esc <$> l)))%nat.
Proof.
  induction l as [|b l IH]; [done|]. rewrite fmap_cons. cbn [concat length]. rewrite length_app.
  assert (0 < length (esc b))%nat; [|lia]. unfold esc. repeat (match goal with |- context [if ?x then _ else _] => destruct x end); cbn; lia.
Qed.
Lemma scan_reads x sp rest c : written x -> Forall (fun b => is_space b = true) sp -> c_p c = sp ++ write x ++ 32 :: rest ->
  exists t c', scan c = Ret (inr (t, c')) /\ reads t = meaning x /\ c_p c' = 32 :: rest.
Proof.
  intros Hx Hsp Hc. destruct (write_head x rest Hx) as (H1 & H2 & H3 & H0).
  destruct (skip_space_to sp _ c (length (c_p c)) Hc Hsp H1 H2 H3) as (c1 & Es & Hc1).
  unfold scan, sbind at 1, sget. cbn [obind]. unfold sbind at 1. rewrite Es. cbn [obind]. unfold sbind at 1. cbn [obind]. cbv zeta.
  assert (ch c1 = hd 0 (write x ++ 32 :: rest)) as Hh by (unfold ch; rewrite Hc1; by destruct (write x ++ 32 :: rest)).
  rewrite Hh, H0. clear H1 H2 H3 H0 Es Hc Hsp c.
  destruct x as [name|digits|text|s]; cbn [write written meaning] in *.
  - destruct name as [|b name]; [by destruct Hx|]. destruct Hx as [Hb Hn]. cbn [app hd] in *. rewrite Hb.
    pose proof (skip_chars is_name (b :: name) (32 :: rest) c1 Hc1 Hn ltac:(done)) as Hs.
    unfold sbind, smod, sget, sret. cbn [obind]. rewrite (between_app (b :: name) (32 :: rest) c1 _ Hc1 Hs). by do 2 eexists.
  - destruct digits as [|b digits]; [by destruct Hx|]. destruct Hx as (_ & Hd & Hv). cbn [app hd] in *.
    pose proof (Forall_inv Hd) as Hb. destruct (digit_name b Hb) as [_ ->]. rewrite Hb.
    assert (at_str "0x" c1 || at_str "0X" c1 = false) as ->.
    { unfold at_str. rewrite Hc1. change (str "0x") with [48; 120]. change (str "0X") with [48; 88]. cbn [starts].
      destruct digits as [|d digits]; cbn [app]; [by rewrite !andb_false_r|]. apply Forall_cons in Hd as [_ [Hd _]%Forall_cons].
      unfold is_digit in Hd. rewrite (proj2 (Z.eqb_neq 120 d)), (proj2 (Z.eqb_neq 88 d)) by lia. by rewrite !andb_false_r. }
    pose proof (skip_chars (fun b => is_digit b || (b =? 95)) (b :: digits) (32 :: rest) c1 Hc1
      ltac:(eapply Forall_impl; [exact Hd|]; by intros ? ->) ltac:(done)) as Hs.
    unfold sbind, smod, sget, sret, of_outcome. cbn [obind]. rewrite (between_app (b :: digits) (32 :: rest) c1 _ Hc1 Hs).
    rewrite number_value by done. cbn [obind]. by do 2 eexists.
  - cbn [app hd] in *. change (is_alpha 34 || (34 =? 95)) with false. change (is_digit 34) with false. change (34 =? 34) with true. cbv iota.
    rewrite <- app_assoc in Hc1. cbn [app] in Hc1.
    destruct (str_loop_reads text (length (c_p c1)) [] (32 :: rest) (adv1 c1) Hx) as (c2 & E2 & Hc2).
    { rewrite Hc1. cbn [length]. rewrite length_app. pose proof (concat_esc_len text). lia. }
    { by rewrite p_adv1, Hc1. }
    unfold sbind, smod, sget, sret, when. cbn [obind]. rewrite E2. cbn [obind]. unfold ch. rewrite Hc2. cbn.
    do 2 eexists. split; [reflexivity|]. split; [done|]. by rewrite p_adv1, Hc2.
  - destruct (op_kind s ops) as [k|] eqn:Ek; [|done]. destruct c1 as [p l n]. cbn [c_p] in Hc1. subst p.
    destruct (operator_reads s k rest l n Ek) as (E1 & _ & E2 & E3 & E4 & E5 & _ & _ & _ & E6). rewrite Hh in E2, E3, E4, E5.
    rewrite E2, E3, E4, E5, E1. unfold sbind, smod, sret. cbn [obind]. do 2 eexists. split; [reflexivity|]. by split.
Qed.

Lemma not_eof x : written x -> (meaning x).1.1 <> T_EOF.
Proof.
  assert (forall l n, Forall (fun r : string * tokkind => r.2 <> T_EOF) l -> keyword n l <> T_EOF) as Hk.
  { induction l as [|[w k] l IH]; intros n Hl; cbn [keyword]; [done|]. apply Forall_cons in Hl as [? Hl].
    destruct (n =? w)%string; [done|by apply IH]. }
  assert (forall l s, Forall (fun r : string * tokkind => r.2 <> T_EOF) l -> op_kind s l <> Some T_EOF) as Ho.
  { induction l as [|[w k] l IH]; intros s Hl; cbn [op_kind]; [done|]. apply Forall_cons in Hl as [? Hl].
    destruct (s =? w)%string; [by intros [=]|by apply IH]. }
  destruct x as [name|digits|text|s]; cbn [meaning written fst]; try done.
  - intros _. apply Hk. by repeat constructor.
  - intros Hs E. destruct (op_kind s ops) as [k|] eqn:Ek; [|done]. cbn in E. subst k. revert Ek. apply Ho. by repeat constructor.
Qed.
Lemma scan_end sp c : Forall (fun b => is_space b = true) sp -> c_p c = sp ->
  exists t c', scan c = Ret (inr (t, c')) /\ reads t = (T_EOF, [], 0).
Proof.
  intros Hsp Hc. destruct (skip_space_to sp [] c (length (c_p c)) ltac:(by rewrite app_nil_r) Hsp) as (c1 & Es & Hc1); [done..|].
  unfold scan, sbind at 1, sget. cbn [obind]. unfold sbind at 1. rewrite Es. cbn [obind]. unfold sbind at 1. cbn [obind]. cbv zeta.
  unfold ch at 1. rewrite Hc1. cbn. by do 2 eexists.
Qed.

(** C24: what is written is read back: any list of words, decimal numbers below
    2^63, strings of any bytes with their escapes, and operators, written with a
    space behind each, is lexed into those tokens and the end of the file. *)
Theorem lexer_round_trip l : Forall written l ->
  exists ts, tokens (S (length l)) (Cur (write_all l) 1 1) = Ret (inr ts) /\ reads <$> ts = (meaning <$> l) ++ [(T_EOF, [], 0)].
Proof.
  intros Hl. assert (forall sp c, Forall (fun b => is_space b = true) sp -> c_p c = sp ++ write_all l ->
    exists ts, tokens (S (length l)) c = Ret (inr ts) /\ reads <$> ts = (meaning <$> l) ++ [(T_EOF, [], 0)]) as H; [|by apply (H [])].
  induction Hl as [|x l Hx Hl IH]; intros sp c Hsp Hc.
  - destruct (scan_end sp c Hsp) as (t & c' & E & Ht); [by rewrite Hc, app_nil_r|]. exists [t].
    assert (t_kind t = T_EOF) as Hk by (by injection Ht). cbn [tokens length]. rewrite E. cbn [obind]. rewrite Hk. cbn. by rewrite Ht.
  - unfold write_all in Hc. rewrite fmap_cons in Hc. cbn [concat] in Hc. rewrite <- app_assoc in Hc. cbn [app] in Hc.
    destruct (scan_reads x sp (write_all l) c Hx Hsp Hc) as (t & c' & E & Ht & Hc').
    destruct (IH [32] c') as (ts & E2 & Hts); [by repeat constructor|done|].
    exists (t :: ts). cbn [length]. cbn [tokens]. rewrite E. cbn [obind].
    assert (is_op (t_kind t) T_EOF = false) as ->.
    { destruct (is_op _ _) eqn:Eo; [|done]. apply is_op_true in Eo. by destruct (not_eof x Hx); rewrite <- Ht. }
    cbn [length] in E2. cbn [tokens] in E2. rewrite E2. cbn [obind]. split; [done|]. rewrite !fmap_cons, Ht, Hts. done.
Qed.
Lemma lexer_round_trip_witness :
  let l := [LWord (str "fn"); LWord (str "size_of"); LOp "("; LInt (str "42"); LOp "<<"; LStr [104; 10; 34; 0]; LOp "/"] in
  Forall written l /\ exists ts, tokens 8 (Cur (write_all l) 1 1) = Ret (inr ts)
    /\ reads <$> ts = [(T_FN, str "fn", 0); (T_IDENT, str "size_of", 0); (T_LPAREN, [], 0); (T_INT, [], 42); (T_SHL, [], 0);
                      (T_STR, [104; 10; 34; 0], 0); (T_SLASH, [], 0); (T_EOF, [], 0)].
Proof.
  intros l. assert (Forall written l) as Hl.
  { unfold l. repeat constructor; try done; try (apply (bool_decide_unpack _); vm_compute; exact I). }
  split; [exact Hl|exact (lexer_round_trip l Hl)].
Defined.
