(* ===== verification/SavParse.v ===== *)
(** * The sav parser

    [sav/src/parse.c]: recursive descent over [SavLex], building the tree of
    [SavTypes].  The C functions that call themselves and each other take fuel;
    a loop over tokens too.  [files] is the file system: the contents of a path,
    if there is such a file. *)
From stdpp Require Import strings.
From S2P Require Import Prelude SavTypes SavLex.
Open Scope Z_scope.

Inductive pdiag :=
  | Lexical (d : ldiag) | Expected (wanted found : tokkind) | DevNotPointer | ArrayLength | NoSuchType | ExpectedValue (found : tokkind)
  | MethodWithDot | BlockOpen | ExpectedType (found : tokkind) | NeitherTypeNorValue | NoArms | CaseCarriesAggregate | NoCases | TwoEntries | EntryWithoutFn
  | ConstNotNumber | GlobalWithValue | UseWithoutFile | NoFile | ExpectedDeclaration (found : tokkind).

(** [P], with the unit it builds; the functions in order, the globals the
    latest first, as the unit has them. *)
Record pstate := Ps {
  lx : lexer; fns : list func; globals : list sym; structs : list ty; entry : option nat;
  file : list Z; text : list Z; loaded : list (list Z)
}.
Definition set_lx v p := Ps v (fns p) (globals p) (structs p) (entry p) (file p) (text p) (loaded p).
Definition add_fn f p := Ps (lx p) (fns p ++ [f]) (globals p) (structs p) (entry p) (file p) (text p) (loaded p).
Definition add_global y p := Ps (lx p) (fns p) (y :: globals p) (structs p) (entry p) (file p) (text p) (loaded p).
Definition add_struct t p := Ps (lx p) (fns p) (globals p) (structs p ++ [t]) (entry p) (file p) (text p) (loaded p).
Definition set_entry i p := Ps (lx p) (fns p) (globals p) (structs p) (Some i) (file p) (text p) (loaded p).
Definition set_source f t l p := Ps l (fns p) (globals p) (structs p) (entry p) f t (loaded p).
Definition add_loaded f p := Ps (lx p) (fns p) (globals p) (structs p) (entry p) (file p) (text p) (f :: loaded p).
Abbreviation par := (stm pstate pdiag).

(** [p->lx.tok]. *)
Definition tok : par token := fun p => Ret (inr (lx_tok (lx p), p)).
Definition kind : par tokkind := do! t := tok in sret (t_kind t).
Definition next : par () := fun p =>
  let! r := lex_next (lx p) in
  match r with inl d => Ret (inl (Lexical d)) | inr l => Ret (inr ((), set_lx l p)) end.
Definition peek : par token := fun p =>
  let! r := lex_peek (lx p) in
  match r with inl d => Ret (inl (Lexical d)) | inr (t, l) => Ret (inr (t, set_lx l p)) end.
Definition expect (k : tokkind) : par () :=
  do! t := kind in do! _ := when (negb (is_op t k)) (Expected k t) in next.
Definition accept (k : tokkind) : par bool :=
  do! t := kind in if is_op t k then do! _ := next in sret true else sret false.
Definition expect_ident : par string :=
  do! t := tok in do! _ := when (negb (is_op (t_kind t) T_IDENT)) (Expected T_IDENT (t_kind t)) in
  do! _ := next in sret (name_of (t_text t)).

(** ** The text of a clause *)
(** The rest of the text from the first place, and from the second or the end. *)
Fixpoint span_loop (p : list Z) (line col l1 c1 l2 c2 : Z) (start : option (list Z)) : option (list Z) * list Z :=
  let start := if (line =? l1) && (col =? c1) then Some p else start in
  if (line =? l2) && (col =? c2) then (start, p) else
  match p with
  | [] => (start, p)
  | b :: q =>
      if b =? 0 then (start, p)
      else if b =? 10 then span_loop q (line + 1) 1 l1 c1 l2 c2 start else span_loop q line (col + 1) l1 c1 l2 c2 start
  end.
Fixpoint drop_spaces (l : list Z) : list Z :=
  match l with b :: l' => if is_space b then drop_spaces l' else l | [] => [] end.
Definition src_span (text : list Z) (l1 c1 l2 c2 : Z) : list Z :=
  match span_loop text 1 1 l1 c1 l2 c2 None with
  | (Some s, e) => rev (drop_spaces (rev (take (length s - length e) s)))
  | (None, _) => []
  end.

(** ** Types *)
Definition type_name (t : ty) : option string :=
  match t with TyStruct s _ _ _ => Some s | TyEnum s _ _ => Some s | _ => None end.
Definition find_struct (name : string) (l : list ty) : option ty := snd <$> list_find (fun t => type_name t = Some name) l.
Definition ints : list (string * ty) := [
  ("i8", TyInt W8 true); ("i16", TyInt W16 true); ("i32", TyInt W32 true); ("i64", TyInt W64 true);
  ("u8", TyInt W8 false); ("u16", TyInt W16 false); ("u32", TyInt W32 false); ("u64", TyInt W64 false)
]%string.
Fixpoint assoc {A} (name : string) (l : list (string * A)) : option A :=
  match l with [] => None | (n, t) :: l => if (name =? n)%string then Some t else assoc name l end.
Definition type_named (name : string) (structs : list ty) : option ty :=
  match assoc name ints with
  | Some t => Some t
  | None =>
      if (name =? "bool")%string then Some TyBool else if (name =? "void")%string then Some TyVoid
      else match cap_by_name name with Some i => Some (TyCap i) | None => find_struct name structs end
  end.
Fixpoint parse_type (fuel : nat) : par ty :=
  match fuel with O => sdiverge | S fuel =>
    do! is_dev := accept T_DEV in
    do! star := accept T_STAR in
    if star : bool then do! t := parse_type fuel in sret (TyPtr t is_dev) else
    do! _ := when is_dev DevNotPointer in
    do! bracket := accept T_LBRACK in
    if bracket : bool then
      do! closed := accept T_RBRACK in
      if closed : bool then do! t := parse_type fuel in sret (TySlice t) else
      do! t := tok in
      do! _ := when (negb (is_op (t_kind t) T_INT)) ArrayLength in
      do! _ := next in
      do! _ := expect T_RBRACK in
      do! e := parse_type fuel in sret (TyArray e (t_ival t))
    else
      do! t := tok in
      do! _ := when (negb (is_op (t_kind t) T_IDENT)) (ExpectedType (t_kind t)) in
      do! _ := next in
      do! p := sget in
      match type_named (name_of (t_text t)) (structs p) with Some t => sret t | None => die NoSuchType end
  end.

(** ** Expressions *)
Definition node (line : Z) (k : ekind expr) : expr := Ex line TyVoid false k.
Section expr.
(** [parse_expr], and fuel for types and lists. *)
Context (fuel : nat) (pe : par expr).

Fixpoint args_loop (n : nat) : par (list expr) :=
  match n with O => sdiverge | S n =>
    do! e := pe in
    do! more := accept T_COMMA in
    if more : bool then do! l := args_loop n in sret (e :: l) else sret [e]
  end.
(** The arguments after an opening parenthesis, and the closing one. *)
Definition parse_args : par (list expr) :=
  do! k := kind in
  do! l := if is_op k T_RPAREN then sret [] else args_loop fuel in
  do! _ := expect T_RPAREN in sret l.

Definition parse_primary : par expr :=
  do! t := tok in
  let line := t_line t in
  match t_kind t with
  | T_INT => do! _ := next in sret (node line (E_INT (t_ival t)))
  | T_TRUE => do! _ := next in sret (node line (E_BOOL 1))
  | T_FALSE => do! _ := next in sret (node line (E_BOOL 0))
  | T_STR => do! _ := next in sret (node line (E_STR (t_text t)))
  | T_SIZE =>
      do! _ := next in do! _ := expect T_LPAREN in
      do! ty := parse_type fuel in
      do! _ := expect T_RPAREN in sret (Ex line ty false E_SIZE)
  | T_LPAREN => do! _ := next in do! e := pe in do! _ := expect T_RPAREN in sret e
  | T_IDENT =>
      let name := name_of (t_text t) in
      do! _ := next in
      do! k := kind in
      if is_op k T_LPAREN then
        do! _ := next in do! args := parse_args in sret (node line (E_CALL name args None 0))
      else sret (node line (E_VAR name None))
  | k => die (ExpectedValue k)
  end.

(** The enum a name before a dot is. *)
Definition enum_of (e : expr) (structs : list ty) : option ty :=
  match e_kind e with
  | E_VAR name _ => match find_struct name structs with Some (TyEnum n vs sz) => Some (TyEnum n vs sz) | _ => None end
  | _ => None
  end.
Fixpoint postfix_loop (n : nat) (e : expr) : par expr :=
  match n with O => sdiverge | S n =>
    let line := e_line e in
    do! k := kind in
    match k with
    | T_BANG =>
        do! _ := next in
        do! name := expect_ident in
        do! _ := expect T_LPAREN in
        do! args := parse_args in
        postfix_loop n (node line (E_METHOD e name args None))
    | T_AT => do! _ := next in postfix_loop n (node line (E_DEREF T_AT e))
    | T_DOT =>
        do! _ := next in
        do! name := expect_ident in
        do! p := sget in
        match enum_of e (structs p) with
        | Some en =>
            do! open := accept T_LPAREN in
            do! args := if open : bool then parse_args else sret [] in
            postfix_loop n (Ex line en false (E_VARIANT name args None 0))
        | None =>
            do! k := kind in
            do! _ := when (is_op k T_LPAREN) MethodWithDot in
            postfix_loop n (node line (E_FIELD e name None))
        end
    | T_LBRACK =>
        do! _ := next in
        do! i := pe in
        do! slice := accept T_DOTDOT in
        if slice : bool then
          do! k := kind in
          do! hi := if is_op k T_RBRACK then sret None else do! hi := pe in sret (Some hi) in
          do! _ := expect T_RBRACK in
          postfix_loop n (node line (E_SLICE e i hi))
        else
          do! _ := expect T_RBRACK in
          postfix_loop n (node line (E_INDEX e i))
    | _ => sret e
    end
  end.
Definition parse_postfix : par expr := do! e := parse_primary in postfix_loop fuel e.

Fixpoint casts_loop (n : nat) (e : expr) : par expr :=
  match n with O => sdiverge | S n =>
    do! more := accept T_AS in
    if more : bool then do! t := parse_type fuel in casts_loop n (Ex (e_line e) t false (E_CAST e)) else sret e
  end.
(** [*e] has no [op] of its own: the field keeps the zero it was made with. *)
Fixpoint parse_unary (n : nat) : par expr :=
  match n with O => sdiverge | S n =>
    do! t := tok in
    match t_kind t with
    | T_MINUS | T_BANG | T_TILDE => do! _ := next in do! a := parse_unary n in sret (node (t_line t) (E_UNARY (t_kind t) a))
    | T_AMP => do! _ := next in do! a := parse_unary n in sret (node (t_line t) (E_ADDR a))
    | T_STAR => do! _ := next in do! a := parse_unary n in sret (node (t_line t) (E_DEREF T_EOF a))
    | _ => do! e := parse_postfix in casts_loop fuel e
    end
  end.

Definition prec_of (k : tokkind) : Z :=
  match k with
  | T_STAR | T_SLASH | T_PERCENT => 10
  | T_PLUS | T_MINUS => 9
  | T_SHL | T_SHR => 8
  | T_LT | T_LE | T_GT | T_GE => 7
  | T_EQEQ | T_NE => 6
  | T_AMP => 5
  | T_CARET => 4
  | T_PIPE => 3
  | T_ANDAND => 2
  | T_OROR => 1
  | _ => 0
  end.
(** [parse_binary] from its beginning, or from inside its loop with what is
    there so far. *)
Fixpoint parse_binary (n : nat) (min_prec : Z) (lhs : option expr) : par expr :=
  match n with O => sdiverge | S n =>
    do! lhs := match lhs with Some e => sret e | None => parse_unary n end in
    do! t := tok in
    let prec := prec_of (t_kind t) in
    if (prec =? 0) || (prec <? min_prec) then sret lhs else
    do! _ := next in
    do! rhs := parse_binary n (prec + 1) None in
    parse_binary n min_prec (Some (node (t_line t) (E_BINARY (t_kind t) lhs rhs)))
  end.
End expr.
Fixpoint parse_expr (fuel : nat) : par expr :=
  match fuel with O => sdiverge | S fuel =>
    do! lhs := parse_binary fuel (parse_expr fuel) fuel 1 None in
    do! t := tok in
    match t_kind t with
    | T_ASSIGN => do! _ := next in do! rhs := parse_expr fuel in sret (node (t_line t) (E_ASSIGN lhs rhs))
    | T_PLUSEQ => do! _ := next in do! rhs := parse_expr fuel in sret (node (t_line t) (E_UPDATE T_PLUS lhs rhs TyVoid))
    | T_MINUSEQ => do! _ := next in do! rhs := parse_expr fuel in sret (node (t_line t) (E_UPDATE T_MINUS lhs rhs TyVoid))
    | _ => sret lhs
    end
  end.
(** [parse_binary(p, 1)]. *)
Definition parse_operand (fuel : nat) : par expr := parse_binary fuel (parse_expr fuel) fuel 1 None.

(** ** Statements *)
(** Statements up to the closing brace. *)
Fixpoint block_loop (ps : par stmt) (n : nat) : par (list stmt) :=
  match n with O => sdiverge | S n =>
    do! k := kind in
    if is_op k T_RBRACE then sret [] else
    do! _ := when (is_op k T_EOF) BlockOpen in
    do! s := ps in do! l := block_loop ps n in sret (s :: l)
  end.
Definition parse_block (fuel : nat) (ps : par stmt) : par stmt :=
  do! _ := expect T_LBRACE in
  do! l := block_loop ps fuel in
  do! _ := expect T_RBRACE in sret (S_BLOCK l).
Fixpoint binds_loop (n : nat) : par (list string) :=
  match n with O => sdiverge | S n =>
    do! k := kind in
    if is_op k T_RPAREN then sret [] else
    do! b := expect_ident in
    do! more := accept T_COMMA in
    if more : bool then do! l := binds_loop n in sret (b :: l) else sret [b]
  end.
Fixpoint arms_loop (fuel : nat) (ps : par stmt) (n : nat) : par (list arm) :=
  match n with O => sdiverge | S n =>
    do! k := kind in
    if is_op k T_RBRACE then sret [] else
    do! is_else := accept T_ELSE in
    do! r :=
      if is_else : bool then sret (""%string, []) else
      do! name := expect_ident in
      do! open := accept T_LPAREN in
      if open : bool then do! binds := binds_loop fuel in do! _ := expect T_RPAREN in sret (name, binds) else sret (name, []) in
    let '(name, binds) := r in
    do! _ := expect T_ARROW in
    do! body := ps in
    do! l := arms_loop fuel ps n in sret (Arm name is_else None binds [] body :: l)
  end.
Fixpoint parse_stmt (fuel : nat) : par stmt :=
  match fuel with O => sdiverge | S fuel =>
  let expr := parse_expr fuel in
  let block := parse_block fuel (parse_stmt fuel) in
  do! t := tok in
  match t_kind t with
  | T_LBRACE => block
  | T_LET | T_VAR =>
      do! _ := next in
      do! name := expect_ident in
      do! colon := accept T_COLON in
      do! type := if colon : bool then do! t := parse_type fuel in sret (Some t) else sret None in
      do! eq := accept T_ASSIGN in
      do! init :=
        if eq : bool then do! e := expr in sret (Some e)
        else do! _ := when (match type with None => true | _ => false end) NeitherTypeNorValue in sret None in
      do! _ := expect T_SEMI in sret (S_LET name type init None (is_op (t_kind t) T_VAR))
  | T_IF =>
      do! _ := next in
      do! c := expr in
      do! a := block in
      do! other := accept T_ELSE in
      do! b :=
        if other : bool then
          do! k := kind in
          do! b := if is_op k T_IF then parse_stmt fuel else block in sret (Some b)
        else sret None in
      sret (S_IF c a b)
  | T_WHILE => do! _ := next in do! c := expr in do! b := block in sret (S_WHILE c b)
  | T_FOR =>
      do! _ := next in
      do! name := expect_ident in
      do! _ := expect T_IN in
      do! lo := parse_operand fuel in
      do! _ := expect T_DOTDOT in
      do! hi := parse_operand fuel in
      do! b := block in sret (S_FOR name lo hi None b)
  | T_RETURN =>
      do! _ := next in
      do! k := kind in
      do! e := if is_op k T_SEMI then sret None else do! e := expr in sret (Some e) in
      do! _ := expect T_SEMI in sret (S_RETURN e)
  | T_BREAK => do! _ := next in do! _ := expect T_SEMI in sret S_BREAK
  | T_CONTINUE => do! _ := next in do! _ := expect T_SEMI in sret S_CONTINUE
  | T_MATCH =>
      do! _ := next in
      do! e := expr in
      do! _ := expect T_LBRACE in
      do! arms := arms_loop fuel (parse_stmt fuel) fuel in
      do! _ := expect T_RBRACE in
      do! _ := when (match arms with [] => true | _ => false end) NoArms in
      sret (S_MATCH e arms 0)
  | T_ASSERT =>
      do! _ := next in
      do! a := tok in
      do! c := expr in
      do! b := tok in
      do! p := sget in
      let quoted := src_span (text p) (t_line a) (t_col a) (t_line b) (t_col b) in
      do! _ := expect T_SEMI in sret (S_ASSERT c quoted (t_line t))
  | _ => do! e := expr in do! _ := expect T_SEMI in sret (S_EXPR e)
  end end.

(** ** Declarations *)
(** [off] brought up to [t]'s alignment, and past [t]; [int]s that must not
    overflow. *)
Definition place_field (off : Z) (t : ty) : par (Z * Z) :=
  let at_ := Z.ldiff (off + ty_align t - 1) (ty_align t - 1) in
  if in_int (off + ty_align t - 1) && in_int (at_ + ty_size t) then sret (at_, at_ + ty_size t) else sfault.
Definition round_up (n a : Z) : par Z := if in_int (n + a - 1) then sret (Z.ldiff (n + a - 1) (a - 1)) else sfault.

(** The fields up to [close], from [off] on: with them the end and the largest
    alignment. *)
Fixpoint fields_loop (fuel : nat) (close : tokkind) (in_case : bool) (n : nat) (off align : Z) : par (list field * Z * Z) :=
  match n with O => sdiverge | S n =>
    do! k := kind in
    if is_op k close then sret ([], off, align) else
    do! name := expect_ident in
    do! _ := expect T_COLON in
    do! t := parse_type fuel in
    do! _ := when (in_case && match t with TyEnum _ _ _ | TyStruct _ _ _ _ => true | _ => false end) CaseCarriesAggregate in
    let align := Z.max (ty_align t) align in
    do! r := place_field off t in let '(at_, off) := r in
    do! more := accept T_COMMA in
    if more : bool then
      do! r := fields_loop fuel close in_case n off align in let '(fs, off, align) := r in sret ((name, t, at_) :: fs, off, align)
    else sret ([(name, t, at_)], off, align)
  end.
Definition parse_struct (fuel : nat) : par () :=
  do! _ := next in
  do! name := expect_ident in
  do! _ := expect T_LBRACE in
  do! r := fields_loop fuel T_RBRACE false fuel 0 1 in let '(fs, off, align) := r in
  do! _ := expect T_RBRACE in
  do! size := round_up off align in
  smod (add_struct (TyStruct name fs size align)).

Fixpoint cases_loop (fuel n : nat) (biggest : Z) : par (list variant * Z) :=
  match n with O => sdiverge | S n =>
    do! k := kind in
    if is_op k T_RBRACE then sret ([], biggest) else
    do! name := expect_ident in
    do! open := accept T_LPAREN in
    do! r :=
      if open : bool then
        do! r := fields_loop fuel T_RPAREN true fuel 8 1 in let '(fs, off, _) := r in
        do! _ := expect T_RPAREN in sret (fs, off)
      else sret ([], 8) in
    let '(fs, off) := r in
    let biggest := Z.max off biggest in
    do! more := accept T_COMMA in
    if more : bool then do! r := cases_loop fuel n biggest in let '(vs, biggest) := r in sret ((name, fs) :: vs, biggest)
    else sret ([(name, fs)], biggest)
  end.
Definition parse_enum (fuel : nat) : par () :=
  do! _ := next in
  do! name := expect_ident in
  do! _ := expect T_LBRACE in
  do! r := cases_loop fuel fuel 8 in let '(vs, biggest) := r in
  do! _ := expect T_RBRACE in
  do! _ := when (match vs with [] => true | _ => false end) NoCases in
  do! size := round_up biggest 8 in
  smod (add_struct (TyEnum name vs size)).

Fixpoint params_loop (fuel n : nat) : par (list sym) :=
  match n with O => sdiverge | S n =>
    do! k := kind in
    if is_op k T_RPAREN then sret [] else
    do! name := expect_ident in
    do! _ := expect T_COLON in
    do! t := parse_type fuel in
    let y := Sym SYM_PARAM name t 0 0 0 0 in
    do! more := accept T_COMMA in
    if more : bool then do! l := params_loop fuel n in sret (y :: l) else sret [y]
  end.
(** The clauses after one [needs] or [gives]. *)
Fixpoint clauses_loop (fuel n : nat) : par (list contract) :=
  match n with O => sdiverge | S n =>
    do! a := tok in
    do! e := parse_expr fuel in
    do! b := tok in
    do! p := sget in
    let k := Contract e (t_line a) (src_span (text p) (t_line a) (t_col a) (t_line b) (t_col b)) in
    do! more := accept T_COMMA in
    if more : bool then do! l := clauses_loop fuel n in sret (k :: l) else sret [k]
  end.
Fixpoint contracts_loop (fuel n : nat) : par (list contract * list contract) :=
  match n with O => sdiverge | S n =>
    do! k := kind in
    if is_op k T_NEEDS then
      do! _ := next in do! l := clauses_loop fuel fuel in
      do! r := contracts_loop fuel n in let '(req, ens) := r in sret (l ++ req, ens)
    else if is_op k T_GIVES then
      do! _ := next in do! l := clauses_loop fuel fuel in
      do! r := contracts_loop fuel n in let '(req, ens) := r in sret (req, l ++ ens)
    else sret ([], [])
  end.
Definition parse_fn (fuel : nat) (is_entry : bool) : par () :=
  do! p := sget in
  let file := file p in
  do! _ := next in
  do! name := expect_ident in
  do! _ := expect T_LPAREN in
  do! params := params_loop fuel fuel in
  do! _ := expect T_RPAREN in
  do! arrow := accept T_ARROW in
  do! r :=
    if arrow : bool then
      do! t := tok in
      do! named := if is_op (t_kind t) T_IDENT then do! a := peek in sret (is_op (t_kind a) T_COLON) else sret false in
      do! ret_name := if named : bool then do! _ := next in do! _ := next in sret (Some (name_of (t_text t))) else sret None in
      do! ret := parse_type fuel in sret (ret_name, ret)
    else sret (None, TyVoid) in
  let '(ret_name, ret) := r in
  do! r := contracts_loop fuel fuel in let '(req, ens) := r in
  do! body := parse_block fuel (parse_stmt fuel) in
  do! p := sget in
  let at_ := length (fns p) in
  do! _ := smod (add_fn (Fn name file params ret ret_name req ens body is_entry 0 0 0)) in
  if is_entry then
    do! _ := when (match entry p with Some _ => true | None => false end) TwoEntries in
    smod (set_entry at_)
  else sret ().

(** ** Files *)
Section files.
Context (files : list Z -> option (list Z)).
(** A C string. *)
Fixpoint upto_nul (l : list Z) : list Z := match l with b :: l => if b =? 0 then [] else b :: upto_nul l | [] => [] end.
(** Up to the last slash, with it. *)
Fixpoint dir_of (l acc : list Z) (dir : option (list Z)) : option (list Z) :=
  match l with
  | [] => dir
  | b :: l => let acc := acc ++ [b] in dir_of l acc (if b =? 47 then Some acc else dir)
  end.
Definition resolve_beside (including what : list Z) : list Z :=
  if head what is Some 47 then what else
  match dir_of including [] None with Some dir => dir ++ what | None => what end.
Definition same_path (a b : list Z) : bool := bool_decide (a = b).
(** [parse_path], [decls] being [parse_decls]. *)
Definition parse_path (decls : par ()) (what : list Z) : par () :=
  do! p := sget in
  let path := resolve_beside (file p) (upto_nul what) in
  if existsb (same_path path) (loaded p) then sret () else
  match files path with
  | None => die NoFile
  | Some t =>
      do! _ := smod (add_loaded path) in
      do! r := of_outcome (lex_init t) in
      match r with
      | inl d => die (Lexical d)
      | inr l =>
          do! _ := smod (set_source path t l) in
          do! _ := decls in
          smod (set_source (file p) (text p) (lx p))
      end
  end.
Fixpoint parse_decls (fuel : nat) : par () :=
  match fuel with O => sdiverge | S fuel =>
    do! t := tok in
    match t_kind t with
    | T_EOF => sret ()
    | T_STRUCT => do! _ := parse_struct fuel in parse_decls fuel
    | T_ENUM => do! _ := parse_enum fuel in parse_decls fuel
    | T_FN => do! _ := parse_fn fuel false in parse_decls fuel
    | T_ENTRY =>
        do! _ := next in
        do! k := kind in
        do! _ := when (negb (is_op k T_FN)) EntryWithoutFn in
        do! _ := parse_fn fuel true in parse_decls fuel
    | T_CONST =>
        do! _ := next in
        do! name := expect_ident in
        do! _ := expect T_COLON in
        do! ty := parse_type fuel in
        do! _ := expect T_ASSIGN in
        do! v := tok in
        do! cval :=
          match t_kind v with
          | T_INT => sret (t_ival v) | T_TRUE => sret 1 | T_FALSE => sret 0 | _ => die ConstNotNumber
          end in
        do! _ := next in
        do! _ := expect T_SEMI in
        do! _ := smod (add_global (Sym SYM_CONST name ty 0 cval 0 0)) in parse_decls fuel
    | T_VAR =>
        do! _ := next in
        do! name := expect_ident in
        do! _ := expect T_COLON in
        do! ty := parse_type fuel in
        do! k := kind in
        do! _ := when (is_op k T_ASSIGN) GlobalWithValue in
        do! _ := expect T_SEMI in
        do! _ := smod (add_global (Sym SYM_GLOBAL name ty 0 0 0 0)) in parse_decls fuel
    | T_USE =>
        do! _ := next in
        do! w := tok in
        do! _ := when (negb (is_op (t_kind w) T_STR)) UseWithoutFile in
        do! _ := next in
        do! _ := expect T_SEMI in
        do! _ := parse_path (parse_decls fuel) (t_text w) in parse_decls fuel
    | k => die (ExpectedDeclaration k)
    end
  end.

(** [parse_into], on the unit as it is so far. *)
Definition parse_into (fuel : nat) (path : list Z) (fs : list func) (gs : list sym) (ss : list ty) (en : option nat)
    : outcome (pdiag + list func * list sym * list ty * option nat) :=
  match files path with
  | None => Ret (inl NoFile)
  | Some t =>
      let! r := lex_init t in
      match r with
      | inl d => Ret (inl (Lexical d))
      | inr l =>
          let! r := parse_decls fuel (Ps l fs gs ss en path t [path]) in
          match r with
          | inl d => Ret (inl d)
          | inr (_, p) => Ret (inr (fns p, globals p, structs p, entry p))
          end
      end
  end.
(** The files of a command line, into one unit. *)
Fixpoint parse_all (fuel : nat) (paths : list (list Z)) (fs : list func) (gs : list sym) (ss : list ty) (en : option nat) : outcome (pdiag + unit_) :=
  match paths with
  | [] => Ret (inr (Unit fs (imap (fun i y => Sym (y_kind y) (y_name y) (y_type y) (y_offset y) (y_cval y) (y_reg y) i) gs) ss en))
  | path :: paths =>
      let! r := parse_into fuel path fs gs ss en in
      match r with inl d => Ret (inl d) | inr (fs, gs, ss, en) => parse_all fuel paths fs gs ss en end
  end.
End files.
