(* ===== verification/SavCheck.v ===== *)
(** * The sav compiler's checker

    [sav/src/check.c]: names, types, and the rules of the language, with the
    frame laid out and the manifest recorded on the way.  The checker edits the
    tree it walks; here it returns the edited tree.  A refusal is a [diag], one
    per message; the printing of it is left out.  [fuel] bounds the depth of an
    expression or a statement. *)
From stdpp Require Import strings.
From S2P Require Import Prelude SavTypes.
Open Scope Z_scope.

(** ** What the checker says when it refuses *)
Inductive diag :=
  | AlreadyDeclared | IsResultName | WantsType | NotAPlace | IsAFunction | NoSuchName | NoSuchFunction | CallsEntry | WrongArgCount
  | NotACapability | NoSuchMethod | WantsNumber | ComparesTypes | WantsNumbers | TypesDoNotMix | IndexNotNumber
  | IndexesDevice | IndexesPointer | NotIndexable | IndexOutside | DotOnCapability | DotOnDevice | NoFields | NoSuchField
  | SlicesDevice | NotSliceable | PointerHasNoEnd | FollowsNonPointer | AtOnMemory | StarOnDevice | DevCastAway
  | CapabilityCast | BadCast | NoSuchCase | WrongCaseCount | ClauseNotBool | ClauseDecided | ClauseVacuous | ClauseNotAboutResult
  | GivenNothing | CapabilityVar | ForNotNumbers | ReturnsNothing | ReturnNeedsValue | OutsideLoop
  | MatchNotEnum | ArmAfterElse | CaseTaken | BindsCount | CasesMissing | ElseNeverRuns | CheckDecided | CheckVacuous
  | ParamVoid | ParamAggregate | EntryParamNotCap | TooManyRegs | GivesOnAggregate | GivesUnnamed | NoReturn
  | GlobalCapability | NoEntry | BadEntryResult.

(** ** The checker's state

    [frame]: bytes of the frame used so far.  [scope]: the blocks around, the
    innermost first, each with its latest symbol first. *)
Record cstate := CS { frame : Z; scope : list (list sym); sys_used : list Z; caps_used : list string }.
Definition set_frame v s := CS v (scope s) (sys_used s) (caps_used s).
Definition set_scope v s := CS (frame s) v (sys_used s) (caps_used s).
Definition set_sys v s := CS (frame s) (scope s) v (caps_used s).
Definition set_caps v s := CS (frame s) (scope s) (sys_used s) v.

Abbreviation chk := (stm cstate diag).

(** [c->frame += (n + 7) & ~7;] *)
Definition take_frame (n : Z) : chk Z :=
  do! s := sget in
  let f := frame s + Z.ldiff (n + 7) 7 in
  if in_int (n + 7) && in_int f then do! _ := smod (set_frame f) in sret f else sfault.

(** ** The manifest *)
Definition record_syscall (n : Z) : chk () := smod (fun s =>
  if (n =? 0) || existsb (fun m => m =? n) (sys_used s) then s
  else if (length (sys_used s) <? 64)%nat then set_sys (sys_used s ++ [n]) s else s).
Definition record_cap (name : string) : chk () := smod (fun s =>
  if existsb (fun m => (m =? name)%string) (caps_used s) then s
  else if (length (caps_used s) <? 16)%nat then set_caps (caps_used s ++ [name]) s else s).

(** ** Scopes *)
Definition named (name : string) (y : sym) : bool := (y_name y =? name)%string.
Definition find_sym (name : string) (l : list sym) : option sym := snd <$> list_find (fun y => named name y = true) l.
Definition lookup_sym (u : unit_) (sc : list (list sym)) (name : string) : option sym :=
  match find_sym name (concat sc) with Some y => Some y | None => find_sym name (u_globals u) end.
Definition push_scope : chk () := smod (fun s => set_scope ([] :: scope s) s).
Definition pop_scope : chk () := smod (fun s => set_scope (tl (scope s)) s).
Definition scope_add (y : sym) : chk () := smod (fun s => set_scope (match scope s with b :: r => (y :: b) :: r | [] => [[y]] end) s).

Definition slot_size (t : ty) : Z := if ty_size t <? 8 then 8 else ty_size t.
(** [fn]: the function being checked. *)
Definition declare (fn : func) (name : string) (t : ty) : chk sym :=
  do! s := sget in
  do! _ := when (existsb (named name) (default [] (head (scope s)))) AlreadyDeclared in
  do! _ := when (match f_ret_name fn with Some r => (r =? name)%string | None => false end) IsResultName in
  do! off := take_frame (slot_size t) in
  let y := Sym SYM_LOCAL name t off 0 0 0 in
  do! _ := scope_add y in sret y.

Fixpoint fn_index (name : string) (l : list func) (i : nat) : option nat :=
  match l with
  | [] => None
  | f :: l => if (f_name f =? name)%string then Some i else fn_index name l (S i)
  end.
Definition find_fn (u : unit_) (name : string) : option nat := fn_index name (u_fns u) 0.

(** ** Constants the compiler can work out

    [Ret None] is the answer 0.  Signed overflow is left undefined by C, and so
    is the quotient that does not fit. *)
Definition fits (v : Z) : outcome (option Z) := if in_i64 v then Ret (Some v) else Fault.
Definition b2z (b : bool) : Z := if b then 1 else 0.
Definition const_unary (op : tokkind) (a : Z) : outcome (option Z) :=
  if is_op op T_MINUS then fits (- a) else Ret (Some (if is_op op T_BANG then b2z (a =? 0) else Z.lnot a)).
Definition const_binary (op : tokkind) (a b : Z) : outcome (option Z) :=
  match op with
  | T_PLUS => fits (a + b)
  | T_MINUS => fits (a - b)
  | T_STAR => fits (a * b)
  | T_SLASH => if b =? 0 then Ret None else fits (Z.quot a b)
  | T_PERCENT => if b =? 0 then Ret None else if in_i64 (Z.quot a b) then Ret (Some (Z.rem a b)) else Fault
  | T_LT => Ret (Some (b2z (a <? b)))
  | T_LE => Ret (Some (b2z (a <=? b)))
  | T_GT => Ret (Some (b2z (b <? a)))
  | T_GE => Ret (Some (b2z (b <=? a)))
  | T_EQEQ => Ret (Some (b2z (a =? b)))
  | T_NE => Ret (Some (b2z (negb (a =? b))))
  | T_ANDAND => Ret (Some (b2z (negb (a =? 0) && negb (b =? 0))))
  | T_OROR => Ret (Some (b2z (negb (a =? 0) || negb (b =? 0))))
  | _ => Ret None
  end.
Fixpoint const_value (e : expr) : outcome (option Z) :=
  match e with Ex _ _ _ k =>
    match k with
    | E_INT v | E_BOOL v => Ret (Some v)
    | E_UNARY op a => let! x := const_value a in match x with Some x => const_unary op x | None => Ret None end
    | E_BINARY op a b =>
        let! x := const_value a in
        match x with
        | None => Ret None
        | Some x => let! y := const_value b in match y with Some y => const_binary op x y | None => Ret None end
        end
    | _ => Ret None
    end
  end.

(** ** Whether a claim can differ between two runs *)
Fixpoint depends (allow_result : bool) (e : expr) : bool :=
  match e with Ex _ _ _ k =>
    match k with
    | E_INT _ | E_BOOL _ | E_STR _ | E_SIZE => false
    | E_VAR _ None => false
    | E_VAR _ (Some y) => match y_kind y with SYM_RESULT => allow_result | SYM_CONST => false | _ => true end
    | E_CALL _ _ _ _ | E_METHOD _ _ _ _ | E_VARIANT _ _ _ _ => true
    | E_LEN a | E_DEREF _ a | E_ADDR a | E_FIELD a _ _ | E_CAST a | E_UNARY _ a => depends allow_result a
    | E_BINARY _ a b | E_INDEX a b | E_ASSIGN a b => depends allow_result a || depends allow_result b
    | E_UPDATE _ a b _ => depends allow_result a || (depends allow_result a || depends allow_result b)
    | E_SLICE a b c => depends allow_result a || depends allow_result b || match c with Some c => depends allow_result c | None => false end
    end
  end.

Fixpoint always_returns (s : stmt) : bool :=
  match s with
  | S_RETURN _ => true
  | S_BLOCK l =>
      (fix last_returns (l : list stmt) : bool :=
         match l with [] => false | [s] => always_returns s | _ :: l => last_returns l end) l
  | S_IF _ a (Some b) => always_returns a && always_returns b
  | _ => false
  end.

(** ** Expressions *)
Section check.
Context (u : unit_).

Definition is_literal (e : expr) : bool := match e_kind e with E_INT _ => true | _ => false end.
(** [want]: the expression as it is after it. *)
Definition want (e : expr) (t : ty) : chk expr :=
  if is_literal e && ty_is_int t then sret (with_type t e) else
  if is_literal e && match t with TyPtr _ _ => true | _ => false end then sret (with_type t e) else
  if ty_same (e_type e) t then sret e else die WantsType.
Definition need_lvalue (e : expr) : chk () := when (negb (e_lv e)) NotAPlace.

Definition is_compare (op : tokkind) : bool := existsb (is_op op) [T_EQEQ; T_NE; T_LT; T_LE; T_GT; T_GE].
(** The two sides of an operator, checked: its type, and the sides after. *)
Definition check_binary (op : tokkind) (a b : expr) : chk (ty * expr * expr) :=
  if is_op op T_ANDAND || is_op op T_OROR then
    do! a := want a TyBool in do! b := want b TyBool in sret (TyBool, a, b)
  else
    let a := if is_literal a && negb (is_literal b) && ty_is_int (e_type b) then with_type (e_type b) a else a in
    let b := if is_literal b && negb (is_literal a) && ty_is_int (e_type a) then with_type (e_type a) b else b in
    if is_compare op then
      do! _ := when (negb (ty_same (e_type a) (e_type b))) ComparesTypes in sret (TyBool, a, b)
    else if match e_type a with TyPtr _ _ => true | _ => false end && ty_is_int (e_type b) && (is_op op T_PLUS || is_op op T_MINUS)
    then sret (e_type a, a, b)
    else
      do! _ := when (negb (ty_is_int (e_type a)) || negb (ty_is_int (e_type b))) WantsNumbers in
      do! _ := when (negb (ty_same (e_type a) (e_type b))) TypesDoNotMix in
      sret (e_type a, a, b).

(** The arguments in turn, each against its type. *)
Fixpoint check_args (check : expr -> chk expr) (args : list expr) (ts : list ty) : chk (list expr) :=
  match args, ts with
  | e :: args, t :: ts =>
      do! e := check e in do! e := want e t in
      do! args := check_args check args ts in sret (e :: args)
  | _, _ => sret []
  end.
Definition sig_type (c : Ascii.ascii) : ty :=
  if Ascii.eqb c ch_s then TySlice U8 else if Ascii.eqb c (Ascii.ascii_of_nat 112) then TyPtr U8 false else I64.
Definition ret_type (c : Ascii.ascii) : ty :=
  if Ascii.eqb c ch_i then I64 else if Ascii.eqb c ch_s then TySlice U8 else TyVoid.
Definition find_method (name : string) (l : list cap_method) : option cap_method :=
  snd <$> list_find (fun m => (m_name m =? name)%string = true) l.
Definition find_field (name : string) (l : list field) : option field :=
  snd <$> list_find (fun f => (fd_name f =? name)%string = true) l.
(** The variant and its index. *)
Definition find_variant (name : string) (l : list variant) : option (nat * variant) :=
  list_find (fun v => (v.1 =? name)%string = true) l.

Fixpoint check_expr (fuel : nat) (e : expr) : chk expr :=
  match fuel with O => sdiverge | S fuel =>
  let check := check_expr fuel in
  let '(Ex line t lv k) := e in
  match k with
  | E_INT v => sret (Ex line I64 lv k)
  | E_BOOL v => sret (Ex line TyBool lv k)
  | E_STR _ => sret (Ex line (TySlice U8) lv k)
  | E_SIZE => sret (Ex line I64 lv (E_INT (ty_size t)))
  | E_VAR name _ =>
      do! s := sget in
      match lookup_sym u (scope s) name with
      | None => die (if find_fn u name is Some _ then IsAFunction else NoSuchName)
      | Some y =>
          match y_kind y with
          | SYM_CONST => sret (Ex line (y_type y) lv (E_INT (y_cval y)))
          | _ => sret (Ex line (y_type y) true (E_VAR name (Some y)))
          end
      end
  | E_CALL name args _ off =>
      match find_fn u name with
      | None => die NoSuchFunction
      | Some i =>
          match u_fns u !! i with
          | None => sfault
          | Some f =>
              do! _ := when (f_entry f) CallsEntry in
              do! _ := when (negb (length args =? length (f_params f))%nat) WrongArgCount in
              do! args := check_args check args (y_type <$> f_params f) in
              if is_aggregate (f_ret f) then
                do! off := take_frame (ty_size (f_ret f)) in sret (Ex line (f_ret f) lv (E_CALL name args (Some i) off))
              else sret (Ex line (f_ret f) lv (E_CALL name args (Some i) off))
          end
      end
  | E_METHOD a name args _ =>
      do! a := check a in
      match e_type a with
      | TyCap id =>
          match find_method name (d_methods (cap_of id)) with
          | None => die NoSuchMethod
          | Some m =>
              do! _ := when (negb (length args =? length (m_sig m))%nat) WrongArgCount in
              do! args := check_args check args (sig_type <$> m_sig m) in
              do! _ := record_syscall (m_sysno m) in
              do! _ := record_cap (d_name (cap_of id)) in
              sret (Ex line (ret_type (m_ret m)) lv (E_METHOD a name args (Some m)))
          end
      | _ => die NotACapability
      end
  | E_UNARY op a =>
      do! a := check a in
      if is_op op T_BANG then do! a := want a TyBool in sret (Ex line TyBool lv (E_UNARY op a))
      else
        do! _ := when (negb (ty_is_int (e_type a))) WantsNumber in
        sret (Ex line (e_type a) lv (E_UNARY op a))
  | E_BINARY op a b =>
      do! a := check a in do! b := check b in
      do! r := check_binary op a b in let '(t, a, b) := r in
      sret (Ex line t lv (E_BINARY op a b))
  | E_INDEX a b =>
      do! a := check a in do! b := check b in
      do! _ := when (negb (ty_is_int (e_type b))) IndexNotNumber in
      match e_type a with
      | TyPtr _ dev => die (if dev : bool then IndexesDevice else IndexesPointer)
      | TySlice elem => sret (Ex line elem true (E_INDEX a b))
      | TyArray elem n =>
          do! k := of_outcome (const_value b) in
          do! _ := when (match k with Some k => (k <? 0) || (n <=? k) | None => false end) IndexOutside in
          sret (Ex line elem true (E_INDEX a b))
      | _ => die NotIndexable
      end
  | E_FIELD a name f =>
      do! a := check a in
      let fields fs :=
        match find_field name fs, f with
        | Some f, _ => sret (Ex line (fd_type f) true (E_FIELD a name (Some f)))
        | None, Some _ => sret (Ex line t lv (E_FIELD a name f))
        | None, None => die NoSuchField
        end in
      match e_type a with
      | TyCap _ => die DotOnCapability
      | TyPtr _ true => die DotOnDevice
      | TySlice elem =>
          if (name =? "len")%string then sret (Ex line I64 lv (E_LEN a))
          else if (name =? "ptr")%string then sret (Ex line (TyPtr elem false) lv (E_FIELD a name f))
          else die NoFields
      | TyArray _ _ => if (name =? "len")%string then sret (Ex line I64 lv (E_LEN a)) else die NoFields
      | TyPtr (TyStruct _ fs _ _) false => fields fs
      | TyStruct _ fs _ _ => fields fs
      | _ => die NoFields
      end
  | E_SLICE a b c =>
      do! a := check a in do! b := check b in
      do! c := match c with Some c => do! c := check c in sret (Some c) | None => sret None end in
      match e_type a with
      | TyPtr elem dev =>
          do! _ := when dev SlicesDevice in
          do! _ := when (match c with None => true | _ => false end) PointerHasNoEnd in
          sret (Ex line (TySlice elem) lv (E_SLICE a b c))
      | TyArray elem _ | TySlice elem => sret (Ex line (TySlice elem) lv (E_SLICE a b c))
      | _ => die NotSliceable
      end
  | E_ADDR a =>
      do! a := check a in
      do! _ := need_lvalue a in
      sret (Ex line (TyPtr (e_type a) false) lv (E_ADDR a))
  | E_DEREF op a =>
      do! a := check a in
      match e_type a with
      | TyPtr elem dev =>
          do! _ := when (is_op op T_AT && negb dev) AtOnMemory in
          do! _ := when (negb (is_op op T_AT) && dev) StarOnDevice in
          sret (Ex line elem true (E_DEREF op a))
      | _ => die FollowsNonPointer
      end
  | E_CAST a =>
      do! a := check a in
      let from := e_type a in
      do! _ := when (match from with TyPtr _ true => match t with TyPtr _ true => false | _ => true end | _ => false end) DevCastAway in
      do! _ := when (match from, t with TyCap _, _ | _, TyCap _ => true | _, _ => false end) CapabilityCast in
      let ok :=
        match from, t with
        | TyInt _ _, TyInt _ _ | TyInt _ _, TyPtr _ _ | TyPtr _ _, TyInt _ _ | TyPtr _ _, TyPtr _ _
        | TyBool, TyInt _ _ | TyInt _ _, TyBool => true
        | _, _ => false
        end in
      do! _ := when (negb ok) BadCast in
      sret (Ex line t lv (E_CAST a))
  | E_ASSIGN a b =>
      do! a := check a in do! b := check b in
      do! _ := need_lvalue a in
      do! b := want b (e_type a) in
      sret (Ex line (e_type a) lv (E_ASSIGN a b))
  | E_UPDATE op a b _ =>
      do! a := check a in
      do! a := check a in do! b := check b in
      do! r := check_binary op a b in let '(st, a, b) := r in
      do! _ := need_lvalue a in
      do! _ := when (negb (ty_same st (e_type a))) WantsType in
      sret (Ex line (e_type a) lv (E_UPDATE op a b st))
  | E_LEN a => sret (Ex line I64 lv k)
  | E_VARIANT name args _ _ =>
      match t with
      | TyEnum _ vs _ =>
          match find_variant name vs with
          | None => die NoSuchCase
          | Some (i, v) =>
              do! _ := when (negb (length args =? length v.2)%nat) WrongCaseCount in
              do! args := check_args check args (fd_type <$> v.2) in
              do! off := take_frame (ty_size t) in
              sret (Ex line t lv (E_VARIANT name args (Some (i, v)) off))
          end
      | _ => die NoSuchCase
      end
  end end.

(** *** Whether a clause names the result

    As the code looks: with a stack of 64 places it stops filling at 60; the
    three operands of a node are pushed whether there or not. *)
Definition operands (e : expr) : list (option expr) * list expr :=
  let '(Ex line t lv k) := e in
  match k with
  | E_CALL _ args _ _ | E_VARIANT _ args _ _ => ([None; None; None], args)
  | E_METHOD a _ args _ => ([Some a; None; None], args)
  | E_UNARY _ a | E_FIELD a _ _ | E_CAST a | E_ADDR a | E_DEREF _ a | E_LEN a => ([Some a; None; None], [])
  | E_BINARY _ a b | E_INDEX a b | E_ASSIGN a b => ([Some a; Some b; None], [])
  | E_UPDATE op a b st => ([Some a; Some (Ex line st false (E_BINARY op a b)); None], [])
  | E_SLICE a b c => ([Some a; Some b; c], [])
  | _ => ([None; None; None], [])
  end.
Definition is_result (e : expr) : bool :=
  match e_kind e with E_VAR _ (Some y) => match y_kind y with SYM_RESULT => true | _ => false end | _ => false end.
Fixpoint push_args (args : list expr) (stack : list (option expr)) : list (option expr) :=
  match args with
  | [] => stack
  | e :: args => if (length stack <? 60)%nat then push_args args (Some e :: stack) else stack
  end.
Fixpoint names_result (fuel : nat) (stack : list (option expr)) : outcome bool :=
  match fuel with O => Diverge | S fuel =>
    match stack with
    | [] => Ret false
    | None :: stack => names_result fuel stack
    | Some e :: stack =>
        if is_result e then Ret true
        else if (length stack <? 60)%nat then
          let '(abc, args) := operands e in names_result fuel (push_args args (rev abc ++ stack))
        else names_result fuel stack
    end
  end.

Definition check_contract (fuel : nat) (fn : func) (k : contract) (is_ensures : bool) : chk contract :=
  do! e := check_expr fuel (k_expr k) in
  do! _ := when (match e_type e with TyBool => false | _ => true end) ClauseNotBool in
  do! v := of_outcome (const_value e) in
  do! _ := when (match v with Some _ => true | None => false end) ClauseDecided in
  do! _ := when (negb (depends is_ensures e)) ClauseVacuous in
  do! _ :=
    if is_ensures then
      do! names := of_outcome (names_result fuel [Some e]) in
      when (negb names && match f_ret fn with TyVoid => false | _ => true end) ClauseNotAboutResult
    else sret () in
  sret (Contract e (k_line k) (k_text k)).

(** ** Statements *)
Fixpoint declare_binds (fn : func) (binds : list string) (fields : list field) : chk (list sym) :=
  match binds, fields with
  | [], _ => sret []
  | b :: binds, f :: fields =>
      do! y := declare fn b (fd_type f) in
      do! ys := declare_binds fn binds fields in sret (y :: ys)
  | _ :: _, [] => sfault
  end.
Definition mem_nat (i : nat) (l : list nat) : bool := existsb (fun j => (j =? i)%nat) l.
Fixpoint check_list (check : stmt -> chk stmt) (l : list stmt) : chk (list stmt) :=
  match l with
  | [] => sret []
  | s :: l => do! s := check s in do! l := check_list check l in sret (s :: l)
  end.
Definition in_scope {A} (m : chk A) : chk A :=
  do! _ := push_scope in do! a := m in do! _ := pop_scope in sret a.
(** The arms in turn, [else] put off; what they have taken, and whether one was
    an [else]. *)
Fixpoint check_arms (check : stmt -> chk stmt) (fn : func) (vs : list variant) (arms : list arm) (seen : list nat) (has_else : bool)
    : chk (list arm * list nat * bool) :=
  match arms with
  | [] => sret ([], seen, has_else)
  | Arm name is_else v binds syms body :: arms =>
      do! _ := when has_else ArmAfterElse in
      if is_else then
        do! r := check_arms check fn vs arms seen true in let '(arms, seen, has_else) := r in
        sret (Arm name is_else v binds syms body :: arms, seen, has_else)
      else
        match find_variant name vs with
        | None => die NoSuchCase
        | Some (i, v) =>
            do! _ := when (mem_nat i seen) CaseTaken in
            do! _ := when (negb (length binds =? 0)%nat && negb (length binds =? length v.2)%nat) BindsCount in
            do! r := in_scope (do! ys := declare_binds fn binds v.2 in do! body := check body in sret (ys, body)) in
            let '(ys, body) := r in
            do! r := check_arms check fn vs arms (i :: seen) false in let '(arms, seen, has_else) := r in
            sret (Arm name is_else (Some (i, v)) binds ys body :: arms, seen, has_else)
        end
  end.
Fixpoint check_elses (check : stmt -> chk stmt) (arms : list arm) : chk (list arm) :=
  match arms with
  | [] => sret []
  | Arm name is_else v binds syms body :: arms =>
      do! body := if is_else : bool then in_scope (check body) else sret body in
      do! arms := check_elses check arms in
      sret (Arm name is_else v binds syms body :: arms)
  end.

(** [loops]: how many loops are around. *)
Fixpoint check_stmt (fuel : nat) (fn : func) (loops : nat) (s : stmt) : chk stmt :=
  match fuel with O => sdiverge | S fuel =>
  let expr := check_expr fuel in
  match s with
  | S_BLOCK l => in_scope (do! l := check_list (check_stmt fuel fn loops) l in sret (S_BLOCK l))
  | S_LET name t init _ is_var =>
      do! r :=
        match init with
        | None => match t with Some t => sret (t, None) | None => sfault end
        | Some e =>
            do! e := expr e in
            match t with
            | None =>
                do! _ := when (match e_type e with TyVoid => true | _ => false end) GivenNothing in
                sret (if is_literal e then I64 else e_type e, Some e)
            | Some t => do! e := want e t in sret (t, Some e)
            end
        end in
      let '(t, init) := r in
      do! _ := when (match t with TyCap _ => is_var | _ => false end) CapabilityVar in
      do! y := declare fn name t in
      sret (S_LET name (Some t) init (Some y) is_var)
  | S_EXPR e => do! e := expr e in sret (S_EXPR e)
  | S_IF c a b =>
      do! c := expr c in do! c := want c TyBool in
      do! a := check_stmt fuel fn loops a in
      do! b := match b with Some b => do! b := check_stmt fuel fn loops b in sret (Some b) | None => sret None end in
      sret (S_IF c a b)
  | S_WHILE c body =>
      do! c := expr c in do! c := want c TyBool in
      do! body := check_stmt fuel fn (S loops) body in
      sret (S_WHILE c body)
  | S_FOR name lo hi _ body =>
      do! lo := expr lo in do! hi := expr hi in
      do! _ := when (negb (ty_is_int (e_type lo)) || negb (ty_is_int (e_type hi))) ForNotNumbers in
      let lo := with_type I64 lo in let hi := with_type I64 hi in
      in_scope (
        do! y := declare fn name I64 in
        do! body := check_stmt fuel fn (S loops) body in
        sret (S_FOR name lo hi (Some y) body))
  | S_RETURN (Some e) =>
      do! e := expr e in
      do! _ := when (match f_ret fn with TyVoid => true | _ => false end) ReturnsNothing in
      do! e := want e (f_ret fn) in sret (S_RETURN (Some e))
  | S_RETURN None =>
      do! _ := when (match f_ret fn with TyVoid => false | _ => true end) ReturnNeedsValue in sret s
  | S_BREAK | S_CONTINUE => do! _ := when (loops =? 0)%nat OutsideLoop in sret s
  | S_MATCH e arms _ =>
      do! e := expr e in
      match e_type e with
      | TyEnum _ vs _ =>
          do! off := take_frame 8 in
          do! r := check_arms (check_stmt fuel fn loops) fn vs arms [] false in let '(arms, seen, has_else) := r in
          do! arms := check_elses (check_stmt fuel fn loops) arms in
          let missing := existsb (fun i => negb (mem_nat i seen)) (seq 0 (length vs)) in
          do! _ := when (missing && negb has_else) CasesMissing in
          do! _ := when (negb missing && has_else) ElseNeverRuns in
          sret (S_MATCH e arms off)
      | _ => die MatchNotEnum
      end
  | S_ASSERT c text line =>
      do! c := expr c in do! c := want c TyBool in
      do! v := of_outcome (const_value c) in
      do! _ := when (match v with Some _ => true | None => false end) CheckDecided in
      do! _ := when (negb (depends false c)) CheckVacuous in
      do! _ := record_syscall 64 in do! _ := record_syscall 93 in
      sret (S_ASSERT c text line)
  end end.

(** ** Functions *)
Fixpoint check_params (fn : func) (ps : list sym) (regs : Z) : chk (list sym) :=
  match ps with
  | [] => sret []
  | Sym k name t _ cv _ at_ :: ps =>
      do! _ := when (match t with TyVoid => true | _ => false end) ParamVoid in
      do! _ := when (match t with TyStruct _ _ _ _ | TyArray _ _ => true | _ => false end) ParamAggregate in
      do! _ := when (f_entry fn && match t with TyCap _ => false | _ => true end) EntryParamNotCap in
      let regs' := regs + match t with TySlice _ => 2 | _ => 1 end in
      do! _ := when (8 <? regs') TooManyRegs in
      do! off := take_frame (slot_size t) in
      let y := Sym k name t off cv regs at_ in
      do! _ := scope_add y in
      do! ps := check_params fn ps regs' in sret (y :: ps)
  end.
Fixpoint check_contracts (fuel : nat) (fn : func) (is_ensures : bool) (l : list contract) : chk (list contract) :=
  match l with
  | [] => sret []
  | k :: l =>
      do! k := check_contract fuel fn k is_ensures in
      do! l := check_contracts fuel fn is_ensures l in sret (k :: l)
  end.
Definition some_of {A} (l : list A) : bool := match l with [] => false | _ => true end.

Definition check_fn (fuel : nat) (fn : func) : chk func :=
  do! _ := smod (set_frame 0) in
  do! _ := push_scope in
  do! params := check_params fn (f_params fn) 0 in
  let agg := is_aggregate (f_ret fn) in
  do! _ := when (agg && some_of (f_ens fn)) GivesOnAggregate in
  do! sret_off := if agg : bool then take_frame 8 else sret (f_sret fn) in
  do! r :=
    if some_of (f_ens fn) then
      do! _ := when (match f_ret fn with TyVoid => false | _ => match f_ret_name fn with None => true | Some _ => false end end) GivesUnnamed in
      do! off := take_frame 16 in
      sret (off, match f_ret_name fn with Some n => Some (Sym SYM_RESULT n (f_ret fn) off 0 0 0) | None => None end)
    else sret (f_result fn, None) in
  let '(result, ret_sym) := r in
  do! req := check_contracts fuel fn false (f_req fn) in
  do! ens :=
    if some_of (f_ens fn) then
      in_scope (
        do! _ := match ret_sym with Some y => scope_add y | None => sret () end in
        check_contracts fuel fn true (f_ens fn))
    else sret [] in
  do! _ := if some_of (f_req fn) || some_of (f_ens fn) then do! _ := record_syscall 64 in record_syscall 93 else sret () in
  do! body := check_stmt fuel fn 0 (f_body fn) in
  do! _ := pop_scope in
  do! _ := when (match f_ret fn with TyVoid => false | _ => negb (always_returns body) end) NoReturn in
  do! s := sget in
  if in_int (frame s + 15) then
    sret (Fn (f_name fn) (f_file fn) params (f_ret fn) (f_ret_name fn) req ens body (f_entry fn)
             (Z.ldiff (frame s + 15) 15) sret_off result)
  else sfault.
Fixpoint check_fns (fuel : nat) (l : list func) : chk (list func) :=
  match l with
  | [] => sret []
  | f :: l => do! f := check_fn fuel f in do! l := check_fns fuel l in sret (f :: l)
  end.

Definition global_cap (y : sym) : bool :=
  match y_kind y, y_type y with SYM_GLOBAL, TyCap _ => true | _, _ => false end.
Definition check_unit_body (fuel : nat) : chk unit_ :=
  do! _ := when (existsb global_cap (u_globals u)) GlobalCapability in
  match u_entry u with
  | None => die NoEntry
  | Some i =>
      do! fns := check_fns fuel (u_fns u) in
      match fns !! i with
      | None => sfault
      | Some e =>
          do! _ := when (match f_ret e with TyVoid => false | TyInt bits _ => bits <? 32 | _ => true end) BadEntryResult in
          do! _ := record_syscall 93 in
          sret (Unit fns (u_globals u) (u_structs u) (u_entry u))
      end
  end.
End check.

(** The checked unit, the system calls its manifest lists and the capabilities
    it names. *)
Definition check_unit (fuel : nat) (u : unit_) : outcome (diag + unit_ * list Z * list string) :=
  let! r := check_unit_body u fuel (CS 0 [] [] []) in
  match r with
  | inl d => Ret (inl d)
  | inr (u, s) => Ret (inr (u, sys_used s, caps_used s))
  end.
