(* ===== verification/SavCheckRun.v ===== *)
(** * What the sav checker leaves behind

    The checked tree against the manifest recorded with it: every capability
    method in it is one of its capability's, and its call is listed; where a
    claim is checked at run time, the calls its failure makes are listed. *)
From stdpp Require Import strings.
From S2P Require Import Prelude SavTypes SavCheck.
Open Scope Z_scope.

(** ** Everywhere in a tree *)
Fixpoint e_all (P : expr -> Prop) (e : expr) : Prop :=
  let all := fix go (l : list expr) : Prop := match l with [] => True | a :: l => e_all P a /\ go l end in
  P e /\
  match e with Ex _ _ _ k =>
    match k with
    | E_INT _ | E_BOOL _ | E_STR _ | E_SIZE | E_VAR _ _ => True
    | E_CALL _ args _ _ | E_VARIANT _ args _ _ => all args
    | E_METHOD a _ args _ => e_all P a /\ all args
    | E_UNARY _ a | E_FIELD a _ _ | E_CAST a | E_ADDR a | E_DEREF _ a | E_LEN a => e_all P a
    | E_BINARY _ a b | E_INDEX a b | E_ASSIGN a b | E_UPDATE _ a b _ => e_all P a /\ e_all P b
    | E_SLICE a b c => e_all P a /\ e_all P b /\ match c with Some c => e_all P c | None => True end
    end
  end.
Lemma e_all_list P l :
  (fix go (l : list expr) : Prop := match l with [] => True | a :: l => e_all P a /\ go l end) l <-> Forall (e_all P) l.
Proof. induction l as [|a l IH]; [done|]. by rewrite Forall_cons, IH. Qed.
Lemma e_all_root P e : e_all P e -> P e.
Proof. destruct e. cbn. by intros [? _]. Qed.

Definition parts (P : expr -> Prop) (k : ekind expr) : Prop :=
  match k with
  | E_INT _ | E_BOOL _ | E_STR _ | E_SIZE | E_VAR _ _ => True
  | E_CALL _ args _ _ | E_VARIANT _ args _ _ => Forall (e_all P) args
  | E_METHOD a _ args _ => e_all P a /\ Forall (e_all P) args
  | E_UNARY _ a | E_FIELD a _ _ | E_CAST a | E_ADDR a | E_DEREF _ a | E_LEN a => e_all P a
  | E_BINARY _ a b | E_INDEX a b | E_ASSIGN a b | E_UPDATE _ a b _ => e_all P a /\ e_all P b
  | E_SLICE a b c => e_all P a /\ e_all P b /\ match c with Some c => e_all P c | None => True end
  end.
Lemma e_all_node P line t lv k : e_all P (Ex line t lv k) <-> P (Ex line t lv k) /\ parts P k.
Proof. destruct k; cbn; rewrite ?e_all_list; done. Qed.

(** The statements: [P] of the expressions, [A] wherever there is an assert. *)
Fixpoint s_all (P : expr -> Prop) (A : Prop) (s : stmt) : Prop :=
  let go_arms := fix go (l : list arm) : Prop :=
    match l with [] => True | Arm _ _ _ _ _ body :: l => s_all P A body /\ go l end in
  match s with
  | S_BLOCK l => (fix go (l : list stmt) : Prop := match l with [] => True | s :: l => s_all P A s /\ go l end) l
  | S_LET _ _ e _ _ | S_RETURN e => match e with Some e => e_all P e | None => True end
  | S_EXPR e => e_all P e
  | S_IF c a b => e_all P c /\ s_all P A a /\ match b with Some b => s_all P A b | None => True end
  | S_WHILE c b => e_all P c /\ s_all P A b
  | S_FOR _ lo hi _ b => e_all P lo /\ e_all P hi /\ s_all P A b
  | S_BREAK | S_CONTINUE => True
  | S_ASSERT c _ _ => e_all P c /\ A
  | S_MATCH e arms _ => e_all P e /\ go_arms arms
  end.
Definition arm_body (a : arm) : stmt := let '(Arm _ _ _ _ _ body) := a in body.
Lemma s_all_list P A l :
  (fix go (l : list stmt) : Prop := match l with [] => True | s :: l => s_all P A s /\ go l end) l <-> Forall (s_all P A) l.
Proof. induction l as [|a l IH]; [done|]. by rewrite Forall_cons, IH. Qed.
Lemma s_all_arms P A l :
  (fix go (l : list arm) : Prop := match l with [] => True | Arm _ _ _ _ _ body :: l => s_all P A body /\ go l end) l
  <-> Forall (fun a => s_all P A (arm_body a)) l.
Proof. induction l as [|[] l IH]; [done|]. by rewrite Forall_cons, IH. Qed.

(** ** What the manifest has to list *)
Definition method_ok (calls : list Z) (e : expr) : Prop :=
  match e_kind e with
  | E_METHOD a _ _ m => exists m' id, m = Some m' /\ e_type a = TyCap id /\ m' ∈ d_methods (cap_of id)
      /\ (m_sysno m' = 0 \/ m_sysno m' ∈ calls)
  | _ => True
  end.
Abbreviation covered calls := (e_all (method_ok calls)).
(** What a failed claim does: [write] and [exit]. *)
Definition reports (calls : list Z) : Prop := 64 ∈ calls /\ 93 ∈ calls.
Abbreviation covered_s calls := (s_all (method_ok calls) (reports calls)).
Definition covered_f (calls : list Z) (f : func) : Prop :=
  Forall (fun k => covered calls (k_expr k)) (f_req f) /\ Forall (fun k => covered calls (k_expr k)) (f_ens f)
  /\ (f_req f <> [] \/ f_ens f <> [] -> reports calls) /\ covered_s calls (f_body f).

(** A tree that may be checked: only the checker makes a [.len] node, over what
    it has checked. *)
Definition len_ok (calls : list Z) (e : expr) : Prop :=
  match e_kind e with E_LEN a => covered calls a | _ => True end.
Abbreviation ready calls := (e_all (len_ok calls)).
Abbreviation ready_s calls := (s_all (len_ok calls) True).
Definition ready_f (f : func) : Prop :=
  Forall (fun k => ready [] (k_expr k)) (f_req f) /\ Forall (fun k => ready [] (k_expr k)) (f_ens f) /\ ready_s [] (f_body f).

(** One property of every node from another. *)
Lemma e_all_impl (P Q : expr -> Prop) : (forall e, e_all P e -> Q e) -> forall e, e_all P e -> e_all Q e.
Proof.
  intros HPQ. fix IH 1. intros [line t lv k].
  assert (forall args, (fix go (l0 : list expr) : Prop := match l0 with [] => True | a :: l1 => e_all P a /\ go l1 end) args ->
    (fix go (l0 : list expr) : Prop := match l0 with [] => True | a :: l1 => e_all Q a /\ go l1 end) args) as Hargs.
  { fix IHl 1. intros [|a args]; [done|]. intros [Ha Hr]. split; [by apply IH|by apply IHl]. }
  intros He. split; [by apply HPQ|]. destruct He as [_ Hk]. destruct k; try done; cbn in *.
  - by apply Hargs.
  - destruct Hk. split; [by apply IH|by apply Hargs].
  - by apply IH.
  - destruct Hk. split; by apply IH.
  - destruct Hk. split; by apply IH.
  - by apply IH.
  - by apply IH.
  - destruct Hk. split; by apply IH.
  - destruct Hk. split; by apply IH.
  - destruct Hk as (? & ? & ?). split; [by apply IH|split; [by apply IH|]]. destruct c as [c|]; [by apply IH|done].
  - by apply IH.
  - by apply IH.
  - by apply IH.
  - by apply Hargs.
Qed.
Lemma s_all_impl (P Q : expr -> Prop) (A B : Prop) :
  (forall e, e_all P e -> e_all Q e) -> (A -> B) -> forall s, s_all P A s -> s_all Q B s.
Proof.
  intros Hc Hrep. fix IH 1. intros s.
  assert (forall b, (fix go (l0 : list stmt) : Prop := match l0 with [] => True | a :: l1 => s_all P A a /\ go l1 end) b ->
    (fix go (l0 : list stmt) : Prop := match l0 with [] => True | a :: l1 => s_all Q B a /\ go l1 end) b) as Hb.
  { fix IHl 1. intros [|a b]; [done|]. intros [Ha Hr]. split; [by apply IH|by apply IHl]. }
  assert (forall b, (fix go (l0 : list arm) : Prop := match l0 with [] => True | Arm _ _ _ _ _ body :: l1 => s_all P A body /\ go l1 end) b ->
    (fix go (l0 : list arm) : Prop := match l0 with [] => True | Arm _ _ _ _ _ body :: l1 => s_all Q B body /\ go l1 end) b) as Ha.
  { fix IHl 1. intros [|[? ? ? ? ? body] b]; [done|]. intros [Hx Hr]. split; [by apply IH|by apply IHl]. }
  destruct s as [b|? ? e ? ?|e|c a b|c b|? lo hi ? b|e| | |c ? ?|e arms ?]; cbn.
  - apply Hb.
  - destruct e; [by apply Hc|done].
  - by apply Hc.
  - intros (? & ? & Hx). split; [by apply Hc|]. split; [by apply IH|]. destruct b; [by apply IH|done].
  - intros (? & ?). split; [by apply Hc|by apply IH].
  - intros (? & ? & ?). split; [by apply Hc|]. split; [by apply Hc|by apply IH].
  - destruct e; [by apply Hc|done].
  - done.
  - done.
  - intros (? & ?). split; [by apply Hc|by apply Hrep].
  - intros (? & ?). split; [by apply Hc|by apply Ha].
Qed.
Lemma covered_ready l e : covered l e -> ready l e.
Proof.
  apply e_all_impl. intros [line t lv k]. unfold len_ok. destruct k; try done. cbn. by intros [_ ?].
Qed.

(** ** More calls listed *)
Section mono.
Context (l l' : list Z) (Hl : l ⊆ l').
Lemma method_ok_mono e : method_ok l e -> method_ok l' e.
Proof. unfold method_ok. destruct (e_kind e); try done. intros (m' & id & -> & Ht & Hm & Hn). exists m', id. split_and!; try done. destruct Hn; auto. Qed.
Lemma covered_mono e : covered l e -> covered l' e.
Proof. apply e_all_impl. intros e' He. by apply method_ok_mono, e_all_root. Qed.
Lemma ready_mono e : ready l e -> ready l' e.
Proof.
  apply e_all_impl. intros e' He%e_all_root. unfold len_ok in *. destruct (e_kind e'); try done. by apply covered_mono.
Qed.
Lemma reports_mono : reports l -> reports l'.
Proof. intros [? ?]. split; by apply Hl. Qed.
Lemma covered_s_mono s : covered_s l s -> covered_s l' s.
Proof. apply s_all_impl; [apply covered_mono|apply reports_mono]. Qed.
Lemma ready_s_mono s : ready_s l s -> ready_s l' s.
Proof. apply s_all_impl; [apply ready_mono|done]. Qed.
Lemma covered_f_mono f : covered_f l f -> covered_f l' f.
Proof.
  intros (H1 & H2 & H3 & H4). split_and!.
  - eapply Forall_impl; [exact H1|]. intros k. apply covered_mono.
  - eapply Forall_impl; [exact H2|]. intros k. apply covered_mono.
  - intros Hx. by apply reports_mono, H3.
  - by apply covered_s_mono.
Qed.
End mono.

Abbreviation clauses P l := (Forall (fun k => e_all (P l) (k_expr k))).

(** ** The checker's steps *)
Definition known_calls : list Z := [64; 63; 56; 57; 172; 93].
Definition sys_ok (l : list Z) : Prop := NoDup l /\ l ⊆ known_calls.
Lemma sys_short l : sys_ok l -> (length l < 64)%nat.
Proof.
  intros [Hn Hk]. pose proof (submseteq_length _ _ (NoDup_submseteq _ _ Hn Hk)) as Hl. cbn in Hl. lia.
Qed.

(** From a state that lists [l] already: what is recorded stays, and the result
    is [Q] for what is listed by then. *)
Definition keeps {A} (l : list Z) (m : chk A) (Q : list Z -> A -> Prop) : Prop :=
  forall s a s', sys_ok (sys_used s) -> l ⊆ sys_used s -> m s = Ret (inr (a, s')) ->
    sys_ok (sys_used s') /\ sys_used s ⊆ sys_used s' /\ Q (sys_used s') a.

Lemma keeps_bind {A B} l (m : chk A) (f : A -> chk B) Q R :
  keeps l m Q -> (forall a l1, l ⊆ l1 -> Q l1 a -> keeps l1 (f a) R) -> keeps l (sbind m f) R.
Proof.
  intros Hm Hf s b s' Hs Hl E. apply sbind_inv in E as (a & s1 & E1 & E2).
  destruct (Hm s a s1 Hs Hl E1) as (Hs1 & Hl1 & Q1).
  destruct (Hf a (sys_used s1) ltac:(by etrans) Q1 s1 b s' Hs1 ltac:(done) E2) as (Hs2 & Hl2 & R2).
  split; [done|]. split; [by etrans|done].
Qed.
Lemma keeps_ret {A} l (a : A) (Q : list Z -> A -> Prop) : (forall l', l ⊆ l' -> Q l' a) -> keeps l (sret a) Q.
Proof. intros HQ s b s' Hs Hl [= <- <-]. split; [done|]. split; [done|by apply HQ]. Qed.
Lemma keeps_die {A} l d (Q : list Z -> A -> Prop) : keeps l (die d) Q.
Proof. by intros s a s' _ _ E. Qed.
Lemma keeps_fault {A} l (Q : list Z -> A -> Prop) : keeps l sfault Q.
Proof. by intros s a s' _ _ E. Qed.
Lemma keeps_diverge {A} l (Q : list Z -> A -> Prop) : keeps l sdiverge Q.
Proof. by intros s a s' _ _ E. Qed.
Lemma keeps_when l b d : keeps l (when b d) (fun _ _ => b = false).
Proof. intros s a s' Hs Hl [-> ->]%when_inv. done. Qed.
Lemma keeps_outcome {A} l (o : outcome A) : keeps l (of_outcome o) (fun _ a => o = Ret a).
Proof. intros s a s' Hs Hl [-> ->]%of_outcome_inv. done. Qed.
Lemma keeps_get l : keeps l sget (fun l' s => sys_used s = l').
Proof. intros s a s' Hs Hl [= <- <-]. done. Qed.
(** A change that records nothing. *)
Lemma keeps_mod l f : (forall s, sys_used (f s) = sys_used s) -> keeps l (smod f) (fun _ _ => True).
Proof. intros Hf s a s' Hs Hl [= _ <-]. rewrite Hf. done. Qed.
Lemma keeps_impl {A} l (m : chk A) (Q R : list Z -> A -> Prop) : keeps l m Q -> (forall l' a, l ⊆ l' -> Q l' a -> R l' a) -> keeps l m R.
Proof.
  intros Hm Hi s a s' Hs Hl E. destruct (Hm s a s' Hs Hl E) as (H1 & H2 & H3). split; [done|]. split; [done|].
  apply Hi; [by etrans|done].
Qed.
Lemma keeps_weaken {A} l l' (m : chk A) Q : l ⊆ l' -> keeps l m Q -> keeps l' m Q.
Proof. intros Hl Hm s a s' Hs Hl' E. apply (Hm s); [done| |done]. by etrans. Qed.

Lemma keeps_record l n : n = 0 \/ n ∈ known_calls -> keeps l (record_syscall n) (fun l' _ => n = 0 \/ n ∈ l').
Proof.
  intros Hn s a s' Hs Hl [= _ <-]. destruct (Z.eqb_spec n 0) as [->|Hz]; cbn [orb]; [split; [done|]; split; [done|by left]|].
  destruct Hn as [|Hn]; [done|]. destruct (existsb _ _) eqn:E.
  { apply existsb_exists in E as (m & Hm%list_elem_of_In & ->%Z.eqb_eq). split; [done|]. split; [done|by right]. }
  assert (n ∉ sys_used s) as Hnin.
  { intros Hin. enough (existsb (fun m => m =? n) (sys_used s) = true) by congruence.
    apply existsb_exists. exists n. split; [by apply list_elem_of_In|apply Z.eqb_refl]. }
  pose proof (sys_short _ Hs). destruct (Nat.ltb_spec (length (sys_used s)) 64); [|lia]. cbn [sys_used set_sys].
  destruct Hs as [Hnd Hk]. split; [split|].
  - apply NoDup_app. split; [done|]. split; [|apply NoDup_singleton]. intros x Hx ->%list_elem_of_singleton. done.
  - intros x [Hx| ->%list_elem_of_singleton]%elem_of_app; [by apply Hk|done].
  - split; [intros x Hx; apply elem_of_app; by left|]. right. apply elem_of_app. right. by apply list_elem_of_singleton.
Qed.
Lemma keeps_cap l name : keeps l (record_cap name) (fun _ _ => True).
Proof. apply keeps_mod. intros s. destruct (existsb _ _); [done|]. by destruct (_ <? _)%nat. Qed.
Lemma keeps_frame l n : keeps l (take_frame n) (fun _ _ => True).
Proof.
  intros s a s' Hs Hl E. unfold take_frame in E. apply sbind_inv in E as (s0 & s1 & [= <- <-] & E).
  destruct (_ && _); [|done]. apply sbind_inv in E as (x & s2 & [= _ <-] & [= <- <-]). done.
Qed.
Lemma keeps_declare l fn name t : keeps l (declare fn name t) (fun _ _ => True).
Proof.
  unfold declare. eapply keeps_bind; [apply keeps_get|]. intros s l1 _ _. eapply keeps_bind; [apply keeps_when|]. intros _ l2 _ _.
  eapply keeps_bind; [apply keeps_when|]. intros _ l3 _ _. eapply keeps_bind; [apply keeps_frame|]. intros off l4 _ _.
  eapply keeps_bind; [by apply keeps_mod|]. intros _ l5 _ _. by apply keeps_ret.
Qed.

Lemma covered_with_type l t e : covered l e -> covered l (with_type t e).
Proof. destruct e as [line t' lv k]. by destruct k. Qed.
Lemma keeps_want l e t : covered l e -> keeps l (want e t) (fun l' e' => covered l' e').
Proof.
  intros He. assert (forall l', l ⊆ l' -> covered l' e) as Hm by (intros; by eapply covered_mono).
  unfold want. destruct (_ && _); [apply keeps_ret; intros; apply covered_with_type; auto|].
  destruct (_ && _); [apply keeps_ret; intros; apply covered_with_type; auto|].
  destruct (ty_same _ _); [apply keeps_ret; auto|apply keeps_die].
Qed.

(** [khint] does a step of the checker; facts about what is listed earlier are
    carried on by [covered_mono]. *)
Create HintDb keeps.
#[local] Hint Resolve keeps_when keeps_outcome keeps_get keeps_cap keeps_frame keeps_declare keeps_want : keeps.
#[local] Hint Resolve keeps_die keeps_fault keeps_diverge : keeps.
Ltac later :=
  repeat match goal with
  | Hs : ?l1 ⊆ ?l2, H : covered ?l1 ?e |- _ =>
      lazymatch goal with _ : covered l2 e |- _ => fail | _ => pose proof (covered_mono _ _ Hs _ H) end
  | Hs : ?l1 ⊆ ?l2, H : ready ?l1 ?e |- _ =>
      lazymatch goal with _ : ready l2 e |- _ => fail | _ => pose proof (ready_mono _ _ Hs _ H) end
  | Hs : ?l1 ⊆ ?l2, H : ready_s ?l1 ?e |- _ =>
      lazymatch goal with _ : ready_s l2 e |- _ => fail | _ => pose proof (ready_s_mono _ _ Hs _ H) end
  | Hs : ?l1 ⊆ ?l2, H : covered_s ?l1 ?e |- _ =>
      lazymatch goal with _ : covered_s l2 e |- _ => fail | _ => pose proof (covered_s_mono _ _ Hs _ H) end
  | Hs : ?l1 ⊆ ?l2, H : Forall (e_all (method_ok ?l1)) ?e |- _ =>
      lazymatch goal with _ : Forall (e_all (method_ok l2)) e |- _ => fail
      | _ => pose proof (Forall_impl _ _ _ H (fun x => covered_mono _ _ Hs x)) end
  | Hs : ?l1 ⊆ ?l2, H : Forall (e_all (len_ok ?l1)) ?e |- _ =>
      lazymatch goal with _ : Forall (e_all (len_ok l2)) e |- _ => fail
      | _ => pose proof (Forall_impl _ _ _ H (fun x => ready_mono _ _ Hs x)) end
  end.
Ltac kstep :=
  lazymatch goal with
  | |- keeps _ (sbind _ _) _ => eapply keeps_bind; [solve [eauto with keeps]|]; let a := fresh "x" in let l := fresh "l" in let Hs := fresh "Hs" in
      let Hq := fresh "Hq" in intros a l Hs Hq; cbv beta in Hq; later
  | |- keeps _ (sret _) _ => apply keeps_ret; let l := fresh "l" in let Hs := fresh "Hs" in intros l Hs; later
  | |- keeps _ (match ?x with _ => _ end) _ => destruct x eqn:?
  | |- keeps _ (let '(_, _) := ?x in _) _ => destruct x eqn:?
  | |- keeps _ _ _ => solve [eauto with keeps]
  end.

(** As many as have a rule. *)
Ltac kgo :=
  repeat lazymatch goal with
  | |- keeps _ (sbind _ _) _ => kstep
  | |- keeps _ (sret _) _ => kstep
  | |- keeps _ (die _) _ => kstep
  | |- keeps _ sfault _ => kstep
  | |- keeps _ (want _ _) _ => kstep
  end.

Section check.
Context (u : unit_).

Lemma keeps_binary l op a b :
  covered l a -> covered l b -> keeps l (check_binary op a b) (fun l' r => covered l' r.1.2 /\ covered l' r.2).
Proof.
  intros Ha Hb. unfold check_binary. destruct (_ || _).
  - do 2 kstep. kstep. cbn. by split.
  - assert (forall (c : bool) t e, covered l e -> covered l (if c then with_type t e else e)) as Hif
      by (intros [] t e He; [by apply covered_with_type|done]).
    set (a' := if _ && _ && _ then _ else a). pose proof (Hif _ _ _ Ha : covered l a') as Ha'.
    clearbody a'. set (b' := if _ && _ && _ then _ else b). pose proof (Hif _ _ _ Hb : covered l b') as Hb'. clearbody b'. destruct (is_compare op); [kstep; kstep; by split|]. destruct (_ && _ && _); [kstep; by split|].
    do 2 kstep. kstep. by split.
Qed.
Lemma keeps_args l check args ts :
  (forall l e, ready l e -> keeps l (check e) (fun l' e' => covered l' e')) -> Forall (e_all (len_ok l)) args ->
  keeps l (check_args check args ts) (fun l' args' => Forall (e_all (method_ok l')) args').
Proof.
  intros Hc. revert l ts. induction args as [|e args IH]; intros l ts Ha; cbn [check_args]; [kstep; by constructor|].
  destruct ts as [|t ts]; [kstep; by constructor|]. apply Forall_cons in Ha as [He Ha]. do 3 kstep. kstep. by constructor.
Qed.

Lemma find_method_in name ms m : find_method name ms = Some m -> m ∈ ms.
Proof.
  unfold find_method. destruct (list_find _ ms) as [[i m']|] eqn:E; [|done]. intros [= <-].
  apply list_find_Some in E as (E & _). by eapply list_elem_of_lookup_2.
Qed.
Lemma method_known id m : m ∈ d_methods (cap_of id) -> m_sysno m = 0 \/ m_sysno m ∈ known_calls.
Proof.
  unfold cap_of. rewrite nth_lookup. destruct (cap_defs !! id) as [d|] eqn:E; cbn; [|by intros ?%not_elem_of_nil].
  assert (Forall (fun d => Forall (fun m => m_sysno m = 0 \/ m_sysno m ∈ known_calls) (d_methods d)) cap_defs) as H.
  { repeat constructor; cbn; (by left) || (right; unfold known_calls; repeat (by left || right)). }
  rewrite Forall_lookup in H. specialize (H _ _ E). rewrite Forall_forall in H. apply H.
Qed.

Lemma covered_node l line t lv k :
  match k with E_METHOD _ _ _ _ => method_ok l (Ex line t lv k) | _ => True end -> parts (method_ok l) k ->
  covered l (Ex line t lv k).
Proof. intros Hm Hp. apply e_all_node. split; [|done]. by destruct k. Qed.

Lemma keeps_expr fuel l e : ready l e -> keeps l (check_expr u fuel e) (fun l' e' => covered l' e').
Proof.
  revert l e. induction fuel as [|fuel IH]; intros l [line t lv k] [Hlen Hk]%e_all_node; [apply keeps_diverge|].
  assert (forall l args ts, Forall (e_all (len_ok l)) args ->
    keeps l (check_args (check_expr u fuel) args ts) (fun l' args' => Forall (e_all (method_ok l')) args')) as IHs
    by (intros; by apply keeps_args).
  pose proof covered_ready as Hcr.
  cbn [check_expr]. destruct k; cbn [parts] in Hk.
  - kgo. by apply covered_node.
  - kgo. by apply covered_node.
  - kgo. by apply covered_node.
  - kgo. by apply covered_node.
  - kgo. destruct (lookup_sym _ _ _) as [y|]; [|kgo]. destruct (y_kind y); kgo; by apply covered_node.
  - destruct (find_fn _ _) as [i|]; [|kgo]. destruct (u_fns u !! i) as [f|]; [|kgo]. kgo.
    destruct (is_aggregate _); [kgo|]; kgo; by apply covered_node.
  - destruct Hk as [Ha Hargs]. kgo. destruct (e_type _) eqn:Et; try (by kgo). destruct (find_method _ _) as [m'|] eqn:Em; [|kgo].
    apply find_method_in in Em.
    kgo. eapply keeps_bind; [by eapply keeps_record, method_known|]. intros [] l3 Hs3 Hq3; cbv beta in Hq3. later. kgo.
    apply covered_node; [|by split]. exists m', cap_id. split_and!; try done. destruct Hq3; [by left|right; set_solver].
  - kgo. destruct (is_op _ _).
    + kgo. by apply covered_node.
    + kgo. by apply covered_node.
  - destruct Hk as [Ha Hb]. kgo. eapply keeps_bind; [by apply keeps_binary|]. intros [[t' a'] b'] l2 Hs2 [Ha' Hb']. cbn in Ha', Hb'. later. kgo.
    by apply covered_node.
  - destruct Hk as [Ha Hb]. kgo. destruct (e_type x) as [| | |? []| | | | |]; by kgo.
  - kgo. assert (forall l1 fs, covered l1 x -> keeps l1 (match find_field name fs, f with
        | Some f, _ => sret (Ex line (fd_type f) true (E_FIELD x name (Some f)))
        | None, Some _ => sret (Ex line t lv (E_FIELD x name f))
        | None, None => die NoSuchField end) (fun l' e' => covered l' e')) as Hf.
    { intros l1 fs Hx. destruct (find_field _ _); [kgo; by apply covered_node|]. destruct f; [kgo; by apply covered_node|kgo]. }
    destruct (e_type x) as [| | |e dev|e| | | |]; try (by kgo).
    + destruct dev; [by destruct e; kgo|]. destruct e; try (by kgo). by apply Hf.
    + destruct (_ =? _)%string; [kgo; by apply covered_node|]. destruct (_ =? _)%string; [kgo; by apply covered_node|kgo].
    + destruct (_ =? _)%string; [kgo; by apply covered_node|kgo].
    + by apply Hf.
  - kgo. by apply covered_node.
  - destruct Hk as [Ha Hb]. kgo. by apply covered_node.
  - destruct Hk as [Ha Hb]. kgo. eapply keeps_bind; [by apply keeps_binary|]. intros [[t' a'] b'] l3 Hs3 [Ha' Hb']. cbn in Ha', Hb'. later. kgo.
    by apply covered_node.
  - destruct Hk as (Ha & Hb & Hc). kgo. eapply (keeps_bind _ _ _ (fun l' c' => match c' with Some c => covered l' c | None => True end)).
    { destruct c as [c|]; [|by kgo]. assert (ready l1 c) by (eapply ready_mono; [|done]; set_solver). by kgo. }
    intros c' l2 Hs2 Hc'. later.
    assert (forall l3 t', l2 ⊆ l3 -> covered l3 (Ex line t' lv (E_SLICE x x0 c'))) as Hok.
    { intros l3 t' Hs3. later. apply covered_node; [done|]. split; [done|]. split; [done|]. destruct c' as [c'|]; [|done]. by eapply covered_mono. }
    destruct (e_type x) as [| | |e dev|e|e n| | |]; try (by kgo).
    all: kgo; apply Hok; clear Hok; set_solver.
  - kgo. by apply covered_node.
  - kgo. destruct (e_type x); by kgo.
  - kgo. apply covered_node; [done|]. eapply covered_mono; [|exact Hlen]. done.
  - destruct t; try (by kgo). destruct (find_variant _ _) as [[i v']|]; [|kgo]. kgo. by apply covered_node.
Qed.

(** ** Statements *)
Lemma s_all_forall_mono l l' b : l ⊆ l' -> Forall (covered_s l) b -> Forall (covered_s l') b.
Proof. intros Hl Hb. eapply Forall_impl; [exact Hb|]. intros s. by apply covered_s_mono. Qed.
Lemma keeps_in_scope {A} l (m : chk A) Q :
  (forall l1 l2 a, l1 ⊆ l2 -> Q l1 a -> Q l2 a) -> (forall l1, l ⊆ l1 -> keeps l1 m Q) -> keeps l (in_scope m) Q.
Proof.
  intros HQ Hm. unfold in_scope. eapply keeps_bind; [by apply keeps_mod|]. intros _ l1 Hs1 _.
  eapply keeps_bind; [by apply Hm|]. intros a l2 Hs2 Ha. eapply keeps_bind; [by apply keeps_mod|]. intros _ l3 Hs3 _.
  apply keeps_ret. intros l4 Hs4. eapply HQ; [|exact Ha]. by etrans.
Qed.
Lemma keeps_list l check b :
  (forall l s, ready_s l s -> keeps l (check s) (fun l' s' => covered_s l' s')) -> Forall (ready_s l) b ->
  keeps l (check_list check b) (fun l' b' => Forall (covered_s l') b').
Proof.
  intros Hc. revert l. induction b as [|s b IH]; intros l Hb; cbn [check_list]; [apply keeps_ret; by constructor|].
  apply Forall_cons in Hb as [Hs Hb]. eapply keeps_bind; [by apply Hc|]. intros s' l1 Hs1 H1.
  eapply keeps_bind; [apply IH; eapply Forall_impl; [exact Hb|]; intros x; by apply ready_s_mono|]. intros b' l2 Hs2 H2.
  apply keeps_ret. intros l3 Hs3. constructor; [|by eapply s_all_forall_mono]. eapply covered_s_mono; [|exact H1]. by etrans.
Qed.

(** An arm before the pass over the [else]s. *)
Definition half_arm (l : list Z) (a : arm) : Prop :=
  let '(Arm _ is_else _ _ _ body) := a in if is_else then ready_s l body else covered_s l body.
Lemma half_arm_mono l l' b : l ⊆ l' -> Forall (half_arm l) b -> Forall (half_arm l') b.
Proof.
  intros Hl Hb. eapply Forall_impl; [exact Hb|]. intros [n [] v bs ys body]; cbn; [by apply ready_s_mono|by apply covered_s_mono].
Qed.
Lemma keeps_binds l fn binds fs : keeps l (declare_binds fn binds fs) (fun _ _ => True).
Proof.
  revert l fs. induction binds as [|b binds IH]; intros l [|f fs]; cbn [declare_binds]; try (apply keeps_ret; done).
  - apply keeps_fault.
  - eapply keeps_bind; [apply keeps_declare|]. intros y l1 _ _. eapply keeps_bind; [apply IH|]. intros ys l2 _ _. by apply keeps_ret.
Qed.
Lemma keeps_arms l check fn vs arms seen has_else :
  (forall l s, ready_s l s -> keeps l (check s) (fun l' s' => covered_s l' s')) -> Forall (fun a => ready_s l (arm_body a)) arms ->
  keeps l (check_arms check fn vs arms seen has_else) (fun l' r => Forall (half_arm l') r.1.1).
Proof.
  intros Hc. revert l seen has_else. induction arms as [|[name is_else v binds syms body] arms IH]; intros l seen has_else Hb;
    cbn [check_arms]; [apply keeps_ret; by constructor|].
  apply Forall_cons in Hb as [Hs Hb]. cbn in Hs.
  assert (forall l1, l ⊆ l1 -> Forall (fun a => ready_s l1 (arm_body a)) arms) as Hb'
    by (intros l1 Hl1; eapply Forall_impl; [exact Hb|]; intros x; by apply ready_s_mono).
  eapply keeps_bind; [apply keeps_when|]. intros _ l1 Hs1 _. destruct is_else.
  - eapply keeps_bind; [by apply IH, Hb'|]. intros [[arms' seen'] he'] l2 Hs2 H2. apply keeps_ret. intros l3 Hs3. cbn in *.
    constructor; [|by eapply half_arm_mono]. eapply ready_s_mono; [|exact Hs]. by do 2 (etrans; [eassumption|]).
  - destruct (find_variant _ _) as [[i v']|]; [|apply keeps_die].
    eapply keeps_bind; [apply keeps_when|]. intros _ l2 Hs2 _. eapply keeps_bind; [apply keeps_when|]. intros _ l3 Hs3 _.
    eapply (keeps_bind _ _ _ (fun l' r => covered_s l' r.2)).
    { apply keeps_in_scope; [intros ? ? ? ?; by apply covered_s_mono|]. intros l4 Hs4.
      eapply keeps_bind; [apply keeps_binds|]. intros ys l5 Hs5 _. eapply keeps_bind.
      { apply Hc. eapply ready_s_mono; [|exact Hs]. by do 4 (etrans; [eassumption|]). }
      intros body' l6 Hs6 H6. apply keeps_ret. intros l7 Hs7. by eapply covered_s_mono. }
    intros [ys body'] l4 Hs4 H4. cbn in H4. eapply keeps_bind.
    { apply IH, Hb'. by do 3 (etrans; [eassumption|]). }
    intros [[arms' seen'] he'] l5 Hs5 H5. apply keeps_ret. intros l6 Hs6. cbn in *.
    constructor; [|by eapply half_arm_mono]. eapply covered_s_mono; [|exact H4]. by etrans.
Qed.
Lemma keeps_elses l check arms :
  (forall l s, ready_s l s -> keeps l (check s) (fun l' s' => covered_s l' s')) -> Forall (half_arm l) arms ->
  keeps l (check_elses check arms) (fun l' arms' => Forall (fun a => covered_s l' (arm_body a)) arms').
Proof.
  intros Hc. revert l. induction arms as [|[name is_else v binds syms body] arms IH]; intros l Hb;
    cbn [check_elses]; [apply keeps_ret; by constructor|].
  apply Forall_cons in Hb as [Hs Hb]. cbn in Hs.
  eapply (keeps_bind _ _ _ (fun l' s' => covered_s l' s')).
  { destruct is_else; [|apply keeps_ret; intros l1 Hs1; by eapply covered_s_mono].
    apply keeps_in_scope; [intros ? ? ? ?; by apply covered_s_mono|]. intros l1 Hs1. apply Hc. by eapply ready_s_mono. }
  intros body' l1 Hs1 H1. eapply keeps_bind; [apply IH; by eapply half_arm_mono|]. intros arms' l2 Hs2 H2.
  apply keeps_ret. intros l3 Hs3. constructor; cbn.
  - eapply covered_s_mono; [|exact H1]. by etrans.
  - eapply Forall_impl; [exact H2|]. intros a. by apply covered_s_mono.
Qed.

#[local] Hint Resolve keeps_expr : keeps.
Lemma keeps_write l : keeps l (record_syscall 64) (fun l' _ => 64 ∈ l').
Proof. eapply keeps_impl; [apply keeps_record; right; by left|]. by intros l' _ _ [|?]. Qed.
Lemma keeps_exit l : keeps l (record_syscall 93) (fun l' _ => 93 ∈ l').
Proof. eapply keeps_impl; [apply keeps_record; right; unfold known_calls; set_solver|]. by intros l' _ _ [|?]. Qed.
#[local] Hint Resolve keeps_write keeps_exit : keeps.
Lemma keeps_stmt fuel fn loops l s : ready_s l s -> keeps l (check_stmt u fuel fn loops s) (fun l' s' => covered_s l' s').
Proof.
  revert loops l s. induction fuel as [|fuel IH]; intros loops l s Hs; [apply keeps_diverge|].
  destruct s as [b|name t e y va|e|c a b|c b|name lo hi y b|e| | |c tx ln|e arms off]; cbn [check_stmt]; cbn [s_all] in Hs.
  - apply s_all_list in Hs. apply keeps_in_scope; [intros ? ? ? ?; by apply covered_s_mono|]. intros l1 Hs1.
    eapply keeps_bind; [apply keeps_list; [intros; by apply IH|]; eapply Forall_impl; [exact Hs|]; intros x; by apply ready_s_mono|].
    intros b' l2 Hs2 H2. apply keeps_ret. intros l3 Hs3. cbn. apply s_all_list. by eapply s_all_forall_mono.
  - eapply (keeps_bind _ _ _ (fun l' r => match r.2 with Some e => covered l' e | None => True end)).
    + destruct e as [e|]; [|destruct t; kgo; done]. kgo. destruct t; kgo; done.
    + intros [t' e'] l1 Hs1 H1. cbn in H1. kgo. cbn. destruct e'; [|done]. eapply covered_mono; [|exact H1]. set_solver.
  - kgo. done.
  - destruct Hs as (Hc & Ha & Hb). do 2 kstep. eapply keeps_bind; [by apply IH|]. intros a' l2 Hs2 Ha'. cbv beta in Ha'. later.
    eapply (keeps_bind _ _ _ (fun l' r => match r with Some b => covered_s l' b | None => True end)).
    + destruct b as [b|]; [|by kgo]. eapply keeps_bind; [apply IH; eapply ready_s_mono; [|exact Hb]; set_solver|].
      intros b' l3 Hs3 Hb'. apply keeps_ret. intros l4 Hs4. by eapply covered_s_mono.
    + intros b' l3 Hs3 Hb'. later. apply keeps_ret. intros l4 Hs4. later. split; [done|]. split; [done|].
      destruct b'; [|done]. by eapply covered_s_mono.
  - destruct Hs as (Hc & Hb). do 2 kstep. eapply keeps_bind; [by apply IH|]. intros b' l2 Hs2 Hb'. cbv beta in Hb'. kgo. by split.
  - destruct Hs as (Hlo & Hhi & Hb). do 3 kstep. cbv zeta. apply keeps_in_scope; [intros ? ? ? ?; by apply covered_s_mono|]. intros l3 Hs3.
    later. kstep. eapply keeps_bind; [by apply IH|]. intros b' l9 Hs9 Hb'. cbv beta in Hb'. kgo.
    cbn. split_and!; [by apply covered_with_type..|done].
  - destruct e as [e|]; kgo; done.
  - kgo. done.
  - kgo. done.
  - destruct Hs as [Hc _]. kgo. split; [done|]. split; set_solver.
  - destruct Hs as [He Ha]. apply s_all_arms in Ha. kstep. destruct (e_type x) as [| | | | | | |en vs sz|]; try (by kgo). kstep.
    assert (forall l s, ready_s l s -> keeps l (check_stmt u fuel fn loops s) (fun l' s' => covered_s l' s')) as Hc by (intros; by apply IH).
    eapply keeps_bind; [apply keeps_arms; [exact Hc|]; eapply Forall_impl; [exact Ha|]; intros y; apply ready_s_mono; set_solver|].
    intros [[arms' seen] he] l2 Hs2 H2. cbn in H2.
    eapply keeps_bind; [by apply keeps_elses|]. intros arms2 l3 Hs3 H3. later. cbv zeta. kgo. cbn. split; [done|]. apply s_all_arms.
    eapply Forall_impl; [exact H3|]. intros y. apply covered_s_mono. set_solver.
Qed.

(** ** Functions *)
Lemma clauses_mono l l' ks : l ⊆ l' -> clauses method_ok l ks -> clauses method_ok l' ks.
Proof. intros Hl Hk. eapply Forall_impl; [exact Hk|]. intros k. by apply covered_mono. Qed.
Lemma clauses_ready l ks : clauses len_ok [] ks -> clauses len_ok l ks.
Proof. intros Hk. eapply Forall_impl; [exact Hk|]. intros k. apply ready_mono. set_solver. Qed.
Lemma keeps_contract fuel fn l k ens : ready l (k_expr k) -> keeps l (check_contract u fuel fn k ens) (fun l' k' => covered l' (k_expr k')).
Proof.
  intros Hk. unfold check_contract. kgo. eapply (keeps_bind _ _ _ (fun _ _ => True)).
  { destruct ens; [|by kgo]. kstep. eapply keeps_impl; [apply keeps_when|done]. }
  intros _ l5 Hs5 _. later. kgo. done.
Qed.
Lemma keeps_contracts fuel fn l ens ks :
  clauses len_ok [] ks -> keeps l (check_contracts u fuel fn ens ks) (fun l' ks' => clauses method_ok l' ks' /\ (ks' <> [] -> ks <> [])).
Proof.
  revert l. induction ks as [|k ks IH]; intros l Hk; cbn [check_contracts]; [apply keeps_ret; split; [by constructor|done]|].
  apply Forall_cons in Hk as [Hk Hks]. eapply keeps_bind; [apply keeps_contract; eapply ready_mono; [|exact Hk]; set_solver|].
  intros k' l1 Hs1 H1. eapply keeps_bind; [by apply IH|]. intros ks' l2 Hs2 [H2 _]. apply keeps_ret. intros l3 Hs3. split; [|done].
  constructor; [|by eapply clauses_mono]. eapply covered_mono; [|exact H1]. by etrans.
Qed.
Lemma keeps_params l fn ps regs : keeps l (check_params fn ps regs) (fun _ _ => True).
Proof.
  revert l regs. induction ps as [|[k name t off cv r at_] ps IH]; intros l regs; cbn [check_params]; [by kgo|].
  do 4 (eapply keeps_bind; [first [apply keeps_when]|intros ? ? _ _]). eapply keeps_bind; [apply keeps_frame|]. intros o l9 _ _.
  eapply keeps_bind; [by apply keeps_mod|]. intros _ l10 _ _. eapply keeps_bind; [apply IH|]. intros ps' l11 _ _. by apply keeps_ret.
Qed.
Lemma keeps_if {A} (b : bool) l (m m' : chk A) Q : keeps l m Q -> keeps l m' Q -> keeps l (if b then m else m') Q.
Proof. by destruct b. Qed.

Lemma keeps_fn fuel f l : ready_f f -> keeps l (check_fn u fuel f) (fun l' f' => covered_f l' f').
Proof.
  intros (Hreq & Hens & Hbody). unfold check_fn.
  eapply keeps_bind; [by apply keeps_mod|]. intros _ l1 Hs1 _. eapply keeps_bind; [by apply keeps_mod|]. intros _ l2 Hs2 _.
  eapply keeps_bind; [apply keeps_params|]. intros ps l3 Hs3 _. cbv zeta. eapply keeps_bind; [apply keeps_when|]. intros _ l4 Hs4 _.
  eapply (keeps_bind _ _ _ (fun _ _ => True)).
  { apply keeps_if; [apply keeps_frame|by apply keeps_ret]. }
  intros so l5 Hs5 _. eapply (keeps_bind _ _ _ (fun _ _ => True)).
  { apply keeps_if; [|by apply keeps_ret]. by kgo. }
  intros [res rs] l6 Hs6 _. eapply keeps_bind; [by apply keeps_contracts|]. intros req l7 Hs7 [Hr Hr0].
  eapply (keeps_bind _ _ _ (fun l' ks' => clauses method_ok l' ks' /\ (ks' <> [] -> f_ens f <> []))).
  { apply keeps_if; [|apply keeps_ret; split; [by constructor|done]]. apply keeps_in_scope.
    - intros la lb a Hab [Ha ?]. split; [by eapply clauses_mono|done].
    - intros l8 Hs8. eapply (keeps_bind _ _ _ (fun _ _ => True)); [destruct rs; [by apply keeps_mod|by apply keeps_ret]|].
      intros _ l9 Hs9 _. by apply keeps_contracts. }
  intros ens l8 Hs8 [He He0].
  eapply (keeps_bind _ _ _ (fun l' _ => some_of (f_req f) || some_of (f_ens f) = true -> reports l')).
  { destruct (_ || _); [|by apply keeps_ret]. kstep. eapply keeps_impl; [apply keeps_exit|]. intros l9 ? Hs9 H9 _. split; [by apply Hs9|done]. }
  intros _ l9 Hs9 H9. eapply keeps_bind; [apply keeps_stmt; eapply ready_s_mono; [|exact Hbody]; set_solver|].
  intros body l10 Hs10 H10. eapply keeps_bind; [by apply keeps_mod|]. intros _ l11 Hs11 _.
  eapply keeps_bind; [apply keeps_when|]. intros _ l12 Hs12 _. eapply keeps_bind; [apply keeps_get|]. intros s l13 Hs13 _.
  destruct (in_int _); [|apply keeps_fault]. apply keeps_ret. intros l14 Hs14.
  assert (l9 ⊆ l14) by (clear -Hs10 Hs11 Hs12 Hs13 Hs14; set_solver). split_and!; cbn.
  - eapply clauses_mono; [|exact Hr]. clear -H Hs8 Hs9. set_solver.
  - eapply clauses_mono; [|exact He]. clear -H Hs9. set_solver.
  - intros Hne. eapply reports_mono; [done|]. apply H9. destruct Hne as [Hne|Hne].
    + destruct (f_req f); [by apply Hr0 in Hne|done].
    + destruct (f_ens f); [by apply He0 in Hne|]. by rewrite orb_true_r.
  - eapply covered_s_mono; [|exact H10]. clear -Hs11 Hs12 Hs13 Hs14. set_solver.
Qed.
Lemma keeps_fns fuel fs l : Forall ready_f fs -> keeps l (check_fns u fuel fs) (fun l' fs' => Forall (covered_f l') fs').
Proof.
  revert l. induction fs as [|f fs IH]; intros l Hf; cbn [check_fns]; [by apply keeps_ret; constructor|].
  apply Forall_cons in Hf as [Hf Hfs]. eapply keeps_bind; [by apply keeps_fn|]. intros f' l1 Hs1 H1.
  eapply keeps_bind; [by apply IH|]. intros fs' l2 Hs2 H2. apply keeps_ret. intros l3 Hs3. constructor.
  - eapply covered_f_mono; [|exact H1]. by etrans.
  - eapply Forall_impl; [exact H2|]. intros x. by apply covered_f_mono.
Qed.
Lemma keeps_unit fuel l : Forall ready_f (u_fns u) ->
  keeps l (check_unit_body u fuel) (fun l' u' => Forall (covered_f l') (u_fns u') /\ 93 ∈ l' /\ u_entry u' = u_entry u /\ u_globals u' = u_globals u).
Proof.
  intros Hf. unfold check_unit_body. eapply keeps_bind; [apply keeps_when|]. intros _ l1 Hs1 _.
  destruct (u_entry u) as [i|]; [|apply keeps_die]. eapply keeps_bind; [by apply keeps_fns|]. intros fns l2 Hs2 H2.
  destruct (fns !! i) as [e|]; [|apply keeps_fault]. eapply keeps_bind; [apply keeps_when|]. intros _ l3 Hs3 _.
  eapply keeps_bind; [apply keeps_exit|]. intros ? l4 Hs4 H4. apply keeps_ret. intros l5 Hs5. cbn. split_and!; [|set_solver|done..].
  eapply Forall_impl; [exact H2|]. intros x. apply covered_f_mono. set_solver.
Qed.
End check.

(** What a checked unit's manifest is. *)
Lemma check_unit_covered fuel u u' calls caps :
  Forall ready_f (u_fns u) -> check_unit fuel u = Ret (inr (u', calls, caps)) ->
  sys_ok calls /\ Forall (covered_f calls) (u_fns u') /\ 93 ∈ calls.
Proof.
  intros Hf E. unfold check_unit in E. destruct (check_unit_body u fuel _) as [[d|[u1 s]]| |] eqn:Eb; try done. injection E as <- <- <-.
  destruct (keeps_unit u fuel [] Hf (CS 0 [] [] []) u1 s ltac:(split; [apply NoDup_nil_2|set_solver]) ltac:(set_solver) Eb) as (Hs & _ & H1 & H2 & _). done.
Qed.

(** ** Three programs *)
Definition node (k : ekind expr) : expr := Ex 1 TyVoid false k.
Definition main_of (cap : nat) (body : list stmt) : unit_ :=
  Unit [Fn "main" (str "m.sav") [Sym SYM_PARAM "c" (TyCap cap) 0 0 0 0] (TyInt W32 true) None [] [] (S_BLOCK body) true 0 0 0] [] [] (Some 0%nat).
(** [let n = c.write(...); assert n == 3; return 0;] of a [Console]. *)
Definition greeting : unit_ := main_of 0
  [S_LET "n" None (Some (node (E_METHOD (node (E_VAR "c" None)) "write" [node (E_STR (str "hi" ++ [10]))] None))) None false;
   S_ASSERT (node (E_BINARY T_EQEQ (node (E_VAR "n" None)) (node (E_INT 3)))) (str "n == 3") 1;
   S_RETURN (Some (node (E_INT 0)))].
(** [let b = (the string)[c.count()]; return 0;] of the [Args]. *)
Definition picker : unit_ := main_of 1
  [S_LET "b" None (Some (node (E_INDEX (node (E_STR (str "abc"))) (node (E_METHOD (node (E_VAR "c" None)) "count" [] None))))) None false;
   S_RETURN (Some (node (E_INT 0)))].
(** [let c: Console; c.write(...); return 0;] of a program that is given
    nothing. *)
Definition forger : unit_ :=
  Unit [Fn "main" (str "m.sav") [] (TyInt W32 true) None [] []
    (S_BLOCK [S_LET "c" (Some (TyCap 0)) None None false;
              S_EXPR (node (E_METHOD (node (E_VAR "c" None)) "write" [node (E_STR (str "x"))] None));
              S_RETURN (Some (node (E_INT 0)))]) true 0 0 0] [] [] (Some 0%nat).
(** A capability out of nothing: declared and not given, it writes. *)
Lemma capability_from_nothing : exists u', check_unit 20 forger = Ret (inr (u', [64; 93], ["Console"])) /\ f_params <$> u_fns forger !! 0%nat = Some [].
Proof. eexists. split; [vm_compute; reflexivity|done]. Qed.
