(* ===== verification/SavCheckTyped.v ===== *)
(** * The typing rules of sav, and that the checker keeps to them

    The rules are given on their own, a rule per kind of node; a tree the
    checker returns obeys them at every node.  Device pointers are followed one
    access at a time and never cast away, capabilities are not cast, calls
    match their signatures, conditions are [bool]s, an assignment's left side
    is a place, a match covers its type. *)
From stdpp Require Import strings.
From S2P Require Import Prelude SavTypes SavCheck SavCheckRun.
Open Scope Z_scope.

(** ** The rules *)
Definition accepts (e : expr) (t : ty) : Prop := ty_same (e_type e) t = true.
(** An operator, the types on its two sides, and its own. *)
Inductive op_typed : tokkind -> ty -> ty -> ty -> Prop :=
  | op_logic op a b : op = T_ANDAND \/ op = T_OROR -> ty_same a TyBool = true -> ty_same b TyBool = true -> op_typed op a b TyBool
  | op_compare op a b : is_compare op = true -> ty_same a b = true -> op_typed op a b TyBool
  | op_pointer op a dev b : op = T_PLUS \/ op = T_MINUS -> ty_is_int b = true -> op_typed op (TyPtr a dev) b (TyPtr a dev)
  | op_number op a b : ty_is_int a = true -> ty_is_int b = true -> ty_same a b = true -> op_typed op a b a.
(** The casts there are. *)
Inductive castable : ty -> ty -> Prop :=
  | cast_ints a s b s' : castable (TyInt a s) (TyInt b s')
  | cast_to_pointer a s e d : castable (TyInt a s) (TyPtr e d)
  | cast_of_pointer e a s : castable (TyPtr e false) (TyInt a s)
  | cast_pointers e d e' d' : (d = true -> d' = true) -> castable (TyPtr e d) (TyPtr e' d')
  | cast_of_bool a s : castable TyBool (TyInt a s)
  | cast_to_bool a s : castable (TyInt a s) TyBool.
(** A field found by its name, or one an earlier pass over the same node
    left. *)
Definition field_typed (fs : list field) (name : string) (f : option field) (t : ty) : Prop :=
  exists fd, f = Some fd /\ (find_field name fs = Some fd /\ t = fd_type fd \/ find_field name fs = None).

Section rules.
Context (u : unit_).
Definition node_typed (e : expr) : Prop :=
  let '(Ex line t lv k) := e in
  match k with
  | E_INT _ => ty_is_int t = true \/ (exists el d, t = TyPtr el d) \/ exists y, y_kind y = SYM_CONST /\ t = y_type y
  | E_BOOL _ => t = TyBool
  | E_STR _ => t = TySlice U8
  | E_SIZE => False
  | E_VAR _ None => False
  | E_VAR name (Some y) => named name y = true /\ y_kind y <> SYM_CONST /\ t = y_type y /\ lv = true
  | E_CALL name args None _ => False
  | E_CALL name args (Some i) _ => exists f, u_fns u !! i = Some f /\ f_entry f = false /\ Forall2 accepts args (y_type <$> f_params f) /\ t = f_ret f
  | E_METHOD a name args None => False
  | E_METHOD a name args (Some m) => exists id, e_type a = TyCap id /\ m ∈ d_methods (cap_of id) /\ Forall2 accepts args (sig_type <$> m_sig m) /\ t = ret_type (m_ret m)
  | E_UNARY op a => (op = T_BANG /\ accepts a TyBool /\ t = TyBool) \/ (op <> T_BANG /\ ty_is_int t = true /\ t = e_type a)
  | E_BINARY op a b => op_typed op (e_type a) (e_type b) t
  | E_INDEX a b =>
      ty_is_int (e_type b) = true /\ lv = true /\
      match e_type a with
      | TySlice el => t = el
      | TyArray el n => t = el /\ forall k, const_value b = Ret (Some k) -> 0 <= k < n
      | _ => False
      end
  | E_FIELD a name f =>
      match e_type a with
      | TySlice el => name = "ptr"%string /\ t = TyPtr el false
      | TyPtr (TyStruct _ fs _ _) false | TyStruct _ fs _ _ => field_typed fs name f t
      | _ => False
      end
  | E_CAST a => castable (e_type a) t
  | E_ASSIGN a b => e_lv a = true /\ accepts b (e_type a) /\ t = e_type a
  | E_UPDATE op a b st => e_lv a = true /\ op_typed op (e_type a) (e_type b) st /\ ty_same st (e_type a) = true /\ t = e_type a
  | E_SLICE a b c =>
      match e_type a with
      | TyPtr el dev => dev = false /\ c <> None /\ t = TySlice el
      | TyArray el _ | TySlice el => t = TySlice el
      | _ => False
      end
  | E_ADDR a => e_lv a = true /\ t = TyPtr (e_type a) false
  | E_DEREF op a => exists dev, e_type a = TyPtr t dev /\ (op = T_AT <-> dev = true) /\ lv = true
  | E_LEN a => t = I64 /\ match e_type a with TySlice _ | TyArray _ _ => True | _ => False end
  | E_VARIANT name args None _ => False
  | E_VARIANT name args (Some (i, v)) _ => exists n vs sz, t = TyEnum n vs sz /\ vs !! i = Some v /\ v.1 = name /\ Forall2 accepts args (fd_type <$> v.2)
  end.
Abbreviation typed := (e_all node_typed).
(** A tree that may be checked: any [.len] node in it was typed. *)
Definition len_typed (e : expr) : Prop := match e_kind e with E_LEN a => typed a /\ node_typed e | _ => True end.
Abbreviation fresh_e := (e_all len_typed).

(** Statements, in a function that returns [ret]. *)
Definition arm_typed (vs : list variant) (a : arm) : Prop :=
  let '(Arm name is_else v binds syms body) := a in
  if is_else then True else
  exists i v', v = Some (i, v') /\ vs !! i = Some v' /\ v'.1 = name /\ length syms = length binds
    /\ (binds = [] \/ length binds = length v'.2) /\ Forall2 (fun y f => y_type y = fd_type f) syms (take (length syms) v'.2).
Definition arm_place (a : arm) : list nat := let '(Arm _ _ v _ _ _) := a in match v with Some (i, _) => [i] | None => [] end.
Definition arm_else (a : arm) : bool := let '(Arm _ e _ _ _ _) := a in e.
(** The arms of a match: no case twice, and every case or an [else]. *)
Definition covers (vs : list variant) (arms : list arm) : Prop :=
  let taken := concat (arm_place <$> filter (fun a => arm_else a = false) arms) in
  NoDup taken /\ (Exists (fun a => arm_else a = true) arms <-> ~ (seq 0 (length vs) ⊆ taken)).
Section stmt.
Context (ret : ty).
Fixpoint s_typed (s : stmt) : Prop :=
  match s with
  | S_BLOCK l => (fix go (l : list stmt) : Prop := match l with [] => True | s :: l => s_typed s /\ go l end) l
  | S_LET name t e y is_var =>
      exists t' y', t = Some t' /\ y = Some y' /\ y_type y' = t' /\ y_name y' = name /\ (match t' with TyCap _ => is_var = false | _ => True end)
        /\ match e with Some e => typed e /\ (accepts e t' \/ is_literal e = true) | None => True end
  | S_EXPR e => typed e
  | S_IF c a b => typed c /\ accepts c TyBool /\ s_typed a /\ match b with Some b => s_typed b | None => True end
  | S_WHILE c b => typed c /\ accepts c TyBool /\ s_typed b
  | S_FOR name lo hi y b =>
      (exists e, typed e /\ ty_is_int (e_type e) = true /\ lo = with_type I64 e) /\ (exists e, typed e /\ ty_is_int (e_type e) = true /\ hi = with_type I64 e)
      /\ (exists y', y = Some y' /\ y_type y' = I64) /\ s_typed b
  | S_RETURN None => ret = TyVoid
  | S_RETURN (Some e) => ret <> TyVoid /\ typed e /\ accepts e ret
  | S_BREAK | S_CONTINUE => True
  | S_ASSERT c _ _ => typed c /\ accepts c TyBool /\ depends false c = true /\ const_value c = Ret None
  | S_MATCH e arms _ =>
      typed e /\ (exists n vs sz, e_type e = TyEnum n vs sz /\ Forall (arm_typed vs) arms /\ covers vs arms)
      /\ (fix go (l : list arm) : Prop := match l with [] => True | Arm _ _ _ _ _ body :: l => s_typed body /\ go l end) arms
  end.
End stmt.
(** A clause: a [bool] that depends on what it claims. *)
Definition clause_typed (is_ensures : bool) (k : contract) : Prop :=
  typed (k_expr k) /\ e_type (k_expr k) = TyBool /\ depends is_ensures (k_expr k) = true /\ const_value (k_expr k) = Ret None.
Definition fn_typed (f : func) : Prop :=
  Forall (clause_typed false) (f_req f) /\ Forall (clause_typed true) (f_ens f) /\ s_typed (f_ret f) (f_body f)
  /\ (f_ret f <> TyVoid -> always_returns (f_body f) = true)
  /\ Forall (fun p => y_type p <> TyVoid /\ (f_entry f = true -> exists id, y_type p = TyCap id)) (f_params f).
Definition fresh_f (f : func) : Prop :=
  Forall (fun k => fresh_e (k_expr k)) (f_req f) /\ Forall (fun k => fresh_e (k_expr k)) (f_ens f) /\ s_all len_typed True (f_body f).
End rules.

(** ** Runs that are not refused *)
Definition ens {A} (m : chk A) (Q : A -> Prop) : Prop := forall s a s', m s = Ret (inr (a, s')) -> Q a.
Lemma ens_bind {A B} (m : chk A) (f : A -> chk B) P Q : ens m P -> (forall a, P a -> ens (f a) Q) -> ens (sbind m f) Q.
Proof. intros Hm Hf s b s' E. apply sbind_inv in E as (a & s1 & E1 & E2). eapply Hf; [by eapply Hm|exact E2]. Qed.
Lemma ens_ret {A} (a : A) (Q : A -> Prop) : Q a -> ens (sret a) Q.
Proof. by intros HQ s b s' [= <- _]. Qed.
Lemma ens_die {A} d (Q : A -> Prop) : ens (die d) Q.
Proof. by intros s b s' E. Qed.
Lemma ens_fault {A} (Q : A -> Prop) : ens sfault Q.
Proof. by intros s b s' E. Qed.
Lemma ens_diverge {A} (Q : A -> Prop) : ens sdiverge Q.
Proof. by intros s b s' E. Qed.
Lemma ens_when b d : ens (when b d) (fun _ => b = false).
Proof. by intros s a s' [-> _]%when_inv. Qed.
Lemma ens_outcome {A} (o : outcome A) : ens (of_outcome o) (fun a => o = Ret a).
Proof. by intros s a s' [-> _]%of_outcome_inv. Qed.
Lemma ens_any {A} (m : chk A) : ens m (fun _ => True).
Proof. done. Qed.
Lemma ens_impl {A} (m : chk A) (P Q : A -> Prop) : ens m P -> (forall a, P a -> Q a) -> ens m Q.
Proof. intros Hm Hi s a s' E. eapply Hi, Hm, E. Qed.
Lemma ens_in_scope {A} (m : chk A) Q : ens m Q -> ens (in_scope m) Q.
Proof.
  intros Hm. unfold in_scope. eapply ens_bind; [apply ens_any|intros _ _]. eapply ens_bind; [exact Hm|]. intros a Ha.
  eapply ens_bind; [apply ens_any|intros _ _]. by apply ens_ret.
Qed.

Lemma ty_same_refl t : ty_same t t = true.
Proof.
  induction t; cbn; rewrite ?Z.eqb_refl, ?Nat.eqb_refl, ?String.eqb_refl, ?eqb_reflx; auto.
Qed.
Lemma is_op_refl a : is_op a a = true.
Proof. by apply is_op_true. Qed.

(** [ens_go] runs a checker, with the rules in [ens]. *)
Create HintDb ens.
#[local] Hint Resolve ens_when ens_outcome : ens.
Lemma ens_frame n : ens (take_frame n) (fun _ => True).
Proof. apply ens_any. Qed.
Lemma ens_get : ens sget (fun _ => True).
Proof. apply ens_any. Qed.
Lemma ens_record n : ens (record_syscall n) (fun _ => True).
Proof. apply ens_any. Qed.
Lemma ens_record_cap n : ens (record_cap n) (fun _ => True).
Proof. apply ens_any. Qed.
#[local] Hint Resolve ens_frame ens_get ens_record ens_record_cap : ens.
Ltac ens_go :=
  repeat lazymatch goal with
  | |- ens (sbind _ _) _ => eapply ens_bind; [solve [eauto with ens]|let a := fresh "x" in let H := fresh "Hx" in intros a H; cbv beta in H]
  | |- ens (sret _) _ => apply ens_ret
  | |- ens (die _) _ => apply ens_die
  | |- ens sfault _ => apply ens_fault
  end.

Section checked.
Context (u : unit_).
Abbreviation typed := (e_all (node_typed u)).
Abbreviation fresh_e := (e_all (len_typed u)).
Lemma typed_fresh e : typed e -> fresh_e e.
Proof.
  apply e_all_impl. intros [line t lv k] H. unfold len_typed. destruct k; try done. cbn [e_kind]. apply e_all_node in H as [Hn Hp]. done.
Qed.
Lemma literal_with e t : is_literal e = true -> ty_is_int t = true \/ (exists el d, t = TyPtr el d) -> typed (with_type t e) /\ e_type (with_type t e) = t /\ e_lv (with_type t e) = e_lv e.
Proof. destruct e as [line t' lv k]. unfold is_literal. cbn. destruct k; try done. intros _ Ht. cbn. tauto. Qed.
Lemma const_with t e : const_value (with_type t e) = const_value e.
Proof. by destruct e. Qed.
Lemma depends_with b t e : depends b (with_type t e) = depends b e.
Proof. by destruct e. Qed.

Lemma ens_want e t : typed e ->
  ens (want e t) (fun e' => typed e' /\ accepts e' t /\ e_lv e' = e_lv e).
Proof.
  intros He. unfold want, accepts. destruct (_ && _) eqn:E1.
  { apply andb_prop in E1 as [Hl Ht]. destruct (literal_with e t Hl ltac:(by left)) as (H1 & H2 & H3). apply ens_ret. rewrite H2. split; [done|]. split; [apply ty_same_refl|done]. }
  clear E1. destruct (is_literal e && _) eqn:E2.
  { apply andb_prop in E2 as [Hl Ht]. destruct (literal_with e t Hl) as (H1 & H2 & H3); [destruct t; try done; right; eauto|].
    apply ens_ret. rewrite H2. split; [done|]. split; [apply ty_same_refl|done]. }
  destruct (ty_same _ _) eqn:E3; [by apply ens_ret|apply ens_die].
Qed.
Lemma want_bool e e' s s' : want e TyBool s = Ret (inr (e', s')) -> e' = e.
Proof. unfold want. cbn. rewrite !andb_false_r. destruct (ty_same _ _); [by intros [= <- _]|done]. Qed.
Lemma ens_binary op a b : typed a -> typed b ->
  ens (check_binary op a b) (fun r => typed r.1.2 /\ typed r.2 /\ op_typed op (e_type r.1.2) (e_type r.2) r.1.1 /\ e_lv r.1.2 = e_lv a).
Proof.
  intros Ha Hb. unfold check_binary. destruct (_ || _) eqn:El.
  - eapply ens_bind; [by apply ens_want|]. intros a' (Ha' & Hta & Hlv). eapply ens_bind; [by apply ens_want|]. intros b' (Hb' & Htb & _).
    apply ens_ret. cbn. split; [done|]. split; [done|]. split; [|done]. apply orb_prop in El as [El%is_op_true|El%is_op_true]; by constructor; eauto.
  - assert (forall (c : bool) t e, (c = true -> is_literal e = true /\ ty_is_int t = true) -> typed e ->
      typed (if c then with_type t e else e) /\ e_lv (if c then with_type t e else e) = e_lv e) as Hif.
    { intros [] t e Hc He; [|done]. destruct (Hc eq_refl) as [Hl Ht]. destruct (literal_with e t Hl ltac:(by left)) as (? & _ & ?). done. }
    set (ca := is_literal a && _ && _). destruct (Hif ca (e_type b) a) as [Ha' Hlv]; [|done|].
    { unfold ca. intros [[? _]%andb_prop ?]%andb_prop. done. }
    set (a' := if ca then _ else a) in *. clearbody a'. clear ca. set (cb := is_literal b && _ && _). destruct (Hif cb (e_type a') b) as [Hb' _]; [|done|].
    { unfold cb. intros [[? _]%andb_prop ?]%andb_prop. done. }
    set (b' := if cb then _ else b) in *. clearbody b'. clear cb Hif El. destruct (is_compare op) eqn:Ec.
    + ens_go. cbn. apply negb_false_iff in Hx. split_and!; try done. by apply op_compare.
    + destruct (_ && _ && _) eqn:Ep.
      * apply ens_ret. cbn. apply andb_prop in Ep as [[Hp Hi]%andb_prop Ho]. destruct (e_type a') as [| | |el dev| | | | |] eqn:Et; try done.
        split_and!; try done. apply op_pointer; [|done]. by apply orb_prop in Ho as [?%is_op_true|?%is_op_true]; auto.
      * ens_go. cbn. apply orb_false_elim in Hx as [H1%negb_false_iff H2%negb_false_iff]. apply negb_false_iff in Hx0.
        split_and!; try done. by apply op_number.
Qed.
Lemma ens_args check args ts :
  (forall e, fresh_e e -> ens (check e) (fun e' => typed e')) -> Forall fresh_e args -> length args = length ts ->
  ens (check_args check args ts) (fun args' => Forall typed args' /\ Forall2 accepts args' ts).
Proof.
  intros Hc Ha. revert ts. induction Ha as [|e args He Ha IH]; intros [|t ts] Hl; try done; cbn [check_args]; [by apply ens_ret|].
  eapply ens_bind; [by apply Hc|]. intros e1 H1. eapply ens_bind; [by apply ens_want|]. intros e2 (H2 & H3 & _).
  eapply ens_bind; [apply IH; cbn in Hl; lia|]. intros es [H4 H5]. apply ens_ret. split; by constructor.
Qed.

Lemma find_sym_named name l y : find_sym name l = Some y -> named name y = true.
Proof. unfold find_sym. destruct (list_find _ l) as [[i y']|] eqn:E; [|done]. intros [= <-]. by apply list_find_Some in E as (_ & ? & _). Qed.
Lemma lookup_named sc name y : lookup_sym u sc name = Some y -> named name y = true.
Proof. unfold lookup_sym. destruct (find_sym name (concat sc)) eqn:E; [intros [= <-]; by eapply find_sym_named|apply find_sym_named]. Qed.
Lemma find_variant_at name vs i v : find_variant name vs = Some (i, v) -> vs !! i = Some v /\ v.1 = name.
Proof. unfold find_variant. intros (H1 & H2 & _)%list_find_Some. by apply String.eqb_eq in H2. Qed.
Lemma typed_node line t lv k : node_typed u (Ex line t lv k) -> parts (node_typed u) k -> typed (Ex line t lv k).
Proof. intros. by apply e_all_node. Qed.

Lemma ens_expr fuel e : fresh_e e -> ens (check_expr u fuel e) (fun e' => typed e').
Proof.
  revert e. induction fuel as [|fuel IH]; intros [line t lv k] [Hlen Hk]%e_all_node; [apply ens_diverge|].
  pose proof typed_fresh as Htf.
  assert (forall args ts, Forall fresh_e args -> length args = length ts ->
    ens (check_args (check_expr u fuel) args ts) (fun args' => Forall typed args' /\ Forall2 accepts args' ts)) as IHs
    by (intros; by apply ens_args).
  cbn [check_expr]. destruct k; cbn [parts] in Hk.
  - apply ens_ret, typed_node; [by left|done].
  - by apply ens_ret, typed_node.
  - by apply ens_ret, typed_node.
  - apply ens_ret, typed_node; [by left|done].
  - ens_go. destruct (lookup_sym _ _ _) as [y|] eqn:El; [|ens_go]. apply lookup_named in El.
    destruct (y_kind y) eqn:Ey; apply ens_ret, typed_node; try done; cbn; try (by rewrite Ey).
    right; right. eauto.
  - destruct (find_fn _ _) as [i|]; [|ens_go]. destruct (u_fns u !! i) as [f|] eqn:Ef; [|ens_go]. ens_go.
    apply negb_false_iff, Nat.eqb_eq in Hx0. eapply ens_bind; [apply IHs; [done|by rewrite length_fmap]|]. intros args' [H1 H2].
    destruct (is_aggregate _); ens_go; (apply typed_node; [|done]); cbn; eauto 10.
  - destruct Hk as [Ha Hargs]. ens_go. destruct (e_type x) as [| | | | | | | |id] eqn:Et; try (by ens_go).
    destruct (find_method _ _) as [m'|] eqn:Em; [|ens_go]. apply find_method_in in Em. ens_go. apply negb_false_iff, Nat.eqb_eq in Hx0.
    eapply ens_bind; [apply IHs; [done|by rewrite length_fmap]|]. intros args' [H1 H2]. ens_go. apply typed_node; [|done]. cbn. eauto 10.
  - ens_go. destruct (is_op op T_BANG) eqn:Eo.
    + apply is_op_true in Eo. eapply ens_bind; [by apply ens_want|]. intros a' (H1 & H2 & _). ens_go. apply typed_node; [|done]. left. done.
    + ens_go. apply negb_false_iff in Hx0. apply typed_node; [|done]. right. split; [|done]. intros ->. by rewrite is_op_refl in Eo.
  - destruct Hk as [Ha Hb]. ens_go. eapply ens_bind; [by apply ens_binary|]. intros [[t' a'] b'] (H1 & H2 & H3 & _). ens_go. by apply typed_node.
  - destruct Hk as [Ha Hb]. ens_go. apply negb_false_iff in Hx1. destruct (e_type x) as [| | |el []|el|el n| | |] eqn:Et; try (by ens_go).
    + ens_go. apply typed_node; [|done]. cbn. by rewrite Et.
    + ens_go. apply typed_node; [|done]. cbn. rewrite Et. split_and!; try done. intros k Hk. rewrite Hk in Hx2. injection Hx2 as <-.
      apply orb_false_elim in Hx3. lia.
  - ens_go. cbv zeta.
    assert (forall fs, match e_type x with TyPtr (TyStruct _ fs' _ _) false | TyStruct _ fs' _ _ => fs' = fs | _ => False end ->
      ens (match find_field name fs, f with
        | Some f, _ => sret (Ex line (fd_type f) true (E_FIELD x name (Some f)))
        | None, Some _ => sret (Ex line t lv (E_FIELD x name f))
        | None, None => die NoSuchField end) (fun e' => typed e')) as Hf.
    { intros fs Hfs. assert (forall fd t' lv', find_field name fs = Some fd /\ t' = fd_type fd \/ find_field name fs = None ->
        typed (Ex line t' lv' (E_FIELD x name (Some fd)))) as Hn.
      { intros fd t' lv' Hfd. apply typed_node; [|done]. cbn. destruct (e_type x) as [| | |el []| | | | |]; try done; [destruct el; try done|]; subst; exists fd; done. }
      destruct (find_field _ _) as [fd|] eqn:Efd; [apply ens_ret, Hn; by left|]. destruct f; [apply ens_ret, Hn; by right|ens_go]. }
    destruct (e_type x) as [| | |el dev|el| | | |] eqn:Et; try (by ens_go).
    + destruct dev; [by destruct el; ens_go|]. destruct el; try (by ens_go). by apply Hf.
    + destruct (_ =? _)%string; [ens_go; apply typed_node; [cbn; by rewrite Et|done]|].
      destruct (String.eqb_spec name "ptr"); [|ens_go]. ens_go. apply typed_node; [cbn; by rewrite Et|done].
    + destruct (_ =? _)%string; [ens_go; apply typed_node; [cbn; by rewrite Et|done]|ens_go].
    + by apply Hf.
  - ens_go. cbv zeta. ens_go. apply typed_node; [|done]. cbn. apply negb_false_iff in Hx2.
    destruct (e_type x) as [| | |? []| | | | |], t as [| | |? []| | | | |]; try done; by constructor.
  - destruct Hk as [Ha Hb]. ens_go. apply negb_false_iff in Hx1. eapply ens_bind; [by apply ens_want|]. intros b' (H1 & H2 & _). ens_go.
    by apply typed_node.
  - destruct Hk as [Ha Hb]. ens_go. eapply ens_bind; [by apply ens_binary|]. intros [[t' a'] b'] (H1 & H2 & H3 & H4). ens_go.
    apply negb_false_iff in Hx2, Hx3. by apply typed_node.
  - destruct Hk as (Ha & Hb & Hc). ens_go.
    eapply (ens_bind _ _ (fun c' => match c' with Some c => typed c | None => True end)).
    { destruct c as [c|]; [|by ens_go]. ens_go. done. }
    intros c' Hc'. assert (forall el, match e_type x with TyPtr el' d => d = false /\ c' <> None /\ el' = el | TyArray el' _ | TySlice el' => el' = el | _ => False end ->
      typed (Ex line (TySlice el) lv (E_SLICE x x0 c'))) as Hn.
    { intros el Hel. apply typed_node; [|done]. cbn. destruct (e_type x); try done; [destruct Hel as (? & ? & ->); done|by rewrite Hel..]. }
    destruct (e_type x) as [| | |el dev|el|el n| | |] eqn:Et; try (by ens_go).
    + ens_go. apply Hn. by destruct c'.
    + ens_go. by apply Hn.
    + ens_go. by apply Hn.
  - ens_go. apply negb_false_iff in Hx0. by apply typed_node.
  - ens_go. destruct (e_type x) as [| | |el dev| | | | |] eqn:Et; try (by ens_go). ens_go. apply typed_node; [|done].
    exists dev. split; [done|]. split; [|done]. destruct (is_op op T_AT) eqn:Eo.
    + apply is_op_true in Eo. by destruct dev.
    + destruct dev; [done|]. split; [|done]. intros ->. by rewrite is_op_refl in Eo.
  - ens_go. destruct Hlen as [Ha [_ Hn]]. by apply typed_node.
  - destruct t as [| | | | | | |en vs sz|]; try (by ens_go). destruct (find_variant _ _) as [[i v']|] eqn:Ev; [|ens_go]. apply find_variant_at in Ev as [Hi Hnm].
    ens_go. apply negb_false_iff, Nat.eqb_eq in Hx. eapply ens_bind; [apply IHs; [done|by rewrite length_fmap]|]. intros args' [H1 H2]. ens_go.
    apply typed_node; [|done]. cbn. eauto 10.
Qed.

(** ** Statements *)
#[local] Hint Resolve ens_expr : ens.
Lemma ens_declare fn name t : ens (declare fn name t) (fun y => y_name y = name /\ y_type y = t).
Proof.
  unfold declare. ens_go. eapply ens_bind; [apply ens_any|intros _ _]. by apply ens_ret.
Qed.
#[local] Hint Resolve ens_declare : ens.
Lemma ens_binds fn binds fs :
  ens (declare_binds fn binds fs) (fun ys => length ys = length binds /\ Forall2 (fun y f => y_type y = fd_type f) ys (take (length ys) fs)).
Proof.
  revert fs. induction binds as [|b binds IH]; intros [|f fs]; cbn [declare_binds]; try (apply ens_ret; done); [apply ens_fault|].
  ens_go. destruct Hx as [_ Ht], Hx0 as [Hl Hf]. cbn. split; [lia|]. by constructor.
Qed.

Definition head (a : arm) : string * bool * option (nat * variant) * list string * list sym :=
  let '(Arm n e v b y _) := a in (n, e, v, b, y).
Definition places (arms : list arm) : list nat := concat (arm_place <$> filter (fun a => arm_else a = false) arms).
Lemma same_heads vs arms arms' : head <$> arms = head <$> arms' ->
  (Forall (arm_typed vs) arms -> Forall (arm_typed vs) arms') /\ places arms = places arms'
  /\ (Exists (fun a => arm_else a = true) arms -> Exists (fun a => arm_else a = true) arms').
Proof.
  revert arms'. induction arms as [|[n e v b y body] arms IH]; intros [|[n' e' v' b' y' body'] arms'] E; try done.
  injection E as -> -> -> -> -> E. destruct (IH arms' E) as (H1 & H2 & H3). split_and!.
  - intros [Ha Hb]%Forall_cons. constructor; [done|by apply H1].
  - unfold places in *. rewrite !filter_cons. cbn [arm_else]. destruct e'; [by rewrite !decide_False by done|]. rewrite !decide_True by done. rewrite !fmap_cons. cbn [concat arm_place]. by f_equal.
  - intros [Ha|Hb]%Exists_cons; [by left|right; by apply H3].
Qed.
(** An arm before the pass over the [else]s. *)
Definition half_typed (ret : ty) (a : arm) : Prop :=
  let '(Arm _ is_else _ _ _ body) := a in if is_else then s_all (len_typed u) True body else s_typed u ret body.
Lemma ens_arms ret check fn vs arms seen has_else :
  (forall s, s_all (len_typed u) True s -> ens (check s) (s_typed u ret)) -> Forall (fun a => s_all (len_typed u) True (arm_body a)) arms -> NoDup seen ->
  ens (check_arms check fn vs arms seen has_else) (fun r => let '(arms', seen', has_else') := r in
    Forall (arm_typed vs) arms' /\ seen' = rev (places arms') ++ seen /\ NoDup seen'
    /\ (has_else' = true <-> has_else = true \/ Exists (fun a => arm_else a = true) arms') /\ Forall (half_typed ret) arms').
Proof.
  intros Hc. revert seen has_else. induction arms as [|[name is_else v binds syms body] arms IH]; intros seen has_else Hb Hs; cbn [check_arms].
  { apply ens_ret. split_and!; try done. split; [by left|]. intros [?|H]; [done|by apply Exists_nil in H]. }
  apply Forall_cons in Hb as [Hbody Hb]. cbn in Hbody. eapply ens_bind; [apply ens_when|]. intros _ ->. destruct is_else.
  - eapply ens_bind; [by apply IH|]. intros [[arms' seen'] he] (H1 & H2 & H3 & H4 & H5). apply ens_ret. split_and!; try done.
    + by constructor.
    + split; [|intros _; apply H4; by left]. intros _. right. by left.
    + by constructor.
  - destruct (find_variant _ _) as [[i v']|] eqn:Ev; [|apply ens_die]. apply find_variant_at in Ev as [Hi Hn].
    eapply ens_bind; [apply ens_when|]. intros ? Hmem. eapply ens_bind; [apply ens_when|]. intros ? Hbinds.
    eapply (ens_bind _ _ (fun r => length r.1 = length binds /\ Forall2 (fun y f => y_type y = fd_type f) r.1 (take (length r.1) v'.2) /\ s_typed u ret r.2)).
    { apply ens_in_scope. eapply ens_bind; [apply ens_binds|]. intros ys [Hl Hf]. eapply ens_bind; [by apply Hc|]. intros body' Hb'. by apply ens_ret. }
    intros [ys body'] (Hl & Hf & Hb'). cbn in Hl, Hf, Hb'. assert (i ∉ seen) as Hnin.
    { intros Hin. unfold mem_nat in Hmem. enough (existsb (fun j => (j =? i)%nat) seen = true) by congruence.
      apply existsb_exists. exists i. split; [by apply list_elem_of_In|apply Nat.eqb_refl]. }
    eapply ens_bind; [apply IH; [done|by constructor]|]. intros [[arms' seen'] he] (H1 & H2 & H3 & H4 & H5). apply ens_ret. split_and!; try done.
    + constructor; [|done]. exists i, v'. split_and!; try done.
      apply andb_false_elim in Hbinds as [Hbinds|Hbinds]; apply negb_false_iff, Nat.eqb_eq in Hbinds; [left; by apply nil_length_inv|by right].
    + rewrite H2. unfold places. rewrite filter_cons. cbn [arm_else]. rewrite decide_True by done. rewrite fmap_cons. cbn [concat arm_place app].
      cbn [rev]. by rewrite <- app_assoc.
    + rewrite H4. split; (intros [?|?]; [done|right]); [by right|]. by match goal with H : Exists _ (_ :: _) |- _ => apply Exists_cons in H as [?|?] end.
    + by constructor.
Qed.
Lemma ens_elses ret check arms :
  (forall s, s_all (len_typed u) True s -> ens (check s) (s_typed u ret)) -> Forall (half_typed ret) arms ->
  ens (check_elses check arms) (fun arms' => head <$> arms = head <$> arms' /\ Forall (fun a => s_typed u ret (arm_body a)) arms').
Proof.
  intros Hc. induction arms as [|[name is_else v binds syms body] arms IH]; intros Hb; cbn [check_elses]; [by apply ens_ret|].
  apply Forall_cons in Hb as [Hbody Hb]. cbn in Hbody. eapply (ens_bind _ _ (s_typed u ret)).
  { destruct is_else; [|by apply ens_ret]. apply ens_in_scope. by apply Hc. }
  intros body' Hb'. eapply ens_bind; [by apply IH|]. intros arms' [H1 H2]. apply ens_ret. split; [cbn; by f_equal|by constructor].
Qed.
Lemma ens_list ret check l :
  (forall s, s_all (len_typed u) True s -> ens (check s) (s_typed u ret)) -> Forall (s_all (len_typed u) True) l ->
  ens (check_list check l) (fun l' => Forall (s_typed u ret) l').
Proof.
  intros Hc. induction 1 as [|s l Hs Hl IH]; cbn [check_list]; [by apply ens_ret|].
  eapply ens_bind; [by apply Hc|]. intros s' H1. eapply ens_bind; [exact IH|]. intros l' H2. apply ens_ret. by constructor.
Qed.
Lemma s_typed_list ret l :
  (fix go (l : list stmt) : Prop := match l with [] => True | s :: l => s_typed u ret s /\ go l end) l <-> Forall (s_typed u ret) l.
Proof. induction l as [|a l IH]; [done|]. by rewrite Forall_cons, IH. Qed.
Lemma s_typed_arms ret l :
  (fix go (l : list arm) : Prop := match l with [] => True | Arm _ _ _ _ _ body :: l => s_typed u ret body /\ go l end) l
  <-> Forall (fun a => s_typed u ret (arm_body a)) l.
Proof. induction l as [|[] l IH]; [done|]. by rewrite Forall_cons, IH. Qed.

Lemma existsb_seq n l : existsb (fun i => negb (mem_nat i l)) (seq 0 n) = true <-> ~ (seq 0 n ⊆ l).
Proof.
  assert (forall i, mem_nat i l = true <-> i ∈ l) as Hm.
  { intros i. unfold mem_nat. rewrite existsb_exists. split.
    - by intros (j & Hj%list_elem_of_In & ->%Nat.eqb_eq).
    - intros Hi. exists i. split; [by apply list_elem_of_In|apply Nat.eqb_refl]. }
  split.
  - intros (i & Hi & Hn)%existsb_exists Hsub. apply negb_true_iff in Hn. apply not_true_iff_false in Hn. apply Hn, Hm, Hsub. by apply list_elem_of_In.
  - intros Hns. apply not_false_iff_true. intros Hf. apply Hns. intros i Hi. apply Hm. apply not_false_iff_true. intros Hx.
    enough (existsb (fun i => negb (mem_nat i l)) (seq 0 n) = true) by congruence. apply existsb_exists. exists i. split; [by apply list_elem_of_In|].
    by rewrite Hx.
Qed.
Lemma ens_contract fuel fn k b : fresh_e (k_expr k) -> ens (check_contract u fuel fn k b) (fun k' => clause_typed u b k').
Proof.
  intros Hk. unfold check_contract. ens_go. eapply ens_bind; [apply ens_any|intros _ _]. apply ens_ret. unfold clause_typed. cbn [k_expr].
  apply negb_false_iff in Hx3. split; [done|]. split; [by destruct (e_type x)|]. split; [done|]. by destruct x1.
Qed.
Lemma ens_contracts fuel fn b ks : Forall (fun k => fresh_e (k_expr k)) ks -> ens (check_contracts u fuel fn b ks) (fun ks' => Forall (clause_typed u b) ks').
Proof.
  induction 1 as [|k ks Hk Hks IH]; cbn [check_contracts]; [by apply ens_ret|].
  eapply ens_bind; [by apply ens_contract|]. intros k' H1. eapply ens_bind; [exact IH|]. intros ks' H2. apply ens_ret. by constructor.
Qed.
Lemma ens_cond fuel c : fresh_e c -> ens (do! c := check_expr u fuel c in want c TyBool) (fun c => typed c /\ accepts c TyBool).
Proof. intros Hc. ens_go. eapply ens_impl; [by apply ens_want|]. by intros ? (? & ? & _). Qed.
Lemma ens_want2 e t : typed e -> ens (want e t) (fun e' => typed e' /\ accepts e' t).
Proof. intros He. eapply ens_impl; [by apply ens_want|]. by intros ? (? & ? & _). Qed.
#[local] Hint Resolve ens_want2 : ens.
Lemma ens_stmt fuel fn loops s : s_all (len_typed u) True s -> ens (check_stmt u fuel fn loops s) (s_typed u (f_ret fn)).
Proof.
  revert loops s. induction fuel as [|fuel IH]; intros loops s Hs; [apply ens_diverge|].
  destruct s as [b|name t e y va|e|c a b|c b|name lo hi y b|e| | |c tx ln|e arms off]; cbn [check_stmt]; cbn [s_all] in Hs.
  - apply s_all_list in Hs. apply ens_in_scope. eapply ens_bind; [by apply ens_list; [intros; by apply IH|]|]. intros l' Hl'. apply ens_ret.
    by apply s_typed_list.
  - eapply (ens_bind _ _ (fun r => match r.2 with Some e => typed e /\ (accepts e r.1 \/ is_literal e = true) | None => True end)).
    + destruct e as [e|]; [|destruct t; by ens_go]. ens_go. destruct t as [t|]; ens_go; cbn.
      * split; [tauto|left; tauto].
      * split; [done|]. destruct (is_literal x); [by right|left]. apply ty_same_refl.
    + intros [t' e'] H1. cbn in H1. ens_go. destruct Hx0 as [Hn Ht]. cbn. exists t', x0. split_and!; try done. by destruct t'.
  - ens_go. done.
  - destruct Hs as (Hc & Ha & Hb). ens_go.
    eapply (ens_bind _ _ (fun r => match r with Some b => s_typed u (f_ret fn) b | None => True end)).
    + destruct b as [b|]; ens_go; done.
    + intros b' Hb'. apply ens_ret. cbn. tauto.
  - destruct Hs as (Hc & Hb). ens_go. cbn. tauto.
  - destruct Hs as (Hlo & Hhi & Hb). ens_go. cbv zeta. apply ens_in_scope. ens_go. cbn. apply orb_false_elim in Hx1 as [H1%negb_false_iff H2%negb_false_iff].
    split; [by exists x|]. split; [by exists x0|]. split; [exists x2; tauto|done].
  - destruct e as [e|]; ens_go; cbn.
    + split; [by destruct (f_ret fn)|tauto].
    + by destruct (f_ret fn).
  - ens_go. done.
  - ens_go. done.
  - destruct Hs as [Hc _]. ens_go. cbn. apply negb_false_iff in Hx3. split; [tauto|]. split; [tauto|]. split; [done|]. by destruct x1.
  - destruct Hs as [He Ha]. apply s_all_arms in Ha. ens_go. destruct (e_type x) as [| | | | | | |en vs sz|] eqn:Et; try (by ens_go). ens_go.
    assert (forall s, s_all (len_typed u) True s -> ens (check_stmt u fuel fn loops s) (s_typed u (f_ret fn))) as Hc by (intros; by apply IH).
    eapply ens_bind; [apply (ens_arms (f_ret fn)); [exact Hc|exact Ha|constructor]|]. intros [[arms' seen] he] (H1 & H2 & H3 & H4 & H5).
    eapply ens_bind; [by apply ens_elses|]. intros arms2 [H6 H7]. cbv zeta. ens_go. cbn [s_typed].
    destruct (same_heads vs arms' arms2 H6) as (S1 & S2 & S3). destruct (same_heads vs arms2 arms' ltac:(done)) as (_ & _ & S4).
    split; [done|]. split; [|by apply s_typed_arms]. exists en, vs, sz. split; [done|]. split; [by apply S1|].
    unfold covers. fold (places arms2). rewrite <- S2. rewrite app_nil_r in H2. subst seen. split; [by apply NoDup_ListNoDup, NoDup_rev, NoDup_ListNoDup in H3; rewrite rev_involutive in H3|].
    assert (forall l, l ⊆ rev (places arms') <-> l ⊆ places arms') as Hrev.
    { intros l. split; intros Hl i Hi; specialize (Hl i Hi); apply list_elem_of_In; apply list_elem_of_In in Hl; by apply in_rev in Hl; rewrite ?rev_involutive in *. }
    rewrite <- Hrev, <- existsb_seq. split.
    + intros Hex. destruct (existsb _ _); [done|]. cbn in *. assert (he = true) as -> by (apply H4; right; by apply S4). done.
    + intros Hm. rewrite Hm in *. cbn in *. apply negb_false_iff in Hx1. apply H4 in Hx1 as [?|?]; [done|by apply S3].
Qed.

(** ** Functions *)
Lemma ens_params fn ps regs :
  ens (check_params fn ps regs) (Forall (fun p => y_type p <> TyVoid /\ (f_entry fn = true -> exists id, y_type p = TyCap id))).
Proof.
  revert regs. induction ps as [|[k name t off cv r at_] ps IH]; intros regs; cbn [check_params]; [by apply ens_ret|].
  eapply ens_bind; [apply ens_when|]. intros ? Hv. eapply ens_bind; [apply ens_when|]. intros ? _. eapply ens_bind; [apply ens_when|]. intros ? He.
  eapply ens_bind; [apply ens_when|]. intros ? _. eapply ens_bind; [apply ens_any|intros off' _]. eapply ens_bind; [apply ens_any|intros _ _].
  eapply ens_bind; [apply IH|]. intros ps' Hps. apply ens_ret. constructor; [|done]. cbn. split; [by destruct t|].
  intros Hen. rewrite Hen in He. destruct t; try done. eauto.
Qed.
Lemma ens_fn fuel f : fresh_f u f -> ens (check_fn u fuel f) (fn_typed u).
Proof.
  intros (Hreq & Hens & Hbody). unfold check_fn.
  eapply ens_bind; [apply ens_any|intros _ _]. eapply ens_bind; [apply ens_any|intros _ _].
  eapply ens_bind; [apply ens_params|intros ps Hps]. cbv zeta. eapply ens_bind; [apply ens_any|intros _ _].
  eapply ens_bind; [apply ens_any|intros so _]. eapply ens_bind; [apply ens_any|intros [res rs] _].
  eapply ens_bind; [by apply ens_contracts|intros req Hr].
  eapply (ens_bind _ _ (Forall (clause_typed u true))).
  { destruct (some_of _); [|by apply ens_ret]. apply ens_in_scope. eapply ens_bind; [apply ens_any|intros _ _]. by apply ens_contracts. }
  intros ens_ He. eapply ens_bind; [apply ens_any|intros _ _]. eapply ens_bind; [by apply ens_stmt|intros body Hb].
  eapply ens_bind; [apply ens_any|intros _ _]. eapply ens_bind; [apply ens_when|intros ? Hret]. eapply ens_bind; [apply ens_any|intros s _].
  destruct (in_int _); [|apply ens_fault]. apply ens_ret. split; [done|]. split; [done|]. split; [done|]. split; [|done].
  cbn. intros Hv. destruct (f_ret f); try done; by apply negb_false_iff in Hret.
Qed.
Lemma ens_fns fuel fs : Forall (fresh_f u) fs -> ens (check_fns u fuel fs) (Forall (fn_typed u)).
Proof.
  induction 1 as [|f fs Hf Hfs IH]; cbn [check_fns]; [by apply ens_ret|].
  eapply ens_bind; [by apply ens_fn|]. intros f' H1. eapply ens_bind; [exact IH|]. intros fs' H2. apply ens_ret. by constructor.
Qed.
End checked.

(** What the checker passes is typed: the clauses of every
    function are [bool]s that depend on what they claim, its body obeys the
    rules at every expression and statement -- calls match signatures, device
    memory is followed one access at a time and never cast away, no capability
    is cast or made into a [var], each match takes no case twice and leaves none
    out -- every path of a function with a result returns one, and the entry is
    given capabilities alone. *)
Theorem checked_unit_typed fuel u u' calls names :
  Forall (fresh_f u) (u_fns u) -> check_unit fuel u = Ret (inr (u', calls, names)) ->
  Forall (fn_typed u) (u_fns u') /\ Forall (fun y => y_kind y = SYM_GLOBAL -> forall id, y_type y <> TyCap id) (u_globals u').
Proof.
  intros Hf E. unfold check_unit in E. destruct (check_unit_body u fuel _) as [[d|[u1 s]]| |] eqn:Eb; try done. injection E as <- <- <-.
  unfold check_unit_body in Eb. apply sbind_inv in Eb as (? & s1 & [Hg _]%when_inv & Eb).
  destruct (u_entry u) as [i|]; [|done]. apply sbind_inv in Eb as (fns & s2 & E2 & Eb). destruct (fns !! i) as [e|]; [|done].
  apply sbind_inv in Eb as (? & s3 & _ & Eb). apply sbind_inv in Eb as (? & s4 & _ & [= <- _]). cbn. split.
  - by eapply ens_fns.
  - apply Forall_forall. intros y Hy Hk id Ht. enough (existsb global_cap (u_globals u) = true) by congruence.
    apply existsb_exists. exists y. split; [by apply list_elem_of_In|]. unfold global_cap. by rewrite Hk, Ht.
Qed.
Lemma checked_unit_typed_witness : exists u' calls names,
  check_unit 20 greeting = Ret (inr (u', calls, names))
  /\ Forall (fn_typed greeting) (u_fns u') /\ Forall (fun y => y_kind y = SYM_GLOBAL -> forall id, y_type y <> TyCap id) (u_globals u').
Proof.
  do 3 eexists. split; [vm_compute; reflexivity|]. eapply (checked_unit_typed 20 greeting).
  - repeat constructor.
  - vm_compute. reflexivity.
Defined.
