(* ===== verification/SavParseRun.v ===== *)
(** * What the sav parser builds

    Two invariants of the unit as it grows: its trees are as a reader wrote
    them -- without the [.len] nodes that only the checker makes, which is what
    the checker's theorems ask of a unit -- and its structs and enums are laid
    out: fields in order, aligned, inside the type. *)
From stdpp Require Import strings.
From S2P Require Import Prelude SavTypes SavCheck SavCheckRun SavCheckTyped SavLex SavParse.
Open Scope Z_scope.

(** ** Aligned places *)
Definition al_ok (a : Z) : Prop := a = 1 \/ a = 2 \/ a = 4 \/ a = 8.
Lemma al_ok_max a b : al_ok a -> al_ok b -> al_ok (Z.max a b) /\ (a | Z.max a b) /\ (b | Z.max a b).
Proof.
  intros Ha Hb. split; [unfold al_ok in *; lia|].
  assert (forall x y, al_ok x -> al_ok y -> x <= y -> (x | y)) as H.
  { intros x y Hx Hy Hxy. exists (y / x). destruct Hx as [->|[->|[->| ->]]], Hy as [->|[->|[->| ->]]]; lia || reflexivity. }
  split; apply H; unfold al_ok in *; lia.
Qed.
Lemma ldiff_up n a : al_ok a -> n <= Z.ldiff (n + a - 1) (a - 1) /\ (a | Z.ldiff (n + a - 1) (a - 1)).
Proof.
  intros Ha. assert (exists k, 0 <= k /\ a = 2 ^ k) as (k & Hk & ->).
  { destruct Ha as [->|[->|[->| ->]]]; [exists 0|exists 1|exists 2|exists 3]; lia. }
  replace (2 ^ k - 1) with (Z.ones k) by (rewrite Z.ones_equiv; lia). rewrite Z.ldiff_ones_r by done.
  rewrite Z.shiftr_div_pow2, Z.shiftl_mul_pow2 by done. split; [|apply Z.divide_factor_r].
  pose proof (Z.pow_pos_nonneg 2 k ltac:(lia) Hk). pose proof (Z.div_mod (n + 2 ^ k - 1) (2 ^ k) ltac:(lia)).
  pose proof (Z.mod_pos_bound (n + 2 ^ k - 1) (2 ^ k) ltac:(lia)). lia.
Qed.

(** Fields from [a] to [b]: each after the one before, at its alignment. *)
Fixpoint placed (a : Z) (fs : list field) (b : Z) : Prop :=
  match fs with
  | [] => a <= b
  | f :: fs => a <= fd_off f /\ (ty_align (fd_type f) | fd_off f) /\ placed (fd_off f + ty_size (fd_type f)) fs b
  end.
Lemma placed_more a fs b c : placed a fs b -> b <= c -> placed a fs c.
Proof. revert a. induction fs as [|f fs IH]; intros a; cbn; [lia|]. intros (H1 & H2 & H3) Hc. by split_and!; [..|apply IH]. Qed.
(** A struct: its fields from 0 to its size, of which its alignment, and so that
    of every field, is a divisor; an enum: every case behind the eight bytes of
    the tag. *)
Definition laid_out (t : ty) : Prop :=
  match t with
  | TyStruct _ fs size align => placed 0 fs size /\ al_ok align /\ (align | size) /\ Forall (fun f => (ty_align (fd_type f) | align)) fs
  | TyEnum _ vs size => vs <> [] /\ 8 <= size /\ (8 | size) /\ Forall (fun v => placed 8 v.2 size /\ Forall (fun f => (ty_align (fd_type f) | 8)) v.2) vs
  | _ => False
  end.
Lemma al_ok_laid t : laid_out t -> al_ok (ty_align t).
Proof. destruct t; try done; cbn; [tauto|]. intros _. unfold al_ok. auto. Qed.

(** ** Trees as written *)
Definition unlen (e : expr) : Prop := match e_kind e with E_LEN _ => False | _ => True end.
Abbreviation raw := (e_all unlen).
Abbreviation raw_s := (s_all unlen True).
Definition raw_f (f : func) : Prop :=
  Forall (fun k => raw (k_expr k)) (f_req f) /\ Forall (fun k => raw (k_expr k)) (f_ens f) /\ raw_s (f_body f).
Lemma raw_f_impl (P : expr -> Prop) f : (forall e, unlen e -> P e) -> raw_f f ->
  Forall (fun k => e_all P (k_expr k)) (f_req f) /\ Forall (fun k => e_all P (k_expr k)) (f_ens f) /\ s_all P True (f_body f).
Proof.
  intros HP (H1 & H2 & H3). assert (forall e, raw e -> e_all P e) as He.
  { apply e_all_impl. intros e He. by apply HP, e_all_root. }
  split_and!; [eapply Forall_impl; [exact H1|]; intros k; apply He|eapply Forall_impl; [exact H2|]; intros k; apply He|].
  revert H3. by apply s_all_impl.
Qed.
Lemma raw_ready f : raw_f f -> ready_f f.
Proof. apply raw_f_impl. intros e. unfold unlen, len_ok. by destruct (e_kind e). Qed.
Lemma raw_fresh u f : raw_f f -> fresh_f u f.
Proof. apply raw_f_impl. intros e. unfold unlen, len_typed. by destruct (e_kind e). Qed.

(** ** What a step of the parser gives *)
Definition pinv (p : pstate) : Prop := Forall raw_f (fns p) /\ Forall laid_out (structs p).
Definition gives {A} (m : par A) (Q : A -> Prop) : Prop :=
  forall p a p', pinv p -> m p = Ret (inr (a, p')) -> pinv p' /\ Q a.

(** What is said of a result, by its type. *)
Class Clean (A : Type) := clean : A -> Prop.
#[global] Instance clean_expr : Clean expr := raw.
#[global] Instance clean_stmt : Clean stmt := raw_s.
#[global] Instance clean_arm : Clean arm := fun a => raw_s (arm_body a).
#[global] Instance clean_contract : Clean contract := fun k => raw (k_expr k).
#[global] Instance clean_ty : Clean ty := fun t => al_ok (ty_align t).
#[global] Instance clean_pstate : Clean pstate := pinv.
#[global] Instance clean_list {A} `{Clean A} : Clean (list A) := Forall clean.
#[global] Instance clean_option {A} `{Clean A} : Clean (option A) := fun o => match o with Some a => clean a | None => True end.
#[global] Instance clean_prod {A B} `{Clean A} `{Clean B} : Clean (A * B) := fun r => clean r.1 /\ clean r.2.
#[global] Instance clean_unit : Clean () := fun _ => True.
#[global] Instance clean_bool : Clean bool := fun _ => True.
#[global] Instance clean_Z : Clean Z := fun _ => True.
#[global] Instance clean_string : Clean string := fun _ => True.
#[global] Instance clean_tokkind : Clean tokkind := fun _ => True.
#[global] Instance clean_token : Clean token := fun _ => True.
#[global] Instance clean_sym : Clean sym := fun _ => True.
Abbreviation tidy m := (gives m clean).

Lemma gives_bind {A B} (m : par A) (f : A -> par B) Q R : gives m Q -> (forall a, Q a -> gives (f a) R) -> gives (sbind m f) R.
Proof.
  intros Hm Hf p b p' Hp E. apply sbind_inv in E as (a & p1 & E1 & E2). destruct (Hm p a p1 Hp E1) as [Hp1 Ha]. by apply (Hf a Ha p1).
Qed.
Lemma gives_impl {A} (m : par A) (Q R : A -> Prop) : gives m Q -> (forall a, Q a -> R a) -> gives m R.
Proof. intros Hm Hi p a p' Hp E. destruct (Hm p a p' Hp E). auto. Qed.
Lemma gives_ret {A} (a : A) (Q : A -> Prop) : Q a -> gives (sret a) Q.
Proof. by intros HQ p b p' Hp [= <- <-]. Qed.
Lemma gives_die {A} d (Q : A -> Prop) : gives (die d) Q.
Proof. by intros p a p' _ E. Qed.
Lemma gives_fault {A} (Q : A -> Prop) : gives sfault Q.
Proof. by intros p a p' _ E. Qed.
Lemma gives_diverge {A} (Q : A -> Prop) : gives sdiverge Q.
Proof. by intros p a p' _ E. Qed.
Lemma gives_when b d : gives (when b d) (fun _ => b = false).
Proof. by intros p a p' Hp [-> ->]%when_inv. Qed.
Lemma gives_outcome {A} (o : outcome A) : gives (of_outcome o) (fun _ => True).
Proof. by intros p a p' Hp [_ ->]%of_outcome_inv. Qed.
Lemma gives_get : tidy sget.
Proof. by intros p a p' Hp [= <- <-]. Qed.
Lemma gives_mod f (Q : () -> Prop) : (forall p, pinv p -> pinv (f p)) -> Q () -> gives (smod f) Q.
Proof. intros Hf HQ p [] p' Hp [= <-]. auto. Qed.

Lemma gives_tok : tidy tok.
Proof. by intros p a p' Hp [= <- <-]. Qed.
Lemma gives_kind : tidy kind.
Proof. eapply gives_bind; [apply gives_tok|]. intros t _. by apply gives_ret. Qed.
Lemma gives_next : tidy next.
Proof. intros p a p' Hp E. unfold next in E. destruct (lex_next (lx p)) as [[d|l]| |]; try done. by injection E as <- <-. Qed.
Lemma gives_peek : tidy peek.
Proof. intros p a p' Hp E. unfold peek in E. destruct (lex_peek (lx p)) as [[d|[t l]]| |]; try done. by injection E as <- <-. Qed.
Create HintDb gives.
#[local] Hint Resolve gives_when gives_outcome gives_get gives_tok gives_kind gives_next gives_peek : gives.
#[local] Hint Resolve gives_die gives_fault gives_diverge : gives.

(** [ggo] takes the steps that have a rule, and [tidied] says that what is put
    together from clean parts is clean. *)
Ltac tidied :=
  repeat match goal with H : clean (_, _) |- _ => destruct H as [? ?]; cbn [fst snd] in * | H : clean (_ :: _) |- _ => apply Forall_cons in H as [? ?] end;
  lazymatch goal with
  | |- True => exact I
  | |- clean (_, _) => split; cbn [fst snd]; tidied
  | |- clean (?a :: ?l) => apply Forall_cons; split; tidied
  | |- clean [] => by constructor
  | |- clean (Some ?a) => change (clean a); tidied
  | |- clean None => exact I
  | |- @clean expr _ (node _ _) => apply e_all_node; split; [exact I|cbn [parts]; repeat split; tidied]
  | |- @clean expr _ (Ex _ _ _ _) => apply e_all_node; split; [exact I|cbn [parts]; repeat split; tidied]
  | |- Forall (e_all unlen) [] => by constructor
  | |- _ => first [assumption|exact I|done|idtac]
  end.
Ltac gstep go :=
  lazymatch goal with
  | |- gives (sbind _ _) _ =>
      first [eapply gives_bind; [solve [eauto with gives]|]|eapply (gives_bind _ _ clean); [solve [go]|]];
      let a := fresh "x" in let H := fresh "Hx" in intros a H; cbv beta in H
  | |- gives (sret _) _ => apply gives_ret; tidied
  | |- gives (let '(_, _) := ?x in _) _ => destruct x eqn:?
  | |- gives (match ?x with _ => _ end) _ => destruct x eqn:?
  | |- gives _ _ => solve [eauto with gives]
  end.
Ltac ggo := repeat (lazymatch goal with |- gives _ _ => gstep ggo end).
#[local] Hint Extern 3 (clean _) => solve [tidied] : gives.

Lemma gives_expect k : tidy (expect k).
Proof. unfold expect. ggo. Qed.
Lemma gives_accept k : tidy (accept k).
Proof. unfold accept. ggo. Qed.
Lemma gives_expect_ident : tidy expect_ident.
Proof. unfold expect_ident. ggo. Qed.
#[local] Hint Resolve gives_expect gives_accept gives_expect_ident : gives.

(** ** Types and expressions *)
Lemma type_named_clean name l t : Forall laid_out l -> type_named name l = Some t -> clean t.
Proof.
  intros Hl. unfold type_named. destruct (assoc name ints) as [t'|] eqn:E.
  { intros [= ->]. revert E. cbn [assoc ints]. repeat (destruct (String.eqb _ _); [intros [= <-]; cbv; tauto|]). done. }
  destruct (String.eqb _ _); [intros [= <-]; cbv; tauto|]. destruct (String.eqb _ _); [intros [= <-]; cbv; tauto|].
  destruct (cap_by_name _); [intros [= <-]; cbv; tauto|]. unfold find_struct.
  destruct (list_find _ l) as [[i t']|] eqn:Ef; [|done]. intros [= <-]. apply list_find_Some in Ef as (Ef & _).
  rewrite Forall_lookup in Hl. by apply al_ok_laid, (Hl i).
Qed.
Lemma gives_type fuel : tidy (parse_type fuel).
Proof.
  induction fuel as [|fuel IH]; [apply gives_diverge|]. cbn [parse_type]. ggo.
  - cbv. tauto.
  - cbv. tauto.
  - match goal with H : @clean pstate _ _ |- _ => destruct H end. by eapply type_named_clean.
Qed.
#[local] Hint Resolve gives_type : gives.

Section expr.
Context (fuel : nat) (pe : par expr) (Hpe : tidy pe).
#[local] Hint Resolve Hpe : gives.
Lemma gives_args_loop n : tidy (args_loop pe n).
Proof. induction n as [|n IH]; [apply gives_diverge|]. cbn [args_loop]. ggo. Qed.
#[local] Hint Resolve gives_args_loop : gives.
Lemma gives_args : tidy (parse_args fuel pe).
Proof. unfold parse_args. ggo. Qed.
#[local] Hint Resolve gives_args : gives.
Lemma gives_primary : tidy (parse_primary fuel pe).
Proof. unfold parse_primary. ggo. Qed.
#[local] Hint Resolve gives_primary : gives.
Lemma gives_postfix n e : clean e -> tidy (postfix_loop fuel pe n e).
Proof.
  revert e. induction n as [|n IH]; intros e He; [apply gives_diverge|]. cbn [postfix_loop]. ggo.
Qed.
#[local] Hint Resolve gives_postfix : gives.
Lemma gives_casts n e : clean e -> tidy (casts_loop fuel n e).
Proof. revert e. induction n as [|n IH]; intros e He; [apply gives_diverge|]. cbn [casts_loop]. ggo. Qed.
#[local] Hint Resolve gives_casts : gives.
Lemma gives_unary n : tidy (parse_unary fuel pe n).
Proof. induction n as [|n IH]; [apply gives_diverge|]. cbn [parse_unary]. unfold parse_postfix. ggo. Qed.
#[local] Hint Resolve gives_unary : gives.
Lemma gives_binary n min_prec lhs : clean lhs -> tidy (parse_binary fuel pe n min_prec lhs).
Proof. revert min_prec lhs. induction n as [|n IH]; intros mp lhs Hl; [apply gives_diverge|]. cbn [parse_binary]. ggo. Qed.
End expr.
#[local] Hint Resolve gives_binary : gives.
Lemma gives_expr fuel : tidy (parse_expr fuel).
Proof. induction fuel as [|fuel IH]; [apply gives_diverge|]. cbn [parse_expr]. ggo. Qed.
#[local] Hint Resolve gives_expr : gives.
Lemma gives_operand fuel : tidy (parse_operand fuel).
Proof. unfold parse_operand. ggo. Qed.
#[local] Hint Resolve gives_operand : gives.

(** ** Statements *)
Lemma gives_block_loop ps n : tidy ps -> tidy (block_loop ps n).
Proof. intros Hp. induction n as [|n IH]; [apply gives_diverge|]. cbn [block_loop]. ggo. Qed.
#[local] Hint Resolve gives_block_loop : gives.
Lemma gives_block fuel ps : tidy ps -> tidy (parse_block fuel ps).
Proof. intros Hp. unfold parse_block. ggo. by apply s_all_list. Qed.
#[local] Hint Resolve gives_block : gives.
Lemma gives_binds n : tidy (binds_loop n).
Proof. induction n as [|n IH]; [apply gives_diverge|]. cbn [binds_loop]. ggo. Qed.
#[local] Hint Resolve gives_binds : gives.
Lemma gives_arms fuel ps n : tidy ps -> tidy (arms_loop fuel ps n).
Proof. intros Hp. induction n as [|n IH]; [apply gives_diverge|]. cbn [arms_loop]. ggo. Qed.
#[local] Hint Resolve gives_arms : gives.
Lemma gives_stmt fuel : tidy (parse_stmt fuel).
Proof.
  induction fuel as [|fuel IH]; [apply gives_diverge|]. cbn [parse_stmt]. ggo.
  split; [done|by apply s_all_arms].
Qed.
#[local] Hint Resolve gives_stmt : gives.

(** ** Layout *)
Lemma gives_place off t : clean t ->
  gives (place_field off t) (fun r => off <= r.1 /\ (ty_align t | r.1) /\ r.2 = r.1 + ty_size t).
Proof.
  intros Ht. unfold place_field. destruct (_ && _); [|apply gives_fault]. apply gives_ret. cbn [fst snd].
  by destruct (ldiff_up off _ Ht).
Qed.
Lemma gives_round_up n a : al_ok a -> gives (round_up n a) (fun m => n <= m /\ (a | m)).
Proof. intros Ha. unfold round_up. destruct (in_int _); [|apply gives_fault]. apply gives_ret. by apply ldiff_up. Qed.
Abbreviation aligned a := (Forall (fun f : field => al_ok (ty_align (fd_type f)) /\ (ty_align (fd_type f) | a))).
Lemma aligned_8 a fs : aligned a fs -> Forall (fun f => (ty_align (fd_type f) | 8)) fs.
Proof.
  intros H. eapply Forall_impl; [exact H|]. intros f [Ha _]. cbv beta. destruct (al_ok_max _ 8 Ha ltac:(unfold al_ok; auto)) as (_ & Hd & _).
  by replace (Z.max _ 8) with 8 in Hd by (unfold al_ok in Ha; lia).
Qed.
Lemma gives_fields fuel close in_case n off align : al_ok align ->
  gives (fields_loop fuel close in_case n off align)
    (fun r => placed off r.1.1 r.1.2 /\ al_ok r.2 /\ (align | r.2) /\ aligned r.2 r.1.1).
Proof.
  revert off align. induction n as [|n IH]; intros off align Ha; [apply gives_diverge|]. cbn [fields_loop].
  gstep ggo. destruct (is_op _ _).
  { apply gives_ret. cbn. split_and!; [lia|done|done|constructor]. }
  do 4 gstep ggo. rename x2 into t, Hx2 into Ht. destruct (al_ok_max _ _ Ht Ha) as (Hm & Ht1 & Ha1).
  eapply gives_bind; [by apply gives_place|]. intros [at_ off1]. cbn [fst snd]. intros (Hat & Hdiv & ->). gstep ggo. destruct x2.
  - eapply gives_bind; [by apply IH|]. intros [[fs off'] al'] (H1 & H2 & H3 & H4). cbn [fst snd] in *. apply gives_ret. cbn [fst snd placed fd_off fd_type].
    pose proof (Z.divide_trans _ _ _ Ht1 H3). pose proof (Z.divide_trans _ _ _ Ha1 H3).
    split_and!; try done. constructor; [|done]. cbn [fd_type fst snd]. by split.
  - apply gives_ret. cbn [fst snd placed fd_off fd_type]. split_and!; try done. by apply Forall_singleton.
Qed.
Lemma pinv_add_struct t p : laid_out t -> pinv p -> pinv (add_struct t p).
Proof. intros Ht [H1 H2]. split; [done|]. cbn. apply Forall_app. split; [done|by repeat constructor]. Qed.
Lemma gives_struct fuel : tidy (parse_struct fuel).
Proof.
  unfold parse_struct. do 3 gstep ggo. eapply gives_bind; [apply gives_fields; by left|].
  intros [[fs off] al] (H1 & H2 & H3 & H4). cbn [fst snd] in *. gstep ggo. eapply gives_bind; [by apply gives_round_up|]. intros size [Hs Hd].
  apply gives_mod; [|done]. intros p. apply pinv_add_struct. split_and!; [by eapply placed_more|done|done|].
  eapply Forall_impl; [exact H4|]. by intros f [_ ?].
Qed.
Abbreviation case_ok b := (fun v : variant => placed 8 v.2 b /\ Forall (fun f => (ty_align (fd_type f) | 8)) v.2).
Lemma gives_cases fuel n big :
  gives (cases_loop fuel n big) (fun r => big <= r.2 /\ Forall (case_ok r.2) r.1).
Proof.
  revert big. induction n as [|n IH]; intros big; [apply gives_diverge|]. cbn [cases_loop].
  gstep ggo. destruct (is_op _ _). { apply gives_ret. split; [cbn; lia|constructor]. }
  do 2 gstep ggo. eapply (gives_bind _ _ (fun r => placed 8 r.1 r.2 /\ Forall (fun f => (ty_align (fd_type f) | 8)) r.1)).
  { destruct x1; [|apply gives_ret; split; [cbn; lia|constructor]].
    eapply gives_bind; [apply gives_fields; by left|]. intros [[fs off] al] (H1 & H2 & H3 & H4). cbn [fst snd] in *.
    gstep ggo. apply gives_ret. split; [done|by eapply aligned_8]. }
  intros [fs off] [H1 H2]. cbn [fst snd] in *. gstep ggo. destruct x2.
  - eapply gives_bind; [apply IH|]. intros [vs b] [H3 H4]. cbn [fst snd] in *. apply gives_ret. cbn [fst snd].
    split; [lia|]. constructor; [|done]. cbn. split; [|done]. eapply placed_more; [done|lia].
  - apply gives_ret. cbn [fst snd]. split; [lia|]. apply Forall_singleton. cbn. split; [|done]. eapply placed_more; [done|lia].
Qed.
Lemma gives_enum fuel : tidy (parse_enum fuel).
Proof.
  unfold parse_enum. do 3 gstep ggo. eapply gives_bind; [apply gives_cases|].
  intros [vs big] [H1 H2]. cbn [fst snd] in *. do 2 gstep ggo. eapply gives_bind; [apply gives_round_up; unfold al_ok; auto|]. intros size [Hs Hd].
  apply gives_mod; [|done]. intros p. apply pinv_add_struct. split_and!; [by destruct vs|lia|done|].
  eapply Forall_impl; [exact H2|]. intros v [? ?]. split; [by eapply placed_more|done].
Qed.
#[local] Hint Resolve gives_struct gives_enum : gives.

(** ** Functions, files *)
Lemma gives_params fuel n : tidy (params_loop fuel n).
Proof. induction n as [|n IH]; [apply gives_diverge|]. cbn [params_loop]. ggo. Qed.
Lemma gives_clauses fuel n : tidy (clauses_loop fuel n).
Proof. induction n as [|n IH]; [apply gives_diverge|]. cbn [clauses_loop]. ggo. Qed.
#[local] Hint Resolve gives_params gives_clauses : gives.
Lemma gives_contracts fuel n : tidy (contracts_loop fuel n).
Proof.
  induction n as [|n IH]; [apply gives_diverge|]. cbn [contracts_loop]. ggo; tidied; by apply Forall_app_2.
Qed.
#[local] Hint Resolve gives_contracts : gives.
Lemma pinv_add_fn f p : raw_f f -> pinv p -> pinv (add_fn f p).
Proof. intros Hf [H1 H2]. split; [|done]. cbn. apply Forall_app. split; [done|by apply Forall_singleton]. Qed.
Lemma gives_fn fuel is_entry : tidy (parse_fn fuel is_entry).
Proof.
  unfold parse_fn. do 6 gstep ggo. gstep ggo.
  eapply (gives_bind _ _ clean); [ggo; cbv; auto|]. intros [rn ret] _.
  gstep ggo. destruct x6 as [req en], Hx6 as [Hreq Hen]. do 2 gstep ggo.
  eapply gives_bind; [apply (gives_mod _ clean); [|done]; intros p; apply pinv_add_fn; by split_and!|].
  intros _ _. destruct is_entry; [|by apply gives_ret]. gstep ggo. by apply gives_mod.
Qed.
#[local] Hint Resolve gives_fn : gives.

Section files.
Context (files : list Z -> option (list Z)).
Lemma gives_path decls what : tidy decls -> tidy (parse_path files decls what).
Proof.
  intros Hd. unfold parse_path. gstep ggo. destruct (existsb _ _); [by apply gives_ret|]. destruct (files _) as [t|]; [|apply gives_die].
  eapply gives_bind; [by apply (gives_mod _ clean)|]. intros _ _. gstep ggo. destruct x0 as [d|l]; [apply gives_die|].
  eapply gives_bind; [by apply (gives_mod _ clean)|]. intros _ _. gstep ggo. by apply gives_mod.
Qed.
#[local] Hint Resolve gives_path : gives.
Lemma gives_decls fuel : tidy (parse_decls files fuel).
Proof.
  induction fuel as [|fuel IH]; [apply gives_diverge|]. cbn [parse_decls]. gstep ggo.
  assert (forall y, tidy (smod (add_global y))) as Hg by (intros; by apply gives_mod).
  destruct (t_kind x) eqn:Ek; ggo.
Qed.

(** A command line's files. *)
Lemma parse_all_clean fuel paths fs gs ss en u :
  Forall raw_f fs -> Forall laid_out ss -> parse_all files fuel paths fs gs ss en = Ret (inr u) ->
  Forall raw_f (u_fns u) /\ Forall laid_out (u_structs u).
Proof.
  revert fs gs ss en. induction paths as [|path paths IH]; intros fs gs ss en Hf Hs E; cbn [parse_all] in E; [by injection E as <-|].
  destruct (parse_into _ _ _ _ _ _ _) as [[d|[[[fs' gs'] ss'] en']]| |] eqn:Ei; try done. cbn [obind] in E. unfold parse_into in Ei.
  destruct (files path) as [t|]; [|done]. destruct (lex_init t) as [[d|l]| |]; try done. cbn [obind] in Ei.
  destruct (parse_decls files fuel _) as [[d|[x p]]| |] eqn:Ed; try done. injection Ei as <- <- <- <-.
  destruct (gives_decls fuel (Ps l fs gs ss en path t [path]) x p ltac:(by split) Ed) as [[H1 H2] _]. by apply (IH _ _ _ _ H1 H2 E).
Qed.
End files.
