(* ===== verification/SavArm.v ===== *)
(** * The instructions savc writes

    [sav/src/arm.c]: each function gives the 32 bits of one instruction. *)
From S2P Require Import Prelude.
Open Scope Z_scope.

Definition X0 : Z := 0.
Definition X1 : Z := 1.
Definition X2 : Z := 2.
Definition X3 : Z := 3.
Definition X4 : Z := 4.
Definition X5 : Z := 5.
Definition X6 : Z := 6.
Definition X7 : Z := 7.
Definition X8 : Z := 8.
Definition X9 : Z := 9.
Definition X10 : Z := 10.
Definition X11 : Z := 11.
Definition X16 : Z := 16.
Definition X17 : Z := 17.
Definition X29 : Z := 29.
Definition X30 : Z := 30.
Definition XZR : Z := 31.
Definition SP : Z := 31.
Definition CC_EQ : Z := 0.
Definition CC_NE : Z := 1.
Definition CC_HS : Z := 2.
Definition CC_LO : Z := 3.
Definition CC_HI : Z := 8.
Definition CC_LS : Z := 9.
Definition CC_GE : Z := 10.
Definition CC_LT : Z := 11.
Definition CC_GT : Z := 12.
Definition CC_LE : Z := 13.

(** [a | b | ...] and a field of the word. *)
Definition ors (l : list Z) : Z := fold_left Z.lor l 0.
Definition fl (v mask at_ : Z) : Z := Z.shiftl (Z.land v mask) at_.
Definition r (x : Z) : Z := Z.land x 31.
Definition at16 (x : Z) : Z := Z.shiftl (r x) 16.
Definition at5 (x : Z) : Z := Z.shiftl (r x) 5.

Definition a_movz (rd imm16 hw : Z) : Z := ors [0xD2800000; u32 (Z.shiftl hw 21); fl imm16 0xFFFF 5; r rd].
Definition a_movk (rd imm16 hw : Z) : Z := ors [0xF2800000; u32 (Z.shiftl hw 21); fl imm16 0xFFFF 5; r rd].
Definition a_movn (rd imm16 hw : Z) : Z := ors [0x92800000; u32 (Z.shiftl hw 21); fl imm16 0xFFFF 5; r rd].
Definition a_mov (rd rm : Z) : Z := ors [0xAA0003E0; at16 rm; r rd].
Definition a_mov_sp (rd rn : Z) : Z := ors [0x91000000; at5 rn; r rd].
Definition a_add_imm (rd rn imm12 : Z) (sh : bool) : Z :=
  ors [0x91000000; Z.shiftl (if sh then 1 else 0) 22; fl imm12 0xFFF 10; at5 rn; r rd].
Definition a_sub_imm (rd rn imm12 : Z) (sh : bool) : Z :=
  ors [0xD1000000; Z.shiftl (if sh then 1 else 0) 22; fl imm12 0xFFF 10; at5 rn; r rd].
Definition a_add (rd rn rm : Z) : Z := ors [0x8B000000; at16 rm; at5 rn; r rd].
Definition a_sub (rd rn rm : Z) : Z := ors [0xCB000000; at16 rm; at5 rn; r rd].
Definition a_subs (rd rn rm : Z) : Z := ors [0xEB000000; at16 rm; at5 rn; r rd].
Definition a_and (rd rn rm : Z) : Z := ors [0x8A000000; at16 rm; at5 rn; r rd].
Definition a_orr (rd rn rm : Z) : Z := ors [0xAA000000; at16 rm; at5 rn; r rd].
Definition a_eor (rd rn rm : Z) : Z := ors [0xCA000000; at16 rm; at5 rn; r rd].
Definition a_mul (rd rn rm : Z) : Z := ors [0x9B007C00; at16 rm; at5 rn; r rd].
Definition a_sdiv (rd rn rm : Z) : Z := ors [0x9AC00C00; at16 rm; at5 rn; r rd].
Definition a_udiv (rd rn rm : Z) : Z := ors [0x9AC00800; at16 rm; at5 rn; r rd].
Definition a_msub (rd rn rm ra : Z) : Z := ors [0x9B008000; at16 rm; Z.shiftl (r ra) 10; at5 rn; r rd].
Definition a_lslv (rd rn rm : Z) : Z := ors [0x9AC02000; at16 rm; at5 rn; r rd].
Definition a_lsrv (rd rn rm : Z) : Z := ors [0x9AC02400; at16 rm; at5 rn; r rd].
Definition a_asrv (rd rn rm : Z) : Z := ors [0x9AC02800; at16 rm; at5 rn; r rd].
Definition a_mvn (rd rm : Z) : Z := ors [0xAA2003E0; at16 rm; r rd].
Definition a_neg (rd rm : Z) : Z := ors [0xCB0003E0; at16 rm; r rd].
Definition a_cset (rd cond : Z) : Z := ors [0x9A9F07E0; Z.shiftl (Z.lxor cond 1) 12; r rd].
Definition a_b (off26 : Z) : Z := ors [0x14000000; Z.land off26 0x03FFFFFF].
Definition a_bl (off26 : Z) : Z := ors [0x94000000; Z.land off26 0x03FFFFFF].
Definition a_bcond (cond off19 : Z) : Z := ors [0x54000000; fl off19 0x7FFFF 5; Z.land cond 15].
Definition a_cbz (rt off19 : Z) : Z := ors [0xB4000000; fl off19 0x7FFFF 5; r rt].
Definition a_cbnz (rt off19 : Z) : Z := ors [0xB5000000; fl off19 0x7FFFF 5; r rt].
Definition a_ret : Z := 0xD65F03C0.
Definition a_svc0 : Z := 0xD4000001.
Definition a_adrp (rd imm21 : Z) : Z :=
  let lo := Z.land imm21 3 in let hi := Z.land (Z.shiftr (u32 imm21) 2) 0x7FFFF in
  ors [0x90000000; Z.shiftl lo 29; Z.shiftl hi 5; r rd].

Definition size_bits (size : Z) : Z := if size =? 1 then 0 else if size =? 2 then 1 else if size =? 4 then 2 else 3.
(** Whether the scaled form reaches it. *)
Definition scaled (off size : Z) : bool := (0 <=? off) && (Z.rem off size =? 0) && (off / size <? 4096).
Definition a_str_off (rt rn off size : Z) : Z :=
  let sz := size_bits size in
  if scaled off size then ors [Z.shiftl sz 30; 0x39000000; Z.shiftl (off / size) 10; at5 rn; r rt]
  else ors [Z.shiftl sz 30; 0x38000000; fl off 0x1FF 12; at5 rn; r rt].
Definition a_ldr_off (rt rn off size : Z) (is_signed : bool) : Z :=
  let sz := size_bits size in
  let opc := if is_signed && (size <? 8) then 2 else 1 in
  if scaled off size then ors [Z.shiftl sz 30; 0x39000000; Z.shiftl opc 22; Z.shiftl (off / size) 10; at5 rn; r rt]
  else ors [Z.shiftl sz 30; 0x38000000; Z.shiftl opc 22; fl off 0x1FF 12; at5 rn; r rt].

Definition a_stp_pre (rt rt2 rn off : Z) : Z :=
  ors [0xA9800000; fl (Z.quot off 8) 0x7F 15; Z.shiftl (r rt2) 10; at5 rn; r rt].
Definition a_ldp_post (rt rt2 rn off : Z) : Z :=
  ors [0xA8C00000; fl (Z.quot off 8) 0x7F 15; Z.shiftl (r rt2) 10; at5 rn; r rt].

Definition a_sxt (rd rn bits : Z) : Z :=
  ors [0x93400000; Z.shiftl (if bits =? 8 then 7 else if bits =? 16 then 15 else 31) 10; at5 rn; r rd].
Definition a_uxt (rd rn bits : Z) : Z :=
  if bits =? 32 then ors [0x2A0003E0; at16 rn; r rd]
  else ors [0xD3400000; Z.shiftl (if bits =? 8 then 7 else 15) 10; at5 rn; r rd].
