(* ===== verification/SavGen.v ===== *)
(** * The sav compiler's code generator

    [sav/src/gen.c]: a checked unit into machine code.  The code is kept as
    words, the latest first while it grows; a run of instructions with no label
    in it is a list.  The labels of the pieces the compiler writes itself are
    the first six, those of the functions the next, as [gen_unit] takes them.
    [fuel] bounds the depth of the tree. *)
From stdpp Require Import strings.
From S2P Require Import Prelude Bytes SavTypes SavArm Elf.
Import Elf.Write.
Open Scope Z_scope.

Definition TEXT_VA : Z := 0x400100.
Definition DATA_VA : Z := 0x500000.
Inductive section_ := SEC_RODATA | SEC_BSS.
(** [FX_B26], the same for a call, the three uses of [FX_B19], and the two
    halves of an address. *)
Inductive fixkind := FX_B26 | FX_BL26 | FX_B19 | FX_CBZ | FX_CBNZ | FX_ADRP (s : section_) (off : Z) | FX_ADD12 (s : section_) (off : Z).
Record fixup := Fix_ { fx_at : Z; fx_kind : fixkind; fx_label : nat }.
Inductive gdiag := NoAddress | CannotGenerate | UnplacedLabel.

(** [G]: the words of code and the bytes of read-only data, the latest first;
    [lab]: where each label is, [-1] until it is placed. *)
Record gst := G {
  code : list Z; rodata : list Z; fixes : list fixup; lab : list Z;
  brk_lab : nat; cont_lab : nat; need_argget : bool; need_cstr : bool; need_range : bool
}.
Definition set_code v g := G v (rodata g) (fixes g) (lab g) (brk_lab g) (cont_lab g) (need_argget g) (need_cstr g) (need_range g).
Definition set_rodata v g := G (code g) v (fixes g) (lab g) (brk_lab g) (cont_lab g) (need_argget g) (need_cstr g) (need_range g).
Definition set_fixes v g := G (code g) (rodata g) v (lab g) (brk_lab g) (cont_lab g) (need_argget g) (need_cstr g) (need_range g).
Definition set_lab v g := G (code g) (rodata g) (fixes g) v (brk_lab g) (cont_lab g) (need_argget g) (need_cstr g) (need_range g).
Definition set_loop b c g := G (code g) (rodata g) (fixes g) (lab g) b c (need_argget g) (need_cstr g) (need_range g).
Definition want_argget g := G (code g) (rodata g) (fixes g) (lab g) (brk_lab g) (cont_lab g) true (need_cstr g) (need_range g).
Definition want_cstr g := G (code g) (rodata g) (fixes g) (lab g) (brk_lab g) (cont_lab g) (need_argget g) true (need_range g).
Definition want_range g := G (code g) (rodata g) (fixes g) (lab g) (brk_lab g) (cont_lab g) (need_argget g) (need_cstr g) true.
Abbreviation gen := (stm gst gdiag).

(** [g->code.n]. *)
Definition code_n (g : gst) : Z := 4 * zlen (code g).
Definition emit (w : Z) : gen () := smod (fun g => set_code (w :: code g) g).
Definition emits (l : list Z) : gen () := smod (fun g => set_code (rev l ++ code g) g).
Definition newlab : gen nat := fun g => Ret (inr (length (lab g), set_lab (lab g ++ [-1]) g)).
Definition place (l : nat) : gen () := smod (fun g => set_lab (<[l := code_n g]> (lab g)) g).
Definition fix_here (k : fixkind) (l : nat) : gen () := smod (fun g => set_fixes (Fix_ (code_n g) k l :: fixes g) g).
Definition emit_branch (l : nat) : gen () := do! _ := fix_here FX_B26 l in emit (a_b 0).
Definition emit_call (l : nat) : gen () := do! _ := fix_here FX_BL26 l in emit (a_bl 0).
Definition emit_bcond (cc : Z) (l : nat) : gen () := do! _ := fix_here FX_B19 l in emit (a_bcond cc 0).
Definition emit_cbz (rt : Z) (l : nat) : gen () := do! _ := fix_here FX_CBZ l in emit (a_cbz rt 0).
Definition emit_addr (rd : Z) (s : section_) (off : Z) : gen () :=
  do! _ := fix_here (FX_ADRP s off) 0 in do! _ := emit (a_adrp rd 0) in
  do! _ := fix_here (FX_ADD12 s off) 0 in emit (a_add_imm rd rd 0 false).

(** [emit_imm]. *)
Definition half (v hw : Z) : Z := Z.land (Z.shiftr v (16 * hw)) 0xFFFF.
Fixpoint movk_loop (rd v : Z) (hws : list Z) (first : bool) : list Z :=
  match hws with
  | [] => []
  | hw :: hws =>
      let part := half v hw in
      if part =? 0 then movk_loop rd v hws first
      else (if first then a_movz rd part hw else a_movk rd part hw) :: movk_loop rd v hws false
  end.
(** [v]: the 64 bits. *)
Definition imm_words (rd v : Z) : list Z :=
  if v =? 0 then [a_movz rd 0 0] else
  let sv := swrap 64 v in
  if (sv <? 0) && (-65536 <=? sv) then [a_movn rd (Z.land (Z.lnot v) 0xFFFF) 0] else
  movk_loop rd v [0; 1; 2; 3] true.
Definition emit_imm (rd v : Z) : gen () := emits (imm_words rd (u64 v)).

Definition sub_sp (amount : Z) : list Z :=
  (if 4096 <=? amount then [a_sub_imm SP SP (Z.shiftr amount 12) true] else [])
  ++ (if Z.land amount 0xFFF =? 0 then [] else [a_sub_imm SP SP (Z.land amount 0xFFF) false]).
Definition local_addr (rd off : Z) : list Z :=
  if off <? 4096 then [a_sub_imm rd X29 (u32 off) false] else imm_words rd (u64 off) ++ [a_sub rd X29 rd].

(** ** Loading and storing values *)
Definition type_load_size (t : ty) : Z := match t with TyBool => 1 | TyInt bits _ => bits / 8 | _ => 8 end.
Definition load_value (rbase off : Z) (t : ty) : list Z :=
  if is_aggregate t then
    if off =? 0 then [a_mov X0 rbase] else imm_words X17 (u64 off) ++ [a_add X0 rbase X17]
  else match t with
  | TySlice _ => [a_ldr_off X1 rbase (off + 8) 8 false; a_ldr_off X0 rbase off 8 false]
  | _ => [a_ldr_off X0 rbase off (type_load_size t) (match t with TyInt _ s => s | _ => false end)]
  end.

(** The copy of an aggregate: by eights from [i], then by ones. *)
Fixpoint copy_words (n : nat) (i size off step : Z) : list Z :=
  match n with
  | O => []
  | S n => if i + step <=? size then a_ldr_off X17 X0 i step false :: a_str_off X17 X16 (off + i) step :: copy_words n (i + step) size off step
           else []
  end.
Definition copy_aggregate (off size : Z) : list Z :=
  let eights := Z.max 0 (size / 8) in
  copy_words (Z.to_nat eights) 0 size off 8 ++ copy_words (Z.to_nat (size - 8 * eights)) (8 * eights) size off 1.
Definition store_value (rbase off : Z) (t : ty) : list Z :=
  match t with
  | TySlice _ => [a_str_off X0 rbase off 8; a_str_off X1 rbase (off + 8) 8]
  | _ => if is_aggregate t then a_mov X16 rbase :: copy_aggregate off (ty_size t)
         else [a_str_off X0 rbase off (type_load_size t)]
  end.

Definition push_pair : Z := a_stp_pre X0 X1 SP (-16).
Definition pop_pair (r1 r2 : Z) : Z := a_ldp_post r1 r2 SP 16.
Definition frame_load (off : Z) (t : ty) : list Z :=
  if off <=? 240 then load_value X29 (- off) t else local_addr X16 off ++ load_value X16 0 t.
Definition frame_store (off : Z) (t : ty) : list Z :=
  if off <=? 240 then store_value X29 (- off) t
  else [push_pair] ++ local_addr X9 off ++ [pop_pair X0 X1] ++ store_value X9 0 t.
Definition frame_store_field (slot_off field_off : Z) (t : ty) : list Z :=
  [push_pair] ++ local_addr X9 slot_off
  ++ (if field_off =? 0 then [] else imm_words X17 (u64 field_off) ++ [a_add X9 X9 X17])
  ++ [pop_pair X0 X1] ++ store_value X9 0 t.

(** ** Read-only data *)
Definition align_zeros (n a : Z) : list Z := zeros ((- n) mod a).
(** The offset of the bytes [l], a NUL put after them. *)
Definition add_rodata (l : list Z) : gen Z := fun g =>
  let ro := align_zeros (zlen (rodata g)) 8 ++ rodata g in
  Ret (inr (zlen ro, set_rodata (0 :: rev l ++ ro) g)).

(** [%d]. *)
Fixpoint dec_digits (n : nat) (v : Z) (acc : list Z) : list Z :=
  match n with
  | O => acc
  | S n => let acc := (48 + v mod 10) :: acc in if v / 10 =? 0 then acc else dec_digits n (v / 10) acc
  end.
Definition dec (v : Z) : list Z := if v <? 0 then 45 :: dec_digits 11 (- v) [] else dec_digits 11 v [].
(** A message built in a buffer of [size] bytes and copied by the length the
    whole of it would have: past the buffer when it did not fit. *)
Definition message (size : Z) (l : list Z) : outcome (list Z) :=
  if zlen l <? size then Ret l else if zlen l =? size then Ret (take (Z.to_nat (size - 1)) l ++ [0]) else Fault.

(** ** The pieces' labels *)
Definition LBL_FAIL : nat := 0.
Definition LBL_ARGGET : nat := 1.
Definition LBL_CSTR : nat := 2.
Definition LBL_NUM : nat := 3.
Definition LBL_WRITE2 : nat := 4.
Definition LBL_RANGE : nat := 5.
Definition fn_label (i : nat) : nat := (6 + i)%nat.

Section gen.
(** The checked functions, where each global is, and [opt_contracts]. *)
Context (fns : list func) (goffs : list Z) (bss_sp : Z) (opt_contracts : bool).

(** ** Range checks *)
(** [file]: [src_name]. *)
Definition gen_range_fail (file : list Z) (line : Z) (what label1 label2 : string) : gen () :=
  do! _ := smod want_range in
  let msg := file ++ str ":" ++ dec line ++ str ": " ++ str what in
  do! m := of_outcome (message 256 msg) in
  do! off := add_rodata m in
  do! l1 := add_rodata (str label1) in
  do! l2 := add_rodata (str label2) in
  do! _ := emit_addr X4 SEC_RODATA l1 in do! _ := emit_imm X5 (zlen (str label1)) in
  do! _ := emit_addr X6 SEC_RODATA l2 in do! _ := emit_imm X7 (zlen (str label2)) in
  do! _ := emit_addr X0 SEC_RODATA off in
  do! _ := emit_imm X1 (zlen msg) in
  emit_call LBL_RANGE.

Definition gen_bounds_check (file : list Z) (line : Z) (what : string) : gen () :=
  do! ok := newlab in
  do! _ := emit (a_subs XZR X2 X1) in
  do! _ := emit_bcond CC_LO ok in
  do! _ := emit (a_mov X3 X1) in
  do! _ := gen_range_fail file line what "index " "length " in
  place ok.

(** x0 op x1 into x0. *)
Definition gen_cmp_set (op : tokkind) (is_signed : bool) : list Z :=
  let cc :=
    match op with
    | T_EQEQ => CC_EQ
    | T_NE => CC_NE
    | T_LT => if is_signed then CC_LT else CC_LO
    | T_LE => if is_signed then CC_LE else CC_LS
    | T_GT => if is_signed then CC_GT else CC_HI
    | _ => if is_signed then CC_GE else CC_HS
    end in
  [a_subs XZR X0 X1; a_cset X0 cc].
Definition scale (esz : Z) (rd : Z) : list Z := if esz =? 1 then [] else imm_words X17 (u64 esz) ++ [a_mul rd rd X17].
(** An operator on x0 and x1, [ta] the type on the left and [t] the result's. *)
Definition binary_words (op : tokkind) (ta t : ty) : list Z :=
  let sg := match ta with TyInt _ s => s | _ => true end in
  let esz := match ta with TyPtr e _ => ty_size e | _ => 1 end in
  match op with
  | T_PLUS => scale esz X1 ++ [a_add X0 X0 X1]
  | T_MINUS => scale esz X1 ++ [a_sub X0 X0 X1]
  | T_STAR => [a_mul X0 X0 X1]
  | T_SLASH => [(if sg : bool then a_sdiv X0 X0 X1 else a_udiv X0 X0 X1)]
  | T_PERCENT => [(if sg : bool then a_sdiv X2 X0 X1 else a_udiv X2 X0 X1); a_msub X0 X2 X1 X0]
  | T_AMP => [a_and X0 X0 X1]
  | T_PIPE => [a_orr X0 X0 X1]
  | T_CARET => [a_eor X0 X0 X1]
  | T_SHL => [a_lslv X0 X0 X1]
  | T_SHR => [(if sg : bool then a_asrv X0 X0 X1 else a_lsrv X0 X0 X1)]
  | _ => gen_cmp_set op sg
  end
  ++ match t with
     | TyInt bits s =>
         if (bits <? 64) && negb (existsb (is_op op) [T_EQEQ; T_NE; T_LT; T_LE; T_GT; T_GE])
         then [(if s : bool then a_sxt X0 X0 bits else a_uxt X0 X0 bits)] else []
     | _ => []
     end.
Definition unary_words (op : tokkind) : list Z :=
  if is_op op T_MINUS then [a_neg X0 X0]
  else if is_op op T_TILDE then [a_mvn X0 X0]
  else imm_words X1 0 ++ [a_subs XZR X0 X1; a_cset X0 CC_EQ].
Definition cast_words (from to : ty) : list Z :=
  match to with
  | TyBool => imm_words X1 0 ++ [a_subs XZR X0 X1; a_cset X0 CC_NE]
  | TyInt bits s =>
      if bits <? 64 then [(if s : bool then a_sxt X0 X0 bits else a_uxt X0 X0 bits)]
      else if bits =? 64 then
        match from with
        | TyInt fb fs => if fb <? 64 then [(if fs : bool then a_sxt X0 X0 fb else a_uxt X0 X0 fb)] else []
        | _ => []
        end
      else []
  | _ => []
  end.

(** The arguments of a call into their registers, the last first. *)
Fixpoint pop_args (ps : list sym) : list Z :=
  match ps with
  | [] => []
  | p :: ps => pop_pair (y_reg p) (match y_type p with TySlice _ => y_reg p + 1 | _ => X17 end) :: pop_args ps
  end.
Fixpoint gen_args (gx : expr -> gen ()) (args : list expr) : gen () :=
  match args with
  | [] => sret ()
  | e :: args => do! _ := gx e in do! _ := emit push_pair in gen_args gx args
  end.
Fixpoint gen_fields (gx : expr -> gen ()) (off : Z) (args : list expr) (fields : list field) : gen () :=
  match args, fields with
  | [], _ => sret ()
  | e :: args, f :: fields =>
      do! _ := gx e in do! _ := emits (frame_store_field off (fd_off f) (fd_type f)) in gen_fields gx off args fields
  | _ :: _, [] => sfault
  end.

(** ** Capability methods

    [args]: the arguments' code; the capability is not evaluated. *)
Definition svc (n : Z) : list Z := imm_words X8 (u64 n) ++ [a_svc0].
Definition arg (gx : expr -> gen ()) (args : list expr) (i : nat) : gen () :=
  match args !! i with Some e => gx e | None => sfault end.
Definition gen_method (gx : expr -> gen ()) (d : cap_def) (m : cap_method) (args : list expr) : gen () :=
  let is_d s := (d_name d =? s)%string in let is_m s := (m_name m =? s)%string in
  if is_d "Console" && (is_m "write" || is_m "error" || is_m "read") then
    do! _ := arg gx args 0 in
    emits ([a_mov X2 X1; a_mov X1 X0] ++ imm_words X0 (if is_m "write" then 1 else if is_m "error" then 2 else 0) ++ svc (m_sysno m))
  else if is_d "Proc" then emits (svc (m_sysno m))
  else if is_d "Args" then
    if is_m "count" then
      do! _ := emit_addr X16 SEC_BSS bss_sp in
      emits [a_ldr_off X16 X16 0 8 false; a_ldr_off X0 X16 0 8 false]
    else
      do! _ := arg gx args 0 in
      do! _ := smod want_argget in emit_call LBL_ARGGET
  else if is_d "Files" && is_m "open" then
    do! _ := arg gx args 0 in do! _ := emit push_pair in
    do! _ := arg gx args 1 in do! _ := emit push_pair in
    do! _ := emits [pop_pair X9 X17; pop_pair X0 X1] in
    do! _ := smod want_cstr in
    do! _ := emit_call LBL_CSTR in
    emits ([a_mov X1 X0] ++ imm_words X0 (u64 (-100)) ++ [a_mov X2 X9] ++ imm_words X3 420 ++ svc (m_sysno m))
  else if is_d "Files" && (is_m "read" || is_m "write") then
    do! _ := arg gx args 0 in do! _ := emit push_pair in
    do! _ := arg gx args 1 in do! _ := emit push_pair in
    emits ([pop_pair X1 X2; pop_pair X0 X17] ++ svc (m_sysno m))
  else if is_d "Files" && is_m "close" then
    do! _ := arg gx args 0 in emits (svc (m_sysno m))
  else die CannotGenerate.

(** ** Addresses and expressions *)
(** Where a global is. *)
Definition goff (y : sym) : Z := nth (y_at y) goffs 0.

Section expr.
(** The recursive calls. *)
Context (file : list Z) (gen_expr gen_addr : expr -> gen ()).

Definition addr_node (e : expr) : gen () :=
  let '(Ex line t _ k) := e in
  match k with
  | E_VAR _ (Some y) =>
      match y_kind y with SYM_GLOBAL => emit_addr X0 SEC_BSS (goff y) | _ => emits (local_addr X0 (y_offset y)) end
  | E_VAR _ None => sfault
  | E_DEREF _ a => gen_expr a
  | E_FIELD a _ f =>
      do! _ := match e_type a with TyPtr _ _ => gen_expr a | _ => gen_addr a end in
      match f with
      | Some f => if fd_off f =? 0 then sret () else emits (imm_words X17 (u64 (fd_off f)) ++ [a_add X0 X0 X17])
      | None => sret ()
      end
  | E_INDEX a b =>
      do! _ := match e_type a with TySlice _ | TyPtr _ _ => gen_expr a | _ => gen_addr a end in
      do! _ := emit push_pair in
      do! _ := gen_expr b in
      do! _ := emits [a_mov X2 X0; pop_pair X0 X1] in
      do! _ := match e_type a with TyArray _ n => emit_imm X1 n | _ => sret () end in
      do! _ := gen_bounds_check file line "index out of range" in
      match e_type a with
      | TySlice e | TyPtr e _ | TyArray e _ => emits (scale (ty_size e) X2 ++ [a_add X0 X0 X2])
      | _ => sfault
      end
  | _ => die NoAddress
  end.

Definition binary_node (op : tokkind) (a b : expr) (t : ty) : gen () :=
  if is_op op T_ANDAND || is_op op T_OROR then
    do! done := newlab in
    do! _ := gen_expr a in
    do! _ :=
      if is_op op T_ANDAND then emit_cbz X0 done
      else do! _ := emits (imm_words X1 0 ++ [a_subs XZR X0 X1]) in emit_bcond CC_NE done in
    do! _ := gen_expr b in
    place done
  else
    do! _ := gen_expr a in do! _ := emit push_pair in
    do! _ := gen_expr b in
    emits ([a_mov X2 X0; pop_pair X0 X1; a_mov X1 X2] ++ binary_words op (e_type a) t).

Definition slice_checks (line : Z) : gen () :=
  do! ok1 := newlab in do! ok2 := newlab in
  do! _ := emit (a_subs XZR X10 X9) in
  do! _ := emit_bcond CC_LS ok1 in
  do! _ := emits [a_mov X2 X10; a_mov X3 X9] in
  do! _ := gen_range_fail file line "a slice that starts after it ends" "start " "end " in
  do! _ := place ok1 in
  do! _ := emit (a_subs XZR X9 X1) in
  do! _ := emit_bcond CC_LS ok2 in
  do! _ := emits [a_mov X2 X9; a_mov X3 X1] in
  do! _ := gen_range_fail file line "a slice that runs past the end" "end " "length " in
  place ok2.

Definition expr_node (e : expr) : gen () :=
  let '(Ex line t lv k) := e in
  match k with
  | E_INT v | E_BOOL v => emit_imm X0 v
  | E_STR s =>
      do! off := add_rodata s in
      do! _ := emit_addr X0 SEC_RODATA off in emit_imm X1 (zlen s)
  | E_VAR _ (Some y) =>
      match y_kind y with
      | SYM_GLOBAL => do! _ := emit_addr X16 SEC_BSS (goff y) in emits (load_value X16 0 t)
      | _ => if is_aggregate t then emits (local_addr X0 (y_offset y)) else emits (frame_load (y_offset y) t)
      end
  | E_VAR _ None => sfault
  | E_CALL _ args (Some i) off =>
      match fns !! i with
      | None => sfault
      | Some f =>
          do! _ := gen_args gen_expr args in
          if (8 <? length (f_params f))%nat then sfault else
          do! _ := emits (pop_args (rev (f_params f))) in
          do! _ := if is_aggregate (f_ret f) then emits (local_addr X8 off) else sret () in
          emit_call (fn_label i)
      end
  | E_CALL _ _ None _ => sfault
  | E_METHOD a _ args (Some m) =>
      match e_type a with TyCap id => gen_method gen_expr (cap_of id) m args | _ => sfault end
  | E_METHOD _ _ _ None => sfault
  | E_UNARY op a => do! _ := gen_expr a in emits (unary_words op)
  | E_BINARY op a b => binary_node op a b t
  | E_INDEX _ _ | E_FIELD _ _ _ => do! _ := gen_addr e in emits (load_value X0 0 t)
  | E_LEN a =>
      match e_type a with
      | TyArray _ n => emit_imm X0 n
      | _ => do! _ := gen_expr a in emit (a_mov X0 X1)
      end
  | E_SLICE a b c =>
      do! _ := match e_type a with TyArray _ n => do! _ := gen_addr a in emit_imm X1 n | _ => gen_expr a end in
      do! _ := emit push_pair in
      do! _ := gen_expr b in
      do! _ := emit push_pair in
      do! _ := match c with Some c => gen_expr c | None => emit (a_ldr_off X0 SP 24 8 false) end in
      do! _ := emits [a_mov X9 X0; pop_pair X10 X17; pop_pair X0 X1] in
      do! _ := match e_type a with TyPtr _ _ => sret () | _ => slice_checks line end in
      match e_type a with
      | TySlice e | TyPtr e _ | TyArray e _ =>
          let esz := ty_size e in
          emits ((if esz =? 1 then [a_mov X11 X10] else imm_words X17 (u64 esz) ++ [a_mul X11 X10 X17])
                 ++ [a_add X0 X0 X11; a_sub X1 X9 X10])
      | _ => sfault
      end
  | E_VARIANT _ args (Some (i, v)) off =>
      do! _ := emit_imm X0 (Z.of_nat i) in
      do! _ := emits (frame_store_field off 0 I64) in
      do! _ := gen_fields gen_expr off args v.2 in
      emits (local_addr X0 off)
  | E_VARIANT _ _ None _ => sfault
  | E_ADDR a => gen_addr a
  | E_DEREF _ a => do! _ := gen_expr a in emits (load_value X0 0 t)
  | E_CAST a => do! _ := gen_expr a in emits (cast_words (e_type a) t)
  | E_ASSIGN a b =>
      do! _ := gen_addr a in do! _ := emit push_pair in
      do! _ := gen_expr b in
      emits (pop_pair X16 X17 :: store_value X16 0 (e_type a))
  | E_UPDATE op a b st =>
      do! _ := gen_addr a in do! _ := emit push_pair in
      do! _ := binary_node op a b st in
      emits (pop_pair X16 X17 :: store_value X16 0 (e_type a))
  | E_SIZE => die CannotGenerate
  end.
End expr.

(** [gen_expr] and, at [true], [gen_addr]. *)
Fixpoint gen_node (fuel : nat) (file : list Z) (addr : bool) (e : expr) : gen () :=
  match fuel with O => sdiverge | S fuel =>
    (if addr then addr_node else expr_node) file (gen_node fuel file false) (gen_node fuel file true) e
  end.
Definition gen_expr (fuel : nat) (file : list Z) : expr -> gen () := gen_node fuel file false.
Definition gen_addr (fuel : nat) (file : list Z) : expr -> gen () := gen_node fuel file true.

(** ** Contracts *)
Definition gen_check (fuel : nat) (file : list Z) (cond : expr) (kind : string) (text : list Z) (line : Z) : gen () :=
  if negb opt_contracts then sret () else
  do! ok := newlab in
  do! _ := gen_expr fuel file cond in
  do! _ := fix_here FX_CBNZ ok in
  do! _ := emit (a_cbnz X0 0) in
  let msg := file ++ str ":" ++ dec line ++ str ": " ++ str kind ++ str ": " ++ text ++ [10] in
  do! m := of_outcome (message 512 msg) in
  do! off := add_rodata m in
  do! _ := emit_addr X0 SEC_RODATA off in
  do! _ := emit_imm X1 (zlen msg) in
  do! _ := emit_call LBL_FAIL in
  place ok.
Fixpoint gen_checks (fuel : nat) (file : list Z) (kind : string) (l : list contract) : gen () :=
  match l with
  | [] => sret ()
  | k :: l => do! _ := gen_check fuel file (k_expr k) kind (k_text k) (k_line k) in gen_checks fuel file kind l
  end.
Definition gen_ensures (fuel : nat) (fn : func) : gen () := gen_checks fuel (f_file fn) "promise broken" (f_ens fn).

(** ** Statements *)
Definition epilogue : list Z := [a_mov_sp SP X29; a_ldp_post X29 X30 SP 16; a_ret].
Definition ptr_u8 : ty := TyPtr U8 false.
Definition gen_return (fuel : nat) (fn : func) (e : option expr) : gen () :=
  let gx := gen_expr fuel (f_file fn) in
  match e with
  | Some e =>
      if is_aggregate (f_ret fn) then
        do! _ := gx e in
        emits ([push_pair] ++ frame_load (f_sret fn) ptr_u8 ++ [a_mov X9 X0; pop_pair X0 X1]
               ++ store_value X9 0 (f_ret fn) ++ [a_mov X0 X9] ++ epilogue)
      else
        do! _ := gx e in
        do! _ :=
          match f_ens fn with
          | [] => sret ()
          | _ =>
              do! _ := emits (frame_store (f_result fn) (f_ret fn)) in
              do! _ := gen_ensures fuel fn in
              emits (frame_load (f_result fn) (f_ret fn))
          end in
        emits epilogue
  | None => do! _ := gen_ensures fuel fn in emits epilogue
  end.

Fixpoint new_labels {A} (l : list A) : gen (list nat) :=
  match l with [] => sret [] | _ :: l => do! x := newlab in do! xs := new_labels l in sret (x :: xs) end.
(** The tests of a [match], and where an [else] goes. *)
Fixpoint match_tests (arms : list arm) (labs : list nat) (else_lab : option nat) : gen (option nat) :=
  match arms, labs with
  | Arm _ is_else v _ _ _ :: arms, l :: labs =>
      if is_else then match_tests arms labs (Some l) else
      match v with
      | None => sfault
      | Some (i, _) =>
          do! _ := emits (imm_words X2 (Z.of_nat i) ++ [a_subs XZR X1 X2]) in
          do! _ := emit_bcond CC_EQ l in
          match_tests arms labs else_lab
      end
  | _, _ => sret else_lab
  end.
Fixpoint bind_words (subject_off : Z) (fields : list field) (syms : list sym) : list Z :=
  match syms, fields with
  | y :: syms, f :: fields =>
      frame_load subject_off ptr_u8 ++ load_value X0 (fd_off f) (fd_type f) ++ frame_store (y_offset y) (fd_type f)
      ++ bind_words subject_off fields syms
  | _, _ => []
  end.
Fixpoint gen_arms (gs : stmt -> gen ()) (subject_off : Z) (arms : list arm) (labs : list nat) (end_lab : nat) : gen () :=
  match arms, labs with
  | Arm _ is_else v _ syms body :: arms, l :: labs =>
      do! _ := place l in
      do! _ :=
        if is_else : bool then sret ()
        else match v with Some (_, v) => emits (bind_words subject_off v.2 syms) | None => sfault end in
      do! _ := gs body in
      do! _ := emit_branch end_lab in
      gen_arms gs subject_off arms labs end_lab
  | _, _ => sret ()
  end.
Fixpoint gen_list (gs : stmt -> gen ()) (l : list stmt) : gen () :=
  match l with [] => sret () | s :: l => do! _ := gs s in gen_list gs l end.
(** A loop's body with its own labels. *)
Definition in_loop (brk cont : nat) (m : gen ()) : gen () :=
  do! g := sget in
  do! _ := smod (set_loop brk cont) in
  do! _ := m in
  smod (set_loop (brk_lab g) (cont_lab g)).

Fixpoint gen_stmt (fuel : nat) (fn : func) (s : stmt) : gen () :=
  match fuel with O => sdiverge | S fuel =>
  let gx := gen_expr fuel (f_file fn) in
  let gs := gen_stmt fuel fn in
  match s with
  | S_BLOCK l => gen_list gs l
  | S_LET _ (Some t) (Some e) (Some y) _ =>
      do! _ := gx e in
      if is_aggregate t then emits ([push_pair] ++ local_addr X9 (y_offset y) ++ [pop_pair X0 X1] ++ store_value X9 0 t)
      else emits (frame_store (y_offset y) t)
  | S_LET _ _ None _ _ => sret ()
  | S_LET _ _ (Some _) _ _ => sfault
  | S_EXPR e => gx e
  | S_IF c a b =>
      do! els := newlab in do! done := newlab in
      do! _ := gx c in
      do! _ := emit_cbz X0 els in
      do! _ := gs a in
      do! _ := match b with Some _ => emit_branch done | None => sret () end in
      do! _ := place els in
      do! _ := match b with Some b => gs b | None => sret () end in
      place done
  | S_WHILE c body =>
      do! top := newlab in do! out := newlab in
      in_loop out top (
        do! _ := place top in
        do! _ := gx c in
        do! _ := emit_cbz X0 out in
        do! _ := gs body in
        do! _ := emit_branch top in
        place out)
  | S_FOR _ lo hi (Some y) body =>
      do! top := newlab in do! out := newlab in do! cont := newlab in
      in_loop out cont (
        do! _ := gx lo in
        do! _ := emits (frame_store (y_offset y) (y_type y)) in
        do! _ := place top in
        do! _ := gx hi in
        do! _ := emits ([push_pair] ++ frame_load (y_offset y) (y_type y) ++ [pop_pair X1 X17; a_subs XZR X0 X1]) in
        do! _ := emit_bcond CC_GE out in
        do! _ := gs body in
        do! _ := place cont in
        do! _ := emits (frame_load (y_offset y) (y_type y) ++ [a_add_imm X0 X0 1 false] ++ frame_store (y_offset y) (y_type y)) in
        do! _ := emit_branch top in
        place out)
  | S_FOR _ _ _ None _ => sfault
  | S_MATCH e arms off =>
      do! _ := gx e in
      do! _ := emits (frame_store_field off 0 ptr_u8) in
      do! end_lab := newlab in
      do! labs := new_labels arms in
      do! _ := emits (frame_load off ptr_u8 ++ [a_ldr_off X1 X0 0 8 false]) in
      do! else_lab := match_tests arms labs None in
      do! _ := emit_branch (default end_lab else_lab) in
      do! _ := gen_arms gs off arms labs end_lab in
      place end_lab
  | S_RETURN e => gen_return fuel fn e
  | S_BREAK => do! g := sget in emit_branch (brk_lab g)
  | S_CONTINUE => do! g := sget in emit_branch (cont_lab g)
  | S_ASSERT c text line => gen_check fuel (f_file fn) c "check failed" text line
  end end.

(** ** A function *)
Fixpoint save_params (ps : list sym) : list Z :=
  match ps with
  | [] => []
  | p :: ps =>
      match y_type p with
      | TySlice _ => [a_mov X0 (y_reg p); a_mov X1 (y_reg p + 1)]
      | _ => [a_mov X0 (y_reg p)]
      end ++ frame_store (y_offset p) (y_type p) ++ save_params ps
  end.
Definition gen_fn (fuel : nat) (fn : func) (label : nat) : gen () :=
  do! _ := place label in
  do! _ := emits ([a_stp_pre X29 X30 SP (-16); a_mov_sp X29 SP]
    ++ (if f_frame fn =? 0 then [] else sub_sp (f_frame fn))
    ++ (if is_aggregate (f_ret fn) then
          if f_sret fn <=? 240 then [a_str_off X8 X29 (- f_sret fn) 8] else local_addr X16 (f_sret fn) ++ [a_str_off X8 X16 0 8]
        else [])
    ++ save_params (f_params fn)) in
  do! _ := gen_checks fuel (f_file fn) "requirement broken" (f_req fn) in
  do! _ := gen_stmt fuel fn (f_body fn) in
  do! _ := gen_ensures fuel fn in
  emits epilogue.
Fixpoint gen_fns (fuel : nat) (l : list func) (i : nat) : gen () :=
  match l with [] => sret () | f :: l => do! _ := gen_fn fuel f (fn_label i) in gen_fns fuel l (S i) end.
End gen.

(** ** The pieces the compiler writes itself *)
Definition gen_fail : gen () :=
  do! _ := place LBL_FAIL in
  emits ([a_mov X2 X1; a_mov X1 X0] ++ imm_words X0 2 ++ svc 64 ++ imm_words X0 70 ++ svc 93 ++ [a_b 0]).

Definition gen_argget (bss_sp : Z) : gen () :=
  do! _ := place LBL_ARGGET in
  do! none := newlab in do! done := newlab in do! loop := newlab in
  do! _ := emit_addr X16 SEC_BSS bss_sp in
  do! _ := emits ([a_ldr_off X16 X16 0 8 false; a_ldr_off X9 X16 0 8 false] ++ imm_words X10 0 ++ [a_subs XZR X0 X10]) in
  do! _ := emit_bcond CC_LT none in
  do! _ := emit (a_subs XZR X0 X9) in
  do! _ := emit_bcond CC_GE none in
  do! _ := emits (imm_words X17 8 ++ [a_mul X0 X0 X17; a_add X16 X16 X17; a_add X16 X16 X0; a_ldr_off X0 X16 0 8 false] ++ imm_words X1 0) in
  do! _ := place loop in
  do! _ := emits [a_add X9 X0 X1; a_ldr_off X10 X9 0 1 false] in
  do! _ := emit_cbz X10 done in
  do! _ := emit (a_add_imm X1 X1 1 false) in
  do! _ := emit_branch loop in
  do! _ := place none in
  do! _ := emits (imm_words X0 0 ++ imm_words X1 0) in
  do! _ := place done in
  emit a_ret.

Definition gen_cstr (bss_cstr : Z) : gen () :=
  do! _ := place LBL_CSTR in
  do! loop := newlab in do! done := newlab in
  do! _ := emit_addr X16 SEC_BSS bss_cstr in
  do! _ := emits (imm_words X2 0 ++ imm_words X3 255) in
  do! _ := place loop in
  do! _ := emit (a_subs XZR X2 X1) in
  do! _ := emit_bcond CC_GE done in
  do! _ := emit (a_subs XZR X2 X3) in
  do! _ := emit_bcond CC_GE done in
  do! _ := emits [a_add X4 X0 X2; a_ldr_off X5 X4 0 1 false; a_add X4 X16 X2; a_str_off X5 X4 0 1; a_add_imm X2 X2 1 false] in
  do! _ := emit_branch loop in
  do! _ := place done in
  emits ([a_add X4 X16 X2] ++ imm_words X5 0 ++ [a_str_off X5 X4 0 1; a_mov X0 X16; a_ret]).

Definition gen_write2 : gen () :=
  do! _ := place LBL_WRITE2 in
  emits ([a_mov X2 X1; a_mov X1 X0] ++ imm_words X0 2 ++ svc 64 ++ [a_ret]).

Definition gen_num (bss_numbuf : Z) : gen () :=
  do! _ := place LBL_NUM in
  do! loop := newlab in do! after := newlab in do! zero := newlab in do! nosign := newlab in
  do! _ := emit_addr X16 SEC_BSS bss_numbuf in
  do! _ := emits (imm_words X2 32 ++ imm_words X3 0 ++ [a_mov X4 X0] ++ imm_words X5 0 ++ [a_subs XZR X4 X5]) in
  do! _ := emit_bcond CC_GE nosign in
  do! _ := emits (a_neg X4 X4 :: imm_words X3 1) in
  do! _ := place nosign in
  do! _ := emit_cbz X4 zero in
  do! _ := emits (imm_words X6 10) in
  do! _ := place loop in
  do! _ := emit_cbz X4 after in
  do! _ := emits [a_udiv X5 X4 X6; a_msub X7 X5 X6 X4; a_add_imm X7 X7 48 false; a_sub_imm X2 X2 1 false; a_add X17 X16 X2;
                  a_str_off X7 X17 0 1; a_mov X4 X5] in
  do! _ := emit_branch loop in
  do! _ := place zero in
  do! _ := emits ([a_sub_imm X2 X2 1 false; a_add X17 X16 X2] ++ imm_words X7 48 ++ [a_str_off X7 X17 0 1]) in
  do! _ := place after in
  do! done := newlab in
  do! _ := emit_cbz X3 done in
  do! _ := emits ([a_sub_imm X2 X2 1 false; a_add X17 X16 X2] ++ imm_words X7 45 ++ [a_str_off X7 X17 0 1]) in
  do! _ := place done in
  emits ([a_add X0 X16 X2] ++ imm_words X1 32 ++ [a_sub X1 X1 X2; a_ret]).

(** A word saved at [k], in [rd]. *)
Definition saved (bss_save rd1 k1 rd2 k2 : Z) : gen () :=
  do! _ := emit_addr X16 SEC_BSS bss_save in
  emits [a_ldr_off rd1 X16 k1 8 false; a_ldr_off rd2 X16 k2 8 false].
Definition gen_range (bss_save : Z) : gen () :=
  do! _ := place LBL_RANGE in
  do! o_open := add_rodata (str " (") in do! o_comma := add_rodata (str ", ") in do! o_end := add_rodata (str ")" ++ [10]) in
  let text o := do! _ := emit_addr X0 SEC_RODATA o in do! _ := emits (imm_words X1 2) in emit_call LBL_WRITE2 in
  let label k := do! _ := saved bss_save X0 k X1 (k + 8) in emit_call LBL_WRITE2 in
  let number k :=
    do! _ := emit_addr X16 SEC_BSS bss_save in do! _ := emit (a_ldr_off X0 X16 k 8 false) in
    do! _ := emit_call LBL_NUM in emit_call LBL_WRITE2 in
  do! _ := emit_addr X16 SEC_BSS bss_save in
  do! _ := emits [a_str_off X2 X16 0 8; a_str_off X3 X16 8 8; a_str_off X4 X16 16 8; a_str_off X5 X16 24 8; a_str_off X6 X16 32 8;
                  a_str_off X7 X16 40 8] in
  do! _ := emit_call LBL_WRITE2 in
  do! _ := text o_open in
  do! _ := label 16 in do! _ := number 0 in
  do! _ := text o_comma in
  do! _ := label 32 in do! _ := number 8 in
  do! _ := text o_end in
  emits (imm_words X0 70 ++ svc 93 ++ [a_b 0]).

(** ** The entry code *)
Fixpoint cap_words (ps : list sym) (reg : Z) : list Z :=
  match ps with
  | [] => []
  | p :: ps => imm_words reg (match y_type p with TyCap id => Z.of_nat id | _ => 0 end + 1) ++ cap_words ps (reg + 1)
  end.
Definition gen_start (bss_sp : Z) (main : func) (main_label : nat) : gen () :=
  do! _ := emit (a_mov_sp X0 SP) in
  do! _ := emit_addr X16 SEC_BSS bss_sp in
  do! _ := emits (a_str_off X0 X16 0 8 :: cap_words (f_params main) 0) in
  do! _ := emit_call main_label in
  do! _ := match f_ret main with TyVoid => emits (imm_words X0 0) | _ => sret () end in
  emits (svc 93 ++ [a_b 0]).

(** ** Putting it together *)
Fixpoint layout_globals (l : list sym) (bss : Z) : list Z * Z :=
  match l with
  | [] => ([], bss)
  | y :: l =>
      match y_kind y with
      | SYM_GLOBAL =>
          let a := if ty_align (y_type y) <? 8 then 8 else ty_align (y_type y) in
          let off := Z.ldiff (bss + a - 1) (a - 1) in
          let '(offs, bss) := layout_globals l (off + ty_size (y_type y)) in (i32 off :: offs, bss)
      | _ => let '(offs, bss) := layout_globals l bss in (0 :: offs, bss)
      end
  end.

Definition base_of (s : section_) (rodata_at : Z) : Z := match s with SEC_BSS => DATA_VA | SEC_RODATA => TEXT_VA + rodata_at end.
(** The word a fixup puts for [old]. *)
Definition fixed (labs : list Z) (rodata_at : Z) (fx : fixup) (old : Z) : option Z :=
  let branch (f : Z -> Z) :=
    let target := nth (fx_label fx) labs (-1) in
    if target <? 0 then None else Some (f (Z.quot (target - fx_at fx) 4)) in
  match fx_kind fx with
  | FX_B26 => branch a_b
  | FX_BL26 => branch a_bl
  | FX_B19 => branch (a_bcond (Z.land old 15))
  | FX_CBZ => branch (a_cbz (Z.land old 31))
  | FX_CBNZ => branch (a_cbnz (Z.land old 31))
  | FX_ADRP s off =>
      let target := u64 (base_of s rodata_at + off) in let pc := u64 (TEXT_VA + fx_at fx) in
      Some (a_adrp (Z.land old 31) (Z.shiftr target 12 - Z.shiftr pc 12))
  | FX_ADD12 s off =>
      let target := u64 (base_of s rodata_at + off) in
      Some (a_add_imm (Z.land old 31) (Z.land (Z.shiftr old 5) 31) (Z.land target 0xFFF) false)
  end.
Fixpoint apply_fixes (labs : list Z) (rodata_at : Z) (l : list fixup) (words : list Z) : option (list Z) :=
  match l with
  | [] => Some words
  | fx :: l =>
      let i := Z.to_nat (fx_at fx / 4) in
      w ← fixed labs rodata_at fx (nth i words 0);
      apply_fixes labs rodata_at l (<[i := w]> words)
  end.

Definition init_gst (nfn : nat) : gst := G [] [] [] (replicate (6 + nfn) (-1)) 0 0 false false false.
Definition up8 (n : Z) : Z := Z.ldiff (n + 7) 7.
(** The places of [bss_sp], [bss_cstr], [bss_numbuf] and [bss_save], and its end. *)
Definition bss_layout (u : unit_) : list Z * (Z * Z * Z * Z * Z) :=
  let '(offs, bss) := layout_globals (u_globals u) 0 in
  let sp := up8 bss in let cstr := up8 (sp + 8) in let numbuf := up8 (cstr + 256) in let save := up8 (numbuf + 32) in
  (offs, (sp, cstr, numbuf, save, save + 16)).

(** All the code, before the fixups. *)
Definition gen_code (fuel : nat) (opt_contracts : bool) (u : unit_) (main : func) (main_at : nat) : gen () :=
  let '(goffs, (sp, cstr, numbuf, save, _)) := bss_layout u in
  do! _ := gen_start sp main (fn_label main_at) in
  do! _ := gen_fns (u_fns u) goffs sp opt_contracts fuel (u_fns u) 0 in
  do! _ := gen_fail in
  do! g := sget in
  do! _ := if need_argget g then gen_argget sp else sret () in
  do! _ := if need_cstr g then gen_cstr cstr else sret () in
  if need_range g then do! _ := gen_write2 in do! _ := gen_num numbuf in gen_range save else sret ().

(** [syscalls] and [caps]: what the checker recorded. *)
Definition gen_unit (fuel : nat) (opt_contracts : bool) (u : unit_) (calls : list Z) (caps : list (list Z)) : outcome (gdiag + Image) :=
  match u_entry u with
  | None => Fault
  | Some i =>
      match u_fns u !! i with
      | None => Fault
      | Some main =>
          let! r := gen_code fuel opt_contracts u main i (init_gst (length (u_fns u))) in
          match r with
          | inl d => Ret (inl d)
          | inr (_, g) =>
              let words := rev (code g) ++ (if Z.even (zlen (code g)) then [] else [0]) in
              let rodata_at := 4 * zlen words in
              match apply_fixes (lab g) rodata_at (rev (fixes g)) words with
              | None => Ret (inl UnplacedLabel)
              | Some words =>
                  let '(_, (_, _, _, _, bss)) := bss_layout u in
                  Ret (inr (Img (concat (b_wr32 <$> words) ++ rev (rodata g)) rodata_at bss TEXT_VA TEXT_VA DATA_VA calls caps))
              end
          end
      end
  end.
