(* ===== verification/SavGenRun.v ===== *)
(** * What the sav code generator writes

    Every word of a program's code is an ordinary instruction, a return, a jump
    to somewhere that is no system call, or a system call whose number is put
    in [x8] by the word before it: a number the manifest lists, or [write] in
    the compiler's own report of a failed claim. *)
From stdpp Require Import strings.
From S2P Require Import Prelude Bytes Elf.
Import Elf.Write.
From S2P Require Import SavTypes SavCheck SavCheckRun SavArm SavGen.
Open Scope Z_scope.

(** ** Kinds of instruction

    The architecture's: what a word jumps to, in words, and whether it is
    one that leaves the straight line at all. *)
Definition top (w : Z) : Z := Z.shiftr w 24.
Definition jump_target (i w : Z) : option Z :=
  if existsb (Z.eqb (top w)) [0x14; 0x15; 0x16; 0x17; 0x94; 0x95; 0x96; 0x97] then Some (i + swrap 26 (Z.land w 0x3FFFFFF))
  else if existsb (Z.eqb (top w)) [0x54; 0xB4; 0xB5] then Some (i + swrap 19 (Z.land (Z.shiftr w 5) 0x7FFFF))
  else None.
(** Branches and calls, conditional branches, compares and tests that branch,
    system calls and exceptions, branches to a register. *)
Definition leaves : list Z :=
  [0x14; 0x15; 0x16; 0x17; 0x94; 0x95; 0x96; 0x97; 0x54; 0x34; 0x35; 0x36; 0x37; 0xB4; 0xB5; 0xB6; 0xB7; 0xD4; 0xD6; 0xD7].
Definition plain (w : Z) : bool := negb (existsb (Z.eqb (top w)) leaves).

(** ** The fields of a word *)
Lemma land_le v m : 0 <= m -> 0 <= Z.land v m <= m.
Proof.
  intros Hm. split; [apply Z.land_nonneg; by right|].
  assert (Z.land v m = Z.land (v mod 2 ^ Z.log2_up (m + 1)) m) as ->.
  { rewrite <- Z.land_ones by apply Z.log2_up_nonneg. rewrite <- Z.land_assoc. f_equal. symmetry. rewrite Z.land_comm.
    rewrite Z.land_ones by apply Z.log2_up_nonneg. apply Z.mod_small. split; [done|].
    destruct (Z.eq_dec m 0) as [->|]; [done|]. pose proof (Z.log2_up_spec (m + 1) ltac:(lia)). lia. }
  assert (0 <= v mod 2 ^ Z.log2_up (m + 1)) by (apply Z.mod_pos_bound, Z.pow_pos_nonneg; [done|apply Z.log2_up_nonneg]).
  apply Z.ldiff_le; [done|]. apply Z.bits_inj'. intros k Hk. rewrite Z.ldiff_spec, Z.land_spec, Z.bits_0.
  by destruct (Z.testbit _ k), (Z.testbit m k).
Qed.
Lemma top_small w : 0 <= w < 2 ^ 24 -> top w = 0.
Proof. intros H. unfold top. rewrite Z.shiftr_div_pow2 by done. by apply Z.div_small. Qed.
Lemma top_lor a b : top (Z.lor a b) = Z.lor (top a) (top b).
Proof. apply Z.shiftr_lor. Qed.
Lemma top_shl v m n : 0 <= n -> 0 <= v <= m -> m * 2 ^ n < 2 ^ 24 -> top (Z.shiftl v n) = 0.
Proof. intros Hn Hv Hm. apply top_small. rewrite Z.shiftl_mul_pow2 by done. pose proof (Z.pow_pos_nonneg 2 n). nia. Qed.
Lemma top_fl v m n : 0 <= n -> 0 <= m -> m * 2 ^ n < 2 ^ 24 -> top (fl v m n) = 0.
Proof. intros Hn Hm Hb. unfold fl. eapply top_shl; [done|by apply land_le|done]. Qed.
Lemma top_r x : top (r x) = 0.
Proof. apply top_small. pose proof (land_le x 31 ltac:(done)). unfold r. lia. Qed.
Lemma top_at16 x : top (at16 x) = 0.
Proof. by apply (top_fl x 31 16). Qed.
Lemma top_at5 x : top (at5 x) = 0.
Proof. by apply (top_fl x 31 5). Qed.
Lemma top_r10 x : top (Z.shiftl (r x) 10) = 0.
Proof. by apply (top_fl x 31 10). Qed.

(** [tops] works out the top byte of a word an encoder makes. *)
Ltac tops :=
  unfold plain, ors; cbn [fold_left]; rewrite ?top_lor, ?top_r, ?top_at16, ?top_at5, ?top_r10, ?top_fl by done;
  try reflexivity.

Lemma plain_movz rd v hw : 0 <= hw <= 3 -> plain (a_movz rd v hw) = true.
Proof. intros H. unfold a_movz. tops. assert (hw = 0 \/ hw = 1 \/ hw = 2 \/ hw = 3) as [->|[->|[->| ->]]] by lia; reflexivity. Qed.
Lemma plain_movk rd v hw : 0 <= hw <= 3 -> plain (a_movk rd v hw) = true.
Proof. intros H. unfold a_movk. tops. assert (hw = 0 \/ hw = 1 \/ hw = 2 \/ hw = 3) as [->|[->|[->| ->]]] by lia; reflexivity. Qed.
Lemma plain_movn rd v : plain (a_movn rd v 0) = true.
Proof. unfold a_movn. tops. Qed.
Lemma plain_mov rd rm : plain (a_mov rd rm) = true.
Proof. unfold a_mov. tops. Qed.
Lemma plain_mov_sp rd rm : plain (a_mov_sp rd rm) = true.
Proof. unfold a_mov_sp. tops. Qed.
Lemma plain_add_imm rd rn v sh : plain (a_add_imm rd rn v sh) = true.
Proof. unfold a_add_imm. tops. by destruct sh. Qed.
Lemma plain_sub_imm rd rn v sh : plain (a_sub_imm rd rn v sh) = true.
Proof. unfold a_sub_imm. tops. by destruct sh. Qed.
(** Three registers over an opcode. *)
Lemma plain_rrr op rd rn rm : plain op = true -> plain (ors [op; at16 rm; at5 rn; r rd]) = true.
Proof. unfold plain, ors. cbn [fold_left]. rewrite !top_lor, top_at16, top_at5, top_r. by rewrite !Z.lor_0_r. Qed.
Lemma plain_msub rd rn rm ra : plain (a_msub rd rn rm ra) = true.
Proof. unfold a_msub. tops. Qed.
Lemma plain_mvn rd rm : plain (a_mvn rd rm) = true.
Proof. unfold a_mvn. tops. Qed.
Lemma plain_neg rd rm : plain (a_neg rd rm) = true.
Proof. unfold a_neg. tops. Qed.
Lemma plain_cset rd c : 0 <= c < 16 -> plain (a_cset rd c) = true.
Proof.
  intros Hc. unfold a_cset. tops. rewrite (top_shl _ 15 12); [reflexivity|done| |done].
  assert (c = Z.of_nat (Z.to_nat c)) as -> by lia. assert (Z.to_nat c < 16)%nat as Hn by lia. revert Hn. generalize (Z.to_nat c). intros n Hn.
  do 16 (destruct n as [|n]; [vm_compute; split; discriminate|]). lia.
Qed.
Lemma plain_adrp rd v : plain (a_adrp rd v) = true.
Proof.
  unfold a_adrp. tops. rewrite (top_shl _ 0x7FFFF 5); [|done|by apply land_le|done]. rewrite !Z.lor_0_r.
  pose proof (land_le v 3 ltac:(done)). assert (Z.land v 3 = 0 \/ Z.land v 3 = 1 \/ Z.land v 3 = 2 \/ Z.land v 3 = 3) as [->|[->|[->| ->]]] by lia; reflexivity.
Qed.
Lemma size_bits_cases n : size_bits n = 0 \/ size_bits n = 1 \/ size_bits n = 2 \/ size_bits n = 3.
Proof. unfold size_bits. repeat (destruct (_ =? _); [tauto|]). tauto. Qed.
Lemma scaled_top off size : 0 < size -> scaled off size = true -> top (Z.shiftl (off / size) 10) = 0.
Proof.
  intros Hs H. unfold scaled in H. apply andb_prop in H as [H1 H2]. apply andb_prop in H1 as [H1 _].
  apply (top_shl _ 4095); [done| |done]. split; [apply Z.div_pos; lia|lia].
Qed.
Lemma plain_str_off rt rn off size : 0 < size -> plain (a_str_off rt rn off size) = true.
Proof.
  intros Hs. unfold a_str_off. destruct (scaled off size) eqn:E; tops.
  - rewrite scaled_top by done. destruct (size_bits_cases size) as [->|[->|[->| ->]]]; reflexivity.
  - destruct (size_bits_cases size) as [->|[->|[->| ->]]]; reflexivity.
Qed.
Lemma plain_ldr_off rt rn off size sg : 0 < size -> plain (a_ldr_off rt rn off size sg) = true.
Proof.
  intros Hs. unfold a_ldr_off. cbv zeta. destruct (scaled off size) eqn:E; tops.
  - rewrite scaled_top by done. destruct (_ && _), (size_bits_cases size) as [->|[->|[->| ->]]]; reflexivity.
  - destruct (_ && _), (size_bits_cases size) as [->|[->|[->| ->]]]; reflexivity.
Qed.
Lemma plain_stp_pre rt rt2 rn off : plain (a_stp_pre rt rt2 rn off) = true.
Proof. unfold a_stp_pre. tops. Qed.
Lemma plain_ldp_post rt rt2 rn off : plain (a_ldp_post rt rt2 rn off) = true.
Proof. unfold a_ldp_post. tops. Qed.
Lemma plain_sxt rd rn bits : plain (a_sxt rd rn bits) = true.
Proof. unfold a_sxt. tops. by repeat destruct (_ =? _). Qed.
Lemma plain_uxt rd rn bits : plain (a_uxt rd rn bits) = true.
Proof. unfold a_uxt. destruct (_ =? 32); tops. by destruct (_ =? 8). Qed.

Lemma plain_add rd rn rm : plain (a_add rd rn rm) = true.
Proof. by apply plain_rrr. Qed.
Lemma plain_sub rd rn rm : plain (a_sub rd rn rm) = true.
Proof. by apply plain_rrr. Qed.
Lemma plain_subs rd rn rm : plain (a_subs rd rn rm) = true.
Proof. by apply plain_rrr. Qed.
Lemma plain_and rd rn rm : plain (a_and rd rn rm) = true.
Proof. by apply plain_rrr. Qed.
Lemma plain_orr rd rn rm : plain (a_orr rd rn rm) = true.
Proof. by apply plain_rrr. Qed.
Lemma plain_eor rd rn rm : plain (a_eor rd rn rm) = true.
Proof. by apply plain_rrr. Qed.
Lemma plain_mul rd rn rm : plain (a_mul rd rn rm) = true.
Proof. by apply plain_rrr. Qed.
Lemma plain_sdiv rd rn rm : plain (a_sdiv rd rn rm) = true.
Proof. by apply plain_rrr. Qed.
Lemma plain_udiv rd rn rm : plain (a_udiv rd rn rm) = true.
Proof. by apply plain_rrr. Qed.
Lemma plain_lslv rd rn rm : plain (a_lslv rd rn rm) = true.
Proof. by apply plain_rrr. Qed.
Lemma plain_lsrv rd rn rm : plain (a_lsrv rd rn rm) = true.
Proof. by apply plain_rrr. Qed.
Lemma plain_asrv rd rn rm : plain (a_asrv rd rn rm) = true.
Proof. by apply plain_rrr. Qed.

Create HintDb plain.
#[export] Hint Resolve plain_add plain_sub plain_subs plain_and plain_orr plain_eor plain_mul plain_sdiv plain_udiv plain_lslv plain_lsrv plain_asrv : plain.
#[export] Hint Resolve plain_movk plain_movz plain_movn plain_mov plain_mov_sp plain_add_imm plain_sub_imm plain_msub plain_mvn plain_neg
  plain_adrp plain_stp_pre plain_ldp_post plain_sxt plain_uxt : plain.
#[export] Hint Extern 1 (plain (a_str_off _ _ _ _) = true) => (apply plain_str_off; done) : plain.
#[export] Hint Extern 1 (plain (a_ldr_off _ _ _ _ _) = true) => (apply plain_ldr_off; done) : plain.
#[export] Hint Extern 1 (plain (a_cset _ _) = true) => (apply plain_cset; done) : plain.

Lemma bcond_top cc o : top (a_bcond cc o) = 0x54.
Proof. unfold a_bcond. tops. rewrite (top_small (Z.land cc 15)); [done|]. pose proof (land_le cc 15 ltac:(done)). lia. Qed.
Lemma cbz_top rt o : top (a_cbz rt o) = 0xB4.
Proof. unfold a_cbz. tops. Qed.
Lemma cbnz_top rt o : top (a_cbnz rt o) = 0xB5.
Proof. unfold a_cbnz. tops. Qed.
Lemma swrap_land n v : 0 < n -> - 2 ^ (n - 1) <= v < 2 ^ (n - 1) -> swrap n (Z.land v (Z.ones n)) = v.
Proof.
  intros Hn Hv. rewrite Z.land_ones by lia. unfold swrap. rewrite Zplus_mod_idemp_l.
  assert (2 ^ n = 2 * 2 ^ (n - 1)) by (rewrite <- Z.pow_succ_r by lia; f_equal; lia). rewrite Z.mod_small; lia.
Qed.
Lemma shiftr_small v n : 0 <= n -> 0 <= v < 2 ^ n -> Z.shiftr v n = 0.
Proof. intros Hn Hv. rewrite Z.shiftr_div_pow2 by done. by apply Z.div_small. Qed.
(** The two forms of a jump: 26 bits of distance, or 19 of them above five. *)
Lemma jump26 i base o : Z.land base 0x3FFFFFF = 0 -> top base = 0x14 \/ top base = 0x94 ->
  jump_target i (ors [base; Z.land o 0x3FFFFFF]) = Some (i + swrap 26 (Z.land o 0x3FFFFFF)).
Proof.
  intros Hb Ht. unfold jump_target, ors. cbn [fold_left]. rewrite !top_lor, !Z.land_lor_distr_l, Hb.
  rewrite <- (Z.land_assoc o), Z.land_diag. change (top 0) with 0. rewrite !Z.lor_0_l.
  pose proof (land_le o 0x3FFFFFF ltac:(done)). assert (0 <= top (Z.land o 0x3FFFFFF) < 4) as Hr.
  { unfold top. rewrite Z.shiftr_div_pow2 by done. split; [apply Z.div_pos; lia|apply Z.div_lt_upper_bound; lia]. }
  revert Hr. generalize (top (Z.land o 0x3FFFFFF)). intros t Htt.
  assert (t = 0 \/ t = 1 \/ t = 2 \/ t = 3) as Hc by lia. destruct Ht as [->| ->], Hc as [->|[->|[->| ->]]]; reflexivity.
Qed.
Lemma plain_no_jump i w : plain w = true -> jump_target i w = None.
Proof.
  unfold plain, jump_target, leaves. cbn [existsb]. rewrite !orb_false_r. intros H.
  destruct (_ || _) eqn:E1 in |- *; [exfalso|destruct (_ || _) eqn:E2 in |- *; [exfalso|done]].
  all: repeat match goal with E : (?a || ?b) = true |- _ => apply orb_prop in E as [E|E] | E : (?a =? ?b) = true |- _ => apply Z.eqb_eq in E end.
  all: match goal with E : top _ = _ |- _ => rewrite E in H end; done.
Qed.
Lemma jump19 i base low o : Z.land (Z.shiftr base 5) 0x7FFFF = 0 -> top base ∈ [0x54; 0xB4; 0xB5] -> 0 <= low < 32 ->
  jump_target i (ors [base; fl o 0x7FFFF 5; low]) = Some (i + swrap 19 (Z.land o 0x7FFFF)).
Proof.
  intros Hb Ht Hlow. unfold jump_target, ors. cbn [fold_left]. rewrite !top_lor, !Z.shiftr_lor, !Z.land_lor_distr_l, Hb.
  rewrite (top_small low) by lia. rewrite (shiftr_small low) by lia. rewrite top_fl by done. unfold fl.
  rewrite Z.shiftr_shiftl_l, Z.shiftl_0_r by done. rewrite <- (Z.land_assoc o), Z.land_diag.
  change (top 0) with 0. change (Z.shiftr 0 5) with 0. rewrite !Z.land_0_l, !Z.lor_0_l, !Z.lor_0_r.
  repeat (apply elem_of_cons in Ht as [->|Ht]; [reflexivity|]). by apply not_elem_of_nil in Ht.
Qed.
Lemma top_not_svc w : top w <> 0xD4 -> w <> a_svc0.
Proof. by intros H ->. Qed.

(** ** Straight pieces of code *)
#[local] Opaque a_movz a_movk a_movn a_mov a_mov_sp a_add_imm a_sub_imm a_add a_sub a_subs a_and a_orr a_eor a_mul a_sdiv a_udiv a_msub a_lslv a_lsrv a_asrv a_mvn a_neg a_cset a_b a_bl a_bcond a_cbz a_cbnz a_ret a_svc0 a_adrp a_str_off a_ldr_off a_stp_pre a_ldp_post a_sxt a_uxt.

Definition simple (w : Z) : Prop := plain w = true \/ w = a_ret \/ w = a_b 0.
(** [perm]: the calls it may make. *)
Inductive run_ok (perm : Z -> Prop) : list Z -> Prop :=
  | run_nil : run_ok perm []
  | run_word w l : simple w -> run_ok perm l -> run_ok perm (w :: l)
  | run_call n l : perm n -> run_ok perm l -> run_ok perm (a_movz X8 n 0 :: a_svc0 :: l).
Abbreviation straight := (Forall (fun w => plain w = true)).

Lemma straight_run perm l : straight l -> run_ok perm l.
Proof. induction 1; constructor; [by left|done]. Qed.
Lemma run_app perm l l' : run_ok perm l -> run_ok perm l' -> run_ok perm (l ++ l').
Proof. induction 1; intros Hl'; cbn; [done|by constructor; auto|by apply run_call; auto]. Qed.
Lemma straight_app l l' : straight l -> straight l' -> straight (l ++ l').
Proof. intros. by apply Forall_app. Qed.
Lemma straight_if (b : bool) l l' : straight l -> straight l' -> straight (if b then l else l').
Proof. by destruct b. Qed.

(** [strt] for a list written out. *)
Create HintDb strt.
Ltac strt :=
  repeat first
    [ apply Forall_nil; exact I
    | apply Forall_cons; split; [solve [auto with plain]|]
    | solve [auto with strt nocore]
    | apply straight_app
    | apply straight_if ].

Lemma straight_movk rd v hws first : Forall (fun h => 0 <= h <= 3) hws -> straight (movk_loop rd v hws first).
Proof.
  intros H. revert first. induction H as [|h hws Hh _ IH]; intros first; cbn; [done|]. destruct (_ =? 0); [apply IH|].
  constructor; [|apply IH]. destruct first; [by apply plain_movz|by apply plain_movk].
Qed.
Lemma straight_imm rd v : straight (imm_words rd v).
Proof.
  unfold imm_words. apply straight_if; [constructor; [by apply plain_movz|done]|]. cbv zeta. apply straight_if; [constructor; [apply plain_movn|done]|].
  apply straight_movk. repeat constructor; lia.
Qed.
#[export] Hint Resolve straight_imm : strt.
Lemma straight_sub_sp n : straight (sub_sp n).
Proof. unfold sub_sp. strt. Qed.
Lemma straight_local_addr rd off : straight (local_addr rd off).
Proof. unfold local_addr. strt. Qed.
#[export] Hint Resolve straight_sub_sp straight_local_addr : strt.
Lemma load_size_pos t : 0 < type_load_size t.
Proof. destruct t; try done. by destruct bits. Qed.
#[export] Hint Extern 1 (plain (a_ldr_off _ _ _ (type_load_size _) _) = true) => (apply plain_ldr_off, load_size_pos) : plain.
#[export] Hint Extern 1 (plain (a_str_off _ _ _ (type_load_size _)) = true) => (apply plain_str_off, load_size_pos) : plain.
Lemma straight_load_value rb off t : straight (load_value rb off t).
Proof. unfold load_value. destruct (is_aggregate t); [|destruct t]; strt. Qed.
Lemma straight_copy n i size off step : 0 < step -> straight (copy_words n i size off step).
Proof.
  intros Hs. revert i. induction n as [|n IH]; intros i; cbn; [done|]. destruct (_ <=? _); [|done].
  constructor; [by apply plain_ldr_off|]. constructor; [by apply plain_str_off|apply IH].
Qed.
Lemma straight_store_value rb off t : straight (store_value rb off t).
Proof.
  unfold store_value. destruct t; try (apply straight_if); try (by strt); cbn [is_aggregate]; (constructor; [auto with plain|]); unfold copy_aggregate; apply straight_app; by apply straight_copy.
Qed.
#[export] Hint Resolve straight_load_value straight_store_value : strt.
Lemma plain_push : plain push_pair = true.
Proof. apply plain_stp_pre. Qed.
Lemma plain_pop r1 r2 : plain (pop_pair r1 r2) = true.
Proof. apply plain_ldp_post. Qed.
#[export] Hint Resolve plain_push plain_pop : plain.
Lemma straight_frame_load off t : straight (frame_load off t).
Proof. unfold frame_load. strt. Qed.
Lemma straight_frame_store off t : straight (frame_store off t).
Proof. unfold frame_store. strt. Qed.
Lemma straight_frame_store_field so fo t : straight (frame_store_field so fo t).
Proof. unfold frame_store_field. strt. Qed.
#[export] Hint Resolve straight_frame_load straight_frame_store straight_frame_store_field : strt.
Lemma straight_scale n rd : straight (scale n rd).
Proof. unfold scale. strt. Qed.
#[export] Hint Resolve straight_scale : strt.
Lemma straight_cmp op sg : straight (gen_cmp_set op sg).
Proof. unfold gen_cmp_set. destruct op, sg; strt. Qed.
#[export] Hint Resolve straight_cmp : strt.
Lemma straight_binary op ta t : straight (binary_words op ta t).
Proof.
  unfold binary_words. apply straight_app.
  - destruct op; try (destruct (match ta with TyInt _ s => s | _ => true end)); strt.
  - destruct t; try done. destruct (_ && _); [|done]. destruct is_signed; strt.
Qed.
Lemma straight_unary op : straight (unary_words op).
Proof. unfold unary_words. strt. Qed.
Lemma straight_cast from to : straight (cast_words from to).
Proof.
  unfold cast_words. destruct to as [| |b s|  | | | | |]; try done; [strt|]. destruct (_ <? _); [destruct s; strt|].
  destruct (_ =? _); [|done]. destruct from as [| |fb fs| | | | | |]; try done. destruct (_ <? _); [destruct fs; strt|done].
Qed.
Lemma straight_pop_args ps : straight (pop_args ps).
Proof. induction ps as [|p ps IH]; cbn; [done|]. constructor; [apply plain_pop|done]. Qed.
Lemma straight_binds off fs ys : straight (bind_words off fs ys).
Proof. revert fs. induction ys as [|y ys IH]; intros [|f fs]; cbn; try done. repeat apply straight_app; auto with strt. Qed.
Lemma straight_save ps : straight (save_params ps).
Proof. induction ps as [|p ps IH]; cbn; [done|]. repeat apply straight_app; auto with strt. destruct (y_type p); strt.
  Qed.
Lemma straight_caps ps rd : straight (cap_words ps rd).
Proof. revert rd. induction ps as [|p ps IH]; intros rd; cbn; [done|]. apply straight_app; auto with strt. Qed.
#[export] Hint Resolve straight_binary straight_unary straight_cast straight_pop_args straight_binds straight_save straight_caps : strt.

(** ** The code as it grows

    [calls]: the manifest's. [mark]: where the compiler's own pieces begin. *)
Definition hole (k : fixkind) (w : Z) : Prop :=
  match k with
  | FX_B26 => exists o, w = a_b o
  | FX_BL26 => exists o, w = a_bl o
  | FX_B19 => exists cc o, w = a_bcond cc o
  | FX_CBZ => exists rt o, w = a_cbz rt o
  | FX_CBNZ => exists rt o, w = a_cbnz rt o
  | FX_ADRP _ _ => exists rd o, w = a_adrp rd o
  | FX_ADD12 _ _ => exists rd rn v, w = a_add_imm rd rn v false
  end.
Definition branching (k : fixkind) : Prop := match k with FX_ADRP _ _ | FX_ADD12 _ _ => False | _ => True end.
#[global] Instance branching_dec k : Decision (branching k).
Proof. destruct k; apply _. Defined.

Section code.
Context (calls : list Z) (mark : nat).
Definition may (i : nat) (n : Z) : Prop := n ∈ calls \/ (n = 64 /\ (mark <= i)%nat).

Record inv (c : list Z) (fx : list fixup) (lb : list Z) : Prop := Inv {
  inv_word : forall i w, c !! i = Some w ->
    plain w = true \/ w = a_ret \/ w = a_b 0 \/ (w = a_svc0 /\ exists j n, i = S j /\ c !! j = Some (a_movz X8 n 0) /\ may i n)
    \/ exists f, f ∈ fx /\ fx_at f = 4 * Z.of_nat i /\ branching (fx_kind f);
  inv_fix : forall f, f ∈ fx -> exists i w, fx_at f = 4 * Z.of_nat i /\ c !! i = Some w /\ hole (fx_kind f) w;
  inv_once : NoDup (fx_at <$> fx);
  inv_lab : Forall (fun l => l = -1 \/ exists k : nat, l = 4 * Z.of_nat k /\ (k <= length c)%nat /\ c !! k <> Some a_svc0) lb
}.

Lemma simple_not_svc w : simple w -> w <> a_svc0.
Proof. intros [H|[->| ->]] E; subst; done. Qed.
Lemma lookup_snoc_some {A} (c : list A) w i x : (c ++ [w]) !! i = Some x -> c !! i = Some x \/ (i = length c /\ x = w).
Proof. intros [H|[? [Hi H]%list_lookup_singleton_Some]]%lookup_app_Some; [by left|right]. split; [lia|done]. Qed.
(** One word more. *)
Lemma inv_snoc c fx fx' lb w :
  inv c fx lb -> w <> a_svc0 ->
  (plain w = true \/ w = a_ret \/ w = a_b 0 \/ exists f, f ∈ fx' /\ fx_at f = 4 * Z.of_nat (length c) /\ branching (fx_kind f)) ->
  (fx' = fx \/ exists k l, fx' = Fix_ (4 * zlen c) k l :: fx /\ hole k w) ->
  inv (c ++ [w]) fx' lb.
Proof.
  intros [Hw Hf Ho Hl] Hns Hc Hfx. assert (forall f, f ∈ fx -> f ∈ fx') as Hsub.
  { intros f Hin. destruct Hfx as [->|(k & l & -> & _)]; [done|]. by right. }
  split.
  - intros i x [Hi|[-> ->]]%lookup_snoc_some.
    + destruct (Hw i x Hi) as [?|[?|[?|[[? (j & n & -> & Hj & Hm)]|(f & Hin & Ha & Hb)]]]]; [tauto..| |].
      * right; right; right; left. split; [done|]. exists j, n. split; [done|]. split; [by apply lookup_app_l_Some|done].
      * do 4 right. eauto.
    + destruct Hc as [?|[?|[?|?]]]; tauto.
  - intros f Hin. assert (f ∈ fx \/ exists k l, f = Fix_ (4 * zlen c) k l /\ hole k w) as [Hin'|(k & l & -> & Hh)].
    { destruct Hfx as [->|(k & l & -> & Hh)]; [by left|]. apply elem_of_cons in Hin as [->|?]; [right; eauto|by left]. }
    + destruct (Hf f Hin') as (i & x & Ha & Hi & Hh). exists i, x. split; [done|]. split; [by apply lookup_app_l_Some|done].
    + exists (length c), w. split; [done|]. split; [by apply list_lookup_middle|done].
  - destruct Hfx as [->|(k & l & -> & _)]; [done|]. cbn. constructor; [|done]. intros (f & Ha & Hin)%list_elem_of_fmap.
    destruct (Hf f Hin) as (i & x & Hi & Hx & _). apply lookup_lt_Some in Hx. cbn in Ha. unfold zlen in Ha. lia.
  - eapply Forall_impl; [exact Hl|]. intros l [?|(k & -> & Hk & Hn)]; [by left|right]. exists k. split; [done|]. rewrite length_app. cbn.
    split; [lia|]. intros [Hi|[_ E]]%lookup_snoc_some; [done|]. by symmetry in E.
Qed.
Lemma inv_run (late : bool) c fx lb l :
  (late = true -> (mark <= length c)%nat) -> run_ok (fun n => n ∈ calls \/ (late = true /\ n = 64)) l -> inv c fx lb -> inv (c ++ l) fx lb.
Proof.
  intros Hlate Hr. revert c Hlate. induction Hr as [|w l Hs Hr IH|n l Hp Hr IH]; intros c Hlate Hi.
  - by rewrite app_nil_r.
  - replace (c ++ w :: l) with ((c ++ [w]) ++ l) by by rewrite <- app_assoc. apply IH; [rewrite length_app; intros; specialize (Hlate ltac:(done)); lia|].
    eapply inv_snoc; [done|by apply simple_not_svc| |by left]. destruct Hs as [?|[?|?]]; tauto.
  - replace (c ++ a_movz X8 n 0 :: a_svc0 :: l) with (((c ++ [a_movz X8 n 0]) ++ [a_svc0]) ++ l) by by rewrite <- !app_assoc.
    apply IH; [rewrite !length_app; intros; specialize (Hlate ltac:(done)); lia|].
    assert (inv (c ++ [a_movz X8 n 0]) fx lb) as Hi1.
    { eapply inv_snoc; [done| |left; by apply plain_movz|by left]. intros E.
      pose proof (plain_movz X8 n 0 ltac:(lia)) as Hp0. by rewrite E in Hp0. }
    destruct Hi1 as [Hw Hf Ho Hl].
    assert (may (S (length c)) n) as Hmay.
    { destruct Hp as [?|[Hl1 ->]]; [by left|right]. specialize (Hlate Hl1). split; [done|lia]. }
    split.
    + intros i x [Hx|[-> ->]]%lookup_snoc_some.
      * destruct (Hw i x Hx) as [?|[?|[?|[[? (j & n' & -> & Hj & Hm)]|(f & Hin & Ha & Hb)]]]]; [tauto..| |].
        -- right; right; right; left. split; [done|]. exists j, n'. split; [done|]. split; [by apply lookup_app_l_Some|done].
        -- do 4 right. eauto.
      * do 3 right. left. split; [done|]. exists (length c), n. rewrite length_app. cbn. split; [lia|].
        split; [rewrite <- app_assoc; by apply list_lookup_middle|]. by rewrite Nat.add_1_r.
    + intros f Hin. destruct (Hf f Hin) as (i & x & Ha & Hx & Hh). exists i, x. split; [done|]. split; [by apply lookup_app_l_Some|done].
    + done.
    + (* a label is never between the two *)
      destruct Hi as [_ _ _ Hl0]. eapply Forall_impl; [exact Hl0|]. intros x [?|(k & -> & Hk & Hn)]; [by left|right]. exists k. split; [done|].
      rewrite !length_app. cbn. split; [lia|]. intros [Hx|[-> _]]%lookup_snoc_some; [|rewrite length_app in Hk; cbn in Hk; lia].
      apply lookup_snoc_some in Hx as [?|[_ E]]; [done|]. pose proof (plain_movz X8 n 0 ltac:(lia)) as Hp0. by rewrite <- E in Hp0.
Qed.
Lemma inv_place c fx lb l : inv c fx lb -> inv c fx (<[l := 4 * zlen c]> lb).
Proof.
  intros [Hw Hf Ho Hl]. split; [done..|]. apply Forall_insert; [done|]. right. exists (length c). split; [done|]. split; [done|].
  by rewrite lookup_ge_None_2.
Qed.
Lemma inv_newlab c fx lb : inv c fx lb -> inv c fx (lb ++ [-1]).
Proof. intros [Hw Hf Ho Hl]. split; [done..|]. apply Forall_app. split; [done|]. constructor; [by left|done]. Qed.

(** ** The generator's steps *)
Section pres.
Context (late : bool).
Definition good (g : gst) : Prop :=
  inv (rev (code g)) (fixes g) (lab g) /\ (late = true -> (mark <= length (code g))%nat).
Definition pres {A} (x : gen A) : Prop := forall g a g', good g -> x g = Ret (inr (a, g')) -> good g'.
Abbreviation perm := (fun n => n ∈ calls \/ (late = true /\ n = 64)).

Lemma pres_ret {A} (a : A) : pres (sret a).
Proof. by intros g b g' Hg [= _ <-]. Qed.
Lemma pres_die {A} d : pres (die d : gen A).
Proof. by intros g b g' Hg E. Qed.
Lemma pres_fault {A} : pres (sfault : gen A).
Proof. by intros g b g' Hg E. Qed.
Lemma pres_diverge {A} : pres (sdiverge : gen A).
Proof. by intros g b g' Hg E. Qed.
Lemma pres_get : pres sget.
Proof. by intros g b g' Hg [= _ <-]. Qed.
Lemma pres_outcome {A} (o : outcome A) : pres (of_outcome o).
Proof. intros g b g' Hg [_ ->]%of_outcome_inv. done. Qed.
Lemma pres_bind {A B} (x : gen A) (f : A -> gen B) : pres x -> (forall a, pres (f a)) -> pres (sbind x f).
Proof. intros Hx Hf g b g' Hg E. apply sbind_inv in E as (a & g1 & E1 & E2). eapply Hf; [|exact E2]. by eapply Hx. Qed.
(** A change of what the code does not depend on. *)
Lemma pres_mod f : (forall g, code (f g) = code g /\ fixes (f g) = fixes g /\ lab (f g) = lab g) -> pres (smod f).
Proof. intros Hf g a g' Hg [= _ <-]. destruct (Hf g) as (H1 & H2 & H3). unfold good. by rewrite H1, H2, H3. Qed.
Lemma pres_rodata l : pres (add_rodata l).
Proof. by intros g a g' Hg [= _ <-]. Qed.
Lemma pres_emits l : run_ok perm l -> pres (emits l).
Proof.
  intros Hr g a g' [Hi Hm] [= _ <-]. unfold good. cbn. rewrite rev_app_distr, rev_involutive. split.
  - eapply inv_run; [|done|done]. by rewrite length_rev.
  - intros Hl. rewrite length_app. specialize (Hm Hl). lia.
Qed.
Lemma pres_straight l : straight l -> pres (emits l).
Proof. intros H. by apply pres_emits, straight_run. Qed.
Lemma pres_emit w : simple w -> pres (emit w).
Proof. intros H g a g' Hg E. apply (pres_emits [w] ltac:(by constructor; [|constructor]) g a g' Hg E). Qed.
Lemma pres_newlab : pres newlab.
Proof. intros g a g' [Hi Hm] [= _ <-]. split; [by apply inv_newlab|done]. Qed.
Lemma pres_place l : pres (place l).
Proof.
  intros g a g' [Hi Hm] [= _ <-]. split; [|done]. cbn. unfold code_n.
  replace (zlen (code g)) with (zlen (rev (code g))) by (unfold zlen; by rewrite length_rev). by apply inv_place.
Qed.
(** A hole with its fixup, and what follows. *)
Lemma pres_hole1 k l w :
  hole k w -> w <> a_svc0 -> (branching k \/ plain w = true) -> pres (do! _ := fix_here k l in emit w).
Proof.
  intros Hh Hs Hb g a g' Hg E. apply sbind_inv in E as (? & g1 & [= _ <-] & [= _ <-]).
  destruct Hg as [Hi Hm]. split; [|intros Hl; specialize (Hm Hl); cbn; lia]. cbn.
  eapply inv_snoc; [exact Hi|done| |].
  - destruct Hb as [Hb|Hp]; [|tauto]. right; right; right. eexists. split; [by left|]. split; [|done]. cbn. unfold code_n, zlen. by rewrite length_rev.
  - right. exists k, l. split; [|done]. unfold code_n, zlen. by rewrite length_rev.
Qed.
Lemma pres_hole {A} k l w (f : () -> gen A) :
  hole k w -> w <> a_svc0 -> (branching k \/ plain w = true) -> (forall a, pres (f a)) ->
  pres (do! _ := fix_here k l in do! a := emit w in f a).
Proof.
  intros Hh Hs Hb Hf g a g' Hg E. apply sbind_inv in E as (u & g1 & E1 & E). apply sbind_inv in E as (u' & g2 & E2 & E).
  eapply Hf; [|exact E]. eapply (pres_hole1 k l w); [done..|exact Hg|]. unfold sbind at 1. rewrite E1. exact E2.
Qed.
Lemma pres_branch l : pres (emit_branch l).
Proof. apply pres_hole1; [by exists 0|done|by left]. Qed.
Lemma pres_call l : pres (emit_call l).
Proof. apply pres_hole1; [by exists 0|done|by left]. Qed.
Lemma pres_bcond cc l : pres (emit_bcond cc l).
Proof. apply pres_hole1; [by exists cc, 0|apply top_not_svc; by rewrite bcond_top|by left]. Qed.
Lemma pres_cbz rt l : pres (emit_cbz rt l).
Proof. apply pres_hole1; [by exists rt, 0|apply top_not_svc; by rewrite cbz_top|by left]. Qed.
Lemma pres_addr rd s off : pres (emit_addr rd s off).
Proof.
  assert (forall w, plain w = true -> w <> a_svc0) as Hp by (by intros w Hw ->).
  apply pres_hole; [by exists rd, 0|apply Hp, plain_adrp|right; apply plain_adrp|]. intros _.
  apply pres_hole1; [by exists rd, rd, 0|apply Hp, plain_add_imm|right; apply plain_add_imm].
Qed.

Create HintDb pres.
#[local] Hint Resolve pres_ret pres_die pres_fault pres_diverge pres_get pres_outcome pres_rodata pres_newlab pres_place
  pres_branch pres_call pres_bcond pres_cbz pres_addr : pres.
#[local] Hint Extern 1 (pres (smod _)) => (apply pres_mod; done) : pres.
#[local] Hint Extern 1 (pres (emits _)) => (apply pres_straight; solve [strt]) : pres.
#[local] Hint Extern 1 (pres (emit_imm _ _)) => (apply pres_straight, straight_imm) : pres.
#[local] Hint Extern 1 (pres (emit _)) => (apply pres_emit; left; solve [auto with plain]) : pres.
Ltac pgo :=
  repeat first
    [ solve [auto with pres nocore]
    | lazymatch goal with
      | |- pres (sbind _ _) => apply pres_bind; [|intros ?]
      | |- pres (match ?x with _ => _ end) => destruct x
      | |- pres (let '(_, _) := ?x in _) => destruct x
      end ].

Lemma pres_range_fail file line what l1 l2 : pres (gen_range_fail file line what l1 l2).
Proof. unfold gen_range_fail. cbv zeta. pgo. Qed.
#[local] Hint Resolve pres_range_fail : pres.
Lemma pres_bounds file line what : pres (gen_bounds_check file line what).
Proof. unfold gen_bounds_check. pgo. Qed.
Lemma pres_slice_checks file line : pres (slice_checks file line).
Proof. unfold slice_checks. pgo. Qed.
#[local] Hint Resolve pres_bounds pres_slice_checks : pres.

(** The calls. *)
Lemma known_word n : n ∈ known_calls -> svc n = [a_movz X8 n 0; a_svc0].
Proof. unfold known_calls. intros H. repeat (apply elem_of_cons in H as [->|H]; [reflexivity|]). by apply not_elem_of_nil in H. Qed.
Lemma pres_svc l n : straight l -> n ∈ known_calls -> perm n -> pres (emits (l ++ svc n)).
Proof.
  intros Hl Hk Hp. rewrite known_word by done. apply pres_emits, run_app; [by apply straight_run|]. apply run_call; [done|]. constructor.
Qed.

Section expr.
Context (fns : list func) (goffs : list Z) (bss_sp : Z) (file : list Z).
Section node.
Context (gx ga : expr -> gen ()) (Hgx : forall e, covered calls e -> pres (gx e)) (Hga : forall e, covered calls e -> pres (ga e)).
#[local] Hint Resolve Hgx Hga : pres.
Lemma pres_args args : Forall (e_all (method_ok calls)) args -> pres (gen_args gx args).
Proof. induction 1; cbn; pgo. Qed.
Lemma pres_fields off args fs : Forall (e_all (method_ok calls)) args -> pres (gen_fields gx off args fs).
Proof. intros H. revert fs. induction H; intros fs; destruct fs; cbn; pgo. Qed.
Lemma pres_arg args i : Forall (e_all (method_ok calls)) args -> pres (arg gx args i).
Proof. intros H. unfold arg. destruct (args !! i) as [e|] eqn:E; [|pgo]. apply Hgx. by eapply Forall_lookup_1. Qed.
#[local] Hint Resolve pres_args pres_fields pres_arg : pres.
Lemma pres_method id m args :
  m ∈ d_methods (cap_of id) -> m_sysno m = 0 \/ m_sysno m ∈ calls -> Forall (e_all (method_ok calls)) args ->
  pres (gen_method bss_sp gx (cap_of id) m args).
Proof.
  intros Hm Hn Hargs. assert (m_sysno m <> 0 -> run_ok perm (svc (m_sysno m))) as Hsvc.
  { intros Hz. destruct (method_known id m Hm) as [?|Hk]; [done|]. rewrite known_word by done. apply run_call; [|constructor]. left. by destruct Hn. }
  unfold cap_of in *. rewrite nth_lookup in *.
  destruct id as [|[|[|[|id]]]]; cbn in Hm; [| | | |by apply not_elem_of_nil in Hm];
  repeat (apply elem_of_cons in Hm as [->|Hm]); try (by apply not_elem_of_nil in Hm);
  unfold gen_method; cbn [m_sysno] in Hsvc |- *; try (specialize (Hsvc ltac:(done)));
  cbn [lookup list_lookup cap_defs default from_option Datatypes.id d_name m_name String.eqb Ascii.eqb Bool.eqb andb orb];
  pgo; apply pres_emits; repeat first [exact Hsvc | apply run_app | apply straight_run; solve [strt]].
Qed.

Lemma pres_addr_node e : covered calls e -> pres (addr_node goffs file gx ga e).
Proof.
  destruct e as [line t lv k]. intros [Hr Hk]%e_all_node. destruct k; cbn [addr_node parts] in *; pgo; destruct Hk; pgo.
Qed.
Lemma pres_binary_node op a b t : covered calls a -> covered calls b -> pres (binary_node gx op a b t).
Proof. intros Ha Hb. unfold binary_node. pgo. Qed.
#[local] Hint Resolve pres_binary_node : pres.
Lemma pres_expr_node e : covered calls e -> pres (expr_node fns goffs bss_sp file gx ga e).
Proof.
  intros He. pose proof He as Hr. destruct e as [line t lv k]. apply e_all_node in Hr as [Hr Hk].
  destruct k; cbn [expr_node parts] in *.
  - pgo.
  - pgo.
  - pgo.
  - pgo.
  - pgo.
  - pgo.
  - destruct Hr as (m' & id & -> & Ht & Hm & Hn). rewrite Ht. destruct Hk. by apply pres_method.
  - pgo.
  - destruct Hk. pgo.
  - apply pres_bind; [by apply Hga|intros _; pgo].
  - apply pres_bind; [by apply Hga|intros _; pgo].
  - pgo.
  - destruct Hk. pgo.
  - destruct Hk. pgo.
  - destruct Hk as (Ha & Hb & Hc). pgo.
  - pgo.
  - pgo.
  - pgo.
  - pgo.
Qed.
End node.
Lemma pres_node fuel addr e : covered calls e -> pres (gen_node fns goffs bss_sp fuel file addr e).
Proof.
  revert addr e. induction fuel as [|fuel IH]; intros addr e He; [apply pres_diverge|]. cbn [gen_node].
  destruct addr; [apply pres_addr_node|apply pres_expr_node]; auto.
Qed.
End expr.

Section stmts.
Context (fns : list func) (goffs : list Z) (bss_sp : Z) (opt_contracts : bool).
Lemma pres_expr fuel file e : covered calls e -> pres (gen_expr fns goffs bss_sp fuel file e).
Proof. apply pres_node. Qed.
#[local] Hint Resolve pres_expr : pres.
Lemma pres_check fuel file c kind text line : covered calls c -> pres (gen_check fns goffs bss_sp opt_contracts fuel file c kind text line).
Proof.
  intros Hc. unfold gen_check. destruct (negb _); [pgo|]. apply pres_bind; [pgo|]. intros ok. apply pres_bind; [pgo|]. intros _.
  apply pres_hole; [by exists X0, 0|apply top_not_svc; by rewrite cbnz_top|by left|]. intros _. cbv zeta. pgo.
Qed.
#[local] Hint Resolve pres_check : pres.
Lemma pres_checks fuel file kind l : clauses method_ok calls l -> pres (gen_checks fns goffs bss_sp opt_contracts fuel file kind l).
Proof. induction 1; cbn [gen_checks]; pgo. Qed.
Lemma run_epilogue : run_ok perm epilogue.
Proof. unfold epilogue. constructor; [left; apply plain_mov_sp|]. constructor; [left; apply plain_ldp_post|]. constructor; [right; by left|constructor]. Qed.
#[local] Hint Extern 1 (pres (emits epilogue)) => (apply pres_emits, run_epilogue) : pres.
Lemma pres_ensures fuel fn : clauses method_ok calls (f_ens fn) -> pres (gen_ensures fns goffs bss_sp opt_contracts fuel fn).
Proof. apply pres_checks. Qed.
#[local] Hint Resolve pres_ensures : pres.
Lemma pres_return fuel fn e :
  clauses method_ok calls (f_ens fn) -> match e with Some e => covered calls e | None => True end ->
  pres (gen_return fns goffs bss_sp opt_contracts fuel fn e).
Proof.
  intros Hf He. pose proof (pres_ensures fuel fn Hf). unfold gen_return. cbv zeta. destruct e as [e|]; [|pgo].
  destruct (is_aggregate _); [|pgo]. apply pres_bind; [pgo|]. intros _. apply pres_emits.
  rewrite !app_assoc. apply run_app; [apply straight_run; strt|apply run_epilogue].
Qed.
Lemma pres_new_labels {A} (l : list A) : pres (new_labels l).
Proof. induction l; cbn [new_labels]; pgo. Qed.
Lemma pres_match_tests arms labs el : pres (match_tests arms labs el).
Proof. revert labs el. induction arms as [|[? ? ? ? ? ?] arms IH]; intros [|l labs] el; cbn [match_tests]; pgo. Qed.
#[local] Hint Resolve pres_return pres_new_labels pres_match_tests : pres.
Lemma pres_arms gs off arms labs en :
  (forall s, covered_s calls s -> pres (gs s)) -> Forall (fun a => covered_s calls (arm_body a)) arms -> pres (gen_arms gs off arms labs en).
Proof.
  intros Hg H. revert labs. induction H as [|[? ? ? ? ? ?] arms Ha _ IH]; intros [|l labs]; cbn [gen_arms]; pgo.
Qed.
Lemma pres_list gs l : (forall s, covered_s calls s -> pres (gs s)) -> Forall (covered_s calls) l -> pres (gen_list gs l).
Proof. intros Hg. induction 1; cbn [gen_list]; pgo; auto. Qed.
Lemma pres_loop brk cont x : pres x -> pres (in_loop brk cont x).
Proof. intros H. unfold in_loop. pgo; done. Qed.
Lemma pres_stmt fuel fn s :
  clauses method_ok calls (f_ens fn) -> covered_s calls s -> pres (gen_stmt fns goffs bss_sp opt_contracts fuel fn s).
Proof.
  intros Hf. revert s. induction fuel as [|fuel IH]; intros s Hs; [apply pres_diverge|]. pose proof IH as IH'.
  destruct s as [b|name t e y va|e|c a b|c b|name lo hi y b|e| | |c tx ln|e arms off]; cbn [gen_stmt]; cbn [s_all] in Hs.
  - apply pres_list; [done|]. by apply s_all_list.
  - destruct t, e, y; pgo.
  - pgo.
  - destruct Hs as (Hc & Ha & Hb). pgo; auto.
  - destruct Hs as (Hc & Hb). apply pres_bind; [pgo|intros ?]. apply pres_bind; [pgo|intros ?]. apply pres_loop. pgo.
  - destruct Hs as (Hlo & Hhi & Hb). destruct y; [|pgo]. do 3 (apply pres_bind; [pgo|intros ?]). apply pres_loop. pgo.
  - by apply pres_return.
  - pgo.
  - pgo.
  - destruct Hs. pgo.
  - destruct Hs as [He Ha]. apply s_all_arms in Ha. pgo. by apply pres_arms.
Qed.
Lemma pres_fn fuel fn label : covered_f calls fn -> pres (gen_fn fns goffs bss_sp opt_contracts fuel fn label).
Proof.
  intros (Hr & He & _ & Hb). unfold gen_fn. apply pres_bind; [pgo|intros _]. apply pres_bind.
  - apply pres_straight. strt.
  - intros _. apply pres_bind; [by apply pres_checks|intros _]. apply pres_bind; [by apply pres_stmt|intros _]. pgo.
Qed.
Lemma pres_fns fuel l i : Forall (covered_f calls) l -> pres (gen_fns fns goffs bss_sp opt_contracts fuel l i).
Proof. intros H. revert i. induction H; intros i; cbn [gen_fns]; [pgo|]. apply pres_bind; [by apply pres_fn|done]. Qed.
End stmts.

(** *** The compiler's own pieces *)
Lemma run_svc n : n ∈ known_calls -> perm n -> run_ok perm (svc n).
Proof. intros Hk Hp. rewrite known_word by done. apply run_call; [done|constructor]. Qed.
Lemma run_b0 l : run_ok perm l -> run_ok perm (a_b 0 :: l).
Proof. apply run_word. by do 2 right. Qed.
Lemma run_ret l : run_ok perm l -> run_ok perm (a_ret :: l).
Proof. apply run_word. right. by left. Qed.
Section pieces.
Context (Hexit : 93 ∈ calls).
Lemma run_exit : run_ok perm (svc 93).
Proof. apply run_svc; [unfold known_calls; set_solver|by left]. Qed.
Ltac run :=
  repeat first
    [ solve [strt; apply run_nil] | apply run_nil | apply run_b0 | apply run_ret | apply run_exit | assumption
    | solve [apply straight_run; strt]
    | apply run_app
    | (apply run_word; [left; solve [auto with plain]|]) ].
Lemma pres_start sp main l : pres (gen_start sp main l).
Proof.
  unfold gen_start. apply pres_bind; [pgo|intros _]. apply pres_bind; [pgo|intros _].
  apply pres_bind; [apply pres_straight; constructor; [auto with plain|auto with strt]|intros _].
  apply pres_bind; [pgo|intros _]. apply pres_bind; [pgo|intros _]. apply pres_emits. run.
Qed.
Section own.
Context (Hlate : late = true).
Lemma run_write : run_ok perm (svc 64).
Proof. apply run_svc; [unfold known_calls; set_solver|by right]. Qed.
Ltac piece := pose proof run_write; pgo; first [by apply pres_emit; right; left | apply pres_emits; run].
Lemma pres_fail : pres gen_fail.
Proof. unfold gen_fail. piece. Qed.
Lemma pres_argget sp : pres (gen_argget sp).
Proof. unfold gen_argget. piece. Qed.
Lemma pres_cstr sp : pres (gen_cstr sp).
Proof. unfold gen_cstr. piece. Qed.
Lemma pres_write2 : pres gen_write2.
Proof. unfold gen_write2. piece. Qed.
Lemma pres_num sp : pres (gen_num sp).
Proof. unfold gen_num. piece. Qed.
Lemma pres_range sp : pres (gen_range sp).
Proof. unfold gen_range, saved. cbv zeta. piece. Qed.
End own.
End pieces.
End pres.
End code.

(** ** After the fixups *)
#[local] Transparent a_b a_bl a_bcond a_cbz a_cbnz a_movz a_add_imm a_adrp.
Lemma r_small x : 0 <= r x < 32.
Proof. pose proof (land_le x 31 ltac:(done)). unfold r. lia. Qed.
(** What a branch of each kind encodes. *)
Definition enc (k : fixkind) (x o : Z) : Z :=
  match k with
  | FX_B26 => a_b o | FX_BL26 => a_bl o | FX_B19 => a_bcond x o | FX_CBZ => a_cbz x o | FX_CBNZ => a_cbnz x o
  | FX_ADRP _ _ | FX_ADD12 _ _ => 0
  end.
Definition reach (k : fixkind) (o : Z) : Z :=
  match k with FX_B26 | FX_BL26 => swrap 26 (Z.land o 0x3FFFFFF) | _ => swrap 19 (Z.land o 0x7FFFF) end.
Lemma jump_enc k i x o : branching k -> jump_target i (enc k x o) = Some (i + reach k o).
Proof.
  destruct k; intros Hb; try done; cbn [enc reach].
  - apply jump26; [done|by left].
  - apply jump26; [done|by right].
  - apply jump19; [done|by left|]. pose proof (land_le x 15 ltac:(done)). lia.
  - apply jump19; [done|right; by left|apply r_small].
  - apply jump19; [done|right; right; by left|apply r_small].
Qed.
Lemma reach_near k o : - 2 ^ 18 <= o < 2 ^ 18 -> reach k o = o.
Proof. intros Ho. destruct k; cbn [reach]; first [apply (swrap_land 26); lia|apply (swrap_land 19); lia]. Qed.
Lemma jump_top i w k : jump_target i w = Some k -> top w <> 0xD4 /\ top w <> 0xD2.
Proof. unfold jump_target. intros H. by split; intros E; rewrite E in H. Qed.
Lemma movz_top rd n : top (a_movz rd n 0) = 0xD2.
Proof. unfold a_movz. tops. Qed.
Lemma add_top rd rn n : top (a_add_imm rd rn n false) = 0x91.
Proof. unfold a_add_imm. tops. Qed.
Lemma adrp_top rd v : top (a_adrp rd v) ∈ [0x90; 0xB0; 0xD0; 0xF0].
Proof.
  unfold a_adrp. cbv zeta. unfold ors; cbn [fold_left]; rewrite !top_lor, top_r. rewrite (top_shl _ 0x7FFFF 5); [|done|by apply land_le|done].
  rewrite !Z.lor_0_r. pose proof (land_le v 3 ltac:(done)).
  assert (Z.land v 3 = 0 \/ Z.land v 3 = 1 \/ Z.land v 3 = 2 \/ Z.land v 3 = 3) as [->|[->|[->| ->]]] by lia; cbn; set_solver.
Qed.
(** A hole is neither half of a system call, and its fixup leaves it a hole of
    the same kind. *)
Lemma hole_enc k w : branching k -> hole k w -> exists x o, w = enc k x o.
Proof. destruct k; try done; cbn; intros _; first [intros (x & o & ->); by exists x, o|intros (o & ->); by exists 0, o]. Qed.
Lemma hole_top k w : hole k w -> top w <> 0xD4 /\ top w <> 0xD2.
Proof.
  intros Hh. destruct (decide (branching k)) as [Hb|Hb].
  - destruct (hole_enc k w Hb Hh) as (x & o & ->). eapply jump_top. by apply (jump_enc k 0).
  - destruct k; try done; cbn [hole] in Hh.
    + destruct Hh as (rd & o & ->). pose proof (adrp_top rd o) as H. by split; intros E; rewrite E in H; clear -H; set_solver.
    + destruct Hh as (rd & rn & v & ->). by rewrite add_top.
Qed.

#[local] Opaque a_b a_bl a_bcond a_cbz a_cbnz a_movz a_add_imm a_adrp.
(** What a word of the finished code is. *)
Definition word_ok (calls : list Z) (mark : nat) (ws : list Z) (i : nat) (w : Z) : Prop :=
  plain w = true \/ w = a_ret
  \/ (w = a_svc0 /\ exists j n, i = S j /\ ws !! j = Some (a_movz X8 n 0) /\ may calls mark i n)
  \/ exists k, jump_target (Z.of_nat i) w = Some k /\ 0 <= k /\ ws !! Z.to_nat k <> Some a_svc0.

Section link.
Context (calls : list Z) (mark : nat) (c0 : list Z) (lb : list Z) (ro : Z).
Context (Hlab : Forall (fun l => l = -1 \/ exists k : nat, l = 4 * Z.of_nat k /\ (k <= length c0)%nat /\ c0 !! k <> Some a_svc0) lb).
Context (Hsize : 4 * zlen c0 < 2 ^ 20).

Record linked (l : list fixup) (ws : list Z) : Prop := Linked {
  lk_len : length ws = length c0;
  lk_word : forall i w, ws !! i = Some w -> word_ok calls mark c0 i w \/ exists f, f ∈ l /\ fx_at f = 4 * Z.of_nat i /\ branching (fx_kind f);
  lk_hole : forall f, f ∈ l -> exists i w, fx_at f = 4 * Z.of_nat i /\ ws !! i = Some w /\ hole (fx_kind f) w;
  lk_once : NoDup (fx_at <$> l);
  lk_same : forall i w, c0 !! i = Some w -> top w = 0xD4 \/ top w = 0xD2 -> ws !! i = Some w;
  lk_svc : forall i, ws !! i = Some a_svc0 -> c0 !! i = Some a_svc0
}.
Lemma label_at l t : nth l lb (-1) = t -> 0 <= t -> exists k : nat, t = 4 * Z.of_nat k /\ (k <= length c0)%nat /\ c0 !! k <> Some a_svc0.
Proof.
  intros H Ht. destruct (nth_in_or_default l lb (-1)) as [Hin|E]; [|lia]. rewrite H in Hin. apply list_elem_of_In in Hin.
  rewrite Forall_forall in Hlab. destruct (Hlab _ Hin) as [->|?]; [lia|done].
Qed.
Lemma fixed_branch k x (b : option Z) i t :
  branching k -> b = (if nth t lb (-1) <? 0 then None else Some (enc k x (Z.quot (nth t lb (-1) - 4 * Z.of_nat i) 4))) ->
  (i < length c0)%nat -> forall w, b = Some w -> word_ok calls mark c0 i w /\ w <> a_svc0.
Proof.
  intros Hb -> Hi w E. destruct (Z.ltb_spec (nth t lb (-1)) 0) as [|Ht]; [done|]. injection E as <-.
  destruct (label_at t _ eq_refl Ht) as (n & -> & Hn & Hs). unfold zlen in Hsize.
  replace (4 * Z.of_nat n - 4 * Z.of_nat i) with ((Z.of_nat n - Z.of_nat i) * 4) by lia. rewrite Z.quot_mul by done.
  assert (jump_target (Z.of_nat i) (enc k x (Z.of_nat n - Z.of_nat i)) = Some (Z.of_nat n)) as Hj.
  { rewrite jump_enc by done. rewrite reach_near by lia. f_equal. lia. }
  split.
  - do 3 right. exists (Z.of_nat n). split; [done|]. split; [lia|]. by rewrite Nat2Z.id.
  - apply top_not_svc. by eapply jump_top.
Qed.
Lemma fixed_ok f i old w :
  fx_at f = 4 * Z.of_nat i -> (i < length c0)%nat -> fixed lb ro f old = Some w -> word_ok calls mark c0 i w /\ w <> a_svc0.
Proof.
  intros Ha Hi. destruct f as [at_ k l]. cbn in Ha. subst at_. unfold fixed. cbn [fx_kind fx_at fx_label].
  assert (forall v, plain v = true -> Some v = Some w -> word_ok calls mark c0 i w /\ w <> a_svc0) as Hp.
  { intros v Hv [= <-]. split; [by left|]. intros ->. by cbn in Hv. }
  cbv zeta. destruct k; intros E.
  - by apply (fixed_branch FX_B26 0 _ i l I eq_refl Hi w).
  - by apply (fixed_branch FX_BL26 0 _ i l I eq_refl Hi w).
  - by apply (fixed_branch FX_B19 (Z.land old 15) _ i l I eq_refl Hi w).
  - by apply (fixed_branch FX_CBZ (Z.land old 31) _ i l I eq_refl Hi w).
  - by apply (fixed_branch FX_CBNZ (Z.land old 31) _ i l I eq_refl Hi w).
  - eapply Hp, E. apply plain_adrp.
  - eapply Hp, E. apply plain_add_imm.
Qed.
Lemma linked_step f l ws w :
  linked (f :: l) ws -> fixed lb ro f (nth (Z.to_nat (fx_at f / 4)) ws 0) = Some w -> linked l (<[Z.to_nat (fx_at f / 4) := w]> ws).
Proof.
  intros [Hlen Hw Hh Ho Hsame Hsvc] E. destruct (Hh f ltac:(by left)) as (i & old & Ha & Hi & Hold).
  pose proof (lookup_lt_Some _ _ _ Hi) as Hlt. replace (Z.to_nat (fx_at f / 4)) with i in * by (rewrite Ha, (Z.mul_comm 4), Z.div_mul by done; lia).
  destruct (fixed_ok f i _ w Ha ltac:(lia) E) as [Hok Hns]. cbn in Ho. apply NoDup_cons in Ho as [Hnew Ho].
  assert (forall g, g ∈ l -> fx_at g <> 4 * Z.of_nat i) as Hother.
  { intros g Hg Eg. apply Hnew. rewrite Ha, <- Eg. by apply list_elem_of_fmap_2. }
  split.
  - by rewrite length_insert.
  - intros j x [(-> & <- & _)|(Hne & Hj)]%list_lookup_insert_Some; [by left|]. destruct (Hw j x Hj) as [?|(g & Hg & Hat & Hb)]; [by left|].
    apply elem_of_cons in Hg as [->|Hg]; [lia|]. right. eauto.
  - intros g Hg. destruct (Hh g ltac:(by right)) as (j & x & Hat & Hj & Hx). exists j, x. split; [done|]. split; [|done].
    rewrite list_lookup_insert_ne; [done|]. intros ->. by apply (Hother g Hg).
  - done.
  - intros j x Hj Ht. destruct (decide (i = j)) as [->|].
    + rewrite (Hsame j x Hj Ht) in Hi. injection Hi as ->. destruct (hole_top _ _ Hold). tauto.
    + rewrite list_lookup_insert_ne by done. by apply Hsame.
  - intros j [(-> & -> & _)|(Hne & Hj)]%list_lookup_insert_Some; [done|]. by apply Hsvc.
Qed.
Lemma linked_all l ws ws' : linked l ws -> apply_fixes lb ro l ws = Some ws' -> linked [] ws'.
Proof.
  revert ws. induction l as [|f l IH]; intros ws H E; cbn in E; [by injection E as <-|].
  destruct (fixed _ _ _ _) as [w|] eqn:Ef; [|done]. cbn in E. eapply IH; [|exact E]. by apply linked_step.
Qed.
(** The relinked code, in its own terms. *)
Lemma linked_done ws i w : linked [] ws -> ws !! i = Some w -> word_ok calls mark ws i w.
Proof.
  intros [Hlen Hw _ _ Hsame Hsvc] Hi. destruct (Hw i w Hi) as [[?|[?|[[? (j & n & -> & Hj & Hm)]|(k & Hk & Hk0 & Hs)]]]|(f & Hf & _)].
  - by left.
  - right; by left.
  - right; right; left. split; [done|]. exists j, n. split; [done|]. split; [|done]. apply Hsame; [done|]. right. apply movz_top.
  - do 3 right. exists k. split; [done|]. split; [done|]. intros Hx. by apply Hs, Hsvc.
  - by apply not_elem_of_nil in Hf.
Qed.
End link.

Lemma inv_linked calls mark c fx lb pad :
  inv calls mark c fx lb -> pad = [] \/ pad = [0] -> linked calls mark (c ++ pad) (rev fx) (c ++ pad)
  /\ Forall (fun l => l = -1 \/ exists k : nat, l = 4 * Z.of_nat k /\ (k <= length (c ++ pad))%nat /\ (c ++ pad) !! k <> Some a_svc0) lb.
Proof.
  intros [Hw Hf Ho Hl] Hpad. assert (forall i, (c ++ pad) !! i = Some a_svc0 -> c !! i = Some a_svc0) as Hsvc.
  { intros i [?|[_ Hi]]%lookup_app_Some; [done|]. by destruct Hpad as [->| ->]; [|destruct (i - length c)%nat]. }
  split; [split|].
  - done.
  - intros i w [Hi|[Hi Hp]]%lookup_app_Some.
    + destruct (Hw i w Hi) as [?|[?|[->|[[? (j & n & -> & Hj & Hm)]|(f & Hin & Ha & Hb)]]]].
      * left. by left.
      * left. right. by left.
      * left. do 3 right. exists (Z.of_nat i + 0). split; [by apply (jump_enc FX_B26 _ 0 0)|]. rewrite Z.add_0_r. split; [lia|]. rewrite Nat2Z.id. intros E%Hsvc. by rewrite Hi in E.
      * left. right; right; left. split; [done|]. exists j, n. split; [done|]. split; [by apply lookup_app_l_Some|done].
      * right. exists f. split; [by apply list_elem_of_In, in_rev; rewrite rev_involutive; apply list_elem_of_In|done].
    + left. left. destruct Hpad as [->| ->]; [done|]. by destruct (i - length c)%nat; [injection Hp as <-|].
  - intros f Hin. apply list_elem_of_In, in_rev, list_elem_of_In in Hin. destruct (Hf f Hin) as (i & w & Ha & Hi & Hh). exists i, w.
    split; [done|]. split; [by apply lookup_app_l_Some|done].
  - replace (fx_at <$> rev fx) with (rev (fx_at <$> fx)) by (unfold fmap; by rewrite <- map_rev). by apply NoDup_ListNoDup, NoDup_rev, NoDup_ListNoDup.
  - done.
  - done.
  - eapply Forall_impl; [exact Hl|]. intros l [?|(k & -> & Hk & Hn)]; [by left|right]. exists k. split; [done|]. rewrite length_app. split; [lia|]. by intros ?%Hsvc.
Qed.

(** ** A whole program *)
(** The entry code and the functions, before the compiler's own pieces. *)
Definition program_code (fuel : nat) (opt_contracts : bool) (u : unit_) (main : func) (main_at : nat) : gen () :=
  let '(goffs, (sp, _, _, _, _)) := bss_layout u in
  do! _ := gen_start sp main (fn_label main_at) in gen_fns (u_fns u) goffs sp opt_contracts fuel (u_fns u) 0.
(** Where the report of a failed claim begins, in words. *)
Definition report_at (fuel : nat) (opt_contracts : bool) (u : unit_) : nat :=
  match u_entry u with
  | Some i =>
      match u_fns u !! i with
      | Some main =>
          match program_code fuel opt_contracts u main i (init_gst (length (u_fns u))) with
          | Ret (inr (_, g)) => length (code g)
          | _ => 0%nat
          end
      | None => 0%nat
      end
  | None => 0%nat
  end.
Lemma pres_program calls mark fuel opt u main i :
  sys_ok calls -> 93 ∈ calls -> Forall (covered_f calls) (u_fns u) -> pres calls mark false (program_code fuel opt u main i).
Proof.
  intros Hs Hx Hf. unfold program_code. destruct (bss_layout u) as [goffs [[[[sp ?] ?] ?] ?]].
  apply pres_bind; [by apply pres_start|intros _; by apply pres_fns].
Qed.
Lemma good_init calls mark n : good calls mark false (init_gst n).
Proof.
  split; [|done]. split; cbn.
  - done.
  - by intros f ?%not_elem_of_nil.
  - constructor.
  - apply (Forall_replicate _ (6 + n) (-1)). by left.
Qed.
Lemma gen_code_inv calls fuel opt u main i x g :
  sys_ok calls -> 93 ∈ calls -> Forall (covered_f calls) (u_fns u) -> u_entry u = Some i -> u_fns u !! i = Some main ->
  gen_code fuel opt u main i (init_gst (length (u_fns u))) = Ret (inr (x, g)) ->
  inv calls (report_at fuel opt u) (rev (code g)) (fixes g) (lab g).
Proof.
  intros Hs Hx Hf Hi Hm E. unfold gen_code in E. unfold report_at. rewrite Hi, Hm.
  pose proof (fun mark => pres_program calls mark fuel opt u main i Hs Hx Hf) as Hp. unfold program_code in *.
  destruct (bss_layout u) as [goffs [[[[sp cstr] numbuf] save] e]].
  apply sbind_inv in E as (u1 & g1 & E1 & E). apply sbind_inv in E as (u2 & g2 & E2 & E).
  assert ((do! _ := gen_start sp main (fn_label i) in gen_fns (u_fns u) goffs sp opt fuel (u_fns u) 0) (init_gst (length (u_fns u))) = Ret (inr (u2, g2))) as Epr.
  { unfold sbind at 1. rewrite E1. exact E2. }
  rewrite Epr. set (mark := length (code g2)).
  assert (good calls mark true g2) as Hg2. { split; [|done]. by apply (Hp mark _ _ _ (good_init calls mark _) Epr). }
  assert (pres calls mark true (do! _ := gen_fail in do! g := sget in
    do! _ := if need_argget g then gen_argget sp else sret () in
    do! _ := if need_cstr g then gen_cstr cstr else sret () in
    if need_range g then do! _ := gen_write2 in do! _ := gen_num numbuf in gen_range save else sret ())) as Hrest.
  { apply pres_bind; [by apply pres_fail|intros _]. apply pres_bind; [apply pres_get|intros g'].
    apply pres_bind; [destruct (need_argget _); [by apply pres_argget|apply pres_ret]|intros _].
    apply pres_bind; [destruct (need_cstr _); [by apply pres_cstr|apply pres_ret]|intros _].
    destruct (need_range _); [|apply pres_ret]. apply pres_bind; [by apply pres_write2|intros _].
    apply pres_bind; [by apply pres_num|intros _]. by apply pres_range. }
  by apply (Hrest g2 x g Hg2 E).
Qed.

(** Where the processor may be next; a return goes back to after some call. *)
Definition is_call (w : Z) : bool := Z.land (top w) 0xFC =? 0x94.
Inductive next (ws : list Z) : nat -> nat -> Prop :=
  | next_on i w : ws !! i = Some w -> w <> a_ret -> next ws i (S i)
  | next_jump i w k : ws !! i = Some w -> jump_target (Z.of_nat i) w = Some k -> 0 <= k -> next ws i (Z.to_nat k)
  | next_ret i j w : ws !! i = Some a_ret -> ws !! j = Some w -> is_call w = true -> next ws i (S j).
Lemma next_svc calls mark ws i j :
  (forall i w, ws !! i = Some w -> word_ok calls mark ws i w) -> next ws j i -> ws !! i = Some a_svc0 ->
  i = S j /\ exists n, ws !! j = Some (a_movz X8 n 0) /\ may calls mark i n.
Proof.
  intros Hok Hn Hi. destruct (Hok i _ Hi) as [?|[?|[[_ (j' & n & -> & Hj & Hm)]|(k & Hk & _)]]]; [done|done| |by apply jump_top in Hk as [? _]].
  inversion Hn as [i0 w Hw Hr E0 E1|i0 w k Hw Hk Hk0 E0 E1|i0 j2 w Hw Hj2 Hc E0 E1]; subst i0.
  - subst j'. eauto.
  - exfalso. destruct (Hok j w Hw) as [Hp|[->|[[-> _]|(k2 & Hk2 & _ & Hs)]]]; [by rewrite plain_no_jump in Hk|done..|].
    rewrite Hk in Hk2. injection Hk2 as <-. by rewrite E1 in Hs.
  - subst j2. rewrite Hj in Hj2. injection Hj2 as <-. unfold is_call in Hc. by rewrite movz_top in Hc.
Qed.

Lemma words_len ws : zlen (concat (b_wr32 <$> ws)) = 4 * zlen ws.
Proof. induction ws as [|w ws IH]; [done|]. rewrite fmap_cons. cbn [concat]. rewrite zlen_app, zlen_b_wr32, IH. unfold zlen. cbn [length]. lia. Qed.

(** The manifest of a compiled program.  In the code of a program the
    checker and the generator passed, every word is an ordinary instruction, a
    return, a branch or call to a place in the code that is no system call, or
    a system call; and whatever leads to a system call, in a run where returns
    go back to after calls, is the word just before it, which puts in [x8] a
    number the manifest lists -- or [write]'s, in the compiler's own report of
    a failed claim, at the end of the code. *)
Theorem savc_manifest_covers fuel fuel' opt u u' calls names caps img :
  Forall ready_f (u_fns u) -> check_unit fuel u = Ret (inr (u', calls, names)) -> gen_unit fuel' opt u' calls caps = Ret (inr img) ->
  rodata_off img < 2 ^ 20 ->
  exists ws, take (Z.to_nat (rodata_off img)) (text img) = concat (b_wr32 <$> ws) /\ syscalls img = calls
    /\ (forall i w, ws !! i = Some w -> word_ok calls (report_at fuel' opt u') ws i w)
    /\ forall i j, next ws j i -> ws !! i = Some a_svc0 ->
         i = S j /\ exists n, ws !! j = Some (a_movz X8 n 0) /\ (n ∈ calls \/ (n = 64 /\ (report_at fuel' opt u' <= i)%nat)).
Proof.
  intros Hf Hc Hg Hsz. destruct (check_unit_covered _ _ _ _ _ Hf Hc) as (Hs & Hcov & Hx).
  unfold gen_unit in Hg. destruct (u_entry u') as [k|] eqn:Ee; [|done]. destruct (u_fns u' !! k) as [main|] eqn:Em; [|done].
  destruct (gen_code _ _ _ _ _ _) as [[d|[x g]]| |] eqn:Eg; try done. cbn [obind] in Hg.
  pose proof (gen_code_inv calls fuel' opt u' main k x g Hs Hx Hcov Ee Em Eg) as Hinv.
  cbv zeta in Hg. set (pad := if Z.even (zlen (code g)) then [] else [0]) in Hg.
  assert (pad = [] \/ pad = [0]) as Hpad by (unfold pad; destruct (Z.even _); auto).
  destruct (inv_linked _ _ _ _ _ pad Hinv Hpad) as [Hlk Hlab].
  destruct (apply_fixes _ _ _ _) as [ws|] eqn:Ea; [|done]. destruct (bss_layout u') as [goffs [[[[sp cstr] numbuf] save] e]].
  injection Hg as <-. cbn [rodata_off text syscalls] in *.
  assert (Hlast : linked calls (report_at fuel' opt u') (rev (code g) ++ pad) [] ws) by (eapply linked_all; [exact Hlab|exact Hsz|exact Hlk|exact Ea]).
  assert (forall i w, ws !! i = Some w -> word_ok calls (report_at fuel' opt u') ws i w) as Hok by (intros i w; by eapply linked_done).
  exists ws. split_and!; [|done|done|].
  - rewrite take_app_le; [apply take_ge|]; pose proof (words_len ws) as Hl; pose proof (lk_len _ _ _ _ _ Hlast) as Hl'; unfold zlen in *; lia.
  - intros i j Hn Hi. by apply (next_svc calls _ ws).
Qed.

Lemma savc_manifest_covers_witness : exists u' calls names img,
  check_unit 20 greeting = Ret (inr (u', calls, names)) /\ gen_unit 20 true u' calls [] = Ret (inr img)
  /\ exists ws, take (Z.to_nat (rodata_off img)) (text img) = concat (b_wr32 <$> ws) /\ syscalls img = calls
    /\ (forall i w, ws !! i = Some w -> word_ok calls (report_at 20 true u') ws i w)
    /\ forall i j, next ws j i -> ws !! i = Some a_svc0 ->
         i = S j /\ exists n, ws !! j = Some (a_movz X8 n 0) /\ (n ∈ calls \/ (n = 64 /\ (report_at 20 true u' <= i)%nat)).
Proof.
  do 4 eexists. split; [vm_compute; reflexivity|]. split; [vm_compute; reflexivity|].
  eapply (savc_manifest_covers 20 20 true greeting).
  - repeat constructor.
  - vm_compute. reflexivity.
  - vm_compute. reflexivity.
  - vm_compute. reflexivity.
Defined.

(** One step of [next] that does not return, and a path of them. *)
Definition nextb (ws : list Z) (i j : nat) : bool :=
  match ws !! i with
  | Some w => ((j =? S i)%nat && negb (w =? a_ret))
      || match jump_target (Z.of_nat i) w with Some k => (0 <=? k) && (Z.to_nat k =? j)%nat | None => false end
  | None => false
  end.
Fixpoint path (ws : list Z) (i : nat) (l : list nat) : bool :=
  match l with [] => true | j :: l => nextb ws i j && path ws j l end.
Lemma nextb_next ws i j : nextb ws i j = true -> next ws i j.
Proof.
  unfold nextb. destruct (ws !! i) as [w|] eqn:E; [|done]. intros [[Hj Hw]%andb_prop|H]%orb_prop.
  - apply Nat.eqb_eq in Hj as ->. eapply next_on; [exact E|]. intros ->. by rewrite Z.eqb_refl in Hw.
  - destruct (jump_target _ w) as [k|] eqn:Ek; [|done]. apply andb_prop in H as [H0 Hj]. apply Nat.eqb_eq in Hj as <-.
    eapply next_jump; [exact E|exact Ek|lia].
Qed.
Lemma path_rtc ws i l : path ws i l = true -> rtc (next ws) i (List.last l i).
Proof.
  revert i. induction l as [|j l IH]; intros i H; [done|]. cbn [path] in H. apply andb_prop in H as [H1 H2].
  eapply rtc_l; [by apply nextb_next|]. specialize (IH j H2).
  assert (forall l (a b c : nat), List.last (a :: l) b = List.last (a :: l) c) as Hlast.
  { clear. induction l as [|x l IH]; intros a b c; [done|]. apply (IH x). }
  destruct l as [|j' l]; [done|]. rewrite (Hlast l j' j i) in IH. exact IH.
Qed.
Definition img_words (img : Image) : list Z :=
  (fun i => rd32 (text img) (4 * Z.of_nat i)) <$> seq 0 (Z.to_nat (rodata_off img / 4)).

