(* ===== verification/Savc.v ===== *)
(** * The sav compiler, from its command line to its file

    [sav/src/main.c], with the passes one after the other, and the theorems
    about the whole: what [savc] makes of any text it compiles is loaded by the
    kernel of [Elf], and cannot ask that kernel for what its manifest leaves
    out. *)
From stdpp Require Import strings.
From S2P Require Import Prelude Bytes Mem Sav Elf ElfRun.
From S2P Require Import SavTypes SavCheck SavCheckRun SavCheckTyped SavArm SavGen SavGenRun.
From S2P Require Import SavLex SavParse SavParseRun.
Import Elf.Load Elf.Write.
Open Scope Z_scope.

(** ** The command line *)
Inductive sdiag := Usage | TooManyFiles | Parsing (d : pdiag) | Checking (d : diag) | Generating (d : gdiag) | Internal.
(** What [main] gathers; [omit_call] is -1 when no call is to be left out. *)
Record options := Opts { in_ : list (list Z); out : list Z; opt_contracts : bool; show : bool; verbose : bool; omit_call : Z }.
Definition no_options : options := Opts [] (str "a.out") true false false (-1).
Definition is_arg (s : string) (a : list Z) : bool := bool_decide (a = str s).
(** [atol]: spaces, a sign, digits; a number that does not fit is a [Fault]. *)
Fixpoint atol_spaces (l : list Z) : list Z :=
  match l with b :: l' => if (b =? 32) || ((9 <=? b) && (b <=? 13)) then atol_spaces l' else l | [] => [] end.
Fixpoint leading_digits (l : list Z) : list Z :=
  match l with b :: l' => if is_digit b then b :: leading_digits l' else [] | [] => [] end.
Definition atol (l : list Z) : outcome Z :=
  match atol_spaces l with
  | b :: l =>
      if b =? 45 then let! v := number 10 0 (leading_digits l) in Ret (- v)
      else if b =? 43 then number 10 0 (leading_digits l)
      else number 10 0 (leading_digits (b :: l))
  | [] => Ret 0
  end.
Fixpoint main_args (argv : list (list Z)) (o : options) : outcome (sdiag + options) :=
  let '(Opts i w c m v k) := o in
  match argv with
  | [] => Ret (inr o)
  | a :: rest =>
      let plain :=
        if is_arg "--no-contracts" a then main_args rest (Opts i w false m v k)
        else if is_arg "--manifest" a then main_args rest (Opts i w c true v k)
        else if is_arg "-v" a then main_args rest (Opts i w c m true k)
        else if (hd 0 a =? 45) then Ret (inl Usage)
        else if (length i <? 16)%nat then main_args rest (Opts (i ++ [a]) w c m v k)
        else Ret (inl TooManyFiles) in
      match rest with
      | b :: rest' =>
          if is_arg "-o" a then main_args rest' (Opts i b c m v k)
          else if is_arg "--omit-call" a then let! n := atol b in main_args rest' (Opts i w c m v n)
          else plain
      | [] => plain
      end
  end.

(** ** The passes *)
Definition omits (o : options) (n : Z) : bool := (0 <=? omit_call o) && (n =? u32 (omit_call o)).
Section savc.
Context (files : list Z -> option (list Z)) (fuel : nat).
(** The tree as it was parsed and as it is after checking, and the image with
    the manifest that is written. *)
Definition compile (o : options) : outcome (sdiag + unit_ * unit_ * Image) :=
  let! r := parse_all files fuel (in_ o) [] [] [] None in
  match r with
  | inl d => Ret (inl (Parsing d))
  | inr u =>
      let! r := check_unit fuel u in
      match r with
      | inl d => Ret (inl (Checking d))
      | inr (u', calls, caps) =>
          let! r := gen_unit fuel (opt_contracts o) u' calls (str <$> caps) in
          match r with
          | inl d => Ret (inl (Generating d))
          | inr (Img t ro bss en tv dv calls caps) =>
              Ret (inr (u, u', Img t ro bss en tv dv (List.filter (fun n => negb (omits o n)) calls) caps))
          end
      end
  end.
(** [main]: the path of the file it writes and what is in it. *)
Definition savc (argv : list (list Z)) : outcome (sdiag + list Z * list Z) :=
  let! r := main_args argv no_options in
  match r with
  | inl d => Ret (inl d)
  | inr o =>
      if (length (in_ o) =? 0)%nat then Ret (inl Usage) else
      let! r := compile o in
      match r with
      | inl d => Ret (inl d)
      | inr (_, _, img) => match write_elf img with Some f => Ret (inr (out o, f)) | None => Ret (inl Internal) end
      end
  end.
End savc.

(** ** What the passes hand on *)
Lemma compile_inv files fuel o u u' img : compile files fuel o = Ret (inr (u, u', img)) ->
  exists calls caps img0, parse_all files fuel (in_ o) [] [] [] None = Ret (inr u)
    /\ check_unit fuel u = Ret (inr (u', calls, caps)) /\ gen_unit fuel (opt_contracts o) u' calls (str <$> caps) = Ret (inr img0)
    /\ text img = text img0 /\ rodata_off img = rodata_off img0 /\ i_entry img = i_entry img0
    /\ text_vaddr img = text_vaddr img0 /\ data_vaddr img = data_vaddr img0 /\ capnames img = capnames img0
    /\ syscalls img = List.filter (fun n => negb (omits o n)) (syscalls img0).
Proof.
  unfold compile. intros E. destruct (parse_all _ _ _ _ _ _ _) as [[d|v]| |]; try done. cbn [obind] in E.
  destruct (check_unit fuel v) as [[d|[[v' calls] caps]]| |] eqn:Ec; try done. cbn [obind] in E.
  destruct (gen_unit _ _ _ _ _) as [[d|img0]| |] eqn:Eg; try done. cbn [obind] in E. destruct img0. injection E as <- <- <-.
  by eexists calls, caps, _.
Qed.
Lemma apply_fixes_len labs ro l ws ws' : apply_fixes labs ro l ws = Some ws' -> length ws' = length ws.
Proof.
  revert ws. induction l as [|f l IH]; intros ws E; cbn in E; [by injection E as <-|].
  destruct (fixed _ _ _ _); [|done]. cbn in E. by rewrite (IH _ E), length_insert.
Qed.
(** The places [gen_unit] gives. *)
Lemma gen_unit_places fuel opt u calls caps img : gen_unit fuel opt u calls caps = Ret (inr img) ->
  text_vaddr img = TEXT_VA /\ i_entry img = TEXT_VA /\ data_vaddr img = DATA_VA /\ capnames img = caps /\ syscalls img = calls
  /\ 0 <= rodata_off img <= zlen (text img).
Proof.
  unfold gen_unit. intros E. destruct (u_entry u); [|done]. destruct (u_fns u !! _); [|done].
  destruct (gen_code _ _ _ _ _ _) as [[d|[x g]]| |]; try done. cbn [obind] in E. cbv zeta in E.
  destruct (apply_fixes _ _ _ _) as [ws|] eqn:Hw; [|done]. destruct (bss_layout u) as [goffs [[[[sp cstr] numbuf] save] e]].
  injection E as <-. cbn [text_vaddr i_entry data_vaddr capnames syscalls rodata_off text]. do 5 (split; [done|]).
  rewrite (zlen_app (concat _)), words_len. pose proof (apply_fixes_len _ _ _ _ _ Hw) as Hl.
  unfold zlen in *. lia.
Qed.
Lemma str_bytes s : bytes_ok (str s).
Proof.
  unfold str. apply Forall_forall. intros x (c & -> & _)%list_elem_of_fmap. cbv beta. unfold is_byte.
  pose proof (Ascii.N_ascii_bounded c). lia.
Qed.
Lemma names_bytes img (caps : list string) : capnames img = str <$> caps -> bytes_ok (names img).
Proof.
  unfold names. intros ->. induction caps as [|c l IH]; [constructor|]. cbn. apply Forall_app. split; [|done].
  apply Forall_app. split; [apply str_bytes|by repeat constructor].
Qed.

(** A program the fixed addresses have room for: code, read-only data and note
    in front of the page of the globals. *)
Record image_fits (img : Image) : Prop := {
  ft_text : bytes_ok (text img);
  ft_apart : TEXT_VA + zlen (text img) + zlen (build_note img) + 4099 <= DATA_VA;
  ft_bss : 0 <= bss_size img < 2 ^ 37;
  ft_names : zlen (names img) < 2 ^ 20
}.
Lemma sys_ok_filter calls f : sys_ok calls -> sys_ok (List.filter f calls).
Proof.
  intros [H1 H2]. split.
  - apply NoDup_ListNoDup, List.NoDup_filter. by apply NoDup_ListNoDup.
  - intros x [Hx _]%list_elem_of_In%List.filter_In. apply H2. by apply list_elem_of_In.
Qed.
Lemma fits_ok img (caps : list string) : image_fits img -> text_vaddr img = TEXT_VA -> i_entry img = TEXT_VA -> data_vaddr img = DATA_VA ->
  capnames img = str <$> caps -> sys_ok (syscalls img) -> image_ok img.
Proof.
  intros [H1 H2 H3 H4] E1 E2 E3 E4 Hs. pose proof (zlen_nonneg (text img)). pose proof (zlen_nonneg (build_note img)).
  destruct Hs as [Hn Hk]. pose proof (submseteq_length _ _ (NoDup_submseteq _ _ Hn Hk)) as Hl. cbn [length known_calls] in Hl.
  assert (first_page DATA_VA = DATA_VA) as Hp by reflexivity.
  split; rewrite ?E1, ?E2, ?E3, ?Hp; try done.
  - unfold TEXT_VA, DATA_VA in H2. lia.
  - apply Forall_forall. intros c Hc. apply Hk in Hc. unfold known_calls in Hc.
    repeat (apply elem_of_cons in Hc as [->|Hc]; [lia|]). by apply not_elem_of_nil in Hc.
  - unfold SAV_MAX_CALLS, zlen. lia.
  - by eapply names_bytes.
Qed.

(** Byte [k] of the word at [i] of the code. *)
Lemma word_byte ws i w k : ws !! i = Some w -> 0 <= k < 4 -> at_ (concat (b_wr32 <$> ws)) (4 * Z.of_nat i + k) = at_ (b_wr32 w) k.
Proof.
  revert i. induction ws as [|x ws IH]; intros i Hi Hk; [done|]. rewrite fmap_cons. cbn [concat].
  destruct i as [|i]; cbn in Hi.
  - injection Hi as ->. rewrite at_app_l by (rewrite zlen_b_wr32; lia). done.
  - rewrite at_app_r, zlen_b_wr32 by (rewrite zlen_b_wr32; lia). rewrite <- (IH i Hi Hk). f_equal. lia.
Qed.
Lemma word_in ws i w : ws !! i = Some w -> 4 * Z.of_nat i + 4 <= zlen (concat (b_wr32 <$> ws)).
Proof. intros Hi%lookup_lt_Some. rewrite words_len. unfold zlen. lia. Qed.




(** ** A program *)
Definition nl : string := String (Ascii.ascii_of_nat 10) EmptyString.
Definition q : string := String (Ascii.ascii_of_nat 34) EmptyString.
Definition greet_sav : list Z := str (
  "use " ++ q ++ "lib.sav" ++ q ++ ";" ++ nl ++
  "// writes, and says what it wrote" ++ nl ++
  "entry fn main(out: Console) -> i32 {" ++ nl ++
  "    var s: Said;" ++ nl ++
  "    s.long = out!write(" ++ q ++ "hi" ++ q ++ ");" ++ nl ++
  "    assert s.long == twice(1);" ++ nl ++
  "    return 0;" ++ nl ++
  "}" ++ nl)%string.
Definition lib_sav : list Z := str (
  "struct Said { last: u8, long: i64 }" ++ nl ++
  "enum Reply { Ok(n: i64), No }" ++ nl ++
  "fn twice(n: i64) -> r: i64 needs n < 0x100 gives r >= n { return n + n; }" ++ nl)%string.
Definition disk (path : list Z) : option (list Z) :=
  if bool_decide (path = str "d/greet.sav") then Some greet_sav
  else if bool_decide (path = str "d/lib.sav") then Some lib_sav else None.
Definition greet_opts : options := Opts [str "d/greet.sav"] (str "greet") true false false (-1).
Example greet_arguments : main_args [str "-o"; str "greet"; str "d/greet.sav"] no_options = Ret (inr greet_opts).
Proof. reflexivity. Qed.
Definition compiled (o : options) : option (unit_ * unit_ * Image) := match compile disk 60 o with Ret (inr r) => Some r | _ => None end.
Definition no_unit : unit_ := Unit [] [] [] None.
Definition greet_tree : unit_ := match compiled greet_opts with Some (u, _, _) => u | None => no_unit end.
Definition greet_unit : unit_ := match compiled greet_opts with Some (_, u, _) => u | None => no_unit end.
Definition greet_img : Image := match compiled greet_opts with Some (_, _, i) => i | None => ex_image end.
Lemma greet_compiled : compile disk 60 greet_opts = Ret (inr (greet_tree, greet_unit, greet_img)).
Proof. vm_compute. reflexivity. Qed.
Lemma greet_fits : image_fits greet_img.
Proof.
  assert (forall a b c, (a <=? b) && (b <? c) = true -> a <= b < c) as Hr by (intros a b c; rewrite andb_true_iff; lia).
  split.
  - apply (bool_decide_unpack _). vm_compute. exact Logic.I.
  - apply Z.leb_le. vm_compute. reflexivity.
  - apply Hr. vm_compute. reflexivity.
  - apply Z.ltb_lt. vm_compute. reflexivity.
Qed.

(** Named twice, on the command line or there and by a [use], a file is parsed
    twice, and its second functions are never called. *)
Example parsed_twice : exists u, parse_all disk 60 [str "d/greet.sav"; str "d/lib.sav"] [] [] [] None = Ret (inr u)
  /\ f_name <$> u_fns u = ["twice"; "main"; "twice"]%string.
Proof. eexists. split; vm_compute; reflexivity. Qed.
(** A character at the end of the text is read past it. *)
Example quote_at_end : lex_init (str "'") = Fault.
Proof. reflexivity. Qed.
(** Nineteen digits too many. *)
Example number_too_large : lex_init (str "9223372036854775808") = Fault.
Proof. reflexivity. Qed.
